(* ===== verification/_CoqProject ===== *)
-Q . S2P
Prelude.v
Text.v
Launch.v
Pane.v
SplitGeometry.v
Tab.v
Snapshot.v
Workspace.v
Shell.v
TabFacts.v
TabLayout.v
SnapshotFacts.v
WorkspaceFacts.v
ShellFacts.v
ShellNames.v
ShellSafety.v
ShellTransfer.v
ShellProps.v
Examples.v
Session.v
Mailbox.v
MailboxSystem.v
Grid.v
GridFacts.v
Csi.v
Parse.v
CsiFacts.v
Reflow.v
ReflowFacts.v
Utf8.v
Utf8Facts.v
Feed.v
FeedFacts.v
Screen.v
Scroll.v
Images.v
Placements.v
Placeholders.v
Kitty.v
Sixel.v
ImageCalls.v
Edit.v
Control.v
StableRows.v
ScreenFacts.v
TerminalInv.v
TerminalKeeps.v
ControlKeeps.v
ResizeFacts.v
Tracking.v
Effects.v
EffectsControl.v
StableFacts.v
Printing.v
GraphemeFacts.v
Concrete.v
TerminalProps.v
GraphicsTrace.v
ImageFacts.v
ImageDeletion.v
KittyFacts.v
Attachments.v
SixelFacts.v
ImageInvariant.v
ImageProps.v
RuntimeApi.v
Publication.v
PublicationSystem.v
Config.v
Window.v
HostDrain.v
Pipeline.v
Delta.v
PaneWorker.v
Hub.v
PipelineProps.v
Modes.v
ModesFacts.v
Queries.v
QueriesFacts.v
