(* ===== verification/Prelude.v ===== *)
(** * R-Term: a model of the terminal emulator's core

    R-Term is a terminal emulator written in Rust. Its window event loop
    ([rssh-app]) drives one [AppShell] per window: a tree of workspaces, tabs
    and panes that every key binding and menu entry changes through
    [AppShell::apply_action]. Each pane runs a session ([SessionLifecycle])
    whose output reaches a worker thread through byte-budgeted mailboxes
    ([rssh-runtime]). The worker collects output into batches; a scanner cuts
    them into text and controls, a tracker follows the modes, and the terminal
    ([rssh-terminal]) decodes the bytes and changes its screen: a grid of
    cells, a scrollback, modes, margins, an alternate screen and inline
    images. What a batch changed is published as a frame and a list of
    numbered effects; the host drains the panes of its hub and hands the
    batches to the reducer of the window ([rssh-native]). The configuration
    ([rssh-config]) is layered, validated and reloaded. This library models
    these parts and proves what makes them correct.

    ** Files and the code they model

    - [Prelude]: integer widths, vectors, the panic/error/state monad [M]
      with its triples [triple] and [keeps], shared lemmas and the hint base
      [rterm]. [Text]: Rust strings as lists of scalar values, [trim], string
      order, hexadecimal formatting. [Parse]: [strip_prefix], [split_once],
      [str::parse] and [to_string].
    - [Launch], [Pane], [SplitGeometry], [Tab], [Snapshot], [Workspace],
      [Shell]: [crates/rssh-domain/src/app_shell.rs], one file per group of
      types. A [Result] with [&mut self] is the monad [M]: [Ok], [Err] with
      the state at the failure, or [Panic]; [expect], indexing and
      [unwrap] are [expect], so panic freedom is a theorem and not an
      assumption. A [Vec] of panes, tabs or workspaces is a list; a
      [HashMap] is a [gmap]. Identifiers are records around a [u64] whose
      counters saturate. The clock, the process id and the unstable sort by
      name are the class [Host], of which only documented behaviour is used;
      [fixed_host] is an instance.
    - [Session]: [crates/rssh-domain/src/session.rs].
    - [Mailbox]: [crates/rssh-runtime/src/mailbox.rs], one function per
      critical section. [MailboxSystem] is the concurrent system around it: a
      step is one critical section of one thread, the delivery of one
      notification, a spurious wake-up or the passing of time.
    - [Grid]: [crates/rssh-terminal/src/cell.rs], [grid.rs], [history.rs].
    - [crates/rssh-terminal/src/parser.rs], in the order of the layers:
      [Csi] (parameters and SGR), [Reflow] (cutting the main screen at a new
      width), [Utf8] and [Feed] (decoding, escape scanning, pending input),
      [Screen] (the state of a screen, cursor, margins, tab stops), [Scroll]
      (scrolling, history, damage), [Edit] (printing, insertion, deletion,
      erasing), [Control] (modes, alternate screen, resize, resets, OSC, CSI
      dispatch), [StableRows] (what clients read: stable rows, zones, text).
    - The graphics code of the same file: [Images] (placements with their
      identities and attached cells), [Placements] (showing, relative
      placements, deletion, scrolling), [Placeholders] (Unicode
      placeholders), [Kitty] (the protocol), [Sixel], and [ImageCalls], which
      puts them behind the interface the screen code calls.

    - The runtime ([crates/rssh-runtime/src/]): [RuntimeApi] ([api.rs]:
      generations, revisions, effect numbers), [Publication] ([latest.rs],
      the publication of [batch.rs]) with [PublicationSystem], the
      interleaving of the publishing worker and the draining host, [Delta]
      ([delta.rs]: the arenas of a feed), [PaneWorker] ([pane.rs] and the
      batches of [batch.rs]), [Hub] ([hub.rs] and the handles of [pane.rs]),
      [Modes] ([modes.rs]: the mode tracker) and [Queries] ([queries.rs],
      [query_dcs.rs], [visible_output.rs]: the scanner in front of the
      terminal, the classification of controls, the filter of visible text).
    - [Config]: [crates/rssh-config/src/]. [Window]:
      [crates/rssh-native/src/], the state of a window and its reducer.
      [HostDrain]: [drain_runtime] of
      [crates/rssh-app/src/runtime_composition.rs]. [Pipeline] runs
      publication, drain and reducer together.

    ** Interfaces

    - [Feed.Performer] is what the feed layer calls; its laws are
      [PerformerLaws], and [PerformerKeeps] gives an invariant of the
      performer to every run of the feed layer. [Control] implements it.
    - [Screen.Graphics] is what the screen code asks of the graphics code,
      one constructor of [GraphicsCall] per call, with the laws
      [GraphicsLaws]. The theorems about the terminal hold for every lawful
      implementation; [ImageCalls] is the one of the source, and
      [ImageInvariant] discharges the laws.
    - [Screen.External] holds the Unicode tables, [ImageHost] base64, zlib
      and temporary files: code outside the repository, of which only
      documented behaviour is a hypothesis. [Concrete] instantiates them.
    - [Publication.CoalesceLatest] is the trait of values that may replace an
      unread one; frames implement it. [Publication.Allocation] and
      [Config.Paths] hold the allocator's answers and the path functions of
      the platform; the parser of configuration files, clocks and what other
      threads send are arguments.
    - [Effects] lists the kinds of change the terminal's operations are made
      of; a predicate that survives each survives every input.
      [GraphicsTrace] does the same for the graphics fields.

    ** What is proved

    - Shell ([ShellSafety], [ShellProps], [ShellNames], with [TabFacts],
      [WorkspaceFacts], [ShellFacts] carrying the invariants): no action
      panics, the invariant [shell_inv] survives success and failure, a
      failed action changes only counters, sequences stop at the first
      error, the active pane has no unseen output, the search for a free
      workspace name ends.
    - Tabs ([TabLayout], [SplitGeometry]): layout rectangles are
      disjoint and inside the root, directional focus is optimal, rescaling
      keeps ratios without overflow.
    - Transfer ([SnapshotFacts], [ShellTransfer]): snapshot round trip,
      duplicating and importing tabs, opening pending windows, the closed-tab
      history as a bounded stack.
    - Session: [Closed] is terminal, [Connected] is reached only through
      [Connecting].
    - Mailbox: bounds, first-in first-out without loss, no lost wake-up,
      closure only after a full drain, for every interleaving.
    - Grid ([GridFacts]): the shape invariant over all operation sequences,
      exact effect of scrolling and resizing.
    - Parameters and reflow ([CsiFacts], [ReflowFacts]): SGR is total,
      composes and keeps styles well formed; reflow loses no cell and ends.
    - Feeding ([Utf8Facts], [FeedFacts]): decoding is total, a round trip,
      and independent of where well-formed input is cut, also inside escape
      sequences; the ASCII fast path is the general path.
    - Terminal ([ScreenFacts], [TerminalInv], [TerminalKeeps],
      [ControlKeeps], [ResizeFacts], [TerminalProps]): every sequence of
      inputs keeps the terminal well formed; resizing re-establishes the
      invariant, resets the margins and reports what changed ([Printing]:
      plain text always prints; [GraphemeFacts]: erasing, inserting and
      deleting characters repair the wide characters of their row). [Tracking], [Effects], [EffectsControl],
      [StableFacts]: rows not reported as changed are unchanged while the
      screen keeps its identity, and the alternate screen leaves the main one
      alone.
    - Images ([GraphicsTrace], [ImageFacts], [ImageInvariant], [ImageProps]):
      identities, attachments and relations stay consistent on both screens
      under every input; [ImageDeletion]: deletion removes exactly the
      dependants; [KittyFacts]: chunked uploads are one upload and new
      identifiers are free; [Attachments]: attached cells follow the text;
      [SixelFacts]: the decoded image shows the canvas.
    - Publication ([PipelineProps], with the invariants of
      [PublicationSystem] and [Pipeline]): no interleaving loses, repeats or
      reorders effects or loses a frame, a stored frame is always noticed, and
      what a worker publishes is what the window carries out, each effect
      once. [Delta]: the arenas refine a log of what was pushed. [PaneWorker]:
      collecting output loses nothing and ends. [Hub]: a ready pane is drained
      within a round of the others, and the hub stays consistent under every
      sequence of calls, shutting down included.
    - Modes and queries ([ModesFacts], [QueriesFacts]): reading bytes ends
      without a panic and the host's mirror, given the same settings, shows the
      host the modes of the worker;
      the scanner refines an automaton that reads one byte at a time, so
      controls, text and modes do not depend on the chunks output arrives in.
    - Configuration ([Config]): layers resolve to the last that decides, and
      the store keeps the last valid configuration and reports exactly the
      fields an update changed.
    - Defects. For every state they apply to: [Tab::close_pane] leaves
      splits that name the closed pane, after which a snapshot panics
      ([ShellProps]); a close notice removes a pane restarted meanwhile
      ([Hub]); a failed transport write reuses a revision, and the host drops
      what is published under it ([PipelineProps]); discarding an oversized
      string panics when a chunk ends inside its end ([QueriesFacts]). On a
      concrete input: an SGR colour with red component zero is misread
      ([CsiFacts]); malformed UTF-8 decodes differently in chunks
      ([Utf8Facts]); deleting characters can loop for ever and resizing
      inside the alternate screen keeps the main screen's old margins
      ([TerminalProps]); scrolling the alternate screen drops relations of
      the main one, and relative chains exceed their documented depth
      ([ImageProps]); the size of a sixel image is not bounded
      ([SixelFacts]); a publication during a drain can make the host take a
      frame before its effects ([PipelineProps]); a soft reset cut before its
      last byte is lost to the tracker ([ModesFacts]).
    - [Examples], [Concrete] and the [_witness] lemmas apply the theorems to
      concrete states.

    ** Bounds and fuel

    Nested actions recurse structurally. Loops of the source that are not
    structural run with fuel, and a theorem shows that it is enough: the name
    search ([ShellNames]), the feed loop and the decoder ([FeedFacts],
    [Utf8Facts]), reflow ([ReflowFacts]), the passes over relative placements
    ([ImageDeletion], [ImageFacts]) and the search for a free image number
    ([KittyFacts], while a number is free; the source loops otherwise). The
    collection of a batch takes at most as many rounds as its policy admits
    items ([PaneWorker]); the loops over pending bytes take off bytes in every
    round ([ModesFacts], [QueriesFacts]); schedules are finite lists of
    actions. The loop of DCH can really diverge: running out of its fuel is
    [Panic], and [GraphemeFacts] says when it ends. [usize] is 64 bits wide.

    ** Not modelled

    The fragments of images handed to the renderer; the texts of query
    responses and the colour palette of [terminal.rs]; counters of storage
    work; the layout, presentation and key translation of [rssh-native]; the
    window application of [rssh-app] around the reducer, which is event-loop
    and I/O code. Rendering, fonts, transports, diagnostics and the web client
    are I/O, codecs or glue. *)
From Stdlib Require Export ZArith Lia.
From stdpp Require Export base option numbers strings gmap list_numbers list.

#[export] Set Default Proof Using "Type".

Declare Scope rterm_scope.
Delimit Scope rterm_scope with rterm.

(** ** Machine integers

    A fixed-width integer is a [Z] kept in its range; the operations the
    source applies to it ([saturating_add], [saturating_sub], [clamp],
    [try_from]) are written out. *)

Definition u16_max : Z := 65535.
Definition i16_max : Z := 32767.
Definition i16_min : Z := -32768.
Definition i32_max : Z := 2147483647.
Definition i32_min : Z := -2147483648.
Definition u64_max : Z := 18446744073709551615.
Definition u128_modulus : Z := 2 ^ 128.

Definition is_u16 (x : Z) : Prop := (0 ≤ x ≤ u16_max)%Z.
Definition is_i16 (x : Z) : Prop := (i16_min ≤ x ≤ i16_max)%Z.
Definition is_i32 (x : Z) : Prop := (i32_min ≤ x ≤ i32_max)%Z.
Definition is_u64 (x : Z) : Prop := (0 ≤ x ≤ u64_max)%Z.

(** Rust's [Ord::clamp]. *)
Definition clamp (lo hi x : Z) : Z :=
  if bool_decide (x < lo)%Z then lo else if bool_decide (hi < x)%Z then hi else x.

Definition sat_i16 (x : Z) : Z := clamp i16_min i16_max x.
Definition sat_i32 (x : Z) : Z := clamp i32_min i32_max x.
Definition sat_add_u64 (x y : Z) : Z := Z.min (x + y) u64_max.

Lemma clamp_bounds lo hi x : (lo ≤ hi)%Z → (lo ≤ clamp lo hi x ≤ hi)%Z.
Proof. unfold clamp. repeat case_bool_decide; lia. Qed.

Lemma clamp_id lo hi x : (lo ≤ x ≤ hi)%Z → clamp lo hi x = x.
Proof. unfold clamp. repeat case_bool_decide; lia. Qed.

Lemma sat_i32_id x : is_i32 x → sat_i32 x = x.
Proof. apply clamp_id. Qed.

Lemma sat_i16_is_i16 x : is_i16 (sat_i16 x).
Proof. apply clamp_bounds. by vm_compute. Qed.

(** ** Vectors and slices

    [Vec] and slice operations on lists. [l[i]], [Vec::remove] and
    [Vec::insert] panic out of range, so their models return [option];
    [Iterator::position] is [list_find] keeping the index. *)

Definition position {A} (P : A → Prop) `{∀ x, Decision (P x)} (l : list A) : option nat :=
  fst <$> list_find P l.

Definition vec_remove {A} (i : nat) (l : list A) : option (A * list A) :=
  x ← l !! i; Some (x, delete i l).

Definition vec_insert {A} (i : nat) (x : A) (l : list A) : option (list A) :=
  if bool_decide (i ≤ length l) then Some (take i l ++ x :: drop i l) else None.

(** [slice::rotate_left(k)] and [slice::rotate_right(k)]; both panic when
    [k > len], and no caller passes such a [k]. *)
Definition rotate_left {A} (k : nat) (l : list A) : list A := drop k l ++ take k l.
Definition rotate_right {A} (k : nat) (l : list A) : list A :=
  drop (length l - k) l ++ take (length l - k) l.

(** [Vec::retain(|c| *c != x)]. *)
Definition retain_ne {A} `{EqDecision A} (x : A) (l : list A) : list A :=
  filter (λ y, y ≠ x) l.

(** Run [f] on the first element satisfying [P], as a loop that returns at
    its first match does. *)
Fixpoint update_first {A} (P : A → Prop) `{∀ x, Decision (P x)} (f : A → A)
    (l : list A) : option (list A) :=
  match l with
  | [] => None
  | x :: l' =>
      if decide (P x) then Some (f x :: l') else cons x <$> update_first P f l'
  end.

(** ** Fallible, stateful code

    A method [fn m(&mut self, ..) -> Result<A, E>] is a function from the
    state to an [outcome]: [Ok] and [Err] both carry the state the method
    leaves behind, because an early [return Err] keeps what was already
    written, and [Panic] is an [expect], an [unwrap] or an index out of
    range. *)

Inductive outcome (E S A : Type) : Type :=
| Ok (a : A) (s : S)
| Err (e : E) (s : S)
| Panic.
Arguments Ok {E S A} a s.
Arguments Err {E S A} e s.
Arguments Panic {E S A}.

Definition M (E S A : Type) : Type := S → outcome E S A.

#[export] Instance M_ret {E S} : MRet (M E S) := λ A a s, Ok a s.
#[export] Instance M_bind {E S} : MBind (M E S) := λ A B k m s,
  match m s with
  | Ok a s' => k a s'
  | Err e s' => Err e s'
  | Panic => Panic
  end.

#[export] Instance M_fmap {E S} : FMap (M E S) := λ A B f m s,
  match m s with
  | Ok a s' => Ok (f a) s'
  | Err e s' => Err e s'
  | Panic => Panic
  end.

Section monad.
  Context {E S : Type}.

Definition get_state : M E S S := λ s, Ok s s.
Definition put_state (s : S) : M E S () := λ _, Ok () s.
Definition modify (f : S → S) : M E S () := λ s, Ok () (f s).
Definition throw {A} (e : E) : M E S A := λ s, Err e s.
Definition panic {A} : M E S A := λ _, Panic.

(** [option.expect(..)] and [option.ok_or(e)?]. *)
Definition expect {A} (o : option A) : M E S A :=
  match o with Some a => mret a | None => panic end.
Definition ok_or {A} (o : option A) (e : E) : M E S A :=
  match o with Some a => mret a | None => throw e end.

(** Run a method of a part of the state, found with [g] and written back
    with [p]; [None] is the panic of the [expect] that finds it. *)
Definition zoom {T A} (g : S → option T) (p : T → S → S) (m : M E T A) : M E S A := λ s,
  match g s with
  | None => Panic
  | Some t =>
      match m t with
      | Ok a t' => Ok a (p t' s)
      | Err e t' => Err e (p t' s)
      | Panic => Panic
      end
  end.

(** [for x in l { f(x)?; }] *)
Definition iterM {A} (f : A → M E S ()) : list A → M E S () :=
  fix go l := match l with [] => mret () | x :: l' => f x;; go l' end.

(** [for x in &mut l { m(x)?; }] over a vector held by the state. *)
Fixpoint for_each_mut (m : M E S ()) (l : list S) : outcome E (list S) () :=
  match l with
  | [] => Ok () []
  | x :: rest =>
      match m x with
      | Ok _ x' =>
          match for_each_mut m rest with
          | Ok _ rest' => Ok () (x' :: rest')
          | Err e rest' => Err e (x' :: rest')
          | Panic => Panic
          end
      | Err e x' => Err e (x' :: rest)
      | Panic => Panic
      end
  end.

(** Run [m] on a value outside the state and continue with its result. *)
Definition run_on {T A} (t : T) (m : M E T A) : M E S (A * T) := λ s,
  match m t with
  | Ok a t' => Ok (a, t') s
  | Err e _ => Err e s
  | Panic => Panic
  end.

End monad.

(** ** Specifications of methods

    [triple P m Q R]: from a state satisfying [P], [m] does not panic; an
    [Ok a] ends in a state satisfying [Q a], an [Err e] in one satisfying
    [R e]. *)

Definition triple {E S A} (P : S → Prop) (m : M E S A)
    (Q : A → S → Prop) (R : E → S → Prop) : Prop :=
  ∀ s, P s → match m s with Ok a s' => Q a s' | Err e s' => R e s' | Panic => False end.

(** [keeps I m]: no panic, and [I] holds after success and after failure. *)
Definition keeps {E S A} (I : S → Prop) (m : M E S A) : Prop :=
  triple I m (λ _, I) (λ _, I).

Section triples.
  Context {E S : Type}.
  Implicit Types (P : S → Prop).

Lemma triple_ret {A} P (a : A) (Q : A → S → Prop) (R : E → S → Prop) :
  (∀ s, P s → Q a s) → triple P (mret a) Q R.
Proof. intros H s Hs. by apply H. Qed.

Lemma triple_bind {A B} P (m : M E S A) (k : A → M E S B) Q' Q R :
  triple P m Q' R → (∀ a, triple (Q' a) (k a) Q R) → triple P (m ≫= k) Q R.
Proof.
  intros Hm Hk s Hs. specialize (Hm s Hs). unfold mbind, M_bind.
  destruct (m s) as [a s'|e s'|]; [|done|done]. by apply Hk.
Qed.

Lemma triple_conseq {A} (P P' : S → Prop) (m : M E S A) (Q Q' : A → S → Prop)
    (R R' : E → S → Prop) :
  triple P' m Q' R' → (∀ s, P s → P' s) → (∀ a s, Q' a s → Q a s) →
  (∀ e s, R' e s → R e s) → triple P m Q R.
Proof. intros Hm HP HQ HR s Hs. specialize (Hm s (HP _ Hs)). case_match; auto. Qed.

Lemma triple_throw {A} P (e : E) (Q : A → S → Prop) (R : E → S → Prop) :
  (∀ s, P s → R e s) → triple P (throw e) Q R.
Proof. intros H s Hs. by apply H. Qed.

Lemma triple_modify P (f : S → S) (Q : () → S → Prop) (R : E → S → Prop) :
  (∀ s, P s → Q () (f s)) → triple P (modify f) Q R.
Proof. intros H s Hs. by apply H. Qed.

Lemma triple_expect {A B} P (o : option A) a (k : A → M E S B) Q R :
  o = Some a → triple P (k a) Q R → triple P (expect o ≫= k) Q R.
Proof. intros -> Hk s Hs. by apply Hk. Qed.

Lemma triple_read {B} P (k : S → M E S B) Q R :
  (∀ s, P s → triple (λ s', s' = s) (k s) Q R) → triple P (get_state ≫= k) Q R.
Proof. intros Hk s Hs. by apply (Hk s Hs). Qed.

Lemma keeps_bind {A B} (I : S → Prop) (m : M E S A) (k : A → M E S B) :
  keeps I m → (∀ a, keeps I (k a)) → keeps I (m ≫= k).
Proof. apply triple_bind. Qed.

Lemma keeps_ret {A} (I : S → Prop) (a : A) : keeps (E:=E) I (mret a).
Proof. by intros s Hs. Qed.

Lemma keeps_throw {A} (I : S → Prop) (e : E) : keeps (A:=A) I (throw e).
Proof. by intros s Hs. Qed.

Lemma keeps_modify (I : S → Prop) (f : S → S) :
  (∀ s, I s → I (f s)) → keeps (E:=E) I (modify f).
Proof. intros H s Hs. by apply H. Qed.

Lemma keeps_ok_or {A} (I : S → Prop) (o : option A) (e : E) : keeps I (ok_or o e).
Proof. destruct o; intros s Hs; done. Qed.

Lemma keeps_iterM {A} (I : S → Prop) (f : A → M E S ()) l :
  Forall (λ x, keeps I (f x)) l → keeps I (iterM f l).
Proof. induction 1; [apply keeps_ret|]. by apply keeps_bind. Qed.

(** A part that is always present and whose replacement re-establishes [I]
    lifts its own triples to the whole. *)
Lemma keeps_zoom {T A} (I : S → Prop) (J : T → Prop) g p (m : M E T A) :
  (∀ s, I s → ∃ t, g s = Some t ∧ J t) →
  (∀ s t t', I s → g s = Some t → J t' → I (p t' s)) →
  keeps J m → keeps I (zoom g p m).
Proof.
  intros Hg Hp Hm s Hs. unfold zoom. destruct (Hg s Hs) as (t & Ht & HJ).
  rewrite Ht. specialize (Hm t HJ). destruct (m t); eauto.
Qed.

Lemma iterM_app {A} (f : A → M E S ()) l k s :
  iterM f (l ++ k) s =
  match iterM f l s with Ok _ s' => iterM f k s' | Err e s' => Err e s' | Panic => Panic end.
Proof.
  revert s. induction l as [|x l IH]; intros s; [done|].
  simpl. unfold mbind, M_bind. destruct (f x s); [apply IH|done|done].
Qed.
End triples.

(** Case analysis on an innermost match of the goal, naming its equation. *)
Ltac case_inner H :=
  match goal with
  | |- context [ match ?x with _ => _ end ] =>
      lazymatch x with
      | context [ match _ with _ => _ end ] => fail
      | _ => destruct x eqn:H
      end
  end.

(** Unfold the operations of the monad; [exec] also splits every branch. *)
Ltac exec_unfold :=
  cbv [mbind M_bind mret M_ret get_state put_state modify throw panic expect ok_or] in *;
  simpl in *.
Ltac exec := exec_unfold; repeat (let H := fresh "Hm" in case_inner H; simplify_eq/=).

(** ** Lists *)

Section lists.
  Context {A : Type}.
  Implicit Types (l : list A) (i : nat) (x : A).

Lemma position_Some (P : A → Prop) `{∀ x, Decision (P x)} l i :
  position P l = Some i ↔
  ∃ x, l !! i = Some x ∧ P x ∧ ∀ j y, l !! j = Some y → j < i → ¬ P y.
Proof.
  unfold position. rewrite fmap_Some. split.
  - intros ([k x] & Hf & ->). apply list_find_Some in Hf. naive_solver.
  - intros (x & Hi & HP & Hmin). exists (i, x).
    split; [|done]. apply list_find_Some. naive_solver.
Qed.

Lemma position_None (P : A → Prop) `{∀ x, Decision (P x)} l :
  position P l = None ↔ Forall (λ x, ¬ P x) l.
Proof. unfold position. rewrite fmap_None. apply list_find_None. Qed.

Lemma position_lookup (P : A → Prop) `{∀ x, Decision (P x)} l i :
  position P l = Some i → ∃ x, l !! i = Some x ∧ P x.
Proof. rewrite position_Some. naive_solver. Qed.

Lemma position_lt (P : A → Prop) `{∀ x, Decision (P x)} l i :
  position P l = Some i → i < length l.
Proof. intros (x & Hx & _)%position_lookup. by eapply lookup_lt_Some. Qed.

Lemma position_exists (P : A → Prop) `{∀ x, Decision (P x)} l x :
  x ∈ l → P x → is_Some (position P l).
Proof.
  intros Hx HP. destruct (position P l) eqn:Hp; [by eexists|].
  apply position_None in Hp. rewrite Forall_forall in Hp. by destruct (Hp x Hx).
Qed.

(** In a list without repeated keys, the position of a key is unique. *)
Lemma position_key {B} `{EqDecision B} (f : A → B) l i x :
  NoDup (f <$> l) → l !! i = Some x →
  position (λ y, f y = f x) l = Some i.
Proof.
  intros Hnd Hi. apply position_Some. exists x. split_and!; [done|done|].
  intros j y Hj Hlt Heq.
  assert (j = i); [|lia]. eapply NoDup_lookup; [exact Hnd| |].
  - rewrite list_lookup_fmap, Hj. simpl. by rewrite Heq.
  - by rewrite list_lookup_fmap, Hi.
Qed.

Lemma vec_remove_Some i l x l' :
  vec_remove i l = Some (x, l') ↔ l !! i = Some x ∧ l' = delete i l.
Proof. unfold vec_remove. destruct (l !! i); naive_solver. Qed.

Lemma vec_insert_perm i x l l' : vec_insert i x l = Some l' → l' ≡ₚ x :: l.
Proof.
  unfold vec_insert. case_bool_decide; [|done]. intros [= <-].
  by rewrite <- Permutation_middle, take_drop.
Qed.

Lemma vec_insert_is_Some i x l : i ≤ length l → is_Some (vec_insert i x l).
Proof. intros H. unfold vec_insert. rewrite bool_decide_eq_true_2 by done. by eexists. Qed.

Lemma vec_insert_lookup i x l l' : vec_insert i x l = Some l' → l' !! i = Some x.
Proof.
  unfold vec_insert. case_bool_decide; [|done]. intros [= <-].
  rewrite lookup_app_r; rewrite length_take; [|lia].
  by replace (i - i `min` length l) with 0 by lia.
Qed.

Lemma delete_perm i l x : l !! i = Some x → l ≡ₚ x :: delete i l.
Proof. apply delete_Permutation. Qed.

Lemma length_delete_lt i l : i < length l → length (delete i l) = length l - 1.
Proof.
  intros [x Hx]%lookup_lt_is_Some. rewrite length_delete; [|by eexists].
  apply lookup_lt_Some in Hx. lia.
Qed.

Lemma elem_of_delete_ne `{EqDecision A} i l x y :
  l !! i = Some y → x ∈ l → x ≠ y → x ∈ delete i l.
Proof. intros Hi Hx Hne. rewrite (delete_perm _ _ _ Hi) in Hx. set_solver. Qed.

Lemma elem_of_delete i l x : x ∈ delete i l → x ∈ l.
Proof.
  intros H. destruct (l !! i) as [y|] eqn:Hi.
  - rewrite (delete_perm _ _ _ Hi). set_solver.
  - rewrite delete_take_drop, take_ge, drop_ge, app_nil_r in H; [done|..];
      apply lookup_ge_None in Hi; lia.
Qed.

Lemma fmap_delete {B} (f : A → B) i l : f <$> delete i l = delete i (f <$> l).
Proof. by rewrite !delete_take_drop, fmap_app, fmap_take, fmap_drop. Qed.

Lemma length_rotate_left k l : length (rotate_left k l) = length l.
Proof. unfold rotate_left. rewrite length_app, length_drop, length_take. lia. Qed.

Lemma length_rotate_right k l : length (rotate_right k l) = length l.
Proof. unfold rotate_right. rewrite length_app, length_drop, length_take. lia. Qed.

Lemma rotate_left_perm k l : rotate_left k l ≡ₚ l.
Proof. unfold rotate_left. by rewrite (Permutation_app_comm _ _), take_drop. Qed.

Lemma rotate_right_perm k l : rotate_right k l ≡ₚ l.
Proof. apply (rotate_left_perm (length l - k)). Qed.

Lemma rotate_right_left k l : k ≤ length l → rotate_right k (rotate_left k l) = l.
Proof.
  intros Hk. unfold rotate_right. rewrite length_rotate_left. unfold rotate_left.
  rewrite drop_app_length', take_app_length'; [apply take_drop|..];
    rewrite length_drop; lia.
Qed.

Lemma rotate_left_right k l : k ≤ length l → rotate_left k (rotate_right k l) = l.
Proof.
  intros Hk. unfold rotate_left, rotate_right.
  rewrite drop_app_length', take_app_length'; [apply take_drop|..];
    rewrite length_drop; lia.
Qed.

Lemma fmap_rotate_left {B} (f : A → B) k l :
  f <$> rotate_left k l = rotate_left k (f <$> l).
Proof. unfold rotate_left. by rewrite fmap_app, fmap_take, fmap_drop. Qed.

Lemma fmap_rotate_right {B} (f : A → B) k l :
  f <$> rotate_right k l = rotate_right k (f <$> l).
Proof. unfold rotate_right. by rewrite fmap_app, fmap_take, fmap_drop, length_fmap. Qed.

Lemma elem_of_retain_ne `{EqDecision A} x l y : y ∈ retain_ne x l ↔ y ∈ l ∧ y ≠ x.
Proof. unfold retain_ne. rewrite list_elem_of_filter. naive_solver. Qed.

Lemma NoDup_retain_ne `{EqDecision A} x l : NoDup l → NoDup (retain_ne x l).
Proof. apply NoDup_filter. Qed.

Lemma update_first_None (P : A → Prop) `{∀ x, Decision (P x)} f l :
  update_first P f l = None ↔ Forall (λ x, ¬ P x) l.
Proof.
  induction l as [|x l IH]; simpl; [by rewrite Forall_nil|].
  rewrite Forall_cons. case_decide; [naive_solver|].
  rewrite fmap_None, IH. naive_solver.
Qed.

Lemma update_first_Some (P : A → Prop) `{∀ x, Decision (P x)} f l l' :
  update_first P f l = Some l' →
  ∃ i x, l !! i = Some x ∧ P x ∧ l' = <[i:=f x]> l ∧ ∀ j y, j < i → l !! j = Some y → ¬ P y.
Proof.
  revert l'. induction l as [|x l IH]; intros l'; simpl; [done|]. case_decide.
  - intros [= <-]. exists 0, x. split_and!; [done..|]. lia.
  - intros (l0 & Hl & ->)%fmap_Some. destruct (IH _ Hl) as (i & y & ? & ? & -> & Hmin).
    exists (S i), y. split_and!; [done..|].
    intros [|j] z Hj; simpl; [naive_solver|]. apply Hmin. lia.
Qed.

Lemma fmap_insert_id {B} (f : A → B) i x y l :
  l !! i = Some x → f y = f x → f <$> <[i:=y]> l = f <$> l.
Proof.
  intros Hi Hf. rewrite list_fmap_insert, Hf. apply list_insert_id.
  by rewrite list_lookup_fmap, Hi.
Qed.

Lemma list_insert_alter_lookup (f : A → A) i l x :
  l !! i = Some x → <[i:=f x]> l = alter f i l.
Proof.
  intros Hi. apply list_eq. intros j. rewrite list_lookup_alter, list_lookup_insert.
  pose proof (lookup_lt_Some _ _ _ Hi). repeat case_decide; subst; rewrite ?Hi; naive_solver.
Qed.

Lemma Forall_insert_lookup (P : A → Prop) l i x :
  Forall P l → P x → Forall P (<[i:=x]> l).
Proof. intros. by apply Forall_insert. Qed.
End lists.

Create HintDb rterm.
#[export] Hint Resolve keeps_ret keeps_throw keeps_ok_or keeps_bind : rterm.
#[export] Hint Resolve NoDup_retain_ne Forall_insert_lookup : rterm.
Create Rewrite HintDb rterm.
#[export] Hint Rewrite @length_rotate_left @length_rotate_right @fmap_rotate_left
  @fmap_rotate_right @length_insert @length_fmap @length_app @length_take @length_drop : rterm.
