(* ===== verification/Text.v ===== *)
(** Rust strings as the sources use them: a [str] is its sequence of
    Unicode scalar values. The file has the operations [app_shell.rs]
    calls: [str::trim], the [Ord] of [str] (byte order of UTF-8, which is
    the order of the scalar values), and the [{:032x}] formatting of a
    128-bit number, with its injectivity. *)
From Stdlib Require Import String Ascii.
From S2P Require Import Prelude.

Local Open Scope Z_scope.

Definition rstring : Type := list Z.

(** An ASCII literal of the source. *)
Definition lit (s : string) : rstring :=
  (λ c, Z.of_N (N_of_ascii c)) <$> list_ascii_of_string s.
Arguments lit s%_string.

(** [char::is_whitespace]: the Unicode property White_Space. *)
Definition is_whitespace (c : Z) : bool :=
  ((9 <=? c) && (c <=? 13)) || (c =? 32) || (c =? 133) || (c =? 160) || (c =? 5760)
  || ((8192 <=? c) && (c <=? 8202)) || (c =? 8232) || (c =? 8233) || (c =? 8239)
  || (c =? 8287) || (c =? 12288).

Fixpoint trim_start (s : rstring) : rstring :=
  match s with
  | [] => []
  | c :: s' => if is_whitespace c then trim_start s' else s
  end.

Definition trim_end (s : rstring) : rstring := rev (trim_start (rev s)).

Definition trim (s : rstring) : rstring := trim_end (trim_start s).

(** [<str as Ord>::le]. *)
Fixpoint str_le (s t : rstring) : bool :=
  match s, t with
  | [], _ => true
  | _ :: _, [] => false
  | a :: s', b :: t' => (a <? b) || ((a =? b) && str_le s' t')
  end.

(** One lower-case hexadecimal digit. *)
Definition hex_digit (d : Z) : Z := if d <? 10 then 48 + d else 87 + d.

(** The [w] low hexadecimal digits of [n], most significant first:
    [format!("{n:0wx}")] for an [n] below [16^w]. *)
Fixpoint hex_padded (w : nat) (n : Z) : rstring :=
  match w with
  | O => []
  | S w' => hex_padded w' (n / 16) ++ [hex_digit (n mod 16)]
  end.

Lemma trim_start_head s c s' : trim_start s = c :: s' → is_whitespace c = false.
Proof. induction s as [|a s IH]; simpl; [done|]. case_match; naive_solver. Qed.

Lemma trim_start_suffix s : ∃ p, s = p ++ trim_start s ∧ Forall is_whitespace p.
Proof.
  induction s as [|a s (p & Hp & Hw)]; simpl; [by exists []|]. case_match eqn:Ha.
  - exists (a :: p). split; [by rewrite Hp at 1|]. constructor; [by rewrite Ha|done].
  - by exists [].
Qed.

Lemma hex_digit_inj d e : 0 ≤ d < 16 → 0 ≤ e < 16 → hex_digit d = hex_digit e → d = e.
Proof. unfold hex_digit. repeat case_match; lia. Qed.

Lemma hex_padded_length w n : length (hex_padded w n) = w.
Proof. revert n. induction w as [|w IH]; intros n; simpl; [done|]. rewrite length_app, IH. simpl. lia. Qed.

Lemma hex_padded_inj w n m :
  0 ≤ n < 16 ^ Z.of_nat w → 0 ≤ m < 16 ^ Z.of_nat w →
  hex_padded w n = hex_padded w m → n = m.
Proof.
  revert n m. induction w as [|w IH]; intros n m Hn Hm Heq; [simpl in *; lia|].
  simpl in Heq. apply app_inj_2 in Heq as [Hh [= Hd]]; [|done].
  rewrite Nat2Z.inj_succ, Z.pow_succ_r in Hn, Hm by lia.
  apply hex_digit_inj in Hd; [|apply Z.mod_pos_bound; lia..].
  assert (n / 16 = m / 16) as Hq.
  { apply IH; [| |done]; split.
    1,3: apply Z.div_pos; lia.
    1,2: apply Z.div_lt_upper_bound; lia. }
  rewrite (Z.div_mod n 16), (Z.div_mod m 16) by lia. by rewrite Hq, Hd.
Qed.

Lemma str_le_total s t : str_le s t = true ∨ str_le t s = true.
Proof.
  revert t. induction s as [|a s IH]; intros [|b t]; simpl; auto.
  destruct (Z.lt_trichotomy a b) as [H|[->|H]].
  - left. by rewrite (proj2 (Z.ltb_lt a b)).
  - rewrite Z.ltb_irrefl, Z.eqb_refl. simpl. apply IH.
  - right. by rewrite (proj2 (Z.ltb_lt b a)).
Qed.

Lemma str_le_trans s t u : str_le s t = true → str_le t u = true → str_le s u = true.
Proof.
  revert t u. induction s as [|a s IH]; intros [|b t] [|c u]; simpl; try done.
  rewrite !orb_true_iff, !andb_true_iff, !Z.ltb_lt, !Z.eqb_eq.
  intros [?|[-> ?]] [?|[-> ?]]; [left; lia|left; lia|left; lia|right; eauto].
Qed.

Lemma str_le_antisym s t : str_le s t = true → str_le t s = true → s = t.
Proof.
  revert t. induction s as [|a s IH]; intros [|b t]; simpl; try done.
  rewrite !orb_true_iff, !andb_true_iff, !Z.ltb_lt, !Z.eqb_eq.
  intros [?|[-> ?]] [?|[? ?]]; [lia|lia|lia|f_equal; auto].
Qed.
