(* ===== verification/Launch.v ===== *)
(** Identifiers and launch descriptions ([rterm-types/src/lib.rs],
    [rssh-domain/src/lib.rs], the first part of [app_shell.rs]): the four
    identifier newtypes, [PaneLaunch] with its local and SSH domains, and
    the launch a child pane inherits. *)
From S2P Require Import Prelude Text.

(** ** Identifiers: newtypes over [u64] *)

Record PaneId := PaneId_new { PaneId_get : Z }.
Record TabId := TabId_new { TabId_get : Z }.
Record WindowId := WindowId_new { WindowId_get : Z }.
Record WorkspaceId := WorkspaceId_new { WorkspaceId_get : Z }.

#[export] Instance PaneId_eq_dec : EqDecision PaneId.
Proof. solve_decision. Defined.
#[export] Instance TabId_eq_dec : EqDecision TabId.
Proof. solve_decision. Defined.
#[export] Instance WindowId_eq_dec : EqDecision WindowId.
Proof. solve_decision. Defined.
#[export] Instance WorkspaceId_eq_dec : EqDecision WorkspaceId.
Proof. solve_decision. Defined.

(** Pane identifiers are map keys. *)
#[export] Instance PaneId_countable : Countable PaneId.
Proof. by apply (inj_countable' PaneId_get PaneId_new); intros []. Defined.

#[export] Instance PaneId_get_inj : Inj (=) (=) PaneId_get.
Proof. intros [] []; simpl; congruence. Qed.
#[export] Instance TabId_get_inj : Inj (=) (=) TabId_get.
Proof. intros [] []; simpl; congruence. Qed.
#[export] Instance WorkspaceId_get_inj : Inj (=) (=) WorkspaceId_get.
Proof. intros [] []; simpl; congruence. Qed.

(** ** Launch descriptions *)

Inductive SshTargetKind := Direct | OpenSsh.

Inductive SshAuthDescription :=
| Agent
| PasswordPrompt
| PrivateKey (path : rstring).

Inductive SshKnownHostsPolicy := RejectUnknown | Prompt | TrustOnFirstUse | AcceptUnknown.

Record SshPaneLaunch := mkSshPaneLaunch {
  ssh_target : rstring;
  ssh_target_kind : SshTargetKind;
  ssh_username : option rstring;
  ssh_port : option Z;
  ssh_auth : SshAuthDescription;
  ssh_known_hosts_policy : SshKnownHostsPolicy;
  ssh_remote_command : list rstring;
}.

Inductive PaneLaunchDomain :=
| Local_
| Ssh (launch : SshPaneLaunch).

Record PaneLaunch := mkPaneLaunch {
  launch_domain : PaneLaunchDomain;
  launch_program : rstring;
  launch_args : list rstring;
  launch_cwd : option rstring;
  launch_environment : gmap rstring rstring;
}.

Module SshPaneLaunch.

Definition new (target : rstring) (auth : SshAuthDescription)
    (policy : SshKnownHostsPolicy) : SshPaneLaunch :=
  mkSshPaneLaunch target Direct None None auth policy [].

Definition openssh (target : rstring) (auth : SshAuthDescription)
    (policy : SshKnownHostsPolicy) : SshPaneLaunch :=
  mkSshPaneLaunch target OpenSsh None None auth policy [].

Definition with_remote_command (command : list rstring) (l : SshPaneLaunch) : SshPaneLaunch :=
  mkSshPaneLaunch (ssh_target l) (ssh_target_kind l) (ssh_username l) (ssh_port l)
    (ssh_auth l) (ssh_known_hosts_policy l) command.

Definition with_target_overrides (username : option rstring) (port : option Z)
    (l : SshPaneLaunch) : SshPaneLaunch :=
  mkSshPaneLaunch (ssh_target l) (ssh_target_kind l) username port
    (ssh_auth l) (ssh_known_hosts_policy l) (ssh_remote_command l).

End SshPaneLaunch.

Module PaneLaunch.

Definition local (program : rstring) : PaneLaunch :=
  mkPaneLaunch Local_ program [] None ∅.

Definition ssh (launch : SshPaneLaunch) : PaneLaunch :=
  mkPaneLaunch (Ssh launch) [] [] None ∅.

Definition for_child_pane (l : PaneLaunch) : PaneLaunch :=
  match launch_domain l with
  | Local_ => l
  | Ssh s =>
      ssh (mkSshPaneLaunch (ssh_target s) (ssh_target_kind s) (ssh_username s)
             (ssh_port s) (ssh_auth s) (ssh_known_hosts_policy s) [])
  end.

Definition with_args (args : list rstring) (l : PaneLaunch) : PaneLaunch :=
  mkPaneLaunch (launch_domain l) (launch_program l) (launch_args l ++ args)
    (launch_cwd l) (launch_environment l).

Definition with_cwd (cwd : rstring) (l : PaneLaunch) : PaneLaunch :=
  mkPaneLaunch (launch_domain l) (launch_program l) (launch_args l)
    (Some cwd) (launch_environment l).

(** [HashMap::extend]: the pairs are inserted in order, a later one wins. *)
Definition with_environment (env : list (rstring * rstring)) (l : PaneLaunch) : PaneLaunch :=
  mkPaneLaunch (launch_domain l) (launch_program l) (launch_args l) (launch_cwd l)
    (foldl (λ m kv, <[kv.1 := kv.2]> m) (launch_environment l) env).

Definition set_cwd (cwd : option rstring) (l : PaneLaunch) : PaneLaunch :=
  mkPaneLaunch (launch_domain l) (launch_program l) (launch_args l) cwd
    (launch_environment l).

End PaneLaunch.

(** A child of an SSH pane reaches the same host with the same identity and
    policy, and never repeats the parent's explicit remote command. *)
Lemma for_child_pane_ssh (l : PaneLaunch) s :
  launch_domain l = Ssh s →
  ∃ s', launch_domain (PaneLaunch.for_child_pane l) = Ssh s' ∧
    ssh_target s' = ssh_target s ∧ ssh_target_kind s' = ssh_target_kind s ∧
    ssh_username s' = ssh_username s ∧ ssh_port s' = ssh_port s ∧
    ssh_auth s' = ssh_auth s ∧
    ssh_known_hosts_policy s' = ssh_known_hosts_policy s ∧
    ssh_remote_command s' = [].
Proof.
  intros H. unfold PaneLaunch.for_child_pane. rewrite H. eexists. by split_and!.
Qed.

(** Inheritance is idempotent: a grandchild launches as a child does. *)
Lemma for_child_pane_idemp (l : PaneLaunch) :
  PaneLaunch.for_child_pane (PaneLaunch.for_child_pane l) = PaneLaunch.for_child_pane l.
Proof. unfold PaneLaunch.for_child_pane. destruct (launch_domain l) eqn:H; simpl; [by rewrite H|done]. Qed.
