(* ===== verification/Pane.v ===== *)
(** A pane and its split ([app_shell.rs], [struct Pane], [PaneSplit], the
    direction enums and [PaneProgress]) and the error type of the shell. *)
From S2P Require Import Prelude Text Launch.

Inductive SplitDirection := SplitLeft | SplitRight | SplitUp | SplitDown.
Inductive ResizeDirection := ResizeLeft | ResizeRight | ResizeUp | ResizeDown.
Inductive PaneDirection := DirLeft | DirRight | DirUp | DirDown | DirNext | DirPrevious.
Inductive PaneRotationDirection := Clockwise | CounterClockwise.

#[export] Instance SplitDirection_eq_dec : EqDecision SplitDirection.
Proof. solve_decision. Defined.

Inductive PaneProgress :=
| ProgressNone
| Percentage (p : Z)
| Error (p : Z)
| Indeterminate.

Record PaneSplit := mkPaneSplit {
  source_pane : PaneId;
  direction : SplitDirection;
  source_size_delta : Z; (** [i16] *)
}.

Record Pane := mkPane {
  pane_id : PaneId;
  pane_launch : PaneLaunch;
  pane_user_vars : gmap rstring rstring;
  pane_badge_format : option rstring;
  pane_progress : PaneProgress;
  pane_has_unseen_output : bool;
  pane_split : option PaneSplit;
}.

Inductive AppShellError :=
| InvalidWorkspace (w : WorkspaceId)
| InvalidTab (t : TabId)
| InvalidTabIndex (i : nat)
| InvalidPane (p : PaneId)
| CannotCloseLastTab
| CannotCloseLastPane
| CannotCloseLastWorkspace
| UnsupportedAction.

Module Pane.

Definition new (id : PaneId) (launch : PaneLaunch) : Pane :=
  mkPane id launch ∅ None ProgressNone false None.

Definition with_split (split : option PaneSplit) (p : Pane) : Pane :=
  mkPane (pane_id p) (pane_launch p) (pane_user_vars p) (pane_badge_format p)
    (pane_progress p) (pane_has_unseen_output p) split.

Definition set_user_var (name value : rstring) (p : Pane) : Pane :=
  mkPane (pane_id p) (pane_launch p) (<[name := value]> (pane_user_vars p))
    (pane_badge_format p) (pane_progress p) (pane_has_unseen_output p) (pane_split p).

Definition set_badge_format (badge : option rstring) (p : Pane) : Pane :=
  mkPane (pane_id p) (pane_launch p) (pane_user_vars p) badge
    (pane_progress p) (pane_has_unseen_output p) (pane_split p).

Definition set_progress (progress : PaneProgress) (p : Pane) : Pane :=
  mkPane (pane_id p) (pane_launch p) (pane_user_vars p) (pane_badge_format p)
    progress (pane_has_unseen_output p) (pane_split p).

Definition set_has_unseen_output (b : bool) (p : Pane) : Pane :=
  mkPane (pane_id p) (pane_launch p) (pane_user_vars p) (pane_badge_format p)
    (pane_progress p) b (pane_split p).

Definition reset_runtime_projection (p : Pane) : Pane :=
  mkPane (pane_id p) (pane_launch p) ∅ None ProgressNone false (pane_split p).

(** [pane.id = id; pane.launch = launch;] *)
Definition set_identity (id : PaneId) (launch : PaneLaunch) (p : Pane) : Pane :=
  mkPane id launch (pane_user_vars p) (pane_badge_format p)
    (pane_progress p) (pane_has_unseen_output p) (pane_split p).

(** [pane.launch.set_cwd(cwd)] *)
Definition set_launch_cwd (cwd : option rstring) (p : Pane) : Pane :=
  set_identity (pane_id p) (PaneLaunch.set_cwd cwd (pane_launch p)) p.

End Pane.

(** [split.source_pane = s] *)
Definition split_with_source (s : PaneId) (sp : PaneSplit) : PaneSplit :=
  mkPaneSplit s (direction sp) (source_size_delta sp).

(** [split.source_size_delta = d] *)
Definition split_with_delta (d : Z) (sp : PaneSplit) : PaneSplit :=
  mkPaneSplit (source_pane sp) (direction sp) d.
