(* ===== verification/SplitGeometry.v ===== *)
(** Split geometry ([app_shell.rs], the free functions after
    [TabReconnectSnapshot::from_tab]): how a span of cells is divided
    between the source of a split and the new pane, the rectangles used to
    look for a neighbour in a direction, and the rescaling of a split when
    the window is resized.

    [i32] values are exact integers: every span starts at 10000 cells or at
    a [u16] terminal size, and the lemmas below keep each value in range.
    Rust's [/] truncates, so it is [Z.quot]. *)
From S2P Require Import Prelude Launch Pane.

Local Open Scope Z_scope.

Definition PANE_DIRECTION_LAYOUT_COLUMNS : Z := 10000.
Definition PANE_DIRECTION_LAYOUT_ROWS : Z := 10000.

(** ** Sizes along one axis *)

Definition adjusted_direction_source_size (total_cells default_source_cells delta : Z) : Z :=
  let max_source_cells := Z.max (sat_i32 (total_cells - 2)) 1 in
  clamp 1 max_source_cells (default_source_cells + delta).

Definition split_pane_direction_sizes (total_cells delta : Z) : option (Z * Z) :=
  let source_cells :=
    adjusted_direction_source_size total_cells (Z.quot (sat_i32 (total_cells - 1)) 2) delta in
  let new_cells := sat_i32 (sat_i32 (total_cells - source_cells) - 1) in
  if bool_decide (0 < source_cells) && bool_decide (0 < new_cells)
  then Some (source_cells, new_cells) else None.

Definition split_pane_direction_columns (total_columns delta rows : Z) : option (Z * Z) :=
  if bool_decide (total_columns < 3) || bool_decide (rows ≤ 0) then None
  else split_pane_direction_sizes total_columns delta.

Definition split_pane_direction_rows (total_rows delta columns : Z) : option (Z * Z) :=
  if bool_decide (total_rows < 3) || bool_decide (columns ≤ 0) then None
  else split_pane_direction_sizes total_rows delta.

(** ** Rectangles *)

Record PaneDirectionRect := mkRect {
  rect_pane_id : PaneId;
  rect_row : Z;
  rect_column : Z;
  rect_rows : Z;
  rect_columns : Z;
}.

Definition rect_right (r : PaneDirectionRect) : Z := rect_column r + rect_columns r.
Definition rect_bottom (r : PaneDirectionRect) : Z := rect_row r + rect_rows r.

Definition range_overlap (first_start first_end second_start second_end : Z) : Z :=
  sat_i32 (Z.min first_end second_end - Z.max first_start second_start).

Definition pane_direction_candidate (active candidate : PaneDirectionRect)
    (d : PaneDirection) : option (Z * Z) :=
  let vertical := range_overlap (rect_row active) (rect_bottom active)
                    (rect_row candidate) (rect_bottom candidate) in
  let horizontal := range_overlap (rect_column active) (rect_right active)
                      (rect_column candidate) (rect_right candidate) in
  let pick distance overlap :=
    if bool_decide (0 ≤ distance) && bool_decide (0 < overlap)
    then Some (distance, overlap) else None in
  match d with
  | DirLeft => pick (rect_column active - rect_right candidate) vertical
  | DirRight => pick (rect_column candidate - rect_right active) vertical
  | DirUp => pick (rect_row active - rect_bottom candidate) horizontal
  | DirDown => pick (rect_row candidate - rect_bottom active) horizontal
  | DirNext | DirPrevious => None
  end.

Definition split_pane_direction_rect_right (source : PaneDirectionRect) (new_pane_id : PaneId)
    (split : PaneSplit) : option (PaneDirectionRect * PaneDirectionRect) :=
  '(source_columns, new_columns) ←
    split_pane_direction_columns (rect_columns source) (source_size_delta split) (rect_rows source);
  Some (mkRect (rect_pane_id source) (rect_row source) (rect_column source)
          (rect_rows source) source_columns,
        mkRect new_pane_id (rect_row source) (rect_column source + source_columns + 1)
          (rect_rows source) new_columns).

Definition split_pane_direction_rect_left (source : PaneDirectionRect) (new_pane_id : PaneId)
    (split : PaneSplit) : option (PaneDirectionRect * PaneDirectionRect) :=
  '(source_columns, new_columns) ←
    split_pane_direction_columns (rect_columns source) (source_size_delta split) (rect_rows source);
  Some (mkRect (rect_pane_id source) (rect_row source) (rect_column source + new_columns + 1)
          (rect_rows source) source_columns,
        mkRect new_pane_id (rect_row source) (rect_column source)
          (rect_rows source) new_columns).

Definition split_pane_direction_rect_down (source : PaneDirectionRect) (new_pane_id : PaneId)
    (split : PaneSplit) : option (PaneDirectionRect * PaneDirectionRect) :=
  '(source_rows, new_rows) ←
    split_pane_direction_rows (rect_rows source) (source_size_delta split) (rect_columns source);
  Some (mkRect (rect_pane_id source) (rect_row source) (rect_column source)
          source_rows (rect_columns source),
        mkRect new_pane_id (rect_row source + source_rows + 1) (rect_column source)
          new_rows (rect_columns source)).

Definition split_pane_direction_rect_up (source : PaneDirectionRect) (new_pane_id : PaneId)
    (split : PaneSplit) : option (PaneDirectionRect * PaneDirectionRect) :=
  '(source_rows, new_rows) ←
    split_pane_direction_rows (rect_rows source) (source_size_delta split) (rect_columns source);
  Some (mkRect (rect_pane_id source) (rect_row source + new_rows + 1) (rect_column source)
          source_rows (rect_columns source),
        mkRect new_pane_id (rect_row source) (rect_column source)
          new_rows (rect_columns source)).

Definition split_pane_direction_rect (source : PaneDirectionRect) (new_pane_id : PaneId)
    (split : PaneSplit) : option (PaneDirectionRect * PaneDirectionRect) :=
  match direction split with
  | SplitRight => split_pane_direction_rect_right source new_pane_id split
  | SplitLeft => split_pane_direction_rect_left source new_pane_id split
  | SplitDown => split_pane_direction_rect_down source new_pane_id split
  | SplitUp => split_pane_direction_rect_up source new_pane_id split
  end.

(** ** Layout sizes and their rescaling *)

Record SplitLayoutSize := mkSize { size_columns : Z; size_rows : Z }.

Definition split_layout_axis_size (size : SplitLayoutSize) (d : SplitDirection) : Z :=
  match d with
  | SplitLeft | SplitRight => size_columns size
  | SplitUp | SplitDown => size_rows size
  end.

(** [None] is the panic of the [expect]. *)
Definition split_layout_size (source : SplitLayoutSize) (d : SplitDirection) (delta : Z) :
    option (SplitLayoutSize * SplitLayoutSize) :=
  let total := Z.max (split_layout_axis_size source d) 3 in
  '(source_cells, new_cells) ← split_pane_direction_sizes total delta;
  Some match d with
       | SplitRight | SplitLeft =>
           (mkSize source_cells (size_rows source), mkSize new_cells (size_rows source))
       | SplitDown | SplitUp =>
           (mkSize (size_columns source) source_cells, mkSize (size_columns source) new_cells)
       end.

Definition preserve_split_source_size_delta (old_total_cells old_delta new_total_cells : Z) :
    option Z :=
  let old_total_cells := Z.max old_total_cells 3 in
  let new_total_cells := Z.max new_total_cells 3 in
  '(old_source_cells, _) ← split_pane_direction_sizes old_total_cells old_delta;
  let old_usable_cells := old_total_cells - 1 in
  let new_usable_cells := new_total_cells - 1 in
  let scaled_source_cells :=
    Z.quot (old_source_cells * new_usable_cells + Z.quot old_usable_cells 2)
      old_usable_cells in
  let scaled_source_cells :=
    if bool_decide (is_i32 scaled_source_cells) then scaled_source_cells else i32_max in
  let source_cells := clamp 1 (new_usable_cells - 1) scaled_source_cells in
  let default_source_cells := Z.quot new_usable_cells 2 in
  let delta := source_cells - default_source_cells in
  Some (if bool_decide (is_i16 delta) then delta
        else if bool_decide (source_cells < default_source_cells) then i16_min else i16_max).

(** ** Interactive resizing *)

Definition split_resize_source_delta (pane new_pane : PaneId) (split : PaneSplit)
    (d : ResizeDirection) : option Z :=
  match direction split, bool_decide (pane = source_pane split), bool_decide (pane = new_pane) with
  | SplitRight, true, false | SplitRight, false, true =>
      match d with
      | ResizeRight => Some 1 | ResizeLeft => Some (-1) | ResizeUp | ResizeDown => None
      end
  | SplitLeft, true, false | SplitLeft, false, true =>
      match d with
      | ResizeLeft => Some 1 | ResizeRight => Some (-1) | ResizeUp | ResizeDown => None
      end
  | SplitDown, true, false | SplitDown, false, true =>
      match d with
      | ResizeDown => Some 1 | ResizeUp => Some (-1) | ResizeLeft | ResizeRight => None
      end
  | SplitUp, true, false | SplitUp, false, true =>
      match d with
      | ResizeUp => Some 1 | ResizeDown => Some (-1) | ResizeLeft | ResizeRight => None
      end
  | _, _, _ => None
  end.

(** ** Lemmas *)

Lemma quot2_div x : 0 ≤ x → Z.quot x 2 = x / 2.
Proof. intros. apply Z.quot_div_nonneg; lia. Qed.

(** A span of at least three cells always splits: the two sides and the
    separator fill it exactly, and the source side is the half span moved
    by the delta and clamped. *)
Lemma split_sizes_spec total delta :
  3 ≤ total ≤ i32_max →
  let s := clamp 1 (total - 2) ((total - 1) / 2 + delta) in
  split_pane_direction_sizes total delta = Some (s, total - 1 - s) ∧
  1 ≤ s ∧ 1 ≤ total - 1 - s.
Proof.
  intros Ht s. unfold i32_max in *.
  assert (1 ≤ s ≤ total - 2) as Hs by (apply clamp_bounds; lia).
  unfold split_pane_direction_sizes, adjusted_direction_source_size.
  rewrite (sat_i32_id (total - 1)), (sat_i32_id (total - 2)) by (unfold is_i32, i32_min, i32_max; lia).
  rewrite quot2_div, Z.max_l by lia. fold s.
  rewrite (sat_i32_id (total - s)) by (unfold is_i32, i32_min, i32_max; lia).
  rewrite sat_i32_id by (unfold is_i32, i32_min, i32_max; lia).
  rewrite !bool_decide_eq_true_2 by lia. simpl. split; [|lia]. do 2 f_equal. lia.
Qed.

(** Whenever the function answers, the parts are positive and fill the span. *)
Lemma split_sizes_Some total delta s n :
  split_pane_direction_sizes total delta = Some (s, n) → 0 ≤ total ≤ i32_max →
  0 < s ∧ 0 < n ∧ s + n + 1 = total.
Proof.
  unfold split_pane_direction_sizes. intros H Ht.
  set (x := adjusted_direction_source_size _ _ _) in H.
  assert (1 ≤ x ≤ Z.max (total - 2) 1) as Hx.
  { unfold x, adjusted_direction_source_size.
    rewrite (sat_i32_id (total - 2)) by (unfold is_i32, i32_min, i32_max in *; lia).
    apply clamp_bounds. lia. }
  rewrite (sat_i32_id (total - x)) in H by (unfold is_i32, i32_min, i32_max in *; lia).
  rewrite sat_i32_id in H by (unfold is_i32, i32_min, i32_max in *; lia).
  repeat case_bool_decide; simplify_eq/=. lia.
Qed.

Definition in_rect (r : PaneDirectionRect) (row column : Z) : Prop :=
  rect_row r ≤ row < rect_bottom r ∧ rect_column r ≤ column < rect_right r.

Definition rect_within (r outer : PaneDirectionRect) : Prop :=
  rect_row outer ≤ rect_row r ∧ rect_bottom r ≤ rect_bottom outer ∧
  rect_column outer ≤ rect_column r ∧ rect_right r ≤ rect_right outer.

Definition rect_disjoint (r1 r2 : PaneDirectionRect) : Prop :=
  ∀ row column, in_rect r1 row column → ¬ in_rect r2 row column.

Definition rect_ok (r : PaneDirectionRect) : Prop :=
  0 < rect_rows r ≤ PANE_DIRECTION_LAYOUT_ROWS ∧
  0 < rect_columns r ≤ PANE_DIRECTION_LAYOUT_COLUMNS.

Lemma in_rect_within r outer row column :
  rect_within r outer → in_rect r row column → in_rect outer row column.
Proof. unfold rect_within, in_rect. lia. Qed.

Lemma rect_within_disjoint r outer other :
  rect_within r outer → rect_disjoint outer other → rect_disjoint r other.
Proof. intros Hw Hd row column Hr. eapply Hd, in_rect_within; eauto. Qed.

Lemma rect_disjoint_sym r1 r2 : rect_disjoint r1 r2 → rect_disjoint r2 r1.
Proof. intros Hd row column H2 H1. by eapply Hd. Qed.

(** Splitting a rectangle gives two positive, disjoint parts inside it; the
    first keeps the source's pane and the second carries the new one. *)
Lemma split_rect_spec source id split a b :
  split_pane_direction_rect source id split = Some (a, b) → rect_ok source →
  rect_pane_id a = rect_pane_id source ∧ rect_pane_id b = id ∧
  rect_ok a ∧ rect_ok b ∧ rect_within a source ∧ rect_within b source ∧ rect_disjoint a b.
Proof.
  unfold rect_ok, PANE_DIRECTION_LAYOUT_ROWS, PANE_DIRECTION_LAYOUT_COLUMNS.
  intros H Hok. unfold split_pane_direction_rect, split_pane_direction_rect_right,
    split_pane_direction_rect_left, split_pane_direction_rect_down,
    split_pane_direction_rect_up, split_pane_direction_columns,
    split_pane_direction_rows in H.
  destruct (direction split);
    (case_match eqn:Hc; [done|]);
    apply orb_false_iff in Hc as [Hc1%bool_decide_eq_false Hc2%bool_decide_eq_false];
    apply bind_Some in H as ([s n] & Hs & [= <- <-]);
    apply split_sizes_Some in Hs as (? & ? & ?); try (unfold i32_max; lia);
    unfold rect_within, rect_disjoint, in_rect, rect_right, rect_bottom; simpl;
    (split_and!; solve [done | lia | intros; lia]).
Qed.

Definition size_ok (s : SplitLayoutSize) : Prop :=
  0 ≤ size_columns s ≤ u16_max ∧ 0 ≤ size_rows s ≤ u16_max.

(** The [expect] in [split_layout_size] cannot fire, and both halves stay in
    the [u16] range the window started from. *)
Lemma split_layout_size_total source d delta :
  size_ok source →
  ∃ a b, split_layout_size source d delta = Some (a, b) ∧ size_ok a ∧ size_ok b.
Proof.
  unfold size_ok, u16_max. intros Hs.
  unfold split_layout_size.
  set (t := split_layout_axis_size source d).
  assert (0 ≤ t ≤ 65535) as Ht by (unfold t; destruct d; simpl; lia).
  destruct (split_sizes_spec (Z.max t 3) delta) as (Hsz & ? & ?); [unfold i32_max; lia|].
  rewrite Hsz. clearbody t. set (c := clamp _ _ _) in *. clearbody c.
  destruct d; do 2 eexists; (split; [done|]); cbn [size_columns size_rows]; lia.
Qed.

Lemma round_div_error a b c :
  0 < c → 0 ≤ a → 0 ≤ b →
  let q := (a * b + c / 2) / c in 2 * Z.abs (q * c - a * b) ≤ c.
Proof.
  intros Hc Ha Hb q.
  pose proof (Z.div_mod (a * b + c / 2) c ltac:(lia)) as Hdm.
  pose proof (Z.mod_pos_bound (a * b + c / 2) c Hc).
  pose proof (Z.div_mod c 2 ltac:(lia)) as H2.
  pose proof (Z.mod_pos_bound c 2 ltac:(lia)).
  fold q in Hdm. clearbody q. lia.
Qed.

(** The rescaled delta on the new span: the source side is the rounded
    proportional size, clamped so that both panes keep a cell. *)
Lemma preserve_delta_spec old_total d new_total :
  0 ≤ old_total ≤ u16_max → 0 ≤ new_total ≤ u16_max →
  let o := Z.max old_total 3 in
  let n := Z.max new_total 3 in
  ∃ s d', split_pane_direction_sizes o d = Some (s, o - 1 - s) ∧
    1 ≤ s ≤ o - 2 ∧
    preserve_split_source_size_delta old_total d new_total = Some d' ∧ is_i16 d' ∧
    (let s' := clamp 1 (n - 2) ((s * (n - 1) + (o - 1) / 2) / (o - 1)) in
     split_pane_direction_sizes n d' = Some (s', n - 1 - s')).
Proof.
  intros Ho Hn o n. unfold u16_max in *.
  destruct (split_sizes_spec o d) as (Hsz & Hs1 & Hs2); [unfold i32_max; lia|].
  set (s := clamp 1 (o - 2) ((o - 1) / 2 + d)) in *.
  set (q := (s * (n - 1) + (o - 1) / 2) / (o - 1)).
  assert (0 ≤ q) as Hq0.
  { apply Z.div_pos; [|lia]. assert (0 ≤ (o - 1) / 2) by (apply Z.div_pos; lia). nia. }
  assert (q < n) as Hqn.
  { apply Z.div_lt_upper_bound; [lia|].
    assert ((o - 1) / 2 < o - 1) by (apply Z.div_lt_upper_bound; lia).
    assert (s * (n - 1) ≤ (o - 2) * (n - 1)) by (apply Z.mul_le_mono_nonneg_r; lia). lia. }
  set (s' := clamp 1 (n - 2) q).
  assert (1 ≤ s' ≤ n - 2) as Hs' by (apply clamp_bounds; lia).
  pose proof (Z.div_mod (n - 1) 2 ltac:(lia)).
  pose proof (Z.mod_pos_bound (n - 1) 2 ltac:(lia)).
  assert (is_i16 (s' - (n - 1) / 2)) as Hd' by (unfold is_i16, i16_min, i16_max; lia).
  exists s, (s' - (n - 1) / 2). split_and!; [done|lia|lia| |done|].
  - unfold preserve_split_source_size_delta. fold o n. rewrite Hsz. simpl.
    rewrite !quot2_div by lia.
    assert (0 ≤ (o - 1) / 2) by (apply Z.div_pos; lia).
    rewrite (Z.quot_div_nonneg _ (o - 1)) by nia. fold q.
    rewrite (bool_decide_eq_true_2 (is_i32 q)) by (unfold is_i32, i32_min, i32_max; lia).
    replace (n - 1 - 1) with (n - 2) by lia. fold s'.
    by rewrite bool_decide_eq_true_2.
  - destruct (split_sizes_spec n (s' - (n - 1) / 2)) as (-> & _); [unfold i32_max; lia|].
    replace ((n - 1) / 2 + (s' - (n - 1) / 2)) with s' by lia.
    by rewrite clamp_id.
Qed.

Lemma preserve_delta_ratio old_total d new_total s d' s' :
  3 ≤ old_total ≤ u16_max → 3 ≤ new_total ≤ u16_max →
  split_pane_direction_sizes old_total d = Some (s, old_total - 1 - s) →
  preserve_split_source_size_delta old_total d new_total = Some d' →
  split_pane_direction_sizes new_total d' = Some (s', new_total - 1 - s') →
  Z.abs (s' * (old_total - 1) - s * (new_total - 1)) < old_total - 1.
Proof.
  intros Ho Hn Hs Hp Hs'.
  destruct (preserve_delta_spec old_total d new_total) as (s0 & d0 & H1 & Hb & H2 & _ & H3);
    [unfold u16_max in *; lia..|].
  rewrite Z.max_l in H1, Hb by lia. rewrite !Z.max_l in H3 by lia.
  assert (s0 = s) as -> by congruence. assert (d0 = d') as -> by congruence.
  rewrite Hs' in H3. injection H3 as -> _.
  pose proof (round_div_error s (new_total - 1) (old_total - 1)) as Hr. simpl in Hr.
  specialize (Hr ltac:(lia) ltac:(lia) ltac:(lia)).
  set (q := (s * (new_total - 1) + (old_total - 1) / 2) / (old_total - 1)) in *. clearbody q.
  assert (1 * (new_total - 1) ≤ s * (new_total - 1)) by (apply Z.mul_le_mono_nonneg_r; lia).
  assert (s * (new_total - 1) ≤ (old_total - 2) * (new_total - 1)) by (apply Z.mul_le_mono_nonneg_r; lia).
  unfold clamp. repeat case_bool_decide; [| |lia].
  - assert (q * (old_total - 1) ≤ 0) by (apply Z.mul_nonpos_nonneg; lia). lia.
  - assert ((new_total - 1) * (old_total - 1) ≤ q * (old_total - 1)) by (apply Z.mul_le_mono_nonneg_r; lia).
    lia.
Qed.

(** Resizing a split span keeps its proportion: the rescaled delta is an
    [i16] without saturation, and the source pane's share of the new span
    differs from its share of the old span by less than one cell (with an
    unchanged span it is the same). *)
Theorem resize_preserves_split_ratio old_total d new_total :
  3 ≤ old_total ≤ u16_max → 3 ≤ new_total ≤ u16_max → is_i16 d →
  ∃ s d' s',
    split_pane_direction_sizes old_total d = Some (s, old_total - 1 - s) ∧
    preserve_split_source_size_delta old_total d new_total = Some d' ∧ is_i16 d' ∧
    split_pane_direction_sizes new_total d' = Some (s', new_total - 1 - s') ∧
    1 ≤ s' ≤ new_total - 2 ∧
    Z.abs (s' * (old_total - 1) - s * (new_total - 1)) < old_total - 1 ∧
    (old_total = new_total → s' = s).
Proof.
  intros Ho Hn Hd.
  destruct (preserve_delta_spec old_total d new_total) as (s & d' & H1 & Hb & H2 & Hd' & H3);
    [unfold u16_max in *; lia..|].
  rewrite Z.max_l in H1, Hb by lia. rewrite !Z.max_l in H3 by lia.
  set (q := (s * (new_total - 1) + (old_total - 1) / 2) / (old_total - 1)) in *.
  exists s, d', (clamp 1 (new_total - 2) q).
  split_and!; try done; [apply clamp_bounds; lia..| |].
  - by eapply (preserve_delta_ratio _ _ _ _ _ _ Ho Hn H1 H2 H3).
  - intros <-. replace q with s; [by apply clamp_id|]. unfold q.
    rewrite Z.add_comm, Z.div_add by lia. rewrite (Z.div_small _ (old_total - 1)); [lia|].
    split; [apply Z.div_pos; lia|apply Z.div_lt_upper_bound; lia].
Qed.

(** 80 columns split in half and 20 cells to the right, rescaled to 120. *)
Lemma resize_preserves_split_ratio_witness :
  ∃ s d' s',
    split_pane_direction_sizes 80 20 = Some (s, 80 - 1 - s) ∧
    preserve_split_source_size_delta 80 20 120 = Some d' ∧ is_i16 d' ∧
    split_pane_direction_sizes 120 d' = Some (s', 120 - 1 - s') ∧
    1 ≤ s' ≤ 120 - 2 ∧
    Z.abs (s' * (80 - 1) - s * (120 - 1)) < 80 - 1 ∧
    (80 = 120 → s' = s).
Proof.
  apply (resize_preserves_split_ratio 80 20 120);
    unfold u16_max, is_i16, i16_min, i16_max; lia.
Defined.
