(* ===== verification/Tab.v ===== *)
(** Tabs ([app_shell.rs], [struct Tab] and [impl Tab]): the ordered panes of
    a tab, its active pane, activation order and zoom, with every method
    that changes them. A method that returns [Result] or can index out of
    range is a computation of the state-error-panic monad over [Tab]; one
    that cannot fail is a function on [Tab]. *)
From stdpp Require Import sorting.
From S2P Require Import Prelude Text Launch Pane SplitGeometry.

Record Tab := mkTab {
  tab_id : TabId;
  tab_panes : list Pane;
  tab_active_pane_id : PaneId;
  tab_pane_activation_order : list PaneId;
  tab_zoomed_pane_id : option PaneId;
  tab_title : option rstring;
}.

Abbreviation TabM := (M AppShellError Tab).

Definition tab_set_panes (panes : list Pane) (t : Tab) : Tab :=
  mkTab (tab_id t) panes (tab_active_pane_id t) (tab_pane_activation_order t)
    (tab_zoomed_pane_id t) (tab_title t).
Definition tab_set_order (order : list PaneId) (t : Tab) : Tab :=
  mkTab (tab_id t) (tab_panes t) (tab_active_pane_id t) order
    (tab_zoomed_pane_id t) (tab_title t).
Definition tab_set_zoomed (zoomed : option PaneId) (t : Tab) : Tab :=
  mkTab (tab_id t) (tab_panes t) (tab_active_pane_id t) (tab_pane_activation_order t)
    zoomed (tab_title t).

(** The pane identifiers in slot order. *)
Definition tab_pane_ids (t : Tab) : list PaneId := pane_id <$> tab_panes t.

Module Tab.

(** [None] is the panic of [expect("tab requires at least one pane")]. *)
Definition new (id : TabId) (panes : list Pane) : option Tab :=
  p ← head panes;
  Some (mkTab id panes (pane_id p) [pane_id p] None None).

Definition set_title (title : rstring) (t : Tab) : Tab :=
  let title := trim title in
  mkTab (tab_id t) (tab_panes t) (tab_active_pane_id t) (tab_pane_activation_order t)
    (tab_zoomed_pane_id t) (if bool_decide (title = []) then None else Some title).

Definition pane_position (pane : PaneId) (t : Tab) : option nat :=
  position (λ p, pane_id p = pane) (tab_panes t).

(** [None] is the panic on a missing active pane. *)
Definition active_pane (t : Tab) : option Pane :=
  i ← pane_position (tab_active_pane_id t) t; tab_panes t !! i.

Definition record_pane_activation (pane : PaneId) (t : Tab) : Tab :=
  tab_set_order (retain_ne pane (tab_pane_activation_order t) ++ [pane]) t.

Definition set_active_pane (pane : PaneId) (t : Tab) : Tab :=
  let switching_panes := bool_decide (tab_active_pane_id t ≠ pane) in
  let t := mkTab (tab_id t) (tab_panes t) pane (tab_pane_activation_order t)
             (tab_zoomed_pane_id t) (tab_title t) in
  let t := match pane_position pane t with
           | Some index =>
               tab_set_panes (alter (Pane.set_has_unseen_output false) index (tab_panes t)) t
           | None => t
           end in
  let t := record_pane_activation pane t in
  if switching_panes then tab_set_zoomed None t else t.

Definition focus_pane (pane : PaneId) : TabM () :=
  t ← get_state;
  match pane_position pane t with
  | None => throw (InvalidPane pane)
  | Some _ => modify (set_active_pane pane)
  end.

Definition focus_pane_by_index (index : nat) (t : Tab) : Tab :=
  match tab_panes t !! index with
  | Some p => set_active_pane (pane_id p) t
  | None => t
  end.

(** The source references of a swap: the two identities trade places. *)
Definition swap_source (active selected : PaneId) (p : Pane) : Pane :=
  match pane_split p with
  | None => p
  | Some split =>
      if decide (source_pane split = active)
      then Pane.with_split (Some (split_with_source selected split)) p
      else if decide (source_pane split = selected)
      then Pane.with_split (Some (split_with_source active split)) p
      else p
  end.

Definition swap_panes (active selected : PaneId) (keep_focus : bool) : TabM () :=
  t ← get_state;
  match pane_position active t with
  | None => throw (InvalidPane active)
  | Some active_index =>
      match pane_position selected t with
      | None => throw (InvalidPane selected)
      | Some selected_index =>
          (if decide (active = selected) then mret ()
           else
             a ← expect (tab_panes t !! active_index);
             s ← expect (tab_panes t !! selected_index);
             let panes := alter (Pane.set_identity selected (pane_launch s)) active_index
                            (tab_panes t) in
             let panes := alter (Pane.set_identity active (pane_launch a)) selected_index panes in
             modify (tab_set_panes (swap_source active selected <$> panes)));;
          modify (set_active_pane (if keep_focus then active else selected))
      end
  end.

(** [split.source_pane = rotated_ids[source_index]] for a known source;
    [None] is an index out of range. *)
Definition rotate_source (old_ids rotated_ids : list PaneId) (p : Pane) : option Pane :=
  match pane_split p with
  | None => Some p
  | Some split =>
      match position (λ id, id = source_pane split) old_ids with
      | None => Some p
      | Some source_index =>
          s ← rotated_ids !! source_index;
          Some (Pane.with_split (Some (split_with_source s split)) p)
      end
  end.

Definition rotate_panes (d : PaneRotationDirection) : TabM () :=
  t ← get_state;
  if bool_decide (length (tab_panes t) ≤ 1) then mret ()
  else
    let old_ids := tab_pane_ids t in
    let identity := (λ p, (pane_id p, pane_launch p)) <$> tab_panes t in
    let rotated_identity :=
      match d with
      | Clockwise => rotate_right 1 identity
      | CounterClockwise => rotate_left 1 identity
      end in
    let rotated_ids := fst <$> rotated_identity in
    let panes := zip_with (λ p idl, Pane.set_identity idl.1 idl.2 p)
                   (tab_panes t) rotated_identity in
    panes ← expect (mapM (rotate_source old_ids rotated_ids) panes);
    modify (tab_set_panes panes).

(** The loop [for index in (0..len).rev()] of [resize_pane]: the last split
    that answers to the direction, with its sign. *)
Fixpoint resize_target (pane : PaneId) (d : ResizeDirection) (panes : list Pane)
    (index : nat) : option (nat * Z) :=
  match index with
  | O => None
  | S index =>
      match panes !! index ≫= (λ p, pane_split p ≫= λ split,
              split_resize_source_delta pane (pane_id p) split d) with
      | Some delta => Some (index, delta)
      | None => resize_target pane d panes index
      end
  end.

Definition add_split_delta (x : Z) (p : Pane) : Pane :=
  match pane_split p with
  | Some split =>
      Pane.with_split (Some (split_with_delta (sat_i16 (source_size_delta split + x)) split)) p
  | None => p
  end.

Definition resize_pane (pane : PaneId) (d : ResizeDirection) (amount : Z) : TabM () :=
  t ← get_state;
  match pane_position pane t with
  | None => throw (InvalidPane pane)
  | Some _ =>
      if bool_decide (amount = 0%Z) then mret ()
      else
        let amount := if bool_decide (is_i16 amount) then amount else i16_max in
        match resize_target pane d (tab_panes t) (length (tab_panes t)) with
        | Some (index, delta) =>
            modify (tab_set_panes (alter (add_split_delta (delta * amount)) index (tab_panes t)))
        | None => mret ()
        end
  end.

(** The loop of [preserve_split_layout_for_resize] over the panes after the
    first, with its two maps from pane to current size; [None] is one of the
    [expect]s on a split size. *)
Fixpoint preserve_split_loop (panes : list Pane)
    (old_sizes new_sizes : gmap PaneId SplitLayoutSize) : option (list Pane) :=
  match panes with
  | [] => Some []
  | p :: rest =>
      match pane_split p with
      | None => cons p <$> preserve_split_loop rest old_sizes new_sizes
      | Some old_split =>
          let src := source_pane old_split in
          match old_sizes !! src with
          | None => cons p <$> preserve_split_loop rest old_sizes new_sizes
          | Some old_source =>
              let old_sizes := delete src old_sizes in
              match new_sizes !! src with
              | None => cons p <$> preserve_split_loop rest old_sizes new_sizes
              | Some new_source =>
                  let new_sizes := delete src new_sizes in
                  let d := direction old_split in
                  '(old_source_next, old_new_pane) ←
                    split_layout_size old_source d (source_size_delta old_split);
                  let old_total := split_layout_axis_size old_source d in
                  let new_total := split_layout_axis_size new_source d in
                  delta ← (if bool_decide (old_total = new_total)
                           then Some (source_size_delta old_split)
                           else preserve_split_source_size_delta old_total
                                  (source_size_delta old_split) new_total);
                  '(new_source_next, new_new_pane) ← split_layout_size new_source d delta;
                  let p' := Pane.with_split (Some (split_with_delta delta old_split)) p in
                  cons p' <$> preserve_split_loop rest
                    (<[pane_id p := old_new_pane]> (<[src := old_source_next]> old_sizes))
                    (<[pane_id p := new_new_pane]> (<[src := new_source_next]> new_sizes))
              end
          end
      end
  end.

Definition preserve_split_layout_for_resize (old_columns old_rows new_columns new_rows : Z) :
    TabM () :=
  t ← get_state;
  match tab_panes t with
  | [] => mret ()
  | first :: rest =>
      let old_sizes := {[ pane_id first := mkSize old_columns old_rows ]} in
      let new_sizes := {[ pane_id first := mkSize new_columns new_rows ]} in
      rest ← expect (preserve_split_loop rest old_sizes new_sizes);
      modify (tab_set_panes (first :: rest))
  end.

Definition toggle_pane_zoom (pane : PaneId) : TabM () :=
  t ← get_state;
  match pane_position pane t with
  | None => throw (InvalidPane pane)
  | Some _ =>
      let was_zoomed := bool_decide (tab_zoomed_pane_id t = Some pane) in
      modify (set_active_pane pane);;
      modify (tab_set_zoomed (if was_zoomed then None else Some pane))
  end.

Definition set_pane_zoom_state (pane : PaneId) (zoomed : bool) : TabM () :=
  t ← get_state;
  match pane_position pane t with
  | None => throw (InvalidPane pane)
  | Some _ =>
      modify (set_active_pane pane);;
      modify (tab_set_zoomed (if zoomed then Some pane else None))
  end.

(** [self.panes[index].f(..)] at the position of [pane], or [InvalidPane]:
    the shape of the five metadata setters. *)
Definition update_pane (pane : PaneId) (f : Pane → Pane) : TabM () :=
  t ← get_state;
  match pane_position pane t with
  | None => throw (InvalidPane pane)
  | Some index =>
      p ← expect (tab_panes t !! index);
      modify (tab_set_panes (<[index := f p]> (tab_panes t)))
  end.

Definition set_pane_current_working_dir (pane : PaneId) (cwd : option rstring) : TabM () :=
  update_pane pane (Pane.set_launch_cwd cwd).

Definition set_pane_user_var (pane : PaneId) (name value : rstring) : TabM () :=
  update_pane pane (Pane.set_user_var name value).

Definition set_pane_badge_format (pane : PaneId) (badge : option rstring) : TabM () :=
  update_pane pane (Pane.set_badge_format badge).

Definition set_pane_progress (pane : PaneId) (progress : PaneProgress) : TabM () :=
  update_pane pane (Pane.set_progress progress).

Definition set_pane_has_unseen_output (pane : PaneId) (b : bool) : TabM () :=
  update_pane pane (Pane.set_has_unseen_output b).

(** [self.set_active_pane(self.panes[i].id())] *)
Definition activate_slot (i : nat) : TabM () :=
  t ← get_state;
  p ← expect (tab_panes t !! i);
  modify (set_active_pane (pane_id p)).

Definition focus_next_pane : TabM () :=
  t ← get_state;
  if bool_decide (length (tab_panes t) ≤ 1) then mret ()
  else
    let index := default 0 (pane_position (tab_active_pane_id t) t) in
    activate_slot ((index + 1) mod length (tab_panes t)).

Definition focus_previous_pane : TabM () :=
  t ← get_state;
  if bool_decide (length (tab_panes t) ≤ 1) then mret ()
  else
    let index := default 0 (pane_position (tab_active_pane_id t) t) in
    activate_slot ((index + length (tab_panes t) - 1) mod length (tab_panes t)).

(** The loop of [pane_direction_layout_rects] over the panes after the first. *)
Fixpoint layout_loop (panes : list Pane) (rects : list (PaneId * PaneDirectionRect)) :
    list (PaneId * PaneDirectionRect) :=
  match panes with
  | [] => rects
  | p :: rest =>
      match pane_split p with
      | None => layout_loop rest rects
      | Some split =>
          match list_find (λ r, r.1 = source_pane split) rects with
          | None => layout_loop rest rects
          | Some (source_index, (source_id, source_rect)) =>
              match split_pane_direction_rect source_rect (pane_id p) split with
              | None => layout_loop rest rects
              | Some (next_source, new_rect) =>
                  layout_loop rest
                    (<[source_index := (source_id, next_source)]> rects
                       ++ [(pane_id p, new_rect)])
              end
          end
      end
  end.

Definition pane_direction_layout_rects (t : Tab) : list PaneDirectionRect :=
  match tab_panes t with
  | [] => []
  | first :: rest =>
      let first_rect := mkRect (pane_id first) 0 0 PANE_DIRECTION_LAYOUT_ROWS
                          PANE_DIRECTION_LAYOUT_COLUMNS in
      let rects := layout_loop rest [(pane_id first, first_rect)] in
      omap (λ p, (λ ir, ir.2.2) <$> list_find (λ r, r.1 = pane_id p) rects) (tab_panes t)
  end.

Definition pane_activation_recency (pane : PaneId) (t : Tab) : nat :=
  match position (λ id, id = pane) (tab_pane_activation_order t) with
  | Some index => index + 1
  | None => 0
  end.

Record PaneDirectionCandidate := mkCandidate {
  cand_pane_id : PaneId;
  cand_distance : Z;
  cand_overlap : Z;
  cand_recency : nat;
  cand_index : nat;
}.

(** The comparator of [sort_unstable_by]: nearest first, then most recently
    active, then largest overlap, then layout order. It is a strict order on
    the candidates of one tab, whose indices differ, so the unstable sort has
    one possible result. *)
Definition candidate_le (l r : PaneDirectionCandidate) : Prop :=
  (cand_distance l < cand_distance r)%Z ∨
  (cand_distance l = cand_distance r ∧
    (cand_recency r < cand_recency l ∨
     (cand_recency r = cand_recency l ∧
       ((cand_overlap r < cand_overlap l)%Z ∨
        (cand_overlap r = cand_overlap l ∧ cand_index l ≤ cand_index r))))).

#[global] Instance candidate_le_dec : RelDecision candidate_le.
Proof. intros l r. unfold candidate_le. apply _. Defined.

(** [rects.iter().enumerate().filter_map(..)] *)
Definition direction_candidates (t : Tab) (active : PaneDirectionRect) (d : PaneDirection)
    (rects : list PaneDirectionRect) : list PaneDirectionCandidate :=
  omap (λ ir : nat * PaneDirectionRect,
      if decide (rect_pane_id ir.2 = rect_pane_id active) then None
      else
        '(distance, overlap) ← pane_direction_candidate active ir.2 d;
        Some (mkCandidate (rect_pane_id ir.2) distance overlap
                (pane_activation_recency (rect_pane_id ir.2) t) ir.1))
    (imap pair rects).

Definition pane_id_in_direction (d : PaneDirection) (t : Tab) : option PaneId :=
  let rects := pane_direction_layout_rects t in
  '(_, active) ← list_find (λ r, rect_pane_id r = tab_active_pane_id t) rects;
  cand_pane_id <$> head (merge_sort candidate_le (direction_candidates t active d rects)).

Definition activate_pane_direction (d : PaneDirection) : TabM () :=
  match d with
  | DirNext => focus_next_pane
  | DirPrevious => focus_previous_pane
  | DirLeft | DirRight | DirUp | DirDown =>
      t ← get_state;
      match pane_id_in_direction d t with
      | Some pane => modify (set_active_pane pane)
      | None => mret ()
      end
  end.

Definition split_pane (source new_pane_id : PaneId) (d : SplitDirection)
    (launch : PaneLaunch) (delta : Z) : TabM () :=
  t ← get_state;
  match pane_position source t with
  | None => throw (InvalidPane source)
  | Some _ =>
      let p := Pane.with_split (Some (mkPaneSplit source d delta)) (Pane.new new_pane_id launch) in
      modify (tab_set_panes (tab_panes t ++ [p]));;
      modify (set_active_pane new_pane_id)
  end.

Definition split_top_level_pane (new_pane_id : PaneId) (d : SplitDirection)
    (launch : PaneLaunch) (delta : Z) : TabM () :=
  t ← get_state;
  match head (tab_panes t) with
  | None => throw CannotCloseLastPane
  | Some first =>
      let p := Pane.with_split (Some (mkPaneSplit (pane_id first) d delta))
                 (Pane.new new_pane_id launch) in
      panes ← expect (vec_insert 1 p (tab_panes t));
      modify (tab_set_panes panes);;
      modify (set_active_pane new_pane_id)
  end.

(** The statements [close_pane] and [take_pane_for_new_tab] share: remove the
    slot, forget the pane's activation and zoom, and refocus. *)
Definition remove_pane (pane : PaneId) (index : nat) : TabM Pane :=
  t ← get_state;
  '(p, panes) ← expect (vec_remove index (tab_panes t));
  let t := tab_set_panes panes t in
  let t := tab_set_order (retain_ne pane (tab_pane_activation_order t)) t in
  let t := if decide (tab_zoomed_pane_id t = Some pane) then tab_set_zoomed None t else t in
  put_state t;;
  (if decide (tab_active_pane_id t = pane)
   then activate_slot ((index - 1) `min` (length (tab_panes t) - 1))
   else mret ());;
  mret p.

Definition close_pane (pane : PaneId) : TabM () :=
  t ← get_state;
  match pane_position pane t with
  | None => throw (InvalidPane pane)
  | Some index =>
      if bool_decide (length (tab_panes t) ≤ 1) then throw CannotCloseLastPane
      else remove_pane pane index;; mret ()
  end.

(** The loop of [normalize_splits_after_pane_removal]: a split whose source
    is not an earlier pane is re-rooted at the first pane. *)
Fixpoint normalize_loop (first : PaneId) (valid_sources : list PaneId) (panes : list Pane) :
    list Pane :=
  match panes with
  | [] => []
  | p :: rest =>
      let p' := match pane_split p with
                | Some split =>
                    if decide (source_pane split ∈ valid_sources) then p
                    else Pane.with_split (Some (split_with_source first split)) p
                | None => p
                end in
      p' :: normalize_loop first (valid_sources ++ [pane_id p]) rest
  end.

Definition normalize_splits_after_pane_removal (t : Tab) : Tab :=
  match tab_panes t with
  | [] => t
  | first :: rest =>
      tab_set_panes
        (Pane.with_split None first :: normalize_loop (pane_id first) [pane_id first] rest) t
  end.

Definition take_pane_for_new_tab (pane : PaneId) : TabM Pane :=
  t ← get_state;
  match pane_position pane t with
  | None => throw (InvalidPane pane)
  | Some index =>
      if bool_decide (length (tab_panes t) ≤ 1) then throw CannotCloseLastPane
      else
        p ← remove_pane pane index;
        modify normalize_splits_after_pane_removal;;
        mret p
  end.

End Tab.
