(* ===== verification/Snapshot.v ===== *)
(** Reconnect snapshots, detached tabs and the recently-closed history
    ([app_shell.rs]: [TabReconnectSnapshot], [DetachedTab], [ImportedTab],
    [ClosedTabHistory], [Tab::from_reconnect_snapshot], [Tab::remap_ids]). *)
From S2P Require Import Prelude Text Launch Pane SplitGeometry Tab.

Record PaneReconnectSplit := mkReconnectSplit {
  source_pane_index : nat;
  reconnect_direction : SplitDirection;
  reconnect_size_delta : Z;
}.

Record PaneReconnectSnapshot := mkPaneSnapshot {
  snapshot_launch : PaneLaunch;
  snapshot_split : option PaneReconnectSplit;
}.

Record TabReconnectSnapshot := mkSnapshot {
  snapshot_title : option rstring;
  snapshot_panes : list PaneReconnectSnapshot;
  snapshot_active_pane_index : nat;
  snapshot_activation_order : list nat;
  snapshot_zoomed_pane_index : option nat;
}.

Record DetachedTab := mkDetached { detached_tab : Tab; detached_source_index : nat }.

Record ImportedTab := mkImported {
  imported_tab_id : TabId;
  imported_pane_id_map : gmap PaneId PaneId;
}.

(** [option.map(f).transpose()] for an [f] that may panic. *)
Definition option_transpose {A B} (f : A → option B) (o : option A) : option (option B) :=
  match o with None => Some None | Some a => Some <$> f a end.

Module TabReconnectSnapshot.

(** The [HashMap] collected from [enumerate]: a later slot overwrites an
    earlier one with the same key. *)
Definition pane_indices (panes : list Pane) : gmap PaneId nat :=
  foldl (λ m ip, <[ip.2 := ip.1]> m) ∅ (imap (λ i p, (i, pane_id p)) panes).

(** [None] is the panic of
    [expect("tab pane references remain internally valid")]. *)
Definition from_tab (t : Tab) : option TabReconnectSnapshot :=
  let pane_index id := pane_indices (tab_panes t) !! id in
  panes ← mapM (λ p,
      split ← option_transpose (λ s,
          i ← pane_index (source_pane s);
          Some (mkReconnectSplit i (direction s) (source_size_delta s))) (pane_split p);
      Some (mkPaneSnapshot (pane_launch p) split)) (tab_panes t);
  active ← pane_index (tab_active_pane_id t);
  order ← mapM pane_index (tab_pane_activation_order t);
  zoomed ← option_transpose pane_index (tab_zoomed_pane_id t);
  Some (mkSnapshot (tab_title t) panes active order zoomed).

End TabReconnectSnapshot.

Section restore.
  Context {S : Type}.

(** The closure building one pane of a restored tab. *)
Definition restore_pane (id : TabId) (pane_ids : list PaneId) (index : nat)
    (p : PaneReconnectSnapshot) : M AppShellError S Pane :=
  split ← match snapshot_split p with
          | None => mret None
          | Some s =>
              src ← ok_or (pane_ids !! source_pane_index s) (InvalidTab id);
              mret (Some (mkPaneSplit src (reconnect_direction s) (reconnect_size_delta s)))
          end;
  pid ← expect (pane_ids !! index);
  mret (Pane.with_split split (Pane.new pid (snapshot_launch p))).

(** [iter().enumerate().map(..).collect::<Result<Vec<_>, _>>()?] from slot
    [index] on. *)
Fixpoint restore_panes (id : TabId) (pane_ids : list PaneId) (index : nat)
    (l : list PaneReconnectSnapshot) : M AppShellError S (list Pane) :=
  match l with
  | [] => mret []
  | p :: l' =>
      p' ← restore_pane id pane_ids index p;
      rest ← restore_panes id pane_ids (index + 1) l';
      mret (p' :: rest)
  end.

Definition from_reconnect_snapshot (id : TabId) (snapshot : TabReconnectSnapshot)
    (pane_ids : list PaneId) : M AppShellError S Tab :=
  let len := length pane_ids in
  if (length (snapshot_panes snapshot) =? 0)
     || negb (length (snapshot_panes snapshot) =? len)
     || (len <=? snapshot_active_pane_index snapshot)
     || existsb (λ i, len <=? i) (snapshot_activation_order snapshot)
     || from_option (λ i, len <=? i) false (snapshot_zoomed_pane_index snapshot)
  then throw (InvalidTab id)
  else
    panes ← restore_panes id pane_ids 0 (snapshot_panes snapshot);
    active ← expect (pane_ids !! snapshot_active_pane_index snapshot);
    order ← expect (mapM (λ i, pane_ids !! i) (snapshot_activation_order snapshot));
    zoomed ← expect (option_transpose (λ i, pane_ids !! i) (snapshot_zoomed_pane_index snapshot));
    mret (mkTab id panes active order zoomed (snapshot_title snapshot)).
End restore.

Section remap.
  Context (pane_id_map : gmap PaneId PaneId).

Definition remap {S} (pane : PaneId) : M AppShellError S PaneId :=
  ok_or (pane_id_map !! pane) (InvalidPane pane).

Fixpoint remap_order {S} (l : list PaneId) : M AppShellError S (list PaneId) :=
  match l with
  | [] => mret []
  | id :: l' => id' ← remap id; rest ← remap_order l'; mret (id' :: rest)
  end.

(** One iteration of the loop over [&mut self.panes]: the new identity is
    written before the source of the split is looked up. *)
Definition remap_pane : M AppShellError Pane () :=
  p ← get_state;
  id ← remap (pane_id p);
  modify (λ p, Pane.set_identity id (pane_launch p) p);;
  match pane_split p with
  | None => mret ()
  | Some split =>
      src ← remap (source_pane split);
      modify (Pane.with_split (Some (split_with_source src split)))
  end.

(** [for pane in &mut self.panes { .. }] *)
Definition remap_panes : M AppShellError (list Pane) () := for_each_mut remap_pane.

Definition remap_ids (id : TabId) : TabM () :=
  t ← get_state;
  active ← remap (tab_active_pane_id t);
  order ← remap_order (tab_pane_activation_order t);
  zoomed ← match tab_zoomed_pane_id t with
           | None => mret None
           | Some z => z' ← remap z; mret (Some z')
           end;
  zoom (λ t, Some (tab_panes t)) tab_set_panes remap_panes;;
  modify (λ t, mkTab id (tab_panes t) active order zoomed (tab_title t)).
End remap.

(** ** Recently closed tabs *)

Record ClosedTabEntry := mkClosedEntry {
  entry_snapshot : TabReconnectSnapshot;
  entry_origin_window_id : WindowId;
  entry_origin_workspace_id : WorkspaceId;
  entry_origin_index : nat;
}.

Record ClosedTabHistory := mkHistory {
  history_capacity : nat;
  history_entries : list ClosedTabEntry;
}.

Module ClosedTabHistory.

Definition new (capacity : nat) : ClosedTabHistory := mkHistory capacity [].

Definition len (h : ClosedTabHistory) : nat := length (history_entries h).
Definition is_empty (h : ClosedTabHistory) : bool := len h =? 0.

(** [self.entries.drain(..excess)] *)
Definition drain_front (excess : nat) (l : list ClosedTabEntry) : list ClosedTabEntry :=
  if bool_decide (0 < excess) then drop excess l else l.

Definition set_capacity (capacity : nat) (h : ClosedTabHistory) : ClosedTabHistory :=
  mkHistory capacity (drain_front (len h - capacity) (history_entries h)).

Definition push (entry : ClosedTabEntry) (h : ClosedTabHistory) : ClosedTabHistory :=
  if bool_decide (history_capacity h = 0) then h
  else
    let excess := len h + 1 - history_capacity h in
    mkHistory (history_capacity h) (drain_front excess (history_entries h) ++ [entry]).

Definition pop (h : ClosedTabHistory) : option ClosedTabEntry * ClosedTabHistory :=
  match last (history_entries h) with
  | None => (None, h)
  | Some e => (Some e, mkHistory (history_capacity h) (take (len h - 1) (history_entries h)))
  end.

End ClosedTabHistory.
