(* ===== verification/Workspace.v ===== *)
(** Workspaces ([app_shell.rs], [struct Workspace] and [impl Workspace], with
    [PendingWindow] and [CloseTabSelection]): an ordered, non-empty list of
    tabs with an active and a last active tab. *)
From S2P Require Import Prelude Text Launch Pane SplitGeometry Tab Snapshot.

Inductive CloseTabSelection := Adjacent | LastActive | Left.

Record PendingWindow := mkPendingWindow {
  pending_id : WindowId;
  pending_workspace_id : WorkspaceId;
  pending_workspace_name : rstring;
  pending_tab : Tab;
}.

Record Workspace := mkWorkspace {
  ws_id : WorkspaceId;
  ws_name : rstring;
  ws_tabs : list Tab;
  ws_active_tab_id : TabId;
  ws_last_active_tab_id : option TabId;
}.

Abbreviation WsM := (M AppShellError Workspace).

Definition ws_set_tabs (tabs : list Tab) (w : Workspace) : Workspace :=
  mkWorkspace (ws_id w) (ws_name w) tabs (ws_active_tab_id w) (ws_last_active_tab_id w).
Definition ws_set_active (t : TabId) (w : Workspace) : Workspace :=
  mkWorkspace (ws_id w) (ws_name w) (ws_tabs w) t (ws_last_active_tab_id w).
Definition ws_set_last_active (t : option TabId) (w : Workspace) : Workspace :=
  mkWorkspace (ws_id w) (ws_name w) (ws_tabs w) (ws_active_tab_id w) t.

Definition ws_tab_ids (w : Workspace) : list TabId := tab_id <$> ws_tabs w.

Module Workspace.

Definition new (id : WorkspaceId) (name : rstring) (tabs : list Tab) (active : TabId) :
    Workspace := mkWorkspace id name tabs active None.

Definition tab_position (tab : TabId) (w : Workspace) : option nat :=
  position (λ t, tab_id t = tab) (ws_tabs w).

Definition tab (tab : TabId) (w : Workspace) : option Tab :=
  i ← tab_position tab w; ws_tabs w !! i.

(** [None] is the panic on a missing active tab. *)
Definition active_tab (w : Workspace) : option Tab := tab (ws_active_tab_id w) w.

Definition active_pane_id (w : Workspace) : option PaneId :=
  tab_active_pane_id <$> active_tab w.

Definition active_pane (w : Workspace) : option Pane :=
  active_tab w ≫= Tab.active_pane.

(** A method of the tab in slot [i]. *)
Definition in_tab {A} (i : nat) (m : TabM A) : WsM A :=
  zoom (λ w, ws_tabs w !! i) (λ t w, ws_set_tabs (<[i := t]> (ws_tabs w)) w) m.

(** [self.active_tab_mut()?.m(..)] *)
Definition in_active_tab {A} (m : TabM A) : WsM A :=
  w ← get_state;
  i ← ok_or (tab_position (ws_active_tab_id w) w) (InvalidTab (ws_active_tab_id w));
  in_tab i m.

Definition activate_existing_tab (tab : TabId) (w : Workspace) : Workspace :=
  if decide (ws_active_tab_id w = tab) then w
  else ws_set_active tab (ws_set_last_active (Some (ws_active_tab_id w)) w).

(** [self.activate_existing_tab(self.tabs[i].id())] *)
Definition activate_slot (i : nat) : WsM () :=
  w ← get_state;
  t ← expect (ws_tabs w !! i);
  modify (activate_existing_tab (tab_id t)).

Definition add_tab (t : Tab) (w : Workspace) : Workspace :=
  activate_existing_tab (tab_id t) (ws_set_tabs (ws_tabs w ++ [t]) w).

Definition insert_tab (t : Tab) (index : nat) : WsM () :=
  w ← get_state;
  tabs ← expect (vec_insert (index `min` length (ws_tabs w)) t (ws_tabs w));
  modify (ws_set_tabs tabs);;
  modify (activate_existing_tab (tab_id t)).

(** [if self.last_active_tab_id == Some(tab_id) { .. = None }] *)
Definition forget_last_active (tab : TabId) (w : Workspace) : Workspace :=
  if decide (ws_last_active_tab_id w = Some tab) then ws_set_last_active None w else w.

Definition detach_tab (tab : TabId) : WsM DetachedTab :=
  w ← get_state;
  match tab_position tab w with
  | None => throw (InvalidTab tab)
  | Some index =>
      if bool_decide (length (ws_tabs w) ≤ 1) then throw CannotCloseLastTab
      else
        '(t, tabs) ← expect (vec_remove index (ws_tabs w));
        modify (ws_set_tabs tabs);;
        modify (forget_last_active tab);;
        (if decide (ws_active_tab_id w = tab)
         then next ← expect (tabs !! (index `min` (length tabs - 1)));
              modify (ws_set_active (tab_id next))
         else mret ());;
        mret (mkDetached t index)
  end.

Definition move_pane_to_new_tab (pane : PaneId) (new_tab : TabId) : WsM () :=
  w ← get_state;
  i ← ok_or (tab_position (ws_active_tab_id w) w) (InvalidTab (ws_active_tab_id w));
  p ← in_tab i (Tab.take_pane_for_new_tab pane);
  t ← expect (Tab.new new_tab [Pane.with_split None p]);
  modify (add_tab t).

Definition move_pane_to_new_window (pane : PaneId) (new_window : WindowId) (new_tab : TabId) :
    WsM PendingWindow :=
  w ← get_state;
  i ← ok_or (tab_position (ws_active_tab_id w) w) (InvalidTab (ws_active_tab_id w));
  p ← in_tab i (Tab.take_pane_for_new_tab pane);
  t ← expect (Tab.new new_tab [Pane.with_split None p]);
  mret (mkPendingWindow new_window (ws_id w) (ws_name w) t).

Definition activate_tab (tab : TabId) : WsM () :=
  w ← get_state;
  _ ← ok_or (tab_position tab w) (InvalidTab tab);
  modify (activate_existing_tab tab).

Definition activate_tab_index (index : Z) : WsM () :=
  w ← get_state;
  if bool_decide (length (ws_tabs w) = 0) then mret ()
  else
    let len := Z.of_nat (length (ws_tabs w)) in
    let target := if bool_decide (index < 0)%Z then Z.max (len + index) 0 else index in
    if bool_decide (len ≤ target)%Z then mret ()
    else activate_slot (Z.to_nat target).

Definition activate_tab_relative (offset : Z) : WsM () :=
  w ← get_state;
  if bool_decide (offset = 0%Z) || bool_decide (length (ws_tabs w) = 0) then mret ()
  else
    active_position ← ok_or (tab_position (ws_active_tab_id w) w) (InvalidTab (ws_active_tab_id w));
    let target := ((Z.of_nat active_position + offset) `mod` Z.of_nat (length (ws_tabs w)))%Z in
    activate_slot (Z.to_nat target).

Definition activate_tab_relative_no_wrap (offset : Z) : WsM () :=
  w ← get_state;
  if bool_decide (offset = 0%Z) || bool_decide (length (ws_tabs w) = 0) then mret ()
  else
    active_position ← ok_or (tab_position (ws_active_tab_id w) w) (InvalidTab (ws_active_tab_id w));
    let last_position := length (ws_tabs w) - 1 in
    let target := clamp 0 (Z.of_nat last_position) (Z.of_nat active_position + offset)%Z in
    activate_slot (Z.to_nat target).

Definition activate_last_tab (w : Workspace) : Workspace :=
  match ws_last_active_tab_id w with
  | None => w
  | Some tab =>
      match tab_position tab w with
      | None => ws_set_last_active None w
      | Some _ => activate_existing_tab tab w
      end
  end.

Definition set_tab_title (tab : TabId) (title : rstring) : WsM () :=
  w ← get_state;
  index ← ok_or (tab_position tab w) (InvalidTab tab);
  in_tab index (modify (Tab.set_title title)).

(** [let tab = self.tabs.remove(from); self.tabs.insert(to, tab);] *)
Definition move_slot (from to : nat) : WsM () :=
  w ← get_state;
  '(t, tabs) ← expect (vec_remove from (ws_tabs w));
  tabs ← expect (vec_insert to t tabs);
  modify (ws_set_tabs tabs).

Definition move_tab (index : nat) : WsM () :=
  w ← get_state;
  if bool_decide (length (ws_tabs w) ≤ index) then throw (InvalidTabIndex index)
  else if bool_decide (length (ws_tabs w) ≤ 1) then mret ()
  else
    active_position ← ok_or (tab_position (ws_active_tab_id w) w) (InvalidTab (ws_active_tab_id w));
    if decide (active_position = index) then mret ()
    else move_slot active_position index.

Definition move_tab_relative (offset : Z) : WsM () :=
  w ← get_state;
  if bool_decide (offset = 0%Z) || bool_decide (length (ws_tabs w) ≤ 1) then mret ()
  else
    active_position ← ok_or (tab_position (ws_active_tab_id w) w) (InvalidTab (ws_active_tab_id w));
    let last_position := length (ws_tabs w) - 1 in
    let target := Z.to_nat (clamp 0 (Z.of_nat last_position) (Z.of_nat active_position + offset)%Z) in
    if decide (target = active_position) then mret ()
    else move_slot active_position target.

(** The tab preselected before the closed tab is removed. *)
Definition next_active_tab (tab : TabId) (index : nat) (selection : CloseTabSelection)
    (w : Workspace) : option TabId :=
  if decide (ws_active_tab_id w = tab)
  then match selection with
       | Adjacent => tab_id <$> ws_tabs w !! (index + 1)
       | LastActive =>
           l ← ws_last_active_tab_id w;
           if decide (l = tab) then None
           else _ ← tab_position l w; Some l
       | Left => None
       end
  else None.

Definition close_tab (tab : TabId) (selection : CloseTabSelection) : WsM () :=
  w ← get_state;
  match tab_position tab w with
  | None => throw (InvalidTab tab)
  | Some index =>
      if bool_decide (length (ws_tabs w) ≤ 1) then throw CannotCloseLastTab
      else
        '(_, tabs) ← expect (vec_remove index (ws_tabs w));
        modify (ws_set_tabs tabs);;
        modify (forget_last_active tab);;
        if decide (ws_active_tab_id w = tab)
        then match next_active_tab tab index selection w with
             | Some next => modify (ws_set_active next)
             | None =>
                 next ← expect (tabs !! ((index - 1) `min` (length tabs - 1)));
                 modify (ws_set_active (tab_id next))
             end
        else mret ()
  end.

End Workspace.
