(* ===== verification/Shell.v ===== *)
(** The application shell ([app_shell.rs], [struct AppShell], [enum AppAction]
    and [impl AppShell]): workspaces, pending windows and identifier
    counters, with every action of [apply_action] and the snapshot,
    duplicate, detach and import operations. *)
From stdpp Require Import sorting.
From S2P Require Import Prelude Text Launch Pane SplitGeometry Tab Snapshot Workspace.

Record AppShell := mkShell {
  workspaces : list Workspace;
  active_workspace_id : WorkspaceId;
  pending_windows : list PendingWindow;
  next_window_id : Z;
  next_workspace_id : Z;
  next_tab_id : Z;
  next_pane_id : Z;
  default_launch : PaneLaunch;
}.

Abbreviation ShellM := (M AppShellError AppShell).

Inductive AppAction :=
| Nop
| Multiple (actions : list AppAction)
| NewTab (launch : option PaneLaunch)
| SpawnWindow (launch : option PaneLaunch)
| CloseTab (tab : TabId) (switch_to_last_active : bool)
| CloseTabWithSelection (tab : TabId) (selection : CloseTabSelection)
| ActivateTab (tab : TabId)
| ActivateTabIndex (index : Z)
| ActivateTabRelative (offset : Z)
| ActivateTabRelativeNoWrap (offset : Z)
| ActivateLastTab
| SetTabTitle (tab : TabId) (title : rstring)
| MoveTab (index : nat)
| MoveTabRelative (offset : Z)
| MoveTabToNewWindow (tab : TabId)
| RotatePanes (d : PaneRotationDirection)
| SplitPane (pane : PaneId) (d : SplitDirection) (launch : option PaneLaunch)
| SplitPaneWithSize (pane : PaneId) (d : SplitDirection) (launch : option PaneLaunch) (delta : Z)
| SplitTopLevelPane (d : SplitDirection) (launch : option PaneLaunch)
| SplitTopLevelPaneWithSize (d : SplitDirection) (launch : option PaneLaunch) (delta : Z)
| ClosePane (pane : PaneId)
| ActivatePane (pane : PaneId)
| ActivatePaneByIndex (index : nat)
| ActivatePaneDirection (d : PaneDirection)
| SwapPanes (active selected : PaneId) (keep_focus : bool)
| MovePaneToNewTab (pane : PaneId)
| MovePaneToNewWindow (pane : PaneId)
| ResizePane (pane : PaneId) (d : ResizeDirection) (amount : Z)
| SetPaneZoomState (pane : PaneId) (zoomed : bool)
| TogglePaneZoom (pane : PaneId)
| SetPaneCurrentWorkingDir (pane : PaneId) (cwd : option rstring)
| SetPaneUserVar (pane : PaneId) (name value : rstring)
| SetPaneBadgeFormat (pane : PaneId) (badge_format : option rstring)
| SetPaneHasUnseenOutput (pane : PaneId) (has_unseen_output : bool)
| SetPaneProgress (pane : PaneId) (progress : PaneProgress)
| FocusNextPane
| FocusPreviousPane
| SwitchWorkspace (workspace : WorkspaceId)
| SwitchWorkspaceRelative (offset : Z)
| SwitchToWorkspace (name : option rstring) (launch : option PaneLaunch)
| CloseWorkspace (workspace : WorkspaceId)
| RenameWorkspace (workspace : WorkspaceId) (name : rstring)
| NewWorkspace (name : rstring) (launch : option PaneLaunch).

(** What the shell reads from its host: the clock reading taken in a given
    state (nanoseconds since the epoch, 0 before it), the process id, and the
    result of [sort_unstable_by_key] on workspace names, of which only the
    documented contract is known (a permutation, ascending by name; the order
    of equal names is unspecified). *)
Class Host := {
  host_nanos : AppShell → Z;
  host_pid : Z;
  host_sort_by_name : list Workspace → list Workspace;
  host_sort_perm : ∀ l, host_sort_by_name l ≡ₚ l;
  host_sort_sorted : ∀ l,
    Sorted (λ v w, str_le (ws_name v) (ws_name w) = true) (host_sort_by_name l);
}.

Definition sh_set_workspaces (l : list Workspace) (s : AppShell) : AppShell :=
  mkShell l (active_workspace_id s) (pending_windows s) (next_window_id s)
    (next_workspace_id s) (next_tab_id s) (next_pane_id s) (default_launch s).
Definition sh_set_active (w : WorkspaceId) (s : AppShell) : AppShell :=
  mkShell (workspaces s) w (pending_windows s) (next_window_id s)
    (next_workspace_id s) (next_tab_id s) (next_pane_id s) (default_launch s).
Definition sh_set_pending (l : list PendingWindow) (s : AppShell) : AppShell :=
  mkShell (workspaces s) (active_workspace_id s) l (next_window_id s)
    (next_workspace_id s) (next_tab_id s) (next_pane_id s) (default_launch s).
Definition sh_set_counters (win ws tab pane : Z) (s : AppShell) : AppShell :=
  mkShell (workspaces s) (active_workspace_id s) (pending_windows s) win ws tab pane
    (default_launch s).

Module AppShell.

Definition DEFAULT_WORKSPACE_NAME : rstring := lit "default".

Definition new_with_workspace_name (launch : PaneLaunch) (name : rstring) : option AppShell :=
  t ← Tab.new (TabId_new 1) [Pane.new (PaneId_new 1) launch];
  let w := Workspace.new (WorkspaceId_new 1) name [t] (TabId_new 1) in
  Some (mkShell [w] (WorkspaceId_new 1) [] 2 2 2 2 launch).

Definition new (launch : PaneLaunch) : option AppShell :=
  new_with_workspace_name launch DEFAULT_WORKSPACE_NAME.

Definition from_pending_window (p : PendingWindow) : AppShell :=
  let t := pending_tab p in
  let launch := from_option pane_launch (PaneLaunch.local []) (head (tab_panes t)) in
  let max_id := foldr (λ q m, Z.max (PaneId_get (pane_id q)) m) 0%Z (tab_panes t) in
  let w := Workspace.new (pending_workspace_id p) (pending_workspace_name p) [t] (tab_id t) in
  mkShell [w] (pending_workspace_id p) []
    (sat_add_u64 (WindowId_get (pending_id p)) 1)
    (sat_add_u64 (WorkspaceId_get (pending_workspace_id p)) 1)
    (sat_add_u64 (TabId_get (tab_id t)) 1)
    (sat_add_u64 max_id 1)
    launch.

Definition take_next_pending_window (s : AppShell) : option PendingWindow * AppShell :=
  match pending_windows s with
  | [] => (None, s)
  | p :: rest => (Some p, sh_set_pending rest s)
  end.

Definition workspace_position (w : WorkspaceId) (s : AppShell) : option nat :=
  position (λ v, ws_id v = w) (workspaces s).

Definition workspace (w : WorkspaceId) (s : AppShell) : option Workspace :=
  i ← workspace_position w s; workspaces s !! i.

(** [None] is the panic on a missing active workspace. *)
Definition active_workspace (s : AppShell) : option Workspace :=
  workspace (active_workspace_id s) s.

Definition active_tab (s : AppShell) : option Tab := active_workspace s ≫= Workspace.active_tab.
Definition active_pane (s : AppShell) : option Pane := active_workspace s ≫= Workspace.active_pane.
Definition active_pane_id (s : AppShell) : option PaneId :=
  active_workspace s ≫= Workspace.active_pane_id.

(** The one-based position in the active workspace, 0 if absent. *)
Definition active_tab_position (s : AppShell) : option nat :=
  w ← active_workspace s;
  Some (from_option (λ i, i + 1) 0 (Workspace.tab_position (ws_active_tab_id w) w)).

Definition active_pane_position (s : AppShell) : option nat :=
  t ← active_tab s;
  Some (from_option (λ i, i + 1) 0 (Tab.pane_position (tab_active_pane_id t) t)).

Definition pane_ids (s : AppShell) : list PaneId :=
  (w ← workspaces s; t ← ws_tabs w; tab_pane_ids t)
  ++ (p ← pending_windows s; tab_pane_ids (pending_tab p)).

(** [self.workspaces[i]] as the receiver of a workspace method. *)
Definition in_workspace {A} (i : nat) (m : WsM A) : ShellM A :=
  zoom (λ s, workspaces s !! i)
    (λ w s, sh_set_workspaces (<[i := w]> (workspaces s)) s) m.

(** [self.active_workspace_mut().expect(..).m(..)] *)
Definition in_active_workspace {A} (m : WsM A) : ShellM A :=
  s ← get_state;
  i ← expect (workspace_position (active_workspace_id s) s);
  in_workspace i m.

Definition in_active_tab {A} (m : TabM A) : ShellM A :=
  in_active_workspace (Workspace.in_active_tab m).

(** ** Identifier allocation *)

Definition fresh_workspace_id : ShellM WorkspaceId :=
  s ← get_state;
  modify (λ s, sh_set_counters (next_window_id s) (sat_add_u64 (next_workspace_id s) 1)
                 (next_tab_id s) (next_pane_id s) s);;
  mret (WorkspaceId_new (next_workspace_id s)).

Definition fresh_tab_id : ShellM TabId :=
  s ← get_state;
  modify (λ s, sh_set_counters (next_window_id s) (next_workspace_id s)
                 (sat_add_u64 (next_tab_id s) 1) (next_pane_id s) s);;
  mret (TabId_new (next_tab_id s)).

Definition fresh_pane_id : ShellM PaneId :=
  s ← get_state;
  modify (λ s, sh_set_counters (next_window_id s) (next_workspace_id s)
                 (next_tab_id s) (sat_add_u64 (next_pane_id s) 1) s);;
  mret (PaneId_new (next_pane_id s)).

Definition fresh_window_id : ShellM WindowId :=
  s ← get_state;
  modify (λ s, sh_set_counters (sat_add_u64 (next_window_id s) 1) (next_workspace_id s)
                 (next_tab_id s) (next_pane_id s) s);;
  mret (WindowId_new (next_window_id s)).

(** ** Snapshots, transfer and import *)

Definition tab_reconnect_snapshot (tab : TabId) : ShellM TabReconnectSnapshot :=
  s ← get_state;
  w ← expect (active_workspace s);
  t ← ok_or (Workspace.tab tab w) (InvalidTab tab);
  expect (TabReconnectSnapshot.from_tab t).

(** [(0..n).map(|_| self.next_pane_id()).collect()] *)
Fixpoint fresh_pane_ids (n : nat) : ShellM (list PaneId) :=
  match n with
  | O => mret []
  | S n' => id ← fresh_pane_id; rest ← fresh_pane_ids n'; mret (id :: rest)
  end.

Definition restore_tab_snapshot (snapshot : TabReconnectSnapshot) (index : nat) : ShellM TabId :=
  id ← fresh_tab_id;
  pane_ids ← fresh_pane_ids (length (snapshot_panes snapshot));
  t ← from_reconnect_snapshot id snapshot pane_ids;
  in_active_workspace (Workspace.insert_tab t index);;
  mret id.

Definition duplicate_tab (tab : TabId) : ShellM TabId :=
  s ← get_state;
  w ← expect (active_workspace s);
  index ← ok_or (Workspace.tab_position tab w) (InvalidTab tab);
  snapshot ← tab_reconnect_snapshot tab;
  restore_tab_snapshot snapshot (index + 1).

Definition detach_tab (tab : TabId) : ShellM DetachedTab :=
  in_active_workspace (Workspace.detach_tab tab).

Definition clone_tab_for_transfer (tab : TabId) : ShellM DetachedTab :=
  s ← get_state;
  w ← expect (active_workspace s);
  index ← ok_or (Workspace.tab_position tab w) (InvalidTab tab);
  t ← expect (ws_tabs w !! index);
  mret (mkDetached t index).

(** [.map(|pane| (pane.id(), self.next_pane_id())).collect::<HashMap<_, _>>()] *)
Fixpoint fresh_pane_map (panes : list Pane) (m : gmap PaneId PaneId) :
    ShellM (gmap PaneId PaneId) :=
  match panes with
  | [] => mret m
  | p :: rest => id ← fresh_pane_id; fresh_pane_map rest (<[pane_id p := id]> m)
  end.

Definition import_detached_tab (detached : DetachedTab) (index : nat) : ShellM ImportedTab :=
  id ← fresh_tab_id;
  m ← fresh_pane_map (tab_panes (detached_tab detached)) ∅;
  '(_, t) ← run_on (detached_tab detached) (remap_ids m id);
  in_active_workspace (Workspace.insert_tab t index);;
  mret (mkImported id m).

Definition insert_detached_tab (detached : DetachedTab) (index : nat) : ShellM TabId :=
  imported ← import_detached_tab detached index;
  mret (imported_tab_id imported).

Definition preserve_split_layout_for_resize (old_columns old_rows new_columns new_rows : Z) :
    ShellM () :=
  if bool_decide (old_columns = new_columns) && bool_decide (old_rows = new_rows) then mret ()
  else
    zoom (λ s, Some (workspaces s)) sh_set_workspaces
      (for_each_mut
        (zoom (λ w, Some (ws_tabs w)) ws_set_tabs
          (for_each_mut
            (Tab.preserve_split_layout_for_resize old_columns old_rows new_columns new_rows)))).

(** ** Finding a pane in any workspace

    The loops [for workspace in &mut self.workspaces { for tab in &mut
    workspace.tabs { .. } }] that stop at the first tab owning the pane. *)

Definition ws_pane_tab (pane : PaneId) (w : Workspace) : option nat :=
  position (λ t, is_Some (Tab.pane_position pane t)) (ws_tabs w).

Definition find_pane_workspace (pane : PaneId) (s : AppShell) : option nat :=
  position (λ w, is_Some (ws_pane_tab pane w)) (workspaces s).

(** Run a tab method on the first tab owning [pane], or fail. *)
Definition in_pane_tab (pane : PaneId) (m : TabM ()) : ShellM () :=
  s ← get_state;
  match find_pane_workspace pane s with
  | None => throw (InvalidPane pane)
  | Some i =>
      in_workspace i
        (w ← get_state;
         j ← expect (ws_pane_tab pane w);
         Workspace.in_tab j m)
  end.

Definition reset_pane_runtime_projection (pane : PaneId) : ShellM () :=
  in_pane_tab pane (Tab.update_pane pane Pane.reset_runtime_projection).

Definition clear_active_pane_unseen_output : ShellM () :=
  s ← get_state;
  pane ← expect (active_pane_id s);
  match find_pane_workspace pane s with
  | None => mret ()
  | Some _ => in_pane_tab pane (Tab.update_pane pane (Pane.set_has_unseen_output false))
  end.

(** ** Actions *)

(** [launch.unwrap_or_else(|| self.active_pane().launch.for_child_pane())] *)
Definition launch_or_child (launch : option PaneLaunch) : ShellM PaneLaunch :=
  match launch with
  | Some l => mret l
  | None => s ← get_state; p ← expect (active_pane s);
            mret (PaneLaunch.for_child_pane (pane_launch p))
  end.

Definition apply_new_tab (launch : option PaneLaunch) : ShellM () :=
  launch ← launch_or_child launch;
  tid ← fresh_tab_id;
  pid ← fresh_pane_id;
  t ← expect (Tab.new tid [Pane.new pid launch]);
  in_active_workspace (modify (Workspace.add_tab t)).

Definition push_pending (p : PendingWindow) : ShellM () :=
  modify (λ s, sh_set_pending (pending_windows s ++ [p]) s).

Definition apply_spawn_window (launch : option PaneLaunch) : ShellM () :=
  launch ← launch_or_child launch;
  wid ← fresh_window_id;
  tid ← fresh_tab_id;
  pid ← fresh_pane_id;
  s ← get_state;
  w ← expect (active_workspace s);
  t ← expect (Tab.new tid [Pane.new pid launch]);
  push_pending (mkPendingWindow wid (ws_id w) (ws_name w) t).

Definition apply_close_tab (tab : TabId) (switch_to_last_active : bool) : ShellM () :=
  in_active_workspace
    (Workspace.close_tab tab (if switch_to_last_active then LastActive else Left)).

Definition apply_close_tab_with_selection (tab : TabId) (selection : CloseTabSelection) :
    ShellM () := in_active_workspace (Workspace.close_tab tab selection).

Definition apply_activate_tab (tab : TabId) : ShellM () :=
  in_active_workspace (Workspace.activate_tab tab).

Definition apply_activate_tab_index (index : Z) : ShellM () :=
  in_active_workspace (Workspace.activate_tab_index index).

Definition apply_activate_tab_relative (offset : Z) : ShellM () :=
  in_active_workspace (Workspace.activate_tab_relative offset).

Definition apply_activate_tab_relative_no_wrap (offset : Z) : ShellM () :=
  in_active_workspace (Workspace.activate_tab_relative_no_wrap offset).

Definition apply_activate_last_tab : ShellM () :=
  in_active_workspace (modify Workspace.activate_last_tab).

Definition apply_set_tab_title (tab : TabId) (title : rstring) : ShellM () :=
  in_active_workspace (Workspace.set_tab_title tab title).

Definition apply_move_tab (index : nat) : ShellM () :=
  in_active_workspace (Workspace.move_tab index).

Definition apply_move_tab_relative (offset : Z) : ShellM () :=
  in_active_workspace (Workspace.move_tab_relative offset).

Definition apply_move_tab_to_new_window (tab : TabId) : ShellM () :=
  wid ← fresh_window_id;
  p ← in_active_workspace
    (w ← get_state;
     t ← (if bool_decide (length (ws_tabs w) = 1)
          then ok_or (Workspace.tab tab w) (InvalidTab tab)
          else d ← Workspace.detach_tab tab; mret (detached_tab d));
     mret (mkPendingWindow wid (ws_id w) (ws_name w) t));
  push_pending p.

Definition apply_rotate_panes (d : PaneRotationDirection) : ShellM () :=
  in_active_tab (Tab.rotate_panes d).

(** [launch.unwrap_or_else(|| active_tab.active_pane().launch.for_child_pane())] *)
Definition tab_launch_or_child (launch : option PaneLaunch) : TabM PaneLaunch :=
  match launch with
  | Some l => mret l
  | None => t ← get_state; p ← expect (Tab.active_pane t);
            mret (PaneLaunch.for_child_pane (pane_launch p))
  end.

Definition apply_split_pane_with_size (pane : PaneId) (d : SplitDirection)
    (launch : option PaneLaunch) (delta : Z) : ShellM () :=
  pid ← fresh_pane_id;
  in_active_tab
    (launch ← tab_launch_or_child launch;
     Tab.split_pane pane pid d launch delta).

Definition apply_split_pane (pane : PaneId) (d : SplitDirection)
    (launch : option PaneLaunch) : ShellM () := apply_split_pane_with_size pane d launch 0.

Definition apply_split_top_level_pane_with_size (d : SplitDirection)
    (launch : option PaneLaunch) (delta : Z) : ShellM () :=
  pid ← fresh_pane_id;
  in_active_tab
    (launch ← tab_launch_or_child launch;
     Tab.split_top_level_pane pid d launch delta).

Definition apply_close_pane (pane : PaneId) : ShellM () :=
  in_active_workspace
    (w ← get_state;
     match ws_pane_tab pane w with
     | None => throw (InvalidPane pane)
     | Some i =>
         t ← expect (ws_tabs w !! i);
         if bool_decide (length (tab_panes t) ≤ 1)
         then Workspace.close_tab (tab_id t) Left
         else Workspace.in_tab i (Tab.close_pane pane)
     end).

Definition apply_activate_pane (pane : PaneId) : ShellM () :=
  in_active_tab (Tab.focus_pane pane).

Definition apply_activate_pane_by_index (index : nat) : ShellM () :=
  in_active_tab (modify (Tab.focus_pane_by_index index)).

Definition apply_activate_pane_direction (d : PaneDirection) : ShellM () :=
  in_active_tab (Tab.activate_pane_direction d).

Definition apply_swap_panes (active selected : PaneId) (keep_focus : bool) : ShellM () :=
  in_active_tab (Tab.swap_panes active selected keep_focus).

Definition apply_move_pane_to_new_tab (pane : PaneId) : ShellM () :=
  tid ← fresh_tab_id;
  in_active_workspace (Workspace.move_pane_to_new_tab pane tid).

Definition apply_move_pane_to_new_window (pane : PaneId) : ShellM () :=
  wid ← fresh_window_id;
  tid ← fresh_tab_id;
  p ← in_active_workspace (Workspace.move_pane_to_new_window pane wid tid);
  push_pending p.

Definition apply_resize_pane (pane : PaneId) (d : ResizeDirection) (amount : Z) : ShellM () :=
  in_active_tab (Tab.resize_pane pane d amount).

Definition apply_toggle_pane_zoom (pane : PaneId) : ShellM () :=
  in_active_tab (Tab.toggle_pane_zoom pane).

Definition apply_set_pane_zoom_state (pane : PaneId) (zoomed : bool) : ShellM () :=
  in_active_tab (Tab.set_pane_zoom_state pane zoomed).

Definition apply_set_pane_current_working_dir (pane : PaneId) (cwd : option rstring) : ShellM () :=
  in_pane_tab pane (Tab.set_pane_current_working_dir pane cwd).

Definition apply_set_pane_user_var (pane : PaneId) (name value : rstring) : ShellM () :=
  in_pane_tab pane (Tab.set_pane_user_var pane name value).

Definition apply_set_pane_badge_format (pane : PaneId) (badge : option rstring) : ShellM () :=
  in_pane_tab pane (Tab.set_pane_badge_format pane badge).

Definition apply_set_pane_progress (pane : PaneId) (progress : PaneProgress) : ShellM () :=
  in_pane_tab pane (Tab.set_pane_progress pane progress).

Definition apply_set_pane_has_unseen_output (pane : PaneId) (b : bool) : ShellM () :=
  in_pane_tab pane (Tab.set_pane_has_unseen_output pane b).

Definition apply_focus_next_pane : ShellM () := in_active_tab Tab.focus_next_pane.
Definition apply_focus_previous_pane : ShellM () := in_active_tab Tab.focus_previous_pane.

Definition apply_switch_workspace (w : WorkspaceId) : ShellM () :=
  s ← get_state;
  match workspace_position w s with
  | Some _ => modify (sh_set_active w)
  | None => throw (InvalidWorkspace w)
  end.

Definition apply_new_workspace (name : rstring) (launch : option PaneLaunch) : ShellM () :=
  s ← get_state;
  let launch := default (default_launch s) launch in
  wid ← fresh_workspace_id;
  tid ← fresh_tab_id;
  pid ← fresh_pane_id;
  t ← expect (Tab.new tid [Pane.new pid launch]);
  modify (λ s, sh_set_workspaces (workspaces s ++ [Workspace.new wid name [t] tid]) s);;
  modify (sh_set_active wid).

Definition apply_close_workspace (w : WorkspaceId) : ShellM () :=
  s ← get_state;
  match workspace_position w s with
  | None => throw (InvalidWorkspace w)
  | Some index =>
      if bool_decide (length (workspaces s) ≤ 1) then throw CannotCloseLastWorkspace
      else
        '(_, rest) ← expect (vec_remove index (workspaces s));
        modify (sh_set_workspaces rest);;
        if decide (active_workspace_id s = w)
        then next ← expect (rest !! (if decide (index = 0) then 0 else index - 1));
             modify (sh_set_active (ws_id next))
        else mret ()
  end.

Definition apply_rename_workspace (w : WorkspaceId) (name : rstring) : ShellM () :=
  s ← get_state;
  i ← ok_or (workspace_position w s) (InvalidWorkspace w);
  in_workspace i
    (modify (λ v, mkWorkspace (ws_id v) name (ws_tabs v) (ws_active_tab_id v)
                    (ws_last_active_tab_id v))).

Definition candidate_name (seed : Z) : rstring := lit "random-" ++ hex_padded 32 seed.

(** The [loop] of [random_workspace_name]; [None] is running out of fuel. *)
Fixpoint random_name_loop (fuel : nat) (names : list rstring) (seed : Z) : option rstring :=
  match fuel with
  | O => None
  | S fuel' =>
      if decide (candidate_name seed ∈ names)
      then random_name_loop fuel' names ((seed + 0x9e3779b97f4a7c15) `mod` u128_modulus)%Z
      else Some (candidate_name seed)
  end.

Definition workspace_names (s : AppShell) : list rstring := ws_name <$> workspaces s.

Section host.
  Context `{Host}.

Definition random_seed (s : AppShell) : Z :=
  Z.lxor (Z.lxor (host_nanos s) (Z.shiftl host_pid 64)) (next_workspace_id s) `mod` u128_modulus.

(** One candidate per existing workspace can be taken, so one more than the
    number of workspaces is enough fuel, see the file ShellNames. *)
Definition random_workspace_name (s : AppShell) : option rstring :=
  random_name_loop (S (length (workspaces s))) (workspace_names s) (random_seed s).

Definition ordered_workspace_ids (s : AppShell) : list WorkspaceId :=
  ws_id <$> host_sort_by_name (workspaces s).

Definition apply_switch_workspace_relative (offset : Z) : ShellM () :=
  s ← get_state;
  if bool_decide (offset = 0%Z) || bool_decide (length (workspaces s) ≤ 1) then mret ()
  else
    let order := ordered_workspace_ids s in
    match position (λ w, w = active_workspace_id s) order with
    | None => throw (InvalidWorkspace (active_workspace_id s))
    | Some current =>
        let next := ((Z.of_nat current + offset) `mod` Z.of_nat (length order))%Z in
        w ← expect (order !! Z.to_nat next);
        modify (sh_set_active w)
    end.

Definition apply_switch_to_workspace (name : option rstring) (launch : option PaneLaunch) :
    ShellM () :=
  s ← get_state;
  name ← match name with
         | Some n => mret n
         | None => expect (random_workspace_name s)
         end;
  match list_find (λ w, ws_name w = name) (workspaces s) with
  | Some (_, w) => modify (sh_set_active (ws_id w))
  | None => apply_new_workspace name launch
  end.

(** [!matches!(&action, Nop | SetPaneHasUnseenOutput { .. })] *)
Definition clears_active_pane_unseen_output (a : AppAction) : bool :=
  match a with Nop | SetPaneHasUnseenOutput _ _ => false | _ => true end.

(** [if result.is_ok() && clears { self.clear_active_pane_unseen_output() }] *)
Definition finish_action (a : AppAction) (body : ShellM ()) : ShellM () :=
  body;;
  if clears_active_pane_unseen_output a then clear_active_pane_unseen_output else mret ().

(** [apply_split_action]: the four split variants. *)
Definition apply_split_action (a : AppAction) : ShellM () :=
  match a with
  | SplitPane pane d launch => apply_split_pane pane d launch
  | SplitPaneWithSize pane d launch delta => apply_split_pane_with_size pane d launch delta
  | SplitTopLevelPane d launch => apply_split_top_level_pane_with_size d launch 0
  | SplitTopLevelPaneWithSize d launch delta =>
      apply_split_top_level_pane_with_size d launch delta
  | _ => panic
  end.

(** The actions other than [Multiple]. *)
Definition apply_single (a : AppAction) : ShellM () :=
  match a with
  | Nop => mret ()
  | Multiple _ => panic
  | NewTab launch => apply_new_tab launch
  | SpawnWindow launch => apply_spawn_window launch
  | CloseTab tab b => apply_close_tab tab b
  | CloseTabWithSelection tab sel => apply_close_tab_with_selection tab sel
  | ActivateTab tab => apply_activate_tab tab
  | ActivateTabIndex index => apply_activate_tab_index index
  | ActivateTabRelative offset => apply_activate_tab_relative offset
  | ActivateTabRelativeNoWrap offset => apply_activate_tab_relative_no_wrap offset
  | ActivateLastTab => apply_activate_last_tab
  | SetTabTitle tab title => apply_set_tab_title tab title
  | MoveTab index => apply_move_tab index
  | MoveTabRelative offset => apply_move_tab_relative offset
  | MoveTabToNewWindow tab => apply_move_tab_to_new_window tab
  | RotatePanes d => apply_rotate_panes d
  | SplitPane _ _ _ | SplitPaneWithSize _ _ _ _
  | SplitTopLevelPane _ _ | SplitTopLevelPaneWithSize _ _ _ => apply_split_action a
  | ClosePane pane => apply_close_pane pane
  | ActivatePane pane => apply_activate_pane pane
  | ActivatePaneByIndex index => apply_activate_pane_by_index index
  | ActivatePaneDirection d => apply_activate_pane_direction d
  | SwapPanes active selected keep => apply_swap_panes active selected keep
  | MovePaneToNewTab pane => apply_move_pane_to_new_tab pane
  | MovePaneToNewWindow pane => apply_move_pane_to_new_window pane
  | ResizePane pane d amount => apply_resize_pane pane d amount
  | SetPaneZoomState pane zoomed => apply_set_pane_zoom_state pane zoomed
  | TogglePaneZoom pane => apply_toggle_pane_zoom pane
  | SetPaneCurrentWorkingDir pane cwd => apply_set_pane_current_working_dir pane cwd
  | SetPaneUserVar pane name value => apply_set_pane_user_var pane name value
  | SetPaneBadgeFormat pane badge => apply_set_pane_badge_format pane badge
  | SetPaneHasUnseenOutput pane b => apply_set_pane_has_unseen_output pane b
  | SetPaneProgress pane progress => apply_set_pane_progress pane progress
  | FocusNextPane => apply_focus_next_pane
  | FocusPreviousPane => apply_focus_previous_pane
  | SwitchWorkspace w => apply_switch_workspace w
  | SwitchWorkspaceRelative offset => apply_switch_workspace_relative offset
  | SwitchToWorkspace name launch => apply_switch_to_workspace name launch
  | CloseWorkspace w => apply_close_workspace w
  | RenameWorkspace w name => apply_rename_workspace w name
  | NewWorkspace name launch => apply_new_workspace name launch
  end.

(** [apply_multiple] is the [iterM]: stop at the first error, keeping what
    the earlier actions did. *)
Fixpoint apply_action (a : AppAction) : ShellM () :=
  finish_action a
    match a with
    | Multiple actions => iterM apply_action actions
    | _ => apply_single a
    end.

End host.

End AppShell.

(** A host that sorts by insertion, with a fixed clock: the contract of
    [Host] can be met, and the definitions run on it. *)
Fixpoint insert_by_name (w : Workspace) (l : list Workspace) : list Workspace :=
  match l with
  | [] => [w]
  | v :: l' => if str_le (ws_name w) (ws_name v) then w :: l else v :: insert_by_name w l'
  end.

Definition sort_by_name : list Workspace → list Workspace := foldr insert_by_name [].

Lemma insert_by_name_perm w l : insert_by_name w l ≡ₚ w :: l.
Proof.
  induction l as [|v l IH]; simpl; [done|]. case_match; [done|].
  rewrite IH. apply Permutation_swap.
Qed.

Lemma insert_by_name_sorted w l :
  Sorted (λ v w, str_le (ws_name v) (ws_name w) = true) l →
  Sorted (λ v w, str_le (ws_name v) (ws_name w) = true) (insert_by_name w l).
Proof.
  induction 1 as [|v l Hl IH Hhd]; simpl; [by repeat constructor|].
  case_match eqn:Hle; [by repeat constructor|].
  destruct (str_le_total (ws_name w) (ws_name v)) as [?|Hvw]; [congruence|].
  constructor; [done|]. destruct l as [|u l]; simpl; [by constructor|].
  case_match; constructor; [done|]. by inversion Hhd.
Qed.

Program Definition fixed_host : Host := {|
  host_nanos _ := 0%Z;
  host_pid := 1%Z;
  host_sort_by_name := sort_by_name;
|}.
Next Obligation.
  intros l. induction l as [|w l IH]; simpl; [done|]. by rewrite insert_by_name_perm, IH.
Qed.
Next Obligation.
  intros l. induction l as [|w l IH]; simpl; [constructor|]. by apply insert_by_name_sorted.
Qed.
