(* ===== verification/TabFacts.v ===== *)
(** Invariants of a tab and their preservation by every tab method.

    [tab_ok]: the active pane is the last entry of the activation order, and
    the activation order only names panes of the tab, and a zoomed pane is the
    active one. It is what
    makes [active_pane] and the slot accesses of the shell safe.
    [splits_closed]: every split names a source among the panes of the tab.
    [tab_inv c] asks for the second part only when [c] is true: every method
    keeps [tab_inv c] for both values except [close_pane], which keeps
    [tab_inv false]. *)
From S2P Require Import Prelude Text Launch Pane SplitGeometry Tab.

Definition tab_refs (t : Tab) : Prop :=
  (∀ x, x ∈ tab_pane_activation_order t → x ∈ tab_pane_ids t) ∧
  (∀ z, tab_zoomed_pane_id t = Some z → z = tab_active_pane_id t).

Definition tab_ok (t : Tab) : Prop :=
  last (tab_pane_activation_order t) = Some (tab_active_pane_id t) ∧ tab_refs t.

Definition split_sources (panes : list Pane) : list PaneId :=
  omap (λ p, source_pane <$> pane_split p) panes.

Definition splits_closed (t : Tab) : Prop :=
  ∀ x, x ∈ split_sources (tab_panes t) → x ∈ tab_pane_ids t.

Definition tab_inv (c : bool) (t : Tab) : Prop :=
  tab_ok t ∧ (c = true → splits_closed t).

(** ** The active pane *)

Lemma tab_ok_active t : tab_ok t → tab_active_pane_id t ∈ tab_pane_ids t.
Proof.
  intros [Hl [Ho _]]. apply Ho. apply last_Some in Hl as [l ->]. set_solver.
Qed.

Lemma tab_ok_nonempty t : tab_ok t → 0 < length (tab_panes t).
Proof.
  intros H%tab_ok_active. unfold tab_pane_ids in H. destruct (tab_panes t); simpl; [set_solver|lia].
Qed.

Lemma pane_position_elem t x :
  x ∈ tab_pane_ids t ↔ is_Some (Tab.pane_position x t).
Proof.
  unfold Tab.pane_position, tab_pane_ids. split.
  - intros (p & -> & Hp)%list_elem_of_fmap. by eapply position_exists.
  - intros [i (p & Hp & <-)%position_lookup]. apply list_elem_of_fmap.
    exists p. split; [done|]. by eapply list_elem_of_lookup_2.
Qed.

Lemma pane_position_elem_1 t x i : Tab.pane_position x t = Some i → x ∈ tab_pane_ids t.
Proof. intros H. apply pane_position_elem. by eexists. Qed.

Lemma pane_position_lookup t x i :
  Tab.pane_position x t = Some i → ∃ p, tab_panes t !! i = Some p ∧ pane_id p = x.
Proof. apply position_lookup. Qed.

Lemma active_pane_is_Some t :
  tab_ok t → ∃ p, Tab.active_pane t = Some p ∧ pane_id p = tab_active_pane_id t.
Proof.
  intros Hok. apply tab_ok_active, pane_position_elem in Hok as [i Hi].
  destruct (pane_position_lookup _ _ _ Hi) as (p & Hp & Hid).
  exists p. unfold Tab.active_pane. by rewrite Hi.
Qed.

(** ** Updates that keep the identities of the slots *)

Lemma ids_alter f i (panes : list Pane) :
  (∀ p, pane_id (f p) = pane_id p) → pane_id <$> alter f i panes = pane_id <$> panes.
Proof.
  intros Hf. apply list_eq. intros j. rewrite !list_lookup_fmap, list_lookup_alter.
  case_decide; subst; [|done]. destruct (panes !! j); simpl; by rewrite ?Hf.
Qed.

Lemma sources_alter f i (panes : list Pane) :
  (∀ p, source_pane <$> pane_split (f p) = source_pane <$> pane_split p) →
  split_sources (alter f i panes) = split_sources panes.
Proof.
  intros Hf. unfold split_sources. revert i.
  induction panes as [|p panes IH]; intros [|i]; simpl; [done..| |].
  - by rewrite Hf.
  - change (list_alter f i panes) with (alter f i panes). by rewrite IH.
Qed.

Lemma set_active_pane_ids x t : tab_pane_ids (Tab.set_active_pane x t) = tab_pane_ids t.
Proof. unfold Tab.set_active_pane. repeat case_match; try done; by apply ids_alter. Qed.

Lemma set_active_pane_sources x t :
  split_sources (tab_panes (Tab.set_active_pane x t)) = split_sources (tab_panes t).
Proof. unfold Tab.set_active_pane. repeat case_match; try done; by apply sources_alter. Qed.

Lemma set_active_pane_active x t : tab_active_pane_id (Tab.set_active_pane x t) = x.
Proof. unfold Tab.set_active_pane. by repeat case_match. Qed.

Lemma set_active_pane_id x t : tab_id (Tab.set_active_pane x t) = tab_id t.
Proof. unfold Tab.set_active_pane. by repeat case_match. Qed.

Lemma set_active_pane_order x t :
  tab_pane_activation_order (Tab.set_active_pane x t) =
  retain_ne x (tab_pane_activation_order t) ++ [x].
Proof. unfold Tab.set_active_pane. by repeat case_match. Qed.

Lemma set_active_pane_zoom x t z :
  tab_zoomed_pane_id (Tab.set_active_pane x t) = Some z →
  tab_zoomed_pane_id t = Some z ∧ tab_active_pane_id t = x.
Proof.
  unfold Tab.set_active_pane. case_bool_decide as Hx; repeat case_match; simpl; try done;
    (intros ->; split; [done|]); by apply dec_stable.
Qed.

Lemma set_active_pane_ok x t :
  tab_refs t → x ∈ tab_pane_ids t → tab_ok (Tab.set_active_pane x t).
Proof.
  intros [Ho Hz] Hx. split; [|split].
  - by rewrite set_active_pane_order, set_active_pane_active, last_snoc.
  - intros y. rewrite set_active_pane_order, set_active_pane_ids, elem_of_app, elem_of_retain_ne.
    set_solver.
  - intros z [Hz' Hact]%set_active_pane_zoom. rewrite set_active_pane_active, <- Hact. auto.
Qed.

Lemma splits_closed_eq t t' :
  tab_pane_ids t' = tab_pane_ids t →
  split_sources (tab_panes t') = split_sources (tab_panes t) →
  splits_closed t → splits_closed t'.
Proof. unfold splits_closed. by intros -> ->. Qed.

Lemma set_active_pane_inv c x t :
  tab_inv c t → x ∈ tab_pane_ids t → tab_inv c (Tab.set_active_pane x t).
Proof.
  intros [[_ Hr] Hc] Hx. split; [by apply set_active_pane_ok|]. intros Hcc.
  eapply splits_closed_eq; [apply set_active_pane_ids|apply set_active_pane_sources|auto].
Qed.

(** Replacing the panes by ones with the same identities and sources. *)
Lemma tab_inv_set_panes c (panes : list Pane) t :
  tab_inv c t → (∀ x, x ∈ tab_pane_ids t ↔ x ∈ pane_id <$> panes) →
  (c = true → ∀ x, x ∈ split_sources panes → x ∈ pane_id <$> panes) →
  tab_inv c (tab_set_panes panes t).
Proof.
  intros [[Hl [Ho Hz]] _] Hids Hs. split; [split; [done|split]|exact Hs].
  - intros x Hx. apply Hids. by apply Ho.
  - exact Hz.
Qed.

Lemma tab_inv_alter c f i t :
  (∀ p, pane_id (f p) = pane_id p) →
  (∀ p, source_pane <$> pane_split (f p) = source_pane <$> pane_split p) →
  tab_inv c t → tab_inv c (tab_set_panes (alter f i (tab_panes t)) t).
Proof.
  intros Hid Hsrc Ht. apply tab_inv_set_panes; [done|by rewrite ids_alter|].
  intros Hc. rewrite ids_alter, sources_alter by done. by apply Ht.
Qed.

Lemma tab_inv_zoomed c z t :
  tab_inv c t → (∀ x, z = Some x → x = tab_active_pane_id t) → tab_inv c (tab_set_zoomed z t).
Proof. intros [[Hl [Ho Hz]] Hc] Hzz. by split; [split; [|split]|]. Qed.

#[export] Hint Resolve set_active_pane_inv tab_inv_alter : rterm.

(** ** Methods that move the focus *)

Lemma activate_slot_keeps c i :
  ∀ t, tab_inv c t → i < length (tab_panes t) →
  ∃ t', Tab.activate_slot i t = Ok () t' ∧ tab_inv c t'.
Proof.
  intros t Ht [p Hp]%lookup_lt_is_Some. unfold Tab.activate_slot. exec_unfold. rewrite Hp.
  eexists. split; [done|]. apply set_active_pane_inv; [done|].
  unfold tab_pane_ids. apply list_elem_of_fmap. exists p. split; [done|].
  by eapply list_elem_of_lookup_2.
Qed.

(** [op] answers [InvalidPane] unless the pane is in the tab. *)
Ltac pane_guard :=
  intros t Ht; exec_unfold; let H := fresh "Hpos" in case_inner H; [|done].

Lemma focus_pane_keeps c x : keeps (tab_inv c) (Tab.focus_pane x).
Proof. unfold Tab.focus_pane. pane_guard. eauto using pane_position_elem_1 with rterm. Qed.

Lemma focus_pane_by_index_inv c i t :
  tab_inv c t → tab_inv c (Tab.focus_pane_by_index i t).
Proof.
  intros Ht. unfold Tab.focus_pane_by_index. case_match eqn:Hp; [|done].
  apply set_active_pane_inv; [done|]. apply list_elem_of_fmap.
  eauto using list_elem_of_lookup_2.
Qed.

Lemma focus_next_pane_keeps c : keeps (tab_inv c) Tab.focus_next_pane.
Proof.
  intros t Ht. unfold Tab.focus_next_pane. exec_unfold. case_bool_decide; [done|].
  edestruct activate_slot_keeps as (t' & -> & ?); [exact Ht| |done].
  apply Nat.mod_upper_bound. lia.
Qed.

Lemma focus_previous_pane_keeps c : keeps (tab_inv c) Tab.focus_previous_pane.
Proof.
  intros t Ht. unfold Tab.focus_previous_pane. exec_unfold. case_bool_decide; [done|].
  edestruct activate_slot_keeps as (t' & -> & ?); [exact Ht| |done].
  apply Nat.mod_upper_bound. lia.
Qed.

Lemma toggle_pane_zoom_keeps c x : keeps (tab_inv c) (Tab.toggle_pane_zoom x).
Proof.
  unfold Tab.toggle_pane_zoom. pane_guard.
  apply tab_inv_zoomed; [eauto using pane_position_elem_1 with rterm|].
  intros y. rewrite set_active_pane_active. case_match; congruence.
Qed.

Lemma set_pane_zoom_state_keeps c x b : keeps (tab_inv c) (Tab.set_pane_zoom_state x b).
Proof.
  unfold Tab.set_pane_zoom_state. pane_guard.
  apply tab_inv_zoomed; [eauto using pane_position_elem_1 with rterm|].
  intros y. rewrite set_active_pane_active. case_match; congruence.
Qed.

(** ** Metadata *)

Lemma update_pane_keeps c x f :
  (∀ p, pane_id (f p) = pane_id p) →
  (∀ p, source_pane <$> pane_split (f p) = source_pane <$> pane_split p) →
  keeps (tab_inv c) (Tab.update_pane x f).
Proof.
  intros Hid Hsrc. unfold Tab.update_pane. pane_guard.
  destruct (pane_position_lookup _ _ _ Hpos) as (p & Hp & _). rewrite Hp.
  rewrite (list_insert_alter_lookup _ _ _ _ Hp). auto with rterm.
Qed.

Lemma set_pane_current_working_dir_keeps c x cwd :
  keeps (tab_inv c) (Tab.set_pane_current_working_dir x cwd).
Proof. by apply update_pane_keeps. Qed.
Lemma set_pane_user_var_keeps c x n v : keeps (tab_inv c) (Tab.set_pane_user_var x n v).
Proof. by apply update_pane_keeps. Qed.
Lemma set_pane_badge_format_keeps c x b : keeps (tab_inv c) (Tab.set_pane_badge_format x b).
Proof. by apply update_pane_keeps. Qed.
Lemma set_pane_progress_keeps c x b : keeps (tab_inv c) (Tab.set_pane_progress x b).
Proof. by apply update_pane_keeps. Qed.
Lemma set_pane_has_unseen_output_keeps c x b :
  keeps (tab_inv c) (Tab.set_pane_has_unseen_output x b).
Proof. by apply update_pane_keeps. Qed.

(** ** Swapping and rotating identities *)

Lemma elem_of_split_sources x panes :
  x ∈ split_sources panes ↔
  ∃ p sp, p ∈ panes ∧ pane_split p = Some sp ∧ source_pane sp = x.
Proof.
  unfold split_sources. rewrite list_elem_of_omap. split.
  - intros (p & Hp & (sp & Hs & ->)%fmap_Some). by exists p, sp.
  - intros (p & sp & Hp & Hs & <-). exists p. by rewrite Hs.
Qed.

Lemma swap_source_spec a s p :
  pane_id (Tab.swap_source a s p) = pane_id p ∧
  ∀ x, source_pane <$> pane_split (Tab.swap_source a s p) = Some x →
       source_pane <$> pane_split p = Some x ∨ x = a ∨ x = s.
Proof.
  unfold Tab.swap_source. destruct (pane_split p) as [sp|] eqn:Hp; [|by rewrite Hp].
  repeat case_decide; simpl; (split; [done|]); intros x; rewrite ?Hp; simpl;
    intros [= <-]; auto.
Qed.

Lemma swap_ids a s ai si (panes : list Pane) pa ps f g :
  panes !! ai = Some pa → panes !! si = Some ps → a ≠ s →
  pane_id pa = a → pane_id ps = s →
  (∀ p, pane_id (f p) = s) → (∀ p, pane_id (g p) = a) →
  pane_id <$> alter g si (alter f ai panes) ≡ₚ pane_id <$> panes.
Proof.
  intros Ha Hs Hne Hida Hids Hf Hg.
  assert (ai ≠ si) by (intros ->; congruence).
  rewrite <- (list_insert_alter_lookup f _ _ _ Ha).
  rewrite <- (list_insert_alter_lookup g _ _ ps) by (by rewrite list_lookup_insert_ne).
  rewrite !list_fmap_insert, Hf, Hg. apply Permutation_insert_swap.
  - by rewrite list_lookup_fmap, Ha; simpl; rewrite Hida.
  - by rewrite list_lookup_fmap, Hs; simpl; rewrite Hids.
Qed.

Lemma fmap_ids_id (f : Pane → Pane) (panes : list Pane) :
  (∀ p, pane_id (f p) = pane_id p) → pane_id <$> (f <$> panes) = pane_id <$> panes.
Proof. intros Hf. rewrite <- list_fmap_compose. by apply list_fmap_ext; simpl. Qed.

Lemma elem_of_alter (f : Pane → Pane) i (l : list Pane) p :
  p ∈ alter f i l → p ∈ l ∨ ∃ q, q ∈ l ∧ p = f q.
Proof.
  intros [j Hj]%list_elem_of_lookup. rewrite list_lookup_alter in Hj. case_decide; subst.
  - apply fmap_Some in Hj as (q & Hq & ->). right. eauto using list_elem_of_lookup_2.
  - left. by eapply list_elem_of_lookup_2.
Qed.

(** The panes of a swap, before the focus moves. *)
Lemma swap_panes_inv c a s ai si t pa ps :
  tab_inv c t → a ≠ s →
  tab_panes t !! ai = Some pa → pane_id pa = a →
  tab_panes t !! si = Some ps → pane_id ps = s →
  let panes := Tab.swap_source a s <$>
    alter (Pane.set_identity a (pane_launch pa)) si
      (alter (Pane.set_identity s (pane_launch ps)) ai (tab_panes t)) in
  pane_id <$> panes ≡ₚ tab_pane_ids t ∧ tab_inv c (tab_set_panes panes t).
Proof.
  intros Ht Hne Ha Hida Hs Hids panes.
  assert (Hperm : pane_id <$> panes ≡ₚ tab_pane_ids t).
  { unfold panes. rewrite fmap_ids_id by (intros; apply swap_source_spec).
    by apply (swap_ids a s _ _ _ pa ps). }
  split; [done|]. apply tab_inv_set_panes; [done|intros x; by rewrite Hperm|].
  intros Hc x (p & sp & Hp & Hsp & <-)%elem_of_split_sources. rewrite Hperm.
  unfold panes in Hp. apply list_elem_of_fmap in Hp as (q & -> & Hq).
  destruct (swap_source_spec a s q) as [_ Hsrc].
  rewrite Hsp in Hsrc. destruct (Hsrc _ eq_refl) as [Hqs|[->| ->]].
  - apply Ht; [done|]. apply elem_of_split_sources.
    apply fmap_Some in Hqs as (sq & Hsq & Hqe).
    apply elem_of_alter in Hq as [Hq|(q' & Hq & ->)];
      apply elem_of_alter in Hq as [Hq|(q'' & Hq & ->)]; simpl in Hsq; naive_solver.
  - rewrite <- Hida. apply list_elem_of_fmap. eauto using list_elem_of_lookup_2.
  - rewrite <- Hids. apply list_elem_of_fmap. eauto using list_elem_of_lookup_2.
Qed.

Lemma swap_panes_keeps c a s k : keeps (tab_inv c) (Tab.swap_panes a s k).
Proof.
  intros t Ht. unfold Tab.swap_panes. exec_unfold.
  case_inner Ha; [|done]. case_inner Hs; [|done].
  assert (Hin : (if k then a else s) ∈ tab_pane_ids t)
    by (destruct k; eauto using pane_position_elem_1).
  case_decide as Hne; [auto with rterm|].
  apply pane_position_lookup in Ha as (pa & Ha & Hida), Hs as (ps & Hs & Hids).
  rewrite Ha, Hs.
  destruct (swap_panes_inv c a s _ _ t pa ps Ht Hne Ha Hida Hs Hids) as [Hperm Hinv].
  apply set_active_pane_inv; [done|]. unfold tab_pane_ids at 1. simpl. by rewrite Hperm.
Qed.

Lemma rotate_source_ids old rot p p' :
  Tab.rotate_source old rot p = Some p' → pane_id p' = pane_id p.
Proof.
  unfold Tab.rotate_source. intros H. repeat case_match; simplify_eq/=; [|done..].
  apply bind_Some in H as (s & _ & [= <-]). done.
Qed.

Lemma rotate_source_total old rot p :
  length rot = length old → is_Some (Tab.rotate_source old rot p).
Proof.
  intros Hlen. unfold Tab.rotate_source. repeat case_match; [|by eexists..].
  destruct (lookup_lt_is_Some_2 rot n) as [s ->]; [|by eexists].
  rewrite Hlen. by eapply position_lt.
Qed.

Lemma rotate_source_source old rot p p' x :
  Tab.rotate_source old rot p = Some p' → source_pane <$> pane_split p' = Some x →
  x ∈ rot ∨ (x ∉ old ∧ source_pane <$> pane_split p = Some x).
Proof.
  unfold Tab.rotate_source. intros H Hx.
  destruct (pane_split p) as [sp|] eqn:Hsp; [|simplify_eq; by rewrite Hsp in Hx].
  destruct (position _ old) as [i|] eqn:Hi.
  - apply bind_Some in H as (s & Hs & [= <-]). simpl in Hx. simplify_eq.
    left. by eapply list_elem_of_lookup_2.
  - simplify_eq. rewrite Hsp in Hx. right. split; [|done]. simpl in Hx. simplify_eq.
    apply position_None in Hi. rewrite Forall_forall in Hi. naive_solver.
Qed.

Lemma zip_identity_ids (panes : list Pane) (ids : list (PaneId * PaneLaunch)) :
  length panes = length ids →
  pane_id <$> zip_with (λ p idl, Pane.set_identity idl.1 idl.2 p) panes ids = fst <$> ids.
Proof.
  revert ids. induction panes as [|p panes IH]; intros [|[] ids] Hlen; try done.
  simpl in *. f_equal. apply IH. lia.
Qed.

Lemma mapM_ids (f : Pane → option Pane) (l k : list Pane) :
  (∀ p p', f p = Some p' → pane_id p' = pane_id p) → mapM f l = Some k →
  pane_id <$> k = pane_id <$> l.
Proof. intros Hf H%mapM_Some. induction H; simpl; [done|]. f_equal; auto. Qed.

(** The identities of the rotated slots, in slot order. *)
Definition rotated_ids (d : PaneRotationDirection) (ids : list PaneId) : list PaneId :=
  match d with Clockwise => rotate_right 1 ids | CounterClockwise => rotate_left 1 ids end.

Lemma rotated_ids_perm d ids : rotated_ids d ids ≡ₚ ids.
Proof. destruct d; [apply rotate_right_perm|apply rotate_left_perm]. Qed.

(** Rotation succeeds; slot [i] receives the identity of its neighbour. *)
Lemma rotate_panes_spec c d t :
  tab_inv c t →
  ∃ t', Tab.rotate_panes d t = Ok () t' ∧ tab_inv c t' ∧ tab_id t' = tab_id t ∧
    tab_pane_ids t' = (if decide (length (tab_panes t) ≤ 1) then tab_pane_ids t
                       else rotated_ids d (tab_pane_ids t)).
Proof.
  intros Ht. unfold Tab.rotate_panes. exec_unfold. case_bool_decide as Hlen.
  { exists t. by rewrite decide_True. }
  rewrite decide_False by done.
  set (identity := (λ p, (pane_id p, pane_launch p)) <$> tab_panes t).
  set (rot := match d with Clockwise => rotate_right 1 identity | _ => rotate_left 1 identity end).
  assert (Hrot : fst <$> rot = rotated_ids d (tab_pane_ids t)).
  { unfold rot, rotated_ids, tab_pane_ids, identity.
    destruct d; rewrite ?fmap_rotate_right, ?fmap_rotate_left; by rewrite <- list_fmap_compose. }
  assert (Hlr : length rot = length (tab_panes t)).
  { unfold rot, identity. destruct d;
      by rewrite ?length_rotate_left, ?length_rotate_right, length_fmap. }
  destruct (mapM_is_Some_2 (Tab.rotate_source (tab_pane_ids t) (fst <$> rot))
    (zip_with (λ p idl, Pane.set_identity idl.1 idl.2 p) (tab_panes t) rot)) as [panes Hp].
  { apply Forall_forall. intros p _. apply rotate_source_total.
    unfold tab_pane_ids. by rewrite !length_fmap. }
  rewrite Hp. eexists. split; [done|].
  assert (Hids : pane_id <$> panes = rotated_ids d (tab_pane_ids t)).
  { rewrite (mapM_ids _ _ _ (rotate_source_ids _ _) Hp), zip_identity_ids; [done|by rewrite Hlr]. }
  split_and!; [|done|exact Hids].
  apply tab_inv_set_panes; [done|intros x; by rewrite Hids, rotated_ids_perm|].
  intros Hc x (p' & sp & Hp' & Hsp & <-)%elem_of_split_sources. rewrite Hids.
  apply list_elem_of_lookup in Hp' as [i Hi].
  destruct (Forall2_lookup_r _ _ _ _ _ (proj1 (mapM_Some _ _ _) Hp) Hi) as (p & Hpi & Hrs).
  destruct (rotate_source_source _ _ _ _ (source_pane sp) Hrs) as [Hx|[Hx Hsrc]];
    [by rewrite Hsp|by rewrite <- Hrot|].
  destruct Hx. apply Ht; [done|]. apply elem_of_split_sources.
  apply fmap_Some in Hsrc as (sp0 & Hsp0 & ->).
  rewrite lookup_zip_with in Hpi.
  apply bind_Some in Hpi as (q & Hq & (idl & _ & [= <-])%bind_Some).
  exists q, sp0. split_and!; [by eapply list_elem_of_lookup_2|exact Hsp0|done].
Qed.

Lemma rotate_panes_keeps c d : keeps (tab_inv c) (Tab.rotate_panes d).
Proof. intros t Ht. by destruct (rotate_panes_spec c d t Ht) as (t' & -> & ? & _). Qed.

(** ** Resizing *)

Lemma add_split_delta_spec x p :
  pane_id (Tab.add_split_delta x p) = pane_id p ∧
  source_pane <$> pane_split (Tab.add_split_delta x p) = source_pane <$> pane_split p.
Proof.
  unfold Tab.add_split_delta. destruct (pane_split p) eqn:Hs; simpl; [done|]. by rewrite Hs.
Qed.

Lemma resize_pane_keeps c x d n : keeps (tab_inv c) (Tab.resize_pane x d n).
Proof.
  unfold Tab.resize_pane. pane_guard. case_bool_decide; [done|].
  case_inner Hr; [|done]. destruct p as [i delta].
  apply tab_inv_alter; [intros p; apply add_split_delta_spec..|done].
Qed.

(** ** Splitting *)

Lemma tab_refs_incl t t' :
  tab_refs t → tab_pane_activation_order t' = tab_pane_activation_order t →
  tab_zoomed_pane_id t' = tab_zoomed_pane_id t → tab_active_pane_id t' = tab_active_pane_id t →
  (∀ x, x ∈ tab_pane_ids t → x ∈ tab_pane_ids t') → tab_refs t'.
Proof. intros [Ho Hz] Heo Hez Hea Hi. split; rewrite ?Heo, ?Hez, ?Hea; auto. Qed.

Lemma split_new_inv c (panes : list Pane) src t p :
  tab_inv c t → src ∈ tab_pane_ids t → panes ≡ₚ p :: tab_panes t →
  source_pane <$> pane_split p = Some src →
  tab_inv c (Tab.set_active_pane (pane_id p) (tab_set_panes panes t)).
Proof.
  intros [[_ Hr] Hc] Hsrc Hperm Hp.
  assert (Hids : pane_id <$> panes ≡ₚ pane_id p :: tab_pane_ids t) by (by rewrite Hperm).
  split.
  - apply set_active_pane_ok; [|unfold tab_pane_ids; simpl; rewrite Hids; set_solver].
    eapply tab_refs_incl; [exact Hr|done..|].
    intros x. unfold tab_pane_ids at 2. simpl. rewrite Hids. set_solver.
  - intros Hcc x. rewrite set_active_pane_ids, set_active_pane_sources. simpl.
    intros (q & sp & Hq & Hsp & <-)%elem_of_split_sources. unfold tab_pane_ids. simpl.
    rewrite Hids, elem_of_cons. right. rewrite Hperm in Hq.
    apply elem_of_cons in Hq as [->|Hq]; [rewrite Hsp in Hp; simpl in Hp; congruence|].
    apply Hc; [done|]. apply elem_of_split_sources. eauto.
Qed.

Lemma split_pane_keeps c src new d l delta :
  keeps (tab_inv c) (Tab.split_pane src new d l delta).
Proof.
  unfold Tab.split_pane. pane_guard.
  set (p := Pane.with_split _ _).
  eapply (split_new_inv c _ src _ p); [done|by eapply pane_position_elem_1| |done].
  by rewrite Permutation_app_comm.
Qed.

Lemma split_top_level_pane_keeps c new d l delta :
  keeps (tab_inv c) (Tab.split_top_level_pane new d l delta).
Proof.
  intros t Ht. unfold Tab.split_top_level_pane. exec_unfold. case_inner Hh; [|done].
  set (q := Pane.with_split _ _).
  destruct (vec_insert_is_Some 1 q (tab_panes t)) as [panes Hv].
  { pose proof (tab_ok_nonempty t (proj1 Ht)). lia. }
  rewrite Hv. eapply (split_new_inv c _ (pane_id p) _ q); [done| |by eapply vec_insert_perm|done].
  apply list_elem_of_fmap. exists p. split; [done|]. by apply head_Some_elem_of.
Qed.

(** ** Removing a pane *)

Lemma last_retain_ne {A} `{EqDecision A} (x a : A) l :
  last l = Some a → a ≠ x → last (retain_ne x l) = Some a.
Proof.
  intros [k ->]%last_Some Hne. unfold retain_ne. rewrite filter_app, filter_cons_True, filter_nil by done.
  by apply last_snoc.
Qed.

(** The tab between the removal and the refocusing. *)
Definition removed_tab (x : PaneId) (i : nat) (t : Tab) : Tab :=
  let t := tab_set_panes (delete i (tab_panes t)) t in
  let t := tab_set_order (retain_ne x (tab_pane_activation_order t)) t in
  if decide (tab_zoomed_pane_id t = Some x) then tab_set_zoomed None t else t.

Lemma removed_tab_panes x i t : tab_panes (removed_tab x i t) = delete i (tab_panes t).
Proof. unfold removed_tab. by case_decide. Qed.

Lemma removed_tab_refs x i t :
  tab_refs t → Tab.pane_position x t = Some i → tab_refs (removed_tab x i t).
Proof.
  intros [Ho Hz] (p & Hp & Hid)%pane_position_lookup.
  assert (Hin : ∀ y, y ∈ tab_pane_ids t → y ≠ x → y ∈ pane_id <$> delete i (tab_panes t)).
  { intros y Hy Hne. rewrite fmap_delete. eapply elem_of_delete_ne; [|exact Hy|exact Hne].
    by rewrite list_lookup_fmap, Hp; simpl; rewrite Hid. }
  split.
  - unfold tab_pane_ids. rewrite removed_tab_panes. intros y Hy. assert (y ∈ retain_ne x (tab_pane_activation_order t)) as [? ?]%elem_of_retain_ne
      by (revert Hy; unfold removed_tab; by case_decide).
    auto.
  - unfold removed_tab. case_decide; simpl in *; [done|]. exact Hz.
Qed.

Lemma remove_pane_spec x i t :
  tab_ok t → Tab.pane_position x t = Some i → 1 < length (tab_panes t) →
  ∃ p t', Tab.remove_pane x i t = Ok p t' ∧ tab_ok t' ∧ tab_id t' = tab_id t ∧
    tab_panes t !! i = Some p ∧ pane_id p = x ∧
    tab_pane_ids t' = delete i (tab_pane_ids t).
Proof.
  intros [Hl Hr] Hi Hlen. pose proof (removed_tab_refs _ _ _ Hr Hi) as Hr'.
  destruct (pane_position_lookup _ _ _ Hi) as (p & Hp & Hid).
  assert (Hlen' : length (delete i (tab_panes t)) = length (tab_panes t) - 1)
    by (apply length_delete_lt; by eapply lookup_lt_Some).
  assert (Hids : tab_pane_ids (removed_tab x i t) = delete i (tab_pane_ids t))
    by (unfold tab_pane_ids; by rewrite removed_tab_panes, fmap_delete).
  unfold Tab.remove_pane, vec_remove. exec_unfold. rewrite Hp. simpl.
  fold (tab_set_panes (delete i (tab_panes t)) t).
  change (if decide (tab_zoomed_pane_id t = Some x) then _ else _) with (removed_tab x i t).
  assert (Hact : tab_active_pane_id (removed_tab x i t) = tab_active_pane_id t)
    by (unfold removed_tab; by case_decide).
  assert (Htid : tab_id (removed_tab x i t) = tab_id t) by (unfold removed_tab; by case_decide).
  case_decide as Hx.
  - unfold Tab.activate_slot. exec_unfold. rewrite removed_tab_panes, Hlen'.
    destruct (lookup_lt_is_Some_2 (delete i (tab_panes t))
                ((i - 1) `min` (length (tab_panes t) - 1 - 1))) as [q Hq]; [lia|].
    rewrite Hq. exists p, (Tab.set_active_pane (pane_id q) (removed_tab x i t)).
    split_and!; [done| |by rewrite set_active_pane_id|done|done|by rewrite set_active_pane_ids].
    apply set_active_pane_ok; [done|]. unfold tab_pane_ids. rewrite removed_tab_panes.
    apply list_elem_of_fmap. eauto using list_elem_of_lookup_2.
  - exists p, (removed_tab x i t). split_and!; try done. split; [|done]. rewrite Hact.
    rewrite Hact in Hx.
    assert (tab_pane_activation_order (removed_tab x i t) =
      retain_ne x (tab_pane_activation_order t)) as -> by (unfold removed_tab; by case_decide).
    by apply last_retain_ne.
Qed.

Lemma close_pane_keeps x : keeps (tab_inv false) (Tab.close_pane x).
Proof.
  unfold Tab.close_pane. pane_guard. case_bool_decide; [done|].
  destruct (remove_pane_spec x _ t (proj1 Ht) Hpos) as (p & t' & -> & ? & _); [lia|]. done.
Qed.

Lemma normalize_loop_ids first valid panes :
  pane_id <$> Tab.normalize_loop first valid panes = pane_id <$> panes.
Proof.
  revert valid. induction panes as [|p panes IH]; intros valid; simpl; [done|].
  rewrite IH. f_equal. by repeat case_match.
Qed.

Lemma normalize_loop_sources first valid panes x :
  first ∈ valid → x ∈ split_sources (Tab.normalize_loop first valid panes) →
  x ∈ valid ++ (pane_id <$> panes).
Proof.
  revert valid. induction panes as [|p panes IH]; intros valid Hf; [set_solver|].
  unfold split_sources. simpl. intros Hx.
  assert (x ∈ valid ∨ x ∈ split_sources (Tab.normalize_loop first (valid ++ [pane_id p]) panes))
    as [?|Hin].
  { unfold split_sources. destruct (pane_split p) as [sp|] eqn:Hsp; [|rewrite Hsp in Hx; by right].
    case_decide; simpl in Hx; rewrite ?Hsp in Hx; simpl in Hx;
      apply elem_of_cons in Hx as [->|?]; auto. }
  - set_solver.
  - apply IH in Hin; set_solver.
Qed.

Lemma normalize_inv c t :
  tab_ok t → tab_inv c (Tab.normalize_splits_after_pane_removal t) ∧
  tab_pane_ids (Tab.normalize_splits_after_pane_removal t) = tab_pane_ids t.
Proof.
  intros Hok. unfold Tab.normalize_splits_after_pane_removal.
  destruct (tab_panes t) as [|first rest] eqn:Hp.
  { apply tab_ok_nonempty in Hok. rewrite Hp in Hok. simpl in Hok. lia. }
  set (panes := _ :: _).
  assert (Hids : pane_id <$> panes = tab_pane_ids t).
  { unfold panes, tab_pane_ids. rewrite Hp. simpl. by rewrite normalize_loop_ids. }
  split; [|exact Hids].
  destruct Hok as [Hl [Ho Hz]]. split; [split; [done|split]|].
  - intros x Hx. unfold tab_pane_ids. simpl. rewrite normalize_loop_ids.
    specialize (Ho x Hx). unfold tab_pane_ids in Ho. by rewrite Hp in Ho.
  - exact Hz.
  - intros _ x. unfold tab_pane_ids, panes, split_sources. simpl. rewrite normalize_loop_ids.
    intros Hx%normalize_loop_sources; set_solver.
Qed.

Lemma take_pane_spec c x i t :
  tab_inv c t → Tab.pane_position x t = Some i → 1 < length (tab_panes t) →
  ∃ p t', Tab.take_pane_for_new_tab x t = Ok p t' ∧ tab_inv true t' ∧ tab_id t' = tab_id t ∧
    pane_id p = x ∧ tab_pane_ids t' = delete i (tab_pane_ids t).
Proof.
  intros Ht Hi Hlen. unfold Tab.take_pane_for_new_tab. exec_unfold. rewrite Hi.
  rewrite bool_decide_eq_false_2 by lia.
  destruct (remove_pane_spec x i t (proj1 Ht) Hi Hlen) as (p & t' & -> & Hok & Hid & _ & Hp & Hids).
  destruct (normalize_inv true t' Hok) as [Hinv Hids'].
  eexists p, _. split_and!; [done|done| |done|congruence].
  unfold Tab.normalize_splits_after_pane_removal. by case_match.
Qed.

Lemma take_pane_keeps c x : keeps (tab_inv c) (Tab.take_pane_for_new_tab x).
Proof.
  intros t Ht. destruct (Tab.pane_position x t) as [i|] eqn:Hi.
  - destruct (decide (length (tab_panes t) ≤ 1)) as [Hlen|Hlen].
    + unfold Tab.take_pane_for_new_tab. exec_unfold. rewrite Hi.
      by rewrite bool_decide_eq_true_2.
    + destruct (take_pane_spec c x i t Ht Hi) as (p & t' & -> & [? ?] & _); [lia|].
      by split; auto.
  - unfold Tab.take_pane_for_new_tab. exec_unfold. by rewrite Hi.
Qed.
