(* ===== verification/TabLayout.v ===== *)
(** The layout used for directional focus ([Tab::pane_direction_layout_rects],
    [Tab::pane_id_in_direction]): the rectangles of a tab are positive, lie in
    the 10000 by 10000 root and do not overlap, and the pane chosen in a
    direction is the first candidate in the order of the source. *)
From stdpp Require Import sorting.
From S2P Require Import Prelude Text Launch Pane SplitGeometry Tab TabFacts.

Definition root_rect (id : PaneId) : PaneDirectionRect :=
  mkRect id 0 0 PANE_DIRECTION_LAYOUT_ROWS PANE_DIRECTION_LAYOUT_COLUMNS.

(** What the layout loop maintains about its list of keyed rectangles. *)
Definition rects_ok (root : PaneDirectionRect) (rects : list (PaneId * PaneDirectionRect)) : Prop :=
  (∀ i k r, rects !! i = Some (k, r) → rect_pane_id r = k ∧ rect_ok r ∧ rect_within r root) ∧
  (∀ i j a b, rects !! i = Some a → rects !! j = Some b → i ≠ j → rect_disjoint a.2 b.2).

Lemma rect_within_trans a b c : rect_within a b → rect_within b c → rect_within a c.
Proof. unfold rect_within. lia. Qed.

Lemma rects_ok_split root rects i k src p sp a b :
  rects_ok root rects → rects !! i = Some (k, src) →
  split_pane_direction_rect src p sp = Some (a, b) →
  rects_ok root (<[i := (k, a)]> rects ++ [(p, b)]).
Proof.
  intros [Hok Hdis] Hi Hs. destruct (Hok _ _ _ Hi) as (Hid & Hsrc & Hw).
  destruct (split_rect_spec _ _ _ _ _ Hs Hsrc) as (Hida & Hidb & Ha & Hb & Hwa & Hwb & Hab).
  pose proof (lookup_lt_Some _ _ _ Hi) as Hlt.
  assert (Hcase : ∀ j e, (<[i := (k, a)]> rects ++ [(p, b)]) !! j = Some e →
    (j = i ∧ e = (k, a)) ∨ (j = length rects ∧ e = (p, b)) ∨ (j ≠ i ∧ rects !! j = Some e)).
  { intros j e. rewrite lookup_app_Some, length_insert, list_lookup_insert_Some.
    intros [[?|[? ?]]|[? [? <-]%list_lookup_singleton_Some]]; [naive_solver..|].
    right. left. split; [lia|done]. }
  split.
  - intros j k' r Hj. apply Hcase in Hj as [[-> [= -> ->]]|[[-> [= -> ->]]|[_ Hj]]]; [| |eauto].
    + split_and!; [congruence|done|by eapply rect_within_trans].
    + split_and!; [done|done|by eapply rect_within_trans].
  - assert (Hother : ∀ j e, j ≠ i → rects !! j = Some e → rect_disjoint a e.2 ∧ rect_disjoint b e.2).
    { intros j e Hne Hj. split; (eapply rect_within_disjoint; [eassumption|]);
        exact (Hdis i j _ _ Hi Hj (not_eq_sym Hne)). }
    intros j1 j2 e1 e2 Hj1 Hj2 Hne.
    apply Hcase in Hj1 as [[-> ->]|[[-> ->]|[Hn1 Hj1]]], Hj2 as [[-> ->]|[[-> ->]|[Hn2 Hj2]]];
      simpl; try done; try (by apply (Hother _ _ Hn2 Hj2)).
    + by apply rect_disjoint_sym.
    + apply rect_disjoint_sym. by apply (Hother _ _ Hn1 Hj1).
    + apply rect_disjoint_sym. by apply (Hother _ _ Hn1 Hj1).
    + by eapply Hdis.
Qed.

Lemma layout_loop_ok root panes rects :
  rects_ok root rects → rects_ok root (Tab.layout_loop panes rects).
Proof.
  revert rects. induction panes as [|p panes IH]; intros rects Hok; simpl; [done|].
  destruct (pane_split p) as [sp|]; [|auto].
  destruct (list_find _ rects) as [[i [k src]]|] eqn:Hf; [|auto].
  destruct (split_pane_direction_rect _ _ _) as [[a b]|] eqn:Hs; [|auto].
  apply IH. apply list_find_Some in Hf as (Hi & _). by eapply rects_ok_split.
Qed.

Lemma layout_root_ok id : rects_ok (root_rect id) [(id, root_rect id)].
Proof.
  split.
  - intros i k r [-> [= <- <-]]%list_lookup_singleton_Some.
    unfold rect_ok, rect_within.
    split; [done|]. unfold root_rect. simpl.
    unfold PANE_DIRECTION_LAYOUT_ROWS, PANE_DIRECTION_LAYOUT_COLUMNS. lia.
  - intros i j a b [-> _]%list_lookup_singleton_Some [-> _]%list_lookup_singleton_Some. done.
Qed.

(** The rectangles reported for a tab come from one such list, at the key of
    their pane. *)
Lemma layout_rects_lookup t i r :
  Tab.pane_direction_layout_rects t !! i = Some r →
  ∃ id rects k, rects_ok (root_rect id) rects ∧ rects !! k = Some (rect_pane_id r, r) ∧
    rect_pane_id r ∈ tab_pane_ids t.
Proof.
  unfold Tab.pane_direction_layout_rects, tab_pane_ids. destruct (tab_panes t) as [|f rest]; [done|].
  fold (root_rect (pane_id f)). set (rects := Tab.layout_loop _ _).
  assert (Hok : rects_ok (root_rect (pane_id f)) rects) by apply layout_loop_ok, layout_root_ok.
  intros Hr%list_elem_of_lookup_2. apply list_elem_of_omap in Hr as (p & Hp & Hr).
  apply fmap_Some in Hr as ([k [key r']] & Hf & ->). apply list_find_Some in Hf as (Hk & Hkey & _).
  simpl in Hkey. destruct (proj1 Hok _ _ _ Hk) as (Hid & _). subst key. cbn [snd].
  exists (pane_id f), rects, k. rewrite Hid. split_and!; [done|done|].
  apply list_elem_of_fmap. eauto.
Qed.

Lemma omap_layout_NoDup (rects : list (PaneId * PaneDirectionRect)) (panes : list Pane) root i j r1 r2 :
  rects_ok root rects → NoDup (pane_id <$> panes) →
  let l := omap (λ p, (λ ir, ir.2.2) <$> list_find (λ r, r.1 = pane_id p) rects) panes in
  l !! i = Some r1 → l !! j = Some r2 → i ≠ j → rect_disjoint r1 r2.
Proof.
  intros Hok. revert i j. induction panes as [|p panes IH]; intros i j Hnd; simpl; [done|].
  apply NoDup_cons in Hnd as [Hp Hnd].
  destruct (list_find _ rects) as [[k [key r]]|] eqn:Hf; simpl; [|by apply IH].
  apply list_find_Some in Hf as (Hk & Hkey & _). simpl in Hkey. subst key.
  assert (Hhd : ∀ n r', omap (λ p, (λ ir, ir.2.2) <$> list_find (λ r, r.1 = pane_id p) rects)
    panes !! n = Some r' → rect_disjoint r r').
  { intros n r' (q & Hq & Hr)%list_elem_of_lookup_2%list_elem_of_omap.
    apply fmap_Some in Hr as ([k' [key r'']] & Hf & ->).
    apply list_find_Some in Hf as (Hk' & Hkey & _). simpl in *. subst key.
    eapply (proj2 Hok k k' _ _ Hk Hk'). intros ->. rewrite Hk in Hk'. simplify_eq.
    apply Hp, list_elem_of_fmap. eauto. }
  destruct i as [|i], j as [|j]; simpl; [done|..].
  - intros [= <-] Hj _. eauto.
  - intros Hi [= <-] _. apply rect_disjoint_sym. eauto.
  - intros Hi Hj Hne. eapply IH; eauto.
Qed.

Lemma layout_rects_in_tab t r :
  r ∈ Tab.pane_direction_layout_rects t → rect_pane_id r ∈ tab_pane_ids t.
Proof.
  intros [i Hi]%list_elem_of_lookup.
  by destruct (layout_rects_lookup _ _ _ Hi) as (id & rects & k & _ & _ & ?).
Qed.

(** C22. In a tab whose panes have distinct identifiers, the layout rectangles
    are non-empty, lie inside the 10000 by 10000 root, and two panes never
    share a cell, whatever the splits and their deltas are. *)
Theorem layout_rects_disjoint t :
  NoDup (tab_pane_ids t) →
  (∀ i r, Tab.pane_direction_layout_rects t !! i = Some r →
     rect_ok r ∧ (0 ≤ rect_row r ∧ rect_bottom r ≤ PANE_DIRECTION_LAYOUT_ROWS ∧
                  0 ≤ rect_column r ∧ rect_right r ≤ PANE_DIRECTION_LAYOUT_COLUMNS)%Z) ∧
  (∀ i j r1 r2, Tab.pane_direction_layout_rects t !! i = Some r1 →
     Tab.pane_direction_layout_rects t !! j = Some r2 → i ≠ j → rect_disjoint r1 r2).
Proof.
  intros Hnd. split.
  - intros i r Hi. destruct (layout_rects_lookup _ _ _ Hi) as (id & rects & k & [Hok _] & Hk & _).
    destruct (Hok _ _ _ Hk) as (_ & Hr & Hw). split; [done|exact Hw].
  - intros i j r1 r2. unfold Tab.pane_direction_layout_rects.
    unfold tab_pane_ids in Hnd. destruct (tab_panes t) as [|f rest]; [done|].
    eapply omap_layout_NoDup; [apply layout_loop_ok, layout_root_ok|done].
Qed.

(** ** The neighbour in a direction *)

#[export] Instance candidate_le_total : Total Tab.candidate_le.
Proof. intros l r. unfold Tab.candidate_le. lia. Qed.
#[export] Instance candidate_le_trans : Transitive Tab.candidate_le.
Proof. intros l r u. unfold Tab.candidate_le. lia. Qed.

Lemma head_merge_sort_min (l : list Tab.PaneDirectionCandidate) c :
  head (merge_sort Tab.candidate_le l) = Some c → c ∈ l ∧ ∀ c', c' ∈ l → Tab.candidate_le c c'.
Proof.
  intros Hh. pose proof (merge_sort_Permutation Tab.candidate_le l) as Hperm.
  pose proof (StronglySorted_merge_sort Tab.candidate_le l) as Hs.
  destruct (merge_sort Tab.candidate_le l) as [|a k]; [done|]. simpl in Hh. simplify_eq.
  split; [rewrite <- Hperm; set_solver|].
  intros c'. rewrite <- Hperm, elem_of_cons. apply StronglySorted_inv in Hs as [_ Hall].
  intros [->|Hc']; [unfold Tab.candidate_le; lia|]. rewrite Forall_forall in Hall. auto.
Qed.

Lemma candidate_sides active r d distance overlap :
  pane_direction_candidate active r d = Some (distance, overlap) →
  (0 ≤ distance)%Z ∧ (0 < overlap)%Z.
Proof.
  unfold pane_direction_candidate. destruct d; intros H; try done;
    repeat case_bool_decide; simplify_eq/=; lia.
Qed.

Lemma elem_of_direction_candidates t active d rects c :
  c ∈ Tab.direction_candidates t active d rects ↔
  ∃ i r distance overlap, rects !! i = Some r ∧ rect_pane_id r ≠ rect_pane_id active ∧
    pane_direction_candidate active r d = Some (distance, overlap) ∧
    c = Tab.mkCandidate (rect_pane_id r) distance overlap
          (Tab.pane_activation_recency (rect_pane_id r) t) i.
Proof.
  unfold Tab.direction_candidates. rewrite list_elem_of_omap. split.
  - intros ([i r] & (j & r' & [= -> ->] & Hj)%elem_of_lookup_imap & Hc). simpl in Hc.
    case_decide; [done|]. apply bind_Some in Hc as ([dist ov] & Hc & [= <-]).
    exists j, r', dist, ov. by split_and!.
  - intros (i & r & dist & ov & Hi & Hne & Hc & ->). exists (i, r).
    split; [by apply elem_of_lookup_imap_2|]. simpl. by rewrite decide_False, Hc.
Qed.

(** C39. Directional focus: when a pane is chosen it is another pane of the tab
    whose rectangle lies on that side of the active one with a positive
    overlap, no candidate is nearer, and among the equally near ones none was
    activated more recently; when none is chosen there is no candidate. *)
Theorem pane_in_direction_nearest t d active k :
  list_find (λ r, rect_pane_id r = tab_active_pane_id t)
    (Tab.pane_direction_layout_rects t) = Some (k, active) →
  let rects := Tab.pane_direction_layout_rects t in
  let recency x := Tab.pane_activation_recency x t in
  match Tab.pane_id_in_direction d t with
  | Some x =>
      x ∈ tab_pane_ids t ∧ x ≠ tab_active_pane_id t ∧
      ∃ r distance overlap, r ∈ rects ∧ rect_pane_id r = x ∧
        pane_direction_candidate active r d = Some (distance, overlap) ∧
        (0 ≤ distance ∧ 0 < overlap)%Z ∧
        ∀ r' distance' overlap', r' ∈ rects → rect_pane_id r' ≠ tab_active_pane_id t →
          pane_direction_candidate active r' d = Some (distance', overlap') →
          (distance ≤ distance')%Z ∧
          (distance = distance' → recency (rect_pane_id r') ≤ recency x)
  | None =>
      ∀ r' c', r' ∈ rects → rect_pane_id r' ≠ tab_active_pane_id t →
        pane_direction_candidate active r' d ≠ Some c'
  end.
Proof.
  intros Hf rects recency. unfold Tab.pane_id_in_direction. fold rects.
  apply list_find_Some in Hf as Hf'. destruct Hf' as (_ & Hact & _).
  fold rects in Hf. rewrite Hf. simpl.
  destruct (head _) as [c|] eqn:Hh; simpl.
  - apply head_merge_sort_min in Hh as [Hc Hmin].
    apply elem_of_direction_candidates in Hc as (i & r & dist & ov & Hi & Hne & Hc & ->). simpl.
    assert (Hr : r ∈ rects) by (by eapply list_elem_of_lookup_2).
    split_and!; [by apply layout_rects_in_tab|congruence|].
    exists r, dist, ov. split_and!; try done; [by apply candidate_sides in Hc as [? ?]..|].
    intros r' dist' ov' [j Hj]%list_elem_of_lookup Hne' Hc'.
    assert (Tab.candidate_le (Tab.mkCandidate (rect_pane_id r) dist ov (recency (rect_pane_id r)) i)
      (Tab.mkCandidate (rect_pane_id r') dist' ov' (recency (rect_pane_id r')) j)) as Hle.
    { apply Hmin, elem_of_direction_candidates. exists j, r', dist', ov'.
      split_and!; try done. congruence. }
    unfold Tab.candidate_le in Hle. simpl in Hle. lia.
  - intros r' [dist' ov'] [j Hj]%list_elem_of_lookup Hne' Hc'.
    apply head_None in Hh.
    assert (Hin : Tab.mkCandidate (rect_pane_id r') dist' ov' (recency (rect_pane_id r')) j
      ∈ merge_sort Tab.candidate_le (Tab.direction_candidates t active d rects)).
    { rewrite merge_sort_Permutation. apply elem_of_direction_candidates.
      exists j, r', dist', ov'. split_and!; try done. congruence. }
    rewrite Hh in Hin. set_solver.
Qed.

Lemma pane_id_in_direction_in_tab t d x :
  Tab.pane_id_in_direction d t = Some x → x ∈ tab_pane_ids t.
Proof.
  unfold Tab.pane_id_in_direction. intros ([k active] & _ & Hx)%bind_Some.
  apply fmap_Some in Hx as (c & [Hc _]%head_merge_sort_min & ->).
  apply elem_of_direction_candidates in Hc as (i & r & ? & ? & Hi & _ & _ & ->). simpl.
  by apply layout_rects_in_tab, list_elem_of_lookup_2 with i.
Qed.

Lemma activate_pane_direction_keeps c d : keeps (tab_inv c) (Tab.activate_pane_direction d).
Proof.
  destruct d; simpl; [..|apply focus_next_pane_keeps|apply focus_previous_pane_keeps];
    intros t Ht; exec_unfold; (case_inner Hd; [|done]);
    eauto using set_active_pane_inv, pane_id_in_direction_in_tab.
Qed.

(** ** Rescaling every split of a tab *)

Lemma axis_size_u16 s d : size_ok s → (0 ≤ split_layout_axis_size s d ≤ u16_max)%Z.
Proof. unfold size_ok. destruct d; simpl; lia. Qed.

Lemma split_sources_cons p l :
  split_sources (p :: l) =
    match source_pane <$> pane_split p with
    | Some x => x :: split_sources l
    | None => split_sources l
    end.
Proof. reflexivity. Qed.

(** With sizes in the [u16] range no [expect] fires; identities, order and
    split sources are kept, so only the deltas change. *)
Lemma preserve_split_loop_spec panes old_sizes new_sizes :
  map_Forall (λ _, size_ok) old_sizes → map_Forall (λ _, size_ok) new_sizes →
  ∃ panes', Tab.preserve_split_loop panes old_sizes new_sizes = Some panes' ∧
    pane_id <$> panes' = pane_id <$> panes ∧ split_sources panes' = split_sources panes.
Proof.
  revert old_sizes new_sizes.
  induction panes as [|p panes IH]; intros old_sizes new_sizes Ho Hn; [by eexists|].
  cbn [Tab.preserve_split_loop].
  assert (Hskip : ∀ o n, map_Forall (λ _, size_ok) o → map_Forall (λ _, size_ok) n →
    ∃ panes', cons p <$> Tab.preserve_split_loop panes o n = Some panes' ∧
      pane_id <$> panes' = pane_id <$> p :: panes ∧
      split_sources panes' = split_sources (p :: panes)).
  { intros o n Ho' Hn'. destruct (IH o n Ho' Hn') as (ps & -> & Hid & Hs).
    exists (p :: ps). split_and!; [done|by rewrite !fmap_cons, Hid|].
    by rewrite !split_sources_cons, Hs. }
  remember (split_sources (p :: panes)) as srcs eqn:Hsrcs.
  destruct (pane_split p) as [sp|] eqn:Hsp; [|by apply Hskip].
  destruct (old_sizes !! source_pane sp) as [os|] eqn:Hos; [|by apply Hskip].
  destruct (new_sizes !! source_pane sp) as [ns|] eqn:Hns;
    [|apply Hskip; [by apply map_Forall_delete|done]].
  pose proof (map_Forall_lookup_1 _ _ _ _ Ho Hos) as Hos'.
  pose proof (map_Forall_lookup_1 _ _ _ _ Hn Hns) as Hns'. simpl in Hos', Hns'.
  destruct (split_layout_size_total os (direction sp) (source_size_delta sp) Hos')
    as (oa & ob & -> & ? & ?). simpl.
  assert (∃ delta, (if bool_decide (split_layout_axis_size os (direction sp) =
      split_layout_axis_size ns (direction sp)) then Some (source_size_delta sp)
    else preserve_split_source_size_delta (split_layout_axis_size os (direction sp))
      (source_size_delta sp) (split_layout_axis_size ns (direction sp))) = Some delta)
    as [delta ->].
  { case_bool_decide; [by eexists|].
    destruct (preserve_delta_spec (split_layout_axis_size os (direction sp)) (source_size_delta sp)
      (split_layout_axis_size ns (direction sp))) as (? & d' & _ & _ & -> & _); [..|by eexists];
      by apply axis_size_u16. }
  simpl. destruct (split_layout_size_total ns (direction sp) delta Hns') as (na & nb & -> & ? & ?).
  simpl. edestruct IH as (ps & -> & Hid & Hs); [..|eexists; split; [done|]].
  - by repeat (apply map_Forall_insert_2; [done|]); apply map_Forall_delete.
  - by repeat (apply map_Forall_insert_2; [done|]); apply map_Forall_delete.
  - by rewrite !fmap_cons, Hid, Hsrcs, !split_sources_cons, Hs, Hsp.
Qed.

Lemma preserve_layout_keeps c a b m n :
  is_u16 a → is_u16 b → is_u16 m → is_u16 n →
  keeps (tab_inv c) (Tab.preserve_split_layout_for_resize a b m n).
Proof.
  intros Ha Hb Hm Hn t Ht. unfold Tab.preserve_split_layout_for_resize. exec_unfold.
  destruct (tab_panes t) as [|f rest] eqn:Hp; [done|].
  destruct (preserve_split_loop_spec rest {[pane_id f := mkSize a b]} {[pane_id f := mkSize m n]})
    as (ps & -> & Hid & Hs); [by apply map_Forall_singleton..|].
  assert (Hids : pane_id <$> f :: ps = tab_pane_ids t)
    by (unfold tab_pane_ids; by rewrite Hp, !fmap_cons, Hid).
  apply tab_inv_set_panes; [done|intros x; by rewrite Hids|].
  intros Hc x. rewrite Hids, split_sources_cons, Hs, <-split_sources_cons, <-Hp. by apply Ht.
Qed.

(** ** A concrete tab

    Pane 1 split to the right into pane 2, which is split down into pane 3;
    pane 3 is active and pane 2 was active before it. *)

Definition three_pane_tab : Tab :=
  let p i := Pane.new (PaneId_new i) (PaneLaunch.local (lit "sh")) in
  let split src d i := Pane.with_split (Some (mkPaneSplit (PaneId_new src) d 0)) (p i) in
  mkTab (TabId_new 1) [p 1; split 1 SplitRight 2; split 2 SplitDown 3]%Z (PaneId_new 3)
    [PaneId_new 1; PaneId_new 2; PaneId_new 3] None None.

Lemma layout_rects_disjoint_witness :
  Tab.pane_direction_layout_rects three_pane_tab =
    [mkRect (PaneId_new 1) 0 0 10000 4999; mkRect (PaneId_new 2) 0 5000 4999 5000;
     mkRect (PaneId_new 3) 5000 5000 5000 5000] ∧
  (∀ i r, Tab.pane_direction_layout_rects three_pane_tab !! i = Some r →
     rect_ok r ∧ (0 ≤ rect_row r ∧ rect_bottom r ≤ PANE_DIRECTION_LAYOUT_ROWS ∧
                  0 ≤ rect_column r ∧ rect_right r ≤ PANE_DIRECTION_LAYOUT_COLUMNS)%Z).
Proof.
  split; [vm_compute; reflexivity|].
  apply (layout_rects_disjoint three_pane_tab). by apply (bool_decide_unpack _); vm_compute.
Defined.

Lemma pane_in_direction_nearest_witness :
  Tab.pane_id_in_direction DirLeft three_pane_tab = Some (PaneId_new 1) ∧
  PaneId_new 1 ∈ tab_pane_ids three_pane_tab.
Proof.
  split; [vm_compute; reflexivity|].
  pose proof (pane_in_direction_nearest three_pane_tab DirLeft
    (mkRect (PaneId_new 3) 5000 5000 5000 5000) 2 eq_refl) as H.
  simpl in H. apply H.
Defined.

(** ** The methods of a tab, for its workspace

    What a workspace may assume of a tab method, as one judgement:
    [tab_method c N m] says that [m] never panics on a tab satisfying
    [tab_inv c], re-establishes it on success and on error, keeps the
    identifier of the tab, and leaves no pane identifier behind that was not
    there before or in [N], each at most as often. *)

Definition tab_step (N : list PaneId) (t t' : Tab) : Prop :=
  tab_id t' = tab_id t ∧ tab_pane_ids t' ⊆+ tab_pane_ids t ++ N.

Definition tab_method {A} (c : bool) (N : list PaneId) (m : TabM A) : Prop :=
  keeps (tab_inv c) m ∧
  ∀ t, tab_inv c t → match m t with Ok _ t' | Err _ t' => tab_step N t t' | Panic => True end.

Lemma tab_step_refl N t : tab_step N t t.
Proof. split; [done|]. by apply submseteq_inserts_r. Qed.

Lemma tab_step_ids N t t' :
  tab_id t' = tab_id t → tab_pane_ids t' = tab_pane_ids t → tab_step N t t'.
Proof. intros Hid Hp. split; [done|]. rewrite Hp. by apply submseteq_inserts_r. Qed.

Lemma tab_step_perm N t t' :
  tab_id t' = tab_id t → tab_pane_ids t' ≡ₚ tab_pane_ids t ++ N → tab_step N t t'.
Proof. intros Hid Hp. split; [done|]. by rewrite Hp. Qed.

Lemma tab_step_delete N i t t' :
  tab_id t' = tab_id t → tab_pane_ids t' = delete i (tab_pane_ids t) → tab_step N t t'.
Proof.
  intros Hid Hp. split; [done|]. rewrite Hp. etrans; [|by apply submseteq_inserts_r].
  apply sublist_submseteq, sublist_delete.
Qed.

Lemma tab_step_active N x t : tab_step N t (Tab.set_active_pane x t).
Proof. apply tab_step_ids; [apply set_active_pane_id|apply set_active_pane_ids]. Qed.

Lemma tab_step_slot N f i t :
  (∀ p, pane_id (f p) = pane_id p) → tab_step N t (tab_set_panes (alter f i (tab_panes t)) t).
Proof. intros Hf. apply tab_step_ids; [done|]. by apply ids_alter. Qed.

#[export] Hint Resolve tab_step_refl tab_step_active tab_step_slot : rterm.

(** Open a method up to its last state: guards are decided, errors leave
    the tab as it was. *)
Ltac open_method :=
  let t := fresh "t" in let Ht := fresh "Ht" in
  intros t Ht; exec_unfold;
  repeat (let H := fresh "Hm" in case_inner H; auto with rterm).

Section methods.
  Context (c : bool).

Lemma modify_method (f : Tab → Tab) :
  (∀ t, tab_inv c t → tab_inv c (f t)) → (∀ t, tab_step [] t (f t)) →
  tab_method c [] (modify f).
Proof. intros Hi Hs. split; intros t Ht; [by apply Hi|by apply Hs]. Qed.

Lemma focus_pane_method x : tab_method c [] (Tab.focus_pane x).
Proof. split; [apply focus_pane_keeps|]. unfold Tab.focus_pane. open_method. Qed.

Lemma focus_pane_by_index_method i : tab_method c [] (modify (Tab.focus_pane_by_index i)).
Proof.
  apply modify_method; [apply focus_pane_by_index_inv|].
  intros t. unfold Tab.focus_pane_by_index. case_match; auto with rterm.
Qed.

Lemma focus_next_pane_method : tab_method c [] Tab.focus_next_pane.
Proof.
  split; [apply focus_next_pane_keeps|].
  unfold Tab.focus_next_pane, Tab.activate_slot. open_method.
Qed.

Lemma focus_previous_pane_method : tab_method c [] Tab.focus_previous_pane.
Proof.
  split; [apply focus_previous_pane_keeps|].
  unfold Tab.focus_previous_pane, Tab.activate_slot. open_method.
Qed.

Lemma activate_pane_direction_method d : tab_method c [] (Tab.activate_pane_direction d).
Proof.
  split; [apply activate_pane_direction_keeps|].
  destruct d; simpl; [..|apply focus_next_pane_method|apply focus_previous_pane_method];
    open_method.
Qed.

Lemma toggle_pane_zoom_method x : tab_method c [] (Tab.toggle_pane_zoom x).
Proof.
  split; [apply toggle_pane_zoom_keeps|].
  unfold Tab.toggle_pane_zoom. open_method; apply (tab_step_active [] x t).
Qed.

Lemma set_pane_zoom_state_method x b : tab_method c [] (Tab.set_pane_zoom_state x b).
Proof.
  split; [apply set_pane_zoom_state_keeps|].
  unfold Tab.set_pane_zoom_state. open_method; apply (tab_step_active [] x t).
Qed.

Lemma update_pane_method x f :
  (∀ p, pane_id (f p) = pane_id p) →
  (∀ p, source_pane <$> pane_split (f p) = source_pane <$> pane_split p) →
  tab_method c [] (Tab.update_pane x f).
Proof.
  intros Hf Hs. split; [by apply update_pane_keeps|].
  unfold Tab.update_pane. open_method. apply tab_step_ids; [done|].
  unfold tab_pane_ids. simpl. by eapply fmap_insert_id.
Qed.

Lemma swap_panes_method a s k : tab_method c [] (Tab.swap_panes a s k).
Proof.
  split; [apply swap_panes_keeps|].
  intros t Ht. unfold Tab.swap_panes. exec_unfold.
  case_inner Ha; [|auto with rterm]. case_inner Hs; [|auto with rterm].
  case_decide as Hne; [auto with rterm|].
  apply pane_position_lookup in Ha as (pa & Ha & Hida), Hs as (ps & Hs & Hids).
  rewrite Ha, Hs.
  destruct (swap_panes_inv c a s _ _ t pa ps Ht Hne Ha Hida Hs Hids) as [Hperm _].
  apply tab_step_perm; [by rewrite set_active_pane_id|].
  rewrite set_active_pane_ids, app_nil_r. exact Hperm.
Qed.

Lemma rotate_panes_method d : tab_method c [] (Tab.rotate_panes d).
Proof.
  split; [apply rotate_panes_keeps|]. intros t Ht.
  destruct (rotate_panes_spec c d t Ht) as (t' & -> & _ & Hid & Hids).
  apply tab_step_perm; [done|]. rewrite Hids, app_nil_r. case_decide; [done|apply rotated_ids_perm].
Qed.

Lemma resize_pane_method x d n : tab_method c [] (Tab.resize_pane x d n).
Proof.
  split; [apply resize_pane_keeps|]. unfold Tab.resize_pane. open_method;
    (apply tab_step_slot; intros q; apply (add_split_delta_spec _ q)).
Qed.

Lemma split_step new panes t :
  panes ≡ₚ new :: tab_panes t →
  tab_step [pane_id new] t (Tab.set_active_pane (pane_id new) (tab_set_panes panes t)).
Proof.
  intros Hp. apply tab_step_perm; [by rewrite set_active_pane_id|].
  rewrite set_active_pane_ids. unfold tab_pane_ids. simpl. rewrite Hp. simpl.
  by rewrite Permutation_app_comm.
Qed.

Lemma split_pane_method src new d l delta :
  tab_method c [new] (Tab.split_pane src new d l delta).
Proof.
  split; [apply split_pane_keeps|]. unfold Tab.split_pane. open_method.
  set (p := Pane.with_split _ _). change new with (pane_id p). apply split_step.
  by rewrite Permutation_app_comm.
Qed.

Lemma split_top_level_pane_method new d l delta :
  tab_method c [new] (Tab.split_top_level_pane new d l delta).
Proof.
  split; [apply split_top_level_pane_keeps|]. unfold Tab.split_top_level_pane. open_method.
  set (p' := Pane.with_split _ _) in *. change new with (pane_id p'). apply split_step.
  by eapply vec_insert_perm.
Qed.

Lemma preserve_layout_method a b m n :
  is_u16 a → is_u16 b → is_u16 m → is_u16 n →
  tab_method c [] (Tab.preserve_split_layout_for_resize a b m n).
Proof.
  intros Ha Hb Hm Hn. split; [by apply preserve_layout_keeps|].
  intros t Ht. unfold Tab.preserve_split_layout_for_resize. exec_unfold.
  destruct (tab_panes t) as [|f rest] eqn:Hp; [auto with rterm|].
  destruct (preserve_split_loop_spec rest {[pane_id f := mkSize a b]} {[pane_id f := mkSize m n]})
    as (ps & -> & Hid & Hs); [by apply map_Forall_singleton..|].
  apply tab_step_ids; [done|]. unfold tab_pane_ids. simpl. by rewrite Hp, fmap_cons, <- Hid.
Qed.

End methods.

Lemma close_pane_method x : tab_method false [] (Tab.close_pane x).
Proof.
  split; [apply close_pane_keeps|]. intros t Ht. unfold Tab.close_pane. exec_unfold.
  case_inner Hpos; [|auto with rterm]. case_bool_decide; [auto with rterm|].
  destruct (remove_pane_spec x _ t (proj1 Ht) Hpos) as (p & t' & -> & _ & Hid & _ & _ & Hids);
    [lia|]. by eapply tab_step_delete.
Qed.

Lemma set_title_method c title : tab_method c [] (modify (Tab.set_title title)).
Proof. apply modify_method; [done|]. intros t. by apply tab_step_ids. Qed.
