(* ===== verification/SnapshotFacts.v ===== *)
(** Reconnect snapshots: which tabs have one, which snapshots restore, and
    the round trip between the two; and the recently-closed history as a
    bounded stack. *)
From S2P Require Import Prelude Text Launch Pane SplitGeometry Tab Snapshot TabFacts.

(** ** The index of a pane *)

Lemma pane_indices_snoc l p :
  TabReconnectSnapshot.pane_indices (l ++ [p]) =
  <[pane_id p := length l]> (TabReconnectSnapshot.pane_indices l).
Proof.
  unfold TabReconnectSnapshot.pane_indices. rewrite imap_app, foldl_app. simpl.
  by rewrite Nat.add_0_r.
Qed.

Lemma pane_indices_Some panes x i :
  TabReconnectSnapshot.pane_indices panes !! x = Some i →
  ∃ p, panes !! i = Some p ∧ pane_id p = x.
Proof.
  induction panes as [|p panes IH] using rev_ind; [done|]. rewrite pane_indices_snoc.
  destruct (decide (pane_id p = x)) as [<-|Hne].
  - rewrite lookup_insert_eq. intros [= <-]. exists p. by rewrite lookup_app_r, Nat.sub_diag.
  - rewrite lookup_insert_ne by done. intros (q & Hq & Hid)%IH. exists q.
    by rewrite lookup_app_l by by eapply lookup_lt_Some.
Qed.

Lemma pane_indices_total panes x :
  x ∈ pane_id <$> panes → ∃ i, TabReconnectSnapshot.pane_indices panes !! x = Some i ∧
    i < length panes.
Proof.
  intros Hx. assert (is_Some (TabReconnectSnapshot.pane_indices panes !! x)) as [i Hi].
  { revert Hx. induction panes as [|p panes IH] using rev_ind; [set_solver|].
    rewrite pane_indices_snoc, fmap_app, elem_of_app, lookup_insert_is_Some. simpl.
    rewrite list_elem_of_singleton. intros [Hx| ->]; [|by left].
    destruct (decide (pane_id p = x)); [by left|right]. auto. }
  exists i. split; [done|]. apply pane_indices_Some in Hi as (p & Hp & _).
  by eapply lookup_lt_Some.
Qed.

Lemma pane_indices_NoDup panes i p :
  NoDup (pane_id <$> panes) → panes !! i = Some p →
  TabReconnectSnapshot.pane_indices panes !! pane_id p = Some i.
Proof.
  intros Hnd Hi. destruct (pane_indices_total panes (pane_id p)) as (j & Hj & _).
  { apply list_elem_of_fmap. eauto using list_elem_of_lookup_2. }
  rewrite Hj. f_equal. apply pane_indices_Some in Hj as (q & Hq & Hid).
  eapply (NoDup_lookup _ j i (pane_id p) Hnd); rewrite list_lookup_fmap;
    [by rewrite Hq; simpl; rewrite Hid|by rewrite Hi].
Qed.

(** ** Well-formed snapshots *)

Definition snapshot_wf (sn : TabReconnectSnapshot) : Prop :=
  let n := length (snapshot_panes sn) in
  last (snapshot_activation_order sn) = Some (snapshot_active_pane_index sn) ∧
  Forall (λ i, i < n) (snapshot_activation_order sn) ∧
  (∀ z, snapshot_zoomed_pane_index sn = Some z → z = snapshot_active_pane_index sn) ∧
  Forall (λ p, ∀ sp, snapshot_split p = Some sp → source_pane_index sp < n) (snapshot_panes sn).

Lemma snapshot_wf_active sn :
  snapshot_wf sn → snapshot_active_pane_index sn < length (snapshot_panes sn).
Proof.
  intros (Hl & Ho & _). apply last_Some in Hl as [l Hl]. rewrite Hl, Forall_app in Ho.
  destruct Ho as [_ Ho]. by inversion Ho.
Qed.

(** The closure of [from_tab] that turns one pane into its snapshot. *)
Definition snapshot_pane (f : PaneId → option nat) (p : Pane) : option PaneReconnectSnapshot :=
  split ← option_transpose (λ s,
      i ← f (source_pane s);
      Some (mkReconnectSplit i (direction s) (source_size_delta s))) (pane_split p);
  Some (mkPaneSnapshot (pane_launch p) split).

Lemma snapshot_pane_total f n p :
  (∀ sp, pane_split p = Some sp → ∃ i, f (source_pane sp) = Some i ∧ i < n) →
  ∃ sp, snapshot_pane f p = Some sp ∧
    (∀ s, snapshot_split sp = Some s → source_pane_index s < n).
Proof.
  intros Hf. unfold snapshot_pane. destruct (pane_split p) as [s|]; simpl; [|by eexists].
  destruct (Hf s eq_refl) as (i & -> & Hi). simpl. eexists. split; [done|].
  by intros ? [= <-].
Qed.

Lemma mapM_total {A B} (f : A → option B) (P : B → Prop) l :
  (∀ x, x ∈ l → ∃ y, f x = Some y ∧ P y) →
  ∃ k, mapM f l = Some k ∧ length k = length l ∧ Forall P k.
Proof.
  induction l as [|x l IH]; intros Hf; simpl; [by eexists|].
  destruct (Hf x) as (y & -> & Hy); [set_solver|]. simpl.
  destruct IH as (k & -> & Hk & HP); [set_solver|]. simpl.
  eexists. split_and!; [done|by f_equal/=|by constructor].
Qed.

Lemma mapM_last {A B} (f : A → option B) l k x :
  mapM f l = Some k → last l = Some x → last k = f x.
Proof.
  intros Hm%mapM_Some [l' ->]%last_Some. apply Forall2_app_inv_l in Hm as (k1 & k2 & _ & Hx & ->).
  apply Forall2_cons_inv_l in Hx as (y & k3 & Hy & Hn & ->).
  apply Forall2_nil_inv_l in Hn as ->. by rewrite last_snoc, Hy.
Qed.

(** [from_tab] with the index lookup as a parameter. *)
Definition snapshot_with (f : PaneId → option nat) (t : Tab) : option TabReconnectSnapshot :=
  panes ← mapM (snapshot_pane f) (tab_panes t);
  active ← f (tab_active_pane_id t);
  order ← mapM f (tab_pane_activation_order t);
  zoomed ← option_transpose f (tab_zoomed_pane_id t);
  Some (mkSnapshot (tab_title t) panes active order zoomed).

Lemma from_tab_eq t :
  TabReconnectSnapshot.from_tab t =
  snapshot_with (λ id, TabReconnectSnapshot.pane_indices (tab_panes t) !! id) t.
Proof. reflexivity. Qed.

Lemma snapshot_with_total f t :
  (∀ x, x ∈ tab_pane_ids t → ∃ i, f x = Some i ∧ i < length (tab_panes t)) → tab_inv true t →
  ∃ sn, snapshot_with f t = Some sn ∧ snapshot_wf sn ∧
    length (snapshot_panes sn) = length (tab_panes t).
Proof.
  intros Hf [Hok Hs]. specialize (Hs eq_refl). pose proof Hok as [Hlast [Hord Hz]].
  unfold snapshot_with.
  destruct (mapM_total (snapshot_pane f) (λ sp, ∀ s, snapshot_split sp = Some s →
    source_pane_index s < length (tab_panes t)) (tab_panes t)) as (panes & -> & Hlen & Hwf).
  { intros p Hin. apply snapshot_pane_total. intros sp Hsp. apply Hf, Hs.
    apply elem_of_split_sources. eauto. }
  simpl. destruct (Hf _ (tab_ok_active _ Hok)) as (a & Ha & _). rewrite Ha. simpl.
  destruct (mapM_total f (λ i, i < length (tab_panes t)) (tab_pane_activation_order t))
    as (o & Ho & _ & Hob); [auto|]. rewrite Ho. simpl.
  pose proof (mapM_last _ _ _ _ Ho Hlast) as Hlo. rewrite Ha in Hlo.
  unfold snapshot_wf. destruct (tab_zoomed_pane_id t) as [z|]; simpl.
  - rewrite (Hz z eq_refl), Ha. simpl.
    eexists. split; [done|]. simpl. rewrite Hlen. split_and!; try done. by intros ? [= <-].
  - eexists. split; [done|]. simpl. rewrite Hlen. by split_and!.
Qed.

(** Every tab whose splits are closed has a well-formed snapshot. *)
Lemma from_tab_total t :
  tab_inv true t →
  ∃ sn, TabReconnectSnapshot.from_tab t = Some sn ∧ snapshot_wf sn ∧
    length (snapshot_panes sn) = length (tab_panes t).
Proof. apply snapshot_with_total. intros x. apply pane_indices_total. Qed.

(** ** Restoring *)

Lemma restore_pane_spec {S} id ids i p pid (s : S) :
  ids !! i = Some pid →
  (∀ sp, snapshot_split p = Some sp → source_pane_index sp < length ids) →
  ∃ q, restore_pane id ids i p s = Ok q s ∧ pane_id q = pid ∧
    (∀ sp, pane_split q = Some sp → source_pane sp ∈ ids) ∧
    ∀ f, (∀ k x, ids !! k = Some x → f x = Some k) → snapshot_pane f q = Some p.
Proof.
  intros Hi Hsp. unfold restore_pane. exec_unfold.
  destruct p as [launch [sp|]]; simpl in *; rewrite Hi.
  - destruct (lookup_lt_is_Some_2 ids (source_pane_index sp)) as [src Hsrc]; [by apply Hsp|].
    rewrite Hsrc. eexists. split_and!; [done..| |].
    { intros ? [= <-]. by eapply list_elem_of_lookup_2. }
    intros f Hf. unfold snapshot_pane. simpl.
    rewrite (Hf _ _ Hsrc). simpl. by destruct sp.
  - eexists. split_and!; [done..|]. done.
Qed.

Lemma restore_panes_spec {S} id ids l i (s : S) :
  i + length l = length ids →
  Forall (λ p, ∀ sp, snapshot_split p = Some sp → source_pane_index sp < length ids) l →
  ∃ panes, restore_panes id ids i l s = Ok panes s ∧ pane_id <$> panes = drop i ids ∧
    (∀ f, (∀ k x, ids !! k = Some x → f x = Some k) → mapM (snapshot_pane f) panes = Some l) ∧
    (∀ x, x ∈ split_sources panes → x ∈ ids).
Proof.
  intros Hlen Hl. revert i Hlen. induction Hl as [|p l Hp Hl IH]; intros i Hlen; simpl in *.
  { exists []. split_and!; [done| |done|set_solver]. by rewrite drop_ge by lia. }
  destruct (lookup_lt_is_Some_2 ids i) as [pid Hi]; [lia|].
  destruct (restore_pane_spec id ids i p pid s Hi Hp) as (q & Hq & Hqid & Hqsrc & Hqs).
  destruct (IH (i + 1)) as (panes & Hps & Hids & Hsn & Hsrc); [lia|].
  exists (q :: panes). unfold mbind, M_bind. rewrite Hq, Hps. split_and!; [done|..].
  - rewrite fmap_cons, Hqid, Hids, Nat.add_1_r. symmetry. by apply drop_S.
  - intros f Hf. simpl. rewrite (Hqs f Hf). simpl. by rewrite (Hsn f Hf).
  - intros x (q' & sp & Hin & Hsp & <-)%elem_of_split_sources.
    apply elem_of_cons in Hin as [->|Hin].
    + by apply Hqsrc.
    + apply Hsrc, elem_of_split_sources. eauto.
Qed.

(** The validation at the head of [from_reconnect_snapshot] passes. *)
Lemma restore_guard sn n :
  snapshot_wf sn → n = length (snapshot_panes sn) →
  (length (snapshot_panes sn) =? 0) || negb (length (snapshot_panes sn) =? n)
    || (n <=? snapshot_active_pane_index sn)
    || existsb (λ i, n <=? i) (snapshot_activation_order sn)
    || from_option (λ i, n <=? i) false (snapshot_zoomed_pane_index sn) = false.
Proof.
  intros Hwf ->. pose proof (snapshot_wf_active _ Hwf) as Ha.
  destruct Hwf as (_ & Hord & Hz & _).
  rewrite !orb_false_iff, negb_false_iff, !Nat.eqb_neq, Nat.eqb_eq, Nat.leb_gt.
  split_and!; [lia|lia|lia| |].
  - apply not_true_is_false. rewrite existsb_exists. intros (i & Hi & Hle%Nat.leb_le).
    apply list_elem_of_In in Hi. rewrite Forall_forall in Hord. specialize (Hord i Hi).
    simpl in Hord. lia.
  - destruct (snapshot_zoomed_pane_index sn) as [z|]; simpl; [|done].
    apply Nat.leb_gt. by rewrite (Hz z eq_refl).
Qed.

(** A well-formed snapshot restores, with the given identifiers. *)
Lemma restore_total {S} id sn ids (s : S) :
  snapshot_wf sn → length ids = length (snapshot_panes sn) →
  ∃ t, from_reconnect_snapshot id sn ids s = Ok t s ∧ tab_id t = id ∧
    tab_pane_ids t = ids ∧ tab_inv true t ∧
    ∀ f, (∀ k x, ids !! k = Some x → f x = Some k) → snapshot_with f t = Some sn.
Proof.
  intros Hwf Hlen. pose proof (snapshot_wf_active _ Hwf) as Ha.
  pose proof (restore_guard _ _ Hwf Hlen) as Hguard.
  destruct Hwf as (Hlast & Hord & Hz & Hsp). rewrite <- Hlen in Ha, Hord, Hsp.
  unfold from_reconnect_snapshot. rewrite Hguard.
  destruct (restore_panes_spec id ids (snapshot_panes sn) 0 s) as (panes & Hp & Hids & Hsn & Hsrc);
    [lia|done|].
  assert (Hlk : ∀ i, i < length ids → ∃ x, ids !! i = Some x ∧ x ∈ ids).
  { intros i Hi. destruct (lookup_lt_is_Some_2 ids i Hi) as [x Hx].
    eauto using list_elem_of_lookup_2. }
  destruct (Hlk _ Ha) as (a & Hact & _).
  destruct (mapM_total (λ i, ids !! i) (λ x, x ∈ ids) (snapshot_activation_order sn))
    as (o & Ho & _ & Hoin).
  { intros i Hi. rewrite Forall_forall in Hord. auto. }
  assert (∃ z, option_transpose (λ i, ids !! i) (snapshot_zoomed_pane_index sn) = Some z ∧
    (∀ x, z = Some x → x = a) ∧
    ∀ f, (∀ k x, ids !! k = Some x → f x = Some k) →
      option_transpose f z = Some (snapshot_zoomed_pane_index sn)) as (z & Hzz & Hzin & Hzf).
  { destruct (snapshot_zoomed_pane_index sn) as [zi|]; simpl; [|by exists None].
    rewrite (Hz zi eq_refl), Hact. exists (Some a). simpl.
    split_and!; [done|by intros ? [= <-]|]. intros f Hf. by rewrite (Hf _ _ Hact). }
  unfold mbind, M_bind. rewrite Hp, Hact, Ho, Hzz. simpl in Hids.
  eexists. split_and!; [done|done|exact Hids|..].
  - split; [split; [|split]|]; unfold tab_pane_ids; simpl; rewrite ?Hids.
    + by rewrite (mapM_last _ _ _ _ Ho Hlast).
    + by apply Forall_forall.
    + exact Hzin.
    + intros _ x. unfold tab_pane_ids. simpl. rewrite Hids. apply Hsrc.
  - intros f Hf. unfold snapshot_with. simpl. rewrite (Hsn f Hf). simpl.
    rewrite (Hf _ _ Hact). simpl.
    assert (mapM f o = Some (snapshot_activation_order sn)) as ->.
    { apply mapM_Some. apply mapM_Some in Ho. apply Forall2_flip.
      eapply Forall2_impl; [exact Ho|]. simpl. auto. }
    simpl. rewrite (Hzf f Hf). simpl. by destruct sn.
Qed.

(** C31. Round trip of reconnect snapshots: a well-formed snapshot restored
    under fresh, distinct pane identifiers gives a tab that satisfies the tab
    invariant, has exactly those identifiers, and whose snapshot is the
    original one (layout, launches, activation order, zoom and title). *)
Theorem snapshot_restore_roundtrip {S} (id : TabId) (sn : TabReconnectSnapshot)
    (ids : list PaneId) (s : S) :
  snapshot_wf sn → length ids = length (snapshot_panes sn) → NoDup ids →
  ∃ t, from_reconnect_snapshot id sn ids s = Ok t s ∧ tab_id t = id ∧
    tab_pane_ids t = ids ∧ tab_inv true t ∧
    TabReconnectSnapshot.from_tab t = Some sn.
Proof.
  intros Hwf Hlen Hnd.
  destruct (restore_total id sn ids s Hwf Hlen) as (t & Ht & Hid & Hids & Hi & Hs).
  exists t. split_and!; try done. rewrite from_tab_eq. apply Hs. intros k x Hk.
  unfold tab_pane_ids in Hids. rewrite <- Hids, list_lookup_fmap in Hk.
  apply fmap_Some in Hk as (p & Hp & ->). apply pane_indices_NoDup; [by rewrite Hids|done].
Qed.

(** Two panes side by side, the second active and zoomed. *)
Definition two_pane_snapshot : TabReconnectSnapshot :=
  let sh := PaneLaunch.local (lit "sh") in
  mkSnapshot (Some (lit "work"))
    [mkPaneSnapshot sh None; mkPaneSnapshot sh (Some (mkReconnectSplit 0 SplitRight 5))]
    1 [0; 1] (Some 1).

Lemma snapshot_restore_roundtrip_witness :
  ∃ t, from_reconnect_snapshot (TabId_new 7) two_pane_snapshot [PaneId_new 4; PaneId_new 9] () = Ok t ()
    ∧ tab_id t = TabId_new 7 ∧ tab_pane_ids t = [PaneId_new 4; PaneId_new 9] ∧ tab_inv true t ∧
    TabReconnectSnapshot.from_tab t = Some two_pane_snapshot.
Proof.
  apply (snapshot_restore_roundtrip (TabId_new 7) two_pane_snapshot [PaneId_new 4; PaneId_new 9] ()).
  - split_and!; [done|repeat constructor|by intros ? [= <-]|].
    constructor; [by intros ?|]. constructor; [|constructor]. intros ? [= <-]. simpl. lia.
  - done.
  - by apply (bool_decide_unpack _); vm_compute.
Defined.

(** ** The recently-closed history as a bounded stack *)

Inductive history_op :=
| HistoryPush (e : ClosedTabEntry)
| HistoryPop
| HistorySetCapacity (n : nat).

Definition history_step (o : history_op) (h : ClosedTabHistory) :
    option ClosedTabEntry * ClosedTabHistory :=
  match o with
  | HistoryPush e => (None, ClosedTabHistory.push e h)
  | HistoryPop => ClosedTabHistory.pop h
  | HistorySetCapacity n => (None, ClosedTabHistory.set_capacity n h)
  end.

(** The specification: a stack, newest first, cut to its capacity. *)
Definition stack_step (o : history_op) (st : nat * list ClosedTabEntry) :
    option ClosedTabEntry * (nat * list ClosedTabEntry) :=
  match o with
  | HistoryPush e => (None, (st.1, take st.1 (e :: st.2)))
  | HistoryPop => (head st.2, (st.1, tail st.2))
  | HistorySetCapacity n => (None, (n, take n st.2))
  end.

(** The outputs of a run and its last state. *)
Fixpoint run_ops {S} (step : history_op → S → option ClosedTabEntry * S)
    (ops : list history_op) (s : S) : list (option ClosedTabEntry) * S :=
  match ops with
  | [] => ([], s)
  | o :: ops' => let '(r, s1) := step o s in
                 let '(rs, s2) := run_ops step ops' s1 in (r :: rs, s2)
  end.

Definition history_abs (h : ClosedTabHistory) : nat * list ClosedTabEntry :=
  (history_capacity h, reverse (history_entries h)).

(** Draining the excess over [n] keeps the [n] newest entries. *)
Lemma drain_front_abs n l :
  reverse (ClosedTabHistory.drain_front (length l - n) l) = take n (reverse l).
Proof.
  unfold ClosedTabHistory.drain_front. case_bool_decide.
  - rewrite reverse_drop. f_equal. lia.
  - rewrite take_ge; [done|]. rewrite length_reverse. lia.
Qed.

Lemma drain_front_length n l :
  length (ClosedTabHistory.drain_front (length l - n) l) ≤ n.
Proof. unfold ClosedTabHistory.drain_front. case_bool_decide; [rewrite length_drop|]; lia. Qed.

Lemma history_step_refines o h :
  ClosedTabHistory.len h ≤ history_capacity h →
  let '(r, h') := history_step o h in
  stack_step o (history_abs h) = (r, history_abs h') ∧
  ClosedTabHistory.len h' ≤ history_capacity h'.
Proof.
  destruct h as [cap l]. unfold ClosedTabHistory.len. simpl. intros Hlen. destruct o as [e| |n]; simpl.
  - unfold ClosedTabHistory.push, ClosedTabHistory.len. simpl. case_bool_decide as Hcap; simpl.
    { subst. destruct l; simpl in *; [done|lia]. }
    destruct cap as [|cap]; [done|]. unfold history_abs. simpl.
    replace (length l + 1 - S cap) with (length l - cap) by lia.
    rewrite reverse_snoc, drain_front_abs. split; [done|].
    rewrite length_app. simpl. pose proof (drain_front_length cap l). lia.
  - unfold ClosedTabHistory.pop, ClosedTabHistory.len. simpl. unfold history_abs.
    destruct (last l) as [e|] eqn:Hl; simpl.
    + apply last_Some in Hl as [k ->]. rewrite reverse_snoc, length_app. simpl.
      rewrite Nat.add_sub, take_app_length. rewrite length_app in Hlen. split; [done|]. simpl in *. lia.
    + apply last_None in Hl as ->. by split.
  - unfold ClosedTabHistory.set_capacity, ClosedTabHistory.len, history_abs. simpl.
    rewrite drain_front_abs. split; [done|]. apply drain_front_length.
Qed.

(** The recently-closed history is a bounded stack: over any sequence of
    pushes, pops and capacity changes it returns the same entries as a stack
    cut to its capacity (oldest entries dropped first), and it never holds
    more entries than its capacity. *)
Theorem closed_history_refines_stack cap ops :
  let '(rs, h) := run_ops history_step ops (ClosedTabHistory.new cap) in
  run_ops stack_step ops (cap, []) = (rs, history_abs h) ∧
  ClosedTabHistory.len h ≤ history_capacity h.
Proof.
  assert (Hgen : ∀ h, ClosedTabHistory.len h ≤ history_capacity h →
    let '(rs, h') := run_ops history_step ops h in
    run_ops stack_step ops (history_abs h) = (rs, history_abs h') ∧
    ClosedTabHistory.len h' ≤ history_capacity h').
  { induction ops as [|o ops IH]; intros h Hh; [done|]. cbn [run_ops].
    pose proof (history_step_refines o h Hh) as Hstep.
    destruct (history_step o h) as [r h1]. destruct Hstep as [-> Hh1].
    specialize (IH h1 Hh1). destruct (run_ops history_step ops h1) as [rs h2].
    by destruct IH as [-> Hh2]. }
  apply (Hgen (ClosedTabHistory.new cap)). simpl. apply Nat.le_0_l.
Qed.
