(* ===== verification/WorkspaceFacts.v ===== *)
(** Invariants of a workspace and their preservation by every workspace
    method, and the specifications of tab selection, movement and closing. *)
From S2P Require Import Prelude Text Launch Pane SplitGeometry Tab Snapshot Workspace.
From S2P Require Import TabFacts TabLayout.

(** The active tab and the last active one are tabs of the workspace, and
    every tab satisfies its own invariant. *)
Definition ws_inv (c : bool) (w : Workspace) : Prop :=
  ws_active_tab_id w ∈ ws_tab_ids w ∧
  (∀ l, ws_last_active_tab_id w = Some l → l ∈ ws_tab_ids w) ∧
  Forall (tab_inv c) (ws_tabs w).

(** ** Positions *)

Lemma tab_position_elem w x : x ∈ ws_tab_ids w ↔ is_Some (Workspace.tab_position x w).
Proof.
  unfold Workspace.tab_position, ws_tab_ids. split.
  - intros (p & -> & Hp)%list_elem_of_fmap. by eapply position_exists.
  - intros [i (p & Hp & <-)%position_lookup]. apply list_elem_of_fmap.
    exists p. split; [done|]. by eapply list_elem_of_lookup_2.
Qed.

Lemma tab_position_lookup w x i :
  Workspace.tab_position x w = Some i → ∃ t, ws_tabs w !! i = Some t ∧ tab_id t = x.
Proof. apply position_lookup. Qed.

Lemma tab_position_Some_elem w x i :
  Workspace.tab_position x w = Some i → x ∈ ws_tab_ids w.
Proof. intros H. apply tab_position_elem. by eexists. Qed.

Lemma ws_inv_active_position c w :
  ws_inv c w → ∃ i t, Workspace.tab_position (ws_active_tab_id w) w = Some i ∧
    ws_tabs w !! i = Some t ∧ tab_id t = ws_active_tab_id w ∧ tab_inv c t.
Proof.
  intros (Ha & _ & Ht). apply tab_position_elem in Ha as [i Hi].
  destruct (tab_position_lookup _ _ _ Hi) as (t & Hl & Hid).
  exists i, t. split_and!; try done. by eapply Forall_lookup_1.
Qed.

Lemma ws_inv_nonempty c w : ws_inv c w → 0 < length (ws_tabs w).
Proof.
  intros (i & t & _ & Hl & _)%ws_inv_active_position. apply lookup_lt_Some in Hl. lia.
Qed.

Lemma ws_active_tab_is_Some c w :
  ws_inv c w → ∃ t, Workspace.active_tab w = Some t ∧ tab_id t = ws_active_tab_id w ∧ tab_inv c t.
Proof.
  intros (i & t & Hi & Hl & ? & ?)%ws_inv_active_position. exists t.
  unfold Workspace.active_tab, Workspace.tab. by rewrite Hi.
Qed.

Lemma elem_of_tab_ids t w : t ∈ ws_tabs w → tab_id t ∈ ws_tab_ids w.
Proof. intros Ht. apply list_elem_of_fmap. eauto. Qed.

(** ** Updates *)

Lemma ws_inv_insert_tab_slot c i t t' w :
  ws_inv c w → ws_tabs w !! i = Some t → tab_id t' = tab_id t → tab_inv c t' →
  ws_inv c (ws_set_tabs (<[i:=t']> (ws_tabs w)) w).
Proof.
  intros (Ha & Hl & Ht) Hi Hid Ht'.
  assert (Heq : ws_tab_ids (ws_set_tabs (<[i:=t']> (ws_tabs w)) w) = ws_tab_ids w)
    by (unfold ws_tab_ids; simpl; by eapply fmap_insert_id).
  split_and!; rewrite ?Heq; [done..|]. simpl. by apply Forall_insert_lookup.
Qed.

Lemma activate_existing_tab_inv c x w :
  ws_inv c w → x ∈ ws_tab_ids w → ws_inv c (Workspace.activate_existing_tab x w).
Proof.
  intros (Ha & Hl & Ht) Hx. unfold Workspace.activate_existing_tab.
  case_decide; [done|]. split_and!; [done| |done]. intros l [= <-]. done.
Qed.

Lemma activate_existing_tab_active x w :
  ws_active_tab_id (Workspace.activate_existing_tab x w) = x.
Proof. unfold Workspace.activate_existing_tab. by case_decide. Qed.

Lemma activate_existing_tab_tabs x w :
  ws_tabs (Workspace.activate_existing_tab x w) = ws_tabs w.
Proof. unfold Workspace.activate_existing_tab. by case_decide. Qed.

Lemma ws_inv_set_tabs c tabs w :
  ws_inv c w → (∀ x, x ∈ ws_tab_ids w → x ∈ tab_id <$> tabs) → Forall (tab_inv c) tabs →
  ws_inv c (ws_set_tabs tabs w).
Proof. intros (Ha & Hl & _) Hi Ht. by split_and!; simpl; auto. Qed.

Lemma ws_inv_perm c tabs w :
  ws_inv c w → tabs ≡ₚ ws_tabs w → ws_inv c (ws_set_tabs tabs w).
Proof.
  intros Hw Hp. pose proof Hw as (_ & _ & Ht). apply ws_inv_set_tabs; [done| |by rewrite Hp].
  intros x. unfold ws_tab_ids. by rewrite Hp.
Qed.

Lemma ws_inv_add c t tabs w :
  ws_inv c w → tab_inv c t → tabs ≡ₚ t :: ws_tabs w →
  ws_inv c (Workspace.activate_existing_tab (tab_id t) (ws_set_tabs tabs w)).
Proof.
  intros Hw Ht Hp. apply activate_existing_tab_inv.
  - apply ws_inv_set_tabs; [done|..].
    + intros x. unfold ws_tab_ids. rewrite Hp. set_solver.
    + rewrite Hp. constructor; [done|apply Hw].
  - unfold ws_tab_ids. simpl. rewrite Hp. set_solver.
Qed.

(** A new tab of one pane. *)
Lemma new_tab_single id p :
  pane_split p = None → ∃ t, Tab.new id [p] = Some t ∧ tab_id t = id ∧
    tab_inv true t ∧ tab_panes t = [p] ∧ tab_active_pane_id t = pane_id p.
Proof.
  intros Hp. unfold Tab.new. simpl. eexists. split_and!; try done.
  split; [split; [done|split]|].
  - intros x. unfold tab_pane_ids. set_solver.
  - done.
  - intros _ x. unfold split_sources, tab_pane_ids. simpl. rewrite Hp. simpl. set_solver.
Qed.

Lemma tab_inv_weaken c t : tab_inv true t → tab_inv c t.
Proof. intros [Hok Hs]. by split; [|intros _; apply Hs]. Qed.

Lemma tab_inv_false c t : tab_inv c t → tab_inv false t.
Proof. intros [Hok _]. by split. Qed.

(** ** Workspace methods

    The judgement of [tab_method] one level up: [NT] and [NP] are the tab
    and pane identifiers the method may introduce. *)

Definition ws_pane_ids (w : Workspace) : list PaneId := ws_tabs w ≫= tab_pane_ids.

Definition ws_step (NT : list TabId) (NP : list PaneId) (w w' : Workspace) : Prop :=
  ws_id w' = ws_id w ∧ ws_tab_ids w' ⊆+ ws_tab_ids w ++ NT ∧
  ws_pane_ids w' ⊆+ ws_pane_ids w ++ NP.

Definition ws_method {A} (c : bool) (NT : list TabId) (NP : list PaneId) (m : WsM A) : Prop :=
  ∀ w, ws_inv c w →
  match m w with
  | Ok _ w' | Err _ w' => ws_inv c w' ∧ ws_step NT NP w w'
  | Panic => False
  end.

Lemma ws_step_refl NT NP w : ws_step NT NP w w.
Proof. split_and!; [done|by apply submseteq_inserts_r..]. Qed.

Lemma ws_step_tabs NT NP w w' :
  ws_id w' = ws_id w → ws_tabs w' = ws_tabs w → ws_step NT NP w w'.
Proof.
  unfold ws_step, ws_tab_ids, ws_pane_ids. intros -> ->.
  split_and!; [done|by apply submseteq_inserts_r..].
Qed.

Lemma ws_step_perm NT NP tabs w w' :
  ws_id w' = ws_id w → ws_tabs w' ≡ₚ ws_tabs w ++ tabs →
  tab_id <$> tabs = NT → tabs ≫= tab_pane_ids = NP → ws_step NT NP w w'.
Proof.
  unfold ws_step, ws_tab_ids, ws_pane_ids. intros -> Hp <- <-.
  by rewrite Hp, fmap_app, bind_app.
Qed.

Lemma bind_sublist {A B} (f : A → list B) l k : sublist l k → l ≫= f ⊆+ k ≫= f.
Proof. induction 1; simpl; auto using submseteq_skips_l, submseteq_inserts_l. Qed.

Lemma ws_step_delete NT NP i w w' :
  ws_id w' = ws_id w → ws_tabs w' = delete i (ws_tabs w) → ws_step NT NP w w'.
Proof.
  unfold ws_step, ws_tab_ids, ws_pane_ids. intros -> ->. split; [done|].
  split; (etrans; [|by apply submseteq_inserts_r]).
  - apply sublist_submseteq, fmap_sublist, sublist_delete.
  - apply bind_sublist, sublist_delete.
Qed.

Lemma ws_step_activate NT NP x w w' :
  ws_step NT NP w w' → ws_step NT NP w (Workspace.activate_existing_tab x w').
Proof. unfold Workspace.activate_existing_tab. by case_decide. Qed.

#[export] Hint Resolve ws_step_refl ws_step_activate : rterm.
#[export] Hint Resolve activate_existing_tab_inv : rterm.

Lemma bind_insert_submseteq {A B} (f : A → list B) l i x y N :
  l !! i = Some x → f y ⊆+ f x ++ N → <[i:=y]> l ≫= f ⊆+ (l ≫= f) ++ N.
Proof.
  intros Hi Hs. rewrite insert_take_drop by by eapply lookup_lt_Some.
  rewrite <- (take_drop_middle l i x Hi) at 3. rewrite !bind_app, !bind_cons, <- !app_assoc.
  apply submseteq_skips_l. rewrite (Permutation_app_comm _ N), (app_assoc (f x)).
  by apply submseteq_skips_r.
Qed.

Lemma in_tab_spec {A} c N i (m : TabM A) w t :
  ws_inv c w → ws_tabs w !! i = Some t → tab_method c N m →
  match Workspace.in_tab i m w with
  | Ok _ w' | Err _ w' => ws_inv c w' ∧ ws_step [] N w w'
  | Panic => False
  end.
Proof.
  intros Hw Hi [Hm Hs].
  assert (Ht : tab_inv c t) by (eapply Forall_lookup_1; [apply Hw|done]).
  specialize (Hm t Ht). specialize (Hs t Ht).
  unfold Workspace.in_tab, zoom. rewrite Hi.
  destruct (m t) as [a t'|e t'|]; [..|done]; destruct Hs as [Hid Hids];
    (split; [by eapply ws_inv_insert_tab_slot|]); (split_and!; [done|..]); simpl;
    [rewrite app_nil_r; by unfold ws_tab_ids; simpl; erewrite fmap_insert_id
    |by eapply bind_insert_submseteq
    |rewrite app_nil_r; by unfold ws_tab_ids; simpl; erewrite fmap_insert_id
    |by eapply bind_insert_submseteq].
Qed.

Lemma in_active_tab_spec {A} c N (m : TabM A) :
  tab_method c N m → ws_method c [] N (Workspace.in_active_tab m).
Proof.
  intros Hm w Hw. destruct (ws_inv_active_position _ _ Hw) as (i & t & Hi & Hl & _).
  unfold Workspace.in_active_tab. exec_unfold. rewrite Hi. by eapply in_tab_spec.
Qed.

Lemma ws_modify_method c (f : Workspace → Workspace) :
  (∀ w, ws_inv c w → ws_inv c (f w)) → (∀ w, ws_step [] [] w (f w)) →
  ws_method c [] [] (modify f).
Proof. intros Hi Hs w Hw. split; [by apply Hi|by apply Hs]. Qed.

(** ** Selecting a tab *)

Section methods.
  Context (c : bool).

Lemma activate_slot_spec i w t :
  ws_tabs w !! i = Some t →
  Workspace.activate_slot i w = Ok () (Workspace.activate_existing_tab (tab_id t) w).
Proof. intros Hi. unfold Workspace.activate_slot. exec_unfold. by rewrite Hi. Qed.

Lemma activate_slot_method i w :
  ws_inv c w → i < length (ws_tabs w) →
  match Workspace.activate_slot i w with
  | Ok _ w' | Err _ w' => ws_inv c w' ∧ ws_step [] [] w w'
  | Panic => False
  end.
Proof.
  intros Hw [t Hi]%lookup_lt_is_Some. rewrite (activate_slot_spec _ _ _ Hi).
  split; [|auto with rterm]. apply activate_existing_tab_inv; [done|].
  eauto using elem_of_tab_ids, list_elem_of_lookup_2.
Qed.

Lemma activate_tab_method x : ws_method c [] [] (Workspace.activate_tab x).
Proof.
  intros w Hw. unfold Workspace.activate_tab. exec_unfold.
  case_inner Hi; eauto using tab_position_Some_elem with rterm.
Qed.

Lemma activate_tab_index_method i : ws_method c [] [] (Workspace.activate_tab_index i).
Proof.
  intros w Hw. pose proof (ws_inv_nonempty _ _ Hw). unfold Workspace.activate_tab_index.
  exec_unfold. case_bool_decide; [lia|]. case_bool_decide as Hlen; [auto with rterm|].
  apply activate_slot_method; [done|]. lia.
Qed.

Lemma activate_tab_relative_method o : ws_method c [] [] (Workspace.activate_tab_relative o).
Proof.
  intros w Hw. pose proof (ws_inv_nonempty _ _ Hw).
  destruct (ws_inv_active_position _ _ Hw) as (i & t & Hi & Hl & _).
  unfold Workspace.activate_tab_relative. exec_unfold. case_inner Hg; [auto with rterm|].
  rewrite Hi. apply activate_slot_method; [done|].
  pose proof (Z.mod_pos_bound (Z.of_nat i + o) (Z.of_nat (length (ws_tabs w)))). lia.
Qed.

Lemma activate_tab_relative_no_wrap_method o :
  ws_method c [] [] (Workspace.activate_tab_relative_no_wrap o).
Proof.
  intros w Hw. pose proof (ws_inv_nonempty _ _ Hw).
  destruct (ws_inv_active_position _ _ Hw) as (i & t & Hi & Hl & _).
  unfold Workspace.activate_tab_relative_no_wrap. exec_unfold. case_inner Hg; [auto with rterm|].
  rewrite Hi. apply activate_slot_method; [done|].
  pose proof (clamp_bounds 0 (Z.of_nat (length (ws_tabs w) - 1)) (Z.of_nat i + o)). lia.
Qed.

Lemma activate_last_tab_method : ws_method c [] [] (modify Workspace.activate_last_tab).
Proof.
  apply ws_modify_method; intros w; unfold Workspace.activate_last_tab.
  - intros Hw. case_match; [|done]. case_match eqn:Hp.
    + eauto using tab_position_Some_elem with rterm.
    + destruct Hw as (? & ? & ?). by split_and!.
  - case_match; [|auto with rterm]. case_match; auto with rterm. by apply ws_step_tabs.
Qed.

Lemma set_tab_title_method x title : ws_method c [] [] (Workspace.set_tab_title x title).
Proof.
  intros w Hw. unfold Workspace.set_tab_title. exec_unfold. case_inner Hi; [|auto with rterm].
  destruct (tab_position_lookup _ _ _ Hi) as (t & Ht & _).
  eapply in_tab_spec; [done..|apply set_title_method].
Qed.

(** ** Moving tabs *)

Lemma move_slot_spec i j w t :
  ws_tabs w !! i = Some t → j < length (ws_tabs w) →
  ∃ tabs, Workspace.move_slot i j w = Ok () (ws_set_tabs tabs w) ∧
    vec_insert j t (delete i (ws_tabs w)) = Some tabs ∧ tabs ≡ₚ ws_tabs w.
Proof.
  intros Hi Hj. unfold Workspace.move_slot, vec_remove. exec_unfold. rewrite Hi. simpl.
  pose proof (lookup_lt_Some _ _ _ Hi).
  destruct (vec_insert_is_Some j t (delete i (ws_tabs w))) as [tabs Htabs].
  { rewrite length_delete_lt by done. lia. }
  exists tabs. rewrite Htabs. split_and!; [done..|].
  by rewrite (vec_insert_perm _ _ _ _ Htabs), <- (delete_perm _ _ _ Hi).
Qed.

Lemma move_slot_method i j w :
  ws_inv c w → i < length (ws_tabs w) → j < length (ws_tabs w) →
  match Workspace.move_slot i j w with
  | Ok _ w' | Err _ w' => ws_inv c w' ∧ ws_step [] [] w w'
  | Panic => False
  end.
Proof.
  intros Hw [t Hi]%lookup_lt_is_Some Hj.
  destruct (move_slot_spec i j w t Hi Hj) as (tabs & -> & _ & Hp).
  split; [by apply ws_inv_perm|]. by apply (ws_step_perm _ _ []); rewrite ?app_nil_r.
Qed.

Lemma move_tab_method i : ws_method c [] [] (Workspace.move_tab i).
Proof.
  intros w Hw. destruct (ws_inv_active_position _ _ Hw) as (k & t & Hk & Hl & _).
  unfold Workspace.move_tab. exec_unfold. case_bool_decide; [auto with rterm|].
  case_bool_decide; [auto with rterm|]. rewrite Hk. case_decide; [auto with rterm|].
  apply move_slot_method; [done|by eapply lookup_lt_Some|lia].
Qed.

Lemma move_tab_relative_method o : ws_method c [] [] (Workspace.move_tab_relative o).
Proof.
  intros w Hw. pose proof (ws_inv_nonempty _ _ Hw).
  destruct (ws_inv_active_position _ _ Hw) as (k & t & Hk & Hl & _).
  unfold Workspace.move_tab_relative. exec_unfold. case_inner Hg; [auto with rterm|].
  clear Hg. rewrite Hk. case_decide; [auto with rterm|].
  apply move_slot_method; [done|by eapply lookup_lt_Some|].
  pose proof (clamp_bounds 0 (Z.of_nat (length (ws_tabs w) - 1)) (Z.of_nat k + o)). lia.
Qed.

(** ** Adding tabs *)

Lemma ws_add_spec t tabs w :
  ws_inv c w → tab_inv c t → tabs ≡ₚ t :: ws_tabs w →
  let w' := Workspace.activate_existing_tab (tab_id t) (ws_set_tabs tabs w) in
  ws_inv c w' ∧ ws_step [tab_id t] (tab_pane_ids t) w w'.
Proof.
  intros Hw Ht Hp. split; [by apply ws_inv_add|]. apply ws_step_activate.
  apply (ws_step_perm _ _ [t]); [done|simpl; by rewrite Hp, Permutation_app_comm|done|].
  simpl. by rewrite app_nil_r.
Qed.

Lemma add_tab_method t :
  tab_inv c t → ws_method c [tab_id t] (tab_pane_ids t) (modify (Workspace.add_tab t)).
Proof. intros Ht w Hw. apply ws_add_spec; [done..|]. by rewrite Permutation_app_comm. Qed.

Lemma insert_tab_method t i :
  tab_inv c t → ws_method c [tab_id t] (tab_pane_ids t) (Workspace.insert_tab t i).
Proof.
  intros Ht w Hw. unfold Workspace.insert_tab. exec_unfold.
  destruct (vec_insert_is_Some (i `min` length (ws_tabs w)) t (ws_tabs w)) as [tabs Hv]; [lia|].
  rewrite Hv. apply ws_add_spec; [done..|]. by eapply vec_insert_perm.
Qed.

(** ** Removing tabs *)

(** The workspace after the slot is removed and before a new active tab is
    chosen: what the two removals share. *)
Definition removed_ws (x : TabId) (i : nat) (w : Workspace) : Workspace :=
  Workspace.forget_last_active x (ws_set_tabs (delete i (ws_tabs w)) w).

Lemma removed_ws_tabs x i w : ws_tabs (removed_ws x i w) = delete i (ws_tabs w).
Proof. unfold removed_ws, Workspace.forget_last_active. by case_decide. Qed.

Lemma removed_ws_active x i w : ws_active_tab_id (removed_ws x i w) = ws_active_tab_id w.
Proof. unfold removed_ws, Workspace.forget_last_active. by case_decide. Qed.

Lemma removed_ws_id x i w : ws_id (removed_ws x i w) = ws_id w.
Proof. unfold removed_ws, Workspace.forget_last_active. by case_decide. Qed.

Lemma removed_ids x i w y :
  Workspace.tab_position x w = Some i → y ∈ ws_tab_ids w → y ≠ x →
  y ∈ ws_tab_ids (removed_ws x i w).
Proof.
  intros (t & Ht & Hid)%tab_position_lookup Hy Hne. unfold ws_tab_ids.
  rewrite removed_ws_tabs, fmap_delete. eapply elem_of_delete_ne; [|exact Hy|exact Hne].
  by rewrite list_lookup_fmap, Ht; simpl; rewrite Hid.
Qed.

(** Removing [x] and activating [y] (a remaining tab) re-establishes the
    invariant; so does removing an inactive tab. *)
Lemma removed_ws_inv x i y w :
  ws_inv c w → Workspace.tab_position x w = Some i → y ∈ ws_tab_ids (removed_ws x i w) →
  ws_inv c (ws_set_active y (removed_ws x i w)) ∧
  ws_step [] [] w (ws_set_active y (removed_ws x i w)).
Proof.
  intros (Ha & Hl & Ht) Hi Hy. split; [split_and!|].
  - done.
  - intros l Hl'. simpl in Hl'.
    assert (ws_last_active_tab_id w = Some l ∧ l ≠ x) as [Hw Hne].
    { revert Hl'. unfold removed_ws, Workspace.forget_last_active. simpl.
      case_decide; simpl; [done|]. naive_solver congruence. }
    apply removed_ids; auto.
  - simpl. rewrite removed_ws_tabs. by apply Forall_delete.
  - apply (ws_step_delete _ _ i); simpl; [apply removed_ws_id|apply removed_ws_tabs].
Qed.

Lemma removed_ws_inactive x i w :
  ws_set_active (ws_active_tab_id w) (removed_ws x i w) = removed_ws x i w.
Proof. rewrite <- (removed_ws_active x i w). by destruct (removed_ws x i w). Qed.

Lemma removed_lookup x i w k t :
  delete i (ws_tabs w) !! k = Some t → tab_id t ∈ ws_tab_ids (removed_ws x i w).
Proof.
  intros Hk. apply elem_of_tab_ids. rewrite removed_ws_tabs. by eapply list_elem_of_lookup_2.
Qed.

Lemma next_active_tab_elem x i sel w y :
  ws_inv c w → Workspace.tab_position x w = Some i →
  Workspace.next_active_tab x i sel w = Some y → y ∈ ws_tab_ids (removed_ws x i w).
Proof.
  intros (Ha & Hl & _) Hi. unfold Workspace.next_active_tab. case_decide; [|done].
  destruct sel; [..|done].
  - intros (t & Ht & ->)%fmap_Some. apply (removed_lookup _ _ _ i).
    rewrite list_lookup_delete_ge by done. by rewrite Nat.add_1_r in Ht.
  - intros (l & Hlast & Hy)%bind_Some. case_decide; [done|].
    apply bind_Some in Hy as (? & ? & [= <-]). apply removed_ids; auto.
Qed.

Lemma close_tab_method x sel : ws_method c [] [] (Workspace.close_tab x sel).
Proof.
  intros w Hw. unfold Workspace.close_tab. exec_unfold. case_inner Hi; [|auto with rterm].
  case_bool_decide as Hlen; [auto with rterm|].
  destruct (tab_position_lookup _ _ _ Hi) as (t & Ht & Hid).
  unfold vec_remove. rewrite Ht. simpl.
  change (Workspace.forget_last_active x _) with (removed_ws x n w).
  case_decide as Hact.
  - destruct (Workspace.next_active_tab x n sel w) as [y|] eqn:Hn.
    + apply removed_ws_inv; [done..|]. by eapply next_active_tab_elem.
    + destruct (lookup_lt_is_Some_2 (delete n (ws_tabs w))
        ((n - 1) `min` (length (delete n (ws_tabs w)) - 1))) as [u Hu].
      { rewrite length_delete_lt by (by eapply lookup_lt_Some). lia. }
      rewrite Hu. apply removed_ws_inv; [done..|]. by eapply removed_lookup.
  - rewrite <- removed_ws_inactive. apply removed_ws_inv; [done..|].
    apply removed_ids; [done|exact (proj1 Hw)|done].
Qed.

Lemma detach_tab_spec x w :
  ws_inv c w →
  match Workspace.detach_tab x w with
  | Ok d w' =>
      ws_inv c w' ∧ ws_step [] [] w w' ∧ tab_inv c (detached_tab d) ∧ detached_tab d ∈ ws_tabs w
  | Err _ w' => w' = w
  | Panic => False
  end.
Proof.
  intros Hw. unfold Workspace.detach_tab. exec_unfold. case_inner Hi; [|done].
  case_bool_decide as Hlen; [done|].
  destruct (tab_position_lookup _ _ _ Hi) as (t & Ht & Hid).
  unfold vec_remove. rewrite Ht. simpl.
  change (Workspace.forget_last_active x _) with (removed_ws x n w).
  assert (Hti : tab_inv c t) by (eapply Forall_lookup_1; [apply Hw|done]).
  assert (t ∈ ws_tabs w) by (by eapply list_elem_of_lookup_2).
  case_decide as Hact.
  - destruct (lookup_lt_is_Some_2 (delete n (ws_tabs w))
        (n `min` (length (delete n (ws_tabs w)) - 1))) as [u Hu].
    { rewrite length_delete_lt by (by eapply lookup_lt_Some). lia. }
    rewrite Hu. destruct (removed_ws_inv x n (tab_id u) w); try done. by eapply removed_lookup.
  - rewrite <- removed_ws_inactive.
    destruct (removed_ws_inv x n (ws_active_tab_id w) w); try done.
    apply removed_ids; [done|exact (proj1 Hw)|done].
Qed.

(** ** Moving a pane out of the active tab *)

Lemma take_pane_cases x t :
  tab_inv c t →
  match Tab.take_pane_for_new_tab x t with
  | Ok p t' => tab_inv true t' ∧ tab_id t' = tab_id t ∧ pane_id p = x ∧
               x :: tab_pane_ids t' ≡ₚ tab_pane_ids t
  | Err _ t' => t' = t
  | Panic => False
  end.
Proof.
  intros Ht. destruct (Tab.pane_position x t) as [i|] eqn:Hi;
    [destruct (decide (length (tab_panes t) ≤ 1))|].
  - unfold Tab.take_pane_for_new_tab. exec_unfold. by rewrite Hi, bool_decide_eq_true_2.
  - destruct (take_pane_spec c x i t Ht Hi) as (p & t' & -> & ? & ? & ? & ->); [lia|].
    split_and!; try done. symmetry. apply delete_perm. unfold tab_pane_ids.
    apply pane_position_lookup in Hi as (q & Hq & <-). by rewrite list_lookup_fmap, Hq.
  - unfold Tab.take_pane_for_new_tab. exec_unfold. by rewrite Hi.
Qed.

Lemma bind_insert_perm {A B} (f : A → list B) l i x y b :
  l !! i = Some x → b :: f y ≡ₚ f x → b :: (<[i:=y]> l ≫= f) ≡ₚ l ≫= f.
Proof.
  intros Hi Hs. rewrite insert_take_drop by by eapply lookup_lt_Some.
  rewrite <- (take_drop_middle l i x Hi) at 3. rewrite !bind_app, !bind_cons.
  by rewrite <- Hs, Permutation_middle.
Qed.

(** Taking a pane out of the active tab, as the two moves do it. *)
Lemma in_tab_take x i w t :
  ws_inv c w → ws_tabs w !! i = Some t →
  match Workspace.in_tab i (Tab.take_pane_for_new_tab x) w with
  | Ok p w' => ws_inv c w' ∧ ws_id w' = ws_id w ∧ ws_tab_ids w' = ws_tab_ids w ∧
               pane_id p = x ∧ x :: ws_pane_ids w' ≡ₚ ws_pane_ids w
  | Err _ w' => w' = w
  | Panic => False
  end.
Proof.
  intros Hw Hi. assert (Ht : tab_inv c t) by (eapply Forall_lookup_1; [apply Hw|done]).
  pose proof (take_pane_cases x t Ht) as Hcases. unfold Workspace.in_tab, zoom. rewrite Hi.
  destruct (Tab.take_pane_for_new_tab x t) as [p t'|e t'|]; [|subst t'|done].
  - destruct Hcases as (Ht' & Hid & Hp & Hids). split_and!; try done.
    + eapply ws_inv_insert_tab_slot; eauto using tab_inv_weaken.
    + unfold ws_tab_ids. simpl. by eapply fmap_insert_id.
    + by eapply bind_insert_perm.
  - rewrite list_insert_id by done. by destruct w.
Qed.

Lemma move_pane_to_new_tab_method x new :
  ws_method c [new] [] (Workspace.move_pane_to_new_tab x new).
Proof.
  intros w Hw. destruct (ws_inv_active_position _ _ Hw) as (i & t & Hi & Hl & _).
  unfold Workspace.move_pane_to_new_tab. exec_unfold. rewrite Hi.
  pose proof (in_tab_take x i w t Hw Hl) as Hcases.
  destruct (Workspace.in_tab _ _ _) as [p w'|e w'|]; [|subst w'; auto with rterm|done].
  destruct Hcases as (Hw' & Hid & Htids & Hp & Hpids).
  destruct (new_tab_single new (Pane.with_split None p) eq_refl)
    as (u & [= Hnew] & Hu & Hui & Hup & _). rewrite Hnew.
  destruct (add_tab_method u (tab_inv_weaken _ _ Hui) w' Hw') as [Hw'' (Hid' & Ht' & Hp')].
  split; [done|]. split_and!; [congruence|by rewrite <- Htids, <- Hu|].
  etrans; [exact Hp'|]. rewrite app_nil_r, <- Hpids. unfold tab_pane_ids.
  rewrite Hup. simpl. rewrite Hp. by rewrite Permutation_app_comm.
Qed.

Lemma move_pane_to_new_window_spec x wid new w :
  ws_inv c w →
  match Workspace.move_pane_to_new_window x wid new w with
  | Ok p w' => ws_inv c w' ∧ ws_step [] [] w w' ∧ tab_inv true (pending_tab p) ∧
               tab_pane_ids (pending_tab p) = [x] ∧ x ∈ ws_pane_ids w ∧
               pending_id p = wid ∧ pending_workspace_id p = ws_id w ∧
               tab_id (pending_tab p) = new
  | Err _ w' => w' = w
  | Panic => False
  end.
Proof.
  intros Hw. destruct (ws_inv_active_position _ _ Hw) as (i & t & Hi & Hl & _).
  unfold Workspace.move_pane_to_new_window. exec_unfold. rewrite Hi.
  pose proof (in_tab_take x i w t Hw Hl) as Hcases.
  destruct (Workspace.in_tab _ _ _) as [p w'|e w'|]; [|done|done].
  destruct Hcases as (Hw' & Hid & Htids & Hp & Hpids).
  destruct (new_tab_single new (Pane.with_split None p) eq_refl)
    as (u & [= Hnew] & Hu & Hui & Hup & _). rewrite Hnew.
  split_and!; try done; simpl.
  - split_and!; [done|by rewrite Htids, app_nil_r|].
    rewrite app_nil_r, <- Hpids. by apply submseteq_cons.
  - unfold tab_pane_ids. rewrite Hup. simpl. by rewrite Hp.
  - rewrite <- Hpids. set_solver.
Qed.

End methods.
