(* ===== verification/ShellFacts.v ===== *)
(** Invariants of the application shell and their preservation by every
    operation.

    [shell_ok c]: the active workspace exists, every workspace satisfies
    [ws_inv c] and every pending window holds a tab satisfying [tab_inv c].
    [shell_ids]: as long as a counter has not saturated, the identifiers it
    allocated are pairwise distinct and below it.
    [sinv c B NW NT NP] joins them, for a shell of at most [B] workspaces,
    with the identifiers [NW], [NT], [NP] allocated and not yet placed. *)
From S2P Require Import Prelude Text Launch Pane SplitGeometry Tab Snapshot Workspace Shell.
From S2P Require Import TabFacts TabLayout WorkspaceFacts.

Definition shell_ws_ids (s : AppShell) : list WorkspaceId := ws_id <$> workspaces s.
Definition shell_tab_ids (s : AppShell) : list TabId := workspaces s ≫= ws_tab_ids.
Definition shell_pane_ids (s : AppShell) : list PaneId := workspaces s ≫= ws_pane_ids.

Definition shell_ok (c : bool) (s : AppShell) : Prop :=
  active_workspace_id s ∈ shell_ws_ids s ∧ Forall (ws_inv c) (workspaces s) ∧
  Forall (λ p, tab_inv c (pending_tab p)) (pending_windows s).

(** The identifiers of one kind, against their counter. *)
Definition unique_ids {I} (get : I → Z) (next : Z) (l : list I) : Prop :=
  (next < u64_max)%Z → NoDup l ∧ Forall (λ x, get x < next)%Z l.

Definition shell_ids (NW : list WorkspaceId) (NT : list TabId) (NP : list PaneId)
    (s : AppShell) : Prop :=
  unique_ids WorkspaceId_get (next_workspace_id s) (shell_ws_ids s ++ NW) ∧
  unique_ids TabId_get (next_tab_id s) (shell_tab_ids s ++ NT) ∧
  unique_ids PaneId_get (next_pane_id s) (shell_pane_ids s ++ NP) ∧
  Forall (λ p, unique_ids PaneId_get (next_pane_id s) (tab_pane_ids (pending_tab p)))
    (pending_windows s).

Definition sinv (c : bool) (B : nat) (NW : list WorkspaceId) (NT : list TabId)
    (NP : list PaneId) (s : AppShell) : Prop :=
  shell_ok c s ∧ shell_ids NW NT NP s ∧ length (workspaces s) + length NW ≤ B.

(** ** Identifiers *)

Section unique.
  Context {I : Type} (get : I → Z).

Lemma unique_ids_submseteq next l k : k ⊆+ l → unique_ids get next l → unique_ids get next k.
Proof.
  intros [r Hr]%submseteq_Permutation Hu Hn. specialize (Hu Hn). rewrite Hr in Hu.
  rewrite NoDup_app, Forall_app in Hu. tauto.
Qed.

#[export] Instance unique_ids_proper next : Proper ((≡ₚ) ==> iff) (unique_ids get next).
Proof. intros l k Hp. split; apply unique_ids_submseteq; by rewrite Hp. Qed.

Lemma unique_ids_next next l : unique_ids get next l → unique_ids get (sat_add_u64 next 1) l.
Proof.
  unfold unique_ids, sat_add_u64. intros Hu Hn. destruct Hu as [Hnd Hf]; [lia|].
  split; [done|]. eapply Forall_impl; [done|]. simpl. lia.
Qed.

Lemma unique_ids_fresh next l x :
  get x = next → unique_ids get next l → unique_ids get (sat_add_u64 next 1) (l ++ [x]).
Proof.
  unfold unique_ids, sat_add_u64. intros Hx Hu Hn. destruct Hu as [Hnd Hf]; [lia|]. split.
  - apply NoDup_app. split_and!; [done| |apply NoDup_singleton].
    rewrite Forall_forall in Hf. intros y Hy ->%list_elem_of_singleton.
    specialize (Hf _ Hy). lia.
  - apply Forall_app. split; [|apply Forall_singleton; lia].
    eapply Forall_impl; [done|]. simpl. lia.
Qed.
End unique.

Lemma pending_next next (l : list PendingWindow) :
  Forall (λ p, unique_ids PaneId_get next (tab_pane_ids (pending_tab p))) l →
  Forall (λ p, unique_ids PaneId_get (sat_add_u64 next 1) (tab_pane_ids (pending_tab p))) l.
Proof. intros H. eapply Forall_impl; [done|]. intros p. apply unique_ids_next. Qed.

Section shell.
  Context (c : bool) (B : nat).

Lemma sinv_weaken NW NT NP NW' NT' NP' B' s :
  NW' ⊆+ NW → NT' ⊆+ NT → NP' ⊆+ NP → B ≤ B' →
  sinv c B NW NT NP s → sinv c B' NW' NT' NP' s.
Proof.
  intros HW HT HP HB (Hok & (? & ? & ? & ?) & Hlen). split; [done|].
  pose proof (submseteq_length _ _ HW). split; [|lia].
  split_and!; [..|done]; by eapply unique_ids_submseteq; [by apply submseteq_skips_l|].
Qed.

Lemma sinv_drop NW NT NP s : sinv c B NW NT NP s → sinv c B [] [] [] s.
Proof. apply sinv_weaken; [apply submseteq_nil_l..|done]. Qed.

(** ** Allocation *)

Lemma fresh_workspace_id_spec NW NT NP R :
  triple (sinv c B NW NT NP) AppShell.fresh_workspace_id
    (λ id, sinv c (S B) (NW ++ [id]) NT NP) R.
Proof.
  intros s (Hok & (HW & HT & HP & Hpend) & Hlen). split; [done|]. split.
  - split_and!; simpl; [|done..]. rewrite app_assoc. by apply unique_ids_fresh.
  - simpl. rewrite length_app. simpl. lia.
Qed.

Lemma fresh_tab_id_spec NW NT NP R :
  triple (sinv c B NW NT NP) AppShell.fresh_tab_id
    (λ id, sinv c B NW (NT ++ [id]) NP) R.
Proof.
  intros s (Hok & (HW & HT & HP & Hpend) & Hlen). split; [done|]. split; [|done].
  split_and!; simpl; [done| |done..]. rewrite app_assoc. by apply unique_ids_fresh.
Qed.

Lemma fresh_pane_id_spec NW NT NP R :
  triple (sinv c B NW NT NP) AppShell.fresh_pane_id
    (λ id, sinv c B NW NT (NP ++ [id])) R.
Proof.
  intros s (Hok & (HW & HT & HP & Hpend) & Hlen). split; [done|]. split; [|done].
  split_and!; simpl; [done..| |by apply pending_next].
  rewrite app_assoc. by apply unique_ids_fresh.
Qed.

Lemma fresh_window_id_spec NW NT NP R :
  triple (sinv c B NW NT NP) AppShell.fresh_window_id
    (λ _, sinv c B NW NT NP) R.
Proof. by intros s Hs. Qed.

(** ** The active workspace *)

Lemma workspace_position_elem s x :
  x ∈ shell_ws_ids s ↔ is_Some (AppShell.workspace_position x s).
Proof.
  unfold AppShell.workspace_position, shell_ws_ids. split.
  - intros (p & -> & Hp)%list_elem_of_fmap. by eapply position_exists.
  - intros [i (p & Hp & <-)%position_lookup]. apply list_elem_of_fmap.
    exists p. split; [done|]. by eapply list_elem_of_lookup_2.
Qed.

Lemma active_workspace_spec s :
  shell_ok c s → ∃ i w, AppShell.workspace_position (active_workspace_id s) s = Some i ∧
    workspaces s !! i = Some w ∧ AppShell.active_workspace s = Some w ∧
    ws_id w = active_workspace_id s ∧ ws_inv c w.
Proof.
  intros (Ha & Hw & _). apply workspace_position_elem in Ha as [i Hi].
  destruct (position_lookup _ _ _ Hi) as (w & Hl & Hid). exists i, w.
  unfold AppShell.active_workspace, AppShell.workspace. rewrite Hi.
  split_and!; try done. by eapply Forall_lookup_1.
Qed.

Lemma active_pane_spec s :
  shell_ok c s → ∃ w t p, AppShell.active_workspace s = Some w ∧ ws_inv c w ∧
    Workspace.active_tab w = Some t ∧ tab_inv c t ∧ Tab.active_pane t = Some p ∧
    AppShell.active_pane s = Some p ∧ AppShell.active_pane_id s = Some (pane_id p).
Proof.
  intros (i & w & _ & _ & Hw & _ & Hinv)%active_workspace_spec.
  destruct (ws_active_tab_is_Some _ _ Hinv) as (t & Ht & _ & Hti).
  destruct (active_pane_is_Some _ (proj1 Hti)) as (p & Hp & Hid). exists w, t, p.
  unfold AppShell.active_pane, AppShell.active_pane_id, Workspace.active_pane,
    Workspace.active_pane_id. rewrite Hw. simpl. rewrite Ht. simpl. rewrite Hid.
  by split_and!.
Qed.

(** Replacing one workspace by the result of a workspace method. *)
Lemma sinv_insert_workspace NW NT NP s i w w' :
  sinv c B NW NT NP s → workspaces s !! i = Some w → ws_inv c w' → ws_step NT NP w w' →
  sinv c B NW [] [] (sh_set_workspaces (<[i:=w']> (workspaces s)) s).
Proof.
  intros ((Ha & Hw & Hp) & (HW & HT & HP & Hpend) & Hlen) Hi Hw' (Hid & Ht & Hps).
  assert (Hids : ws_id <$> <[i:=w']> (workspaces s) = shell_ws_ids s)
    by (by eapply fmap_insert_id).
  split_and!; unfold shell_ok, shell_ids, shell_ws_ids in *; simpl.
  - split_and!; [by rewrite Hids|by apply Forall_insert_lookup|done].
  - split_and!; [by rewrite Hids| | |done]; rewrite app_nil_r;
      (eapply unique_ids_submseteq; [|done]); by eapply bind_insert_submseteq.
  - by rewrite length_insert.
Qed.

Lemma in_active_workspace_spec {A} NW NT NP (m : WsM A) :
  ws_method c NT NP m →
  triple (sinv c B NW NT NP) (AppShell.in_active_workspace m)
    (λ _, sinv c B NW [] []) (λ _, sinv c B NW [] []).
Proof.
  intros Hm s Hs. destruct (active_workspace_spec s (proj1 Hs)) as (i & w & Hi & Hw & _ & _ & Hinv).
  unfold AppShell.in_active_workspace, AppShell.in_workspace, zoom. exec_unfold. rewrite Hi, Hw.
  specialize (Hm w Hinv). destruct (m w); [..|done]; destruct Hm; eauto using sinv_insert_workspace.
Qed.

Lemma in_active_tab_shell {A} NW NP (m : TabM A) :
  tab_method c NP m →
  triple (sinv c B NW [] NP) (AppShell.in_active_tab m)
    (λ _, sinv c B NW [] []) (λ _, sinv c B NW [] []).
Proof. intros Hm. by apply in_active_workspace_spec, in_active_tab_spec. Qed.

(** ** The tab owning a pane *)

Lemma ws_pane_tab_lookup x w j :
  AppShell.ws_pane_tab x w = Some j →
  ∃ t, ws_tabs w !! j = Some t ∧ is_Some (Tab.pane_position x t).
Proof. apply position_lookup. Qed.

Lemma in_workspace_spec {A} NW NT NP i w (m : WsM A) s :
  ws_method c NT NP m → sinv c B NW NT NP s → workspaces s !! i = Some w →
  match AppShell.in_workspace i m s with
  | Ok _ s' | Err _ s' => sinv c B NW [] [] s'
  | Panic => False
  end.
Proof.
  intros Hm Hs Hi. assert (Hw : ws_inv c w) by (eapply Forall_lookup_1; [apply Hs|done]).
  specialize (Hm w Hw). unfold AppShell.in_workspace, zoom. rewrite Hi.
  destruct (m w); [..|done]; destruct Hm; eauto using sinv_insert_workspace.
Qed.

Lemma in_pane_tab_spec x (m : TabM ()) :
  tab_method c [] m → keeps (sinv c B [] [] []) (AppShell.in_pane_tab x m).
Proof.
  intros Hm s Hs. unfold AppShell.in_pane_tab. exec_unfold. case_inner Hf; [|done].
  destruct (position_lookup _ _ _ Hf) as (w & Hw & [j Hj]).
  assert (Hinv : ws_inv c w) by (eapply Forall_lookup_1; [apply Hs|done]).
  unfold AppShell.in_workspace, zoom. rewrite Hw, Hj.
  destruct (ws_pane_tab_lookup _ _ _ Hj) as (t & Ht & _).
  pose proof (in_tab_spec c [] j m w t Hinv Ht Hm) as Hspec.
  destruct (Workspace.in_tab j m w); [..|done]; destruct Hspec; eauto using sinv_insert_workspace.
Qed.

Lemma clear_unseen_spec :
  keeps (sinv c B [] [] []) AppShell.clear_active_pane_unseen_output.
Proof.
  intros s Hs. destruct (active_pane_spec s (proj1 Hs)) as (w & t & p & _ & _ & _ & _ & _ & _ & Hp).
  unfold AppShell.clear_active_pane_unseen_output. exec_unfold. rewrite Hp.
  case_inner Hf; [|done]. by apply in_pane_tab_spec; [apply update_pane_method|].
Qed.

(** ** Creating tabs, windows and workspaces *)

Lemma launch_or_child_spec NW NT NP launch R :
  triple (sinv c B NW NT NP) (AppShell.launch_or_child launch)
    (λ _, sinv c B NW NT NP) R.
Proof.
  intros s Hs. unfold AppShell.launch_or_child. destruct launch; [done|].
  destruct (active_pane_spec s (proj1 Hs)) as (w & t & p & _ & _ & _ & _ & _ & Hp & _).
  exec_unfold. by rewrite Hp.
Qed.

Lemma new_tab_panes tid pid launch :
  ∃ t, Tab.new tid [Pane.new pid launch] = Some t ∧ tab_id t = tid ∧ tab_inv c t ∧
    tab_pane_ids t = [pid] ∧ tab_active_pane_id t = pid.
Proof.
  destruct (new_tab_single tid (Pane.new pid launch) eq_refl) as (t & Ht & Hid & Hi & Hp & Ha).
  exists t. split_and!; try done; [by apply tab_inv_weaken|]. unfold tab_pane_ids. by rewrite Hp.
Qed.

Lemma apply_new_tab_spec launch : keeps (sinv c B [] [] []) (AppShell.apply_new_tab launch).
Proof.
  unfold AppShell.apply_new_tab. eapply triple_bind; [apply launch_or_child_spec|].
  intros l. eapply triple_bind; [apply fresh_tab_id_spec|]. intros tid.
  eapply triple_bind; [apply fresh_pane_id_spec|]. intros pid.
  destruct (new_tab_panes tid pid l) as (t & Ht & <- & Hinv & <- & _).
  eapply triple_expect; [exact Ht|]. by apply in_active_workspace_spec, add_tab_method.
Qed.

(** A tab leaves the workspaces for a pending window. *)
Lemma push_pending_spec p s :
  sinv c B [] [] [] s → tab_inv c (pending_tab p) →
  unique_ids PaneId_get (next_pane_id s) (tab_pane_ids (pending_tab p)) →
  sinv c B [] [] [] (sh_set_pending (pending_windows s ++ [p]) s).
Proof.
  intros ((Ha & Hw & Hp) & (HW & HT & HP & Hpend) & Hlen) Ht Hu.
  unfold sinv, shell_ok, shell_ids. simpl.
  split_and!; try done; apply Forall_app; by split; [|constructor].
Qed.

Lemma apply_spawn_window_spec launch :
  keeps (sinv c B [] [] []) (AppShell.apply_spawn_window launch).
Proof.
  unfold AppShell.apply_spawn_window. eapply triple_bind; [apply launch_or_child_spec|].
  intros l. eapply triple_bind; [apply fresh_window_id_spec|]. intros wid.
  eapply triple_bind; [apply fresh_tab_id_spec|]. intros tid.
  eapply triple_bind; [apply fresh_pane_id_spec|]. intros pid.
  apply triple_read. intros s Hs.
  destruct (active_workspace_spec s (proj1 Hs)) as (i & w & _ & _ & Hw & _).
  eapply triple_expect; [exact Hw|].
  destruct (new_tab_panes tid pid l) as (t & Ht & <- & Hinv & Hids & _).
  eapply triple_expect; [exact Ht|]. intros s' ->.
  apply push_pending_spec; [by eapply sinv_drop|done|]. simpl. rewrite Hids.
  destruct Hs as (_ & (_ & _ & HP & _) & _).
  eapply unique_ids_submseteq; [|exact HP]. by apply submseteq_inserts_l.
Qed.

Lemma sinv_add_workspace NW w tid pid l t s :
  sinv c B (NW ++ [w]) [tid] [pid] s → tab_inv c t → tab_id t = tid → tab_pane_ids t = [pid] →
  sinv c B NW [] [] (sh_set_active w
    (sh_set_workspaces (workspaces s ++ [Workspace.new w l [t] tid]) s)).
Proof.
  intros ((Ha & Hw & Hp) & (HW & HT & HP & Hpend) & Hlen) Ht Hid Hids.
  assert (Hnew : ws_inv c (Workspace.new w l [t] tid)).
  { split_and!; [|done|by constructor]. unfold ws_tab_ids. simpl. rewrite Hid. set_solver. }
  set (nw := Workspace.new w l [t] tid) in *.
  assert (Et : ws_tab_ids nw = [tid]) by (unfold ws_tab_ids; simpl; by rewrite Hid).
  assert (Ep : ws_pane_ids nw = [pid]) by (unfold ws_pane_ids; simpl; by rewrite Hids).
  unfold sinv, shell_ok, shell_ids, shell_ws_ids, shell_tab_ids, shell_pane_ids in *.
  cbn [workspaces sh_set_active sh_set_workspaces active_workspace_id pending_windows
    next_workspace_id next_tab_id next_pane_id].
  rewrite !length_app, !fmap_app, !bind_app, !bind_singleton, Et, Ep.
  rewrite length_app in Hlen.
  rewrite !app_nil_r. simpl in *.
  split_and!; try done; [set_solver|apply Forall_app; by split; [|constructor]| |lia].
  by rewrite <- app_assoc, (Permutation_app_comm [w]).
Qed.
End shell.

Lemma apply_new_workspace_spec c B name launch :
  triple (sinv c B [] [] []) (AppShell.apply_new_workspace name launch)
    (λ _, sinv c (S B) [] [] []) (λ _, sinv c (S B) [] [] []).
Proof.
  unfold AppShell.apply_new_workspace. apply triple_read. intros s0 Hs0.
  apply (triple_conseq _ (sinv c B [] [] []) _ _ (λ _, sinv c (S B) [] [] []) _
    (λ _, sinv c (S B) [] [] [])); [|by intros s ->|done..].
  eapply triple_bind; [apply fresh_workspace_id_spec|]. intros wid.
  eapply triple_bind; [apply fresh_tab_id_spec|]. intros tid.
  eapply triple_bind; [apply fresh_pane_id_spec|]. intros pid.
  destruct (new_tab_panes c tid pid (default (default_launch s0) launch))
    as (t & Ht & Hid & Hinv & Hids & _).
  eapply triple_expect; [exact Ht|]. intros s Hs. by eapply sinv_add_workspace.
Qed.

Section actions.
  Context (c : bool) (B : nat).
  Implicit Types (s : AppShell).

(** ** Moving tabs and panes to windows *)

Lemma elem_of_shell_panes s i w t :
  workspaces s !! i = Some w → t ∈ ws_tabs w → tab_pane_ids t ⊆+ shell_pane_ids s.
Proof.
  intros Hi [j Hj]%list_elem_of_lookup. unfold shell_pane_ids, ws_pane_ids.
  rewrite <- (take_drop_middle _ _ _ Hi), bind_app, bind_cons.
  apply submseteq_inserts_l, submseteq_inserts_r.
  rewrite <- (take_drop_middle _ _ _ Hj), bind_app, bind_cons.
  by apply submseteq_inserts_l, submseteq_inserts_r.
Qed.

Lemma sinv_pane_ids NP s l :
  sinv c B [] [] NP s → l ⊆+ shell_pane_ids s → unique_ids PaneId_get (next_pane_id s) l.
Proof.
  intros (_ & (_ & _ & HP & _) & _) Hl. eapply unique_ids_submseteq; [|exact HP].
  by apply submseteq_inserts_r.
Qed.

Lemma apply_move_tab_to_new_window_spec x :
  keeps (sinv c B [] [] []) (AppShell.apply_move_tab_to_new_window x).
Proof.
  unfold AppShell.apply_move_tab_to_new_window.
  eapply triple_bind; [apply fresh_window_id_spec|]. intros wid s Hs.
  destruct (active_workspace_spec c s (proj1 Hs)) as (i & w & Hi & Hw & _ & _ & Hinv).
  unfold AppShell.in_active_workspace, AppShell.in_workspace, zoom. exec_unfold.
  rewrite Hi, Hw. case_bool_decide.
  - unfold Workspace.tab. destruct (Workspace.tab_position x w) as [j|] eqn:Hj; simpl.
    + destruct (tab_position_lookup _ _ _ Hj) as (t & Ht & _). rewrite Ht.
      rewrite list_insert_id by done.
      apply push_pending_spec; simpl; [by destruct s| |].
      * eapply Forall_lookup_1; [apply Hinv|done].
      * eapply sinv_pane_ids; [done|]. eauto using elem_of_shell_panes, list_elem_of_lookup_2.
    + rewrite list_insert_id by done. by destruct s.
  - pose proof (detach_tab_spec c x w Hinv) as Hd.
    destruct (Workspace.detach_tab x w) as [d w'|e w'|]; [|subst w'|done].
    + destruct Hd as (Hw' & Hstep & Ht & Hin).
      apply push_pending_spec; simpl; [by eapply sinv_insert_workspace|done|].
      eapply sinv_pane_ids; [done|]. eauto using elem_of_shell_panes.
    + rewrite list_insert_id by done. by destruct s.
Qed.

Lemma apply_move_pane_to_new_tab_spec x :
  keeps (sinv c B [] [] []) (AppShell.apply_move_pane_to_new_tab x).
Proof.
  unfold AppShell.apply_move_pane_to_new_tab.
  eapply triple_bind; [apply fresh_tab_id_spec|]. intros tid.
  apply in_active_workspace_spec, move_pane_to_new_tab_method.
Qed.

Lemma apply_move_pane_to_new_window_spec x :
  keeps (sinv c B [] [] []) (AppShell.apply_move_pane_to_new_window x).
Proof.
  unfold AppShell.apply_move_pane_to_new_window.
  eapply triple_bind; [apply fresh_window_id_spec|]. intros wid.
  eapply triple_bind; [apply fresh_tab_id_spec|]. intros tid s Hs%sinv_drop.
  destruct (active_workspace_spec c s (proj1 Hs)) as (i & w & Hi & Hw & _ & _ & Hinv).
  unfold AppShell.in_active_workspace, AppShell.in_workspace, zoom. exec_unfold.
  rewrite Hi, Hw. pose proof (move_pane_to_new_window_spec c x wid tid w Hinv) as Hm.
  destruct (Workspace.move_pane_to_new_window x wid tid w) as [p w'|e w'|]; [|subst w'|done].
  - destruct Hm as (Hw' & Hstep & Ht & Hids & Hx & _).
    apply push_pending_spec; simpl;
      [by eapply sinv_insert_workspace|by apply tab_inv_weaken|].
    rewrite Hids. eapply sinv_pane_ids; [done|]. apply singleton_submseteq_l.
    apply list_elem_of_bind. exists w. split; [done|]. by eapply list_elem_of_lookup_2.
  - rewrite list_insert_id by done. by destruct s.
Qed.

(** ** Splitting the active tab *)

Lemma with_child_launch_method N launch (k : PaneLaunch → TabM ()) :
  (∀ l, tab_method c N (k l)) →
  tab_method c N (l ← AppShell.tab_launch_or_child launch; k l).
Proof.
  intros Hk. split; intros t Ht; unfold AppShell.tab_launch_or_child;
    destruct launch as [l|]; exec_unfold; try by apply Hk.
  all: destruct (active_pane_is_Some _ (proj1 Ht)) as (p & -> & _); by apply Hk.
Qed.

Lemma apply_split_pane_spec x d launch delta :
  keeps (sinv c B [] [] []) (AppShell.apply_split_pane_with_size x d launch delta).
Proof.
  unfold AppShell.apply_split_pane_with_size.
  eapply triple_bind; [apply fresh_pane_id_spec|]. intros pid.
  apply in_active_tab_shell, with_child_launch_method. intros l. apply split_pane_method.
Qed.

Lemma apply_split_top_level_spec d launch delta :
  keeps (sinv c B [] [] []) (AppShell.apply_split_top_level_pane_with_size d launch delta).
Proof.
  unfold AppShell.apply_split_top_level_pane_with_size.
  eapply triple_bind; [apply fresh_pane_id_spec|]. intros pid.
  apply in_active_tab_shell, with_child_launch_method. intros l. apply split_top_level_pane_method.
Qed.

(** ** Workspaces *)

Lemma sinv_set_active x s :
  sinv c B [] [] [] s → x ∈ shell_ws_ids s → sinv c B [] [] [] (sh_set_active x s).
Proof. intros ((Ha & Hw & Hp) & Hids & Hlen) Hx. by split_and!. Qed.

Lemma apply_switch_workspace_spec x :
  keeps (sinv c B [] [] []) (AppShell.apply_switch_workspace x).
Proof.
  intros s Hs. unfold AppShell.apply_switch_workspace. exec_unfold. case_inner Hi; [|done].
  apply sinv_set_active; [done|]. apply workspace_position_elem. by eexists.
Qed.

Lemma apply_rename_workspace_spec x name :
  keeps (sinv c B [] [] []) (AppShell.apply_rename_workspace x name).
Proof.
  intros s Hs. unfold AppShell.apply_rename_workspace. exec_unfold. case_inner Hi; [|done].
  destruct (position_lookup _ _ _ Hi) as (w & Hw & _).
  eapply in_workspace_spec; [|exact Hs|exact Hw].
  apply ws_modify_method; [done|]. intros v. by apply ws_step_tabs.
Qed.

Lemma sinv_delete_workspace s i w x :
  sinv c B [] [] [] s → workspaces s !! i = Some w →
  x ∈ ws_id <$> delete i (workspaces s) →
  sinv c B [] [] [] (sh_set_active x (sh_set_workspaces (delete i (workspaces s)) s)).
Proof.
  intros ((Ha & Hw & Hp) & (HW & HT & HP & Hpend) & Hlen) Hi Hx.
  pose proof (sublist_delete (workspaces s) i) as Hsub.
  unfold sinv, shell_ok, shell_ids, shell_ws_ids, shell_tab_ids, shell_pane_ids in *. simpl.
  rewrite !app_nil_r in *.
  split_and!; try done; [by apply Forall_delete|..].
  - eapply unique_ids_submseteq; [|exact HW]. by apply sublist_submseteq, fmap_sublist.
  - eapply unique_ids_submseteq; [|exact HT]. by apply bind_sublist.
  - eapply unique_ids_submseteq; [|exact HP]. by apply bind_sublist.
  - apply sublist_length in Hsub. simpl in *. lia.
Qed.

Lemma apply_close_workspace_spec x :
  keeps (sinv c B [] [] []) (AppShell.apply_close_workspace x).
Proof.
  intros s Hs. unfold AppShell.apply_close_workspace. exec_unfold. case_inner Hi; [|done].
  case_bool_decide as Hlen; [done|].
  destruct (position_lookup _ _ _ Hi) as (w & Hw & Hid). unfold vec_remove. rewrite Hw. simpl.
  case_decide as Hact.
  - destruct (lookup_lt_is_Some_2 (delete n (workspaces s)) (if decide (n = 0) then 0 else n - 1))
      as [v Hv].
    { rewrite length_delete_lt by (by eapply lookup_lt_Some).
      apply lookup_lt_Some in Hw. case_decide; lia. }
    rewrite Hv. eapply sinv_delete_workspace; [done..|]. apply list_elem_of_fmap.
    eauto using list_elem_of_lookup_2.
  - pose proof (sinv_delete_workspace s n w (active_workspace_id s) Hs Hw) as H. apply H.
    rewrite fmap_delete. eapply elem_of_delete_ne; [|apply (proj1 (proj1 Hs))|exact Hact].
    by rewrite list_lookup_fmap, Hw; simpl; rewrite Hid.
Qed.

End actions.
