(* ===== verification/ShellNames.v ===== *)
(** Generated workspace names ([AppShell::random_workspace_name]): the search
    loop ends within its fuel and returns a name no workspace has. *)
From S2P Require Import Prelude Text Launch Pane SplitGeometry Tab Snapshot Workspace Shell.

Definition name_step : Z := 0x9e3779b97f4a7c15.

(** The seed of the [k]-th iteration. *)
Definition nth_seed (seed : Z) (k : nat) : Z :=
  ((seed + Z.of_nat k * name_step) `mod` u128_modulus)%Z.

Lemma nth_seed_range seed k : (0 ≤ nth_seed seed k < u128_modulus)%Z.
Proof. apply Z.mod_pos_bound. by vm_compute. Qed.

Lemma nth_seed_S seed k : nth_seed ((seed + name_step) `mod` u128_modulus)%Z k = nth_seed seed (S k).
Proof.
  unfold nth_seed. rewrite Z.add_mod_idemp_l by done. f_equal. lia.
Qed.

(** The step is odd, so the first 2^128 seeds are pairwise distinct. *)
Lemma nth_seed_inj seed i j :
  (Z.of_nat i < u128_modulus)%Z → (Z.of_nat j < u128_modulus)%Z →
  nth_seed seed i = nth_seed seed j → i = j.
Proof.
  intros Hi Hj H. unfold nth_seed in H.
  assert (Hm : (u128_modulus | name_step * (Z.of_nat i - Z.of_nat j))%Z).
  { apply Z.mod_divide; [done|].
    replace (name_step * (Z.of_nat i - Z.of_nat j))%Z
      with ((seed + Z.of_nat i * name_step) - (seed + Z.of_nat j * name_step))%Z by lia.
    rewrite Zminus_mod, H, Z.sub_diag. done. }
  apply Z.gauss in Hm; [|by vm_compute].
  destruct Hm as [q Hq]. assert (q = 0)%Z; [|lia].
  unfold u128_modulus in *. nia.
Qed.

Lemma candidate_name_inj x y :
  (0 ≤ x < u128_modulus)%Z → (0 ≤ y < u128_modulus)%Z →
  AppShell.candidate_name x = AppShell.candidate_name y → x = y.
Proof.
  intros Hx Hy H. unfold AppShell.candidate_name in H. apply app_inv_head in H.
  by apply (hex_padded_inj 32) in H.
Qed.

Lemma random_name_loop_Some fuel names seed n :
  AppShell.random_name_loop fuel names seed = Some n → n ∉ names.
Proof.
  revert seed. induction fuel as [|fuel IH]; intros seed; simpl; [done|].
  case_decide; [apply IH|]. by intros [= <-].
Qed.

Lemma random_name_loop_None fuel names seed :
  (0 ≤ seed < u128_modulus)%Z →
  AppShell.random_name_loop fuel names seed = None →
  ∀ k, k < fuel → AppShell.candidate_name (nth_seed seed k) ∈ names.
Proof.
  revert seed. induction fuel as [|fuel IH]; intros seed Hseed; simpl; [lia|].
  case_decide as Hin; [|done]. intros Hn [|k] Hk.
  - unfold nth_seed. by rewrite Z.add_0_r, Z.mod_small.
  - rewrite <- nth_seed_S. apply IH; [|done|lia]. apply Z.mod_pos_bound. by vm_compute.
Qed.

Lemma random_name_loop_total names seed :
  (0 ≤ seed < u128_modulus)%Z → (Z.of_nat (length names) < u128_modulus)%Z →
  is_Some (AppShell.random_name_loop (S (length names)) names seed).
Proof.
  intros Hseed Hlen. apply not_eq_None_Some. intros Hn.
  pose proof (random_name_loop_None _ _ _ Hseed Hn) as Hall.
  set (cands := (λ k, AppShell.candidate_name (nth_seed seed k)) <$> seq 0 (S (length names))).
  assert (Hnd : NoDup cands).
  { apply NoDup_fmap_2_strong; [|apply NoDup_seq]. intros i j Hi%elem_of_seq Hj%elem_of_seq Heq.
    apply candidate_name_inj in Heq; [|apply nth_seed_range..].
    apply nth_seed_inj in Heq; [done|lia..]. }
  assert (Hsub : cands ⊆+ names).
  { apply NoDup_submseteq; [done|]. intros x (k & -> & Hk%elem_of_seq)%list_elem_of_fmap.
    apply Hall. lia. }
  apply submseteq_length in Hsub. unfold cands in Hsub. rewrite length_fmap, length_seq in Hsub.
  lia.
Qed.

Lemma random_name_loop_fuel fuel fuel' names seed n :
  fuel ≤ fuel' → AppShell.random_name_loop fuel names seed = Some n →
  AppShell.random_name_loop fuel' names seed = Some n.
Proof.
  revert fuel' seed. induction fuel as [|fuel IH]; intros [|fuel'] seed Hle; simpl; try done; [lia|].
  case_decide; [|done]. apply IH. lia.
Qed.

Section host.
  Context `{Host}.

Lemma random_name_total s :
  (Z.of_nat (length (workspaces s)) < u128_modulus)%Z →
  ∃ n, AppShell.random_workspace_name s = Some n ∧ n ∉ AppShell.workspace_names s.
Proof.
  intros Hlen. unfold AppShell.random_workspace_name.
  destruct (random_name_loop_total (AppShell.workspace_names s) (AppShell.random_seed s)) as [n Hn].
  - apply Z.mod_pos_bound. by vm_compute.
  - unfold AppShell.workspace_names. by rewrite length_fmap.
  - unfold AppShell.workspace_names in Hn at 1. rewrite length_fmap in Hn.
    exists n. split; [done|]. by eapply random_name_loop_Some.
Qed.

(** The search for an unused workspace name ends: with fewer than 2^128
    workspaces the unbounded [loop] returns after at most one round more than
    there are workspaces (any larger fuel gives the same name), and the name
    it returns belongs to no workspace. *)
Theorem random_workspace_name_terminates s :
  (Z.of_nat (length (workspaces s)) < u128_modulus)%Z →
  ∃ n, AppShell.random_workspace_name s = Some n ∧ n ∉ (ws_name <$> workspaces s) ∧
    ∀ fuel, length (workspaces s) < fuel →
      AppShell.random_name_loop fuel (AppShell.workspace_names s) (AppShell.random_seed s) = Some n.
Proof.
  intros Hlen. destruct (random_name_total s Hlen) as (n & Hn & Hin).
  exists n. split; [done|]. split; [done|]. intros fuel Hf.
  eapply random_name_loop_fuel; [|exact Hn]. lia.
Qed.
End host.
