(* ===== verification/ShellSafety.v ===== *)
(** The shell never panics and keeps its invariant: every action, nested to
    any depth, and every operation on snapshots, transfers and resizes. *)
From S2P Require Import Prelude Text Launch Pane SplitGeometry Tab Snapshot Workspace Shell.
From S2P Require Import TabFacts TabLayout WorkspaceFacts ShellFacts ShellNames.

(** ** Actions as a nested tree *)

Section action_ind.
  Context (P : AppAction → Prop).
  Context (Hmulti : ∀ l, Forall P l → P (Multiple l)).
  Context (Hsingle : ∀ a, (∀ l, a ≠ Multiple l) → P a).

Fixpoint action_ind' (a : AppAction) : P a.
Proof using All.
  refine (match a with
          | Multiple l => Hmulti l ((fix go (l : list AppAction) : Forall P l :=
              match l with
              | [] => Forall_nil_2 P
              | b :: l' => Forall_cons_2 P b l' (action_ind' b) (go l')
              end) l)
          | _ => Hsingle _ _
          end); discriminate.
Qed.
End action_ind.

(** Some action of the tree satisfies [f]. *)
Fixpoint action_exists (f : AppAction → bool) (a : AppAction) : bool :=
  match a with
  | Multiple l => existsb (action_exists f) l
  | _ => f a
  end.

Definition is_close_pane (a : AppAction) : bool :=
  match a with ClosePane _ => true | _ => false end.

(** How many workspaces the tree can create. *)
Fixpoint creations (a : AppAction) : nat :=
  match a with
  | Multiple l => sum_list_with creations l
  | NewWorkspace _ _ | SwitchToWorkspace _ _ => 1
  | _ => 0
  end.

(** The invariant of a shell between operations. *)
Definition shell_inv (c : bool) (s : AppShell) : Prop :=
  shell_ok c s ∧ shell_ids [] [] [] s.

Lemma shell_inv_sinv c s :
  shell_inv c s ↔ sinv c (length (workspaces s)) [] [] [] s.
Proof. unfold shell_inv, sinv. simpl. split; [intros []; split_and!; [done..|lia]|tauto]. Qed.

Lemma sinv_shell_inv c B NW NT NP s : sinv c B NW NT NP s → shell_inv c s.
Proof. intros (Hok & Hids & _)%sinv_drop. by split. Qed.

Lemma shell_inv_weaken c s : shell_inv true s → shell_inv c s.
Proof.
  intros [(Ha & Hw & Hp) Hids]. split; [|done]. split_and!; [done|..];
    eapply Forall_impl; try done; [|intros p; apply tab_inv_weaken].
  intros w (? & ? & Ht). split_and!; [done..|]. eapply Forall_impl; [done|].
  intros t. apply tab_inv_weaken.
Qed.

Section host.
  Context `{Host}.
  Implicit Types (s : AppShell).

Lemma apply_switch_workspace_relative_spec c B o :
  keeps (sinv c B [] [] []) (AppShell.apply_switch_workspace_relative o).
Proof.
  intros s Hs. unfold AppShell.apply_switch_workspace_relative. exec_unfold.
  case_inner Hg; [done|]. apply orb_false_iff in Hg as [_ Hg%bool_decide_eq_false].
  assert (Hp : AppShell.ordered_workspace_ids s ≡ₚ shell_ws_ids s)
    by (unfold AppShell.ordered_workspace_ids; by rewrite host_sort_perm).
  case_inner Hpos; [|done].
  destruct (lookup_lt_is_Some_2 (AppShell.ordered_workspace_ids s)
    (Z.to_nat ((Z.of_nat n + o) `mod` Z.of_nat (length (AppShell.ordered_workspace_ids s)))))
    as [x Hx].
  { apply position_lt in Hpos.
    pose proof (Z.mod_pos_bound (Z.of_nat n + o)
      (Z.of_nat (length (AppShell.ordered_workspace_ids s)))). lia. }
  rewrite Hx. apply sinv_set_active; [done|]. rewrite <- Hp. by eapply list_elem_of_lookup_2.
Qed.

Lemma sinv_mono c B B' NW NT NP s : B ≤ B' → sinv c B NW NT NP s → sinv c B' NW NT NP s.
Proof. intros HB. by apply sinv_weaken. Qed.

Lemma apply_switch_to_workspace_spec c B name launch :
  (Z.of_nat B < u128_modulus)%Z →
  triple (sinv c B [] [] []) (AppShell.apply_switch_to_workspace name launch)
    (λ _, sinv c (S B) [] [] []) (λ _, sinv c (S B) [] [] []).
Proof.
  intros HB s Hs. unfold AppShell.apply_switch_to_workspace.
  assert (∃ n, (match name with Some n => mret n | None => expect (AppShell.random_workspace_name s)
    end : ShellM rstring) s = Ok n s) as [n Hn].
  { destruct name as [n|]; [by eexists|].
    destruct (random_name_total s) as (n & -> & _); [|by eexists].
    destruct Hs as (_ & _ & Hlen). simpl in Hlen. lia. }
  cbv [mbind M_bind get_state]. rewrite Hn.
  destruct (list_find _ _) as [[i w]|] eqn:Hf.
  - apply (sinv_mono _ B); [lia|]. apply sinv_set_active; [done|].
    apply list_find_Some in Hf as (Hi & _). apply list_elem_of_fmap.
    eauto using list_elem_of_lookup_2.
  - by apply apply_new_workspace_spec.
Qed.

Lemma apply_close_pane_spec B x : keeps (sinv false B [] [] []) (AppShell.apply_close_pane x).
Proof.
  apply in_active_workspace_spec. intros w Hw. exec_unfold. case_inner Hi; [|auto with rterm].
  destruct (ws_pane_tab_lookup _ _ _ Hi) as (t & Ht & _). rewrite Ht.
  case_bool_decide; [by apply close_tab_method|].
  eapply in_tab_spec; [done..|apply close_pane_method].
Qed.

(** Every action but [Multiple], before the unseen-output flag is cleared. *)
Lemma apply_single_spec c B a :
  (c = true → is_close_pane a = false) → (∀ l, a ≠ Multiple l) →
  (Z.of_nat B < u128_modulus)%Z →
  triple (sinv c B [] [] []) (AppShell.apply_single a)
    (λ _, sinv c (B + creations a) [] [] []) (λ _, sinv c (B + creations a) [] [] []).
Proof.
  intros Hc Hm HB. destruct a; cbn [AppShell.apply_single AppShell.apply_split_action creations];
    rewrite ?Nat.add_0_r, ?Nat.add_1_r.
  all: try by apply keeps_ret.
  all: try by destruct (Hm actions).
  all: try by apply in_active_workspace_spec; auto using close_tab_method, activate_tab_method,
    activate_tab_index_method, activate_tab_relative_method,
    activate_tab_relative_no_wrap_method, activate_last_tab_method, set_tab_title_method,
    move_tab_method, move_tab_relative_method.
  all: try by apply in_active_tab_shell; auto using rotate_panes_method, focus_pane_method,
    focus_pane_by_index_method, activate_pane_direction_method, swap_panes_method,
    resize_pane_method, set_pane_zoom_state_method, toggle_pane_zoom_method,
    focus_next_pane_method, focus_previous_pane_method.
  all: try by apply in_pane_tab_spec, update_pane_method.
  all: try match goal with |- triple ?I ?m _ _ => change (keeps I m) end.
  all: auto using apply_new_tab_spec, apply_spawn_window_spec, apply_move_tab_to_new_window_spec,
    apply_split_pane_spec, apply_split_top_level_spec, apply_move_pane_to_new_tab_spec,
    apply_move_pane_to_new_window_spec, apply_switch_workspace_spec,
    apply_switch_workspace_relative_spec, apply_switch_to_workspace_spec,
    apply_close_workspace_spec, apply_rename_workspace_spec, apply_new_workspace_spec.
  - unfold AppShell.apply_split_pane. apply apply_split_pane_spec.
  - destruct c; [by specialize (Hc eq_refl)|]. apply apply_close_pane_spec.
Qed.

(** [Multiple] runs its actions in order; the bound grows by what they create. *)
Lemma iterM_spec c (f : AppAction → ShellM ()) l B :
  Forall (λ a, ∀ B, (Z.of_nat (B + creations a) < u128_modulus)%Z →
    triple (sinv c B [] [] []) (f a) (λ _, sinv c (B + creations a) [] [] [])
      (λ _, sinv c (B + creations a) [] [] [])) l →
  (Z.of_nat (B + sum_list_with creations l) < u128_modulus)%Z →
  triple (sinv c B [] [] []) (iterM f l)
    (λ _, sinv c (B + sum_list_with creations l) [] [] [])
    (λ _, sinv c (B + sum_list_with creations l) [] [] []).
Proof.
  intros Hl. revert B. induction Hl as [|a l Ha Hl IH]; intros B HB; simpl in *.
  { rewrite Nat.add_0_r. apply keeps_ret. }
  eapply triple_bind.
  - eapply triple_conseq; [apply (Ha B); lia|done|done|].
    intros e s. apply sinv_mono. lia.
  - intros []. simpl. rewrite Nat.add_assoc. apply IH. lia.
Qed.

Lemma finish_action_spec c B a (body : ShellM ()) :
  triple (sinv c B [] [] []) body (λ _, sinv c (B + creations a) [] [] [])
    (λ _, sinv c (B + creations a) [] [] []) →
  triple (sinv c B [] [] []) (AppShell.finish_action a body)
    (λ _, sinv c (B + creations a) [] [] []) (λ _, sinv c (B + creations a) [] [] []).
Proof.
  intros Hb. eapply triple_bind; [exact Hb|]. intros []. simpl.
  case_match; [apply clear_unseen_spec|apply keeps_ret].
Qed.

(** An action before its unseen-output flag is cleared. *)
Definition action_body (a : AppAction) : ShellM () :=
  match a with
  | Multiple l => iterM AppShell.apply_action l
  | _ => AppShell.apply_single a
  end.

Lemma apply_action_body a :
  AppShell.apply_action a = AppShell.finish_action a (action_body a).
Proof. by destruct a. Qed.

(** A tree without [ClosePane] has none in its parts. *)
Lemma action_exists_part f l a :
  action_exists f (Multiple l) = false → a ∈ l → action_exists f a = false.
Proof.
  cbn [action_exists]. intros Hl Ha. destruct (action_exists f a) eqn:He; [|done].
  rewrite <- Hl. symmetry. apply existsb_exists. exists a. by rewrite <- list_elem_of_In.
Qed.

Lemma action_body_spec c : ∀ a B,
  (c = true → action_exists is_close_pane a = false) →
  (Z.of_nat (B + creations a) < u128_modulus)%Z →
  triple (sinv c B [] [] []) (action_body a)
    (λ _, sinv c (B + creations a) [] [] []) (λ _, sinv c (B + creations a) [] [] []).
Proof.
  refine (action_ind' _ _ _); [intros l IH|intros a Ha]; intros B Hc HB.
  - cbn [action_body creations] in *. apply iterM_spec; [|done].
    apply Forall_forall. intros a Hin B' HB'. rewrite apply_action_body.
    apply finish_action_spec. rewrite Forall_forall in IH. apply IH; [done| |done].
    intros Hcc. eapply action_exists_part; eauto.
  - assert (action_body a = AppShell.apply_single a) as ->
      by (destruct a; try done; by destruct (Ha actions)).
    apply apply_single_spec; [|done|lia]. intros Hcc. specialize (Hc Hcc). by destruct a.
Qed.

Lemma apply_action_spec c a B :
  (c = true → action_exists is_close_pane a = false) →
  (Z.of_nat (B + creations a) < u128_modulus)%Z →
  triple (sinv c B [] [] []) (AppShell.apply_action a)
    (λ _, sinv c (B + creations a) [] [] []) (λ _, sinv c (B + creations a) [] [] []).
Proof.
  intros Hc HB. rewrite apply_action_body. by apply finish_action_spec, action_body_spec.
Qed.

(** C1. Panic freedom and the shell invariant. From a shell satisfying its
    invariant, applying any action, nested to any depth, never panics, and
    the invariant holds again both after success and after an error: active
    workspace, tab and pane exist, the activation order names live panes and
    ends in the active one, a zoomed pane is the active pane, and while the
    counters have not saturated all workspace, tab
    and pane identifiers are distinct and below their counters. For actions
    that close no pane, every split also keeps naming a live source. *)
Theorem apply_action_safe c a s :
  shell_inv c s → (c = true → action_exists is_close_pane a = false) →
  (Z.of_nat (length (workspaces s) + creations a) < u128_modulus)%Z →
  match AppShell.apply_action a s with
  | Ok _ s' | Err _ s' => shell_inv c s'
  | Panic => False
  end.
Proof.
  intros Hs%shell_inv_sinv Hc HB.
  pose proof (apply_action_spec c a _ Hc HB s Hs) as Hspec.
  destruct (AppShell.apply_action a s); eauto using sinv_shell_inv.
Qed.

End host.
