(* ===== verification/ShellTransfer.v ===== *)
(** Operations of the shell outside [apply_action]: construction, snapshots,
    duplication, detaching and importing tabs, pending windows and the
    rescaling of all splits. *)
From S2P Require Import Prelude Text Launch Pane SplitGeometry Tab Snapshot Workspace Shell.
From S2P Require Import TabFacts TabLayout SnapshotFacts WorkspaceFacts ShellFacts.
From S2P Require Import ShellNames ShellSafety.

(** ** Remapping identifiers *)

Section remap.
  Context (m : gmap PaneId PaneId).

Lemma remap_Some {S} x y (s : S) : m !! x = Some y → remap m x s = Ok y s.
Proof. intros Hx. unfold remap. by rewrite Hx. Qed.

Lemma remap_order_spec {S} l (s : S) :
  match remap_order m l s with
  | Ok l' s' => s' = s ∧ Forall2 (λ x y, m !! x = Some y) l l'
  | Err _ s' => s' = s ∧ ∃ x, x ∈ l ∧ m !! x = None
  | Panic => False
  end.
Proof.
  induction l as [|x l IH]; simpl; [done|]. unfold remap. exec_unfold.
  case_inner Hx; [|split; [done|]; exists x; split; [set_solver|done]].
  destruct (remap_order m l s); [|destruct IH as (-> & y & ? & ?); split; [done|exists y; set_solver]|done].
  destruct IH as [-> IH]. split; [done|]. by constructor.
Qed.

(** What one pane becomes. *)
Definition pane_remapped (p q : Pane) : Prop :=
  m !! pane_id p = Some (pane_id q) ∧ pane_launch q = pane_launch p ∧
  match pane_split p, pane_split q with
  | Some sp, Some sq => m !! source_pane sp = Some (source_pane sq) ∧
      direction sq = direction sp ∧ source_size_delta sq = source_size_delta sp
  | None, None => True
  | _, _ => False
  end.

Lemma remap_pane_spec p :
  match remap_pane m p with
  | Ok _ q => pane_remapped p q
  | Err _ _ => m !! pane_id p = None ∨ ∃ sp, pane_split p = Some sp ∧ m !! source_pane sp = None
  | Panic => False
  end.
Proof.
  unfold remap_pane, remap, pane_remapped. exec_unfold.
  case_inner Hid; [|by left]. destruct (pane_split p) as [sp|] eqn:Hsp; simpl; [|by rewrite Hsp].
  case_inner Hs; [done|]. right. eauto.
Qed.

Lemma remap_panes_spec l :
  match remap_panes m l with
  | Ok _ l' => Forall2 pane_remapped l l'
  | Err _ _ => ∃ p, p ∈ l ∧
      (m !! pane_id p = None ∨ ∃ sp, pane_split p = Some sp ∧ m !! source_pane sp = None)
  | Panic => False
  end.
Proof.
  unfold remap_panes. induction l as [|p l IH]; simpl; [done|].
  pose proof (remap_pane_spec p) as Hp. destruct (remap_pane m p) as [[] q|e q|]; [| |done].
  - destruct (for_each_mut (remap_pane m) l) as [[] l'|e l'|]; [by constructor| |done].
    destruct IH as (q' & ? & ?). exists q'. split; [set_solver|done].
  - exists p. split; [set_solver|done].
Qed.

(** The whole tab. *)
Definition tab_remapped (id : TabId) (t t' : Tab) : Prop :=
  tab_id t' = id ∧ tab_title t' = tab_title t ∧
  Forall2 pane_remapped (tab_panes t) (tab_panes t') ∧
  m !! tab_active_pane_id t = Some (tab_active_pane_id t') ∧
  Forall2 (λ x y, m !! x = Some y) (tab_pane_activation_order t) (tab_pane_activation_order t') ∧
  match tab_zoomed_pane_id t, tab_zoomed_pane_id t' with
  | Some z, Some z' => m !! z = Some z'
  | None, None => True
  | _, _ => False
  end.

(** Remapping succeeds unless the tab names a pane outside the map. *)
Lemma remap_ids_spec c id t :
  tab_inv c t → (∀ x, x ∈ tab_pane_ids t → is_Some (m !! x)) →
  match remap_ids m id t with
  | Ok _ t' => tab_remapped id t t'
  | Err _ _ => ∃ x, x ∈ split_sources (tab_panes t) ∧ x ∉ tab_pane_ids t
  | Panic => False
  end.
Proof.
  intros [Hok _] Hm. pose proof Hok as [_ [Ho Hz]]. unfold remap_ids.
  destruct (Hm _ (tab_ok_active _ Hok)) as [a Ha]. cbv [mbind M_bind get_state].
  rewrite (remap_Some _ _ _ Ha).
  pose proof (remap_order_spec (tab_pane_activation_order t) t) as Hord.
  destruct (remap_order m _ t) as [o t0|e t0|];
    [|destruct Hord as (_ & x & Hx & Hn); destruct (Hm x (Ho x Hx)); congruence|done].
  destruct Hord as [-> Hord].
  assert (∃ z, (match tab_zoomed_pane_id t with None => mret None
    | Some z => z' ← remap m z; mret (Some z') end : TabM (option PaneId)) t = Ok z t ∧
    match tab_zoomed_pane_id t, z with
    | Some z, Some z' => m !! z = Some z' | None, None => True | _, _ => False end)
    as (z & Hzeq & Hzz).
  { destruct (tab_zoomed_pane_id t) as [z|]; [|by exists None].
    rewrite (Hz z eq_refl). exists (Some a).
    cbv [mbind M_bind]. by rewrite (remap_Some _ _ _ Ha). }
  cbv [mbind M_bind] in Hzeq. rewrite Hzeq. unfold zoom.
  pose proof (remap_panes_spec (tab_panes t)) as Hp.
  destruct (remap_panes m (tab_panes t)) as [[] l|e l|]; [by split_and!| |done].
  destruct Hp as (p & Hin & [Hn|(sp & Hsp & Hn)]).
  - destruct (Hm (pane_id p)); [|congruence]. apply list_elem_of_fmap. eauto.
  - exists (source_pane sp). split; [apply elem_of_split_sources; eauto|].
    intros Hin'. destruct (Hm _ Hin'). congruence.
Qed.

(** Members travel along the map. *)
Lemma remapped_elem l l' x y :
  Forall2 (λ x y, m !! x = Some y) l l' → x ∈ l → m !! x = Some y → y ∈ l'.
Proof.
  intros Hl [i Hi]%list_elem_of_lookup Hxy.
  destruct (Forall2_lookup_l _ _ _ _ _ Hl Hi) as (y' & Hy' & Heq). simplify_eq.
  by eapply list_elem_of_lookup_2.
Qed.

Lemma remapped_elem_inv l l' y :
  Forall2 (λ x y, m !! x = Some y) l l' → y ∈ l' → ∃ x, x ∈ l ∧ m !! x = Some y.
Proof.
  intros Hl [i Hi]%list_elem_of_lookup.
  destruct (Forall2_lookup_r _ _ _ _ _ Hl Hi) as (x & Hx & Heq).
  eauto using list_elem_of_lookup_2.
Qed.

Lemma remapped_ids id t t' :
  tab_remapped id t t' → Forall2 (λ x y, m !! x = Some y) (tab_pane_ids t) (tab_pane_ids t').
Proof.
  intros (_ & _ & Hp & _). apply Forall2_fmap. eapply Forall2_impl; [exact Hp|]. by intros p q [? _].
Qed.

Lemma remapped_unique l k1 k2 :
  Forall2 (λ x y, m !! x = Some y) l k1 → Forall2 (λ x y, m !! x = Some y) l k2 → k1 = k2.
Proof.
  intros H1. revert k2. induction H1 as [|x y l k1 Hxy H1 IH]; intros k2 H2.
  - by apply Forall2_nil_inv_l in H2 as ->.
  - apply Forall2_cons_inv_l in H2 as (y' & k2' & Hy' & H2 & ->). simplify_eq. f_equal. auto.
Qed.

Lemma remapped_last l l' x :
  Forall2 (λ x y, m !! x = Some y) l l' → last l = Some x → last l' = m !! x.
Proof.
  intros Hl [k ->]%last_Some. apply Forall2_app_inv_l in Hl as (k1 & k2 & _ & Hx & ->).
  apply Forall2_cons_inv_l in Hx as (y & k3 & Hy & Hn & ->).
  apply Forall2_nil_inv_l in Hn as ->. by rewrite last_snoc, Hy.
Qed.

Lemma remapped_inv c id t t' : tab_inv c t → tab_remapped id t t' → tab_inv c t'.
Proof.
  intros [[Hlast [Ho Hz]] Hc] Hr. pose proof (remapped_ids _ _ _ Hr) as Hids.
  destruct Hr as (_ & _ & Hp & Ha & Hord & Hzz). split; [split; [|split]|].
  - by rewrite (remapped_last _ _ _ Hord Hlast).
  - intros y (x & Hx & Hxy)%(remapped_elem_inv _ _ _ Hord). eauto using remapped_elem.
  - intros z' Hz'. rewrite Hz' in Hzz. destruct (tab_zoomed_pane_id t) as [z|]; [|done].
    rewrite (Hz z eq_refl) in Hzz. congruence.
  - intros Hcc y (q & sq & [i Hi]%list_elem_of_lookup & Hsq & <-)%elem_of_split_sources.
    destruct (Forall2_lookup_r _ _ _ _ _ Hp Hi) as (p & Hpi & _ & _ & Hs). rewrite Hsq in Hs.
    destruct (pane_split p) as [sp|] eqn:Hsp; [|done]. destruct Hs as (Hs & _).
    eapply remapped_elem; [exact Hids| |exact Hs]. apply Hc; [done|].
    apply elem_of_split_sources. exists p, sp. eauto using list_elem_of_lookup_2.
Qed.
End remap.

(** ** Allocating the new identifiers *)

(** Two shells that differ at most in their counters. *)
Definition same_places (s s' : AppShell) : Prop :=
  workspaces s' = workspaces s ∧ active_workspace_id s' = active_workspace_id s ∧
  pending_windows s' = pending_windows s.

#[export] Instance same_places_preorder : PreOrder same_places.
Proof. split; [done|]. intros s1 s2 s3 (? & ? & ?) (? & ? & ?). split_and!; congruence. Qed.

Lemma same_places_active s s' :
  same_places s s' → AppShell.active_workspace s' = AppShell.active_workspace s.
Proof.
  intros (Hw & Ha & _). unfold AppShell.active_workspace, AppShell.workspace,
    AppShell.workspace_position. by rewrite Hw, Ha.
Qed.

Section shell.
  Context (c : bool) (B : nat).

(** The map built by [fresh_pane_map] sends the identifiers, in order, to
    the fresh ones; earlier bindings survive for other keys. *)
Lemma fresh_pane_map_spec NW NT panes : ∀ NP m0 s,
  sinv c B NW NT NP s →
  ∃ m s' news, AppShell.fresh_pane_map panes m0 s = Ok m s' ∧
    sinv c B NW NT (NP ++ news) s' ∧ same_places s s' ∧
    (∀ x, x ∉ pane_id <$> panes → m !! x = m0 !! x) ∧
    (∀ x, x ∈ pane_id <$> panes → is_Some (m !! x)) ∧
    (NoDup (pane_id <$> panes) → Forall2 (λ x y, m !! x = Some y) (pane_id <$> panes) news).
Proof.
  induction panes as [|p panes IH]; intros NP m0 s Hs; simpl.
  { exists m0, s, []. rewrite app_nil_r. split_and!; try done. set_solver. }
  pose proof (fresh_pane_id_spec c B NW NT NP (λ _ _, True) s Hs) as Hf.
  unfold mbind, M_bind. destruct (AppShell.fresh_pane_id s) as [id s1|? ?|] eqn:Hfresh; [|done|done].
  destruct (IH _ (<[pane_id p := id]> m0) s1 Hf) as (m & s' & news & -> & Hs' & Hws & Hout & Hin & Hnd).
  exists m, s', (id :: news). rewrite cons_middle, app_assoc. split_and!; try done.
  - etrans; [|exact Hws]. by injection Hfresh as _ <-.
  - intros x [Hne Hx]%not_elem_of_cons. rewrite Hout by done. by rewrite lookup_insert_ne.
  - intros x [->|Hx]%elem_of_cons; [|auto].
    destruct (decide (pane_id p ∈ pane_id <$> panes)); [auto|].
    rewrite Hout by done. rewrite lookup_insert_eq. by eexists.
  - intros [Hp Hnd']%NoDup_cons. constructor; [|auto]. rewrite Hout by done.
    by rewrite lookup_insert_eq.
Qed.

Lemma fresh_pane_ids_spec NW NT n : ∀ NP s,
  sinv c B NW NT NP s →
  ∃ ids s', AppShell.fresh_pane_ids n s = Ok ids s' ∧ length ids = n ∧
    sinv c B NW NT (NP ++ ids) s' ∧ same_places s s'.
Proof.
  induction n as [|n IH]; intros NP s Hs; simpl.
  { exists [], s. by rewrite app_nil_r. }
  pose proof (fresh_pane_id_spec c B NW NT NP (λ _ _, True) s Hs) as Hf.
  unfold mbind, M_bind. destruct (AppShell.fresh_pane_id s) as [id s1|? ?|] eqn:Hfresh; [|done|done].
  destruct (IH _ s1 Hf) as (ids & s' & -> & Hlen & Hs' & Hws).
  exists (id :: ids), s'. rewrite cons_middle, app_assoc. split_and!; try done; simpl; [lia|].
  etrans; [|exact Hws]. by injection Hfresh as _ <-.
Qed.

End shell.

(** ** Running a method of the active workspace *)

Lemma position_by_key {A K} `{EqDecision K} (f : A → K) (x : K) (l : list A) :
  position (λ y, f y = x) l = position (λ k, k = x) (f <$> l).
Proof.
  unfold position. induction l as [|y l IH]; simpl; [done|].
  repeat case_decide; try done. rewrite <- !option_fmap_compose.
  rewrite !(option_fmap_ext (fst ∘ prod_map S id) (S ∘ fst)) by by intros [].
  rewrite !option_fmap_compose. by f_equal.
Qed.

Lemma in_active_workspace_run {A} c (m : WsM A) s :
  shell_ok c s → ∃ i w, workspaces s !! i = Some w ∧ AppShell.active_workspace s = Some w ∧
    ws_inv c w ∧
    (∀ w', ws_id w' = ws_id w →
       AppShell.active_workspace (sh_set_workspaces (<[i:=w']> (workspaces s)) s) = Some w') ∧
    AppShell.in_active_workspace m s =
      match m w with
      | Ok a w' => Ok a (sh_set_workspaces (<[i:=w']> (workspaces s)) s)
      | Err e w' => Err e (sh_set_workspaces (<[i:=w']> (workspaces s)) s)
      | Panic => Panic
      end.
Proof.
  intros Hok. destruct (active_workspace_spec c s Hok) as (i & w & Hi & Hw & Ha & Hid & Hinv).
  exists i, w. split_and!; try done.
  - intros w' Hid'. unfold AppShell.active_workspace, AppShell.workspace,
      AppShell.workspace_position in *. simpl.
    rewrite position_by_key in Hi |- *. erewrite fmap_insert_id by done. rewrite Hi. simpl.
    apply list_lookup_insert_eq. by eapply lookup_lt_Some.
  - unfold AppShell.in_active_workspace, AppShell.in_workspace, zoom. exec_unfold.
    rewrite Hi, Hw. by destruct (m w).
Qed.

(** Where [insert_tab] puts the tab. *)
Lemma insert_tab_run t i w :
  ∃ w', Workspace.insert_tab t i w = Ok () w' ∧ ws_id w' = ws_id w ∧
    ws_active_tab_id w' = tab_id t ∧
    ws_tabs w' = take i (ws_tabs w) ++ t :: drop i (ws_tabs w).
Proof.
  unfold Workspace.insert_tab, vec_insert. exec_unfold.
  rewrite bool_decide_eq_true_2 by lia. eexists. split; [done|].
  split_and!; [by unfold Workspace.activate_existing_tab; case_decide
              |apply activate_existing_tab_active|].
  rewrite activate_existing_tab_tabs. simpl.
  destruct (decide (i ≤ length (ws_tabs w))); [by rewrite Nat.min_l|].
  by rewrite Nat.min_r, !(take_ge (ws_tabs w)), !(drop_ge (ws_tabs w)) by lia.
Qed.

(** Inserting a tab whose identifiers were just allocated. *)
Lemma insert_fresh_tab c B t i s :
  sinv c B [] [tab_id t] (tab_pane_ids t) s → tab_inv c t →
  ∃ w w' s', AppShell.active_workspace s = Some w ∧ AppShell.active_workspace s' = Some w' ∧
    AppShell.in_active_workspace (Workspace.insert_tab t i) s = Ok () s' ∧
    sinv c B [] [] [] s' ∧ next_pane_id s' = next_pane_id s ∧
    ws_active_tab_id w' = tab_id t ∧
    ws_tabs w' = take i (ws_tabs w) ++ t :: drop i (ws_tabs w).
Proof.
  intros Hs Ht.
  destruct (in_active_workspace_run c (Workspace.insert_tab t i) s (proj1 Hs))
    as (k & w & Hk & Hw & Hinv & Hact & Hrun).
  destruct (insert_tab_run t i w) as (w' & Hins & Hid & Ha & Htabs).
  pose proof (in_active_workspace_spec c B [] _ _ _ (insert_tab_method c t i Ht) s Hs) as Hspec.
  rewrite Hrun, Hins in Hspec |- *.
  exists w, w', (sh_set_workspaces (<[k:=w']> (workspaces s)) s). split_and!; auto.
Qed.

(** ** Construction *)

Lemma new_shell_inv launch name :
  ∃ s, AppShell.new_with_workspace_name launch name = Some s ∧ shell_inv true s ∧
    length (workspaces s) = 1.
Proof.
  unfold AppShell.new_with_workspace_name, Tab.new. simpl. eexists. split; [done|]. split; [|done].
  destruct (new_tab_single (TabId_new 1) (Pane.new (PaneId_new 1) launch) eq_refl)
    as (t & [= <-] & _ & Ht & _).
  split; [split_and!|split_and!]; simpl.
  - unfold shell_ws_ids. set_solver.
  - constructor; [|constructor]. split_and!; [unfold ws_tab_ids; set_solver|done|].
    by constructor.
  - done.
  - intros _. split; [apply NoDup_singleton|repeat constructor].
  - intros _. split; [apply NoDup_singleton|repeat constructor].
  - intros _. split; [apply NoDup_singleton|repeat constructor].
  - constructor.
Qed.

(** ** Restoring and duplicating *)

(** A well-formed snapshot is always restored, at [index] or at the end. *)
Lemma restore_tab_snapshot_spec c sn i s :
  shell_inv c s → snapshot_wf sn →
  ∃ w w' t s', AppShell.restore_tab_snapshot sn i s = Ok (tab_id t) s' ∧ shell_inv c s' ∧
    AppShell.active_workspace s = Some w ∧ AppShell.active_workspace s' = Some w' ∧
    ws_active_tab_id w' = tab_id t ∧
    ws_tabs w' = take i (ws_tabs w) ++ t :: drop i (ws_tabs w) ∧
    ((next_pane_id s' < u64_max)%Z → TabReconnectSnapshot.from_tab t = Some sn).
Proof.
  intros Hs%shell_inv_sinv Hwf. unfold AppShell.restore_tab_snapshot.
  pose proof (fresh_tab_id_spec c _ [] [] [] (λ _ _, True) s Hs) as Hf.
  cbv [mbind M_bind]. destruct (AppShell.fresh_tab_id s) as [id s1|? ?|] eqn:Hfresh; [|done|done].
  simpl in Hf.
  destruct (fresh_pane_ids_spec c _ [] [id] (length (snapshot_panes sn)) [] s1 Hf)
    as (ids & s2 & -> & Hlen & Hs2 & Hws). simpl in Hs2.
  destruct (restore_total id sn ids s2 Hwf Hlen) as (t & -> & <- & <- & Ht & Hsn).
  destruct (insert_fresh_tab c _ t i s2 Hs2 (tab_inv_weaken _ _ Ht))
    as (w & w' & s' & Hw & Hw' & -> & Hs' & Hnext & Ha & Htabs).
  exists w, w', t, s'. split_and!; try done; [by eapply sinv_shell_inv| |].
  - rewrite <- Hw. symmetry. apply same_places_active. etrans; [|exact Hws].
    by injection Hfresh as _ <-.
  - rewrite Hnext. intros Hlt. destruct Hs2 as (_ & (_ & _ & HP & _) & _).
    destruct (HP Hlt) as [Hnd _]. apply NoDup_app in Hnd as (_ & _ & Hnd).
    rewrite from_tab_eq. apply Hsn. intros k x Hk. unfold tab_pane_ids in Hk.
    rewrite list_lookup_fmap in Hk. apply fmap_Some in Hk as (p & Hp & ->).
    by apply pane_indices_NoDup.
Qed.

Lemma tab_reconnect_snapshot_run x s w t :
  AppShell.active_workspace s = Some w → Workspace.tab x w = Some t →
  AppShell.tab_reconnect_snapshot x s =
    match TabReconnectSnapshot.from_tab t with Some sn => Ok sn s | None => Panic end.
Proof.
  intros Hw Ht. unfold AppShell.tab_reconnect_snapshot, mbind, M_bind, get_state.
  rewrite Hw. simpl. rewrite Ht. simpl. by destruct (TabReconnectSnapshot.from_tab t).
Qed.

(** Duplicating a tab of a shell whose splits are closed never panics: a
    tab of the active workspace gets a copy directly to its right, which
    becomes active, has fresh identifiers and the same reconnect snapshot;
    an unknown tab is reported as [InvalidTab] and nothing changes. *)
Theorem duplicate_tab_correct x s :
  shell_inv true s →
  match AppShell.duplicate_tab x s with
  | Ok id s' =>
      shell_inv true s' ∧
      ∃ w w' i t t', AppShell.active_workspace s = Some w ∧
        AppShell.active_workspace s' = Some w' ∧ ws_tabs w !! i = Some t ∧ tab_id t = x ∧
        ws_tabs w' = take (i + 1) (ws_tabs w) ++ t' :: drop (i + 1) (ws_tabs w) ∧
        tab_id t' = id ∧ ws_active_tab_id w' = id ∧
        ((next_pane_id s' < u64_max)%Z →
           TabReconnectSnapshot.from_tab t' = TabReconnectSnapshot.from_tab t)
  | Err e s' =>
      e = InvalidTab x ∧ s' = s ∧
      ∃ w, AppShell.active_workspace s = Some w ∧ x ∉ ws_tab_ids w
  | Panic => False
  end.
Proof.
  intros Hs. destruct (active_workspace_spec true s (proj1 Hs)) as (k & w & _ & Hk & Hw & _ & Hinv).
  unfold AppShell.duplicate_tab.
  cbv [mbind M_bind mret M_ret get_state throw panic expect ok_or]. rewrite Hw. cbv beta iota.
  destruct (Workspace.tab_position x w) as [i|] eqn:Hi.
  - destruct (tab_position_lookup _ _ _ Hi) as (t & Ht & Hid).
    assert (Htab : Workspace.tab x w = Some t) by (unfold Workspace.tab; by rewrite Hi).
    rewrite (tab_reconnect_snapshot_run x s w t Hw Htab).
    assert (Hti : tab_inv true t) by (eapply Forall_lookup_1; [apply Hinv|done]).
    destruct (from_tab_total t Hti) as (sn & Hsn & Hwf & _). rewrite Hsn.
    destruct (restore_tab_snapshot_spec true sn (i + 1) s Hs Hwf)
      as (w0 & w' & t' & s' & -> & Hs' & Hw0 & Hw' & Ha & Htabs & Hrt).
    split; [done|]. rewrite Hw in Hw0. injection Hw0 as <-.
    exists w, w', i, t, t'. split_and!; try done. intros Hlt. by rewrite Hrt, Hsn.
  - split_and!; [done..|]. exists w. split; [done|]. rewrite tab_position_elem, Hi. by intros [? ?].
Qed.

(** ** Importing a detached tab *)

(** C37. Importing a detached tab whose panes are distinct never panics. On
    success the tab is at the requested index (or at the end), active, with
    fresh tab and pane identifiers, and is the detached one with every pane
    identifier (slots, split sources, active pane, activation order, zoom)
    replaced according to the returned map. It fails only when a split
    names no pane of the tab, and then only counters have advanced. *)
Theorem import_detached_tab_correct c d i s :
  shell_inv c s → tab_inv c (detached_tab d) → NoDup (tab_pane_ids (detached_tab d)) →
  match AppShell.import_detached_tab d i s with
  | Ok imported s' =>
      shell_inv c s' ∧
      ∃ w w' t', AppShell.active_workspace s = Some w ∧
        AppShell.active_workspace s' = Some w' ∧
        ws_tabs w' = take i (ws_tabs w) ++ t' :: drop i (ws_tabs w) ∧
        ws_active_tab_id w' = imported_tab_id imported ∧
        tab_remapped (imported_pane_id_map imported) (imported_tab_id imported)
          (detached_tab d) t'
  | Err _ s' => shell_inv c s' ∧ same_places s s' ∧ c = false ∧
      ∃ x, x ∈ split_sources (tab_panes (detached_tab d)) ∧ x ∉ tab_pane_ids (detached_tab d)
  | Panic => False
  end.
Proof.
  intros Hs%shell_inv_sinv Ht Hnd. unfold AppShell.import_detached_tab.
  pose proof (fresh_tab_id_spec c _ [] [] [] (λ _ _, True) s Hs) as Hf.
  cbv [mbind M_bind]. destruct (AppShell.fresh_tab_id s) as [id s1|? ?|] eqn:Hfresh; [|done|done].
  assert (Hsame : same_places s s1) by (by injection Hfresh as _ <-). simpl in Hf.
  destruct (fresh_pane_map_spec c _ [] [id] (tab_panes (detached_tab d)) [] ∅ s1 Hf)
    as (m & s2 & news & -> & Hs2 & Hws & _ & Hdom & Hnews). simpl in Hs2.
  assert (Hsame2 : same_places s s2) by (by etrans).
  unfold run_on. pose proof (remap_ids_spec m c id (detached_tab d) Ht Hdom) as Hr.
  destruct (remap_ids m id (detached_tab d)) as [[] t'|e t'|]; [| |done].
  - pose proof (remapped_ids _ _ _ _ Hr) as Hids. pose proof (remapped_inv _ _ _ _ _ Ht Hr) as Ht'.
    assert (tab_id t' = id) as Hid by apply Hr.
    assert (tab_pane_ids t' = news) as Hn.
    { eapply remapped_unique; [exact Hids|by apply Hnews]. }
    rewrite <- Hid, <- Hn in Hs2.
    destruct (insert_fresh_tab c _ t' i s2 Hs2 Ht')
      as (w & w' & s' & Hw & Hw' & -> & Hs' & _ & Ha & Htabs).
    split; [by eapply sinv_shell_inv|]. exists w, w', t'.
    rewrite <- (same_places_active _ _ Hsame2). split_and!; try done. simpl. congruence.
  - split_and!; [by eapply sinv_shell_inv|done| |done].
    destruct c; [|done]. destruct Hr as (x & Hx & Hn). destruct Hn. by apply Ht.
Qed.

(** ** Detaching *)

Lemma detach_tab_safe c x s :
  shell_inv c s →
  match AppShell.detach_tab x s with
  | Ok d s' => shell_inv c s' ∧ tab_inv c (detached_tab d)
  | Err _ s' => s' = s
  | Panic => False
  end.
Proof.
  intros Hs. destruct (in_active_workspace_run c (Workspace.detach_tab x) s (proj1 Hs))
    as (i & w & Hi & _ & Hinv & _ & Hrun).
  unfold AppShell.detach_tab. rewrite Hrun. pose proof (detach_tab_spec c x w Hinv) as Hd.
  destruct (Workspace.detach_tab x w) as [d w'|e w'|]; [|subst w'|done].
  - destruct Hd as (Hw' & Hstep & Ht & _). split; [|done].
    apply shell_inv_sinv in Hs. by eapply sinv_shell_inv, sinv_insert_workspace.
  - rewrite list_insert_id by done. by destruct s.
Qed.

(** ** Pending windows *)

Lemma max_pane_id_ge l x :
  x ∈ pane_id <$> l → (PaneId_get x ≤ foldr (λ q m, Z.max (PaneId_get (pane_id q)) m) 0 l)%Z.
Proof. induction l as [|p l IH]; [set_solver|]. simpl. intros [->|Hx%IH]%elem_of_cons; lia. Qed.

(** Opening the next pending window: the shell built from it satisfies
    the shell invariant, with counters above every identifier it received,
    and the source shell keeps its own invariant. *)
Theorem open_pending_window_safe c s :
  shell_inv c s → (next_pane_id s < u64_max)%Z →
  match AppShell.take_next_pending_window s with
  | (Some p, s') =>
      shell_inv c s' ∧ shell_inv c (AppShell.from_pending_window p) ∧
      AppShell.active_tab (AppShell.from_pending_window p) = Some (pending_tab p)
  | (None, s') => s' = s ∧ pending_windows s = []
  end.
Proof.
  intros [(Ha & Hw & Hp) (HW & HT & HP & Hpend)] Hlt. unfold AppShell.take_next_pending_window.
  destruct (pending_windows s) as [|p rest] eqn:Hrest; [done|].
  apply Forall_cons in Hp as [Hp1 Hp], Hpend as [Hu Hpend]. destruct (Hu Hlt) as [Hnd _].
  split_and!; [by split; split_and!| |].
  - assert (Hws : ws_inv c (Workspace.new (pending_workspace_id p) (pending_workspace_name p)
      [pending_tab p] (tab_id (pending_tab p)))).
    { split_and!; [unfold ws_tab_ids; set_solver|done|by constructor]. }
    split; split_and!; simpl.
    + unfold shell_ws_ids. set_solver.
    + by constructor.
    + done.
    + unfold unique_ids, sat_add_u64, shell_ws_ids. simpl. intros Hsat.
      split; [apply NoDup_singleton|]. constructor; [lia|done].
    + unfold unique_ids, sat_add_u64, shell_tab_ids. simpl. intros Hsat.
      split; [apply NoDup_singleton|]. constructor; [lia|done].
    + unfold unique_ids, sat_add_u64, shell_pane_ids, ws_pane_ids. simpl. rewrite !app_nil_r.
      intros Hsat. split; [done|]. apply Forall_forall. intros x Hx%max_pane_id_ge. lia.
    + done.
  - unfold AppShell.active_tab, AppShell.active_workspace, AppShell.workspace,
      AppShell.workspace_position, position. simpl. rewrite decide_True by done. simpl.
    unfold Workspace.active_tab, Workspace.tab, Workspace.tab_position, position. simpl.
    by rewrite decide_True.
Qed.

(** ** Rescaling every tab *)

Lemma for_each_mut_spec {E S} (P : S → Prop) (R : S → S → Prop) (m : M E S ()) l :
  (∀ x, P x → R x x) →
  (∀ x, P x → match m x with Ok _ y | Err _ y => R x y | Panic => False end) → Forall P l →
  match for_each_mut m l with Ok _ l' | Err _ l' => Forall2 R l l' | Panic => False end.
Proof.
  intros Hrefl Hm. induction 1 as [|x l Hx Hl IH]; simpl; [by constructor|].
  specialize (Hm x Hx). destruct (m x) as [[] y|e y|]; [| |done].
  - destruct (for_each_mut m l); [by constructor..|done].
  - constructor; [done|]. clear IH. induction Hl; constructor; auto.
Qed.

Lemma Forall2_bind_submseteq {A B} (f : A → list B) l l' :
  Forall2 (λ x y, f y ⊆+ f x) l l' → l' ≫= f ⊆+ l ≫= f.
Proof. induction 1; simpl; [done|]. by apply submseteq_app. Qed.

Lemma Forall2_fmap_eq {A B} (f : A → B) l l' :
  Forall2 (λ x y, f y = f x) l l' → f <$> l' = f <$> l.
Proof. induction 1; simpl; [done|]. by f_equal. Qed.

Lemma ws_tabs_each_spec c (m : TabM ()) :
  tab_method c [] m →
  ws_method c [] [] (zoom (λ w, Some (ws_tabs w)) ws_set_tabs (for_each_mut m)).
Proof.
  intros [Hm Hs] w Hw. unfold zoom. pose proof Hw as (_ & _ & Ht).
  pose proof (for_each_mut_spec (tab_inv c) (λ t t', tab_inv c t' ∧ tab_step [] t t') m (ws_tabs w))
    as Hspec.
  ospecialize (Hspec _ _ Ht); [auto with rterm| |].
  { intros t Ht'. specialize (Hm t Ht'). specialize (Hs t Ht'). by destruct (m t). }
  assert (Hres : ∀ tabs, Forall2 (λ t t', tab_inv c t' ∧ tab_step [] t t') (ws_tabs w) tabs →
    ws_inv c (ws_set_tabs tabs w) ∧ ws_step [] [] w (ws_set_tabs tabs w)).
  { intros tabs Htabs.
    assert (tab_id <$> tabs = ws_tab_ids w) as Hids.
    { apply Forall2_fmap_eq. eapply Forall2_impl; [exact Htabs|]. by intros t t' (_ & ? & _). }
    assert (tabs ≫= tab_pane_ids ⊆+ ws_pane_ids w) as Hpids.
    { apply Forall2_bind_submseteq. eapply Forall2_impl; [exact Htabs|].
      intros t t' (_ & _ & Hp). by rewrite app_nil_r in Hp. }
    split; [|split_and!; rewrite ?app_nil_r; [done|by unfold ws_tab_ids at 1; simpl; rewrite Hids|done]].
    apply ws_inv_set_tabs; [done|by rewrite Hids|].
    eapply Forall2_Forall_r; [exact Htabs|]. eapply Forall_true. by intros ? ? []. }
  destruct (for_each_mut m (ws_tabs w)); auto.
Qed.

Lemma shell_ws_each_spec c (m : WsM ()) s :
  shell_inv c s → ws_method c [] [] m →
  match zoom (λ s, Some (workspaces s)) sh_set_workspaces (for_each_mut m) s with
  | Ok _ s' | Err _ s' => shell_inv c s' ∧ shell_ws_ids s' = shell_ws_ids s ∧
                          next_pane_id s' = next_pane_id s
  | Panic => False
  end.
Proof.
  intros [(Ha & Hw & Hp) (HW & HT & HP & Hpend)] Hm. unfold zoom.
  pose proof (for_each_mut_spec (ws_inv c) (λ w w', ws_inv c w' ∧ ws_step [] [] w w') m
    (workspaces s) (λ w Hw, conj Hw (ws_step_refl [] [] w)) Hm Hw) as Hspec.
  assert (Hres : ∀ l, Forall2 (λ w w', ws_inv c w' ∧ ws_step [] [] w w') (workspaces s) l →
    shell_inv c (sh_set_workspaces l s) ∧
    shell_ws_ids (sh_set_workspaces l s) = shell_ws_ids s).
  { intros l Hl. rewrite !app_nil_r in *.
    assert (Hids : ws_id <$> l = shell_ws_ids s).
    { apply Forall2_fmap_eq. eapply Forall2_impl; [exact Hl|]. by intros w w' (_ & ? & _). }
    split; [|exact Hids]. split; split_and!; simpl; rewrite ?app_nil_r; try done.
    - unfold shell_ws_ids. simpl. by rewrite Hids.
    - eapply Forall2_Forall_r; [exact Hl|]. eapply Forall_true. by intros ? ? [].
    - unfold shell_ws_ids. simpl. by rewrite Hids.
    - eapply unique_ids_submseteq; [|exact HT]. apply Forall2_bind_submseteq.
      eapply Forall2_impl; [exact Hl|]. intros w w' (_ & _ & Ht & _). by rewrite app_nil_r in Ht.
    - eapply unique_ids_submseteq; [|exact HP]. apply Forall2_bind_submseteq.
      eapply Forall2_impl; [exact Hl|]. intros w w' (_ & _ & _ & Ht). by rewrite app_nil_r in Ht. }
  destruct (for_each_mut m (workspaces s)); [..|done]; destruct (Hres _ Hspec); by split_and!.
Qed.

Lemma for_each_mut_no_err {E S} (m : M E S ()) l :
  (∀ x e y, m x ≠ Err e y) → ∀ e l', for_each_mut m l ≠ Err e l'.
Proof.
  intros Hm. induction l as [|x l IH]; intros e l'; simpl; [done|].
  specialize (Hm x). destruct (m x) as [[] y|e' y|]; [|naive_solver|done].
  destruct (for_each_mut m l) as [[] k|e' k|]; [done| |done]. naive_solver.
Qed.

Lemma zoom_no_err {E S T A} (g : S → option T) p (m : M E T A) :
  (∀ x e y, m x ≠ Err e y) → ∀ s e s', zoom g p m s ≠ Err e s'.
Proof.
  intros Hm s e s'. unfold zoom. destruct (g s) as [t|]; [|done].
  specialize (Hm t). destruct (m t); naive_solver.
Qed.

(** Rescaling every split when the pane grid changes never panics and
    keeps the shell invariant and the workspaces, for all [u16] sizes. *)
Theorem preserve_split_layout_safe c a b m n s :
  shell_inv c s → is_u16 a → is_u16 b → is_u16 m → is_u16 n →
  match AppShell.preserve_split_layout_for_resize a b m n s with
  | Ok _ s' => shell_inv c s' ∧ shell_ws_ids s' = shell_ws_ids s ∧
               next_pane_id s' = next_pane_id s
  | Err _ _ | Panic => False
  end.
Proof.
  intros Hs Ha Hb Hm Hn. unfold AppShell.preserve_split_layout_for_resize.
  destruct (bool_decide (a = m) && bool_decide (b = n)); [done|].
  pose proof (shell_ws_each_spec c _ s Hs
    (ws_tabs_each_spec c _ (preserve_layout_method c a b m n Ha Hb Hm Hn))) as Hspec.
  destruct (zoom _ _ _ s) as [[] s'|e s'|] eqn:Hz; [done| |done].
  eapply zoom_no_err, Hz. intros l. apply for_each_mut_no_err, zoom_no_err. clear l. intros l.
  apply for_each_mut_no_err. intros t e' t'. unfold Tab.preserve_split_layout_for_resize. exec_unfold.
  by repeat case_match.
Qed.
