(* ===== verification/ShellProps.v ===== *)
(** Behaviour of the shell's actions beyond its invariant: errors leave no
    trace, sequences stop at their first error, the active pane has no
    unseen output, and the one way to a shell that cannot be duplicated. *)
From S2P Require Import Prelude Text Launch Pane SplitGeometry Tab Snapshot Workspace Shell.
From S2P Require Import TabFacts TabLayout SnapshotFacts WorkspaceFacts ShellFacts.
From S2P Require Import ShellNames ShellSafety ShellTransfer.

(** ** Witnesses on concrete shells *)

Definition sh_launch : PaneLaunch := PaneLaunch.local (lit "sh").

Lemma new_shell : ∃ s, AppShell.new sh_launch = Some s ∧ shell_inv true s ∧
  length (workspaces s) = 1.
Proof. apply new_shell_inv. Qed.

(** ** Failed actions leave no trace *)

(** An error leaves the state as it was. *)
Definition atomic {E S A} (m : M E S A) : Prop := ∀ s e s', m s = Err e s' → s' = s.

Section atomic.
  Context {E S : Type}.

Lemma atomic_read {A} (k : S → M E S A) :
  (∀ s0 e s', k s0 s0 = Err e s' → s' = s0) → atomic (get_state ≫= k).
Proof. intros Hk s e s' H. by apply (Hk s e s'). Qed.

Lemma atomic_zoom {T A} (g : S → option T) p (m : M E T A) :
  (∀ s t, g s = Some t → p t s = s) → atomic m → atomic (zoom g p m).
Proof.
  intros Hp Hm s e s'. unfold zoom. destruct (g s) as [t|] eqn:Hg; [|done].
  destruct (m t) as [a t'|e' t'|] eqn:Ht; [done| |done]. intros [= <- <-].
  apply Hm in Ht as ->. auto.
Qed.

Lemma atomic_bind_ok {A B} (m : M E S A) (k : A → M E S B) :
  atomic m → (∀ a s e s', k a s ≠ Err e s') → atomic (m ≫= k).
Proof.
  intros Hm Hk s e s'. unfold mbind, M_bind.
  destruct (m s) eqn:Hs; [intros H; by apply Hk in H| |done].
  intros [= <- <-]. by eapply Hm.
Qed.
End atomic.

(** The error is raised here, before anything was written. *)
Ltac err_here := let H := fresh "H" in intros H; simpl in H; by simplify_eq.

Ltac branch := let H := fresh "Hc" in case_inner H; cbv beta iota.

(** Unfold a method and follow it to its errors. *)
Ltac solve_atomic :=
  let s := fresh "s" in let e := fresh "e" in let s' := fresh "s'" in let H := fresh "H" in
  intros s e s' H; revert H; exec_unfold; repeat branch; try done; intros H; simplify_eq/=; try done.

Lemma in_tab_atomic {A} i (m : TabM A) : atomic m → atomic (Workspace.in_tab i m).
Proof.
  apply atomic_zoom. intros w t Hi. rewrite list_insert_id by done. by destruct w.
Qed.

Lemma ws_in_active_tab_atomic {A} (m : TabM A) : atomic m → atomic (Workspace.in_active_tab m).
Proof.
  intros Hm. apply atomic_read. intros w e w'. exec_unfold. branch; [|err_here].
  by apply in_tab_atomic.
Qed.

Lemma in_workspace_atomic {A} i (m : WsM A) : atomic m → atomic (AppShell.in_workspace i m).
Proof.
  apply atomic_zoom. intros s w Hi. rewrite list_insert_id by done. by destruct s.
Qed.

Lemma in_active_workspace_atomic {A} (m : WsM A) :
  atomic m → atomic (AppShell.in_active_workspace m).
Proof.
  intros Hm. apply atomic_read. intros s e s'. exec_unfold. branch; [|done].
  by apply in_workspace_atomic.
Qed.

Lemma in_active_tab_atomic {A} (m : TabM A) : atomic m → atomic (AppShell.in_active_tab m).
Proof. intros Hm. by apply in_active_workspace_atomic, ws_in_active_tab_atomic. Qed.

Lemma in_pane_tab_atomic x (m : TabM ()) : atomic m → atomic (AppShell.in_pane_tab x m).
Proof.
  intros Hm. apply atomic_read. intros s e s'. exec_unfold. branch; [|err_here].
  apply in_workspace_atomic. intros w e' w'. exec_unfold. branch; [|done].
  by apply in_tab_atomic.
Qed.

Lemma activate_slot_no_err i (w : Workspace) e w' : Workspace.activate_slot i w ≠ Err e w'.
Proof. unfold Workspace.activate_slot. exec_unfold. by repeat branch. Qed.

Lemma move_slot_no_err i j (w : Workspace) e w' : Workspace.move_slot i j w ≠ Err e w'.
Proof. unfold Workspace.move_slot. exec_unfold. by repeat branch. Qed.

Lemma tab_activate_slot_no_err i (t : Tab) e t' : Tab.activate_slot i t ≠ Err e t'.
Proof. unfold Tab.activate_slot. exec_unfold. by repeat branch. Qed.

Lemma remove_pane_no_err x i (t : Tab) e t' : Tab.remove_pane x i t ≠ Err e t'.
Proof. unfold Tab.remove_pane, Tab.activate_slot. exec_unfold. by repeat branch. Qed.

Lemma take_pane_atomic x : atomic (Tab.take_pane_for_new_tab x).
Proof.
  unfold Tab.take_pane_for_new_tab. apply atomic_read. intros t e t'. exec_unfold.
  branch; [|err_here]. branch; [err_here|].
  destruct (Tab.remove_pane _ _ _) eqn:Hr; try done. by apply remove_pane_no_err in Hr.
Qed.

Lemma close_pane_atomic x : atomic (Tab.close_pane x).
Proof.
  unfold Tab.close_pane. apply atomic_read. intros t e t'. exec_unfold.
  branch; [|err_here]. branch; [err_here|].
  destruct (Tab.remove_pane _ _ _) eqn:Hr; try done. by apply remove_pane_no_err in Hr.
Qed.

Lemma focus_step_atomic (m : TabM ()) :
  m = Tab.focus_next_pane ∨ m = Tab.focus_previous_pane → atomic m.
Proof.
  intros [-> | ->]; apply atomic_read; intros t e t'; exec_unfold; (branch; [done|]);
    intros H; by apply tab_activate_slot_no_err in H.
Qed.

Lemma activate_pane_direction_atomic d : atomic (Tab.activate_pane_direction d).
Proof.
  destruct d; simpl; try (apply focus_step_atomic; tauto); solve_atomic.
Qed.

Lemma tab_methods_atomic :
  (∀ x, atomic (Tab.focus_pane x)) ∧ (∀ x y b, atomic (Tab.swap_panes x y b)) ∧
  (∀ d, atomic (Tab.rotate_panes d)) ∧ (∀ x d n, atomic (Tab.resize_pane x d n)) ∧
  (∀ x, atomic (Tab.toggle_pane_zoom x)) ∧ (∀ x b, atomic (Tab.set_pane_zoom_state x b)) ∧
  (∀ x f, atomic (Tab.update_pane x f)).
Proof.
  unfold Tab.focus_pane, Tab.swap_panes, Tab.rotate_panes, Tab.resize_pane,
    Tab.toggle_pane_zoom, Tab.set_pane_zoom_state, Tab.update_pane.
  split_and!; intros; solve_atomic.
Qed.

Lemma split_methods_atomic launch :
  (∀ x new d delta,
     atomic (l ← AppShell.tab_launch_or_child launch; Tab.split_pane x new d l delta)) ∧
  (∀ new d delta,
     atomic (l ← AppShell.tab_launch_or_child launch; Tab.split_top_level_pane new d l delta)).
Proof.
  unfold AppShell.tab_launch_or_child, Tab.split_pane, Tab.split_top_level_pane.
  destruct launch; split; intros; solve_atomic.
Qed.

(** Following the position of the active tab, then a step that cannot fail. *)
Ltac solve_position no_err :=
  apply atomic_read; let w := fresh "w" in let e := fresh "e" in let w' := fresh "w'" in
  intros w e w'; exec_unfold; repeat (branch; try err_here);
  try (let H := fresh "H" in intros H; by apply no_err in H).

Lemma activate_tab_methods_atomic :
  (∀ x, atomic (Workspace.activate_tab x)) ∧ (∀ i, atomic (Workspace.activate_tab_index i)) ∧
  (∀ o, atomic (Workspace.activate_tab_relative o)) ∧
  (∀ o, atomic (Workspace.activate_tab_relative_no_wrap o)).
Proof. split_and!; intros; solve_position activate_slot_no_err. Qed.

Lemma move_tab_methods_atomic :
  (∀ i, atomic (Workspace.move_tab i)) ∧ (∀ o, atomic (Workspace.move_tab_relative o)).
Proof. split; intros; solve_position move_slot_no_err. Qed.

Lemma close_tab_atomic x sel : atomic (Workspace.close_tab x sel).
Proof. unfold Workspace.close_tab. solve_atomic. Qed.

Lemma detach_tab_atomic x : atomic (Workspace.detach_tab x).
Proof. unfold Workspace.detach_tab. solve_atomic. Qed.

Lemma move_pane_methods_atomic x tid :
  atomic (Workspace.move_pane_to_new_tab x tid) ∧
  (∀ wid, atomic (Workspace.move_pane_to_new_window x wid tid)).
Proof.
  split; intros; apply atomic_read; intros w e w'; exec_unfold; (branch; [|err_here]);
    (destruct (Workspace.in_tab n (Tab.take_pane_for_new_tab x) w) as [p w1|e1 w1|] eqn:Hin;
      [done| |done]); intros [= <- <-]; by apply (in_tab_atomic _ _ (take_pane_atomic x)) in Hin.
Qed.

Lemma ws_set_tab_title_atomic x title : atomic (Workspace.set_tab_title x title).
Proof.
  apply atomic_read. intros w e w'. exec_unfold. branch; [|err_here].
  by apply in_tab_atomic.
Qed.

(** At the level of the shell, a failed action may have advanced counters. *)
Definition quiet {A} (m : ShellM A) : Prop :=
  ∀ s e s', m s = Err e s' → same_places s s'.

Lemma atomic_quiet {A} (m : ShellM A) : atomic m → quiet m.
Proof. intros Hm s e s' ->%Hm. done. Qed.

(** Allocation and reading keep every place. *)
Definition placeless {A} (m : ShellM A) : Prop :=
  ∀ s, match m s with Ok _ s' | Err _ s' => same_places s s' | Panic => True end.

Lemma quiet_bind {A B} (m : ShellM A) (k : A → ShellM B) :
  placeless m → (∀ a, quiet (k a)) → quiet (m ≫= k).
Proof.
  intros Hm Hk s e s'. unfold mbind, M_bind. specialize (Hm s).
  destruct (m s) as [a s1|e1 s1|]; [| |done].
  - intros H%Hk. by etrans.
  - by intros [= <- <-].
Qed.

Lemma quiet_bind_ok {A B} (m : ShellM A) (k : A → ShellM B) :
  quiet m → (∀ a s e s', k a s ≠ Err e s') → quiet (m ≫= k).
Proof.
  intros Hm Hk s e s'. unfold mbind, M_bind.
  destruct (m s) as [a s1|e1 s1|] eqn:Hs; [intros H; by apply Hk in H| |done].
  intros [= <- <-]. by eapply Hm.
Qed.

Lemma placeless_fresh :
  placeless AppShell.fresh_tab_id ∧ placeless AppShell.fresh_pane_id ∧
  placeless AppShell.fresh_window_id ∧ placeless AppShell.fresh_workspace_id.
Proof. by split_and!; intros s. Qed.

Lemma placeless_launch l : placeless (AppShell.launch_or_child l).
Proof.
  intros s. unfold AppShell.launch_or_child. destruct l; [done|]. exec_unfold.
  by destruct (AppShell.active_pane s).
Qed.

Lemma placeless_get : placeless get_state.
Proof. by intros s. Qed.

Lemma placeless_expect {A} (o : option A) : placeless (expect o).
Proof. intros s. by destruct o. Qed.

Lemma atomic_modify {E S} (f : S → S) : atomic (E:=E) (modify f).
Proof. by intros s e s'. Qed.

Create HintDb quiet.
#[export] Hint Resolve atomic_quiet in_workspace_atomic placeless_launch placeless_get placeless_expect atomic_modify
  in_active_workspace_atomic in_active_tab_atomic in_pane_tab_atomic close_pane_atomic
  activate_pane_direction_atomic close_tab_atomic detach_tab_atomic ws_set_tab_title_atomic : quiet.

Lemma quiet_creation launch :
  quiet (AppShell.apply_new_tab launch) ∧ quiet (AppShell.apply_spawn_window launch) ∧
  (∀ name, quiet (AppShell.apply_new_workspace name launch)).
Proof.
  destruct placeless_fresh as (? & ? & ? & ?).
  unfold AppShell.apply_new_tab, AppShell.apply_spawn_window, AppShell.apply_new_workspace,
    AppShell.push_pending.
  split_and!; intros; repeat (apply quiet_bind; [by auto with quiet|intros ?]);
    [auto with quiet..|by intros ? ? ?].
Qed.

Lemma quiet_splits d launch delta :
  (∀ x, quiet (AppShell.apply_split_pane_with_size x d launch delta)) ∧
  quiet (AppShell.apply_split_top_level_pane_with_size d launch delta).
Proof.
  destruct placeless_fresh as (? & ? & ? & ?).
  unfold AppShell.apply_split_pane_with_size, AppShell.apply_split_top_level_pane_with_size.
  split; intros; (apply quiet_bind; [done|intros pid]); apply atomic_quiet, in_active_tab_atomic;
    by apply split_methods_atomic.
Qed.

Lemma quiet_moves :
  (∀ t, quiet (AppShell.apply_move_tab_to_new_window t)) ∧
  (∀ x, quiet (AppShell.apply_move_pane_to_new_tab x)) ∧
  (∀ x, quiet (AppShell.apply_move_pane_to_new_window x)).
Proof.
  destruct placeless_fresh as (? & ? & ? & ?).
  unfold AppShell.apply_move_tab_to_new_window, AppShell.apply_move_pane_to_new_tab,
    AppShell.apply_move_pane_to_new_window, AppShell.push_pending.
  split_and!; intros; repeat (apply quiet_bind; [by auto with quiet|intros ?]).
  - apply quiet_bind_ok; [|done]. apply atomic_quiet, in_active_workspace_atomic, atomic_read.
    intros w e w'. exec_unfold. branch; [branch; [done|err_here]|].
    destruct (Workspace.detach_tab t w) as [d w1|e1 w1|] eqn:Hd; [done| |done].
    intros [= <- <-]. by apply detach_tab_atomic in Hd.
  - apply atomic_quiet, in_workspace_atomic. by apply move_pane_methods_atomic.
  - apply quiet_bind_ok; [|done]. apply atomic_quiet, in_active_workspace_atomic.
    by apply move_pane_methods_atomic.
Qed.

Lemma quiet_close_pane x : quiet (AppShell.apply_close_pane x).
Proof.
  apply atomic_quiet, in_active_workspace_atomic, atomic_read. intros w e w'. exec_unfold.
  branch; [|err_here]. branch; [|done]. case_bool_decide; [apply close_tab_atomic|].
  apply in_tab_atomic, close_pane_atomic.
Qed.

Lemma quiet_workspaces x :
  quiet (AppShell.apply_switch_workspace x) ∧ quiet (AppShell.apply_close_workspace x) ∧
  (∀ name, quiet (AppShell.apply_rename_workspace x name)).
Proof.
  unfold AppShell.apply_switch_workspace, AppShell.apply_close_workspace,
    AppShell.apply_rename_workspace.
  split_and!; intros; apply atomic_quiet; [solve_atomic..|].
  apply atomic_read. intros s e s'. exec_unfold. branch; [|err_here].
  by apply in_workspace_atomic.
Qed.

Section host.
  Context `{Host}.

Lemma quiet_host :
  (∀ o, quiet (AppShell.apply_switch_workspace_relative o)) ∧
  (∀ name launch, quiet (AppShell.apply_switch_to_workspace name launch)).
Proof.
  unfold AppShell.apply_switch_workspace_relative, AppShell.apply_switch_to_workspace. split; [intros o|intros name launch].
  - apply atomic_quiet. solve_atomic.
  - apply quiet_bind; [apply placeless_get|]. intros s0.
    apply quiet_bind; [destruct name; [by intros s|apply placeless_expect]|]. intros n.
    case_match; [|apply quiet_creation]. case_match. by intros s e s'.
Qed.

Lemma apply_single_quiet a : (∀ l, a ≠ Multiple l) → quiet (AppShell.apply_single a).
Proof.
  intros Hm. destruct a; cbn [AppShell.apply_single AppShell.apply_split_action];
    try (by intros ? ? ?); cbv delta [AppShell.apply_split_pane]; cbv beta.
  all: lazymatch goal with
    | |- quiet (AppShell.apply_new_tab _) => apply (proj1 (quiet_creation _))
    | |- quiet (AppShell.apply_spawn_window _) => apply (proj1 (proj2 (quiet_creation _)))
    | |- quiet (AppShell.apply_new_workspace _ _) => apply (proj2 (proj2 (quiet_creation _)))
    | |- quiet (AppShell.apply_split_pane_with_size _ _ _ _) => apply (proj1 (quiet_splits _ _ _))
    | |- quiet (AppShell.apply_split_top_level_pane_with_size _ _ _) =>
        apply (proj2 (quiet_splits _ _ _))
    | |- quiet (AppShell.apply_move_tab_to_new_window _) => apply (proj1 quiet_moves)
    | |- quiet (AppShell.apply_move_pane_to_new_tab _) => apply (proj1 (proj2 quiet_moves))
    | |- quiet (AppShell.apply_move_pane_to_new_window _) => apply (proj2 (proj2 quiet_moves))
    | |- quiet (AppShell.apply_switch_workspace _) => apply (proj1 (quiet_workspaces _))
    | |- quiet (AppShell.apply_close_workspace _) => apply (proj1 (proj2 (quiet_workspaces _)))
    | |- quiet (AppShell.apply_rename_workspace _ _) => apply (proj2 (proj2 (quiet_workspaces _)))
    | |- quiet (AppShell.apply_switch_workspace_relative _) => apply (proj1 quiet_host)
    | |- quiet (AppShell.apply_switch_to_workspace _ _) => apply (proj2 quiet_host)
    | |- quiet (AppShell.apply_close_pane _) => apply quiet_close_pane
    | |- _ => apply atomic_quiet
    end.
  all: first [by apply in_active_workspace_atomic; auto with quiet
             |by apply in_active_workspace_atomic; apply activate_tab_methods_atomic
             |by apply in_active_workspace_atomic; apply move_tab_methods_atomic
             |by apply in_active_tab_atomic; auto with quiet
             |by apply in_active_tab_atomic; apply tab_methods_atomic
             |by apply in_active_tab_atomic, focus_step_atomic; tauto
             |by apply in_pane_tab_atomic; apply tab_methods_atomic].
Qed.

(** The active pane is found again when its flag is cleared, so the clearing
    cannot fail. *)
Lemma clear_unseen_no_err s e s' :
  AppShell.clear_active_pane_unseen_output s ≠ Err e s'.
Proof.
  unfold AppShell.clear_active_pane_unseen_output, AppShell.in_pane_tab. exec_unfold.
  branch; [|done]. simpl. destruct (AppShell.find_pane_workspace p s) as [i|] eqn:Hf; [|done].
  simpl. rewrite Hf. destruct (position_lookup _ _ _ Hf) as (w & Hw & [j Hj]).
  unfold AppShell.in_workspace, zoom. rewrite Hw, Hj.
  destruct (ws_pane_tab_lookup _ _ _ Hj) as (t & Ht & [k Hk]).
  unfold Workspace.in_tab, zoom. rewrite Ht. unfold Tab.update_pane. exec_unfold. rewrite Hk.
  destruct (pane_position_lookup _ _ _ Hk) as (q & Hq & _). by rewrite Hq.
Qed.

(** A failed action leaves no trace: when an action other than a
    sequence fails, workspaces, tabs, panes, pending windows and the active
    workspace are exactly as before; at most identifier counters advanced. *)
Theorem failed_action_leaves_no_trace a s e s' :
  (∀ l, a ≠ Multiple l) → AppShell.apply_action a s = Err e s' → same_places s s'.
Proof.
  intros Hm. assert (AppShell.apply_action a = AppShell.finish_action a (AppShell.apply_single a))
    as -> by (destruct a; try done; by destruct (Hm actions)).
  unfold AppShell.finish_action, mbind, M_bind.
  destruct (AppShell.apply_single a s) as [[] s1|e1 s1|] eqn:Hs; [| |done].
  - case_match; [|done]. intros Hc. by apply clear_unseen_no_err in Hc.
  - intros [= <- <-]. by eapply apply_single_quiet.
Qed.

(** [Multiple] applies its actions in order and stops at the first
    failing one: a failure of the sequence is the failure of one of its
    actions, run in the state the successful actions before it produced,
    whose effects are kept. *)
Theorem multiple_stops_at_first_error l s e s' :
  AppShell.apply_action (Multiple l) s = Err e s' →
  ∃ l1 a l2 s1, l = l1 ++ a :: l2 ∧ iterM AppShell.apply_action l1 s = Ok () s1 ∧
    AppShell.apply_action a s1 = Err e s'.
Proof.
  cbn [AppShell.apply_action]. unfold AppShell.finish_action, mbind, M_bind.
  destruct (iterM AppShell.apply_action l s) as [[] s1|e1 s1|] eqn:Hl; [| |done].
  { simpl. intros Hc. by apply clear_unseen_no_err in Hc. }
  intros [= <- <-]. revert s Hl. induction l as [|a l IH]; intros s Hl; [done|].
  cbn [iterM] in Hl. unfold mbind, M_bind in Hl.
  destruct (AppShell.apply_action a s) as [[] s2|e2 s2|] eqn:Ha; [| |done].
  - destruct (IH s2 Hl) as (l1 & b & l2 & s3 & -> & Hl1 & Hb).
    exists (a :: l1), b, l2, s3. split_and!; [done| |done]. cbn [iterM]. unfold mbind, M_bind.
    by rewrite Ha.
  - simplify_eq. by exists [], a, l, s.
Qed.
End host.

(** ** Unseen output *)

(** An element occurs in only one of the lists that make up a duplicate-free
    concatenation. *)
Lemma bind_NoDup_index {A B} (f : A → list B) l i j x y b :
  NoDup (l ≫= f) → l !! i = Some x → l !! j = Some y → b ∈ f x → b ∈ f y → i = j.
Proof.
  revert i j. induction l as [|a l IH]; intros [|i] [|j]; simpl; try done.
  - intros (_ & Hd & _)%NoDup_app [= <-] Hj Hx Hy. destruct (Hd b Hx).
    apply list_elem_of_bind. eauto using list_elem_of_lookup_2.
  - intros (_ & Hd & _)%NoDup_app Hi [= <-] Hx Hy. destruct (Hd b Hy).
    apply list_elem_of_bind. eauto using list_elem_of_lookup_2.
  - intros (_ & _ & Hnd)%NoDup_app Hi Hj Hx Hy. f_equal. eauto.
Qed.

Lemma bind_NoDup_lookup {A B} (f : A → list B) l i x :
  NoDup (l ≫= f) → l !! i = Some x → NoDup (f x).
Proof.
  intros Hnd Hi. rewrite <- (take_drop_middle l i x Hi), bind_app, bind_cons in Hnd.
  by apply NoDup_app in Hnd as (_ & _ & (? & _)%NoDup_app).
Qed.

(** With distinct pane identifiers, the search for the active pane ends at
    the active tab of the active workspace. *)
Lemma find_active_pane c s :
  shell_inv c s → NoDup (shell_pane_ids s) →
  ∃ i w j t k p, AppShell.workspace_position (active_workspace_id s) s = Some i ∧
    workspaces s !! i = Some w ∧
    Workspace.tab_position (ws_active_tab_id w) w = Some j ∧ ws_tabs w !! j = Some t ∧
    Tab.pane_position (tab_active_pane_id t) t = Some k ∧ tab_panes t !! k = Some p ∧
    pane_id p = tab_active_pane_id t ∧ AppShell.active_pane_id s = Some (pane_id p) ∧
    AppShell.find_pane_workspace (pane_id p) s = Some i ∧
    AppShell.ws_pane_tab (pane_id p) w = Some j.
Proof.
  intros [Hok _] Hnd.
  destruct (active_workspace_spec c s Hok) as (i & w & Hi & Hw & Hact & _ & Hinv).
  destruct (ws_inv_active_position c w Hinv) as (j & t & Hj & Ht & _ & Hti).
  destruct (active_pane_is_Some t (proj1 Hti)) as (p & Hp & Hid).
  unfold Tab.active_pane in Hp. apply bind_Some in Hp as (k & Hk & Hpk).
  assert (Hpin : pane_id p ∈ tab_pane_ids t)
    by (apply list_elem_of_fmap; eauto using list_elem_of_lookup_2).
  assert (Hpw : pane_id p ∈ ws_pane_ids w)
    by (apply list_elem_of_bind; eauto using list_elem_of_lookup_2).
  assert (Hwt : AppShell.ws_pane_tab (pane_id p) w = Some j).
  { destruct (position_exists (λ t, is_Some (Tab.pane_position (pane_id p) t)) (ws_tabs w) t)
      as [j' Hj']; [by eapply list_elem_of_lookup_2|by apply pane_position_elem|].
    unfold AppShell.ws_pane_tab. rewrite Hj'. f_equal.
    destruct (position_lookup _ _ _ Hj') as (t' & Ht' & Hin%pane_position_elem).
    eapply (bind_NoDup_index tab_pane_ids (ws_tabs w)); try done.
    by eapply (bind_NoDup_lookup ws_pane_ids). }
  assert (Hws : AppShell.find_pane_workspace (pane_id p) s = Some i).
  { destruct (position_exists (λ w, is_Some (AppShell.ws_pane_tab (pane_id p) w))
      (workspaces s) w) as [i' Hi']; [by eapply list_elem_of_lookup_2|by eexists|].
    unfold AppShell.find_pane_workspace. rewrite Hi'. f_equal.
    destruct (position_lookup _ _ _ Hi') as (w' & Hw' & [j' Hj']).
    destruct (ws_pane_tab_lookup _ _ _ Hj') as (t' & Ht' & Hin%pane_position_elem).
    eapply (bind_NoDup_index ws_pane_ids (workspaces s)); try done.
    apply list_elem_of_bind. eauto using list_elem_of_lookup_2. }
  exists i, w, j, t, k, p. split_and!; try done.
  unfold AppShell.active_pane_id, Workspace.active_pane_id, Workspace.active_tab, Workspace.tab.
  rewrite Hact. simpl. rewrite Hj. simpl. rewrite Ht. simpl. by rewrite Hid.
Qed.

(** Clearing the flag of the active pane, found by identifier. *)
Lemma clear_unseen_correct c s :
  shell_inv c s → NoDup (shell_pane_ids s) →
  ∃ s' p, AppShell.clear_active_pane_unseen_output s = Ok () s' ∧
    AppShell.active_pane s' = Some p ∧ pane_has_unseen_output p = false.
Proof.
  intros Hs Hnd.
  destruct (find_active_pane c s Hs Hnd)
    as (i & w & j & t & k & p & Hi & Hw & Hj & Ht & Hk & Hp & Hid & Hact & Hfw & Hft).
  unfold AppShell.clear_active_pane_unseen_output, AppShell.in_pane_tab, AppShell.in_workspace,
    Workspace.in_tab, zoom, Tab.update_pane. exec_unfold.
  rewrite Hact. simpl. rewrite Hfw. simpl. rewrite Hfw. simpl. rewrite Hw. simpl.
  rewrite Hft. simpl. rewrite Ht. simpl. rewrite Hid, Hk. simpl. rewrite Hp. simpl.
  eexists _, (Pane.set_has_unseen_output false p). split; [done|]. split; [|done].
  unfold AppShell.active_pane, AppShell.active_workspace, AppShell.workspace,
    AppShell.workspace_position in *. simpl. rewrite position_by_key in Hi |- *.
  erewrite fmap_insert_id by done. rewrite Hi. simpl.
  rewrite list_lookup_insert_eq by (by eapply lookup_lt_Some). simpl.
  unfold Workspace.active_pane, Workspace.active_tab, Workspace.tab, Workspace.tab_position in *.
  simpl. rewrite position_by_key in Hj |- *. erewrite fmap_insert_id by done. rewrite Hj. simpl.
  rewrite list_lookup_insert_eq by (by eapply lookup_lt_Some). simpl.
  unfold Tab.active_pane, Tab.pane_position in *. simpl. rewrite position_by_key in Hk |- *.
  erewrite fmap_insert_id by done. rewrite Hk. simpl.
  by rewrite list_lookup_insert_eq by (by eapply lookup_lt_Some).
Qed.

Lemma clear_unseen_next s s' :
  AppShell.clear_active_pane_unseen_output s = Ok () s' → next_pane_id s' = next_pane_id s.
Proof.
  unfold AppShell.clear_active_pane_unseen_output, AppShell.in_pane_tab, AppShell.in_workspace, zoom.
  exec_unfold. repeat branch; simpl; try done; intros H; by simplify_eq/=.
Qed.

(** The active pane never shows unseen output: after any successful
    action other than [Nop] and [SetPaneHasUnseenOutput] the flag of the
    active pane is clear. *)
Theorem active_pane_has_no_unseen_output `{Host} c a s s' :
  shell_inv c s → (c = true → action_exists is_close_pane a = false) →
  (Z.of_nat (length (workspaces s) + creations a) < u128_modulus)%Z →
  AppShell.apply_action a s = Ok () s' →
  AppShell.clears_active_pane_unseen_output a = true → (next_pane_id s' < u64_max)%Z →
  ∃ p, AppShell.active_pane s' = Some p ∧ pane_has_unseen_output p = false.
Proof.
  intros Hs%shell_inv_sinv Hc HB Hrun Hclr Hnext.
  pose proof (action_body_spec c a _ Hc HB s Hs) as Hbody.
  rewrite apply_action_body in Hrun. unfold AppShell.finish_action, mbind, M_bind in Hrun.
  destruct (action_body a s) as [[] s1|e1 s1|]; [|done|done]. rewrite Hclr in Hrun.
  assert (Hnext1 : next_pane_id s' = next_pane_id s1) by (by eapply clear_unseen_next).
  pose proof Hbody as (_ & (_ & _ & HP & _) & _). rewrite app_nil_r in HP.
  rewrite Hnext1 in Hnext. destruct (HP Hnext) as [Hnd _].
  destruct (clear_unseen_correct c s1 (sinv_shell_inv _ _ _ _ _ _ Hbody) Hnd)
    as (s2 & p & Hs2 & Hp & Hflag).
  rewrite Hs2 in Hrun. simplify_eq. eauto.
Qed.

(** ** Splits of a closed pane *)

(** A split of the tab names a pane that is gone. *)
Definition dangling (source : PaneId) (t : Tab) : Prop :=
  source ∈ split_sources (tab_panes t) ∧ source ∉ tab_pane_ids t.

Lemma dangling_has_no_snapshot source t : dangling source t → TabReconnectSnapshot.from_tab t = None.
Proof.
  intros [(p & Hp & Hs)%list_elem_of_omap Hout]. unfold TabReconnectSnapshot.from_tab.
  assert (TabReconnectSnapshot.pane_indices (tab_panes t) !! source = None) as Hi.
  { destruct (TabReconnectSnapshot.pane_indices (tab_panes t) !! source) as [i|] eqn:Hi; [|done].
    apply pane_indices_Some in Hi as (q & Hq & <-). destruct Hout. apply list_elem_of_fmap.
    eauto using list_elem_of_lookup_2. }
  match goal with |- mapM ?f ?l ≫= _ = None => assert (mapM f l = None) as -> end; [|done].
  apply mapM_None_2, Exists_exists. exists p. split; [done|].
  destruct (pane_split p) as [split|]; [|done]. injection Hs as Hs. cbn. by rewrite Hs, Hi.
Qed.

(** Closing a pane that was split. *)
Lemma close_pane_dangling source t child split :
  tab_ok t → NoDup (tab_pane_ids t) → source ∈ tab_pane_ids t → child ∈ tab_panes t →
  pane_split child = Some split → source_pane split = source → pane_id child ≠ source →
  1 < length (tab_panes t) ∧ ∃ t', Tab.close_pane source t = Ok () t' ∧ tab_id t' = tab_id t ∧ dangling source t'.
Proof.
  intros Hok Hnd [i Hi]%pane_position_elem Hchild Hsplit Hsource Hne.
  destruct (pane_position_lookup _ _ _ Hi) as (q & Hq & Hqid).
  apply list_elem_of_lookup in Hchild as [j Hj].
  assert (j ≠ i) as Hji by (intros ->; congruence).
  assert (1 < length (tab_panes t)) as Hlen
    by (pose proof (lookup_lt_Some _ _ _ Hq); pose proof (lookup_lt_Some _ _ _ Hj); lia).
  split; [done|]. unfold Tab.close_pane. exec_unfold. rewrite Hi, bool_decide_eq_false_2 by lia.
  destruct (remove_pane_spec source i t Hok Hi Hlen) as (p & t' & Hrun & _ & Hid & _ & _ & Hids). rewrite Hrun.
  exists t'. split; [done|]. split; [done|]. split.
  - assert (split_sources (tab_panes t') = split_sources (delete i (tab_panes t))) as ->.
    { revert Hrun. unfold Tab.remove_pane, vec_remove, Tab.activate_slot. exec_unfold. rewrite Hq. cbn [mbind option_bind fst snd].
      change (if decide (tab_zoomed_pane_id t = Some source) then _ else _) with (removed_tab source i t).
      case_decide; [|intros [= _ <-]; by rewrite removed_tab_panes].
      destruct (tab_panes (removed_tab source i t) !! _); [|done]. intros [= _ <-].
      by rewrite set_active_pane_sources, removed_tab_panes. }
    apply list_elem_of_omap. exists child. split; [|rewrite Hsplit; cbn; by rewrite Hsource].
    apply list_elem_of_lookup_2 in Hj. rewrite (delete_perm _ _ _ Hq), elem_of_cons in Hj.
    destruct Hj as [->|Hj]; [by destruct Hne|done].
  - rewrite Hids. intros Hin. apply list_elem_of_lookup in Hin as [k Hk].
    assert (tab_pane_ids t !! i = Some source) as His by (unfold tab_pane_ids; by rewrite list_lookup_fmap, Hq, <-Hqid).
    destruct (decide (k < i)).
    + rewrite list_lookup_delete_lt in Hk by done. pose proof (NoDup_lookup _ _ _ _ Hnd Hk His). lia.
    + rewrite list_lookup_delete_ge in Hk by lia. pose proof (NoDup_lookup _ _ _ _ Hnd Hk His). lia.
Qed.

(** Shells that differ in nothing a snapshot refers to. *)
Definition tab_like (t t' : Tab) : Prop :=
  tab_id t' = tab_id t ∧ tab_pane_ids t' = tab_pane_ids t ∧
  split_sources (tab_panes t') = split_sources (tab_panes t).
Definition ws_like (w w' : Workspace) : Prop := ws_id w' = ws_id w ∧ Forall2 tab_like (ws_tabs w) (ws_tabs w').
Definition shell_like (s s' : AppShell) : Prop :=
  active_workspace_id s' = active_workspace_id s ∧ Forall2 ws_like (workspaces s) (workspaces s').

Lemma Forall2_same {A} (R : A → A → Prop) `{!Reflexive R} l : Forall2 R l l.
Proof. induction l; by constructor. Qed.

#[export] Instance tab_like_refl : Reflexive tab_like.
Proof. by intros t. Qed.
#[export] Instance ws_like_refl : Reflexive ws_like.
Proof. intros w. split; [done|]. apply Forall2_same, _. Qed.

Lemma Forall2_insert_like {A} (R : A → A → Prop) `{!Reflexive R} l i x y :
  l !! i = Some x → R x y → Forall2 R l (<[i := y]> l).
Proof.
  intros Hi Hr. rewrite <-(list_insert_id l i x Hi) at 1. apply Forall2_insert; [|done].
  by apply Forall2_same.
Qed.

(** The tab of an identifier, in shells that are alike. *)
Lemma shell_like_tab s s' w tab t :
  shell_like s s' → AppShell.active_workspace s = Some w → Workspace.tab tab w = Some t →
  ∃ w' t', AppShell.active_workspace s' = Some w' ∧ Workspace.tab tab w' = Some t' ∧ tab_like t t'.
Proof.
  intros [Ha Hf]. unfold AppShell.active_workspace, AppShell.workspace, AppShell.workspace_position,
    Workspace.tab, Workspace.tab_position.
  rewrite Ha, (position_by_key ws_id _ (workspaces s)), (position_by_key ws_id _ (workspaces s')).
  assert (ws_id <$> workspaces s' = ws_id <$> workspaces s) as ->.
  { clear -Hf. induction Hf as [|x y l k [H _]]; [done|]. cbn. by rewrite H, IHHf. }
  destruct (position _ (ws_id <$> workspaces s)) as [i|]; [|done]. cbn. intros Hw.
  destruct (Forall2_lookup_l _ _ _ _ _ Hf Hw) as (w' & -> & Hid & Hfw). intros Ht.
  exists w'. cbn. rewrite (position_by_key tab_id _ (ws_tabs w)) in Ht. rewrite (position_by_key tab_id _ (ws_tabs w')).
  assert (tab_id <$> ws_tabs w' = tab_id <$> ws_tabs w) as ->.
  { clear -Hfw. induction Hfw as [|x y l k [H _]]; [done|]. cbn. by rewrite H, IHHfw. }
  destruct (position _ (tab_id <$> ws_tabs w)) as [j|]; [|done]. cbn in *.
  destruct (Forall2_lookup_l _ _ _ _ _ Hfw Ht) as (t' & Ht' & Hlike). by exists t'.
Qed.

Lemma clear_unseen_like s s' : AppShell.clear_active_pane_unseen_output s = Ok () s' → shell_like s s'.
Proof.
  pose proof (Forall2_same ws_like (workspaces s)) as Hrefl.
  unfold AppShell.clear_active_pane_unseen_output, AppShell.in_pane_tab, AppShell.in_workspace, Workspace.in_tab,
    Tab.update_pane, zoom. exec_unfold. repeat branch; simpl; try done; intros Hrun; simplify_eq/=; try done.
  split; [done|]. eapply Forall2_insert_like; [apply _|done|]. split; [done|].
  eapply Forall2_insert_like; [apply _|done|]. split; [done|].
  split; unfold tab_pane_ids; cbn.
  - by erewrite fmap_insert_id.
  - unfold split_sources. erewrite list_insert_alter_lookup; [|done]. by apply sources_alter.
Qed.

(** The slot of a pane's tab, when pane identifiers are unique. *)
Lemma ws_pane_tab_unique w i t x :
  NoDup (ws_pane_ids w) → ws_tabs w !! i = Some t → x ∈ tab_pane_ids t → AppShell.ws_pane_tab x w = Some i.
Proof.
  intros Hnd Ht Hx.
  destruct (position_exists (λ t, is_Some (Tab.pane_position x t)) (ws_tabs w) t)
    as [j Hj]; [by eapply list_elem_of_lookup_2|by apply pane_position_elem|].
  unfold AppShell.ws_pane_tab. rewrite Hj. f_equal.
  destruct (position_lookup _ _ _ Hj) as (t' & Ht' & Hin%pane_position_elem).
  by eapply (bind_NoDup_index tab_pane_ids (ws_tabs w)).
Qed.

(** What closing one of several panes does to the shell. *)
Lemma apply_close_pane_run s k w i t x t' :
  AppShell.workspace_position (active_workspace_id s) s = Some k → workspaces s !! k = Some w →
  AppShell.ws_pane_tab x w = Some i → ws_tabs w !! i = Some t → 1 < length (tab_panes t) →
  Tab.close_pane x t = Ok () t' →
  AppShell.apply_close_pane x s =
    Ok () (sh_set_workspaces (<[k := ws_set_tabs (<[i := t']> (ws_tabs w)) w]> (workspaces s)) s).
Proof.
  intros Hk Hw Hi Ht Hlen Hrun.
  unfold AppShell.apply_close_pane, AppShell.in_active_workspace, AppShell.in_workspace, Workspace.in_tab, zoom.
  exec_unfold. rewrite Hk, Hw, Hi, Ht, bool_decide_eq_false_2 by lia. by rewrite Ht, Hrun.
Qed.

Lemma no_snapshot_panics s w source tab t :
  AppShell.active_workspace s = Some w → Workspace.tab tab w = Some t → dangling source t →
  AppShell.tab_reconnect_snapshot tab s = Panic ∧ AppShell.duplicate_tab tab s = Panic.
Proof.
  intros Hw Ht Hd%dangling_has_no_snapshot.
  assert (AppShell.tab_reconnect_snapshot tab s = Panic) as Hsnap.
  { unfold AppShell.tab_reconnect_snapshot. exec_unfold. by rewrite Hw, Ht, Hd. }
  split; [done|]. revert Hsnap. unfold AppShell.duplicate_tab. generalize (AppShell.tab_reconnect_snapshot tab).
  intros snapshot Hsnap. unfold Workspace.tab in Ht. exec_unfold. rewrite Hw.
  destruct (Workspace.tab_position tab w); [|done]. by rewrite Hsnap.
Qed.

(** C40. [Tab::close_pane] leaves the splits of the closed pane behind: on every
    shell that satisfies its invariant and has not run out of identifiers,
    closing a pane of the active workspace that another pane of its tab was
    split from succeeds, and then both taking the tab's reconnect snapshot
    and duplicating the tab panic. *)
Theorem close_pane_then_duplicate_panics `{Host} s w t child split :
  shell_inv true s → (next_tab_id s < u64_max)%Z → (next_pane_id s < u64_max)%Z →
  AppShell.active_workspace s = Some w → t ∈ ws_tabs w → child ∈ tab_panes t → pane_split child = Some split →
  source_pane split ≠ pane_id child →
  ∃ s', AppShell.apply_action (ClosePane (source_pane split)) s = Ok () s' ∧
    AppShell.tab_reconnect_snapshot (tab_id t) s' = Panic ∧ AppShell.duplicate_tab (tab_id t) s' = Panic.
Proof.
  intros Hs Hnt Hnp Hact [i Ht]%list_elem_of_lookup Hchild Hsplit Hne. pose proof Hs as [Hok (_ & HT & HP & _)].
  rewrite app_nil_r in HT, HP. destruct (HT Hnt) as [HndT _]. destruct (HP Hnp) as [HndP _].
  destruct (active_workspace_spec _ _ Hok) as (k & w' & Hk & Hw & Hact' & _ & Hinv). simplify_eq.
  pose proof (bind_NoDup_lookup ws_pane_ids _ _ _ HndP Hw) as HndW.
  pose proof (bind_NoDup_lookup ws_tab_ids _ _ _ HndT Hw) as HndI.
  pose proof (bind_NoDup_lookup tab_pane_ids _ _ _ HndW Ht) as HndT'.
  destruct Hinv as (_ & _ & Htabs). pose proof (Forall_lookup_1 _ _ _ _ Htabs Ht) as [Htab Hclosed].
  assert (source_pane split ∈ tab_pane_ids t) as Hin.
  { apply (Hclosed eq_refl). apply list_elem_of_omap. exists child. by rewrite Hsplit. }
  destruct (close_pane_dangling (source_pane split) t child split) as (Hlen & t' & Hrun & Hid & Hd); try done.
  assert (shell_inv false s) as Hs' by (by eapply shell_inv_weaken).
  pose proof (apply_close_pane_run s k w i t _ t' Hk Hw (ws_pane_tab_unique _ _ _ _ HndW Ht Hin) Ht Hlen Hrun) as Hclose.
  set (s1 := sh_set_workspaces _ s) in Hclose.
  pose proof (apply_close_pane_spec (length (workspaces s)) (source_pane split) s (proj1 (shell_inv_sinv _ _) Hs')) as Hs1.
  rewrite Hclose in Hs1. apply sinv_shell_inv in Hs1. pose proof Hs1 as [_ (_ & _ & HP1 & _)]. rewrite app_nil_r in HP1.
  destruct (HP1 Hnp) as [HndP1 _]. destruct (clear_unseen_correct false s1 Hs1 HndP1) as (s2 & p & Hs2 & _).
  exists s2. rewrite apply_action_body. unfold AppShell.finish_action, mbind, M_bind. cbn [action_body AppShell.apply_single].
  rewrite Hclose. split; [exact Hs2|].
  assert (AppShell.active_workspace s1 = Some (ws_set_tabs (<[i := t']> (ws_tabs w)) w)) as Hw1.
  { unfold AppShell.active_workspace, AppShell.workspace, AppShell.workspace_position in Hk |- *. simpl.
    rewrite (position_by_key ws_id) in Hk |- *. erewrite fmap_insert_id by done. rewrite Hk. cbn.
    by rewrite list_lookup_insert_eq by (by eapply lookup_lt_Some). }
  assert (Workspace.tab (tab_id t) (ws_set_tabs (<[i := t']> (ws_tabs w)) w) = Some t') as Ht1.
  { unfold Workspace.tab, Workspace.tab_position. simpl.
    rewrite (position_by_key tab_id). erewrite fmap_insert_id by done. rewrite <-(position_by_key tab_id).
    rewrite (position_key tab_id _ i t) by done. cbn. by rewrite list_lookup_insert_eq by (by eapply lookup_lt_Some). }
  destruct (shell_like_tab s1 s2 _ _ _ (clear_unseen_like _ _ Hs2) Hw1 Ht1) as (w2 & t2 & Hw2 & Ht2 & _ & Hids & Hsrc).
  eapply no_snapshot_panics; [done..|]. destruct Hd as [Hd1 Hd2]. split; [by rewrite Hsrc|by rewrite Hids].
Qed.
