(* ===== verification/Examples.v ===== *)
(** Concrete runs: each theorem of the shell applied to a shell built by its
    own operations, with the host of [fixed_host]. *)
From S2P Require Import Prelude Text Launch Pane SplitGeometry Tab Snapshot Workspace Shell.
From S2P Require Import TabFacts TabLayout SnapshotFacts WorkspaceFacts ShellFacts.
From S2P Require Import ShellNames ShellSafety ShellTransfer ShellProps.

#[local] Existing Instance fixed_host.

Lemma apply_action_safe_witness :
  ∃ s, AppShell.new sh_launch = Some s ∧
    match AppShell.apply_action
            (Multiple [NewTab None; SplitPane (PaneId_new 2) SplitDown None;
                       SwitchToWorkspace None None; ClosePane (PaneId_new 9)]) s with
    | Ok _ s' | Err _ s' => shell_inv false s'
    | Panic => False
    end.
Proof.
  destruct new_shell as (s & Hs & Hinv & Hlen). exists s. split; [done|].
  apply (apply_action_safe false); [by apply shell_inv_weaken|done|by rewrite Hlen].
Defined.

Lemma duplicate_tab_correct_witness :
  ∃ s s', AppShell.new sh_launch = Some s ∧
    AppShell.duplicate_tab (TabId_new 1) s = Ok (TabId_new 2) s' ∧ shell_inv true s'.
Proof.
  destruct new_shell as (s & Hs & Hinv & _). exists s.
  pose proof (duplicate_tab_correct (TabId_new 1) s Hinv) as H.
  injection Hs as <-. eexists. split; [reflexivity|]. split; [vm_compute; reflexivity|].
  exact (proj1 H).
Defined.

Lemma import_detached_tab_correct_witness :
  ∃ s s' imported, AppShell.new sh_launch = Some s ∧
    AppShell.import_detached_tab (mkDetached three_pane_tab 0) 5 s = Ok imported s' ∧
    imported_tab_id imported = TabId_new 2 ∧ shell_inv true s'.
Proof.
  destruct new_shell as (s & Hs & Hinv & _). exists s.
  assert (Ht : tab_inv true three_pane_tab).
  { split; [split; [done|split; [by intros x|done]]|]. intros _ x.
    unfold split_sources, tab_pane_ids. simpl. rewrite !elem_of_cons. tauto. }
  assert (Hnd : NoDup (tab_pane_ids three_pane_tab))
    by (by apply (bool_decide_unpack _); vm_compute).
  pose proof (import_detached_tab_correct true (mkDetached three_pane_tab 0) 5 s Hinv Ht Hnd) as H.
  injection Hs as <-. eexists _, _. split; [reflexivity|]. split; [vm_compute; reflexivity|].
  split; [reflexivity|]. exact (proj1 H).
Defined.

Lemma open_pending_window_safe_witness :
  ∃ s s1 p s2, AppShell.new sh_launch = Some s ∧
    AppShell.apply_action (SpawnWindow None) s = Ok () s1 ∧
    AppShell.take_next_pending_window s1 = (Some p, s2) ∧
    shell_inv true (AppShell.from_pending_window p).
Proof.
  destruct new_shell as (s & Hs & Hinv & Hlen). exists s.
  assert (HB : (Z.of_nat (length (workspaces s) + creations (SpawnWindow None)) < u128_modulus)%Z)
    by (by rewrite Hlen).
  pose proof (apply_action_spec true (SpawnWindow None) _ (λ _, eq_refl) HB s
    (proj1 (shell_inv_sinv _ _) Hinv)) as H1.
  injection Hs as <-. eexists _, _, _. split; [reflexivity|]. split; [reflexivity|].
  split; [reflexivity|]. apply sinv_shell_inv in H1.
  by apply (open_pending_window_safe true _ H1).
Defined.

Lemma preserve_split_layout_safe_witness :
  ∃ s, AppShell.new sh_launch = Some s ∧
    match AppShell.preserve_split_layout_for_resize 80 24 120 40 s with
    | Ok _ s' => shell_inv true s'
    | Err _ _ | Panic => False
    end.
Proof.
  destruct new_shell as (s & Hs & Hinv & _). exists s. split; [done|].
  pose proof (preserve_split_layout_safe true 80 24 120 40 s Hinv) as H.
  unfold is_u16, u16_max in H. ospecialize (H _ _ _ _); [lia..|].
  destruct (AppShell.preserve_split_layout_for_resize 80 24 120 40 s); [exact (proj1 H)|done..].
Defined.

Lemma failed_action_leaves_no_trace_witness :
  ∃ s s', AppShell.new sh_launch = Some s ∧
    AppShell.apply_action (SplitPane (PaneId_new 5) SplitLeft None) s =
      Err (InvalidPane (PaneId_new 5)) s' ∧
    next_pane_id s' = 3%Z ∧ same_places s s'.
Proof.
  eexists _, _. split; [reflexivity|]. split; [vm_compute; reflexivity|]. split; [reflexivity|].
  eapply (failed_action_leaves_no_trace (SplitPane (PaneId_new 5) SplitLeft None));
    [done|vm_compute; reflexivity].
Defined.

Lemma multiple_stops_at_first_error_witness :
  ∃ s s', AppShell.new sh_launch = Some s ∧
    AppShell.apply_action (Multiple [NewTab None; MoveTab 7; NewTab None]) s =
      Err (InvalidTabIndex 7) s' ∧
    ∃ l1 a l2 s1, [NewTab None; MoveTab 7; NewTab None] = l1 ++ a :: l2 ∧
      iterM AppShell.apply_action l1 s = Ok () s1 ∧
      AppShell.apply_action a s1 = Err (InvalidTabIndex 7) s'.
Proof.
  eexists _, _. split; [reflexivity|]. split; [vm_compute; reflexivity|].
  apply multiple_stops_at_first_error. vm_compute. reflexivity.
Defined.

Lemma active_pane_has_no_unseen_output_witness :
  ∃ s s' p, AppShell.new sh_launch = Some s ∧
    AppShell.apply_action (Multiple [SetPaneHasUnseenOutput (PaneId_new 1) true; NewTab None;
      ActivateTab (TabId_new 1)]) s = Ok () s' ∧
    AppShell.active_pane s' = Some p ∧ pane_has_unseen_output p = false.
Proof.
  destruct new_shell as (s & Hs & Hinv & Hlen). exists s.
  set (a := Multiple _).
  assert (HB : (Z.of_nat (length (workspaces s) + creations a) < u128_modulus)%Z)
    by (by rewrite Hlen).
  pose proof (λ s', active_pane_has_no_unseen_output true a s s' Hinv (λ _, eq_refl) HB) as H.
  injection Hs as <-. destruct (H _ eq_refl eq_refl eq_refl) as (p & Hp & Hf).
  eexists _, p. split; [reflexivity|]. split; [vm_compute; reflexivity|]. by split.
Defined.

Lemma close_pane_then_duplicate_panics_witness :
  ∃ s s1 s', AppShell.new sh_launch = Some s ∧
    AppShell.apply_action (SplitPane (PaneId_new 1) SplitRight None) s = Ok () s1 ∧
    AppShell.apply_action (ClosePane (PaneId_new 1)) s1 = Ok () s' ∧
    AppShell.tab_reconnect_snapshot (TabId_new 1) s' = Panic ∧
    AppShell.duplicate_tab (TabId_new 1) s' = Panic.
Proof.
  destruct new_shell as (s & Hs & Hinv & Hlen). exists s.
  set (a := SplitPane (PaneId_new 1) SplitRight None).
  assert (HB : (Z.of_nat (length (workspaces s) + creations a) < u128_modulus)%Z)
    by (by rewrite Hlen).
  pose proof (apply_action_spec true a _ (λ _, eq_refl) HB s
    (proj1 (shell_inv_sinv _ _) Hinv)) as H1.
  injection Hs as <-. unfold triple in H1.
  destruct (AppShell.apply_action a _) as [[] s1|e s1|] eqn:Hrun; [|discriminate Hrun..].
  apply sinv_shell_inv in H1. pose proof Hrun as Hs1. vm_compute in Hs1. injection Hs1 as Hs1.
  exists s1. subst s1.
  destruct (close_pane_then_duplicate_panics _ _ _ _ _ H1
    ltac:(reflexivity) ltac:(reflexivity) ltac:(reflexivity) ltac:(left) ltac:(right; left)
    ltac:(reflexivity) ltac:(discriminate)) as (s' & Hclose & Hsnap & Hdup).
  exists s'. by split_and!.
Defined.

Lemma random_workspace_name_terminates_witness :
  ∃ s n, AppShell.new sh_launch = Some s ∧ AppShell.random_workspace_name s = Some n ∧
    n ∉ (ws_name <$> workspaces s).
Proof.
  destruct new_shell as (s & Hs & _ & Hlen). exists s.
  destruct (random_workspace_name_terminates s) as (n & Hn & Hin & _); [by rewrite Hlen|].
  exists n. by split_and!.
Defined.
