(* ===== verification/Session.v ===== *)
(** Session lifecycle ([rssh-domain/src/session.rs]): the five states of a
    session, its guarded transitions, and what any sequence of calls can
    reach. *)
From S2P Require Import Prelude Text.

Inductive SessionState := Created | Connecting | Connected | Disconnected | Closed.

#[export] Instance SessionState_eq_dec : EqDecision SessionState.
Proof. solve_decision. Defined.

Record SessionId := SessionId_new { SessionId_get : Z }.

Record SessionTransitionError := mkTransitionError {
  error_from : SessionState;
  error_to : SessionState;
}.

Record SessionLifecycle := mkLifecycle {
  session_id : SessionId;
  session_state : SessionState;
}.

Abbreviation SessionM := (M SessionTransitionError SessionLifecycle).

Module SessionState.

Definition as_str (s : SessionState) : rstring :=
  match s with
  | Created => lit "created"
  | Connecting => lit "connecting"
  | Connected => lit "connected"
  | Disconnected => lit "disconnected"
  | Closed => lit "closed"
  end.

End SessionState.

Definition valid_transition (from to : SessionState) : bool :=
  match from, to with
  | (Created | Disconnected), Connecting => true
  | (Created | Connecting | Connected | Disconnected), Closed => true
  | Connecting, (Connected | Disconnected) => true
  | Connected, Disconnected => true
  | _, _ => false
  end.

Module SessionLifecycle.

Definition new (id : SessionId) : SessionLifecycle := mkLifecycle id Created.

Definition transition (next : SessionState) : SessionM () :=
  s ← get_state;
  if negb (valid_transition (session_state s) next)
  then throw (mkTransitionError (session_state s) next)
  else modify (λ s, mkLifecycle (session_id s) next).

Definition start_connecting : SessionM () := transition Connecting.
Definition mark_connected : SessionM () := transition Connected.
Definition mark_disconnected : SessionM () := transition Disconnected.
Definition close : SessionM () := transition Closed.

End SessionLifecycle.

(** One call of a public method, as a client can make it. *)
Inductive session_call :=
| CallStartConnecting
| CallMarkConnected
| CallMarkDisconnected
| CallClose.

Definition run_call (c : session_call) : SessionM () :=
  match c with
  | CallStartConnecting => SessionLifecycle.start_connecting
  | CallMarkConnected => SessionLifecycle.mark_connected
  | CallMarkDisconnected => SessionLifecycle.mark_disconnected
  | CallClose => SessionLifecycle.close
  end.

(** The state left by a call, whether it succeeded or not. *)
Definition after_call (c : session_call) (s : SessionLifecycle) : SessionLifecycle :=
  match run_call c s with Ok _ s' | Err _ s' => s' | Panic => s end.

Definition after_calls (cs : list session_call) (s : SessionLifecycle) : SessionLifecycle :=
  foldl (λ s c, after_call c s) s cs.

Lemma transition_spec next s :
  SessionLifecycle.transition next s =
    if valid_transition (session_state s) next
    then Ok () (mkLifecycle (session_id s) next)
    else Err (mkTransitionError (session_state s) next) s.
Proof.
  unfold SessionLifecycle.transition. exec_unfold. by destruct (valid_transition _ _).
Qed.

(** The state a call asks for. *)
Definition call_target (c : session_call) : SessionState :=
  match c with
  | CallStartConnecting => Connecting
  | CallMarkConnected => Connected
  | CallMarkDisconnected => Disconnected
  | CallClose => Closed
  end.

Lemma run_call_spec c s :
  run_call c s =
    if valid_transition (session_state s) (call_target c)
    then Ok () (mkLifecycle (session_id s) (call_target c))
    else Err (mkTransitionError (session_state s) (call_target c)) s.
Proof. destruct c; apply transition_spec. Qed.

Lemma after_call_spec c s :
  after_call c s =
    if valid_transition (session_state s) (call_target c)
    then mkLifecycle (session_id s) (call_target c) else s.
Proof. unfold after_call. rewrite run_call_spec. by destruct (valid_transition _ _). Qed.

Lemma closed_rejects c s :
  session_state s = Closed → valid_transition (session_state s) (call_target c) = false.
Proof. intros ->. by destruct c. Qed.

(** [Closed] is terminal: once a session is closed, every call fails
    with an error naming [Closed] as its origin and leaves the session
    unchanged, and no sequence of calls reaches another state. *)
Theorem closed_session_is_terminal s cs :
  session_state s = Closed →
  after_calls cs s = s ∧
  ∀ c, ∃ e, run_call c s = Err e s ∧ error_from e = Closed.
Proof.
  intros Hs. split.
  - induction cs as [|c cs IH]; [done|]. cbn. by rewrite after_call_spec, closed_rejects.
  - intros c. eexists. by rewrite run_call_spec, closed_rejects.
Qed.

Lemma closed_session_is_terminal_witness :
  let s := after_calls [CallStartConnecting; CallClose] (SessionLifecycle.new (SessionId_new 4)) in
  session_state s = Closed ∧ after_calls [CallStartConnecting; CallMarkConnected] s = s.
Proof. split; [reflexivity|]. by apply closed_session_is_terminal. Defined.

Lemma after_call_id c s : session_id (after_call c s) = session_id s.
Proof. rewrite after_call_spec. by destruct (valid_transition _ _). Qed.

Lemma after_calls_snoc cs c s : after_calls (cs ++ [c]) s = after_call c (after_calls cs s).
Proof. unfold after_calls. by rewrite foldl_app. Qed.

Lemma prefix_snoc_inv {A} (l k : list A) x :
  l `prefix_of` k ++ [x] → l = k ++ [x] ∨ l `prefix_of` k.
Proof.
  intros [r Hr]. destruct r as [|y r _] using rev_ind; [left; by rewrite app_nil_r in Hr|].
  right. rewrite app_assoc in Hr. apply app_inj_tail in Hr as [-> _]. by exists r.
Qed.

(** A connected session was connecting: whatever calls were made since
    its creation, a session that is [Connected] got there from [Connecting]
    (it never skips the handshake, not even when it reconnects), and its
    identifier never changes. *)
Theorem connected_was_connecting id cs :
  session_state (after_calls cs (SessionLifecycle.new id)) = Connected →
  session_id (after_calls cs (SessionLifecycle.new id)) = id ∧
  ∃ cs1 c cs2, cs = cs1 ++ c :: cs2 ∧
    session_state (after_calls cs1 (SessionLifecycle.new id)) = Connecting ∧
    ∀ cs3, cs3 `prefix_of` cs2 →
      session_state (after_calls (cs1 ++ c :: cs3) (SessionLifecycle.new id)) = Connected.
Proof.
  intros Hc. split.
  { clear Hc. induction cs as [|c cs IH] using rev_ind; [done|].
    by rewrite after_calls_snoc, after_call_id. }
  induction cs as [|c cs IH] using rev_ind; [done|]. rewrite after_calls_snoc in Hc.
  destruct (decide (session_state (after_calls cs (SessionLifecycle.new id)) = Connected))
    as [Hprev|Hprev].
  - destruct (IH Hprev) as (cs1 & c1 & cs2 & Hcs & Hconn & Hpre).
    exists cs1, c1, (cs2 ++ [c]). split_and!; [by rewrite Hcs, <- app_assoc|done|].
    intros cs3 [->|H3]%prefix_snoc_inv; [|auto].
    assert (cs1 ++ c1 :: cs2 ++ [c] = cs ++ [c]) as ->
      by (by rewrite Hcs, <- app_assoc).
    by rewrite after_calls_snoc.
  - exists cs, c, []. split_and!; [done| |].
    + rewrite after_call_spec in Hc. destruct (valid_transition _ _) eqn:Hv; [|done].
      simpl in Hc. rewrite Hc in Hv. by destruct (session_state _).
    + intros cs3 ->%prefix_nil_inv. by rewrite after_calls_snoc.
Qed.

Lemma connected_was_connecting_witness :
  ∃ cs1 c cs2,
    [CallMarkConnected; CallStartConnecting; CallMarkConnected; CallStartConnecting] =
      cs1 ++ c :: cs2 ∧
    session_state (after_calls cs1 (SessionLifecycle.new (SessionId_new 1))) = Connecting.
Proof.
  destruct (connected_was_connecting (SessionId_new 1)
    [CallMarkConnected; CallStartConnecting; CallMarkConnected; CallStartConnecting] eq_refl)
    as (_ & cs1 & c & cs2 & Hcs & Hconn & _).
  by exists cs1, c, cs2.
Defined.
