(* ===== verification/Mailbox.v ===== *)
(** The byte-budgeted bounded mailbox of the runtime
    ([rssh-runtime/src/mailbox.rs]).

    Every critical section of the mutex is one function on the guarded
    [State]; it also returns the notifications its thread sends after it
    unlocked. The blocking calls are cut at their waits: an [_enter] function
    up to the first wait, and a loop function for one wake-up. Waiting
    threads, notifications in flight and the clock live in [System]. *)
From S2P Require Import Prelude.

Definition duration_max : Z := 2 ^ 64 * 10 ^ 9 - 1.

(** What the queue reserves for an item: a [usize], 64 bits here. *)
Class MailboxItem (T : Type) := {
  retained_bytes : T → Z;
  retained_bytes_usize : ∀ x, is_u64 (retained_bytes x);
}.

Record MailboxLimits := mkLimits { max_items : Z; max_bytes : Z }.

Inductive MailboxLimitsError := ZeroItems | ZeroBytes.

Module MailboxLimits.

Definition try_new (items bytes : Z) : MailboxLimitsError + MailboxLimits :=
  if bool_decide (items = 0%Z) then inl ZeroItems
  else if bool_decide (bytes = 0%Z) then inl ZeroBytes
  else inr (mkLimits items bytes).

End MailboxLimits.

Inductive TryRecvError := TryRecvEmpty | TryRecvClosed.
Inductive RecvError := RecvClosed.
Inductive RecvTimeoutError := RecvTimeoutElapsed | RecvTimeoutClosed.

Record Counters := mkCounters {
  high_water_items : Z;
  high_water_bytes : Z;
  enqueued_items : Z;
  enqueued_bytes : Z;
  dequeued_items : Z;
  dequeued_bytes : Z;
  discarded_items : Z;
  discarded_bytes : Z;
  full_rejections : Z;
  oversize_rejections : Z;
  closed_rejections : Z;
  blocked_sends : Z;
  send_blocked_duration : Z;
}.

(** What a thread does with the condition variables after unlocking:
    [not_empty.notify_one()], [not_empty.notify_all()],
    [space_available.notify_all()]. *)
Inductive notification := NotEmptyOne | NotEmptyAll | SpaceAll.

Section mailbox.
  Context {T : Type} `{MailboxItem T}.

Inductive TrySendError :=
| TrySendClosed (item : T)
| TrySendOversize (item : T) (item_bytes max : Z)
| TrySendFull (item : T) (item_bytes : Z).

Inductive SendError :=
| SendClosed (item : T)
| SendOversize (item : T) (item_bytes max : Z).

Record Entry := mkEntry { value : T; reserved_bytes : Z }.

Record State := mkState {
  queue : list Entry;
  queued_bytes : Z;
  accepting : bool;
  sender_count : Z;
  consumer_alive : bool;
  waiting_producers : Z;
  consumer_waiting : bool;
  counters : Counters;
}.

(** ** Field updates *)

Definition set_counters (c : Counters) (s : State) : State :=
  mkState (queue s) (queued_bytes s) (accepting s) (sender_count s) (consumer_alive s)
    (waiting_producers s) (consumer_waiting s) c.
Definition set_accepting (b : bool) (s : State) : State :=
  mkState (queue s) (queued_bytes s) b (sender_count s) (consumer_alive s)
    (waiting_producers s) (consumer_waiting s) (counters s).
Definition set_sender_count (n : Z) (s : State) : State :=
  mkState (queue s) (queued_bytes s) (accepting s) n (consumer_alive s)
    (waiting_producers s) (consumer_waiting s) (counters s).
Definition set_waiting_producers (n : Z) (s : State) : State :=
  mkState (queue s) (queued_bytes s) (accepting s) (sender_count s) (consumer_alive s)
    n (consumer_waiting s) (counters s).
Definition set_consumer_waiting (b : bool) (s : State) : State :=
  mkState (queue s) (queued_bytes s) (accepting s) (sender_count s) (consumer_alive s)
    (waiting_producers s) b (counters s).

(** [saturating_add(1)] on one of the rejection counters. *)
Definition count_full (c : Counters) : Counters :=
  mkCounters (high_water_items c) (high_water_bytes c) (enqueued_items c) (enqueued_bytes c)
    (dequeued_items c) (dequeued_bytes c) (discarded_items c) (discarded_bytes c)
    (sat_add_u64 (full_rejections c) 1) (oversize_rejections c) (closed_rejections c)
    (blocked_sends c) (send_blocked_duration c).
Definition count_oversize (c : Counters) : Counters :=
  mkCounters (high_water_items c) (high_water_bytes c) (enqueued_items c) (enqueued_bytes c)
    (dequeued_items c) (dequeued_bytes c) (discarded_items c) (discarded_bytes c)
    (full_rejections c) (sat_add_u64 (oversize_rejections c) 1) (closed_rejections c)
    (blocked_sends c) (send_blocked_duration c).
Definition count_closed (c : Counters) : Counters :=
  mkCounters (high_water_items c) (high_water_bytes c) (enqueued_items c) (enqueued_bytes c)
    (dequeued_items c) (dequeued_bytes c) (discarded_items c) (discarded_bytes c)
    (full_rejections c) (oversize_rejections c) (sat_add_u64 (closed_rejections c) 1)
    (blocked_sends c) (send_blocked_duration c).
Definition count_blocked (c : Counters) : Counters :=
  mkCounters (high_water_items c) (high_water_bytes c) (enqueued_items c) (enqueued_bytes c)
    (dequeued_items c) (dequeued_bytes c) (discarded_items c) (discarded_bytes c)
    (full_rejections c) (oversize_rejections c) (closed_rejections c)
    (sat_add_u64 (blocked_sends c) 1) (send_blocked_duration c).
Definition add_blocked_duration (d : Z) (c : Counters) : Counters :=
  mkCounters (high_water_items c) (high_water_bytes c) (enqueued_items c) (enqueued_bytes c)
    (dequeued_items c) (dequeued_bytes c) (discarded_items c) (discarded_bytes c)
    (full_rejections c) (oversize_rejections c) (closed_rejections c)
    (blocked_sends c) (Z.min (send_blocked_duration c + d) duration_max).

Definition queue_len (s : State) : Z := Z.of_nat (length (queue s)).

(** ** The queue *)

Definition bounded_mailbox : State :=
  mkState [] 0 true 1 true 0 false (mkCounters 0 0 0 0 0 0 0 0 0 0 0 0 0).

(** [checked_add] overflows a [usize] only above [u64_max]. *)
Definition admission_bytes (s : State) (lim : MailboxLimits) (item_bytes : Z) : option Z :=
  if bool_decide (max_items lim ≤ queue_len s)%Z then None
  else
    let next := (queued_bytes s + item_bytes)%Z in
    if bool_decide (u64_max < next)%Z then None
    else if bool_decide (next ≤ max_bytes lim)%Z then Some next else None.

Definition enqueue (item : T) (item_bytes next_bytes : Z) (s : State) : State :=
  let q := queue s ++ [mkEntry item item_bytes] in
  let c := counters s in
  mkState q next_bytes (accepting s) (sender_count s) (consumer_alive s)
    (waiting_producers s) (consumer_waiting s)
    (mkCounters (Z.max (high_water_items c) (Z.of_nat (length q)))
       (Z.max (high_water_bytes c) next_bytes)
       (sat_add_u64 (enqueued_items c) 1) (sat_add_u64 (enqueued_bytes c) item_bytes)
       (dequeued_items c) (dequeued_bytes c) (discarded_items c) (discarded_bytes c)
       (full_rejections c) (oversize_rejections c) (closed_rejections c)
       (blocked_sends c) (send_blocked_duration c)).

Definition dequeue (s : State) : option (Entry * State) :=
  match queue s with
  | [] => None
  | entry :: q =>
      let c := counters s in
      Some (entry,
        mkState q (Z.max (queued_bytes s - reserved_bytes entry) 0) (accepting s)
          (sender_count s) (consumer_alive s) (waiting_producers s) (consumer_waiting s)
          (mkCounters (high_water_items c) (high_water_bytes c) (enqueued_items c)
             (enqueued_bytes c) (sat_add_u64 (dequeued_items c) 1)
             (sat_add_u64 (dequeued_bytes c) (reserved_bytes entry))
             (discarded_items c) (discarded_bytes c) (full_rejections c)
             (oversize_rejections c) (closed_rejections c) (blocked_sends c)
             (send_blocked_duration c)))
  end.

(** [elapsed()] is the time [now] since the send blocked. *)
Definition finish_blocked_send (blocked_since : option Z) (now : Z) (s : State) : State :=
  match blocked_since with
  | Some since =>
      set_counters (add_blocked_duration (Z.max (now - since) 0) (counters s))
        (set_waiting_producers (Z.max (waiting_producers s - 1) 0) s)
  | None => s
  end.

(** ** Sending *)

Definition try_send (lim : MailboxLimits) (item : T) (s : State) :
    (TrySendError + ()) * State * list notification :=
  let item_bytes := retained_bytes item in
  if negb (accepting s) || negb (consumer_alive s)
  then (inl (TrySendClosed item), set_counters (count_closed (counters s)) s, [])
  else if bool_decide (max_bytes lim < item_bytes)%Z
  then (inl (TrySendOversize item item_bytes (max_bytes lim)),
        set_counters (count_oversize (counters s)) s, [])
  else match admission_bytes s lim item_bytes with
       | None => (inl (TrySendFull item item_bytes), set_counters (count_full (counters s)) s, [])
       | Some next_bytes => (inr (), enqueue item item_bytes next_bytes s, [NotEmptyOne])
       end.

(** Where a pass through the loop of [send] ends. *)
Inductive send_outcome :=
| SendReturned (r : SendError + ())
| SendWaits (since : Z).

Definition send_loop (lim : MailboxLimits) (item : T) (blocked_since : option Z) (now : Z)
    (s : State) : send_outcome * State * list notification :=
  let item_bytes := retained_bytes item in
  if negb (accepting s) || negb (consumer_alive s)
  then let s := finish_blocked_send blocked_since now s in
       (SendReturned (inl (SendClosed item)), set_counters (count_closed (counters s)) s, [])
  else match admission_bytes s lim item_bytes with
       | Some next_bytes =>
           let s := finish_blocked_send blocked_since now s in
           (SendReturned (inr ()), enqueue item item_bytes next_bytes s, [NotEmptyOne])
       | None =>
           match blocked_since with
           | None =>
               (SendWaits now,
                set_counters (count_blocked (counters s))
                  (set_waiting_producers (sat_add_u64 (waiting_producers s) 1) s), [])
           | Some since => (SendWaits since, s, [])
           end
       end.

Definition send_enter (lim : MailboxLimits) (item : T) (now : Z) (s : State) :
    send_outcome * State * list notification :=
  let item_bytes := retained_bytes item in
  if negb (accepting s) || negb (consumer_alive s)
  then (SendReturned (inl (SendClosed item)), set_counters (count_closed (counters s)) s, [])
  else if bool_decide (max_bytes lim < item_bytes)%Z
  then (SendReturned (inl (SendOversize item item_bytes (max_bytes lim))),
        set_counters (count_oversize (counters s)) s, [])
  else send_loop lim item None now s.

(** ** Receiving *)

Definition try_recv (s : State) : (TryRecvError + T) * State * list notification :=
  match dequeue s with
  | Some (entry, s') => (inr (value entry), s', [SpaceAll])
  | None => if accepting s then (inl TryRecvEmpty, s, []) else (inl TryRecvClosed, s, [])
  end.

Inductive recv_outcome (E : Type) :=
| RecvReturned (r : E + T)
| RecvWaits.
Arguments RecvReturned {E} r.
Arguments RecvWaits {E}.

(** One check of the [while] of [recv], and the code after it. *)
Definition recv_loop (s : State) : recv_outcome RecvError * State * list notification :=
  if bool_decide (length (queue s) = 0) && accepting s
  then (RecvWaits, set_consumer_waiting true s, [])
  else
    let s := set_consumer_waiting false s in
    match dequeue s with
    | Some (entry, s') => (RecvReturned (inr (value entry)), s', [SpaceAll])
    | None => (RecvReturned (inl RecvClosed), s, [])
    end.

Definition recv_timeout_loop (deadline now : Z) (s : State) :
    recv_outcome RecvTimeoutError * State * list notification :=
  match dequeue s with
  | Some (entry, s') =>
      (RecvReturned (inr (value entry)), set_consumer_waiting false s', [SpaceAll])
  | None =>
      if negb (accepting s)
      then (RecvReturned (inl RecvTimeoutClosed), set_consumer_waiting false s, [])
      else if bool_decide (deadline ≤ now)%Z
      then (RecvReturned (inl RecvTimeoutElapsed), set_consumer_waiting false s, [])
      else (RecvWaits, set_consumer_waiting true s, [])
  end.

(** After [wait_timeout], which also reports whether it timed out. *)
Definition recv_timeout_wake (deadline : Z) (timed_out : bool) (now : Z) (s : State) :
    recv_outcome RecvTimeoutError * State * list notification :=
  if timed_out && bool_decide (length (queue s) = 0) && accepting s
  then (RecvReturned (inl RecvTimeoutElapsed), set_consumer_waiting false s, [])
  else recv_timeout_loop deadline now s.

(** ** Closing, cloning and dropping *)

Definition close (s : State) : bool * State * list notification :=
  (accepting s, set_accepting false s, if accepting s then [NotEmptyAll; SpaceAll] else []).

Definition clone_sender (s : State) : State :=
  set_sender_count (sat_add_u64 (sender_count s) 1) s.

Definition drop_sender (s : State) : State * list notification :=
  let s := set_sender_count (Z.max (sender_count s - 1) 0) s in
  if bool_decide (sender_count s = 0%Z) && accepting s
  then (set_accepting false s, [NotEmptyAll; SpaceAll])
  else (s, []).

(** Also returns the entries it discards. *)
Definition drop_receiver (s : State) : list Entry * State * list notification :=
  let c := counters s in
  (queue s,
   mkState [] 0 false (sender_count s) false (waiting_producers s) false
     (mkCounters (high_water_items c) (high_water_bytes c) (enqueued_items c)
        (enqueued_bytes c) (dequeued_items c) (dequeued_bytes c)
        (sat_add_u64 (discarded_items c) (queue_len s))
        (sat_add_u64 (discarded_bytes c) (queued_bytes s)) (full_rejections c)
        (oversize_rejections c) (closed_rejections c) (blocked_sends c)
        (send_blocked_duration c)),
   [NotEmptyAll; SpaceAll]).

End mailbox.

Arguments TrySendError T : clear implicits.
Arguments SendError T : clear implicits.
Arguments Entry T : clear implicits.
Arguments State T : clear implicits.
Arguments send_outcome T : clear implicits.
Arguments recv_outcome T E : clear implicits.
Arguments RecvReturned {T E} r.
Arguments RecvWaits {T E}.
