(* ===== verification/MailboxSystem.v ===== *)
(** The mailbox as a concurrent system: producers blocked in [send], the
    consumer blocked in [recv] or [recv_timeout], notifications sent and not
    yet delivered, and the logs of accepted, delivered and discarded items.
    A step is one critical section of the mutex by one thread, the delivery
    of one notification, a spurious wake-up, or the passing of time. *)
From stdpp Require Import relations.
From S2P Require Import Prelude Mailbox.

Section system.
  Context {T : Type} `{MailboxItem T}.
  Context (lim : MailboxLimits).
  Implicit Types (s : State T) (item : T).

(** A thread waiting on [space_available] inside [send]. *)
Record Producer := mkProducer {
  p_item : T;
  p_since : Z;
  p_notified : bool;
}.

(** The single consumer: outside its blocking calls, or waiting on
    [not_empty], in [recv] or in [recv_timeout] with its deadline. *)
Inductive Consumer :=
| ConsumerIdle
| ConsumerRecv (notified : bool)
| ConsumerRecvTimeout (deadline : Z) (notified : bool).

Record System := mkSystem {
  sys_state : State T;
  sys_producers : list Producer;
  sys_consumer : Consumer;
  sys_pending : list notification;
  sys_now : Z;
  sys_accepted : list T;
  sys_delivered : list T;
  sys_discarded : list T;
}.

Definition init_system : System :=
  mkSystem bounded_mailbox [] ConsumerIdle [] 0 [] [] [].

Definition notify_producer (p : Producer) : Producer := mkProducer (p_item p) (p_since p) true.

Definition notify_consumer (c : Consumer) : Consumer :=
  match c with
  | ConsumerIdle => ConsumerIdle
  | ConsumerRecv _ => ConsumerRecv true
  | ConsumerRecvTimeout d _ => ConsumerRecvTimeout d true
  end.

Definition deliver (n : notification) (sys : System) : System :=
  match n with
  | SpaceAll =>
      mkSystem (sys_state sys) (notify_producer <$> sys_producers sys) (sys_consumer sys)
        (sys_pending sys) (sys_now sys) (sys_accepted sys) (sys_delivered sys) (sys_discarded sys)
  | NotEmptyOne | NotEmptyAll =>
      mkSystem (sys_state sys) (sys_producers sys) (notify_consumer (sys_consumer sys))
        (sys_pending sys) (sys_now sys) (sys_accepted sys) (sys_delivered sys) (sys_discarded sys)
  end.

Definition set_pending (ns : list notification) (sys : System) : System :=
  mkSystem (sys_state sys) (sys_producers sys) (sys_consumer sys) ns (sys_now sys)
    (sys_accepted sys) (sys_delivered sys) (sys_discarded sys).

(** The system after a critical section that left [s], started [ns] and
    accepted, delivered or discarded the given items. *)
Definition update (s : State T) (ps : list Producer) (c : Consumer) (ns : list notification)
    (acc del dis : list T) (sys : System) : System :=
  mkSystem s ps c (sys_pending sys ++ ns) (sys_now sys) (sys_accepted sys ++ acc)
    (sys_delivered sys ++ del) (sys_discarded sys ++ dis).

Definition accepted_by {E} (r : E + ()) (item : T) : list T :=
  match r with inl _ => [] | inr _ => [item] end.
Definition delivered_by {E} (r : E + T) : list T :=
  match r with inl _ => [] | inr x => [x] end.

(** The end of a pass through [send]'s loop by a producer that waited as [p]
    (the producers around it are [l1] and [l2]). *)
Definition after_send (item : T) (o : send_outcome T) (l1 l2 : list Producer) : list Producer :=
  match o with
  | SendReturned _ => l1 ++ l2
  | SendWaits since => l1 ++ mkProducer item since false :: l2
  end.
Definition sent_items (item : T) (o : send_outcome T) : list T :=
  match o with SendReturned r => accepted_by r item | SendWaits _ => [] end.
Definition received_items {E} (o : recv_outcome T E) : list T :=
  match o with RecvReturned r => delivered_by r | RecvWaits => [] end.

Inductive step : System → System → Prop :=
| step_tick sys now :
    (sys_now sys ≤ now)%Z →
    step sys (mkSystem (sys_state sys) (sys_producers sys) (sys_consumer sys) (sys_pending sys)
      now (sys_accepted sys) (sys_delivered sys) (sys_discarded sys))
| step_deliver sys ns1 n ns2 :
    sys_pending sys = ns1 ++ n :: ns2 →
    step sys (deliver n (set_pending (ns1 ++ ns2) sys))
| step_spurious_producer sys l1 p l2 :
    sys_producers sys = l1 ++ p :: l2 →
    step sys (update (sys_state sys) (l1 ++ notify_producer p :: l2) (sys_consumer sys) [] [] [] []
      sys)
| step_spurious_consumer sys :
    step sys (update (sys_state sys) (sys_producers sys) (notify_consumer (sys_consumer sys)) []
      [] [] [] sys)
| step_try_send sys item r s' ns :
    try_send lim item (sys_state sys) = (r, s', ns) →
    step sys (update s' (sys_producers sys) (sys_consumer sys) ns (accepted_by r item) [] [] sys)
| step_send_enter sys item o s' ns :
    (** fewer than 2^64 threads wait at a time *)
    (Z.of_nat (length (sys_producers sys)) < u64_max)%Z →
    send_enter lim item (sys_now sys) (sys_state sys) = (o, s', ns) →
    step sys (update s' (after_send item o (sys_producers sys) []) (sys_consumer sys) ns
      (sent_items item o) [] [] sys)
| step_send_wake sys l1 p l2 o s' ns :
    sys_producers sys = l1 ++ p :: l2 → p_notified p = true →
    send_loop lim (p_item p) (Some (p_since p)) (sys_now sys) (sys_state sys) = (o, s', ns) →
    step sys (update s' (after_send (p_item p) o l1 l2) (sys_consumer sys) ns
      (sent_items (p_item p) o) [] [] sys)
| step_try_recv sys r s' ns :
    sys_consumer sys = ConsumerIdle → consumer_alive (sys_state sys) = true →
    try_recv (sys_state sys) = (r, s', ns) →
    step sys (update s' (sys_producers sys) ConsumerIdle ns [] (delivered_by r) [] sys)
| step_recv sys c o s' ns :
    c = ConsumerIdle ∨ c = ConsumerRecv true →
    sys_consumer sys = c → consumer_alive (sys_state sys) = true →
    recv_loop (sys_state sys) = (o, s', ns) →
    step sys (update s' (sys_producers sys)
      (match o with RecvReturned _ => ConsumerIdle | RecvWaits => ConsumerRecv false end)
      ns [] (received_items o) [] sys)
| step_recv_timeout sys deadline o s' ns :
    sys_consumer sys = ConsumerIdle → consumer_alive (sys_state sys) = true →
    recv_timeout_loop deadline (sys_now sys) (sys_state sys) = (o, s', ns) →
    step sys (update s' (sys_producers sys)
      (match o with RecvReturned _ => ConsumerIdle | RecvWaits => ConsumerRecvTimeout deadline false
       end) ns [] (received_items o) [] sys)
| step_recv_timeout_wake sys deadline notified timed_out o s' ns :
    sys_consumer sys = ConsumerRecvTimeout deadline notified →
    notified = true ∨ timed_out = true → consumer_alive (sys_state sys) = true →
    recv_timeout_wake deadline timed_out (sys_now sys) (sys_state sys) = (o, s', ns) →
    step sys (update s' (sys_producers sys)
      (match o with RecvReturned _ => ConsumerIdle | RecvWaits => ConsumerRecvTimeout deadline false
       end) ns [] (received_items o) [] sys)
| step_close sys b s' ns :
    close (sys_state sys) = (b, s', ns) →
    step sys (update s' (sys_producers sys) (sys_consumer sys) ns [] [] [] sys)
| step_clone sys :
    step sys (update (clone_sender (sys_state sys)) (sys_producers sys) (sys_consumer sys) []
      [] [] [] sys)
| step_drop_sender sys s' ns :
    drop_sender (sys_state sys) = (s', ns) →
    step sys (update s' (sys_producers sys) (sys_consumer sys) ns [] [] [] sys)
| step_drop_receiver sys q s' ns :
    sys_consumer sys = ConsumerIdle → consumer_alive (sys_state sys) = true →
    drop_receiver (sys_state sys) = (q, s', ns) →
    step sys (update s' (sys_producers sys) ConsumerIdle ns [] [] (value <$> q) sys).

Definition reachable (sys : System) : Prop := rtc step init_system sys.

(** ** The invariant *)

Definition bytes_of (l : list T) : Z := foldr (λ x n, retained_bytes x + n)%Z 0%Z l.

(** The guarded state: the queue within its limits and its accounting. *)
Record queue_inv (s : State T) : Prop := {
  qi_reserved : Forall (λ e, reserved_bytes e = retained_bytes (value e)) (queue s);
  qi_bytes : queued_bytes s = bytes_of (value <$> queue s);
  qi_items_limit : (queue_len s ≤ max_items lim)%Z;
  qi_bytes_limit : (queued_bytes s ≤ max_bytes lim)%Z;
  qi_high_items : (queue_len s ≤ high_water_items (counters s) ≤ max_items lim)%Z;
  qi_high_bytes : (queued_bytes s ≤ high_water_bytes (counters s) ≤ max_bytes lim)%Z;
  qi_dead : consumer_alive s = false → accepting s = false ∧ queue s = [];
}.

(** The logs (accepted, delivered, discarded) and the cumulative counters,
    which saturate. *)
Record log_inv (s : State T) (acc del dis : list T) : Prop := {
  li_fifo : acc = del ++ dis ++ (value <$> queue s);
  li_discarded : consumer_alive s = true → dis = [];
  li_enqueued : enqueued_items (counters s) = Z.min (Z.of_nat (length acc)) u64_max;
  li_enqueued_bytes : enqueued_bytes (counters s) = Z.min (bytes_of acc) u64_max;
  li_dequeued : dequeued_items (counters s) = Z.min (Z.of_nat (length del)) u64_max;
  li_dequeued_bytes : dequeued_bytes (counters s) = Z.min (bytes_of del) u64_max;
  li_discarded_items : discarded_items (counters s) = Z.min (Z.of_nat (length dis)) u64_max;
  li_discarded_bytes : discarded_bytes (counters s) = Z.min (bytes_of dis) u64_max;
}.

(** Reasons to keep waiting: for a producer with an item of [n] bytes, and
    for the consumer. *)
Definition no_space (s : State T) (n : Z) : Prop :=
  accepting s = true ∧ consumer_alive s = true ∧ admission_bytes s lim n = None.
Definition no_items (s : State T) : Prop := accepting s = true ∧ queue s = [].

Definition consumer_asleep (c : Consumer) : bool :=
  match c with
  | ConsumerIdle => false
  | ConsumerRecv notified | ConsumerRecvTimeout _ notified => negb notified
  end.

(** The waiting threads: nobody sleeps without a reason, unless the
    notification is in flight. *)
Record wait_inv (s : State T) (ps : list Producer) (c : Consumer) (ns : list notification) :
    Prop := {
  wi_producers : waiting_producers s = Z.of_nat (length ps);
  wi_consumer : consumer_waiting s = true ↔ c ≠ ConsumerIdle;
  wi_space : ∀ p, p ∈ ps → p_notified p = false → SpaceAll ∉ ns →
    no_space s (retained_bytes (p_item p));
  wi_items : consumer_asleep c = true → NotEmptyOne ∉ ns → NotEmptyAll ∉ ns → no_items s;
}.

Record sys_inv (sys : System) : Prop := {
  si_queue : queue_inv (sys_state sys);
  si_log : log_inv (sys_state sys) (sys_accepted sys) (sys_delivered sys) (sys_discarded sys);
  si_wait : wait_inv (sys_state sys) (sys_producers sys) (sys_consumer sys) (sys_pending sys);
}.

(** ** The queue *)

Lemma bytes_of_app l k : bytes_of (l ++ k) = (bytes_of l + bytes_of k)%Z.
Proof. induction l as [|x l IH]; simpl; lia. Qed.

Lemma bytes_of_nonneg l : (0 ≤ bytes_of l)%Z.
Proof.
  induction l as [|x l IH]; simpl; [lia|]. pose proof (retained_bytes_usize x) as [? _]. lia.
Qed.

(** States with the same queue, gates and accounting. *)
Definition same_core (s s' : State T) : Prop :=
  queue s' = queue s ∧ queued_bytes s' = queued_bytes s ∧ accepting s' = accepting s ∧
  consumer_alive s' = consumer_alive s ∧
  high_water_items (counters s') = high_water_items (counters s) ∧
  high_water_bytes (counters s') = high_water_bytes (counters s) ∧
  enqueued_items (counters s') = enqueued_items (counters s) ∧
  enqueued_bytes (counters s') = enqueued_bytes (counters s) ∧
  dequeued_items (counters s') = dequeued_items (counters s) ∧
  dequeued_bytes (counters s') = dequeued_bytes (counters s) ∧
  discarded_items (counters s') = discarded_items (counters s) ∧
  discarded_bytes (counters s') = discarded_bytes (counters s).

Lemma queue_inv_same s s' : same_core s s' → queue_inv s → queue_inv s'.
Proof.
  intros (Hq & Hb & Ha & Hc & Hi & Hby & _) []. unfold queue_len in *.
  split; unfold queue_len; rewrite ?Hq, ?Hb, ?Ha, ?Hc, ?Hi, ?Hby; auto.
Qed.

Lemma log_inv_same s s' acc del dis : same_core s s' → log_inv s acc del dis → log_inv s' acc del dis.
Proof.
  intros (Hq & _ & _ & Hc & _ & _ & H1 & H2 & H3 & H4 & H5 & H6) [].
  split; rewrite ?Hq, ?Hc, ?H1, ?H2, ?H3, ?H4, ?H5, ?H6; auto.
Qed.

Lemma admission_spec s n next :
  admission_bytes s lim n = Some next ↔
  (queue_len s < max_items lim ∧ next = queued_bytes s + n ∧ next ≤ u64_max ∧
   next ≤ max_bytes lim)%Z.
Proof. unfold admission_bytes. repeat case_bool_decide; naive_solver lia. Qed.

Lemma enqueue_queue_inv item next s :
  queue_inv s → consumer_alive s = true →
  admission_bytes s lim (retained_bytes item) = Some next →
  queue_inv (enqueue item (retained_bytes item) next s).
Proof.
  intros [] Hc (Hlen & -> & _ & Hmax)%admission_spec. unfold queue_len in *.
  split; simpl; unfold queue_len; simpl; rewrite ?length_app; simpl; try lia.
  - apply Forall_app. by split; [|constructor].
  - rewrite fmap_app, bytes_of_app, qi_bytes0. simpl. lia.
  - congruence.
Qed.

Lemma enqueue_log_inv item next s acc del dis :
  log_inv s acc del dis →
  log_inv (enqueue item (retained_bytes item) next s) (acc ++ [item]) del dis.
Proof.
  intros []. split; simpl; auto.
  - by rewrite fmap_app, li_fifo0, <- !app_assoc.
  - unfold sat_add_u64. rewrite li_enqueued0, length_app. simpl. lia.
  - unfold sat_add_u64. rewrite li_enqueued_bytes0, bytes_of_app. simpl.
    pose proof (retained_bytes_usize item) as [? _]. lia.
Qed.

Lemma dequeue_spec s e s' acc del dis :
  queue_inv s → log_inv s acc del dis → consumer_alive s = true → dequeue s = Some (e, s') →
  queue_inv s' ∧ log_inv s' acc (del ++ [value e]) dis ∧
  waiting_producers s' = waiting_producers s ∧ consumer_waiting s' = consumer_waiting s.
Proof.
  unfold dequeue. destruct s as [[|e0 q] qb a sc ca wp cw c]; [done|].
  intros [] [] Hc [= <- <-]. simpl in *. subst.
  assert (Hr : reserved_bytes e0 = retained_bytes (value e0)) by (by inversion qi_reserved0).
  pose proof (bytes_of_nonneg (value <$> q)). pose proof (retained_bytes_usize (value e0)) as [? _].
  unfold queue_len in *. simpl in *. rewrite Hr.
  change (list_fmap (Entry T) T value q) with (value <$> q) in *.
  split_and!; [split; simpl; unfold queue_len; simpl|split; simpl|done|done]; try lia; auto.
  - by inversion qi_reserved0.
  - rewrite (li_discarded0 eq_refl). by rewrite <- app_assoc.
  - unfold sat_add_u64. rewrite li_dequeued0, length_app. simpl. lia.
  - unfold sat_add_u64. rewrite li_dequeued_bytes0, bytes_of_app. simpl. lia.
Qed.

(** ** Waiting threads *)

(** From one critical section to the next: a thread that is asleep
    afterwards was asleep before and its reason survived, or it has a reason
    now. *)
Lemma wait_transfer s s' ps ps' c c' ns ns' :
  wait_inv s ps c ns →
  waiting_producers s' = Z.of_nat (length ps') →
  (consumer_waiting s' = true ↔ c' ≠ ConsumerIdle) →
  (∀ p, p ∈ ps' → p_notified p = false → SpaceAll ∉ ns' →
     (p ∈ ps ∧ (no_space s (retained_bytes (p_item p)) → no_space s' (retained_bytes (p_item p)))) ∨
     no_space s' (retained_bytes (p_item p))) →
  (consumer_asleep c' = true → NotEmptyOne ∉ ns' → NotEmptyAll ∉ ns' →
     (consumer_asleep c = true ∧ (no_items s → no_items s')) ∨ no_items s') →
  (∀ n, n ∈ ns → n ∈ ns') →
  wait_inv s' ps' c' ns'.
Proof.
  intros [_ _ Hspace Hitems] Hp Hc Hs Hi Hns. split; [done|done|..].
  - intros p Hin Hnot Hpend. destruct (Hs p Hin Hnot Hpend) as [[Hin' Himp]|?]; [|done].
    apply Himp, Hspace; auto.
  - intros Ha H1 H2. destruct (Hi Ha H1 H2) as [[Ha' Himp]|?]; [|done].
    apply Himp, Hitems; auto.
Qed.

Lemma no_space_same s s' n : same_core s s' → no_space s n → no_space s' n.
Proof.
  intros (Hq & Hb & Ha & Hc & _). unfold no_space, admission_bytes, queue_len.
  by rewrite Hq, Hb, Ha, Hc.
Qed.

Lemma no_items_same s s' : same_core s s' → no_items s → no_items s'.
Proof. intros (Hq & Hb & Ha & Hc & _). unfold no_items. by rewrite Hq, Ha. Qed.

(** More items in the queue leave even less space. *)
Lemma no_space_enqueue item next s n :
  admission_bytes s lim (retained_bytes item) = Some next → no_space s n →
  no_space (enqueue item (retained_bytes item) next s) n.
Proof.
  intros (Hlen & -> & _)%admission_spec (Ha & Hc & Hn). split_and!; [done|done|].
  pose proof (retained_bytes_usize item) as [? _].
  unfold admission_bytes, queue_len in *. simpl. rewrite length_app. simpl.
  repeat case_bool_decide; try done; lia.
Qed.

(** ** One critical section *)

Lemma same_core_refl s : same_core s s.
Proof. by unfold same_core. Qed.

Lemma same_core_trans s1 s2 s3 : same_core s1 s2 → same_core s2 s3 → same_core s1 s3.
Proof. unfold same_core. intros. destruct_and!. split_and!; congruence. Qed.

Lemma elem_of_pending n (ns ns' : list notification) : n ∈ ns → n ∈ ns ++ ns'.
Proof. set_solver. Qed.

(** A critical section that leaves the queue and the gates alone. *)
Lemma update_same sys s' ps' c' ns :
  sys_inv sys → same_core (sys_state sys) s' →
  waiting_producers s' = Z.of_nat (length ps') →
  (consumer_waiting s' = true ↔ c' ≠ ConsumerIdle) →
  (∀ p, p ∈ ps' → p_notified p = false →
     p ∈ sys_producers sys ∨ no_space s' (retained_bytes (p_item p))) →
  (consumer_asleep c' = true → consumer_asleep (sys_consumer sys) = true ∨ no_items s') →
  sys_inv (update s' ps' c' ns [] [] [] sys).
Proof.
  intros [Hq Hl Hw] Hs Hps Hc Hp Hi. split; simpl; rewrite ?app_nil_r.
  - by eapply queue_inv_same.
  - by eapply log_inv_same.
  - eapply wait_transfer; [exact Hw|done|done| | |by intros; apply elem_of_pending].
    + intros p Hin Hn _. destruct (Hp p Hin Hn); [left|by right].
      split; [done|]. by apply no_space_same.
    + intros Ha _ _. destruct (Hi Ha); [left|by right]. split; [done|]. by apply no_items_same.
Qed.

(** A critical section that enqueues. *)
Lemma update_enqueue sys s0 item next ps' :
  sys_inv sys → same_core (sys_state sys) s0 → consumer_alive s0 = true →
  admission_bytes s0 lim (retained_bytes item) = Some next →
  waiting_producers s0 = Z.of_nat (length ps') →
  consumer_waiting s0 = consumer_waiting (sys_state sys) →
  (∀ p, p ∈ ps' → p ∈ sys_producers sys) →
  sys_inv (update (enqueue item (retained_bytes item) next s0) ps' (sys_consumer sys)
    [NotEmptyOne] [item] [] [] sys).
Proof.
  intros [Hq Hl Hw] Hs Hc Ha Hps Hcw Hp. split; simpl; rewrite ?app_nil_r.
  - apply enqueue_queue_inv; [by eapply queue_inv_same|done|done].
  - apply enqueue_log_inv. by eapply log_inv_same.
  - eapply wait_transfer; [exact Hw|done| | | |by intros; apply elem_of_pending].
    + simpl. rewrite Hcw. apply Hw.
    + intros p Hin _ _. left. split; [auto|]. intros Hn.
      apply no_space_enqueue; [done|]. by eapply no_space_same.
    + set_solver.
Qed.

(** A critical section of the consumer that dequeues. *)
Lemma update_dequeue sys s0 e s1 s' :
  sys_inv sys → same_core (sys_state sys) s0 → consumer_alive s0 = true →
  waiting_producers s0 = waiting_producers (sys_state sys) →
  dequeue s0 = Some (e, s1) → same_core s1 s' →
  waiting_producers s' = waiting_producers s1 → consumer_waiting s' = false →
  sys_inv (update s' (sys_producers sys) ConsumerIdle [SpaceAll] [] [value e] [] sys).
Proof.
  intros [Hq Hl Hw] Hs Hc Hwp Hd Hs' Hwp' Hcw.
  destruct (dequeue_spec s0 e s1 _ _ _ (queue_inv_same _ _ Hs Hq) (log_inv_same _ _ _ _ _ Hs Hl)
    Hc Hd) as (Hq1 & Hl1 & Hwp1 & _).
  split; simpl; rewrite ?app_nil_r.
  - by eapply queue_inv_same.
  - by eapply log_inv_same.
  - eapply wait_transfer; [exact Hw| | | |done|by intros; apply elem_of_pending].
    + rewrite Hwp', Hwp1, Hwp. apply Hw.
    + rewrite Hcw. by split.
    + set_solver.
Qed.

(** A critical section that shuts the gate, or finds it shut. *)
Lemma update_shut sys s' ns :
  sys_inv sys → same_core (set_accepting false (sys_state sys)) s' →
  waiting_producers s' = waiting_producers (sys_state sys) →
  consumer_waiting s' = consumer_waiting (sys_state sys) →
  accepting (sys_state sys) = false ∨ ns = [NotEmptyAll; SpaceAll] →
  sys_inv (update s' (sys_producers sys) (sys_consumer sys) ns [] [] [] sys).
Proof.
  intros [Hq Hl Hw] Hs Hwp Hcw Hns. split; simpl; rewrite ?app_nil_r.
  - eapply queue_inv_same; [exact Hs|]. destruct Hq. split; auto. simpl. naive_solver.
  - eapply log_inv_same; [exact Hs|]. destruct Hl. by split; auto.
  - eapply wait_transfer; [exact Hw|by rewrite Hwp; apply Hw|by rewrite Hcw; apply Hw| | |
      by intros; apply elem_of_pending].
    + intros p Hin Hn Hpend. destruct Hns as [Hacc| ->]; [|set_solver]. left. split; [done|].
      intros (? & _). congruence.
    + intros Ha _ Hpend. destruct Hns as [Hacc| ->]; [|set_solver]. left. split; [done|].
      intros (? & _). congruence.
Qed.

(** ** Steps *)

Lemma finish_blocked_core since now s : same_core s (finish_blocked_send since now s).
Proof. destruct since; [|apply same_core_refl]. by unfold same_core. Qed.

Lemma count_core f s :
  (∀ c, high_water_items (f c) = high_water_items c ∧ high_water_bytes (f c) = high_water_bytes c ∧
     enqueued_items (f c) = enqueued_items c ∧ enqueued_bytes (f c) = enqueued_bytes c ∧
     dequeued_items (f c) = dequeued_items c ∧ dequeued_bytes (f c) = dequeued_bytes c ∧
     discarded_items (f c) = discarded_items c ∧ discarded_bytes (f c) = discarded_bytes c) →
  same_core s (set_counters (f (counters s)) s).
Proof. intros Hf. destruct (Hf (counters s)). destruct_and!. by split_and!. Qed.

Lemma gates_open s :
  negb (accepting s) || negb (consumer_alive s) = false →
  accepting s = true ∧ consumer_alive s = true.
Proof. by destruct (accepting s), (consumer_alive s). Qed.

(** The wake-up or first pass of a producer. [ps] are the other producers. *)
Lemma send_loop_inv sys item since l1 l2 o s' ns :
  sys_inv sys →
  (match since with
   | Some t => ∃ p, sys_producers sys = l1 ++ p :: l2
   | None => l2 = [] ∧ sys_producers sys = l1 ∧ (Z.of_nat (length l1) < u64_max)%Z
   end) →
  send_loop lim item since (sys_now sys) (sys_state sys) = (o, s', ns) →
  sys_inv (update s' (after_send item o l1 l2) (sys_consumer sys) ns (sent_items item o) [] [] sys).
Proof.
  intros Hinv Hps. pose proof Hinv as [_ _ [Hwp Hcw _ _]].
  set (st := sys_state sys) in *. unfold send_loop. fold st.
  assert (Hcount : waiting_producers (finish_blocked_send since (sys_now sys) st) =
    Z.of_nat (length (l1 ++ l2)) ∧
    (∀ p, p ∈ l1 ++ l2 → p ∈ sys_producers sys)).
  { destruct since as [t|]; simpl.
    - destruct Hps as [p Hps]. rewrite Hwp, Hps, !length_app. simpl. split; [lia|set_solver].
    - destruct Hps as (-> & Hps & _). by rewrite Hwp, Hps, app_nil_r. }
  destruct Hcount as [Hlen Hsub].
  assert (Hcw' : consumer_waiting (finish_blocked_send since (sys_now sys) st) = consumer_waiting st)
    by (by destruct since).
  destruct (negb (accepting st) || negb (consumer_alive st)) eqn:Hgate.
  { intros [= <- <- <-]. apply update_same; simpl; auto.
    - eapply same_core_trans; [apply finish_blocked_core|]. by apply count_core.
    - by rewrite Hcw'. }
  apply gates_open in Hgate as [Hacc Halive].
  destruct (admission_bytes st lim (retained_bytes item)) as [next|] eqn:Hadm.
  { intros [= <- <- <-]. simpl. apply update_enqueue; try done.
    - apply finish_blocked_core.
    - destruct since; done.
    - by destruct since. }
  destruct since as [t|]; intros [= <- <- <-]; simpl.
  - destruct Hps as [p Hps]. apply update_same; auto using same_core_refl.
    + fold st. rewrite Hwp, Hps. by rewrite !length_app.
    + intros q [Hq|[->|Hq]%elem_of_cons]%elem_of_app _.
      * left. rewrite Hps. set_solver.
      * right. by split_and!.
      * left. rewrite Hps. set_solver.
  - destruct Hps as (-> & Hps & Hbound). apply update_same; simpl; auto.
    + by unfold same_core.
    + unfold sat_add_u64. rewrite Hwp, Hps, length_app. simpl. lia.
    + intros q [Hq| ->%list_elem_of_singleton]%elem_of_app _; [left; by rewrite Hps|].
      right. by split_and!.
Qed.

(** The obligations of [update_same] for the consumer's bookkeeping. *)
Ltac same_update :=
  apply update_same; simpl; auto using same_core_refl; try (by unfold same_core); try (by split).

Lemma try_send_inv sys item r s' ns :
  sys_inv sys → try_send lim item (sys_state sys) = (r, s', ns) →
  sys_inv (update s' (sys_producers sys) (sys_consumer sys) ns (accepted_by r item) [] [] sys).
Proof.
  intros Hinv. pose proof Hinv as [_ _ [Hwp Hcw _ _]]. unfold try_send.
  destruct (negb _ || negb _) eqn:Hgate.
  { intros [= <- <- <-]. apply update_same; simpl; auto. by apply count_core. }
  apply gates_open in Hgate as [Hacc Halive]. case_bool_decide.
  { intros [= <- <- <-]. apply update_same; simpl; auto. by apply count_core. }
  destruct (admission_bytes _ _ _) as [next|] eqn:Hadm; intros [= <- <- <-].
  - apply update_enqueue; auto using same_core_refl.
  - apply update_same; simpl; auto. by apply count_core.
Qed.

Lemma send_enter_inv sys item o s' ns :
  sys_inv sys → (Z.of_nat (length (sys_producers sys)) < u64_max)%Z →
  send_enter lim item (sys_now sys) (sys_state sys) = (o, s', ns) →
  sys_inv (update s' (after_send item o (sys_producers sys) []) (sys_consumer sys) ns
    (sent_items item o) [] [] sys).
Proof.
  intros Hinv Hb. pose proof Hinv as [_ _ [Hwp Hcw _ _]]. unfold send_enter.
  destruct (negb _ || negb _) eqn:Hgate.
  { intros [= <- <- <-]. simpl. rewrite app_nil_r. apply update_same; simpl; auto.
    by apply count_core. }
  case_bool_decide.
  { intros [= <- <- <-]. simpl. rewrite app_nil_r. apply update_same; simpl; auto.
    by apply count_core. }
  by apply send_loop_inv.
Qed.

Lemma try_recv_inv sys r s' ns :
  sys_inv sys → sys_consumer sys = ConsumerIdle → consumer_alive (sys_state sys) = true →
  try_recv (sys_state sys) = (r, s', ns) →
  sys_inv (update s' (sys_producers sys) ConsumerIdle ns [] (delivered_by r) [] sys).
Proof.
  intros Hinv Hidle Halive. pose proof Hinv as [_ _ [Hwp Hcw _ _]]. unfold try_recv.
  destruct (dequeue _) as [[e s1]|] eqn:Hd.
  - intros [= <- <- <-]. simpl.
    eapply update_dequeue; eauto using same_core_refl.
    destruct (consumer_waiting s1) eqn:Hw; [|done].
    assert (consumer_waiting (sys_state sys) = true) as Hc%Hcw; [|by rewrite Hidle in Hc].
    revert Hd. unfold dequeue. destruct (queue _); [done|]. intros [= <- <-]. exact Hw.
  - rewrite Hidle in Hcw.
    destruct (accepting _); intros [= <- <- <-]; apply update_same; auto using same_core_refl; done.
Qed.

Lemma recv_loop_inv sys o s' ns :
  sys_inv sys → consumer_alive (sys_state sys) = true →
  recv_loop (sys_state sys) = (o, s', ns) →
  sys_inv (update s' (sys_producers sys)
    (match o with RecvReturned _ => ConsumerIdle | RecvWaits => ConsumerRecv false end)
    ns [] (received_items o) [] sys).
Proof.
  intros Hinv Halive. pose proof Hinv as [_ _ [Hwp _ _ _]]. unfold recv_loop.
  destruct (bool_decide _ && _) eqn:Hg.
  { apply andb_true_iff in Hg as [Hlen%bool_decide_eq_true%nil_length_inv Hacc].
    intros [= <- <- <-]. same_update. by right. }
  destruct (dequeue _) as [[e s1]|] eqn:Hd; intros [= <- <- <-]; simpl.
  - eapply update_dequeue; [exact Hinv| | | |exact Hd|apply same_core_refl|done|]; try done.
    revert Hd. unfold dequeue. simpl. destruct (queue _); [done|]. by intros [= <- <-].
  - same_update.
Qed.

Lemma recv_timeout_loop_inv sys deadline o s' ns :
  sys_inv sys → consumer_alive (sys_state sys) = true →
  recv_timeout_loop deadline (sys_now sys) (sys_state sys) = (o, s', ns) →
  sys_inv (update s' (sys_producers sys)
    (match o with RecvReturned _ => ConsumerIdle | RecvWaits => ConsumerRecvTimeout deadline false
     end) ns [] (received_items o) [] sys).
Proof.
  intros Hinv Halive. pose proof Hinv as [_ _ [Hwp _ _ _]]. unfold recv_timeout_loop.
  destruct (dequeue _) as [[e s1]|] eqn:Hd.
  { intros [= <- <- <-]. simpl.
    eapply update_dequeue; [exact Hinv|apply same_core_refl|done|done|exact Hd| |done|done].
    by unfold same_core. }
  destruct (accepting _) eqn:Hacc; simpl.
  - case_bool_decide; intros [= <- <- <-]; same_update.
    right. split; [done|]. revert Hd. unfold dequeue. by destruct (queue _).
  - intros [= <- <- <-]. same_update.
Qed.

Lemma recv_timeout_wake_inv sys deadline b o s' ns :
  sys_inv sys → consumer_alive (sys_state sys) = true →
  recv_timeout_wake deadline b (sys_now sys) (sys_state sys) = (o, s', ns) →
  sys_inv (update s' (sys_producers sys)
    (match o with RecvReturned _ => ConsumerIdle | RecvWaits => ConsumerRecvTimeout deadline false
     end) ns [] (received_items o) [] sys).
Proof.
  intros Hinv Halive. unfold recv_timeout_wake. destruct (_ && _ && _).
  - pose proof Hinv as [_ _ [Hwp _ _ _]].
    intros [= <- <- <-]. same_update.
  - by apply recv_timeout_loop_inv.
Qed.

Lemma drop_receiver_inv sys q s' ns :
  sys_inv sys → consumer_alive (sys_state sys) = true →
  drop_receiver (sys_state sys) = (q, s', ns) →
  sys_inv (update s' (sys_producers sys) ConsumerIdle ns [] [] (value <$> q) sys).
Proof.
  intros [Hq Hl Hw] Halive [= <- <- <-]. split; simpl; rewrite ?app_nil_r.
  - destruct Hq. split; simpl; unfold queue_len in *; simpl; try done.
    all: try (pose proof (bytes_of_nonneg (value <$> queue (sys_state sys))); lia).
  - destruct Hl. rewrite li_discarded0 in * by done. destruct Hq. split; simpl; rewrite ?app_nil_r; auto.
    + done.
    + unfold sat_add_u64, queue_len. rewrite li_discarded_items0, length_fmap. simpl. lia.
    + unfold sat_add_u64. rewrite li_discarded_bytes0, qi_bytes0. simpl.
      pose proof (bytes_of_nonneg (value <$> queue (sys_state sys))). lia.
  - eapply wait_transfer; [exact Hw|apply Hw|by split| |done|by intros; apply elem_of_pending].
    set_solver.
Qed.

Lemma drop_sender_inv sys s' ns :
  sys_inv sys → drop_sender (sys_state sys) = (s', ns) →
  sys_inv (update s' (sys_producers sys) (sys_consumer sys) ns [] [] [] sys).
Proof.
  intros Hinv. pose proof Hinv as [_ _ [Hwp Hcw _ _]]. unfold drop_sender.
  destruct (_ && _) eqn:Hg; intros [= <- <-].
  - apply update_shut; auto. by unfold same_core.
  - apply update_same; simpl; auto. by unfold same_core.
Qed.

Lemma deliver_inv sys ns1 n ns2 :
  sys_inv sys → sys_pending sys = ns1 ++ n :: ns2 →
  sys_inv (deliver n (set_pending (ns1 ++ ns2) sys)).
Proof.
  intros [Hq Hl [Hwp Hcw Hs Hi]] Hp.
  assert (Hwake : ∀ c, consumer_asleep (notify_consumer c) = false) by by intros [].
  assert (Hidle : ∀ c, notify_consumer c ≠ ConsumerIdle ↔ c ≠ ConsumerIdle) by by intros [].
  rewrite Hp in Hs, Hi.
  destruct n; (split; [done|done|]); split; simpl; rewrite ?Hidle, ?length_fmap; auto;
    try (intros H1; by rewrite Hwake in H1).
  - intros p Hin Hn Hpend. apply (Hs p); set_solver.
  - intros p Hin Hn Hpend. apply (Hs p); set_solver.
  - intros p (q & -> & _)%list_elem_of_fmap. done.
  - intros Ha H1 H2. apply Hi; set_solver.
Qed.

Lemma step_inv sys sys' : sys_inv sys → step sys sys' → sys_inv sys'.
Proof.
  intros Hinv Hstep. pose proof Hinv as [Hq Hl [Hwp Hcw Hs Hi]]. destruct Hstep.
  - by split.
  - by apply deliver_inv.
  - apply update_same; auto using same_core_refl.
    + by rewrite Hwp, H0, !length_app.
    + rewrite H0. set_solver.
  - apply update_same; auto using same_core_refl; [rewrite Hcw|]; by destruct (sys_consumer sys).
  - by apply try_send_inv.
  - by apply send_enter_inv.
  - by eapply (send_loop_inv _ _ (Some _)); [|eexists|].
  - by apply try_recv_inv.
  - by apply recv_loop_inv.
  - by apply recv_timeout_loop_inv.
  - by eapply recv_timeout_wake_inv.
  - injection H0 as _ <- <-. apply update_shut; auto; [by unfold same_core|].
    destruct (accepting _); auto.
  - apply update_same; auto; by unfold same_core.
  - by apply drop_sender_inv.
  - by apply drop_receiver_inv.
Qed.

Lemma init_inv : (0 ≤ max_items lim)%Z → (0 ≤ max_bytes lim)%Z → sys_inv init_system.
Proof.
  intros Hi Hb. split; simpl.
  - by split.
  - by split.
  - split; simpl; [done|by split|set_solver|done].
Qed.

Lemma reachable_inv sys :
  (0 ≤ max_items lim)%Z → (0 ≤ max_bytes lim)%Z → reachable sys → sys_inv sys.
Proof.
  intros Hi Hb Hr. unfold reachable in Hr. revert Hr. generalize (init_inv Hi Hb).
  generalize init_system. intros s0 Hs0 Hr. induction Hr; eauto using step_inv.
Qed.

(** Once the gate is shut it stays shut, and nothing more is accepted. *)
Lemma step_shut sys sys' :
  accepting (sys_state sys) = false → step sys sys' →
  accepting (sys_state sys') = false ∧ sys_accepted sys' = sys_accepted sys.
Proof.
  intros Ha Hstep. destruct Hstep; simpl; rewrite ?app_nil_r; try done.
  - by destruct n.
  - unfold try_send in *. rewrite Ha in *. simplify_eq/=. by rewrite app_nil_r.
  - unfold send_enter in *. rewrite Ha in *. simplify_eq/=. by rewrite app_nil_r.
  - unfold send_loop in *. rewrite Ha in *. simplify_eq/=. by rewrite app_nil_r.
  - unfold try_recv, dequeue in *. rewrite Ha in *. by destruct (queue _); simplify_eq/=.
  - unfold recv_loop, dequeue in *. rewrite Ha, andb_false_r in *. simpl in *.
    by destruct (queue _); simplify_eq/=.
  - unfold recv_timeout_loop, dequeue in *. rewrite Ha in *. by destruct (queue _); simplify_eq/=.
  - unfold recv_timeout_wake, recv_timeout_loop, dequeue in *. rewrite Ha, andb_false_r in *.
    by destruct (queue _); simplify_eq/=.
  - unfold close in *. by simplify_eq/=.
  - unfold drop_sender in *. simpl in *. rewrite Ha, andb_false_r in *. by simplify_eq/=.
  - unfold drop_receiver in *. by simplify_eq/=.
Qed.

Lemma steps_shut sys sys' :
  accepting (sys_state sys) = false → rtc step sys sys' →
  accepting (sys_state sys') = false ∧ sys_accepted sys' = sys_accepted sys.
Proof.
  intros Ha Hr. revert Ha. induction Hr as [|x y z Hxy Hyz IH]; intros Ha; [done|].
  destruct (step_shut _ _ Ha Hxy) as [Hy Hacc]. destruct (IH Hy) as [Hz Hacc']. split; congruence.
Qed.

(** The log of deliveries only grows. *)
Lemma steps_delivered sys sys' :
  rtc step sys sys' → sys_delivered sys `prefix_of` sys_delivered sys'.
Proof.
  induction 1 as [|x y z Hxy Hyz IH]; [done|]. etrans; [|exact IH].
  destruct Hxy; simpl; try done; try by apply prefix_app_r. by destruct n.
Qed.

(** C18. The mailbox is bounded whatever its threads do: in every reachable
    state the queue holds at most the configured number of items and its
    byte reservation is the exact sum over the queued items and within the
    configured budget; the high-water marks stay between both. *)
Theorem mailbox_bounded items bytes sys :
  MailboxLimits.try_new items bytes = inr lim → (0 ≤ items)%Z → (0 ≤ bytes)%Z → reachable sys →
  let s := sys_state sys in
  (queue_len s ≤ high_water_items (counters s) ≤ items)%Z ∧
  queued_bytes s = bytes_of (value <$> queue s) ∧
  (queued_bytes s ≤ high_water_bytes (counters s) ≤ bytes)%Z.
Proof.
  intros Hlim Hi Hb Hr s.
  assert (max_items lim = items ∧ max_bytes lim = bytes) as [<- <-].
  { unfold MailboxLimits.try_new in Hlim. repeat case_bool_decide; try done.
    by injection Hlim as <-. }
  destruct (reachable_inv sys Hi Hb Hr) as [[] _ _]. subst s. tauto.
Qed.

(** C13. The mailbox is a first-in first-out channel that loses nothing: in
    every reachable state the accepted items, in acceptance order, are the
    delivered ones, then those discarded with the receiver, then those still
    queued; nothing is discarded while the receiver lives, and the
    cumulative counters are the (saturated) lengths and sizes of these logs. *)
Theorem mailbox_fifo sys :
  (0 ≤ max_items lim)%Z → (0 ≤ max_bytes lim)%Z → reachable sys →
  let s := sys_state sys in let c := counters s in
  sys_accepted sys = sys_delivered sys ++ sys_discarded sys ++ (value <$> queue s) ∧
  (consumer_alive s = true → sys_discarded sys = []) ∧
  enqueued_items c = Z.min (Z.of_nat (length (sys_accepted sys))) u64_max ∧
  enqueued_bytes c = Z.min (bytes_of (sys_accepted sys)) u64_max ∧
  dequeued_items c = Z.min (Z.of_nat (length (sys_delivered sys))) u64_max ∧
  dequeued_bytes c = Z.min (bytes_of (sys_delivered sys)) u64_max ∧
  discarded_items c = Z.min (Z.of_nat (length (sys_discarded sys))) u64_max ∧
  discarded_bytes c = Z.min (bytes_of (sys_discarded sys)) u64_max.
Proof.
  intros Hi Hb Hr s c. destruct (reachable_inv sys Hi Hb Hr) as [_ [] _]. by split_and!.
Qed.

(** C5. No lost wake-up: in every reachable state with no notification in
    flight, a producer asleep in [send] really has no room (the mailbox is
    open and its item does not fit), and a consumer asleep in [recv] or
    [recv_timeout] really has nothing to receive (the mailbox is open and
    empty). The published waiter count is the number of blocked producers. *)
Theorem mailbox_no_lost_wakeup sys :
  (0 ≤ max_items lim)%Z → (0 ≤ max_bytes lim)%Z → reachable sys → sys_pending sys = [] →
  let s := sys_state sys in
  (∀ p, p ∈ sys_producers sys → p_notified p = false →
     accepting s = true ∧ consumer_alive s = true ∧
     admission_bytes s lim (retained_bytes (p_item p)) = None) ∧
  (consumer_asleep (sys_consumer sys) = true → accepting s = true ∧ queue s = []) ∧
  waiting_producers s = Z.of_nat (length (sys_producers sys)).
Proof.
  intros Hi Hb Hr Hp s. destruct (reachable_inv sys Hi Hb Hr) as [_ _ [Hwp _ Hs Hit]].
  rewrite Hp in Hs, Hit. split_and!; [|intros Ha; apply Hit; set_solver|done].
  intros p Hin Hn. apply Hs; set_solver.
Qed.

(** Closure is reported only after a full drain: when [recv] returns
    [Closed], every accepted item has been delivered, and in every later
    state the mailbox stays closed with nothing accepted or delivered since. *)
Theorem recv_closed_means_drained sys s' ns sys' :
  (0 ≤ max_items lim)%Z → (0 ≤ max_bytes lim)%Z → reachable sys →
  consumer_alive (sys_state sys) = true →
  recv_loop (sys_state sys) = (RecvReturned (inl RecvClosed), s', ns) →
  rtc step sys sys' →
  sys_delivered sys = sys_accepted sys ∧
  accepting (sys_state sys') = false ∧ sys_delivered sys' = sys_accepted sys.
Proof.
  intros Hi Hb Hr Halive Hrecv Hsteps.
  destruct (reachable_inv sys Hi Hb Hr) as [_ [] _].
  assert (queue (sys_state sys) = [] ∧ accepting (sys_state sys) = false) as [Hq Ha].
  { revert Hrecv. unfold recv_loop, dequeue. simpl. destruct (queue (sys_state sys)); simpl;
      [|done]. by destruct (accepting (sys_state sys)). }
  assert (Hdel : sys_accepted sys = sys_delivered sys)
    by (rewrite li_fifo0, li_discarded0, Hq by done; by rewrite app_nil_r).
  destruct (steps_shut _ _ Ha Hsteps) as [Ha' Hacc]. split_and!; [done|done|].
  assert (Hr' : reachable sys') by (unfold reachable in *; by etrans).
  destruct (reachable_inv sys' Hi Hb Hr') as [_ [Hf _ _ _ _ _ _ _] _].
  destruct (steps_delivered _ _ Hsteps) as [l Hl]. rewrite Hacc, Hdel, Hl, <- app_assoc in Hf.
  rewrite <- (app_nil_r (sys_delivered sys)) in Hf at 1. apply app_inv_head in Hf.
  symmetry in Hf. apply app_eq_nil in Hf as [-> _]. by rewrite Hl, Hdel, app_nil_r.
Qed.

End system.

(** ** Concrete runs

    Messages are sizes in bytes, at most 255. *)

#[local] Program Instance size_item : MailboxItem (fin 256) := {| retained_bytes x := Z.of_nat (fin_to_nat x) |}.
Next Obligation.
  intros x. pose proof (fin_to_nat_lt x). unfold is_u64, u64_max. lia.
Qed.

(** One item of at most 100 bytes. *)
Definition one_item : MailboxLimits := mkLimits 1 100.



(** A producer fills the mailbox and a second one blocks. *)
Definition blocked_system : System :=
  mkSystem (mkState [mkEntry (10%fin : fin 256) 10] 10 true 1 true 1 false
      (mkCounters 1 10 1 10 0 0 0 0 0 0 0 1 0))
    [mkProducer (20%fin : fin 256) 0 false] ConsumerIdle [] 0 [10%fin] [] [].

Lemma blocked_reachable : reachable one_item blocked_system.
Proof.
  unfold reachable, init_system. eapply rtc_l.
  { eapply (step_try_send one_item _ (10%fin : fin 256)). vm_compute. reflexivity. }
  eapply rtc_l.
  { eapply (step_send_enter one_item _ (20%fin : fin 256)); [done|]. vm_compute. reflexivity. }
  eapply rtc_l; [by apply (step_deliver one_item _ [] NotEmptyOne [])|]. apply rtc_refl.
Qed.

Lemma mailbox_bounded_witness :
  MailboxLimits.try_new 1 100 = inr one_item ∧
  (queue_len (sys_state blocked_system) ≤ 1)%Z.
Proof.
  split; [reflexivity|].
  destruct (mailbox_bounded one_item 1 100 blocked_system) as [Hlen _];
    [done|lia|lia|apply blocked_reachable|]. lia.
Defined.

Lemma mailbox_fifo_witness :
  sys_accepted blocked_system =
    sys_delivered blocked_system ++ sys_discarded blocked_system ++
    (value <$> queue (sys_state blocked_system)).
Proof. apply (mailbox_fifo one_item blocked_system); [done|done|apply blocked_reachable]. Defined.

Lemma mailbox_no_lost_wakeup_witness :
  p_notified <$> sys_producers blocked_system = [false] ∧
  admission_bytes (sys_state blocked_system) one_item 20 = None.
Proof.
  split; [reflexivity|].
  destruct (mailbox_no_lost_wakeup one_item blocked_system) as (Hp & _);
    [done|done|apply blocked_reachable|done|].
  by apply (Hp (mkProducer (20%fin : fin 256) 0 false)); [apply list_elem_of_here|].
Defined.

(** One item is sent and received, then the mailbox is closed. *)
Definition drained_system : System :=
  mkSystem (mkState [] 0 false 1 true 0 false (mkCounters 1 10 1 10 1 10 0 0 0 0 0 0 0))
    [] ConsumerIdle [NotEmptyOne; SpaceAll; NotEmptyAll; SpaceAll] 0
    [(10%fin : fin 256)] [10%fin] [].

Lemma drained_reachable : reachable one_item drained_system.
Proof.
  unfold reachable, init_system. eapply rtc_l.
  { eapply (step_try_send one_item _ (10%fin : fin 256)). vm_compute. reflexivity. }
  eapply rtc_l; [by eapply step_try_recv; [..|vm_compute; reflexivity]|].
  eapply rtc_l; [by eapply step_close; vm_compute; reflexivity|]. apply rtc_refl.
Qed.

Lemma recv_closed_means_drained_witness :
  ∃ s', recv_loop (sys_state drained_system) = (RecvReturned (inl RecvClosed), s', []) ∧
    sys_delivered drained_system = sys_accepted drained_system.
Proof.
  eexists. split; [reflexivity|].
  eapply (recv_closed_means_drained one_item drained_system _ [] drained_system);
    [done|done|apply drained_reachable|done|reflexivity|apply rtc_refl].
Defined.
