(* ===== verification/Grid.v ===== *)
(** The visible grid of a terminal ([rssh-terminal/src/cell.rs], [grid.rs])
    and its scrollback buffer ([history.rs]), with the value types they are
    made of.

    Row and column numbers are [u16] in the source and only ever compared,
    copied or widened to [usize], so they are natural numbers here; a
    sequence number is a [usize], kept as a [Z]. *)
From S2P Require Import Prelude Text.

(** ** Cells *)

Inductive Color :=
| DefaultColor
| Indexed (i : Z)
| Rgb (r g b : Z)
| Rgba (r g b a : Z).

Inductive UnderlineStyle :=
| UnderlineNone | UnderlineSingle | UnderlineDouble | UnderlineCurly | UnderlineDotted
| UnderlineDashed.

Inductive VerticalAlign := Baseline | Superscript | Subscript.
Inductive SemanticType := Output | Prompt | Input.

Inductive CellContent :=
| Blank
| TextContent (grapheme : rstring) (columns : Z)
| Continuation (leader_delta : Z).

Record Cell := mkCell {
  content : CellContent;
  foreground : Color;
  background : Color;
  underline_color : Color;
  underline_style : UnderlineStyle;
  bold : bool;
  faint : bool;
  italic : bool;
  blink : bool;
  rapid_blink : bool;
  underline : bool;
  double_underline : bool;
  conceal : bool;
  strikethrough : bool;
  overline : bool;
  vertical_align : VerticalAlign;
  inverse : bool;
  protected : bool;
  hyperlink : option rstring;
  semantic_type : SemanticType;
}.

Module Cell.

Definition default : Cell :=
  mkCell Blank DefaultColor DefaultColor DefaultColor UnderlineNone false false false false false
    false false false false false Baseline false false None Output.

Definition set_content (x : CellContent) (c : Cell) : Cell :=
  mkCell x (foreground c) (background c) (underline_color c) (underline_style c) (bold c)
    (faint c) (italic c) (blink c) (rapid_blink c) (underline c) (double_underline c)
    (conceal c) (strikethrough c) (overline c) (vertical_align c) (inverse c) (protected c)
    (hyperlink c) (semantic_type c).

Definition set_blank (c : Cell) : Cell := set_content Blank c.
Definition set_text (grapheme : rstring) (columns : Z) (c : Cell) : Cell :=
  set_content (TextContent grapheme columns) c.
Definition set_continuation (leader_delta : Z) (c : Cell) : Cell :=
  set_content (Continuation leader_delta) c.

Definition with_char (ch : Z) : Cell := set_text [ch] 1 default.

Definition text (c : Cell) : rstring :=
  match content c with
  | Blank => lit " "
  | TextContent grapheme _ => grapheme
  | Continuation _ => []
  end.

Definition primary_char (c : Cell) : Z := match head (text c) with Some ch => ch | None => 32%Z end.

Definition columns (c : Cell) : Z :=
  match content c with
  | Blank => 1
  | TextContent _ n => n
  | Continuation _ => 0
  end.

Definition is_continuation (c : Cell) : bool :=
  match content c with Continuation _ => true | _ => false end.
Definition is_blank (c : Cell) : bool :=
  match content c with Blank => true | _ => false end.

End Cell.

#[export] Instance Color_eq_dec : EqDecision Color.
Proof. solve_decision. Defined.
#[export] Instance UnderlineStyle_eq_dec : EqDecision UnderlineStyle.
Proof. solve_decision. Defined.
#[export] Instance VerticalAlign_eq_dec : EqDecision VerticalAlign.
Proof. solve_decision. Defined.
#[export] Instance SemanticType_eq_dec : EqDecision SemanticType.
Proof. solve_decision. Defined.
#[export] Instance CellContent_eq_dec : EqDecision CellContent.
Proof. solve_decision. Defined.
#[export] Instance Cell_eq_dec : EqDecision Cell.
Proof. solve_decision. Defined.

(** ** Rows *)

Record TerminalSize := mkTerminalSize { size_columns : nat; size_rows : nat }.

Definition cells_of_size (s : TerminalSize) : nat := size_columns s * size_rows s.

Record GridRow := mkGridRow {
  row_cells : list Cell;
  reflow_overflow : list Cell;
  wrapped : bool;
  last_change_seqno : Z;
}.

(** [Vec::resize]. *)
Definition vec_resize {A} (n : nat) (x : A) (l : list A) : list A :=
  take n l ++ replicate (n - length l) x.

Module GridRow.

Definition blank (columns : nat) (cell : Cell) (seqno : Z) : GridRow :=
  mkGridRow (replicate columns cell) [] false seqno.

Definition resize_columns (columns : nat) (preserve_row_metadata : bool) (seqno : Z)
    (r : GridRow) : GridRow :=
  let cells := vec_resize columns Cell.default (row_cells r) in
  if preserve_row_metadata
  then mkGridRow cells (reflow_overflow r) (wrapped r) (last_change_seqno r)
  else mkGridRow cells [] (wrapped r) seqno.

End GridRow.

(** ** The grid *)

Record TerminalGrid := mkGrid { grid_size : TerminalSize; grid_rows : list GridRow }.

Module TerminalGrid.

Definition new_with_seqno (size : TerminalSize) (seqno : Z) : TerminalGrid :=
  mkGrid size
    ((λ _, GridRow.blank (size_columns size) Cell.default seqno) <$> seq 0 (size_rows size)).

Definition new (size : TerminalSize) : TerminalGrid := new_with_seqno size 1.

Definition len (g : TerminalGrid) : nat := cells_of_size (grid_size g).
Definition is_empty (g : TerminalGrid) : bool := cells_of_size (grid_size g) =? 0.

Definition get (row column : nat) (g : TerminalGrid) : option Cell :=
  r ← grid_rows g !! row; row_cells r !! column.

Definition set (row column : nat) (cell : Cell) (g : TerminalGrid) : bool * TerminalGrid :=
  match grid_rows g !! row with
  | None => (false, g)
  | Some r =>
      match row_cells r !! column with
      | None => (false, g)
      | Some _ =>
          let r' := mkGridRow (<[column := cell]> (row_cells r)) [] (wrapped r)
                      (last_change_seqno r) in
          (true, mkGrid (grid_size g) (<[row := r']> (grid_rows g)))
      end
  end.

Definition row_wrapped (row : nat) (g : TerminalGrid) : bool :=
  match grid_rows g !! row with Some r => wrapped r | None => false end.

(** [if let Some(row) = self.rows.get_mut(row) { f(row) }] *)
Definition update_row (row : nat) (f : GridRow → GridRow) (g : TerminalGrid) : TerminalGrid :=
  match grid_rows g !! row with
  | Some r => mkGrid (grid_size g) (<[row := f r]> (grid_rows g))
  | None => g
  end.

Definition set_row_wrapped (row : nat) (b : bool) (g : TerminalGrid) : TerminalGrid :=
  update_row row (λ r, mkGridRow (row_cells r) (reflow_overflow r) b (last_change_seqno r)) g.

Definition row_last_change_seqno (row : nat) (g : TerminalGrid) : option Z :=
  last_change_seqno <$> grid_rows g !! row.

Definition set_row_last_change_seqno (row : nat) (seqno : Z) (g : TerminalGrid) : bool * TerminalGrid :=
  match grid_rows g !! row with
  | None => (false, g)
  | Some r =>
      (true, mkGrid (grid_size g)
        (<[row := mkGridRow (row_cells r) (reflow_overflow r) (wrapped r) seqno]> (grid_rows g)))
  end.

Definition cells_with_reflow_overflow (row : nat) (g : TerminalGrid) : list Cell :=
  match grid_rows g !! row with
  | None => []
  | Some r => row_cells r ++ reflow_overflow r
  end.

Definition set_reflow_overflow (row : nat) (overflow : list Cell) (g : TerminalGrid) :
    TerminalGrid :=
  update_row row (λ r, mkGridRow (row_cells r) overflow (wrapped r) (last_change_seqno r)) g.

(** The [map] over [0..size.rows] that consumes the old rows one by one. *)
Fixpoint resize_rows (n : nat) (old_rows : list GridRow) (columns : nat) (preserve : bool)
    (seqno : Z) : list GridRow :=
  match n with
  | O => []
  | S n' =>
      match old_rows with
      | r :: rest =>
          GridRow.resize_columns columns preserve seqno r
            :: resize_rows n' rest columns preserve seqno
      | [] => GridRow.blank columns Cell.default seqno :: resize_rows n' [] columns preserve seqno
      end
  end.

Definition resize_with_seqno (size : TerminalSize) (new_row_seqno : Z) (g : TerminalGrid) :
    TerminalGrid :=
  let preserve := size_columns (grid_size g) =? size_columns size in
  mkGrid size (resize_rows (size_rows size) (grid_rows g) (size_columns size) preserve new_row_seqno).

(** [iter().map(last_change_seqno).max().unwrap_or(1)] *)
Definition resize (size : TerminalSize) (g : TerminalGrid) : TerminalGrid :=
  let seqno := match grid_rows g with
               | [] => 1%Z
               | rows => foldr Z.max 0%Z (last_change_seqno <$> rows)
               end in
  resize_with_seqno size seqno g.

(** [rows[top..=bottom]], or [None]; [get_mut] also fails past the end. *)
Definition row_region (top bottom : nat) (g : TerminalGrid) : option (list GridRow) :=
  if bool_decide (bottom < top) || bool_decide (size_rows (grid_size g) ≤ bottom) then None
  else if bool_decide (bottom < length (grid_rows g))
  then Some (take (bottom + 1 - top) (drop top (grid_rows g)))
  else None.

(** Writing a region back through the mutable slice. *)
Definition put_region (top bottom : nat) (region : list GridRow) (g : TerminalGrid) :
    TerminalGrid :=
  mkGrid (grid_size g)
    (take top (grid_rows g) ++ region ++ drop (bottom + 1) (grid_rows g)).

(** [for row in slice { consume(mem::replace(row, blank)) }]: the consumed
    rows in order and the slice left behind. *)
Definition replace_all (b : GridRow) (l : list GridRow) : list GridRow * list GridRow :=
  (l, (λ _, b) <$> l).

Definition rotate_up_rows (top bottom count : nat) (blank : Cell) (seqno : Z)
    (g : TerminalGrid) : list GridRow * TerminalGrid :=
  match row_region top bottom g with
  | None => ([], g)
  | Some rows =>
      let count := count `min` length rows in
      if bool_decide (count = 0) then ([], g)
      else
        let rows := rotate_left count rows in
        let first_exiting := length rows - count in
        let '(exiting, fresh) := replace_all (GridRow.blank (size_columns (grid_size g)) blank seqno)
                                   (drop first_exiting rows) in
        (exiting, put_region top bottom (take first_exiting rows ++ fresh) g)
  end.

Definition scroll_up_rows (top bottom count : nat) (blank : Cell) (seqno : Z)
    (g : TerminalGrid) : list GridRow * TerminalGrid :=
  rotate_up_rows top bottom count blank seqno g.

Definition scroll_up_rows_discarding (top bottom count : nat) (blank : Cell) (seqno : Z)
    (g : TerminalGrid) : TerminalGrid :=
  (rotate_up_rows top bottom count blank seqno g).2.

Definition scroll_down_rows (top bottom count : nat) (blank : Cell) (seqno : Z)
    (g : TerminalGrid) : TerminalGrid :=
  match row_region top bottom g with
  | None => g
  | Some rows =>
      let count := count `min` length rows in
      if bool_decide (count = 0) then g
      else
        let rows := rotate_right count rows in
        let '(_, fresh) := replace_all (GridRow.blank (size_columns (grid_size g)) blank seqno)
                             (take count rows) in
        put_region top bottom (fresh ++ drop count rows) g
  end.

End TerminalGrid.

(** ** Scrollback *)

Section history.
  Context {A : Type}.

Record HistoryBuffer := mkHistoryBuffer { history_rows : list A }.

Definition history_push (row : A) (h : HistoryBuffer) : HistoryBuffer :=
  mkHistoryBuffer (history_rows h ++ [row]).

Definition history_clear (h : HistoryBuffer) : HistoryBuffer := mkHistoryBuffer [].

(** [for _ in 0..count { self.rows.pop_front(); }] *)
Fixpoint pop_fronts (count : nat) (l : list A) : list A :=
  match count with
  | O => l
  | S n => pop_fronts n (tail l)
  end.

Definition evict_front (count : nat) (h : HistoryBuffer) : nat * HistoryBuffer :=
  let count := count `min` length (history_rows h) in
  if bool_decide (count = length (history_rows h)) then (count, history_clear h)
  else (count, mkHistoryBuffer (pop_fronts count (history_rows h))).

Definition history_get (index : nat) (h : HistoryBuffer) : option A := history_rows h !! index.
Definition history_last (h : HistoryBuffer) : option A := last (history_rows h).
Definition history_rebuild (rows : list A) (h : HistoryBuffer) : HistoryBuffer :=
  mkHistoryBuffer rows.

End history.

Arguments HistoryBuffer A : clear implicits.

(** A row that left the screen. *)
Record ScrollbackLine := mkScrollbackLine {
  line_cells : list Cell;
  line_reflow_overflow : list Cell;
  line_wrapped : bool;
  line_sequence : Z;
}.

Module ScrollbackLine.

Definition from_grid_row (r : GridRow) : ScrollbackLine :=
  mkScrollbackLine (row_cells r) (reflow_overflow r) (wrapped r) (last_change_seqno r).

Definition cells_with_reflow_overflow (l : ScrollbackLine) : list Cell :=
  line_cells l ++ line_reflow_overflow l.

End ScrollbackLine.
