(* ===== verification/GridFacts.v ===== *)
(** Facts about the visible grid and the scrollback buffer: the shape
    invariant of [TerminalGrid], what scrolling a region and resizing do to
    every row and cell, and what eviction leaves in the scrollback. *)
From S2P Require Import Prelude Text Grid.

(** ** The shape of a grid *)

(** As many rows as the recorded size says, each of the recorded width. *)
Definition grid_ok (g : TerminalGrid) : Prop :=
  length (grid_rows g) = size_rows (grid_size g) ∧
  Forall (λ r, length (row_cells r) = size_columns (grid_size g)) (grid_rows g).

(** The operations other components can run on a grid. *)
Inductive GridOp :=
| OpSet (row column : nat) (cell : Cell)
| OpSetWrapped (row : nat) (b : bool)
| OpSetSeqno (row : nat) (seqno : Z)
| OpSetOverflow (row : nat) (overflow : list Cell)
| OpResize (size : TerminalSize)
| OpResizeSeqno (size : TerminalSize) (seqno : Z)
| OpScrollUp (top bottom count : nat) (blank : Cell) (seqno : Z)
| OpScrollDown (top bottom count : nat) (blank : Cell) (seqno : Z).

Definition run_grid_op (g : TerminalGrid) (op : GridOp) : TerminalGrid :=
  match op with
  | OpSet row column cell => (TerminalGrid.set row column cell g).2
  | OpSetWrapped row b => TerminalGrid.set_row_wrapped row b g
  | OpSetSeqno row seqno => (TerminalGrid.set_row_last_change_seqno row seqno g).2
  | OpSetOverflow row overflow => TerminalGrid.set_reflow_overflow row overflow g
  | OpResize size => TerminalGrid.resize size g
  | OpResizeSeqno size seqno => TerminalGrid.resize_with_seqno size seqno g
  | OpScrollUp top bottom count blank seqno =>
      TerminalGrid.scroll_up_rows_discarding top bottom count blank seqno g
  | OpScrollDown top bottom count blank seqno =>
      TerminalGrid.scroll_down_rows top bottom count blank seqno g
  end.

(** The size a sequence of operations leaves: only resizing changes it. *)
Definition op_size (s : TerminalSize) (op : GridOp) : TerminalSize :=
  match op with
  | OpResize size | OpResizeSeqno size _ => size
  | _ => s
  end.

Lemma vec_resize_length {A} n (x : A) l : length (vec_resize n x l) = n.
Proof. unfold vec_resize. rewrite length_app, length_take, length_replicate. lia. Qed.

Lemma vec_resize_lookup {A} n (x : A) l i :
  vec_resize n x l !! i =
    if bool_decide (i < n) then Some (default x (l !! i)) else None.
Proof.
  unfold vec_resize. case_bool_decide as Hi.
  - destruct (decide (i < length l)) as [Hl|Hl].
    + rewrite lookup_app_l by (rewrite length_take; lia).
      rewrite lookup_take_lt by lia.
      destruct (lookup_lt_is_Some_2 l i Hl) as [y ->]. done.
    + rewrite lookup_app_r by (rewrite length_take; lia).
      rewrite length_take, lookup_replicate_2 by lia.
      rewrite (lookup_ge_None_2 l i) by lia. done.
  - apply lookup_ge_None_2. rewrite length_app, length_take, length_replicate. lia.
Qed.

Lemma grid_ok_insert (g : TerminalGrid) row (r' : GridRow) :
  grid_ok g → length (row_cells r') = size_columns (grid_size g) →
  grid_ok (mkGrid (grid_size g) (<[row := r']> (grid_rows g))).
Proof.
  intros [Hlen Hrows] Hr. split; simpl.
  - by rewrite length_insert.
  - by apply Forall_insert.
Qed.

Lemma grid_ok_row (g : TerminalGrid) row r :
  grid_ok g → grid_rows g !! row = Some r → length (row_cells r) = size_columns (grid_size g).
Proof. intros [_ H] Hr. by eapply Forall_lookup in H. Qed.

Lemma resize_rows_length n rows columns preserve seqno :
  length (TerminalGrid.resize_rows n rows columns preserve seqno) = n.
Proof. revert rows. induction n as [|n IH]; intros [|r rows]; simpl; auto. Qed.

Lemma resize_rows_lookup n rows columns preserve seqno i :
  TerminalGrid.resize_rows n rows columns preserve seqno !! i =
    if bool_decide (i < n)
    then Some (match rows !! i with
               | Some r => GridRow.resize_columns columns preserve seqno r
               | None => GridRow.blank columns Cell.default seqno
               end)
    else None.
Proof.
  revert rows i. induction n as [|n IH]; intros rows i.
  { rewrite bool_decide_false by lia. by destruct rows. }
  destruct i as [|i].
  { rewrite bool_decide_true by lia. by destruct rows. }
  rewrite (bool_decide_ext (S i < S n) (i < n)) by lia.
  destruct rows as [|r rows]; simpl; by rewrite IH.
Qed.

Lemma resize_columns_length columns preserve seqno r :
  length (row_cells (GridRow.resize_columns columns preserve seqno r)) = columns.
Proof. unfold GridRow.resize_columns. destruct preserve; apply vec_resize_length. Qed.

Lemma resize_with_seqno_ok size seqno g :
  grid_ok (TerminalGrid.resize_with_seqno size seqno g).
Proof.
  split; simpl; [apply resize_rows_length|].
  apply Forall_lookup_2. intros i r. rewrite resize_rows_lookup.
  case_bool_decide; [|done]. intros [= <-].
  destruct (grid_rows g !! i); [apply resize_columns_length|apply length_replicate].
Qed.

(** ** Regions *)

(** The last row of the region and the rows it holds. *)
Definition region_valid (top bottom : nat) (g : TerminalGrid) : Prop :=
  top ≤ bottom ∧ bottom < size_rows (grid_size g).

#[export] Instance region_valid_dec top bottom g : Decision (region_valid top bottom g).
Proof. unfold region_valid. apply _. Defined.

Lemma row_region_valid top bottom g :
  grid_ok g → region_valid top bottom g →
  TerminalGrid.row_region top bottom g =
    Some (take (bottom + 1 - top) (drop top (grid_rows g))).
Proof.
  intros [Hlen _] [Htb Hb]. unfold TerminalGrid.row_region.
  by rewrite !bool_decide_false, bool_decide_true by lia.
Qed.

Lemma row_region_invalid top bottom g :
  ¬ region_valid top bottom g → TerminalGrid.row_region top bottom g = None.
Proof.
  unfold region_valid, TerminalGrid.row_region. intros Hv.
  destruct (bool_decide_reflect (bottom < top)); [done|].
  by rewrite (bool_decide_true (size_rows (grid_size g) ≤ bottom)) by lia.
Qed.

Lemma region_length top bottom g :
  grid_ok g → region_valid top bottom g →
  length (take (bottom + 1 - top) (drop top (grid_rows g))) = bottom + 1 - top.
Proof. intros [Hlen _] [Htb Hb]. rewrite length_take, length_drop. lia. Qed.

(** A region put back: the rows outside it stay, those inside are the new
    ones. *)
Lemma put_region_lookup top bottom region g i :
  grid_ok g → region_valid top bottom g → length region = bottom + 1 - top →
  grid_rows (TerminalGrid.put_region top bottom region g) !! i =
    if bool_decide (top ≤ i ≤ bottom) then region !! (i - top) else grid_rows g !! i.
Proof.
  intros [Hlen _] [Htb Hb] Hr. simpl. case_bool_decide as Hi.
  - rewrite lookup_app_r by (rewrite length_take; lia). rewrite length_take.
    rewrite lookup_app_l by lia. f_equal. lia.
  - destruct (decide (i < top)).
    + rewrite lookup_app_l by (rewrite length_take; lia). by rewrite lookup_take_lt by lia.
    + rewrite lookup_app_r by (rewrite length_take; lia). rewrite length_take.
      rewrite lookup_app_r by lia. rewrite lookup_drop. f_equal. lia.
Qed.

Lemma put_region_ok top bottom region g :
  grid_ok g → region_valid top bottom g → length region = bottom + 1 - top →
  Forall (λ r, length (row_cells r) = size_columns (grid_size g)) region →
  grid_ok (TerminalGrid.put_region top bottom region g).
Proof.
  intros [Hlen Hrows] [Htb Hb] Hr HF. split; simpl.
  - rewrite !length_app, length_take, length_drop. lia.
  - apply Forall_app_2; [by apply Forall_take|apply Forall_app_2; [done|by apply Forall_drop]].
Qed.

(** The region after scrolling up or down by [k] rows, in one formula. *)
Definition scrolled_up (k : nat) (b : GridRow) (l : list GridRow) : list GridRow :=
  drop k l ++ replicate k b.
Definition scrolled_down (k : nat) (b : GridRow) (l : list GridRow) : list GridRow :=
  replicate k b ++ take (length l - k) l.

Lemma const_fmap_replicate {A B} (b : B) (l : list A) : (λ _, b) <$> l = replicate (length l) b.
Proof. induction l; simpl; by f_equal. Qed.

Lemma rotate_up_rows_eq top bottom count blank seqno g :
  grid_ok g → region_valid top bottom g → 0 < count →
  let region := take (bottom + 1 - top) (drop top (grid_rows g)) in
  let k := count `min` (bottom + 1 - top) in
  TerminalGrid.rotate_up_rows top bottom count blank seqno g =
    (take k region,
     TerminalGrid.put_region top bottom
       (scrolled_up k (GridRow.blank (size_columns (grid_size g)) blank seqno) region) g).
Proof.
  intros Hok Hv Hc region k. unfold TerminalGrid.rotate_up_rows.
  rewrite row_region_valid by done. fold region.
  pose proof (region_length _ _ _ Hok Hv) as Hl. fold region in Hl.
  rewrite Hl. fold k. destruct Hv as [Htb Hb]. rewrite bool_decide_false by lia.
  rewrite length_rotate_left, Hl. unfold rotate_left, TerminalGrid.replace_all, scrolled_up.
  rewrite drop_app_length' by (rewrite length_drop; lia).
  rewrite take_app_length' by (rewrite length_drop; lia).
  rewrite const_fmap_replicate, length_take, Hl.
  by replace (k `min` (bottom + 1 - top)) with k by lia.
Qed.

Lemma scroll_down_rows_eq top bottom count blank seqno g :
  grid_ok g → region_valid top bottom g → 0 < count →
  let region := take (bottom + 1 - top) (drop top (grid_rows g)) in
  let k := count `min` (bottom + 1 - top) in
  TerminalGrid.scroll_down_rows top bottom count blank seqno g =
     TerminalGrid.put_region top bottom
       (scrolled_down k (GridRow.blank (size_columns (grid_size g)) blank seqno) region) g.
Proof.
  intros Hok Hv Hc region k. unfold TerminalGrid.scroll_down_rows.
  rewrite row_region_valid by done. fold region.
  pose proof (region_length _ _ _ Hok Hv) as Hl. fold region in Hl.
  rewrite Hl. fold k. destruct Hv as [Htb Hb]. rewrite bool_decide_false by lia.
  unfold rotate_right, TerminalGrid.replace_all, scrolled_down. rewrite Hl.
  rewrite drop_app_length' by (rewrite length_drop; lia).
  rewrite take_app_length' by (rewrite length_drop; lia).
  rewrite const_fmap_replicate, length_drop, Hl.
  by replace (bottom + 1 - top - (bottom + 1 - top - k)) with k by lia.
Qed.

Lemma rotate_up_rows_noop top bottom count blank seqno g :
  ¬ region_valid top bottom g ∨ count = 0 →
  TerminalGrid.rotate_up_rows top bottom count blank seqno g = ([], g).
Proof.
  intros [Hv| ->]; unfold TerminalGrid.rotate_up_rows.
  - by rewrite row_region_invalid.
  - by destruct (TerminalGrid.row_region top bottom g).
Qed.

Lemma scroll_down_rows_noop top bottom count blank seqno g :
  ¬ region_valid top bottom g ∨ count = 0 →
  TerminalGrid.scroll_down_rows top bottom count blank seqno g = g.
Proof.
  intros [Hv| ->]; unfold TerminalGrid.scroll_down_rows.
  - by rewrite row_region_invalid.
  - by destruct (TerminalGrid.row_region top bottom g).
Qed.

Lemma scrolled_up_length k b l : k ≤ length l → length (scrolled_up k b l) = length l.
Proof. intros. unfold scrolled_up. rewrite length_app, length_drop, length_replicate. lia. Qed.

Lemma scrolled_down_length k b l : k ≤ length l → length (scrolled_down k b l) = length l.
Proof. intros. unfold scrolled_down. rewrite length_app, length_take, length_replicate. lia. Qed.

Lemma scrolled_up_lookup k b l i :
  k ≤ length l → i < length l →
  scrolled_up k b l !! i = if bool_decide (i + k < length l) then l !! (i + k) else Some b.
Proof.
  intros Hk Hi. unfold scrolled_up. case_bool_decide.
  - rewrite lookup_app_l by (rewrite length_drop; lia). rewrite lookup_drop. f_equal. lia.
  - rewrite lookup_app_r by (rewrite length_drop; lia).
    rewrite lookup_replicate_2; [done|rewrite length_drop; lia].
Qed.

Lemma scrolled_down_lookup k b l i :
  k ≤ length l → i < length l →
  scrolled_down k b l !! i = if bool_decide (i < k) then Some b else l !! (i - k).
Proof.
  intros Hk Hi. unfold scrolled_down. case_bool_decide.
  - rewrite lookup_app_l by (rewrite length_replicate; lia). by rewrite lookup_replicate_2.
  - rewrite lookup_app_r, length_replicate by (rewrite length_replicate; lia).
    by rewrite lookup_take_lt by lia.
Qed.

Lemma scrolled_rows_width (n k : nat) b (l : list GridRow) :
  length (row_cells b) = n → Forall (λ r, length (row_cells r) = n) l →
  Forall (λ r, length (row_cells r) = n) (scrolled_up k b l) ∧
  Forall (λ r, length (row_cells r) = n) (scrolled_down k b l).
Proof.
  intros Hb Hl. split; apply Forall_app_2;
    auto using Forall_drop, Forall_take, Forall_replicate.
Qed.

Lemma region_rows_width top bottom g :
  grid_ok g →
  Forall (λ r, length (row_cells r) = size_columns (grid_size g))
    (take (bottom + 1 - top) (drop top (grid_rows g))).
Proof. intros [_ H]. auto using Forall_drop, Forall_take. Qed.

Lemma scroll_up_ok top bottom count blank seqno g :
  grid_ok g → grid_ok (TerminalGrid.rotate_up_rows top bottom count blank seqno g).2.
Proof.
  intros Hok. destruct (decide (¬ region_valid top bottom g ∨ count = 0)) as [Hn|Hn].
  { by rewrite rotate_up_rows_noop. }
  assert (region_valid top bottom g) as Hv by (destruct (decide (region_valid top bottom g)); tauto).
  rewrite rotate_up_rows_eq by (done || lia). apply put_region_ok; [done..| |].
  - rewrite scrolled_up_length; rewrite region_length by done; [done|lia].
  - apply scrolled_rows_width; [apply length_replicate|by apply region_rows_width].
Qed.

Lemma scroll_down_ok top bottom count blank seqno g :
  grid_ok g → grid_ok (TerminalGrid.scroll_down_rows top bottom count blank seqno g).
Proof.
  intros Hok. destruct (decide (¬ region_valid top bottom g ∨ count = 0)) as [Hn|Hn].
  { by rewrite scroll_down_rows_noop. }
  assert (region_valid top bottom g) as Hv by (destruct (decide (region_valid top bottom g)); tauto).
  rewrite scroll_down_rows_eq by (done || lia). apply put_region_ok; [done..| |].
  - rewrite scrolled_down_length; rewrite region_length by done; [done|lia].
  - apply scrolled_rows_width; [apply length_replicate|by apply region_rows_width].
Qed.

Lemma run_grid_op_ok g op : grid_ok g → grid_ok (run_grid_op g op).
Proof.
  intros Hok. destruct op; simpl;
    unfold TerminalGrid.set, TerminalGrid.set_row_wrapped, TerminalGrid.set_reflow_overflow,
      TerminalGrid.set_row_last_change_seqno, TerminalGrid.update_row;
    try (by apply resize_with_seqno_ok); try (by apply scroll_up_ok);
    try (by apply scroll_down_ok);
    destruct (grid_rows g !! row) as [r|] eqn:Hr; try done;
    pose proof (grid_ok_row g row r Hok Hr) as Hw.
  - destruct (row_cells r !! column) eqn:Hc; [|done].
    apply grid_ok_insert; [done|]. simpl. by rewrite length_insert.
  - by apply grid_ok_insert.
  - by apply grid_ok_insert.
  - by apply grid_ok_insert.
Qed.

Lemma run_grid_op_size g op : grid_size (run_grid_op g op) = op_size (grid_size g) op.
Proof.
  destruct op; simpl; try done;
    unfold TerminalGrid.set, TerminalGrid.set_row_wrapped, TerminalGrid.set_reflow_overflow,
      TerminalGrid.set_row_last_change_seqno, TerminalGrid.update_row,
      TerminalGrid.scroll_up_rows_discarding, TerminalGrid.rotate_up_rows,
      TerminalGrid.scroll_down_rows, TerminalGrid.replace_all;
    repeat case_match; done.
Qed.

Lemma new_with_seqno_ok size seqno : grid_ok (TerminalGrid.new_with_seqno size seqno).
Proof.
  split; simpl.
  - by rewrite length_fmap, length_seq.
  - apply Forall_fmap, Forall_true. intros. apply length_replicate.
Qed.

Lemma grid_ok_get g row column :
  grid_ok g →
  is_Some (TerminalGrid.get row column g) ↔
    row < size_rows (grid_size g) ∧ column < size_columns (grid_size g).
Proof.
  intros Hok. unfold TerminalGrid.get. pose proof Hok as [Hlen _].
  destruct (grid_rows g !! row) as [r|] eqn:Hr; simpl.
  - rewrite lookup_lt_is_Some, (grid_ok_row g row r Hok Hr).
    apply lookup_lt_Some in Hr. lia.
  - apply lookup_ge_None_1 in Hr. split; [by intros []|lia].
Qed.

(** whatever operations are run on a fresh grid, in whatever order and
    with whatever arguments, a cell can be read at exactly the coordinates
    inside the size the last resize asked for: every row exists, no row is
    longer or shorter than the width, and no operation panics or shears a
    row. *)
Theorem grid_reads_exactly_its_size size seqno ops row column :
  let g := foldl run_grid_op (TerminalGrid.new_with_seqno size seqno) ops in
  let final := foldl op_size size ops in
  grid_size g = final ∧
  (is_Some (TerminalGrid.get row column g) ↔
     row < size_rows final ∧ column < size_columns final).
Proof.
  intros g final.
  assert (∀ g0, grid_ok g0 → grid_ok (foldl run_grid_op g0 ops) ∧
            grid_size (foldl run_grid_op g0 ops) = foldl op_size (grid_size g0) ops) as Hrun.
  { clear. induction ops as [|op ops IH]; intros g0 H0; simpl; [done|].
    rewrite <-run_grid_op_size. apply IH. by apply run_grid_op_ok. }
  destruct (Hrun _ (new_with_seqno_ok size seqno)) as [Hok Hs].
  split; [exact Hs|]. unfold final. simpl in Hs. rewrite <-Hs. by apply grid_ok_get.
Qed.

(** A region scrolled up, row by row. *)
Lemma rotate_up_lookup top bottom count blank seqno g :
  grid_ok g → region_valid top bottom g →
  let k := count `min` (bottom + 1 - top) in
  let fresh := GridRow.blank (size_columns (grid_size g)) blank seqno in
  let '(exiting, g') := TerminalGrid.rotate_up_rows top bottom count blank seqno g in
  (∀ i, exiting !! i = if bool_decide (i < k) then grid_rows g !! (top + i) else None) ∧
  (∀ i, grid_rows g' !! i =
     if bool_decide (top ≤ i ≤ bottom)
     then if bool_decide (i + k ≤ bottom) then grid_rows g !! (i + k) else Some fresh
     else grid_rows g !! i).
Proof.
  intros Hok Hv k fresh.
  pose proof (region_length _ _ _ Hok Hv) as Hl. pose proof Hv as [Htb Hb].
  destruct (decide (count = 0)) as [-> |Hc].
  { rewrite rotate_up_rows_noop by auto. split; intros i.
    - by rewrite bool_decide_false by lia.
    - rewrite Nat.add_0_r. repeat case_bool_decide; (done || lia). }
  rewrite rotate_up_rows_eq by (done || lia). fold k. fold fresh. split; intros i.
  - case_bool_decide.
    + rewrite !lookup_take_lt by lia. by rewrite lookup_drop.
    + apply lookup_ge_None_2. rewrite length_take. lia.
  - rewrite put_region_lookup by (try apply Hv; try done; rewrite scrolled_up_length; lia).
    case_bool_decide; [|done].
    rewrite scrolled_up_lookup by lia. rewrite Hl.
    rewrite (bool_decide_ext (i - top + k < bottom + 1 - top) (i + k ≤ bottom)) by lia.
    case_bool_decide; [|done].
    rewrite lookup_take_lt, lookup_drop by lia. f_equal. lia.
Qed.

(** scrolling the rows [top..=bottom] up hands out, in order, the first
    [min(count, height)] rows of the region whole (cells, overflow, wrap mark
    and sequence number), moves every other row of the region up by that
    many, leaves blank rows behind, and touches no row outside. *)
Theorem scroll_up_rows_spec top bottom count blank seqno g
    (Hok : grid_ok g) (Hv : region_valid top bottom g) :
  let k := count `min` (bottom + 1 - top) in
  let fresh := GridRow.blank (size_columns (grid_size g)) blank seqno in
  let '(exiting, g') := TerminalGrid.scroll_up_rows top bottom count blank seqno g in
  (∀ i, exiting !! i = if bool_decide (i < k) then grid_rows g !! (top + i) else None) ∧
  (∀ i, grid_rows g' !! i =
     if bool_decide (top ≤ i ≤ bottom)
     then if bool_decide (i + k ≤ bottom) then grid_rows g !! (i + k) else Some fresh
     else grid_rows g !! i).
Proof. by apply rotate_up_lookup. Qed.

(** scrolling the rows [top..=bottom] down moves every row of the region
    down by [min(count, height)], fills the top of the region with blank
    rows, drops the rows pushed past [bottom], and touches no row outside. *)
Theorem scroll_down_rows_spec top bottom count blank seqno g
    (Hok : grid_ok g) (Hv : region_valid top bottom g) i :
  let k := count `min` (bottom + 1 - top) in
  grid_rows (TerminalGrid.scroll_down_rows top bottom count blank seqno g) !! i =
    if bool_decide (top ≤ i ≤ bottom)
    then if bool_decide (i < top + k)
         then Some (GridRow.blank (size_columns (grid_size g)) blank seqno)
         else grid_rows g !! (i - k)
    else grid_rows g !! i.
Proof.
  intros k. pose proof (region_length _ _ _ Hok Hv) as Hl. pose proof Hv as [Htb Hb].
  destruct (decide (count = 0)) as [-> |Hc].
  { rewrite scroll_down_rows_noop by auto. rewrite Nat.sub_0_r.
    repeat case_bool_decide; (done || lia). }
  rewrite scroll_down_rows_eq by (done || lia). fold k.
  rewrite put_region_lookup by (try apply Hv; try done; rewrite scrolled_down_length; lia).
  case_bool_decide; [|done].
  rewrite scrolled_down_lookup by lia.
  rewrite (bool_decide_ext (i - top < k) (i < top + k)) by lia.
  case_bool_decide; [done|]. rewrite lookup_take_lt, lookup_drop by lia. f_equal. lia.
Qed.

Lemma resize_with_seqno_keeps_cells size seqno g row column :
  grid_ok g →
  let g' := TerminalGrid.resize_with_seqno size seqno g in
  TerminalGrid.get row column g' =
    (if bool_decide (row < size_rows size ∧ column < size_columns size)
     then Some (default Cell.default (TerminalGrid.get row column g))
     else None) ∧
  (size_columns size = size_columns (grid_size g) → row < size_rows size →
   row < size_rows (grid_size g) → grid_rows g' !! row = grid_rows g !! row).
Proof.
  intros Hok g'. unfold g', TerminalGrid.resize_with_seqno, TerminalGrid.get. simpl.
  rewrite resize_rows_lookup.
  split.
  - destruct (decide (row < size_rows size)) as [Hr|Hr].
    2: { rewrite !bool_decide_false by lia. done. }
    rewrite (bool_decide_true (row < size_rows size)) by done. simpl.
    rewrite (bool_decide_ext (row < _ ∧ column < _) (column < size_columns size)) by lia.
    destruct (grid_rows g !! row) as [r|]; simpl.
    + unfold GridRow.resize_columns. destruct (_ =? _); simpl; apply vec_resize_lookup.
    + case_bool_decide; [by rewrite lookup_replicate_2|].
      apply lookup_ge_None_2. rewrite length_replicate. lia.
  - intros Hc Hr Hr'. rewrite bool_decide_true by done. pose proof Hok as [Hlen _].
    destruct (lookup_lt_is_Some_2 (grid_rows g) row) as [r Hrow]; [lia|]. rewrite Hrow.
    rewrite Hc, Nat.eqb_refl. unfold GridRow.resize_columns, vec_resize.
    rewrite take_ge, (grid_ok_row g row r Hok Hrow), Nat.sub_diag, app_nil_r
      by (rewrite (grid_ok_row g row r Hok Hrow); lia).
    by destruct r.
Qed.

(** resizing keeps every cell that fits both sizes, pads with default
    cells, and when the width does not change keeps each surviving row whole
    (overflow cells, wrap mark and sequence number). *)
Theorem resize_keeps_cells size g (Hok : grid_ok g) row column :
  let g' := TerminalGrid.resize size g in
  TerminalGrid.get row column g' =
    (if bool_decide (row < size_rows size ∧ column < size_columns size)
     then Some (default Cell.default (TerminalGrid.get row column g))
     else None) ∧
  (size_columns size = size_columns (grid_size g) → row < size_rows size →
   row < size_rows (grid_size g) → grid_rows g' !! row = grid_rows g !! row).
Proof. by apply resize_with_seqno_keeps_cells. Qed.

(** ** Witnesses *)

Definition sample_grid : TerminalGrid :=
  foldl run_grid_op (TerminalGrid.new (mkTerminalSize 2 4))
    [OpSet 0 0 (Cell.with_char 65); OpSet 1 1 (Cell.with_char 66); OpSetWrapped 2 true;
     OpSetSeqno 3 7].

Lemma sample_grid_ok : grid_ok sample_grid.
Proof. split; [done|]. repeat constructor. Qed.

Lemma sample_region : region_valid 1 3 sample_grid.
Proof. split; [lia|]. change (3 < 4). lia. Qed.

Lemma scroll_up_rows_spec_witness :
  grid_ok sample_grid ∧ region_valid 1 3 sample_grid ∧
  grid_rows (TerminalGrid.scroll_up_rows 1 3 2 Cell.default 9 sample_grid).2 !! 1 =
    grid_rows sample_grid !! 3.
Proof.
  split; [apply sample_grid_ok|]. split; [apply sample_region|].
  pose proof (scroll_up_rows_spec 1 3 2 Cell.default 9 sample_grid sample_grid_ok
    sample_region) as H.
  cbv zeta in H. destruct (TerminalGrid.scroll_up_rows 1 3 2 Cell.default 9 sample_grid).
  destruct H as [_ H]. apply (H 1).
Defined.

Lemma scroll_down_rows_spec_witness :
  grid_ok sample_grid ∧ region_valid 1 3 sample_grid ∧
  grid_rows (TerminalGrid.scroll_down_rows 1 3 2 Cell.default 9 sample_grid) !! 3 =
    grid_rows sample_grid !! 1.
Proof.
  split; [apply sample_grid_ok|]. split; [apply sample_region|].
  apply (scroll_down_rows_spec 1 3 2 Cell.default 9 sample_grid sample_grid_ok
    sample_region 3).
Defined.

Lemma resize_keeps_cells_witness :
  grid_ok sample_grid ∧
  TerminalGrid.get 0 0 (TerminalGrid.resize (mkTerminalSize 5 1) sample_grid) =
    Some (Cell.with_char 65).
Proof.
  split; [apply sample_grid_ok|].
  apply (resize_keeps_cells (mkTerminalSize 5 1) sample_grid sample_grid_ok 0 0).
Defined.

(** ** Scrollback *)

Lemma pop_fronts_drop {A} n (l : list A) : pop_fronts n l = drop n l.
Proof.
  revert l. induction n as [|n IH]; intros [|x l]; simpl; auto.
  rewrite IH. by destruct n.
Qed.

(** Eviction removes exactly the oldest rows, and reports how many. *)
Lemma evict_front_spec {A} count (h : HistoryBuffer A) :
  evict_front count h =
    (count `min` length (history_rows h), mkHistoryBuffer (drop count (history_rows h))).
Proof.
  unfold evict_front. case_bool_decide as H.
  - rewrite drop_ge by lia. done.
  - by rewrite pop_fronts_drop, Nat.min_l by lia.
Qed.
