(* ===== verification/Csi.v ===== *)
(** Parameters of control sequences and the SGR attributes they select
    ([rssh-terminal/src/parser.rs]): [parse_csi_params] and its readers,
    [parse_sgr_params], [parse_extended_color] and [Terminal::apply_sgr] on
    the current style. Parameter values are [u16] and kept as [Z]. *)
From coqutil Require Import Datatypes.RecordSetters.
From S2P Require Import Prelude Text Grid.
Import DoubleBraceUpdate.

#[global] Arguments constant {E} newValue _ /.

Local Open Scope Z_scope.

(** ** Text *)

(** [str::split(c)]: always at least one piece. *)
Fixpoint split_on (c : Z) (s : rstring) : list rstring :=
  match s with
  | [] => [[]]
  | x :: s' =>
      if bool_decide (x = c) then [] :: split_on c s'
      else match split_on c s' with
           | piece :: rest => (x :: piece) :: rest
           | [] => [[x]]
           end
  end.

Definition is_digit (c : Z) : bool := (48 <=? c) && (c <=? 57).

(** The digit loop of [u16::from_str], with its checked arithmetic. *)
Fixpoint parse_digits (acc : Z) (s : rstring) : option Z :=
  match s with
  | [] => Some acc
  | c :: s' =>
      if is_digit c then
        let next := acc * 10 + (c - 48) in
        if next <=? u16_max then parse_digits next s' else None
      else None
  end.

(** [str::parse::<u16>()]: a leading [+] is accepted, alone it is not. *)
Definition parse_u16 (s : rstring) : option Z :=
  match s with
  | [] => None
  | c :: s' =>
      if bool_decide (c = 43) then (if bool_decide (s' = []) then None else parse_digits 0 s')
      else parse_digits 0 s
  end.

(** ** CSI parameters *)

Definition parse_csi_params (params : rstring) : list Z :=
  (λ part, if bool_decide (part = []) then 0 else default 0 (parse_u16 part))
    <$> split_on 59 params.

Definition parse_private_csi_params (params : rstring) : option (list Z) :=
  match params with
  | c :: rest => if bool_decide (c = 63) then Some (parse_csi_params rest) else None
  | [] => None
  end.

Definition param_or_one (value : option Z) : Z :=
  match value with
  | None => 1
  | Some v => if bool_decide (v = 0) then 1 else v
  end.

Definition csi_count (params : rstring) : Z := param_or_one (head (parse_csi_params params)).
Definition csi_mode (params : rstring) : Z := default 0 (head (parse_csi_params params)).

Definition csi_or_private_mode (params : rstring) : Z :=
  default 0 (head (match parse_private_csi_params params with
                   | Some l => l
                   | None => parse_csi_params params
                   end)).

Definition csi_is_private (params : rstring) : bool :=
  match params with c :: _ => bool_decide (c = 63) | [] => false end.

(** ** SGR parameters *)

Inductive SgrParameter :=
| Code (code : Z)
| SgrUnderlineStyle (style : UnderlineStyle).

Definition parse_sgr_numeric_part (part : rstring) : Z :=
  if bool_decide (part = []) then 0 else default 0 (parse_u16 part).

Definition underline_style_from_sgr (style : Z) : UnderlineStyle :=
  match style with
  | 0 => UnderlineNone
  | 2 => UnderlineDouble
  | 3 => UnderlineCurly
  | 4 => UnderlineDotted
  | 5 => UnderlineDashed
  | _ => UnderlineSingle
  end.

(** One [;]-separated group. *)
Definition parse_sgr_group (group : rstring) : list SgrParameter :=
  if bool_decide (group = []) then [Code 0]
  else
    let values := parse_sgr_numeric_part <$> split_on 58 group in
    if bool_decide (58 ∈ group) && bool_decide (head values = Some 4)
    then [SgrUnderlineStyle (match values !! 1%nat with
                             | None => UnderlineNone
                             | Some v => underline_style_from_sgr v
                             end)]
    else Code <$> values.

Definition parse_sgr_params (params : rstring) : list SgrParameter :=
  if bool_decide (params = []) then [Code 0]
  else split_on 59 params ≫= parse_sgr_group.

Definition saturating_u8 (value : Z) : Z := if value <=? 255 then value else 255.

(** The colour and the number of parameters it takes. *)
Definition parse_extended_color (values : list SgrParameter) : option (Color * nat) :=
  match values with
  | Code 5 :: Code index :: _ => Some (Indexed (saturating_u8 index), 2%nat)
  | Code 2 :: Code 0 :: Code r :: Code g :: Code b :: _ =>
      Some (Rgb (saturating_u8 r) (saturating_u8 g) (saturating_u8 b), 5%nat)
  | Code 2 :: Code r :: Code g :: Code b :: _ =>
      Some (Rgb (saturating_u8 r) (saturating_u8 g) (saturating_u8 b), 4%nat)
  | Code 6 :: Code 0 :: Code r :: Code g :: Code b :: Code a :: _ =>
      Some (Rgba (saturating_u8 r) (saturating_u8 g) (saturating_u8 b) (saturating_u8 a), 6%nat)
  | Code 6 :: Code r :: Code g :: Code b :: Code a :: _ =>
      Some (Rgba (saturating_u8 r) (saturating_u8 g) (saturating_u8 b) (saturating_u8 a), 5%nat)
  | _ => None
  end.

(** ** The current style *)

Definition apply_underline_style (style : UnderlineStyle) (c : Cell) : Cell :=
  c{{ underline_style := style;
      underline := match style with
                   | UnderlineSingle | UnderlineCurly | UnderlineDotted | UnderlineDashed => true
                   | UnderlineNone | UnderlineDouble => false
                   end;
      double_underline := match style with UnderlineDouble => true | _ => false end }}.

Definition reset_style (c : Cell) : Cell :=
  Cell.default{{ hyperlink := hyperlink c; semantic_type := semantic_type c }}.

Definition in_range (lo hi x : Z) : bool := (lo <=? x) && (x <=? hi).

(** The arms of [apply_sgr] for a code that takes no further parameters. *)
Definition apply_simple_code (code : Z) (c : Cell) : Cell :=
  if code =? 0 then reset_style c
  else if code =? 1 then c{{ bold := true }}
  else if code =? 2 then c{{ faint := true }}
  else if code =? 3 then c{{ italic := true }}
  else if code =? 4 then apply_underline_style UnderlineSingle c
  else if code =? 5 then c{{ blink := true; rapid_blink := false }}
  else if code =? 6 then c{{ blink := true; rapid_blink := true }}
  else if code =? 7 then c{{ inverse := true }}
  else if code =? 8 then c{{ conceal := true }}
  else if code =? 9 then c{{ strikethrough := true }}
  else if code =? 22 then c{{ bold := false; faint := false }}
  else if code =? 21 then apply_underline_style UnderlineDouble c
  else if code =? 23 then c{{ italic := false }}
  else if code =? 24 then apply_underline_style UnderlineNone c
  else if code =? 25 then c{{ blink := false; rapid_blink := false }}
  else if code =? 27 then c{{ inverse := false }}
  else if code =? 28 then c{{ conceal := false }}
  else if code =? 29 then c{{ strikethrough := false }}
  else if code =? 39 then c{{ foreground := DefaultColor }}
  else if code =? 49 then c{{ background := DefaultColor }}
  else if code =? 53 then c{{ overline := true }}
  else if code =? 55 then c{{ overline := false }}
  else if code =? 73 then c{{ vertical_align := Superscript }}
  else if code =? 74 then c{{ vertical_align := Subscript }}
  else if code =? 75 then c{{ vertical_align := Baseline }}
  else if code =? 59 then c{{ underline_color := DefaultColor }}
  else if in_range 30 37 code then c{{ foreground := Indexed (saturating_u8 (code - 30)) }}
  else if in_range 40 47 code then c{{ background := Indexed (saturating_u8 (code - 40)) }}
  else if in_range 90 97 code then c{{ foreground := Indexed (saturating_u8 (code - 90 + 8)) }}
  else if in_range 100 107 code then c{{ background := Indexed (saturating_u8 (code - 100 + 8)) }}
  else c.

Definition set_extended_color (code : Z) (color : Color) (c : Cell) : Cell :=
  if code =? 38 then c{{ foreground := color }}
  else if code =? 48 then c{{ background := color }}
  else if code =? 58 then c{{ underline_color := color }}
  else c.

Definition takes_color (code : Z) : bool := (code =? 38) || (code =? 48) || (code =? 58).

(** One round of the [while] of [apply_sgr] on the parameters from [index]
    on: the new style and how far [index] moves. *)
Definition sgr_step (values : list SgrParameter) (c : Cell) : Cell * nat :=
  match values with
  | [] => (c, 1%nat)
  | SgrUnderlineStyle style :: _ => (apply_underline_style style c, 1%nat)
  | Code code :: rest =>
      if takes_color code then
        match parse_extended_color rest with
        | Some (color, consumed) => (set_extended_color code color c, (consumed + 1)%nat)
        | None => (c, 1%nat)
        end
      else (apply_simple_code code c, 1%nat)
  end.

(** [while index < values.len()]; [None] is running out of fuel. *)
Fixpoint sgr_loop (fuel : nat) (values : list SgrParameter) (index : nat) (c : Cell) :
    option Cell :=
  if (index <? length values)%nat then
    match fuel with
    | O => None
    | S fuel' =>
        let '(c', moved) := sgr_step (drop index values) c in
        sgr_loop fuel' values (index + moved) c'
    end
  else Some c.

(** Each round moves [index] forward, so the number of parameters is enough
    fuel. *)
Definition apply_sgr (params : rstring) (c : Cell) : option Cell :=
  let values := parse_sgr_params params in sgr_loop (length values) values 0 c.
