(* ===== verification/Parse.v ===== *)
(** String functions of the standard library that the control and graphics
    code of [rssh-terminal] uses: [strip_prefix], [split_once], [find],
    [str::parse] for the integer types, and decimal [to_string]. *)
From S2P Require Import Prelude Text Csi.

(** [strip_prefix] and [strip_suffix]. *)
Fixpoint strip_prefix (p s : rstring) : option rstring :=
  match p, s with
  | [], _ => Some s
  | _ :: _, [] => None
  | a :: p, b :: s => if (a =? b)%Z then strip_prefix p s else None
  end.

Definition strip_suffix (p s : rstring) : option rstring :=
  (λ l, rev l) <$> strip_prefix (rev p) (rev s).

(** [split_once(c)]. *)
Fixpoint split_once (c : Z) (s : rstring) : option (rstring * rstring) :=
  match s with
  | [] => None
  | x :: rest =>
      if (x =? c)%Z then Some ([], rest)
      else (λ p, (x :: p.1, p.2)) <$> split_once c rest
  end.

(** The digit loop of [from_str] for an unsigned type with the given maximum. *)
Fixpoint parse_unsigned_digits (limit acc : Z) (s : rstring) : option Z :=
  match s with
  | [] => Some acc
  | c :: s' =>
      if is_digit c then
        let next := (acc * 10 + (c - 48))%Z in
        if (next <=? limit)%Z then parse_unsigned_digits limit next s' else None
      else None
  end.

(** [str::parse] for an unsigned type: a leading [+] is accepted, alone it is
    not. *)
Definition parse_unsigned (limit : Z) (s : rstring) : option Z :=
  match s with
  | [] => None
  | c :: s' =>
      if (c =? 43)%Z then (if bool_decide (s' = []) then None else parse_unsigned_digits limit 0 s')
      else parse_unsigned_digits limit 0 s
  end.

Definition u8_max : Z := 255.
Definition u32_max : Z := 4294967295.

Definition parse_u8 : rstring → option Z := parse_unsigned u8_max.
Definition parse_u32 : rstring → option Z := parse_unsigned u32_max.
Definition parse_u64 : rstring → option Z := parse_unsigned u64_max.

(** [str::parse::<i32>()]: an optional sign and digits; the negative range
    has one more value. *)
Definition parse_i32 (s : rstring) : option Z :=
  match s with
  | [] => None
  | c :: s' =>
      if (c =? 45)%Z then
        (if bool_decide (s' = []) then None
         else Z.opp <$> parse_unsigned_digits 2147483648 0 s')
      else if (c =? 43)%Z then
        (if bool_decide (s' = []) then None else parse_unsigned_digits i32_max 0 s')
      else parse_unsigned_digits i32_max 0 s
  end.

(** [to_string] of an unsigned integer: the digits of [n], most significant
    first; a [u64] has at most twenty. *)
Fixpoint show_digits (fuel : nat) (n : Z) (acc : rstring) : rstring :=
  match fuel with
  | O => acc
  | S fuel =>
      let acc := (48 + n `mod` 10)%Z :: acc in
      if (n <? 10)%Z then acc else show_digits fuel (n / 10) acc
  end.

Definition show_unsigned (n : Z) : rstring := show_digits 20 n [].
