(* ===== verification/CsiFacts.v ===== *)
(** Facts about control-sequence parameters and SGR: what the parameter
    parser reads back from printed numbers, how sequences of attributes
    compose, the style invariant, and where colours are misread. *)
From coqutil Require Import Datatypes.RecordSetters.
From S2P Require Import Prelude Text Grid Csi.
Import DoubleBraceUpdate.

Local Open Scope Z_scope.

(** ** Splitting and joining *)

(** The pieces with [c] between them. *)
Fixpoint join (c : Z) (ps : list rstring) : rstring :=
  match ps with
  | [] => []
  | [p] => p
  | p :: rest => p ++ c :: join c rest
  end.

Lemma split_on_ne c s : split_on c s ≠ [].
Proof. destruct s as [|x s]; simpl; [done|]. repeat case_match; done. Qed.

Lemma split_on_piece c p : c ∉ p → split_on c p = [p].
Proof.
  induction p as [|x p IH]; simpl; [done|]. rewrite not_elem_of_cons. intros [Hx Hp].
  rewrite bool_decide_false by done. by rewrite (IH Hp).
Qed.

Lemma split_on_cons c p s : c ∉ p → split_on c (p ++ c :: s) = p :: split_on c s.
Proof.
  induction p as [|x p IH]; simpl.
  - by rewrite bool_decide_true.
  - rewrite not_elem_of_cons. intros [Hx Hp]. rewrite bool_decide_false by done.
    by rewrite (IH Hp).
Qed.

Lemma split_on_join c ps :
  ps ≠ [] → Forall (λ p, c ∉ p) ps → split_on c (join c ps) = ps.
Proof.
  intros Hne HF. induction HF as [|p ps Hp HF IH]; [done|].
  destruct ps as [|q ps]; [by apply split_on_piece|].
  change (split_on c (p ++ c :: join c (q :: ps)) = p :: q :: ps).
  rewrite split_on_cons by done. by rewrite IH.
Qed.

Lemma split_on_app c s t : split_on c (s ++ c :: t) = split_on c s ++ split_on c t.
Proof.
  induction s as [|x s IH]; simpl.
  - by rewrite bool_decide_true.
  - case_bool_decide; [by rewrite IH|]. rewrite IH.
    destruct (split_on c s) eqn:E; [by apply split_on_ne in E|done].
Qed.

(** ** Decimal numbers *)

(** The [w] low decimal digits of [n]. *)
Fixpoint dec_padded (w : nat) (n : Z) : rstring :=
  match w with
  | O => []
  | S w' => dec_padded w' (n / 10) ++ [48 + n `mod` 10]
  end.

(** The shortest decimal notation of a [u16]. *)
Definition show_u16 (n : Z) : rstring :=
  dec_padded (if n <? 10 then 1 else if n <? 100 then 2 else if n <? 1000 then 3
              else if n <? 10000 then 4 else 5) n.

Lemma dec_padded_digits w n : Forall (λ c, is_digit c) (dec_padded w n).
Proof.
  revert n. induction w as [|w IH]; intros n; simpl; [constructor|].
  apply Forall_app_2; [apply IH|]. constructor; [|constructor].
  pose proof (Z.mod_pos_bound n 10). unfold is_digit.
  rewrite (proj2 (Z.leb_le 48 _)), (proj2 (Z.leb_le _ 57)) by lia. done.
Qed.

Lemma parse_digits_app acc s t :
  parse_digits acc (s ++ t) = v ← parse_digits acc s; parse_digits v t.
Proof.
  revert acc. induction s as [|c s IH]; intros acc; simpl; [done|].
  destruct (is_digit c); [|done]. destruct (_ <=? _); [|done]. apply IH.
Qed.

Lemma parse_digits_dec_padded w n :
  0 ≤ n < 10 ^ Z.of_nat w → n ≤ u16_max → parse_digits 0 (dec_padded w n) = Some n.
Proof.
  revert n. induction w as [|w IH]; intros n Hn Hmax; simpl.
  { simpl in Hn. f_equal. lia. }
  rewrite Nat2Z.inj_succ, Z.pow_succ_r in Hn by lia.
  pose proof (Z.mod_pos_bound n 10). pose proof (Z.div_mod n 10).
  rewrite parse_digits_app, IH; simpl.
  - unfold is_digit. rewrite (proj2 (Z.leb_le 48 _)), (proj2 (Z.leb_le _ 57)) by lia. simpl.
    rewrite (proj2 (Z.leb_le _ u16_max)) by lia. f_equal. lia.
  - split; [apply Z.div_pos; lia|apply Z.div_lt_upper_bound; lia].
  - unfold u16_max in *. lia.
Qed.

Lemma parse_digits_u16 s : Forall (λ c, is_digit c) s → s ≠ [] → parse_u16 s = parse_digits 0 s.
Proof.
  intros HF Hne. destruct s as [|c s]; [done|]. apply Forall_cons in HF as [Hc _].
  unfold parse_u16. rewrite bool_decide_false; [done|]. intros ->. done.
Qed.

Lemma dec_padded_ne w n : dec_padded (S w) n ≠ [].
Proof. simpl. by destruct (dec_padded w (n / 10)). Qed.

Lemma show_u16_ne n : show_u16 n ≠ [].
Proof. unfold show_u16. repeat case_match; apply dec_padded_ne. Qed.

Lemma parse_show_u16 n : is_u16 n → parse_u16 (show_u16 n) = Some n.
Proof.
  intros [H0 Hm]. rewrite parse_digits_u16; [|apply dec_padded_digits|apply show_u16_ne].
  unfold show_u16. apply parse_digits_dec_padded; [|done].
  unfold u16_max in *. repeat case_match; rewrite ?Z.ltb_lt, ?Z.ltb_ge in *; simpl; lia.
Qed.

Lemma digits_no_sep c s : Forall (λ c, is_digit c) s → is_digit c = false → c ∉ s.
Proof. intros HF Hc Hin. eapply Forall_forall in HF; [|done]. by rewrite Hc in HF. Qed.

Lemma show_u16_no_sep c n : is_digit c = false → c ∉ show_u16 n.
Proof. intros. apply digits_no_sep; [apply dec_padded_digits|done]. Qed.

(** CSI parameters survive printing and parsing: the [;]-separated decimal
    notation of any non-empty list of 16-bit numbers parses back to exactly
    that list. *)
Theorem csi_params_roundtrip vs :
  vs ≠ [] → Forall is_u16 vs → parse_csi_params (join 59 (show_u16 <$> vs)) = vs.
Proof.
  intros Hne HF. unfold parse_csi_params. rewrite split_on_join.
  - rewrite <-list_fmap_compose. rewrite <-(list_fmap_id vs) at 2.
    apply list_fmap_ext. intros i v Hv. simpl.
    rewrite bool_decide_false by apply show_u16_ne.
    rewrite parse_show_u16; [done|]. by eapply Forall_lookup in HF.
  - by destruct vs.
  - apply Forall_fmap, Forall_true. intros. by apply show_u16_no_sep.
Qed.

(** ** The SGR loop *)

#[local] Arguments sgr_step : simpl never.

Lemma sgr_step_moves values c : (1 ≤ (sgr_step values c).2)%nat.
Proof. unfold sgr_step. repeat case_match; simpl; lia. Qed.

Lemma sgr_loop_drop fuel values index c :
  sgr_loop fuel values index c = sgr_loop fuel (drop index values) 0 c.
Proof.
  revert values index c. induction fuel as [|fuel IH]; intros values index c; simpl.
  - rewrite length_drop. do 2 case_match; rewrite ?Nat.ltb_lt, ?Nat.ltb_ge in *; (done || lia).
  - rewrite length_drop, drop_0.
    destruct (Nat.ltb_spec index (length values)), (Nat.ltb_spec 0 (length values - index));
      try lia; [|done].
    destruct (sgr_step (drop index values) c) as [c' moved]. rewrite IH.
    symmetry. rewrite IH. by rewrite drop_drop.
Qed.

Lemma sgr_loop_fuel fuel fuel' values c :
  (length values ≤ fuel)%nat → (length values ≤ fuel')%nat →
  sgr_loop fuel values 0 c = sgr_loop fuel' values 0 c ∧ is_Some (sgr_loop fuel values 0 c).
Proof.
  revert fuel' values c. induction fuel as [|fuel IH]; intros fuel' values c Hf Hf'.
  { destruct values as [|]; simpl in Hf; [|lia]. destruct fuel'; by split. }
  destruct values as [|v values]; [destruct fuel'; by split|].
  destruct fuel' as [|fuel']; [simpl in *; lia|]. simpl.
  pose proof (sgr_step_moves (v :: values) c).
  destruct (sgr_step (v :: values) c) as [c' moved]. simpl in *.
  rewrite (sgr_loop_drop fuel), (sgr_loop_drop fuel').
  apply IH; rewrite length_drop; simpl; lia.
Qed.

(** The loop on a whole parameter list. *)
Definition sgr_run (values : list SgrParameter) (c : Cell) : option Cell :=
  sgr_loop (length values) values 0 c.

Lemma sgr_run_cons v values c :
  sgr_run (v :: values) c =
    let '(c', moved) := sgr_step (v :: values) c in sgr_run (drop moved (v :: values)) c'.
Proof.
  unfold sgr_run. simpl. pose proof (sgr_step_moves (v :: values) c).
  destruct (sgr_step (v :: values) c) as [c' moved]. simpl in *. rewrite sgr_loop_drop.
  apply sgr_loop_fuel; [|done]. rewrite length_drop. simpl. lia.
Qed.

(** A parameter that reads nothing after itself. *)
Definition self_contained (v : SgrParameter) : Prop :=
  match v with Code code => takes_color code = false | SgrUnderlineStyle _ => True end.

#[export] Instance self_contained_dec v : Decision (self_contained v).
Proof. destruct v; apply _. Defined.

Lemma sgr_run_simple v values c :
  self_contained v → sgr_run (v :: values) c = sgr_run values (sgr_step [v] c).1.
Proof.
  intros Hv. rewrite sgr_run_cons. unfold sgr_step.
  destruct v as [code|style]; simpl in *; [|done].
  by rewrite Hv.
Qed.

Lemma sgr_run_app vs ws c :
  Forall self_contained vs → sgr_run (vs ++ ws) c = sgr_run vs c ≫= sgr_run ws.
Proof.
  intros HF. revert c. induction HF as [|v vs Hv HF IH]; intros c; [done|].
  simpl. rewrite !sgr_run_simple by done. apply IH.
Qed.

Lemma parse_sgr_params_app p q :
  parse_sgr_params (p ++ 59 :: q) = parse_sgr_params p ++ parse_sgr_params q.
Proof.
  assert (∀ r, parse_sgr_params r = split_on 59 r ≫= parse_sgr_group) as Heq.
  { intros r. unfold parse_sgr_params. by case_bool_decide; subst. }
  by rewrite !Heq, split_on_app, bind_app.
Qed.

Lemma apply_sgr_run params c : apply_sgr params c = sgr_run (parse_sgr_params params) c.
Proof. done. Qed.

(** SGR attributes compose: as long as the first sequence selects no
    extended colour (codes 38, 48, 58, which read further parameters), one
    sequence with the parameters of both, joined by [;], styles text exactly
    like the two sequences one after the other. *)
Theorem sgr_composes p q c :
  Forall self_contained (parse_sgr_params p) →
  apply_sgr (p ++ 59 :: q) c = apply_sgr p c ≫= apply_sgr q.
Proof.
  intros HF. rewrite apply_sgr_run, parse_sgr_params_app, sgr_run_app by done. done.
Qed.

Lemma sgr_composes_witness :
  apply_sgr (lit "1;4:3;31" ++ 59 :: lit "48;5;9") Cell.default =
    apply_sgr (lit "1;4:3;31") Cell.default ≫= apply_sgr (lit "48;5;9").
Proof.
  apply (sgr_composes (lit "1;4:3;31") (lit "48;5;9") Cell.default).
  by repeat constructor.
Defined.

Lemma csi_params_roundtrip_witness :
  parse_csi_params (join 59 (show_u16 <$> [1; 0; 65535; 38])) = [1; 0; 65535; 38].
Proof.
  apply (csi_params_roundtrip [1; 0; 65535; 38]); [done|].
  repeat constructor; by vm_compute.
Defined.

(** ** The style invariant *)

Definition is_byte (x : Z) : bool := (0 <=? x) && (x <=? 255).

Definition color_ok (k : Color) : bool :=
  match k with
  | DefaultColor => true
  | Indexed i => is_byte i
  | Rgb r g b => is_byte r && is_byte g && is_byte b
  | Rgba r g b a => is_byte r && is_byte g && is_byte b && is_byte a
  end.

(** What a style always satisfies: no glyph of its own, the two underline
    flags are the ones of the underline style, a rapid blink is a blink, and
    colour components are bytes. *)
Definition style_ok (c : Cell) : bool :=
  match content c with Blank => true | _ => false end &&
  Bool.eqb (underline c) (match underline_style c with
                          | UnderlineNone | UnderlineDouble => false | _ => true end) &&
  Bool.eqb (double_underline c) (match underline_style c with UnderlineDouble => true | _ => false end) &&
  implb (rapid_blink c) (blink c) &&
  color_ok (foreground c) && color_ok (background c) && color_ok (underline_color c).

(** Parameters are never negative. *)
Definition param_ok (v : SgrParameter) : Prop :=
  match v with Code code => 0 ≤ code | SgrUnderlineStyle _ => True end.

#[local] Arguments saturating_u8 : simpl never.
#[local] Arguments is_byte : simpl never.

Lemma saturating_u8_byte x : 0 ≤ x → is_byte (saturating_u8 x) = true.
Proof.
  intros Hx. unfold is_byte, saturating_u8. destruct (Z.leb_spec x 255).
  - by rewrite (proj2 (Z.leb_le 0 x)), (proj2 (Z.leb_le x 255)) by lia.
  - done.
Qed.

Lemma parse_digits_nonneg acc s v : 0 ≤ acc → parse_digits acc s = Some v → 0 ≤ v.
Proof.
  revert acc. induction s as [|c s IH]; intros acc Ha; simpl; [naive_solver|].
  unfold is_digit. destruct (Z.leb_spec 48 c); simpl; [|done].
  destruct (c <=? 57); [|done]. destruct (_ <=? _); [|done]. apply IH. lia.
Qed.

Lemma parse_sgr_numeric_part_nonneg part : 0 ≤ parse_sgr_numeric_part part.
Proof.
  unfold parse_sgr_numeric_part, parse_u16. case_bool_decide; [lia|].
  destruct part as [|c s]; [done|].
  case_bool_decide; [case_bool_decide; simpl; [lia|]|];
    destruct (parse_digits 0 _) eqn:E; simpl; try lia;
    by apply parse_digits_nonneg in E.
Qed.

Lemma parse_sgr_params_ok params : Forall param_ok (parse_sgr_params params).
Proof.
  unfold parse_sgr_params. case_bool_decide; [by repeat constructor|].
  apply Forall_bind, Forall_true. intros group. unfold compose, parse_sgr_group.
  case_bool_decide; [by repeat constructor|]. case_match; [by repeat constructor|].
  apply Forall_fmap, Forall_fmap, Forall_true. intros. apply parse_sgr_numeric_part_nonneg.
Qed.

Lemma parse_extended_color_ok values k n :
  Forall param_ok values → parse_extended_color values = Some (k, n) → color_ok k = true.
Proof.
  intros HF Hp. unfold parse_extended_color in Hp.
  repeat case_match; simplify_eq/=; rewrite ?Forall_cons in HF; simpl in HF;
    rewrite ?saturating_u8_byte by tauto; done || lia.
Qed.

(** The fields SGR never touches. *)
Definition same_link (c c' : Cell) : Prop :=
  hyperlink c' = hyperlink c ∧ semantic_type c' = semantic_type c.

Lemma style_ok_unfold c :
  style_ok c = true ↔
  content c = Blank ∧
  underline c = (match underline_style c with UnderlineNone | UnderlineDouble => false | _ => true end) ∧
  double_underline c = (match underline_style c with UnderlineDouble => true | _ => false end) ∧
  (rapid_blink c = true → blink c = true) ∧
  color_ok (foreground c) = true ∧ color_ok (background c) = true ∧
  color_ok (underline_color c) = true.
Proof.
  unfold style_ok. rewrite !andb_true_iff, !eqb_true_iff.
  destruct (content c), (rapid_blink c), (blink c); simpl; intuition congruence.
Qed.

Lemma apply_underline_style_ok style c :
  style_ok c = true → style_ok (apply_underline_style style c) = true ∧
  same_link c (apply_underline_style style c).
Proof.
  rewrite !style_ok_unfold. intros (?&?&?&?&?&?&?). destruct c. simpl in *.
  split; [|done]. by destruct style.
Qed.

Lemma apply_simple_code_ok code c :
  0 ≤ code → style_ok c = true →
  style_ok (apply_simple_code code c) = true ∧ same_link c (apply_simple_code code c).
Proof.
  intros H0 Hc. pose proof Hc as Hc'.
  rewrite style_ok_unfold in Hc'. destruct Hc' as (?&?&?&?&?&?&?).
  assert (∀ c', same_link c c' → style_ok c' = true →
    style_ok c' = true ∧ same_link c c') as Hboth by done.
  unfold apply_simple_code, in_range.
  repeat match goal with
    | |- style_ok (if ?b then _ else _) = true ∧ _ =>
        destruct b eqn:?;
          [first [by apply apply_underline_style_ok | apply Hboth; [by split|];
             rewrite ?andb_true_iff, ?Z.leb_le in *; rewrite style_ok_unfold; simpl;
             split_and!; try done; by apply saturating_u8_byte; lia]|]
    end.
  by apply Hboth.
Qed.

Lemma set_extended_color_ok code k c :
  color_ok k = true → style_ok c = true →
  style_ok (set_extended_color code k c) = true ∧ same_link c (set_extended_color code k c).
Proof.
  intros Hk Hc. rewrite style_ok_unfold in Hc. destruct Hc as (?&?&?&?&?&?&?).
  unfold set_extended_color.
  destruct (code =? 38); [|destruct (code =? 48); [|destruct (code =? 58)]];
    (split; [rewrite style_ok_unfold; simpl; by split_and!|by split]).
Qed.

Lemma sgr_step_ok values c :
  Forall param_ok values → style_ok c = true →
  style_ok (sgr_step values c).1 = true ∧ same_link c (sgr_step values c).1.
Proof.
  intros HF Hc. unfold sgr_step. destruct values as [|[code|style] values]; [by split|..].
  - apply Forall_cons in HF as [H0 HF]. destruct (takes_color code).
    + destruct (parse_extended_color values) as [[k n]|] eqn:Hp; [|by split].
      apply set_extended_color_ok; [by eapply parse_extended_color_ok|done].
    + by apply apply_simple_code_ok.
  - by apply apply_underline_style_ok.
Qed.

(** SGR always ends and keeps the style well formed: for any parameter
    text whatsoever the attribute loop finishes within one round per
    parameter (any larger fuel gives the same style), the result satisfies
    the style invariant, and hyperlink and semantic type are untouched. *)
Theorem sgr_total_and_well_formed params c :
  style_ok c = true →
  ∃ c', apply_sgr params c = Some c' ∧ style_ok c' = true ∧ same_link c c' ∧
    ∀ fuel, (length (parse_sgr_params params) ≤ fuel)%nat →
      sgr_loop fuel (parse_sgr_params params) 0 c = Some c'.
Proof.
  intros Hc. assert (∀ fuel values c0, (length values ≤ fuel)%nat → Forall param_ok values →
    style_ok c0 = true → ∃ c', sgr_loop fuel values 0 c0 = Some c' ∧ style_ok c' = true ∧
      same_link c0 c') as Hrun.
  { clear. induction fuel as [|fuel IH]; intros [|v values] c0 Hf HF Hc0; simpl in Hf; try lia;
      [by eexists..|].
    simpl. pose proof (sgr_step_moves (v :: values) c0).
    destruct (sgr_step_ok (v :: values) c0 HF Hc0) as [H1 H2].
    destruct (sgr_step (v :: values) c0) as [c1 moved]. rewrite sgr_loop_drop. simpl in *.
    destruct (IH (drop moved (v :: values)) c1) as (c' & ? & ? & ?);
      [rewrite length_drop; simpl; lia|by apply Forall_drop|done|].
    exists c'. split_and!; [done..|]. unfold same_link in *. intuition congruence. }
  destruct (Hrun (length (parse_sgr_params params)) (parse_sgr_params params) c)
    as (c' & Hl & ? & ?); [done|apply parse_sgr_params_ok|done|].
  exists c'. split_and!; [done..|]. intros fuel Hf. rewrite <-Hl.
  by apply sgr_loop_fuel.
Qed.

Lemma sgr_total_and_well_formed_witness :
  style_ok Cell.default = true ∧
  ∃ c', apply_sgr (lit "38;9;;4:7;x:") Cell.default = Some c' ∧ style_ok c' = true.
Proof.
  split; [done|].
  destruct (sgr_total_and_well_formed (lit "38;9;;4:7;x:") Cell.default eq_refl)
    as (c' & H & Hok & _). by exists c'.
Defined.

(** ** Direct colours *)

Lemma parse_sgr_group_number n :
  is_u16 n → parse_sgr_group (show_u16 n) = [Code n].
Proof.
  intros Hn. unfold parse_sgr_group. rewrite bool_decide_false by apply show_u16_ne.
  rewrite (bool_decide_false (58 ∈ _)) by by apply show_u16_no_sep.
  simpl. rewrite split_on_piece by by apply show_u16_no_sep. simpl.
  unfold parse_sgr_numeric_part. rewrite bool_decide_false by apply show_u16_ne.
  by rewrite parse_show_u16.
Qed.

Lemma parse_sgr_params_number n s :
  is_u16 n → parse_sgr_params (show_u16 n ++ 59 :: s) = Code n :: parse_sgr_params s.
Proof.
  intros Hn. rewrite parse_sgr_params_app. unfold parse_sgr_params at 1.
  rewrite bool_decide_false by apply show_u16_ne.
  rewrite split_on_piece by by apply show_u16_no_sep. simpl.
  by rewrite parse_sgr_group_number.
Qed.

(** A direct foreground colour and what follows it. *)
Definition direct_foreground (r g b : Z) (rest : rstring) : rstring :=
  lit "38;2;" ++ show_u16 r ++ 59 :: show_u16 g ++ 59 :: show_u16 b ++ 59 :: rest.

Lemma parse_direct_foreground r g b rest :
  is_u16 r → is_u16 g → is_u16 b →
  parse_sgr_params (direct_foreground r g b rest) =
    [Code 38; Code 2; Code r; Code g; Code b] ++ parse_sgr_params rest.
Proof.
  intros Hr Hg Hb. unfold direct_foreground.
  change (lit "38;2;" ++ ?x) with (show_u16 38 ++ 59 :: show_u16 2 ++ 59 :: x).
  rewrite !parse_sgr_params_number by (done || by vm_compute). done.
Qed.

Lemma saturating_u8_id x : 0 ≤ x ≤ 255 → saturating_u8 x = x.
Proof. intros. unfold saturating_u8. by rewrite (proj2 (Z.leb_le x 255)) by lia. Qed.

(** A direct colour with a non-zero red component is read exactly, and
    whatever parameters follow it keep their meaning. *)
Theorem sgr_direct_color r g b rest c :
  1 ≤ r ≤ 255 → 0 ≤ g ≤ 255 → 0 ≤ b ≤ 255 →
  apply_sgr (direct_foreground r g b rest) c = apply_sgr rest (c{{ foreground := Rgb r g b }}).
Proof.
  intros Hr Hg Hb.
  assert (is_u16 r ∧ is_u16 g ∧ is_u16 b) as (?&?&?) by (unfold is_u16, u16_max; lia).
  rewrite !apply_sgr_run, parse_direct_foreground by done. simpl. rewrite sgr_run_cons.
  unfold sgr_step. simpl.
  destruct r as [|p|p]; [lia| |lia]. simpl.
  rewrite !saturating_u8_id by lia. done.
Qed.

Lemma sgr_direct_color_witness :
  apply_sgr (direct_foreground 1 2 3 (lit "1")) Cell.default =
    Some (Cell.default{{ foreground := Rgb 1 2 3; bold := true }}).
Proof.
  rewrite (sgr_direct_color 1 2 3 (lit "1") Cell.default) by lia. reflexivity.
Defined.

(** With a zero red component the colour is misread: the zero is taken
    for a colour-space identifier, so green, blue and the next parameter [x]
    become the colour, and the attribute [x] stands for is lost. *)
Theorem sgr_red_zero_misread g b x rest c :
  0 ≤ g ≤ 255 → 0 ≤ b ≤ 255 → 0 ≤ x ≤ 255 →
  apply_sgr (direct_foreground 0 g b (show_u16 x ++ 59 :: rest)) c =
    apply_sgr rest (c{{ foreground := Rgb g b x }}).
Proof.
  intros Hg Hb Hx.
  assert (is_u16 g ∧ is_u16 b ∧ is_u16 x) as (?&?&?) by (unfold is_u16, u16_max; lia).
  rewrite !apply_sgr_run, parse_direct_foreground, parse_sgr_params_number by done.
  simpl. rewrite sgr_run_cons. unfold sgr_step. simpl.
  rewrite !saturating_u8_id by lia. done.
Qed.

Lemma sgr_red_zero_misread_witness :
  apply_sgr (lit "38;2;0;128;255;1;3") Cell.default =
    Some (Cell.default{{ foreground := Rgb 128 255 1; italic := true }}).
Proof.
  change (lit "38;2;0;128;255;1;3")
    with (direct_foreground 0 128 255 (show_u16 1 ++ 59 :: lit "3")).
  rewrite (sgr_red_zero_misread 128 255 1 (lit "3") Cell.default) by lia. reflexivity.
Defined.
