(* ===== verification/Reflow.v ===== *)
(** Reflow of the main screen after a width change
    ([rssh-terminal/src/parser.rs]): [trim_reflow_padding],
    [reflow_logical_line] and [reflow_main_screen]. Physical rows joined by
    their wrap marks are logical lines; every logical line is cut again at
    the new width, wide graphemes whole, and the last rows become the grid.

    The two [while] loops are definitions with fuel; [None] is running out
    of it. Row and column numbers stay below the [u16] sizes, so the
    [u16::try_from] conversions of the source always succeed and the
    [break]s behind them are dead code. *)
From coqutil Require Import Datatypes.RecordSetters.
From S2P Require Import Prelude Text Grid Csi.
Import DoubleBraceUpdate.

(** ** Padding *)

(** [iter().rev().take_while(|cell| **cell == Cell::default()).count()] *)
Fixpoint count_leading_default (l : list Cell) : nat :=
  match l with
  | [] => 0
  | c :: l' => if decide (c = Cell.default) then S (count_leading_default l') else 0
  end.

Definition trim_reflow_padding (cells : list Cell) : list Cell :=
  let padding := count_leading_default (rev cells) in
  if decide (padding = 0) then cells
  else
    let content_end := length cells - padding in
    let continuation_cells :=
      (match cells !! (content_end - 1) with
       | Some c => Z.to_nat (Cell.columns c) - 1
       | None => 0
       end) `min` padding in
    take (content_end + continuation_cells) cells.

(** ** One logical line *)

Record ReflowRow := mkReflowRow {
  reflow_cells : list Cell;
  reflow_row_overflow : list Cell;
}.

Record ReflowLogicalLine := mkLogicalLine {
  logical_cells : list Cell;
  logical_cursor_offset : option nat;
}.

(** The variables of the loop of [reflow_logical_line]. *)
Record line_state := mkLineState {
  ls_rows : list ReflowRow;
  ls_row : list Cell;
  ls_overflow : list Cell;
  ls_cursor : option (nat * nat);
  ls_index : nat;
}.

(** [rows.push(ReflowRow { take(&mut row), take(&mut row_overflow) })] *)
Definition push_row (st : line_state) : line_state :=
  st{{ ls_rows := ls_rows st ++ [mkReflowRow (ls_row st) (ls_overflow st)];
       ls_row := []; ls_overflow := [] }}.

(** [reflowed_cursor = Some((rows.len(), column))] *)
Definition set_cursor (column : nat) (st : line_state) : line_state :=
  st{{ ls_cursor := Some (length (ls_rows st), column) }}.

(** The cells of a grapheme, a truncated one completed with continuations. *)
Fixpoint pad_glyph (n : nat) (cell : Cell) (glyph : list Cell) : list Cell :=
  match n with
  | O => glyph
  | S n' =>
      pad_glyph n' cell
        (glyph ++ [Cell.set_continuation (saturating_u8 (Z.of_nat (length glyph))) cell])
  end.

Definition glyph_width (c : Cell) : nat := Z.to_nat (Z.max (Cell.columns c) 1).

(** One round of the [while] at [cells[index] = cell]. *)
Definition reflow_step (cells : list Cell) (columns : nat) (cursor_offset : option nat)
    (cell : Cell) (st : line_state) : line_state :=
  let index := ls_index st in
  let st := if decide (cursor_offset = Some index) then set_cursor (length (ls_row st)) st else st in
  let cell_width := glyph_width cell in
  let source_width := cell_width `min` (length cells - index) in
  let output_width := cell_width `min` columns in
  let st := if decide (ls_row st ≠ [] ∧ columns < length (ls_row st) + output_width)
            then push_row st else st in
  let st := match cursor_offset with
            | Some o =>
                if decide (index < o ∧ o < index + source_width)
                then set_cursor (length (ls_row st) + (o - index) `min` output_width) st else st
            | None => st
            end in
  let glyph := take source_width (drop index cells) in
  let glyph := pad_glyph (cell_width - length glyph) cell glyph in
  let st := st{{ ls_row := ls_row st ++ take output_width glyph }} in
  let st := if decide (output_width < cell_width)
            then st{{ ls_overflow := ls_overflow st ++ drop output_width glyph }} else st in
  let index := index + source_width in
  let st := st{{ ls_index := index }} in
  let st := if decide (cursor_offset = Some index) then set_cursor (length (ls_row st)) st else st in
  if decide (length (ls_row st) = columns ∧ index < length cells) then push_row st else st.

(** [while index < cells.len()] *)
Fixpoint reflow_loop (fuel : nat) (cells : list Cell) (columns : nat)
    (cursor_offset : option nat) (st : line_state) : option line_state :=
  match cells !! ls_index st with
  | None => Some st
  | Some cell =>
      match fuel with
      | O => None
      | S fuel' =>
          reflow_loop fuel' cells columns cursor_offset
            (reflow_step cells columns cursor_offset cell st)
      end
  end.

Definition reflow_logical_line (cells : list Cell) (columns : nat) (cursor_offset : option nat) :
    option (list ReflowRow * option (nat * nat)) :=
  if decide (columns = 0 ∨ cells = [])
  then Some ([mkReflowRow [] []], (λ _, (0, 0)) <$> cursor_offset)
  else
    st ← reflow_loop (length cells) cells columns cursor_offset (mkLineState [] [] [] None 0);
    Some (ls_rows st ++ [mkReflowRow (ls_row st) (ls_overflow st)],
          match ls_cursor st with
          | Some c => Some c
          | None => (λ _, (0, 0)) <$> cursor_offset
          end).

(** ** Collecting logical lines *)

Record collect_state := mkCollect {
  co_lines : list ReflowLogicalLine;
  co_line : list Cell;
  co_cursor_offset : option nat;
  co_has_line : bool;
}.

(** The start of a physical row: a row without a wrap mark ends the line
    before it. *)
Definition start_row (is_wrapped : bool) (st : collect_state) : collect_state :=
  if negb is_wrapped || negb (co_has_line st) then
    let st := if co_has_line st
              then mkCollect (co_lines st ++ [mkLogicalLine (co_line st) (co_cursor_offset st)])
                     [] None (co_has_line st)
              else st in
    st{{ co_has_line := true }}
  else st.

Definition collect_scrollback_line (st : collect_state) (line : ScrollbackLine) : collect_state :=
  let st := start_row (line_wrapped line) st in
  st{{ co_line := co_line st ++
         trim_reflow_padding (ScrollbackLine.cells_with_reflow_overflow line) }}.

(** The tuples [(row, cells, cursor_cells)]. *)
Definition physical_row (g : TerminalGrid) (cursor_row cursor_column row : nat) :
    nat * list Cell * option (list Cell) :=
  let physical_cells := TerminalGrid.cells_with_reflow_overflow row g in
  let cursor_cells := if decide (row = cursor_row)
                      then Some (take (cursor_column + 1) physical_cells) else None in
  (row, trim_reflow_padding physical_cells, cursor_cells).

Definition collect_grid_row (g : TerminalGrid) (cursor_row cursor_column : nat)
    (st : collect_state) (r : nat * list Cell * option (list Cell)) : collect_state :=
  let '(row, cells, cursor_cells) := r in
  let st := start_row (TerminalGrid.row_wrapped row g) st in
  if decide (row = cursor_row) then
    let cells := match cursor_cells with
                 | Some cc => if decide (length cells < length cc)
                              then cells ++ drop (length cells) cc else cells
                 | None => cells
                 end in
    st{{ co_cursor_offset := Some (length (co_line st) + cursor_column);
         co_line := co_line st ++ cells }}
  else st{{ co_line := co_line st ++ cells }}.

(** The highest row with content, plus one. *)
Definition content_rows (l : list (nat * list Cell * option (list Cell))) : nat :=
  foldr (λ r m, if decide (r.1.2 = []) then m else (r.1.1 + 1) `max` m) 0 l.

Definition collect_lines (scrollback : list ScrollbackLine) (g : TerminalGrid)
    (cursor_row cursor_column : nat) : list ReflowLogicalLine :=
  let old_rows := size_rows (grid_size g) in
  let st := foldl collect_scrollback_line (mkCollect [] [] None false) scrollback in
  let grid_rows := physical_row g cursor_row cursor_column <$> seq 0 old_rows in
  let relevant := (content_rows grid_rows `max` (cursor_row + 1)) `min` old_rows in
  let st := foldl (collect_grid_row g cursor_row cursor_column) st (take relevant grid_rows) in
  if co_has_line st
  then co_lines st ++ [mkLogicalLine (co_line st) (co_cursor_offset st)]
  else co_lines st.

(** ** The whole screen *)

(** The loop over the logical lines: rows with their wrap marks, and the
    cursor among them. *)
Fixpoint reflow_lines (columns : nat) (lines : list ReflowLogicalLine)
    (rows : list (ReflowRow * bool)) (cursor : option (nat * nat)) :
    option (list (ReflowRow * bool) * option (nat * nat)) :=
  match lines with
  | [] => Some (rows, cursor)
  | line :: rest =>
      '(reflowed, c) ← reflow_logical_line (logical_cells line) columns (logical_cursor_offset line);
      let cursor := match c with
                    | Some (row, column) => Some (length rows + row, column)
                    | None => cursor
                    end in
      reflow_lines columns rest (rows ++ imap (λ i r, (r, negb (i =? 0))) reflowed) cursor
  end.

Definition to_scrollback_line (columns : nat) (seqno : Z) (r : ReflowRow * bool) : ScrollbackLine :=
  mkScrollbackLine (vec_resize columns Cell.default (reflow_cells r.1)) (reflow_row_overflow r.1)
    r.2 seqno.

(** [for (column, cell) in cells.into_iter().enumerate() { grid.set(..) }] *)
Definition write_cells (row : nat) (cells : list Cell) (g : TerminalGrid) : TerminalGrid :=
  foldl (λ g cc, (TerminalGrid.set row cc.1 cc.2 g).2) g (imap pair cells).

Definition write_reflow_row (columns : nat) (seqno : Z) (g : TerminalGrid)
    (r : nat * (ReflowRow * bool)) : TerminalGrid :=
  let '(row, (reflowed, is_wrapped)) := r in
  let g := write_cells row (vec_resize columns Cell.default (reflow_cells reflowed)) g in
  let g := TerminalGrid.set_reflow_overflow row (reflow_row_overflow reflowed) g in
  let g := TerminalGrid.set_row_wrapped row is_wrapped g in
  (TerminalGrid.set_row_last_change_seqno row seqno g).2.

(** What [reflow_main_screen] leaves in its [&mut] arguments. *)
Record reflow_result := mkReflowResult {
  rr_scrollback : HistoryBuffer ScrollbackLine;
  rr_grid : TerminalGrid;
  rr_cursor_row : nat;
  rr_cursor_column : nat;
}.

Definition reflow_main_screen (scrollback : HistoryBuffer ScrollbackLine) (g : TerminalGrid)
    (size : TerminalSize) (seqno : Z) (cursor_row cursor_column : nat) : option reflow_result :=
  let lines := collect_lines (history_rows scrollback) g cursor_row cursor_column in
  '(rows, cursor) ← reflow_lines (size_columns size) lines [] None;
  let scrollback_rows := length rows - size_rows size in
  let reflowed_scrollback :=
    to_scrollback_line (size_columns size) seqno <$> take scrollback_rows rows in
  let reflowed_grid :=
    foldl (write_reflow_row (size_columns size) seqno) (TerminalGrid.new_with_seqno size seqno)
      (imap pair (drop scrollback_rows rows)) in
  let '(row, column) :=
    match cursor with
    | Some (row, column) =>
        ((row - scrollback_rows) `min` (size_rows size - 1), column `min` (size_columns size - 1))
    | None => (cursor_row, cursor_column)
    end in
  Some (mkReflowResult (history_rebuild reflowed_scrollback scrollback) reflowed_grid row column).
