(* ===== verification/ReflowFacts.v ===== *)
(** Facts about reflow: the loops end, no cell is lost or reordered, rows fit
    the new width, and the cursor lands inside the new grid. *)
From coqutil Require Import Datatypes.RecordSetters.
From S2P Require Import Prelude Text Grid GridFacts Csi Reflow.
Import DoubleBraceUpdate.

(** ** Glyphs *)

Lemma pad_glyph_spec n cell glyph :
  ∃ pad, pad_glyph n cell glyph = glyph ++ pad ∧ length pad = n ∧
    Forall (λ c, Cell.is_continuation c = true) pad.
Proof.
  revert glyph. induction n as [|n IH]; intros glyph; simpl.
  { exists []. by rewrite app_nil_r. }
  destruct (IH (glyph ++ [Cell.set_continuation (saturating_u8 (Z.of_nat (length glyph))) cell]))
    as (pad & -> & Hlen & HF).
  eexists (_ :: pad). rewrite <-app_assoc. simpl. split; [done|]. split; [lia|].
  by constructor.
Qed.

Lemma glyph_width_pos c : 1 ≤ glyph_width c.
Proof. unfold glyph_width. lia. Qed.

(** ** Rows of one line *)

(** All the cells of a row, the ones that did not fit included. *)
Definition row_content (r : ReflowRow) : list Cell := reflow_cells r ++ reflow_row_overflow r.

(** What the loop has produced so far. *)
Definition emitted (st : line_state) : list Cell :=
  concat (row_content <$> ls_rows st) ++ ls_row st ++ ls_overflow st.

Definition row_fits (columns : nat) (r : ReflowRow) : Prop :=
  1 ≤ length (reflow_cells r) ≤ columns.

Record line_inv (cells : list Cell) (columns : nat) (st : line_state) : Prop := {
  li_index : ls_index st ≤ length cells;
  li_emitted : ∃ pad, emitted st = take (ls_index st) cells ++ pad ∧
    Forall (λ c, Cell.is_continuation c = true) pad ∧
    (ls_index st < length cells → pad = []);
  li_rows : Forall (row_fits columns) (ls_rows st);
  li_row : length (ls_row st) ≤ columns;
  li_open : ls_index st < length cells → ls_overflow st = [] ∧ length (ls_row st) < columns;
  li_last : ls_index st = length cells → cells ≠ [] → ls_row st ≠ [];
}.

Lemma emitted_push st : emitted (push_row st) = emitted st.
Proof.
  unfold emitted, push_row, row_content. simpl.
  rewrite fmap_app, concat_app. simpl. by rewrite !app_nil_r.
Qed.

(** The state without its cursor, which the rows do not depend on. *)
Definition no_cursor (st : line_state) : line_state := st{{ ls_cursor := None }}.

Lemma no_cursor_set n st : no_cursor (set_cursor n st) = no_cursor st.
Proof. done. Qed.

(** The step without the cursor: close the row if the glyph does not fit,
    append the glyph, close the row if it is full and more follows. *)
Definition open_row (columns output_width : nat) (st : line_state) : line_state :=
  if decide (ls_row st ≠ [] ∧ columns < length (ls_row st) + output_width)
  then push_row st else st.

Definition append_glyph (columns : nat) (glyph : list Cell) (index : nat) (st : line_state) :
    line_state :=
  let output_width := length glyph `min` columns in
  mkLineState (ls_rows st) (ls_row st ++ take output_width glyph)
    (ls_overflow st ++ drop output_width glyph) (ls_cursor st) index.

Definition close_row (columns total : nat) (st : line_state) : line_state :=
  if decide (length (ls_row st) = columns ∧ ls_index st < total) then push_row st else st.

Lemma reflow_step_core cells columns o cell st glyph :
  glyph = pad_glyph
    (glyph_width cell - length (take (glyph_width cell `min` (length cells - ls_index st)) (drop (ls_index st) cells)))
    cell (take (glyph_width cell `min` (length cells - ls_index st)) (drop (ls_index st) cells)) →
  length glyph = glyph_width cell →
  no_cursor (reflow_step cells columns o cell st) =
    no_cursor (close_row columns (length cells)
      (append_glyph columns glyph
         (ls_index st + glyph_width cell `min` (length cells - ls_index st))
         (open_row columns (glyph_width cell `min` columns) st))).
Proof.
  intros Hg Hlen. unfold reflow_step, open_row, append_glyph, close_row, push_row, set_cursor.
  rewrite <-Hg, Hlen. destruct st as [rows row overflow cursor index].
  assert (drop (glyph_width cell `min` columns) glyph =
    if decide (glyph_width cell `min` columns < glyph_width cell)
    then drop (glyph_width cell `min` columns) glyph else []) as Hd.
  { case_decide; [done|]. apply drop_ge. lia. }
  rewrite Hd. simpl.
  repeat (case_decide || case_match); simpl in *; simplify_eq; rewrite ?app_nil_r; done.
Qed.

Lemma no_cursor_inv cells columns st st' :
  no_cursor st = no_cursor st' → line_inv cells columns st → line_inv cells columns st'.
Proof.
  destruct st, st'. intros [= <- <- <- <-] [H1 H2 H3 H4 H5 H6]. by split.
Qed.

Lemma glyph_length cells cell index :
  let source := glyph_width cell `min` (length cells - index) in
  let glyph := take source (drop index cells) in
  length (pad_glyph (glyph_width cell - length glyph) cell glyph) = glyph_width cell.
Proof.
  intros source glyph. destruct (pad_glyph_spec (glyph_width cell - length glyph) cell glyph)
    as (pad & -> & Hlen & _).
  rewrite length_app, Hlen. unfold glyph. rewrite length_take, length_drop. unfold source. lia.
Qed.

Lemma close_row_inv cells columns st :
  0 < columns → line_inv cells columns st ∨
    (ls_index st ≤ length cells ∧
     (∃ pad, emitted st = take (ls_index st) cells ++ pad ∧
        Forall (λ c, Cell.is_continuation c = true) pad ∧ (ls_index st < length cells → pad = [])) ∧
     Forall (row_fits columns) (ls_rows st) ∧ 1 ≤ length (ls_row st) ≤ columns ∧
     (length (ls_row st) < columns → ls_overflow st = [])) →
  line_inv cells columns (close_row columns (length cells) st).
Proof.
  intros Hc [H|(Hi & He & Hr & Hrow & Ho)]; unfold close_row; case_decide as Hd; try done.
  - destruct H as [? ? ? ? Hopen ?]. destruct Hopen; lia.
  - assert (ls_index (push_row st) = ls_index st) as Hidx by done.
    split; rewrite ?emitted_push, ?Hidx; simpl; try done; try lia.
    apply Forall_app_2; [done|]. repeat constructor; simpl; lia.
  - split; try done; [lia| |].
    + intros Hlt. assert (length (ls_row st) < columns) by lia. auto.
    + intros _ _ Hnil. rewrite Hnil in Hrow. simpl in Hrow. lia.
Qed.

Lemma open_row_spec columns w st :
  ls_overflow st = [] → length (ls_row st) < columns → w ≤ columns →
  Forall (row_fits columns) (ls_rows st) →
  let st' := open_row columns w st in
  emitted st' = emitted st ∧ ls_index st' = ls_index st ∧ ls_overflow st' = [] ∧
  Forall (row_fits columns) (ls_rows st') ∧ length (ls_row st') + w ≤ columns.
Proof.
  intros Ho Hr Hw HF. unfold open_row. case_decide as Hd; simpl.
  - rewrite emitted_push. split_and!; try done. apply Forall_app_2; [done|].
    destruct Hd as [Hne _]. constructor; [|constructor]. split; simpl; [|lia].
    destruct (ls_row st); simpl; [done|lia].
  - split_and!; try done.
    destruct (decide (ls_row st = [])) as [E|E]; [rewrite E; simpl; lia|].
    assert (¬ columns < length (ls_row st) + w) by tauto. lia.
Qed.

Lemma reflow_step_inv cells columns o cell st :
  0 < columns → cells !! ls_index st = Some cell →
  line_inv cells columns st → line_inv cells columns (reflow_step cells columns o cell st) ∧
  ls_index st < ls_index (reflow_step cells columns o cell st).
Proof.
  intros Hc Hcell Hinv. pose proof (lookup_lt_Some _ _ _ Hcell) as Hlt.
  pose proof (glyph_width_pos cell) as Hgw.
  set (source := glyph_width cell `min` (length cells - ls_index st)).
  set (base := take source (drop (ls_index st) cells)).
  set (glyph := pad_glyph (glyph_width cell - length base) cell base).
  assert (Hglen : length glyph = glyph_width cell) by apply glyph_length.
  pose proof (reflow_step_core cells columns o cell st glyph eq_refl Hglen) as Hcore.
  fold source in Hcore. set (w := glyph_width cell `min` columns) in *.
  destruct Hinv as [Hi (pad0 & He & _ & Hp0) Hrows Hrow Hopen Hlast].
  destruct (Hopen Hlt) as [Hov Hrl]. rewrite (Hp0 Hlt), app_nil_r in He.
  destruct (open_row_spec columns w st Hov Hrl ltac:(lia) Hrows) as (He' & Hi' & Ho' & Hr' & Hw').
  set (st1 := open_row columns w st) in *.
  set (st2 := append_glyph columns glyph (ls_index st + source) st1) in *.
  destruct (pad_glyph_spec (glyph_width cell - length base) cell base) as (pad & Hpad & Hplen & HpF).
  fold glyph in Hpad.
  assert (Hbase : length base = source).
  { unfold base. rewrite length_take, length_drop. lia. }
  assert (line_inv cells columns (close_row columns (length cells) st2)) as Hfin.
  { apply close_row_inv; [done|right]. unfold st2, append_glyph. rewrite Hglen. fold w. simpl.
    rewrite Ho'. split_and!.
    - lia.
    - exists pad. unfold emitted. simpl. rewrite <-(app_assoc (ls_row st1)), take_drop.
      unfold emitted in He' at 1. rewrite Ho', app_nil_r in He'.
      rewrite app_assoc, He', He, Hpad. split_and!; [|done|].
      + rewrite app_assoc. f_equal. unfold base.
        rewrite take_take_drop. done.
      + intros Hlt'. apply nil_length_inv. lia.
    - done.
    - rewrite length_app, length_take. lia.
    - rewrite length_app, length_take. lia.
    - rewrite length_app, length_take. intros Hshort. apply drop_ge. lia. }
  split.
  - by eapply no_cursor_inv.
  - apply (f_equal ls_index) in Hcore.
    change (ls_index (reflow_step cells columns o cell st) =
      ls_index (close_row columns (length cells) st2)) in Hcore.
    assert (ls_index (close_row columns (length cells) st2) = ls_index st + source) as Hidx
      by (unfold close_row; by case_decide).
    lia.
Qed.

Lemma reflow_loop_inv fuel cells columns o st :
  0 < columns → line_inv cells columns st → length cells - ls_index st ≤ fuel →
  ∃ st', (∀ fuel', fuel ≤ fuel' → reflow_loop fuel' cells columns o st = Some st') ∧
    line_inv cells columns st' ∧ ls_index st' = length cells.
Proof.
  intros Hc. revert st. induction fuel as [|fuel IH]; intros st Hinv Hf.
  - pose proof (li_index _ _ _ Hinv). assert (ls_index st = length cells) as Hend by lia.
    exists st. split_and!; [|done..]. intros fuel' _.
    destruct fuel'; simpl; by rewrite lookup_ge_None_2 by lia.
  - destruct (cells !! ls_index st) as [cell|] eqn:Hcell.
    + destruct (reflow_step_inv cells columns o cell st Hc Hcell Hinv) as [Hinv' Hlt].
      apply lookup_lt_Some in Hcell as Hl.
      destruct (IH _ Hinv') as (st' & Hrun & ? & ?); [lia|].
      exists st'. split_and!; [|done..]. intros [|fuel'] Hle; [lia|]. simpl. rewrite Hcell.
      apply Hrun. lia.
    + apply lookup_ge_None_1 in Hcell as Hge. pose proof (li_index _ _ _ Hinv).
      exists st. split_and!; [|done|lia]. intros [|fuel'] _; simpl; by rewrite Hcell.
Qed.

Lemma init_line_inv cells columns :
  cells ≠ [] → 0 < columns → line_inv cells columns (mkLineState [] [] [] None 0).
Proof.
  intros Hne Hc. destruct cells as [|c cells]; [done|]. split; simpl; try done; try lia.
  by exists [].
Qed.

(** The rows of one line, their number of cells and their content. *)
Definition line_rows_ok (cells : list Cell) (columns : nat) (rows : list ReflowRow) : Prop :=
  rows ≠ [] ∧ (cells ≠ [] → Forall (row_fits columns) rows) ∧
  Forall (λ r, length (reflow_cells r) ≤ columns) rows ∧
  ∃ pad, concat (row_content <$> rows) = cells ++ pad ∧
    Forall (λ c, Cell.is_continuation c = true) pad.

Lemma reflow_logical_line_spec cells columns o :
  0 < columns →
  ∃ rows cursor, reflow_logical_line cells columns o = Some (rows, cursor) ∧
    line_rows_ok cells columns rows.
Proof.
  intros Hc. unfold reflow_logical_line. destruct (decide (cells = [])) as [->|Hne].
  { rewrite decide_True by auto. eexists _, _. split; [done|].
    split_and!; [done|done|by repeat constructor; simpl; lia|by exists []]. }
  rewrite decide_False by (intros [?|?]; [lia|done]).
  destruct (reflow_loop_inv (length cells) cells columns o (mkLineState [] [] [] None 0))
    as (st & Hrun & [Hi (pad & He & HpF & _) Hrows Hrow Hopen Hlast] & Hend);
    [done|by apply init_line_inv|simpl; lia|].
  rewrite Hrun by done. simpl. eexists _, _. split; [done|].
  assert (Forall (row_fits columns) (ls_rows st ++ [mkReflowRow (ls_row st) (ls_overflow st)])) as HF.
  { apply Forall_app_2; [done|]. repeat constructor; simpl; [|lia].
    specialize (Hlast Hend Hne). destruct (ls_row st); simpl; [done|lia]. }
  split_and!.
  - by destruct (ls_rows st).
  - done.
  - eapply Forall_impl; [exact HF|]. intros r [_ Hr]. exact Hr.
  - exists pad. split; [|done]. rewrite fmap_app, concat_app. simpl. rewrite app_nil_r.
    unfold row_content at 2. simpl. rewrite Hend, firstn_all in He. exact He.
Qed.

(** ** Writing the new grid *)

Lemma write_cells_from row cells g r pre rest :
  grid_rows g !! row = Some r → row_cells r = pre ++ rest → length rest = length cells →
  reflow_overflow r = [] →
  foldl (λ g cc, (TerminalGrid.set row cc.1 cc.2 g).2) g
    (imap (λ i c, (length pre + i, c)) cells) =
  mkGrid (grid_size g)
    (<[row := mkGridRow (pre ++ cells) [] (wrapped r) (last_change_seqno r)]> (grid_rows g)).
Proof.
  revert g r pre rest. induction cells as [|c cells IH]; intros g r pre rest Hr Hc Hl Ho.
  - destruct rest; [|done]. rewrite app_nil_r in *. simpl. destruct g as [size rows], r; simpl in *.
    subst. by rewrite list_insert_id.
  - destruct rest as [|x rest]; [done|]. rewrite imap_cons. simpl. rewrite Nat.add_0_r.
    unfold TerminalGrid.set at 2. rewrite Hr, Hc, list_lookup_middle by done. simpl.
    rewrite (imap_ext _ (λ i y, (length (pre ++ [c]) + i, y)))
      by (intros i y _; simpl; rewrite length_app; simpl; f_equal; lia).
    erewrite (IH _ _ (pre ++ [c]) rest); [|by apply list_lookup_insert_eq, (lookup_lt_Some _ _ _ Hr)| | |done].
    + simpl. by rewrite list_insert_insert_eq, <-app_assoc.
    + simpl. rewrite insert_app_r_alt, Nat.sub_diag by done. simpl. by rewrite <-app_assoc.
    + simpl in Hl. lia.
Qed.

Lemma write_cells_spec row cells g r :
  grid_rows g !! row = Some r → length (row_cells r) = length cells → reflow_overflow r = [] →
  write_cells row cells g =
  mkGrid (grid_size g)
    (<[row := mkGridRow cells [] (wrapped r) (last_change_seqno r)]> (grid_rows g)).
Proof. intros Hr Hl Ho. by apply (write_cells_from row cells g r [] (row_cells r)). Qed.

(** The grid row a reflowed row becomes. *)
Definition to_grid_row (columns : nat) (seqno : Z) (r : ReflowRow * bool) : GridRow :=
  mkGridRow (vec_resize columns Cell.default (reflow_cells r.1)) (reflow_row_overflow r.1) r.2 seqno.

Lemma write_reflow_row_spec columns seqno g row r r0 :
  grid_rows g !! row = Some r0 → length (row_cells r0) = columns → reflow_overflow r0 = [] →
  write_reflow_row columns seqno g (row, r) =
    mkGrid (grid_size g) (<[row := to_grid_row columns seqno r]> (grid_rows g)).
Proof.
  intros Hr Hl Ho. destruct r as [rr w]. pose proof (lookup_lt_Some _ _ _ Hr) as Hlt.
  unfold write_reflow_row. erewrite write_cells_spec by (done || by rewrite vec_resize_length).
  unfold TerminalGrid.set_reflow_overflow, TerminalGrid.set_row_wrapped,
    TerminalGrid.set_row_last_change_seqno, TerminalGrid.update_row.
  do 3 (simpl; rewrite list_lookup_insert_eq by (rewrite ?length_insert; done)).
  simpl. by rewrite !list_insert_insert_eq.
Qed.

#[local] Arguments write_reflow_row : simpl never.

(** A blank row of the new width. *)
Definition fresh_row (columns : nat) (r : GridRow) : Prop :=
  length (row_cells r) = columns ∧ reflow_overflow r = [].

Lemma write_rows_spec columns seqno n rows g :
  n + length rows ≤ length (grid_rows g) →
  (∀ i r, n ≤ i → grid_rows g !! i = Some r → fresh_row columns r) →
  foldl (write_reflow_row columns seqno) g (imap (λ i r, (n + i, r)) rows) =
    mkGrid (grid_size g)
      (take n (grid_rows g) ++ (to_grid_row columns seqno <$> rows)
         ++ drop (n + length rows) (grid_rows g)).
Proof.
  revert n g. induction rows as [|r rows IH]; intros n g Hlen Hfresh.
  - simpl. rewrite Nat.add_0_r, take_drop. by destruct g.
  - rewrite imap_cons. simpl in Hlen |- *. rewrite Nat.add_0_r.
    destruct (lookup_lt_is_Some_2 (grid_rows g) n) as [r0 Hr0]; [lia|].
    destruct (Hfresh n r0) as [Hw Ho]; [lia|done|].
    erewrite write_reflow_row_spec by done.
    rewrite (imap_ext _ (λ i y, (S n + i, y))) by (intros i y _; simpl; f_equal; lia).
    rewrite IH; simpl.
    + f_equal. rewrite (take_S_r _ _ (to_grid_row columns seqno r)) by
        (apply list_lookup_insert_eq; lia).
      rewrite take_insert_ge, drop_insert_lt by lia. rewrite <-app_assoc. simpl.
      by rewrite Nat.add_succ_r.
    + rewrite length_insert. lia.
    + intros i r' Hi Hr'. rewrite list_lookup_insert_ne in Hr' by lia. apply (Hfresh i); [lia|done].
Qed.

(** ** All lines *)

(** Every line is followed by continuations completing its last glyph. *)
Definition padded (lines : list (list Cell)) (out : list Cell) : Prop :=
  ∃ pads, length pads = length lines ∧
    Forall (Forall (λ c, Cell.is_continuation c = true)) pads ∧
    out = concat (zip_with app lines pads).

Lemma reflow_lines_spec columns lines rows cursor :
  0 < columns →
  ∃ new cursor', reflow_lines columns lines rows cursor = Some (rows ++ new, cursor') ∧
    Forall (λ r, length (reflow_cells r.1) ≤ columns) new ∧
    padded (logical_cells <$> lines) (concat ((λ r, row_content r.1) <$> new)).
Proof.
  intros Hc. revert rows cursor. induction lines as [|line lines IH]; intros rows cursor; simpl.
  { exists [], cursor. rewrite app_nil_r. split_and!; [done|constructor|by exists []]. }
  destruct (reflow_logical_line_spec (logical_cells line) columns (logical_cursor_offset line) Hc)
    as (lrows & lcursor & Hline & _ & _ & Hfit & pad & Hcontent & Hpad).
  rewrite Hline. simpl.
  set (marked := imap (λ i r, (r, negb (i =? 0))) lrows).
  assert (fst <$> marked = lrows) as Hfst.
  { unfold marked. rewrite fmap_imap.
    rewrite (imap_ext _ (λ _ x, x)) by done. clear. induction lrows as [|x l IH]; [done|].
    rewrite imap_cons. simpl. f_equal. exact IH. }
  destruct (IH (rows ++ marked) (match lcursor with
    | Some (row, column) => Some (length rows + row, column) | None => cursor end))
    as (new & cursor' & Hrun & HF & pads & Hpl & HpF & Heq).
  exists (marked ++ new), cursor'. rewrite Hrun, app_assoc. split_and!; [done| |].
  - apply Forall_app_2; [|done]. rewrite <-Hfst in Hfit. by apply Forall_fmap in Hfit.
  - exists (pad :: pads). split_and!; [simpl; by rewrite Hpl|by constructor|].
    rewrite fmap_app, concat_app, Heq. simpl. f_equal. rewrite <-Hcontent, <-Hfst.
    by rewrite <-list_fmap_compose.
Qed.

(** ** The cursor *)

(** A line with the cursor has been collected. *)
Definition has_cursor (st : collect_state) : Prop :=
  is_Some (co_cursor_offset st) ∧ co_has_line st = true ∨
  Exists (λ l, is_Some (logical_cursor_offset l)) (co_lines st).

Lemma start_row_has_cursor w st : has_cursor st → has_cursor (start_row w st).
Proof.
  unfold has_cursor, start_row. intros [[Ho Hh]|He].
  - rewrite Hh. destruct w; simpl; [by left|]. right. apply Exists_app. right. by constructor.
  - right. destruct (_ || _); [|done]. destruct (co_has_line st); simpl; [|done].
    apply Exists_app. by left.
Qed.

Lemma start_row_has_line w st : co_has_line (start_row w st) = true.
Proof. unfold start_row. destruct w, (co_has_line st) eqn:E; simpl; done. Qed.

Lemma collect_grid_row_has_cursor g cr cc st r :
  has_cursor st ∨ r.1.1 = cr → has_cursor (collect_grid_row g cr cc st r).
Proof.
  destruct r as [[row cells] cursor_cells]. simpl. intros Hst. case_decide as Hrow.
  - left. split; simpl; [by eexists|]. apply (start_row_has_line _ st).
  - destruct Hst as [Hst|]; [|done]. apply (start_row_has_cursor (TerminalGrid.row_wrapped row g)) in Hst.
    destruct Hst as [Hst|Hst]; [by left|by right].
Qed.

Lemma fold_has_cursor g cr cc l st :
  has_cursor st ∨ Exists (λ r, r.1.1 = cr) l → has_cursor (foldl (collect_grid_row g cr cc) st l).
Proof.
  revert st. induction l as [|r l IH]; intros st Hst; simpl.
  - destruct Hst as [|Hst]; [done|by apply Exists_nil in Hst].
  - apply IH. rewrite Exists_cons in Hst.
    destruct Hst as [Hst|[Hst|Hst]]; [left|left|by right]; apply collect_grid_row_has_cursor; auto.
Qed.

Lemma collect_lines_cursor scrollback g cr cc :
  cr < size_rows (grid_size g) →
  Exists (λ l, is_Some (logical_cursor_offset l)) (collect_lines scrollback g cr cc).
Proof.
  intros Hcr. unfold collect_lines.
  set (st0 := foldl collect_scrollback_line _ scrollback).
  set (rows := physical_row g cr cc <$> seq 0 (size_rows (grid_size g))).
  set (n := _ `min` _).
  assert (Exists (λ r, r.1.1 = cr) (take n rows)) as Hex.
  { apply Exists_exists. exists (physical_row g cr cc cr). split; [|done].
    apply list_elem_of_lookup. exists cr. rewrite lookup_take_lt by (unfold n; lia).
    unfold rows. by rewrite list_lookup_fmap, lookup_seq_lt by done. }
  destruct (fold_has_cursor g cr cc (take n rows) st0 (or_intror Hex)) as [[Ho Hh]|He].
  - rewrite Hh. apply Exists_app. right. by constructor.
  - case_match; [apply Exists_app; by left|done].
Qed.

Lemma reflow_logical_line_cursor cells columns o rows cursor :
  reflow_logical_line cells columns o = Some (rows, cursor) → is_Some o → is_Some cursor.
Proof.
  unfold reflow_logical_line. intros H [x ->]. case_decide; [by simplify_eq/=; eexists|].
  destruct (reflow_loop _ _ _ _ _) as [st|]; [|done]. simplify_eq/=.
  by destruct (ls_cursor st); eexists.
Qed.

Lemma reflow_lines_cursor columns lines rows cursor rows' cursor' :
  reflow_lines columns lines rows cursor = Some (rows', cursor') →
  is_Some cursor ∨ Exists (λ l, is_Some (logical_cursor_offset l)) lines → is_Some cursor'.
Proof.
  revert rows cursor. induction lines as [|line lines IH]; intros rows cursor; simpl.
  { intros [= <- <-] [|H]; [done|by apply Exists_nil in H]. }
  destruct (reflow_logical_line _ _ _) as [[lrows lcursor]|] eqn:Hl; [|done]. simpl.
  intros Hrun Hex. eapply IH; [exact Hrun|]. rewrite Exists_cons in Hex.
  destruct Hex as [H|[H|H]]; [left|left|by right].
  - destruct lcursor as [[? ?]|]; [by eexists|done].
  - destruct (reflow_logical_line_cursor _ _ _ _ _ Hl H) as [[? ?] ->]. by eexists.
Qed.

(** Cutting a logical line at a new width always ends and loses nothing:
    the rows, overflow cells included, are the cells of the line in order,
    followed only by continuation cells completing a truncated last glyph;
    every row has at least one cell (unless the line is empty) and at most
    [columns]. *)
Theorem reflow_line_lossless cells columns cursor_offset :
  0 < columns →
  ∃ rows cursor pad,
    reflow_logical_line cells columns cursor_offset = Some (rows, cursor) ∧ rows ≠ [] ∧
    concat ((λ r, reflow_cells r ++ reflow_row_overflow r) <$> rows) = cells ++ pad ∧
    Forall (λ c, Cell.is_continuation c = true) pad ∧
    Forall (λ r, length (reflow_cells r) ≤ columns ∧
                 (cells ≠ [] → 1 ≤ length (reflow_cells r))) rows.
Proof.
  intros Hc. destruct (reflow_logical_line_spec cells columns cursor_offset Hc)
    as (rows & cursor & Hrun & Hne & Hfit & Hle & pad & Hcontent & HpF).
  exists rows, cursor, pad. split_and!; [done..|].
  apply Forall_forall. intros r Hr. split.
  - by eapply Forall_forall in Hle.
  - intros Hcells. eapply Forall_forall in Hfit as [? ?]; done.
Qed.

(** C30. Reflowing the main screen always ends and keeps the text: there are
    rows, none wider than the new width, whose cells are exactly those of
    the logical lines of the old scrollback and grid (each completed only by
    continuation cells); the newest of them, as many as the new grid has
    rows, are the grid padded to the width, with blank rows below, all older
    ones are the scrollback, in order, and nothing is in both. The grid has
    the new shape and the cursor, if the old grid had rows, is inside it. *)
Theorem reflow_keeps_text scrollback g size seqno cursor_row cursor_column :
  0 < size_columns size → 0 < size_rows size →
  ∃ res rows,
    reflow_main_screen scrollback g size seqno cursor_row cursor_column = Some res ∧
    padded (logical_cells <$> collect_lines (history_rows scrollback) g cursor_row cursor_column)
      (concat ((λ r, row_content r.1) <$> rows)) ∧
    Forall (λ r, length (reflow_cells r.1) ≤ size_columns size) rows ∧
    history_rows (rr_scrollback res) =
      (to_scrollback_line (size_columns size) seqno <$> take (length rows - size_rows size) rows) ∧
    grid_rows (rr_grid res) =
      (to_grid_row (size_columns size) seqno <$> drop (length rows - size_rows size) rows) ++
      replicate (size_rows size - length rows) (GridRow.blank (size_columns size) Cell.default seqno) ∧
    grid_size (rr_grid res) = size ∧ grid_ok (rr_grid res) ∧
    (cursor_row < size_rows (grid_size g) →
       rr_cursor_row res < size_rows size ∧ rr_cursor_column res < size_columns size).
Proof.
  intros Hc Hr. unfold reflow_main_screen.
  destruct (reflow_lines_spec (size_columns size)
    (collect_lines (history_rows scrollback) g cursor_row cursor_column) [] None Hc)
    as (rows & cursor & Hrun & HF & Hpad).
  rewrite Hrun. simpl. set (n := length rows - size_rows size).
  set (grid0 := TerminalGrid.new_with_seqno size seqno).
  assert (Hg0 : grid_rows grid0 =
    replicate (size_rows size) (GridRow.blank (size_columns size) Cell.default seqno)).
  { unfold grid0. simpl. rewrite const_fmap_replicate, length_seq. done. }
  pose proof (write_rows_spec (size_columns size) seqno 0 (drop n rows) grid0) as Hw.
  rewrite Hg0, length_replicate, length_drop, drop_replicate in Hw. simpl in Hw.
  assert (Hgrid : foldl (write_reflow_row (size_columns size) seqno) grid0 (imap pair (drop n rows)) =
    mkGrid size ((to_grid_row (size_columns size) seqno <$> drop n rows) ++
      replicate (size_rows size - length rows)
        (GridRow.blank (size_columns size) Cell.default seqno))).
  { rewrite (imap_ext _ (λ i r, (0 + i, r))) by done.
    replace (size_rows size - length rows) with (size_rows size - (length rows - n)) by lia.
    apply Hw; [lia|]. intros i r _ [-> _]%lookup_replicate. split; [apply length_replicate|done]. }
  set (cur := match cursor with Some _ => _ | None => _ end).
  assert (cursor_row < size_rows (grid_size g) →
    cur.1 < size_rows size ∧ cur.2 < size_columns size) as Hcur.
  { intros Hin. destruct (reflow_lines_cursor _ _ _ _ _ _ Hrun) as [[row column] Hs].
    - right. by apply collect_lines_cursor.
    - unfold cur. rewrite Hs. simpl. lia. }
  destruct cur as [row column]. simpl in Hcur.
  eexists _, rows. split; [done|]. simpl. rewrite Hgrid. simpl. split_and!; try done.
  split; simpl.
  - rewrite length_app, length_fmap, length_drop, length_replicate. lia.
  - apply Forall_app_2.
    + apply Forall_fmap, Forall_true. intros r. apply vec_resize_length.
    + apply Forall_replicate, length_replicate.
Qed.

(** ** Concrete lines *)

(** A wide character, then a narrow one. *)
Definition wide_line : list Cell :=
  [Cell.set_text [30028%Z] 2 Cell.default; Cell.set_continuation 1 Cell.default; Cell.with_char 65].

Example reflow_wide_line :
  reflow_logical_line wide_line 2 (Some 2) =
    Some ([mkReflowRow (take 2 wide_line) []; mkReflowRow (drop 2 wide_line) []], Some (1, 0)).
Proof. vm_compute. reflexivity. Qed.

Lemma reflow_line_lossless_witness :
  ∃ rows cursor pad, reflow_logical_line wide_line 1 None = Some (rows, cursor) ∧
    concat ((λ r, reflow_cells r ++ reflow_row_overflow r) <$> rows) = wide_line ++ pad.
Proof.
  destruct (reflow_line_lossless wide_line 1 None ltac:(lia)) as (rows & cursor & pad & H & _ & Hc & _).
  by exists rows, cursor, pad.
Defined.

Lemma reflow_keeps_text_witness :
  ∃ res, reflow_main_screen (mkHistoryBuffer []) sample_grid (mkTerminalSize 1 2) 5 1 1 = Some res ∧
    rr_cursor_row res < 2 ∧ rr_cursor_column res < 1.
Proof.
  destruct (reflow_keeps_text (mkHistoryBuffer []) sample_grid (mkTerminalSize 1 2) 5 1 1)
    as (res & rows & Hrun & _ & _ & _ & _ & _ & _ & Hcur); [simpl; lia..|].
  exists res. split; [exact Hrun|]. apply Hcur. change (1 < 4). lia.
Defined.
