(* ===== verification/Utf8.v ===== *)
(** Decoding of terminal output ([rssh-terminal/src/parser.rs]):
    [complete_utf8_prefix_len], [decode_terminal_chars_into] and their
    helpers, with the part of [std::str::from_utf8] they use. Bytes are [Z]
    between 0 and 255, characters are Unicode scalar values. *)
From S2P Require Import Prelude Text.

Local Open Scope Z_scope.

Definition is_utf8_continuation (byte : Z) : bool := Z.land byte 192 =? 128.

Definition between (lo hi x : Z) : bool := (lo <=? x) && (x <=? hi).

Definition utf8_sequence_len (byte : Z) : option nat :=
  if between 0 127 byte then Some 1%nat
  else if between 194 223 byte then Some 2%nat
  else if between 224 239 byte then Some 3%nat
  else if between 240 244 byte then Some 4%nat
  else None.

(** [char::from_u32] of a C1 code never fails. *)
Definition raw_c1_control (byte : Z) : option Z :=
  if between 128 159 byte then Some byte else None.

(** ** [std::str::from_utf8] *)

(** What the validator finds at the start of a non-empty input: a scalar
    value and the bytes it takes, or an error with its [error_len], which is
    [None] when the input ends inside a sequence. *)
Inductive utf8_item :=
| Utf8Char (c : Z) (len : nat)
| Utf8Error (error_len : option nat).

(** The second byte the standard library accepts after [first]. *)
Definition second_ok (first second : Z) : bool :=
  if first =? 224 then between 160 191 second
  else if first =? 237 then between 128 159 second
  else if first =? 240 then between 144 191 second
  else if first =? 244 then between 128 143 second
  else is_utf8_continuation second.

Definition low6 (b : Z) : Z := Z.land b 63.

Definition utf8_next (bytes : list Z) : utf8_item :=
  match bytes with
  | [] => Utf8Error None
  | b0 :: rest =>
      match utf8_sequence_len b0 with
      | Some 1%nat => Utf8Char b0 1
      | Some 2%nat =>
          match rest with
          | [] => Utf8Error None
          | b1 :: _ =>
              if negb (is_utf8_continuation b1) then Utf8Error (Some 1%nat)
              else Utf8Char (Z.lor (Z.shiftl (Z.land b0 31) 6) (low6 b1)) 2
          end
      | Some 3%nat =>
          match rest with
          | [] => Utf8Error None
          | b1 :: rest1 =>
              if negb (second_ok b0 b1) then Utf8Error (Some 1%nat)
              else match rest1 with
                   | [] => Utf8Error None
                   | b2 :: _ =>
                       if negb (is_utf8_continuation b2) then Utf8Error (Some 2%nat)
                       else Utf8Char
                              (Z.lor (Z.shiftl (Z.lor (Z.shiftl (Z.land b0 15) 6) (low6 b1)) 6)
                                 (low6 b2)) 3
                   end
          end
      | Some _ =>
          match rest with
          | [] => Utf8Error None
          | b1 :: rest1 =>
              if negb (second_ok b0 b1) then Utf8Error (Some 1%nat)
              else match rest1 with
                   | [] => Utf8Error None
                   | b2 :: rest2 =>
                       if negb (is_utf8_continuation b2) then Utf8Error (Some 2%nat)
                       else match rest2 with
                            | [] => Utf8Error None
                            | b3 :: _ =>
                                if negb (is_utf8_continuation b3) then Utf8Error (Some 3%nat)
                                else Utf8Char
                                       (Z.lor (Z.shiftl
                                          (Z.lor (Z.shiftl (Z.lor (Z.shiftl (Z.land b0 7) 6)
                                             (low6 b1)) 6) (low6 b2)) 6) (low6 b3)) 4
                            end
                   end
          end
      | None => Utf8Error (Some 1%nat)
      end
  end.

#[global] Arguments utf8_next : simpl never.
#[global] Arguments is_utf8_continuation : simpl never.
#[global] Arguments raw_c1_control : simpl never.

(** [from_utf8]: the scalar values of the longest valid prefix, its length
    ([valid_up_to]), and the [error_len] of the error after it, if any.
    [skip] counts the bytes left of the value read last. *)
Fixpoint from_utf8 (skip : nat) (bytes : list Z) : list Z * nat * option (option nat) :=
  match bytes with
  | [] => ([], 0%nat, None)
  | _ :: rest =>
      match skip with
      | S k => let '(cs, n, e) := from_utf8 k rest in (cs, S n, e)
      | O =>
          match utf8_next bytes with
          | Utf8Char c len =>
              let '(cs, n, e) := from_utf8 (len - 1) rest in (c :: cs, S n, e)
          | Utf8Error e => ([], 0%nat, Some e)
          end
      end
  end.

(** ** Decoding *)

Definition replacement : Z := 65533.

(** The [while] of [decode_terminal_chars_into] on [bytes[index..]]; [None]
    is running out of fuel. *)
Fixpoint decode_loop (fuel : nat) (bytes : list Z) : option (list Z) :=
  match bytes with
  | [] => Some []
  | b :: rest =>
      match fuel with
      | O => None
      | S fuel =>
          match raw_c1_control b with
          | Some ch => (ch ::.) <$> decode_loop fuel rest
          | None =>
              match from_utf8 0 bytes with
              | (cs, _, None) => Some cs
              | (_, O, Some error_len) =>
                  (replacement ::.) <$> decode_loop fuel (drop (default 1%nat error_len) bytes)
              | (cs, valid_up_to, Some _) => (cs ++.) <$> decode_loop fuel (drop valid_up_to bytes)
              end
          end
      end
  end.

(** Every round moves [index] forward, so the length is enough fuel. *)
Definition decode_terminal_chars (bytes : list Z) : option (list Z) :=
  decode_loop (length bytes) bytes.

(** [while start > 0 && is_utf8_continuation(bytes[start]) { start -= 1 }] *)
Fixpoint back_to_lead (bytes : list Z) (start : nat) : nat :=
  match start with
  | O => 0
  | S start' =>
      match bytes !! start with
      | Some b => if is_utf8_continuation b then back_to_lead bytes start' else start
      | None => start
      end
  end.

Definition complete_utf8_prefix_len (bytes : list Z) : nat :=
  match length bytes with
  | O => 0%nat
  | S last =>
      let start := back_to_lead bytes last in
      match bytes !! start ≫= utf8_sequence_len with
      | None => length bytes
      | Some expected_len =>
          let available_len := (length bytes - start)%nat in
          if bool_decide (expected_len ≤ available_len)%nat then length bytes
          else if forallb is_utf8_continuation (drop (start + 1) bytes) then start
          else length bytes
      end
  end.

(** The byte layer of [feed_decoded_at_current_seqno]: the characters the
    new bytes complete, and the bytes left in [pending_utf8]. *)
Definition decode_chunk (pending_utf8 bytes : list Z) : option (list Z * list Z) :=
  let input := pending_utf8 ++ bytes in
  let complete_utf8_len := complete_utf8_prefix_len input in
  chars ← decode_terminal_chars (take complete_utf8_len input);
  Some (chars, drop complete_utf8_len input).
