(* ===== verification/Utf8Facts.v ===== *)
(** Correctness of the decoder of [Utf8]: it is the simple streaming decoder
    that reads one item after another, and text in UTF-8 comes out the same
    however the bytes are cut into chunks. Malformed input does not have this
    property. *)
From S2P Require Import Prelude Text Utf8.

Local Open Scope Z_scope.

(** ** The streaming decoder *)

(** One item at a time: a raw C1 control, a scalar value, or a replacement
    character for an error, after which [error_len] bytes (1 when it is
    [None]) are skipped. *)
Fixpoint decode_stream (skip : nat) (bytes : list Z) : list Z :=
  match bytes with
  | [] => []
  | b :: rest =>
      match skip with
      | S k => decode_stream k rest
      | O =>
          match raw_c1_control b with
          | Some ch => ch :: decode_stream 0 rest
          | None =>
              match utf8_next bytes with
              | Utf8Char c len => c :: decode_stream (len - 1) rest
              | Utf8Error e => replacement :: decode_stream (default 1%nat e - 1) rest
              end
          end
      end
  end.

Lemma decode_stream_skip k bytes : decode_stream k bytes = decode_stream 0 (drop k bytes).
Proof.
  revert k. induction bytes as [|b bytes IH]; intros k; [by rewrite drop_nil|].
  destruct k as [|k]; [done|]. simpl. apply IH.
Qed.

Lemma utf8_next_lead b rest c len :
  utf8_next (b :: rest) = Utf8Char c len → raw_c1_control b = None.
Proof.
  unfold utf8_next, utf8_sequence_len, raw_c1_control, between.
  repeat case_match; intros; simplify_eq; try done; lia.
Qed.

Lemma utf8_next_len bytes c len :
  utf8_next bytes = Utf8Char c len → (1 ≤ len ≤ length bytes)%nat.
Proof.
  unfold utf8_next. repeat case_match; intros; simplify_eq; simpl; lia.
Qed.

Lemma utf8_next_error bytes n :
  utf8_next bytes = Utf8Error (Some n) → (1 ≤ n ≤ length bytes)%nat.
Proof.
  unfold utf8_next. repeat case_match; intros; simplify_eq; simpl; lia.
Qed.

Lemma from_utf8_stream k bytes cs n e :
  (k ≤ length bytes)%nat → from_utf8 k bytes = (cs, n, e) →
  (k ≤ n ≤ length bytes)%nat ∧
  decode_stream k bytes = cs ++ decode_stream 0 (drop n bytes) ∧
  match e with
  | None => n = length bytes
  | Some err => utf8_next (drop n bytes) = Utf8Error err ∧ (n < length bytes)%nat
  end.
Proof.
  revert k cs n e. induction bytes as [|b bytes IH]; intros k cs n e Hk; simpl.
  { intros [= <- <- <-]. simpl in Hk. split_and!; try lia; done. }
  simpl in Hk. destruct k as [|k].
  - destruct (utf8_next (b :: bytes)) as [c len|err] eqn:Hn.
    + destruct (from_utf8 (len - 1) bytes) as [[cs' n'] e'] eqn:Hf. intros [= <- <- <-].
      pose proof (utf8_next_len _ _ _ Hn) as Hlen. simpl in Hlen.
      destruct (IH (len - 1)%nat _ _ _ ltac:(lia) Hf) as (Hle & Hs & He). simpl.
      rewrite (utf8_next_lead _ _ _ _ Hn), Hs. split_and!; try lia; [done|].
      destruct e'; [|lia]. destruct He as [? ?]. split; [done|lia].
    + intros [= <- <- <-]. rewrite drop_0; simpl; rewrite Hn; split_and!; try lia; done.
  - destruct (from_utf8 k bytes) as [[cs' n'] e'] eqn:Hf. intros [= <- <- <-].
    destruct (IH k _ _ _ ltac:(lia) Hf) as (Hle & Hs & He). simpl.
    split_and!; try lia; [done|]. destruct e'; [|lia]. destruct He as [? ?]. split; [done|lia].
Qed.

(** The loop of the source ends and is the streaming decoder. *)
Lemma decode_loop_stream fuel bytes :
  (length bytes ≤ fuel)%nat → decode_loop fuel bytes = Some (decode_stream 0 bytes).
Proof.
  revert bytes. induction fuel as [|fuel IH]; intros [|b bytes] Hlen; simpl in Hlen |- *;
    [done|lia|done|].
  destruct (raw_c1_control b) eqn:Hb; [rewrite IH by lia; done|].
  destruct (from_utf8 0 (b :: bytes)) as [[cs n] e] eqn:Hf.
  pose proof (from_utf8_stream 0 (b :: bytes) _ _ _ ltac:(simpl; lia) Hf) as (Hn & Hs & He).
  simpl in Hf. rewrite Hf. cbn [decode_stream] in Hs. rewrite Hb in Hs. rewrite Hs. clear Hs.
  destruct e as [err|]; [|rewrite He, drop_all; simpl; by rewrite app_nil_r].
  destruct He as [He Hlt]. destruct n as [|n].
  - simpl. rewrite Hb. simpl in He. rewrite He.
    assert (cs = []) as -> by (rewrite He in Hf; by simplify_eq).
    destruct err as [[|m]|]; simpl.
    + apply utf8_next_error in He. lia.
    + rewrite IH by (rewrite length_drop; lia). simpl. rewrite Nat.sub_0_r. by rewrite (decode_stream_skip m).
    + rewrite drop_0. by rewrite IH by lia.
  - simpl. rewrite IH by (rewrite length_drop; simpl in *; lia). done.
Qed.

Lemma decode_terminal_chars_stream bytes :
  decode_terminal_chars bytes = Some (decode_stream 0 bytes).
Proof. by apply decode_loop_stream. Qed.

(** ** UTF-8 text *)

(** [char::encode_utf8]. *)
Definition encode_char (c : Z) : list Z :=
  if c <? 128 then [c]
  else if c <? 2048 then [192 + c / 64; 128 + c mod 64]
  else if c <? 65536 then [224 + c / 4096; 128 + c / 64 mod 64; 128 + c mod 64]
  else [240 + c / 262144; 128 + c / 4096 mod 64; 128 + c / 64 mod 64; 128 + c mod 64].

Definition encode (cs : rstring) : list Z := concat (encode_char <$> cs).

(** Unicode scalar values. *)
Definition scalar (c : Z) : Prop := 0 ≤ c < 55296 ∨ 57344 ≤ c < 1114112.

Ltac zdm := Z.to_euclidean_division_equations; lia.

Lemma continuation_range b : 0 ≤ b < 256 → is_utf8_continuation b = between 128 191 b.
Proof.
  intros Hb. assert (∀ n, (n < 256)%nat →
    is_utf8_continuation (Z.of_nat n) = between 128 191 (Z.of_nat n)) as H.
  { intros n Hn. assert (forallb (λ n, eqb (is_utf8_continuation (Z.of_nat n))
      (between 128 191 (Z.of_nat n))) (seq 0 256) = true) as Hall by (by vm_compute).
    rewrite forallb_forall in Hall. apply eqb_prop, Hall. apply in_seq. lia. }
  replace b with (Z.of_nat (Z.to_nat b)) by lia. apply H. lia.
Qed.

Lemma continuation_byte x : 0 ≤ x < 64 → is_utf8_continuation (128 + x) = true.
Proof. intros. rewrite continuation_range by lia. unfold between. lia. Qed.

Lemma low6_byte x : 0 ≤ x < 64 → low6 (128 + x) = x.
Proof.
  intros. unfold low6. change 63 with (Z.ones 6). rewrite Z.land_ones by lia.
  change (2 ^ 6) with 64. zdm.
Qed.

Lemma shift_or x y : 0 ≤ y < 64 → Z.lor (Z.shiftl x 6) y = x * 64 + y.
Proof.
  intros Hy. rewrite <-Z.add_nocarry_lor; [by rewrite Z.shiftl_mul_pow2 by lia|].
  apply Z.bits_inj'. intros n Hn. rewrite Z.land_spec, Z.bits_0, Z.shiftl_spec by done.
  destruct (decide (n < 6)); [by rewrite Z.testbit_neg_r by lia|].
  replace y with (y mod 2 ^ 6) by (apply Z.mod_small; done).
  rewrite Z.mod_pow2_bits_high by lia. apply andb_false_r.
Qed.

(** Lead byte, continuation bytes and what they decode to. *)
Lemma encode_char_shape c :
  scalar c →
  ∃ lead conts, encode_char c = lead :: conts ∧
    Forall (λ b, is_utf8_continuation b = true) conts ∧
    is_utf8_continuation lead = false ∧
    utf8_sequence_len lead = Some (S (length conts)).
Proof.
  intros Hc. unfold encode_char, scalar in *.
  assert (0 ≤ c mod 64 < 64 ∧ 0 ≤ c / 64 mod 64 < 64 ∧ 0 ≤ c / 4096 mod 64 < 64) as (?&?&?) by zdm.
  repeat case_match; eexists _, _; (split; [reflexivity|]); (split; [|split]);
    rewrite ?continuation_range by zdm; unfold utf8_sequence_len, between;
    repeat (first [apply Forall_nil_2 | apply Forall_cons_2]);
    rewrite ?continuation_byte by done; repeat case_match; simpl; try zdm; done.
Qed.

Lemma sequence_len_lead n c :
  match n with
  | 1%nat => 0 ≤ c < 128
  | 2%nat => 194 ≤ c < 224
  | 3%nat => 224 ≤ c < 240
  | 4%nat => 240 ≤ c < 245
  | _ => False
  end → utf8_sequence_len c = Some n.
Proof.
  unfold utf8_sequence_len, between. intros H.
  destruct n as [|[|[|[|[|]]]]]; try done; repeat case_match; try done; lia.
Qed.

Lemma second_ok_encode lead x :
  0 ≤ x < 64 → (lead = 224 → 32 ≤ x) → (lead = 237 → x < 32) → (lead = 240 → 16 ≤ x) →
  (lead = 244 → x < 16) → second_ok lead (128 + x) = true.
Proof.
  intros. unfold second_ok, between. rewrite continuation_byte by done.
  repeat case_match; lia.
Qed.

Lemma utf8_next_encode c rest :
  scalar c → utf8_next (encode_char c ++ rest) = Utf8Char c (length (encode_char c)).
Proof.
  intros Hc. unfold encode_char, scalar in *.
  assert (0 ≤ c mod 64 < 64 ∧ 0 ≤ c / 64 mod 64 < 64 ∧ 0 ≤ c / 4096 mod 64 < 64) as (?&?&?) by zdm.
  repeat case_match; cbn [app]; unfold utf8_next.
  - rewrite (sequence_len_lead 1) by lia. done.
  - rewrite (sequence_len_lead 2) by zdm. rewrite continuation_byte by done. cbn [negb].
    rewrite low6_byte, shift_or by done. f_equal.
    replace (Z.land (192 + c / 64) 31) with (c / 64); [zdm|].
    change 31 with (Z.ones 5). rewrite Z.land_ones by lia. change (2 ^ 5) with 32. zdm.
  - rewrite (sequence_len_lead 3) by zdm.
    rewrite second_ok_encode by zdm. rewrite continuation_byte by done. cbn [negb].
    rewrite !low6_byte, !shift_or by done. f_equal.
    replace (Z.land (224 + c / 4096) 15) with (c / 4096); [zdm|].
    change 15 with (Z.ones 4). rewrite Z.land_ones by lia. change (2 ^ 4) with 16. zdm.
  - rewrite (sequence_len_lead 4) by zdm.
    rewrite second_ok_encode by zdm. rewrite !continuation_byte by done. cbn [negb].
    rewrite !low6_byte, !shift_or by done. f_equal.
    replace (Z.land (240 + c / 262144) 7) with (c / 262144); [zdm|].
    change 7 with (Z.ones 3). rewrite Z.land_ones by lia. change (2 ^ 3) with 8. zdm.
Qed.

Lemma encode_cons c cs : encode (c :: cs) = encode_char c ++ encode cs.
Proof. done. Qed.

Lemma encode_app cs ds : encode (cs ++ ds) = encode cs ++ encode ds.
Proof. unfold encode. by rewrite fmap_app, concat_app. Qed.

Lemma decode_stream_encode cs rest :
  Forall scalar cs → decode_stream 0 (encode cs ++ rest) = cs ++ decode_stream 0 rest.
Proof.
  induction 1 as [|c cs Hc _ IH]; [done|]. rewrite encode_cons, <-app_assoc.
  destruct (encode_char_shape c Hc) as (lead & conts & Henc & _ & _ & _).
  pose proof (utf8_next_encode c (encode cs ++ rest) Hc) as Hn. rewrite Henc in *.
  cbn [app decode_stream] in *. rewrite (utf8_next_lead _ _ _ _ Hn), Hn. cbn [length app].
  f_equal. rewrite decode_stream_skip. cbn [Nat.sub]. rewrite Nat.sub_0_r, drop_app_length.
  apply IH.
Qed.

Lemma back_to_lead_shape pre lead conts :
  Forall (λ b, is_utf8_continuation b = true) conts → is_utf8_continuation lead = false →
  back_to_lead (pre ++ lead :: conts) (length pre + length conts) = length pre.
Proof.
  intros Hc Hl.
  assert (∀ k, (k ≤ length conts)%nat →
    back_to_lead (pre ++ lead :: conts) (length pre + k) = length pre) as H;
    [|by apply H].
  induction k as [|k IH]; intros Hk.
  - rewrite Nat.add_0_r. destruct (length pre) eqn:Hp; [done|]. cbn [back_to_lead].
    rewrite lookup_app_r by lia. rewrite Hp, Nat.sub_diag. cbn [lookup list_lookup].
    by rewrite Hl.
  - rewrite Nat.add_succ_r. cbn [back_to_lead]. rewrite lookup_app_r by lia.
    replace (S (length pre + k) - length pre)%nat with (S k) by lia.
    change ((lead :: conts) !! S k) with (conts !! k).
    destruct (lookup_lt_is_Some_2 conts k) as [b Hb]; [lia|]. rewrite Hb.
    rewrite Forall_lookup in Hc. rewrite (Hc k b Hb). apply IH. lia.
Qed.

(** What complete text followed by a beginning of one more character leaves
    in [pending_utf8]. *)
Lemma complete_prefix_shape pre lead conts n :
  Forall (λ b, is_utf8_continuation b = true) conts → is_utf8_continuation lead = false →
  utf8_sequence_len lead = Some n →
  complete_utf8_prefix_len (pre ++ lead :: conts) =
    if decide (n ≤ S (length conts))%nat then length (pre ++ lead :: conts) else length pre.
Proof.
  intros Hc Hl Hn. unfold complete_utf8_prefix_len.
  assert (length (pre ++ lead :: conts) = S (length pre + length conts)) as Hlen
    by (rewrite length_app; simpl; lia).
  rewrite Hlen, back_to_lead_shape by done. rewrite lookup_app_r, Nat.sub_diag by lia.
  cbn [lookup list_lookup mbind option_bind]. rewrite Hn.
  case_decide as Hd; [by rewrite bool_decide_true by lia|]. rewrite bool_decide_false by lia.
  replace (length pre + 1)%nat with (S (length pre)) by lia.
  rewrite drop_app_ge by lia. replace (S (length pre) - length pre)%nat with 1%nat by lia.
  cbn [drop]. rewrite (proj2 (forallb_forall _ _)); [done|].
  intros b Hb. rewrite Forall_forall in Hc. apply Hc. by apply list_elem_of_In.
Qed.

(** A beginning of a character that is not all of it. *)
Definition partial (p : list Z) : Prop :=
  ∃ c k, scalar c ∧ (k < length (encode_char c))%nat ∧ p = take k (encode_char c).

Lemma decode_terminal_chars_encode cs :
  Forall scalar cs → decode_terminal_chars (encode cs) = Some cs.
Proof.
  intros. rewrite decode_terminal_chars_stream. f_equal.
  rewrite <-(app_nil_r (encode cs)), decode_stream_encode by done. apply app_nil_r.
Qed.

Lemma decode_chunk_encode pending bytes cs p :
  Forall scalar cs → partial p → pending ++ bytes = encode cs ++ p →
  decode_chunk pending bytes = Some (cs, p).
Proof.
  intros Hcs (c & k & Hc & Hk & ->) Heq. unfold decode_chunk. rewrite Heq.
  destruct (encode_char_shape c Hc) as (lead & conts & Henc & Hconts & Hlead & Hlen).
  assert (complete_utf8_prefix_len (encode cs ++ take k (encode_char c)) = length (encode cs)) as ->.
  { destruct k as [|k].
    - rewrite take_0, app_nil_r.
      destruct cs as [|c' cs' _] using rev_ind; [done|].
      apply Forall_app in Hcs as [_ [Hc' _]%Forall_cons].
      destruct (encode_char_shape c' Hc') as (l' & cn & He' & ? & ? & ?).
      rewrite encode_app, encode_cons, app_nil_r, He'.
      erewrite complete_prefix_shape by done. by rewrite decide_True by lia.
    - rewrite Henc in *. cbn [take length] in *.
      erewrite complete_prefix_shape; [|by apply Forall_take|done|done].
      rewrite length_take. by rewrite decide_False by lia. }
  rewrite take_app_length, drop_app_length, decode_terminal_chars_encode by done. done.
Qed.

(** ** Chunks *)

(** The characters and the pending bytes after a sequence of reads. *)
Fixpoint decode_chunks (pending_utf8 : list Z) (chunks : list (list Z)) :
    option (list Z * list Z) :=
  match chunks with
  | [] => Some ([], pending_utf8)
  | bytes :: rest =>
      '(chars, pending) ← decode_chunk pending_utf8 bytes;
      '(more, pending) ← decode_chunks pending rest;
      Some (chars ++ more, pending)
  end.

Lemma partial_nil : partial [].
Proof. exists 0, 0%nat. split_and!; [left; lia|simpl; lia|done]. Qed.

(** A cut through text in UTF-8 is after some characters and inside at most
    one more. *)
Lemma encode_split cs a b :
  Forall scalar cs → encode cs = a ++ b →
  ∃ cs1 cs2 p, cs = cs1 ++ cs2 ∧ a = encode cs1 ++ p ∧ partial p ∧ p ++ b = encode cs2.
Proof.
  intros Hcs. revert a. induction Hcs as [|c cs Hc Hcs IH]; intros a Heq.
  { exists [], [], []. apply eq_sym, app_eq_nil in Heq as [-> ->].
    split_and!; try done. apply partial_nil. }
  rewrite encode_cons in Heq. destruct (decide (length a < length (encode_char c))%nat) as [Hlt|Hge].
  - exists [], (c :: cs), a. split_and!; [done|done| |by rewrite encode_cons].
    exists c, (length a). split_and!; [done|done|].
    assert (take (length a) (encode_char c ++ encode cs) = a) as <-
      by (by rewrite Heq, take_app_length).
    rewrite take_app_le by lia. by rewrite length_take, Nat.min_l by lia.
  - assert (a = encode_char c ++ drop (length (encode_char c)) a) as Ha.
    { rewrite <-(take_drop (length (encode_char c)) a) at 1. f_equal.
      transitivity (take (length (encode_char c)) (a ++ b)); [by rewrite take_app_le by lia|].
      by rewrite <-Heq, take_app_length. }
    rewrite Ha, <-app_assoc in Heq. apply app_inv_head in Heq.
    destruct (IH _ Heq) as (cs1 & cs2 & p & -> & Hd & Hp & Hb).
    exists (c :: cs1), cs2, p. split_and!; [done| |done|done].
    by rewrite Ha, Hd, encode_cons, app_assoc.
Qed.

Lemma decode_chunks_encode p chunks cs :
  Forall scalar cs → partial p → p ++ concat chunks = encode cs →
  decode_chunks p chunks = Some (cs, []).
Proof.
  revert p cs. induction chunks as [|bytes chunks IH]; intros p cs Hcs Hp Heq; simpl in Heq.
  - pose proof (decode_chunk_encode p [] [] p ltac:(constructor) Hp ltac:(by rewrite app_nil_r)) as H1.
    pose proof (decode_chunk_encode p [] cs [] Hcs partial_nil ltac:(by rewrite Heq, app_nil_r)) as H2.
    simplify_eq. done.
  - rewrite app_assoc in Heq.
    destruct (encode_split cs (p ++ bytes) (concat chunks) Hcs (eq_sym Heq))
      as (cs1 & cs2 & p' & -> & Ha & Hp' & Hb).
    apply Forall_app in Hcs as [Hcs1 Hcs2]. simpl.
    rewrite (decode_chunk_encode p bytes cs1 p') by done. simpl.
    by rewrite (IH p' cs2) by done.
Qed.

(** C36. Decoding does not depend on how reads cut the output: text encoded
    in UTF-8 and received in any number of chunks, cut anywhere (also inside
    a character), decodes to exactly its characters and leaves nothing
    pending. *)
Theorem utf8_chunks_roundtrip cs chunks :
  Forall scalar cs → concat chunks = encode cs → decode_chunks [] chunks = Some (cs, []).
Proof. intros Hcs Heq. by apply decode_chunks_encode, Heq; [|apply partial_nil]. Qed.

Lemma utf8_chunks_roundtrip_witness :
  decode_chunks [] [[226]; [130]; [172; 240; 159]; []; [152; 128; 65]] = Some ([8364; 128512; 65], []).
Proof.
  apply (utf8_chunks_roundtrip [8364; 128512; 65]); [|by vm_compute].
  repeat constructor; unfold scalar; lia.
Defined.

(** The decoder's loop ends on every input, with the result of the
    one-item-at-a-time decoder, and any larger bound on its rounds gives the
    same characters. *)
Theorem decode_total_and_streaming bytes fuel :
  (length bytes ≤ fuel)%nat →
  decode_loop fuel bytes = Some (decode_stream 0 bytes) ∧
  decode_terminal_chars bytes = Some (decode_stream 0 bytes).
Proof. intros. split; [by apply decode_loop_stream|apply decode_terminal_chars_stream]. Qed.

Lemma decode_total_and_streaming_witness :
  decode_loop 7 [65; 152; 226; 130; 195; 169] = Some [65; 152; 65533; 233] ∧
  decode_terminal_chars [65; 152; 226; 130; 195; 169] = Some [65; 152; 65533; 233].
Proof. apply (decode_total_and_streaming [65; 152; 226; 130; 195; 169] 7). simpl. lia. Defined.

(** On malformed output the cut matters: a truncated three-byte sequence
    [226, control] before a two-byte character is one replacement character
    when it arrives in one read, but when the read ends inside that next
    character its second byte becomes a C1 control of its own, for example
    152, which starts a control string that swallows the following output. *)
Theorem malformed_chunks_differ control c :
  128 ≤ control ≤ 159 → 128 ≤ c < 2048 →
  decode_chunks [] [226 :: control :: encode_char c] = Some ([replacement; c], []) ∧
  decode_chunks [] [[226; control; 192 + c / 64]; [128 + c mod 64]] =
    Some ([replacement; control; c], []).
Proof.
  intros Hctl Hc.
  assert (scalar c) as Hs by (left; lia).
  assert (encode_char c = [192 + c / 64; 128 + c mod 64]) as He
    by (unfold encode_char; repeat case_match; try done; lia).
  assert (0 ≤ c mod 64 < 64 ∧ 2 ≤ c / 64 < 32) as [? ?] by zdm.
  assert (is_utf8_continuation control = true) as Hctl'
    by (rewrite continuation_range by lia; unfold between; lia).
  assert (second_ok 226 control = true) as Hsec by exact Hctl'.
  assert (raw_c1_control control = Some control) as Hraw
    by (unfold raw_c1_control, between; case_match; [done|lia]).
  assert (raw_c1_control (192 + c / 64) = None) as Hlead
    by (unfold raw_c1_control, between; case_match; [lia|done]).
  assert (utf8_sequence_len (192 + c / 64) = Some 2%nat) as Hseq by (apply sequence_len_lead; lia).
  assert (is_utf8_continuation (192 + c / 64) = false) as Hl
    by (rewrite continuation_range by lia; unfold between; lia).
  assert (Forall (λ b, is_utf8_continuation b = true) [128 + c mod 64]) as Hcont
    by (constructor; [by apply continuation_byte|constructor]).
  assert (decode_chunk [192 + c / 64] [128 + c mod 64] = Some ([c], [])) as Hsecond.
  { apply decode_chunk_encode; [by constructor|apply partial_nil|].
    simpl. by rewrite app_nil_r, encode_cons, He. }
  assert (decode_stream 0 (encode_char c) = [c]) as Hchar.
  { pose proof (decode_stream_encode [c] [] ltac:(by constructor)) as Hd.
    by rewrite encode_cons, !app_nil_r in Hd. }
  assert (utf8_next (226 :: control :: encode_char c) = Utf8Error (Some 2%nat)) as Hwhole.
  { rewrite He. unfold utf8_next. simpl. rewrite Hsec. simpl. by rewrite Hl. }
  assert (utf8_next [226; control] = Utf8Error None) as Hcut.
  { unfold utf8_next. simpl. by rewrite Hsec. }
  assert (decode_chunk [] [226; control; 192 + c / 64] =
    Some ([replacement; control], [192 + c / 64])) as Hfirst.
  { unfold decode_chunk. cbn [app].
    pose proof (complete_prefix_shape [226; control] _ [] 2 ltac:(constructor) Hl Hseq) as Hlen.
    rewrite decide_False in Hlen by (simpl; lia). cbn [app] in Hlen. rewrite Hlen.
    cbn [length take drop]. rewrite decode_terminal_chars_stream. cbn [mbind option_bind].
    do 2 f_equal. cbn [decode_stream]. rewrite Hcut. simpl. by rewrite Hraw. }
  split.
  - unfold decode_chunks, decode_chunk. rewrite app_nil_l, He.
    pose proof (complete_prefix_shape [226; control] _ _ 2 Hcont Hl Hseq) as Hlen.
    rewrite decide_True in Hlen by (simpl; lia). cbn [app] in Hlen. rewrite Hlen. rewrite take_ge, drop_all by done.
    rewrite decode_terminal_chars_stream. cbn [mbind option_bind]. do 2 f_equal.
    rewrite app_nil_r, <-He. cbn [decode_stream]. rewrite Hwhole. simpl. by rewrite Hchar.
  - cbn [decode_chunks]. rewrite Hfirst. cbn [mbind option_bind]. rewrite Hsecond. done.
Qed.

Lemma malformed_chunks_differ_witness :
  decode_chunks [] [[226; 152; 195; 169]] = Some ([65533; 233], []) ∧
  decode_chunks [] [[226; 152; 195]; [169]] = Some ([65533; 152; 233], []).
Proof. apply (malformed_chunks_differ 152 233); lia. Defined.
