(* ===== verification/Feed.v ===== *)
(** The byte and escape-sequence layer of the terminal
    ([rssh-terminal/src/parser.rs], [Terminal::feed] and what it calls):
    decoding with [pending_utf8], recognising control sequences with
    [pending_control], and dispatching them.

    The layer is written against the class [Performer], the operations of the
    screen it calls; [pending_utf8], [pending_control] and
    [normalize_output_to_unicode_nfc] are the fields of [Terminal] that only
    this layer uses, the rest is the performer's state. A position [index]
    into [chars] is the suffix [chars[index..]], and an advance counts from
    [index]. The scratch buffers of [TerminalFeedScratch] and the counters of
    their growth are not modelled. *)
From coqutil Require Import Datatypes.RecordSetters.
From S2P Require Import Prelude Text Grid Csi Utf8.
Import DoubleBraceUpdate.

Local Open Scope Z_scope.

Inductive CharacterSet := Ascii | DecSpecialGraphics.

(** ** The screen behind the parser *)

(** [finish_run] is [finish_pending_kitty_placeholder] followed by
    [nfc_last_printable_cell = None]; [nfc] is the Unicode normalisation the
    [unicode-normalization] crate provides, and
    [normalize_leading_combining_marks] returns the number of characters it
    consumed. *)
Class Performer (T : Type) := {
  finish_run : T → T;
  perform_csi : Z → rstring → M Empty_set T ();
  perform_osc : rstring → M Empty_set T ();
  perform_apc : rstring → M Empty_set T ();
  perform_dcs : rstring → M Empty_set T ();
  perform_index_down_control : M Empty_set T ();
  perform_next_line : M Empty_set T ();
  perform_reverse_index : M Empty_set T ();
  perform_line_feed : M Empty_set T ();
  perform_reset : M Empty_set T ();
  perform_alignment_test : T → T;
  perform_set_tab_stop : T → T;
  perform_save_cursor : T → T;
  perform_restore_cursor : T → T;
  perform_character_set : CharacterSet → T → T;
  perform_unknown : rstring → T → T;
  perform_bell : T → T;
  perform_backspace : T → T;
  perform_tab : T → T;
  perform_carriage_return : T → T;
  perform_write_char : Z → M Empty_set T ();
  nfc : rstring → rstring;
  normalize_leading_combining_marks : rstring → T → nat * T;
}.

(** Ending a run of text twice is ending it once. *)
Class PerformerLaws (T : Type) `{Performer T} :=
  finish_run_idem : ∀ t : T, finish_run (finish_run t) = finish_run t.

(** ** Scanning control sequences *)

Inductive SequenceParse (A : Type) :=
| Complete (a : A)
| Cancelled (index : nat)
| ParsePending.
Arguments Complete {A}. Arguments Cancelled {A}. Arguments ParsePending {A}.

Inductive FeedAdvance := Next (n : nat) | FeedPending.

Definition is_cancel_control (ch : Z) : bool := (ch =? 24) || (ch =? 26).

Fixpoint parse_csi (index : nat) (chars : rstring) : SequenceParse (Z * nat) :=
  match chars with
  | [] => ParsePending
  | ch :: rest =>
      if is_cancel_control ch then Cancelled index
      else if between 64 126 ch then Complete (ch, index)
      else parse_csi (S index) rest
  end.

Fixpoint parse_osc (index : nat) (chars : rstring) : SequenceParse nat :=
  match chars with
  | [] => ParsePending
  | ch :: rest =>
      if (ch =? 7) || (ch =? 156) then Complete index
      else if (ch =? 27) && bool_decide (head rest = Some 92) then Complete (S index)
      else if is_cancel_control ch then Cancelled index
      else parse_osc (S index) rest
  end.

Fixpoint parse_st_terminated_control_string (index : nat) (chars : rstring) : SequenceParse nat :=
  match chars with
  | [] => ParsePending
  | ch :: rest =>
      if ch =? 156 then Complete index
      else if (ch =? 27) && bool_decide (head rest = Some 92) then Complete (S index)
      else if is_cancel_control ch then Cancelled index
      else parse_st_terminated_control_string (S index) rest
  end.

(** Positions are relative to the start of the content. *)
Definition st_content_end (content : rstring) (sequence_end : nat) : nat :=
  if bool_decide (0 < sequence_end)%nat && bool_decide (content !! sequence_end = Some 92)
     && bool_decide (content !! (sequence_end - 1)%nat = Some 27)
  then (sequence_end - 1)%nat else sequence_end.

Definition is_c1_st_control_string (ch : Z) : bool :=
  (ch =? 144) || (ch =? 152) || (ch =? 158) || (ch =? 159).

Definition is_escape_or_c1_sequence_start (ch : Z) : bool :=
  (ch =? 27) || (ch =? 132) || (ch =? 133) || (ch =? 136) || (ch =? 141) || (ch =? 144)
  || (ch =? 155) || (ch =? 156) || (ch =? 157) || is_c1_st_control_string ch.

Definition is_ascii_control (ch : Z) : bool := between 0 31 ch || (ch =? 127).
Definition is_ascii (ch : Z) : bool := between 0 127 ch.

Definition parse_g0_character_set (selector : Z) : option CharacterSet :=
  if selector =? 66 then Some Ascii
  else if selector =? 48 then Some DecSpecialGraphics
  else None.

Definition KITTY_UNICODE_PLACEHOLDER : Z := 1109742.

(** ** Dispatch *)

Record Feeder (T : Type) := mkFeeder {
  pending_utf8 : list Z;
  pending_control : rstring;
  normalize_output_to_unicode_nfc : bool;
  screen : T;
}.
Arguments mkFeeder {T}. Arguments pending_utf8 {T}. Arguments pending_control {T}.
Arguments normalize_output_to_unicode_nfc {T}. Arguments screen {T}.

Section feed.
  Context {T : Type} `{Performer T}.
  Abbreviation F := (M Empty_set (Feeder T)).

Definition with_screen (t : T) (f : Feeder T) : Feeder T :=
  mkFeeder (pending_utf8 f) (pending_control f) (normalize_output_to_unicode_nfc f) t.
Definition with_pending_control (l : rstring) (f : Feeder T) : Feeder T :=
  mkFeeder (pending_utf8 f) l (normalize_output_to_unicode_nfc f) (screen f).
Definition with_pending_utf8 (l : list Z) (f : Feeder T) : Feeder T :=
  mkFeeder l (pending_control f) (normalize_output_to_unicode_nfc f) (screen f).

Definition on_screen {A} (m : M Empty_set T A) : F A := zoom (λ f, Some (screen f)) with_screen m.
Definition modify_screen (g : T → T) : F () := modify (λ f, with_screen (g (screen f)) f).

(** [pending_control.extend_from_slice(&chars[index..])] *)
Definition keep_pending (chars : rstring) : F FeedAdvance :=
  modify (λ f, with_pending_control (pending_control f ++ chars) f);; mret FeedPending.

(** The shape shared by [apply_csi_sequence], [apply_osc_sequence],
    [apply_apc_sequence], [apply_dcs_sequence] and [skip_control_string]. *)
Definition sequence_advance {A} (chars : rstring) (content_offset : nat) (p : SequenceParse A)
    (complete : A → F nat) : F FeedAdvance :=
  match p with
  | Complete a => sequence_end ← complete a; mret (Next (content_offset + sequence_end + 1))
  | Cancelled cancel_index => mret (Next (content_offset + cancel_index + 1))
  | ParsePending => keep_pending chars
  end.

Definition apply_csi_sequence (chars : rstring) (content_offset : nat) : F FeedAdvance :=
  let content := drop content_offset chars in
  sequence_advance chars content_offset (parse_csi 0 content)
    (λ '(command, sequence_end),
       on_screen (perform_csi command (take sequence_end content));; mret sequence_end).

Definition apply_content (perform : rstring → M Empty_set T ()) (content : rstring)
    (sequence_end : nat) : F nat :=
  on_screen (perform (take (st_content_end content sequence_end) content));; mret sequence_end.

Definition apply_osc_sequence (chars : rstring) (content_offset : nat) : F FeedAdvance :=
  let content := drop content_offset chars in
  sequence_advance chars content_offset (parse_osc 0 content) (apply_content perform_osc content).

Definition apply_apc_sequence (chars : rstring) (content_offset : nat) : F FeedAdvance :=
  let content := drop content_offset chars in
  sequence_advance chars content_offset (parse_st_terminated_control_string 0 content)
    (apply_content perform_apc content).

Definition apply_dcs_sequence (chars : rstring) (content_offset : nat) : F FeedAdvance :=
  let content := drop content_offset chars in
  sequence_advance chars content_offset (parse_st_terminated_control_string 0 content)
    (apply_content perform_dcs content).

Definition skip_control_string (chars : rstring) (content_offset : nat) : F FeedAdvance :=
  sequence_advance chars content_offset
    (parse_st_terminated_control_string 0 (drop content_offset chars)) mret.

Definition consume_hash_escape_sequence (chars : rstring) : F FeedAdvance :=
  match chars !! 2%nat with
  | Some ch => (if ch =? 56 then modify_screen perform_alignment_test else mret ());; mret (Next 3)
  | None => keep_pending chars
  end.

Definition consume_g0_character_set_selection (chars : rstring) : F FeedAdvance :=
  match chars !! 2%nat with
  | Some selector =>
      match parse_g0_character_set selector with
      | Some character_set => modify_screen (perform_character_set character_set)
      | None => mret ()
      end;; mret (Next 3)
  | None => keep_pending chars
  end.

(** The arms for a character after the escape. *)
Definition dispatch_escape (ch : Z) (chars : rstring) : F FeedAdvance :=
  if ch =? 91 then apply_csi_sequence chars 2
  else if ch =? 93 then apply_osc_sequence chars 2
  else if ch =? 95 then apply_apc_sequence chars 2
  else if ch =? 80 then apply_dcs_sequence chars 2
  else if (ch =? 92) || (ch =? 61) || (ch =? 62) then mret ();; mret (Next 2)
  else if (ch =? 88) || (ch =? 94) then skip_control_string chars 2
  else if ch =? 40 then consume_g0_character_set_selection chars
  else if ch =? 35 then consume_hash_escape_sequence chars
  else if ch =? 55 then modify_screen perform_save_cursor;; mret (Next 2)
  else if ch =? 56 then modify_screen perform_restore_cursor;; mret (Next 2)
  else if ch =? 72 then modify_screen perform_set_tab_stop;; mret (Next 2)
  else if ch =? 99 then on_screen perform_reset;; mret (Next 2)
  else if ch =? 68 then on_screen perform_index_down_control;; mret (Next 2)
  else if ch =? 69 then on_screen perform_next_line;; mret (Next 2)
  else if ch =? 77 then on_screen perform_reverse_index;; mret (Next 2)
  else modify_screen (perform_unknown (lit "ESC " ++ [ch]));; mret (Next 2).

Definition consume_escape_sequence (chars : rstring) : F FeedAdvance :=
  match chars !! 1%nat with
  | None => keep_pending chars
  | Some ch => dispatch_escape ch chars
  end.

(** The arms for a sequence start; [None] when the character is none. *)
Definition dispatch_c1 (ch : Z) : option (rstring → F FeedAdvance) :=
  if ch =? 27 then Some consume_escape_sequence
  else if ch =? 155 then Some (λ chars, apply_csi_sequence chars 1)
  else if ch =? 156 then Some (λ chars, mret ();; mret (Next 1))
  else if ch =? 144 then Some (λ chars, apply_dcs_sequence chars 1)
  else if ch =? 157 then Some (λ chars, apply_osc_sequence chars 1)
  else if is_c1_st_control_string ch then Some (λ chars, skip_control_string chars 1)
  else if ch =? 132 then Some (λ chars, on_screen perform_index_down_control;; mret (Next 1))
  else if ch =? 133 then Some (λ chars, on_screen perform_next_line;; mret (Next 1))
  else if ch =? 136 then Some (λ chars, modify_screen perform_set_tab_stop;; mret (Next 1))
  else if ch =? 141 then Some (λ chars, on_screen perform_reverse_index;; mret (Next 1))
  else None.

Definition consume_escape_or_c1_sequence (ch : Z) (chars : rstring) : F (option FeedAdvance) :=
  (if is_escape_or_c1_sequence_start ch then modify_screen finish_run else mret ());;
  match dispatch_c1 ch with
  | Some consume => Some <$> consume chars
  | None => mret None
  end.

(** ** Text *)

Definition consume_ascii_control (byte : Z) : F bool :=
  if between 0 6 byte || between 14 26 byte || between 28 31 byte
  then modify_screen finish_run;; mret true
  else if byte =? 7 then modify_screen finish_run;; modify_screen perform_bell;; mret true
  else if byte =? 8 then modify_screen finish_run;; modify_screen perform_backspace;; mret true
  else if byte =? 9 then modify_screen finish_run;; modify_screen perform_tab;; mret true
  else if between 10 12 byte
  then modify_screen finish_run;; on_screen perform_line_feed;; mret true
  else if byte =? 13
  then modify_screen finish_run;; modify_screen perform_carriage_return;; mret true
  else mret false.

Definition write_chars (text : rstring) : F () :=
  iterM (λ ch, on_screen (perform_write_char ch)) text.

(** The end of a run of text: the next control or sequence start. *)
Fixpoint text_run (chars : rstring) : nat :=
  match chars with
  | [] => 0
  | ch :: rest =>
      if is_escape_or_c1_sequence_start ch || is_ascii_control ch then 0%nat
      else S (text_run rest)
  end.

Definition write_normalized (text : rstring) : F () :=
  if bool_decide (KITTY_UNICODE_PLACEHOLDER ∈ text) then write_chars text
  else
    f ← get_state;
    let '(remaining_start, t) := normalize_leading_combining_marks text (screen f) in
    put_state (with_screen t f);;
    write_chars (nfc (drop remaining_start text)).

(** How many characters the run takes. *)
Definition consume_text_run_or_ascii_control (ch : Z) (chars : rstring) : F nat :=
  is_control ← (if is_ascii ch then consume_ascii_control ch else mret false);
  if (is_control : bool) then mret 1%nat
  else
    f ← get_state;
    if negb (normalize_output_to_unicode_nfc f)
    then on_screen (perform_write_char ch);; mret 1%nat
    else
      let n := S (text_run (tail chars)) in
      write_normalized (take n chars);; mret n.

(** ** Feeding *)

(** The [while] over [chars[index..]]; [skip] is how far [index] is still
    ahead. An advance is never 0, so each round is one step of the list. *)
Fixpoint feed_loop (skip : nat) (chars : rstring) : F () :=
  match chars with
  | [] => mret ()
  | ch :: rest =>
      match skip with
      | S k => feed_loop k rest
      | O =>
          advance ← consume_escape_or_c1_sequence ch chars;
          match advance with
          | Some (Next n) => feed_loop (n - 1) rest
          | Some FeedPending => mret ()
          | None =>
              n ← consume_text_run_or_ascii_control ch chars;
              feed_loop (n - 1) rest
          end
      end
  end.

(** The part of [feed_decoded_at_current_seqno] after decoding. *)
Definition feed_chars (decoded : rstring) : F () :=
  f ← get_state;
  let chars := pending_control f ++ decoded in
  put_state (with_pending_control [] f);;
  feed_loop 0 chars.

(** [None] of the decoder is its fuel, which never runs out. *)
Definition feed_decoded_at_current_seqno (bytes : list Z) : F () :=
  f ← get_state;
  '(decoded, rest) ← expect (decode_chunk (pending_utf8 f) bytes);
  put_state (with_pending_utf8 rest f);;
  feed_chars decoded.

Definition feed_ascii_byte (byte : Z) : F () :=
  is_control ← consume_ascii_control byte;
  if (is_control : bool) then mret () else on_screen (perform_write_char byte).

Definition try_feed_direct_ascii_at_current_seqno (bytes : list Z) : F bool :=
  f ← get_state;
  if normalize_output_to_unicode_nfc f || bool_decide (pending_utf8 f ≠ [])
     || bool_decide (pending_control f ≠ []) || negb (forallb is_ascii bytes)
     || bool_decide (27 ∈ bytes)
  then mret false
  else iterM feed_ascii_byte bytes;; mret true.

Definition feed_at_current_seqno (bytes : list Z) : F () :=
  direct ← try_feed_direct_ascii_at_current_seqno bytes;
  if (direct : bool) then mret () else feed_decoded_at_current_seqno bytes.

End feed.
