(* ===== verification/FeedFacts.v ===== *)
(** Correctness of the feed layer: every round of the loop advances, the
    ASCII fast path is the general path, and text in UTF-8 has the same effect
    however the reads cut it, also inside characters and control sequences. *)
From S2P Require Import Prelude Text Grid Csi Utf8 Utf8Facts Feed.

Local Open Scope Z_scope.

(** ** Scanners only look ahead as far as they report *)

Definition parse_bound {A} (position : A → nat) (i : nat) (l : rstring) (p : SequenceParse A) :
    Prop :=
  match p with
  | Complete a => (i ≤ position a < i + length l)%nat
  | Cancelled j => (i ≤ j < i + length l)%nat
  | ParsePending => True
  end.

Lemma parse_csi_bound i l : parse_bound snd i l (parse_csi i l).
Proof.
  revert i. induction l as [|ch l IH]; intros i; simpl; [done|].
  repeat case_match; simpl; try lia. specialize (IH (S i)).
  destruct (parse_csi (S i) l); simpl in *; lia.
Qed.

Lemma parse_osc_bound i l : parse_bound id i l (parse_osc i l).
Proof.
  revert i. induction l as [|ch l IH]; intros i; simpl; [done|].
  repeat case_match; simpl; unfold id; try lia.
  - destruct l; simpl; [|lia]. by destruct (ch =? 27).
  - specialize (IH (S i)). destruct (parse_osc (S i) l); simpl in *; unfold id in *; lia.
Qed.

Lemma parse_st_bound i l : parse_bound id i l (parse_st_terminated_control_string i l).
Proof.
  revert i. induction l as [|ch l IH]; intros i; simpl; [done|].
  repeat case_match; simpl; unfold id; try lia.
  - destruct l; simpl; [|lia]. by destruct (ch =? 27).
  - specialize (IH (S i)).
    destruct (parse_st_terminated_control_string (S i) l); simpl in *; unfold id in *; lia.
Qed.

Lemma parse_csi_app i l k : parse_csi i l = ParsePending ∨ parse_csi i (l ++ k) = parse_csi i l.
Proof. revert i. induction l; intros i; simpl; [by left|]. repeat case_match; auto. Qed.

Lemma head_app_esc (l k : rstring) :
  l = [] ∨ head (l ++ k) = head l.
Proof. destruct l; auto. Qed.

Lemma parse_osc_app i l k : parse_osc i l = ParsePending ∨ parse_osc i (l ++ k) = parse_osc i l.
Proof.
  revert i. induction l as [|ch l IH]; intros i; simpl; [by left|].
  destruct (head_app_esc l k) as [->| ->]; [|repeat case_match; auto].
  rewrite (bool_decide_false (head [] = Some 92)) by done. rewrite andb_false_r.
  destruct ((ch =? 7) || (ch =? 156)); [by right|].
  destruct (is_cancel_control ch) eqn:Hc; [|by left]. right.
  unfold is_cancel_control in Hc. destruct (ch =? 27) eqn:Hch; [lia|done].
Qed.

Lemma parse_st_app i l k :
  parse_st_terminated_control_string i l = ParsePending ∨
  parse_st_terminated_control_string i (l ++ k) = parse_st_terminated_control_string i l.
Proof.
  revert i. induction l as [|ch l IH]; intros i; simpl; [by left|].
  destruct (head_app_esc l k) as [->| ->]; [|repeat case_match; auto].
  rewrite (bool_decide_false (head [] = Some 92)) by done. rewrite andb_false_r.
  destruct (ch =? 156); [by right|].
  destruct (is_cancel_control ch) eqn:Hc; [|by left]. right.
  unfold is_cancel_control in Hc. destruct (ch =? 27) eqn:Hch; [lia|done].
Qed.

Lemma st_content_end_app l k i :
  (i < length l)%nat → st_content_end (l ++ k) i = st_content_end l i.
Proof.
  intros Hi. unfold st_content_end. rewrite !(lookup_app_l (A:=Z)) by lia. done.
Qed.

Lemma st_content_end_le l i : (st_content_end l i ≤ i)%nat.
Proof. unfold st_content_end. case_match; lia. Qed.

Create HintDb feed.

Section facts.
  Context {T : Type} `{HP : Performer T} `{HL : !PerformerLaws T}.
  Abbreviation F := (M Empty_set (Feeder T)).
  Implicit Types (f : Feeder T) (l k : rstring).

(** ** Frames: who touches what *)

(** A computation of the screen: it neither reads nor writes the pending
    input, and leaves the configuration alone. *)
Definition screen_only {A} (m : F A) : Prop :=
  ∃ g : T → outcome Empty_set T A, ∀ f,
    m f = match g (screen f) with
          | Ok a t => Ok a (with_screen t f)
          | Err e t => Err e (with_screen t f)
          | Panic => Panic
          end.

Lemma screen_only_on {A} (m : M Empty_set T A) : screen_only (on_screen m).
Proof. exists m. intros f. unfold on_screen, zoom. by destruct (m (screen f)). Qed.

Lemma screen_only_modify g : screen_only (modify_screen g).
Proof. by exists (λ t, Ok () (g t)). Qed.

Lemma screen_only_ret {A} (a : A) : screen_only (mret a).
Proof. exists (λ t, Ok a t). by intros []. Qed.

Lemma screen_only_bind {A B} (m : F A) (h : A → F B) :
  screen_only m → (∀ a, screen_only (h a)) → screen_only (m ≫= h).
Proof.
  intros [g Hg] Hh.
  exists (λ t, match g t with
               | Ok a t' => match h a (mkFeeder [] [] false t') with
                            | Ok b f => Ok b (screen f)
                            | Err e f => Err e (screen f)
                            | Panic => Panic
                            end
               | Err e t' => Err e t'
               | Panic => Panic
               end).
  intros f. unfold mbind, M_bind. rewrite Hg. destruct (g (screen f)) as [a t|[]|]; [|done].
  destruct (Hh a) as [g' Hg']. rewrite !Hg'. simpl. by destruct (g' t).
Qed.

Lemma screen_only_ascii byte : screen_only (consume_ascii_control byte).
Proof.
  unfold consume_ascii_control.
  repeat case_match; repeat first [apply screen_only_ret | apply screen_only_bind; [|intros ?]];
    auto using screen_only_modify, screen_only_on.
Qed.

(** ** Sequences *)

(** On [l] the consumer either keeps all of [l] pending, or its effect and
    advance do not depend on what follows and stay inside [l]. *)
Definition stable (p : rstring → F FeedAdvance) (l : rstring) : Prop :=
  ∀ k f,
    p l f = Ok FeedPending (with_pending_control (pending_control f ++ l) f) ∨
    p (l ++ k) f = p l f ∧
    ∀ a f', p l f = Ok a f' →
      (∃ n, a = Next n ∧ (1 ≤ n ≤ length l)%nat) ∧
      pending_control f' = pending_control f ∧ pending_utf8 f' = pending_utf8 f ∧
      normalize_output_to_unicode_nfc f' = normalize_output_to_unicode_nfc f.

(** A command of known length. *)
Lemma stable_screen (m : F ()) n l :
  screen_only m → (1 ≤ n ≤ length l)%nat → stable (λ _, m;; mret (Next n)) l.
Proof.
  intros [g Hg] Hn k f. right. split; [done|]. intros a f'.
  unfold mbind, M_bind. rewrite Hg. destruct (g (screen f)); [|done|done].
  intros [= <- <-]. split; [|done]. by exists n.
Qed.

Lemma stable_keep l : stable keep_pending l.
Proof. intros k f. by left. Qed.

(** A scanned sequence. *)
Lemma stable_sequence {A} (parse : rstring → SequenceParse A) (position : A → nat)
    (complete : rstring → A → F ()) off l :
  (1 ≤ off)%nat →
  (∀ c, parse_bound position 0 c (parse c)) →
  (∀ c k, parse c = ParsePending ∨ parse (c ++ k) = parse c) →
  (∀ c a, screen_only (complete c a)) →
  (∀ c k a, (position a < length c)%nat → complete (c ++ k) a = complete c a) →
  parse [] = ParsePending →
  stable (λ chars, sequence_advance chars off (parse (drop off chars))
    (λ a, complete (drop off chars) a;; mret (position a))) l.
Proof.
  intros Hoff Hbound Happ Hscreen Hcomplete Hnil k f. unfold sequence_advance.
  destruct (decide (length l ≤ off)%nat) as [Hshort|Hlong].
  { left. by rewrite drop_ge, Hnil by done. }
  rewrite drop_app_le by lia. set (c := drop off l).
  assert (length c = length l - off)%nat as Hlen by apply length_drop.
  specialize (Hbound c). destruct (Happ c k) as [Hp|Hp].
  { left. by rewrite Hp. }
  rewrite Hp. destruct (parse c) as [a|j|] eqn:Hc; simpl in Hbound.
  - right. rewrite Hcomplete by lia. split; [done|]. intros x f'.
    destruct (Hscreen c a) as [g Hg]. unfold mbind, M_bind, mret, M_ret. rewrite Hg.
    destruct (g (screen f)); [|done|done]. intros [= <- <-]. split; [|done].
    eexists. split; [done|]. lia.
  - right. split; [done|]. intros x f' [= <- <-]. split; [|done]. eexists. split; [done|]. lia.
  - by left.
Qed.

Lemma stable_ext (p q : rstring → F FeedAdvance) l :
  (∀ chars f, p chars f = q chars f) → stable q l → stable p l.
Proof. intros Heq Hq k f. rewrite !Heq. apply Hq. Qed.

Lemma stable_csi off l : (1 ≤ off)%nat → stable (λ chars, apply_csi_sequence chars off) l.
Proof.
  intros Hoff.
  eapply stable_ext; [|apply (stable_sequence (parse_csi 0) snd
    (λ c '(command, e), on_screen (perform_csi command (take e c))) off l Hoff)].
  - intros chars f. unfold apply_csi_sequence, sequence_advance. simpl.
    by destruct (parse_csi 0 (drop off chars)) as [[command e]| |].
  - intros c. apply parse_csi_bound.
  - intros c k. apply parse_csi_app.
  - intros c [command e]. apply screen_only_on.
  - intros c k [command e] He. simpl in He. by rewrite take_app_le by lia.
  - done.
Qed.

(** OSC, APC and DCS. *)
Lemma stable_content perform parse off l :
  (1 ≤ off)%nat → (∀ c, parse_bound id 0 c (parse c)) →
  (∀ c k, parse c = ParsePending ∨ parse (c ++ k) = parse c) → parse [] = ParsePending →
  stable (λ chars, let content := drop off chars in
    sequence_advance chars off (parse content) (apply_content perform content)) l.
Proof.
  intros Hoff Hb Ha Hn.
  apply (stable_sequence parse id (λ c e, on_screen (perform (take (st_content_end c e) c))));
    try done.
  - intros c e. apply screen_only_on.
  - intros c k e He. unfold id in He. rewrite st_content_end_app by done.
    rewrite take_app_le; [done|]. pose proof (st_content_end_le c e). lia.
Qed.

Lemma stable_osc off l : (1 ≤ off)%nat → stable (λ chars, apply_osc_sequence chars off) l.
Proof. intros. apply stable_content; auto using parse_osc_bound, parse_osc_app. Qed.

Lemma stable_apc off l : (1 ≤ off)%nat → stable (λ chars, apply_apc_sequence chars off) l.
Proof. intros. apply stable_content; auto using parse_st_bound, parse_st_app. Qed.

Lemma stable_dcs off l : (1 ≤ off)%nat → stable (λ chars, apply_dcs_sequence chars off) l.
Proof. intros. apply stable_content; auto using parse_st_bound, parse_st_app. Qed.

Lemma stable_skip off l : (1 ≤ off)%nat → stable (λ chars, skip_control_string chars off) l.
Proof.
  intros Hoff.
  eapply stable_ext; [|apply (stable_sequence (parse_st_terminated_control_string 0) id
    (λ c e, mret ()) off l Hoff)]; auto using parse_st_bound, parse_st_app, screen_only_ret.
Qed.

(** A selector in the third character. *)
Lemma stable_third (q : Z → F ()) l :
  (∀ ch, screen_only (q ch)) →
  stable (λ chars, match chars !! 2%nat with
                   | Some ch => q ch;; mret (Next 3)
                   | None => keep_pending chars
                   end) l.
Proof.
  intros Hq k f. destruct (l !! 2%nat) as [ch|] eqn:Hl; [|by left].
  pose proof (lookup_lt_Some _ _ _ Hl) as Hlt.
  destruct (stable_screen (q ch) 3 l (Hq ch) ltac:(lia) k f) as [Hs|Hs]; [by left|right].
  by rewrite (lookup_app_l_Some _ _ _ _ Hl).
Qed.

Lemma stable_if (b : bool) (p q : rstring → F FeedAdvance) l :
  stable p l → stable q l → stable (λ chars, if b then p chars else q chars) l.
Proof. by destruct b. Qed.

Lemma stable_g0 l : stable consume_g0_character_set_selection l.
Proof.
  apply stable_third. intros ch. case_match; auto using screen_only_modify, screen_only_ret.
Qed.

Lemma stable_hash l : stable consume_hash_escape_sequence l.
Proof.
  apply stable_third. intros ch. case_match; auto using screen_only_modify, screen_only_ret.
Qed.

#[local] Hint Resolve stable_csi stable_osc stable_apc stable_dcs stable_skip stable_screen
  stable_g0 stable_hash screen_only_on screen_only_modify screen_only_ret : feed.

Lemma stable_dispatch_escape ch l : (2 ≤ length l)%nat → stable (dispatch_escape ch) l.
Proof.
  intros Hl. unfold dispatch_escape.
  repeat (apply stable_if; [auto with feed lia; apply stable_screen; auto with feed|]).
  all: apply stable_screen; auto with feed.
Qed.

Lemma stable_escape ch l : stable consume_escape_sequence (ch :: l).
Proof.
  intros k f. unfold consume_escape_sequence. destruct l as [|c l]; [by left|].
  apply (stable_dispatch_escape c (ch :: c :: l)). simpl. lia.
Qed.

(** A character has a consumer exactly when it starts a sequence. *)
Lemma dispatch_c1_stable ch l :
  match dispatch_c1 ch with
  | Some p => is_escape_or_c1_sequence_start ch = true ∧ stable p (ch :: l)
  | None => is_escape_or_c1_sequence_start ch = false
  end.
Proof.
  unfold dispatch_c1, is_escape_or_c1_sequence_start.
  repeat (match goal with |- context [if ?b then Some _ else _] => destruct b eqn:? end);
    try (split; [unfold is_c1_st_control_string in *; lia|]);
    auto using stable_escape with feed; try (apply stable_screen; simpl; auto with feed lia).
Qed.

(** ** Cutting the characters *)

Definition same_config (f f' : Feeder T) : Prop :=
  pending_control f' = pending_control f ∧ pending_utf8 f' = pending_utf8 f ∧
  normalize_output_to_unicode_nfc f' = normalize_output_to_unicode_nfc f.

Lemma screen_only_config {A} (m : F A) f a f' :
  screen_only m → m f = Ok a f' → same_config f f'.
Proof. intros [g Hg]. rewrite Hg. destruct (g (screen f)); [|done|done]. by intros [= <- <-]. Qed.

(** Without normalisation a text character is one round by itself. *)
Lemma consume_text_plain ch l f :
  normalize_output_to_unicode_nfc f = false →
  consume_text_run_or_ascii_control ch l f =
    ((if is_ascii ch then feed_ascii_byte ch else on_screen (perform_write_char ch));; mret 1%nat) f.
Proof.
  intros Hn. unfold consume_text_run_or_ascii_control, feed_ascii_byte.
  destruct (screen_only_ascii ch) as [g Hg]. exec_unfold.
  destruct (is_ascii ch); [|by rewrite Hn; simpl; case_match].
  rewrite Hg. destruct (g (screen f)) as [[] t|[]|]; [done| |done].
  simpl. rewrite Hn. simpl. by case_match.
Qed.

Lemma screen_only_text ch :
  screen_only (if is_ascii ch then feed_ascii_byte ch else on_screen (perform_write_char ch)).
Proof.
  case_match; [|auto with feed].
  apply screen_only_bind; [apply screen_only_ascii|]. intros []; auto with feed.
Qed.

Lemma finish_run_start ch l f :
  is_escape_or_c1_sequence_start ch = true →
  feed_loop 0 (ch :: l) (with_screen (finish_run (screen f)) f) = feed_loop 0 (ch :: l) f.
Proof using HL.
  intros Hs. cbn [feed_loop]. unfold consume_escape_or_c1_sequence. rewrite Hs.
  exec_unfold. unfold modify_screen, modify, with_screen. simpl. by rewrite finish_run_idem.
Qed.

Lemma feed_loop_app skip a b f :
  (skip ≤ length a)%nat → pending_control f = [] → normalize_output_to_unicode_nfc f = false →
  feed_loop skip (a ++ b) f = (feed_loop skip a;; feed_chars b) f.
Proof using HL.
  revert skip f. induction a as [|ch a IH]; intros skip f Hskip Hpc Hn.
  { simpl in Hskip. assert (skip = 0)%nat as -> by lia. destruct f. simpl in *. subst. done. }
  destruct skip as [|skip]; [|simpl in Hskip; simpl; apply IH; by try lia].
  pose proof (dispatch_c1_stable ch a) as Hd.
  destruct (dispatch_c1 ch) as [p|] eqn:Hp.
  - destruct Hd as [Hs Hst].
    set (f1 := with_screen (finish_run (screen f)) f).
    destruct (Hst b f1) as [Hpend|(Heq & Hok)].
    + assert (feed_loop 0 (ch :: a) f =
        Ok () (with_pending_control (pending_control f1 ++ ch :: a) f1)) as Hloop.
      { cbn [feed_loop]. unfold consume_escape_or_c1_sequence. rewrite Hs, Hp.
        exec_unfold. unfold modify_screen, modify. fold f1. unfold fmap, M_fmap.
        by rewrite Hpend. }
      unfold mbind, M_bind at 1. rewrite Hloop. change ((ch :: a) ++ b) with (ch :: (a ++ b)).
      rewrite <-(finish_run_start ch (a ++ b) f Hs). fold f1.
      unfold feed_chars. cbv [mbind M_bind get_state put_state].
      destruct f; simpl in Hpc; subst. done.
    + cbn [app feed_loop]. unfold consume_escape_or_c1_sequence. rewrite Hs, Hp.
      exec_unfold. unfold modify_screen, modify. fold f1. unfold fmap, M_fmap.
      rewrite Heq.
      destruct (p (ch :: a) f1) as [adv f'|[]|] eqn:Hrun; [|done].
      destruct (Hok adv f' eq_refl) as ((n & -> & Hn1) & Hc1 & _ & Hc3). simpl in Hn1.
      apply IH; [lia|by rewrite Hc1|by rewrite Hc3].
  - cbn [app feed_loop]. unfold consume_escape_or_c1_sequence. rewrite Hd, Hp.
    exec_unfold. rewrite !consume_text_plain by done.
    destruct (screen_only_text ch) as [g Hg]. exec_unfold. rewrite Hg.
    destruct (g (screen f)) as [? t|[]|]; [|done]. by apply IH; [lia| |].
Qed.

(** ** [pending_utf8] is only the byte layer's *)

(** The computation does not look at [pending_utf8] and keeps it, and keeps
    the normalisation setting. *)
Definition utf8_free {A} (m : F A) : Prop :=
  ∀ f,
    (∀ p, m (with_pending_utf8 p f) =
      match m f with
      | Ok a f' => Ok a (with_pending_utf8 p f')
      | Err e f' => Err e (with_pending_utf8 p f')
      | Panic => Panic
      end) ∧
    ∀ a f', m f = Ok a f' →
      pending_utf8 f' = pending_utf8 f ∧
      normalize_output_to_unicode_nfc f' = normalize_output_to_unicode_nfc f.

Lemma utf8_free_screen {A} (m : F A) : screen_only m → utf8_free m.
Proof.
  intros [g Hg] f. split.
  - intros p. rewrite !Hg. simpl. by destruct (g (screen f)).
  - intros a f'. rewrite Hg. destruct (g (screen f)); [|done|done]. by intros [= <- <-].
Qed.

Lemma utf8_free_bind {A B} (m : F A) (h : A → F B) :
  utf8_free m → (∀ a, utf8_free (h a)) → utf8_free (m ≫= h).
Proof.
  intros Hm Hh f. destruct (Hm f) as [Hp Hc]. unfold mbind, M_bind. split.
  - intros p. rewrite Hp. destruct (m f) as [a f'| |]; [|done|done]. apply (Hh a f').
  - intros b f'. destruct (m f) as [a f1| |]; [|done|done]. intros Hr.
    destruct (Hc a f1 eq_refl) as [H1 H2]. destruct (proj2 (Hh a f1) b f' Hr) as [H3 H4].
    by rewrite H3, H4.
Qed.

Lemma utf8_free_fmap {A B} (h : A → B) (m : F A) : utf8_free m → utf8_free (h <$> m).
Proof.
  intros Hm f. destruct (Hm f) as [Hp Hc]. unfold fmap, M_fmap. split.
  - intros p. rewrite Hp. by destruct (m f).
  - intros b f'. destruct (m f) as [a f1| |]; [|done|done]. intros [= <- <-]. by eapply Hc.
Qed.

Lemma utf8_free_keep l : utf8_free (keep_pending l).
Proof. intros f. split; [done|]. intros a f' [= <- <-]. done. Qed.

Lemma utf8_free_sequence {A} l off (p : SequenceParse A) (c : A → F nat) :
  (∀ a, utf8_free (c a)) → utf8_free (sequence_advance l off p c).
Proof.
  intros Hc. destruct p; simpl; [|apply utf8_free_screen, screen_only_ret|apply utf8_free_keep].
  apply utf8_free_bind; [apply Hc|]. intros. apply utf8_free_screen, screen_only_ret.
Qed.

Lemma screen_only_content perform c e : screen_only (apply_content perform c e).
Proof. apply screen_only_bind; auto with feed. Qed.

Ltac utf8_free_tac :=
  repeat first
    [ apply utf8_free_keep
    | apply utf8_free_sequence; intros
    | apply utf8_free_fmap
    | apply utf8_free_screen;
      solve [apply screen_only_on | apply screen_only_modify | apply screen_only_ret
            | apply screen_only_content | apply screen_only_text | apply screen_only_ascii]
    | apply utf8_free_bind; [|intros ?]
    | progress case_match ].

Lemma utf8_free_escape l : utf8_free (consume_escape_sequence l).
Proof.
  unfold consume_escape_sequence, dispatch_escape, apply_csi_sequence, apply_osc_sequence,
    apply_apc_sequence, apply_dcs_sequence, skip_control_string,
    consume_g0_character_set_selection, consume_hash_escape_sequence.
  utf8_free_tac.
Qed.

Lemma utf8_free_c1 ch l : utf8_free (consume_escape_or_c1_sequence ch l).
Proof.
  apply utf8_free_bind; [utf8_free_tac|intros _].
  destruct (dispatch_c1 ch) as [p|] eqn:Hd; [|utf8_free_tac].
  apply utf8_free_fmap. unfold dispatch_c1 in Hd.
  repeat (match goal with H : (if ?b then _ else _) = _ |- _ => destruct b end; simplify_eq);
    try apply utf8_free_escape;
    unfold apply_csi_sequence, apply_osc_sequence, apply_dcs_sequence, skip_control_string;
    utf8_free_tac.
Qed.

Lemma utf8_free_write_chars text : utf8_free (write_chars text).
Proof.
  unfold write_chars. induction text as [|ch text IH]; [utf8_free_tac|].
  apply utf8_free_bind; [utf8_free_tac|]. intros _. apply IH.
Qed.

Lemma utf8_free_normalized text : utf8_free (write_normalized text).
Proof.
  unfold write_normalized. case_match; [apply utf8_free_write_chars|].
  intros f. exec_unfold. destruct (normalize_leading_combining_marks text (screen f)) as [n t].
  apply (utf8_free_write_chars (nfc (drop n text)) (with_screen t f)).
Qed.

Lemma utf8_free_text ch l : utf8_free (consume_text_run_or_ascii_control ch l).
Proof.
  apply utf8_free_bind; [utf8_free_tac|]. intros []; [utf8_free_tac|].
  intros f. cbv [get_state mbind M_bind]. simpl.
  destruct (negb (normalize_output_to_unicode_nfc f)).
  - apply (utf8_free_bind _ (λ _, mret 1%nat)); intros; utf8_free_tac.
  - apply (utf8_free_bind _ (λ _, mret _)); [apply utf8_free_normalized|intros; utf8_free_tac].
Qed.

Lemma utf8_free_loop skip l : utf8_free (feed_loop skip l).
Proof.
  revert skip. induction l as [|ch l IH]; intros skip; [utf8_free_tac|].
  destruct skip; [|apply IH]. cbn [feed_loop].
  apply utf8_free_bind; [apply utf8_free_c1|]. intros [[n|]|]; [apply IH|utf8_free_tac|].
  apply utf8_free_bind; [apply utf8_free_text|]. intros n. apply IH.
Qed.

Lemma utf8_free_chars l : utf8_free (feed_chars l).
Proof. intros f. exact (utf8_free_loop 0 (pending_control f ++ l) (with_pending_control [] f)). Qed.

Lemma feed_chars_app a b f :
  normalize_output_to_unicode_nfc f = false →
  feed_chars (a ++ b) f = (feed_chars a;; feed_chars b) f.
Proof using HL.
  intros Hn. unfold feed_chars at 1 2. exec_unfold. rewrite app_assoc.
  by apply feed_loop_app; [lia| |].
Qed.

(** ** Reads *)

Lemma decode_chunks_cons p c chunks d r :
  decode_chunks p (c :: chunks) = Some (d, r) →
  ∃ d1 p1 d2, decode_chunk p c = Some (d1, p1) ∧ decode_chunks p1 chunks = Some (d2, r) ∧
    d = d1 ++ d2.
Proof.
  simpl. destruct (decode_chunk p c) as [[d1 p1]|]; [|done]. simpl.
  destruct (decode_chunks p1 chunks) as [[d2 p2]|] eqn:H2; [|done]. simpl.
  intros [= <- <-]. eauto 10.
Qed.

(** A sequence of reads is one pass over what they decode to. *)
Lemma feed_decoded_chunks c chunks f cs rest :
  normalize_output_to_unicode_nfc f = false →
  decode_chunks (pending_utf8 f) (c :: chunks) = Some (cs, rest) →
  iterM feed_decoded_at_current_seqno (c :: chunks) f = feed_chars cs (with_pending_utf8 rest f).
Proof using HL.
  revert c f cs. induction chunks as [|c' chunks IH]; intros c f cs Hn Hd;
    apply decode_chunks_cons in Hd as (d1 & p1 & d2 & Hc & Hc2 & ->).
  - simplify_eq/=. rewrite app_nil_r. unfold feed_decoded_at_current_seqno.
    cbv [mbind M_bind get_state put_state expect]. rewrite Hc.
    cbv [mret M_ret]. by destruct (feed_chars d1 _) as [[]| |].
  - rewrite feed_chars_app by done. cbn [iterM]. unfold mbind, M_bind.
    assert (feed_decoded_at_current_seqno c f = feed_chars d1 (with_pending_utf8 p1 f)) as ->.
    { unfold feed_decoded_at_current_seqno. cbv [mbind M_bind get_state put_state expect].
      by rewrite Hc. }
    pose proof (utf8_free_chars d1 (with_pending_utf8 p1 f)) as [Hp Hk].
    specialize (Hp rest). change (with_pending_utf8 rest (with_pending_utf8 p1 f))
      with (with_pending_utf8 rest f) in Hp. rewrite Hp.
    destruct (feed_chars d1 (with_pending_utf8 p1 f)) as [[] f1|[]|] eqn:Hf1; [|done].
    destruct (Hk () f1 eq_refl) as [Hu Hn1]. apply (IH c' f1 d2); [by rewrite Hn1|by rewrite Hu].
Qed.

(** ** The ASCII fast path *)

Lemma encode_ascii bytes : forallb is_ascii bytes = true → encode bytes = bytes ∧ Forall scalar bytes.
Proof.
  unfold is_ascii, between. induction bytes as [|b bytes IH]; simpl; [done|].
  intros [Hb [IH1 IH2]%IH]%andb_true_iff. rewrite encode_cons, IH1. split.
  - unfold encode_char. case_match; [done|lia].
  - constructor; [left; lia|done].
Qed.

Lemma feed_loop_ascii bytes f :
  forallb is_ascii bytes = true → 27 ∉ bytes → normalize_output_to_unicode_nfc f = false →
  feed_loop 0 bytes f = iterM feed_ascii_byte bytes f.
Proof.
  revert f. induction bytes as [|b bytes IH]; intros f; [done|].
  cbn [forallb]. intros [Hb Hbs]%andb_true_iff [Hne Hin]%not_elem_of_cons Hn.
  cbn [feed_loop iterM]. unfold consume_escape_or_c1_sequence.
  assert (is_escape_or_c1_sequence_start b = false) as Hs.
  { unfold is_ascii, between, is_escape_or_c1_sequence_start, is_c1_st_control_string in *. lia. }
  pose proof (dispatch_c1_stable b []) as Hd. rewrite Hs in Hd |- *.
  destruct (dispatch_c1 b); [by destruct Hd|].
  cbv [mbind M_bind mret M_ret]. rewrite consume_text_plain, Hb by done.
  cbv [mbind M_bind mret M_ret].
  destruct (feed_ascii_byte b f) as [[] f'| |] eqn:Hf; [|done|done].
  apply IH; [done|done|]. pose proof (screen_only_text b) as Ht. rewrite Hb in Ht.
  destruct (screen_only_config _ _ _ _ Ht Hf) as (_ & _ & Hc). by rewrite Hc.
Qed.

Lemma feed_at_decoded bytes f :
  feed_at_current_seqno bytes f = feed_decoded_at_current_seqno bytes f.
Proof.
  unfold feed_at_current_seqno, try_feed_direct_ascii_at_current_seqno.
  cbv [mbind M_bind get_state mret M_ret].
  match goal with |- context [if ?b then λ _, Ok false _ else _] => destruct b eqn:Hcond end;
    [done|].
  repeat rewrite orb_false_iff in Hcond. destruct Hcond as ((((Hn & Hu) & Hp) & Ha) & He).
  apply bool_decide_eq_false, dec_stable in Hu, Hp. apply negb_false_iff in Ha.
  apply bool_decide_eq_false in He. destruct (encode_ascii bytes Ha) as [Henc Hsc].
  assert (decode_chunk (pending_utf8 f) bytes = Some (bytes, [])) as Hd.
  { rewrite Hu. apply decode_chunk_encode; [done|apply partial_nil|].
    by rewrite Henc, app_nil_r. }
  unfold feed_decoded_at_current_seqno. cbv [mbind M_bind get_state mret M_ret expect put_state].
  rewrite Hd. unfold feed_chars. cbv [mbind M_bind get_state mret M_ret expect put_state].
  destruct f as [u p n s]. cbn in Hu, Hp, Hn. subst. cbn -[iterM feed_loop].
  rewrite feed_loop_ascii by done. by destruct (iterM feed_ascii_byte bytes _) as [[]| |].
Qed.

(** The direct path for plain ASCII input is the general decoding path:
    on every state and every input both do exactly the same, whichever of
    the two is taken. *)
Theorem ascii_fast_path_correct bytes f :
  feed_at_current_seqno bytes f = feed_decoded_at_current_seqno bytes f.
Proof. apply feed_at_decoded. Qed.

Lemma feed_at_chunks chunks f :
  iterM feed_at_current_seqno chunks f = iterM feed_decoded_at_current_seqno chunks f.
Proof.
  revert f. induction chunks as [|c chunks IH]; intros f; [done|]. cbn [iterM].
  unfold mbind, M_bind. rewrite feed_at_decoded. destruct (feed_decoded_at_current_seqno c f); [apply IH|done|done].
Qed.

(** C10. Within one sequence number, and unless output is normalised to NFC, the
    screen does not depend on how the output was cut into reads: text in
    UTF-8, control sequences included, received in any chunks, cut anywhere
    and with the first bytes of its first character already pending, has
    exactly the effect of receiving it at once, with the same pending input
    left. *)
Theorem feed_any_chunks cs chunks f :
  normalize_output_to_unicode_nfc f = false → partial (pending_utf8 f) →
  Forall scalar cs → pending_utf8 f ++ concat chunks = encode cs → chunks ≠ [] →
  iterM feed_at_current_seqno chunks f = feed_at_current_seqno (concat chunks) f.
Proof using HL.
  intros Hn Hu Hcs Hcat Hne.
  transitivity (iterM feed_at_current_seqno [concat chunks] f).
  2: { cbn [iterM]. unfold mbind, M_bind. by destruct (feed_at_current_seqno (concat chunks) f) as [[]| |]. }
  rewrite !feed_at_chunks. destruct chunks as [|c chunks]; [done|].
  rewrite (feed_decoded_chunks c chunks f cs []), (feed_decoded_chunks _ [] f cs []); try done.
  all: apply decode_chunks_encode; try done. by cbn [concat]; rewrite app_nil_r.
Qed.

(** Every round of the feed loop moves forward: a recognised sequence
    advances by at least one character and never past the input, a text run
    by at least one character; an incomplete sequence stops the loop with
    all of its characters kept for the next read. So the loop ends on every
    input. *)
Theorem feed_round_progress ch l f :
  (∀ a f', consume_escape_or_c1_sequence ch (ch :: l) f = Ok a f' →
     a = None ∨ (∃ n, a = Some (Next n) ∧ (1 ≤ n ≤ length (ch :: l))%nat) ∨
     a = Some FeedPending ∧ pending_control f' = pending_control f ++ ch :: l) ∧
  (∀ n f', consume_text_run_or_ascii_control ch (ch :: l) f = Ok n f' →
     (1 ≤ n ≤ length (ch :: l))%nat).
Proof.
  split.
  - intros a f'. unfold consume_escape_or_c1_sequence.
    pose proof (dispatch_c1_stable ch l) as Hd. destruct (dispatch_c1 ch) as [p|].
    + destruct Hd as [Hs Hst]. rewrite Hs. exec_unfold. unfold modify_screen, modify.
      set (f1 := with_screen (finish_run (screen f)) f). unfold fmap, M_fmap.
      destruct (Hst [] f1) as [Hpend|[_ Hok]]; [rewrite Hpend; intros [= <- <-]; auto|].
      destruct (p (ch :: l) f1) as [adv f2| |]; [|done|done]. intros [= <- <-].
      destruct (Hok adv f2 eq_refl) as ((n & -> & Hn) & _). right. left. by exists n.
    + rewrite Hd. intros [= <- <-]. by left.
  - intros n f'. unfold consume_text_run_or_ascii_control.
    assert (∀ k, text_run k ≤ length k)%nat as Hrun.
    { induction k; simpl; [done|]. case_match; lia. }
    specialize (Hrun l). exec_unfold. intros Hr.
    destruct ((if is_ascii ch then consume_ascii_control ch else λ s, Ok false s) f) as [[] f1|[]|];
      simplify_eq/=; [simpl; lia|].
    destruct (negb (normalize_output_to_unicode_nfc f1));
      repeat (case_match; simplify_eq/=); simpl; lia.
Qed.
End facts.
