(* ===== verification/Screen.v ===== *)
(** The screen state of the terminal ([rssh-terminal/src/parser.rs]): modes,
    saved cursors, the two screens, and the operations that move the cursor,
    set margins and tab stops, save and restore.

    [Terminal] keeps the fields of its active screen next to those it owns
    for good, and copies them into a [ScreenState] when the alternate screen
    is entered; here the active fields are a [ScreenState] too ([active]).
    Row and column numbers are [u16] in the source. They are natural numbers
    here, with [saturating_add] written as [sat_add]; a [+ 1] of the source
    is applied only to numbers below a grid dimension, where it cannot
    overflow.

    Inline images and Kitty graphics are behind the class [Graphics]: their
    state is two abstract types, and every call of the screen code into the
    graphics code is a value of [GraphicsCall]; [ImageCalls] implements it
    with the code of the source. The Unicode tables and the
    base64 decoder of third-party crates are the class [External]. *)
From coqutil Require Import Datatypes.RecordSetters.
From S2P Require Import Prelude Text Grid Csi Reflow Utf8 Feed.
Import DoubleBraceUpdate.

(** [u16::saturating_add]. *)
Definition sat_add (x y : nat) : nat := (x + y) `min` Z.to_nat u16_max.

(** ** Record updates

    [r{{ field := v }}] builds the new record from the projections of [r], so
    that projections of an updated record compute. *)
Ltac mk_setter eta getter :=
  exact (fun f r => ltac:(
    let b := eval cbv beta in (eta r) in
    match b with
    | context C [getter r] => let b' := context C [f (getter r)] in exact b'
    end)).

(** ** Interfaces *)

(** [char_width cjk c] and [str_width cjk s] are [width]/[width_cjk] of the
    [unicode-width] crate, [grapheme_count] counts extended grapheme
    clusters, [nfc_text] normalises, [combining_class] is the canonical
    combining class and [base64_decode] the standard alphabet. *)
Class External := {
  char_width : bool → Z → option nat;
  str_width : bool → rstring → nat;
  grapheme_count : rstring → nat;
  nfc_text : rstring → rstring;
  combining_class : Z → Z;
  base64_decode : rstring → option (list Z);
}.

Record DamageRegion := mkDamage { dmg_x : nat; dmg_y : nat; dmg_width : nat; dmg_height : nat }.

#[export] Hint Extern 0 (@Setter DamageRegion _ ?getter) =>
  mk_setter (λ r, mkDamage (dmg_x r) (dmg_y r) (dmg_width r) (dmg_height r)) getter
  : typeclass_instances.

(** Where the graphics code looks at the screen. *)
Record GraphicsView := mkView {
  view_scrollback : nat;
  view_size : TerminalSize;
  view_cursor : nat * nat;
  view_sixel_display_mode : bool;
}.

(** How a bounded scroll or a character edit moves cells, in history
    coordinates. *)
Inductive CellTransform :=
| TScrollUp (top bottom count left right : nat)
| TScrollDown (top bottom count left right : nat)
| TInsertCharacters (row column count right : nat)
| TDeleteCharacters (row column count right : nat).

(** The calls into the graphics code, named after the functions called. *)
Inductive GraphicsCall :=
| FinishPendingPlaceholder
| ApplyPlaceholderDiacritic (ch : Z)
| StartPlaceholder (row column : nat) (foreground underline_color : Color)
| ForgetLastPlaceholder
| ClearPlaceholderCells (row column width : nat)
| ClearInlineImages
| ClearPlaceholders
| DeleteOrphanRelativeChildren
| DeleteVisibleInlineImages
| RebaseAfterHistoryPrune (rows : nat)
| RetainEditedPlacements
| ScrollImagesDown (top bottom count : nat)
| ScrollPlaceholdersDown (top bottom count : nat)
| ScrollImagesUp (top bottom count : nat)
| ScrollPlaceholdersUp (top bottom count : nat)
| DropImagesCrossing (boundary : nat)
| ShiftSuffixMetadata (suffix_start rows : nat)
| RetireGraphics (top bottom left right : nat)
| RetireMalformedGraphics (top bottom left right : nat)
| ApplyCellTransform (transform : CellTransform)
| TransformPlaceholders (transform : CellTransform)
| RetireReflowCoordinates
| RetireReflowGlobals
| ClearKittyGraphics
| ResetGraphics
| KittyCommand (graphics : rstring)
| SixelContent (content : rstring)
| InlineFile (file : rstring).

(** What a call returns: the flag of the functions that return one, the
    damage it records, and for an image that moves the cursor the cells it
    covers. *)
Record GraphicsReply := mkReply {
  reply_flag : bool;
  reply_damage : list DamageRegion;
  reply_cells : option (nat * nat);
}.

Definition no_reply : GraphicsReply := mkReply false [] None.

(** [screen_graphics] are the graphics fields of a [ScreenState],
    [shared_graphics] those only [Terminal] has. A call works on the shared
    fields and on those of one screen; while the alternate screen is active it
    also sees the fields of the dormant main screen. *)
Class Graphics := {
  screen_graphics : Type;
  shared_graphics : Type;
  no_images : screen_graphics;
  graphics_call : GraphicsCall → GraphicsView → shared_graphics → screen_graphics →
    option screen_graphics →
    GraphicsReply * shared_graphics * screen_graphics * option screen_graphics;
}.

(** Finishing a placeholder leaves none to finish. *)
Class GraphicsLaws `{Graphics} :=
  finish_placeholder_idem : ∀ v v' k s d r k' s' d',
    graphics_call FinishPendingPlaceholder v k s d = (r, k', s', d') →
    ∀ e, graphics_call FinishPendingPlaceholder v' k' s' e = (no_reply, k', s', e).

(** ** State *)

Inductive CursorShape := CursorBlock | CursorUnderline | CursorBar.

Inductive CursorStyle :=
| SteadyBlock | BlinkingBlock | SteadyUnderline | BlinkingUnderline | SteadyBar | BlinkingBar.

Definition cursor_style_shape (s : CursorStyle) : CursorShape :=
  match s with
  | SteadyBlock | BlinkingBlock => CursorBlock
  | SteadyUnderline | BlinkingUnderline => CursorUnderline
  | SteadyBar | BlinkingBar => CursorBar
  end.

Definition cursor_style_blinking (s : CursorStyle) : bool :=
  match s with BlinkingBlock | BlinkingUnderline | BlinkingBar => true | _ => false end.

Inductive CharacterWriteMode := ReplaceMode | InsertMode.

Record TerminalModes := mkModes {
  cursor_visible : bool;
  cursor_blinking : bool;
  cursor_shape : CursorShape;
  screen_reverse : bool;
  auto_wrap : bool;
  reverse_wrap : bool;
  sixel_display_mode : bool;
  sixel_scrolls_right : bool;
  origin_mode : bool;
  left_right_margin_mode : bool;
  write_mode : CharacterWriteMode;
}.

#[export] Hint Extern 0 (@Setter TerminalModes _ ?getter) =>
  mk_setter (λ r, mkModes (cursor_visible r) (cursor_blinking r) (cursor_shape r)
              (screen_reverse r) (auto_wrap r) (reverse_wrap r) (sixel_display_mode r)
              (sixel_scrolls_right r) (origin_mode r) (left_right_margin_mode r) (write_mode r)) getter
  : typeclass_instances.

Definition default_modes : TerminalModes :=
  mkModes true false CursorBlock false true false false false false false ReplaceMode.

Definition modes_with_cursor_style (s : CursorStyle) : TerminalModes :=
  default_modes{{ cursor_shape := cursor_style_shape s;
                  cursor_blinking := cursor_style_blinking s }}.

Record SavedCursor := mkSavedCursor {
  saved_row : nat;
  saved_column : nat;
  saved_pending_wrap : bool;
  saved_clear_semantic : bool;
  saved_origin_mode : bool;
  saved_character_set : CharacterSet;
  saved_style : Cell;
}.

Record SemanticCommandExit := mkCommandExit {
  exit_row : nat;
  exit_code : option Z;
  exit_aid : option rstring;
}.

#[export] Hint Extern 0 (@Setter SemanticCommandExit _ ?getter) =>
  mk_setter (λ r, mkCommandExit (exit_row r) (exit_code r) (exit_aid r)) getter
  : typeclass_instances.

Record CellWidthOverride := mkOverride { ov_first : Z; ov_last : Z; ov_width : nat }.

Record UnicodeVersionStackEntry := mkUnicodeEntry { uv_version : Z; uv_label : option rstring }.

Record MetadataChanges := mkMetadataChanges {
  mc_title : bool;
  mc_current_working_dir : bool;
  mc_badge_format : bool;
  mc_user_vars : list rstring;
}.

#[export] Hint Extern 0 (@Setter MetadataChanges _ ?getter) =>
  mk_setter (λ r, mkMetadataChanges (mc_title r) (mc_current_working_dir r) (mc_badge_format r)
              (mc_user_vars r)) getter
  : typeclass_instances.

Section state.
  Context `{Gfx : Graphics}.

Record ScreenState := mkScreen {
  grid : TerminalGrid;
  graphics : screen_graphics;
  cursor_row : nat;
  cursor_column : nat;
  pending_wrap : bool;
  clear_semantic_type_on_movement : bool;
  last_printable : option rstring;
  nfc_last_printable_cell : option (nat * nat);
  saved_cursor : option SavedCursor;
  modes : TerminalModes;
  scroll_top : nat;
  scroll_bottom : nat;
  left_margin : nat;
  right_margin : nat;
  character_set : CharacterSet;
  style : Cell;
}.

Record Terminal := mkTerminal {
  active : ScreenState;
  main_screen : option ScreenState;
  scrollback : HistoryBuffer ScrollbackLine;
  scrollback_limit : nat;
  seqno : Z;
  screen_identity_generation : Z;
  main_stable_row_offset : Z;
  title : option rstring;
  icon_title : option rstring;
  window_title : option rstring;
  title_stack : list (option rstring);
  current_working_dir : option rstring;
  badge_format : option rstring;
  user_vars : gmap (list Z) rstring;
  pending_metadata_changes : MetadataChanges;
  shared : shared_graphics;
  semantic_prompt_rows : list nat;
  semantic_command_exits : list SemanticCommandExit;
  default_cursor_style : CursorStyle;
  tab_stops : list nat;
  damage : list DamageRegion;
  bell_count : Z;
  unknown_escape_sequences : list rstring;
  ambiguous_width_as_wide : bool;
  cell_width_overrides : list CellWidthOverride;
  unicode_version : Z;
  unicode_version_stack : list UnicodeVersionStackEntry;
  metadata_rebase_batches : Z;
  scrolled_survivor_cell_clones : Z;
}.

End state.

#[export] Hint Extern 0 (@Setter ScreenState _ ?getter) =>
  mk_setter (λ r, mkScreen (grid r) (graphics r) (cursor_row r) (cursor_column r) (pending_wrap r)
              (clear_semantic_type_on_movement r) (last_printable r) (nfc_last_printable_cell r)
              (saved_cursor r) (modes r) (scroll_top r) (scroll_bottom r) (left_margin r)
              (right_margin r) (character_set r) (style r)) getter
  : typeclass_instances.
#[export] Hint Extern 0 (@Setter Terminal _ ?getter) =>
  mk_setter (λ r, mkTerminal (active r) (main_screen r) (scrollback r) (scrollback_limit r) (seqno r)
              (screen_identity_generation r) (main_stable_row_offset r) (title r) (icon_title r)
              (window_title r) (title_stack r) (current_working_dir r) (badge_format r) (user_vars r)
              (pending_metadata_changes r) (shared r) (semantic_prompt_rows r)
              (semantic_command_exits r) (default_cursor_style r) (tab_stops r) (damage r)
              (bell_count r) (unknown_escape_sequences r) (ambiguous_width_as_wide r)
              (cell_width_overrides r) (unicode_version r) (unicode_version_stack r)
              (metadata_rebase_batches r) (scrolled_survivor_cell_clones r)) getter
  : typeclass_instances.

(** ** Tab stops *)

Module TabStops.

(** [while column < size.columns]: 8, 16, ...; every round adds 8, so the
    number of columns is enough fuel. *)
Fixpoint default_loop (fuel column columns : nat) : list nat :=
  match fuel with
  | O => []
  | S fuel =>
      if column <? columns then column :: default_loop fuel (sat_add column 8) columns else []
  end.

Definition default_tab_stops (size : TerminalSize) : list nat :=
  default_loop (size_columns size) 8 (size_columns size).

Definition new (size : TerminalSize) : list nat := default_tab_stops size.

Definition resize (size : TerminalSize) (stops : list nat) : list nat :=
  filter (λ column, column < size_columns size) stops.

(** [partition_point] of a sorted vector. *)
Fixpoint insert_sorted (column : nat) (stops : list nat) : list nat :=
  match stops with
  | [] => [column]
  | stop :: rest =>
      if decide (stop < column) then stop :: insert_sorted column rest else column :: stops
  end.

(** [binary_search] of a sorted vector is membership. *)
Definition set (column : nat) (size : TerminalSize) (stops : list nat) : list nat :=
  if decide (size_columns size ≤ column ∨ column ∈ stops) then stops
  else insert_sorted column stops.

Definition clear (column : nat) (stops : list nat) : list nat := filter (λ stop, stop ≠ column) stops.
Definition clear_all (stops : list nat) : list nat := [].

Definition next_after (column fallback : nat) (stops : list nat) : nat :=
  default fallback (snd <$> list_find (λ stop, column < stop) stops).

Definition previous_before (column : nat) (stops : list nat) : nat :=
  default 0 (snd <$> list_find (λ stop, stop < column) (rev stops)).

End TabStops.

(** ** One screen *)

Definition clamp_axis (value limit : nat) : nat := value `min` (limit - 1).

Module Screen.
Section screen.
  Context `{Gfx : Graphics}.
  Implicit Types (s : ScreenState).

Definition size s : TerminalSize := grid_size (grid s).
Definition rows s : nat := size_rows (size s).
Definition columns s : nat := size_columns (size s).

Definition clear_semantic_type_due_to_movement s : ScreenState :=
  if clear_semantic_type_on_movement s
  then s{{ clear_semantic_type_on_movement := false; style -> semantic_type := Output }}
  else s.

(** *** Margins *)

Definition cursor_within_horizontal_margins s : bool :=
  negb (left_right_margin_mode (modes s))
  || (bool_decide (left_margin s ≤ cursor_column s) && bool_decide (cursor_column s ≤ right_margin s)).

Definition cursor_within_vertical_margins s : bool :=
  bool_decide (scroll_top s ≤ cursor_row s) && bool_decide (cursor_row s ≤ scroll_bottom s).

Definition character_right_boundary s : nat :=
  let physical_right := columns s - 1 in
  if left_right_margin_mode (modes s) && cursor_within_horizontal_margins s
  then right_margin s `min` physical_right else physical_right.

Definition active_scroll_range s : option (nat * nat) :=
  if decide (rows s = 0 ∨ columns s = 0) then None
  else
    let top := scroll_top s `min` (rows s - 1) in
    let bottom := scroll_bottom s `min` (rows s - 1) in
    if decide (bottom < top) then None else Some (top, bottom).

Definition active_scroll_range_from_cursor s : option (nat * nat) :=
  if decide (rows s = 0 ∨ columns s = 0) then None
  else
    let top := scroll_top s `min` (rows s - 1) in
    let bottom := scroll_bottom s `min` (rows s - 1) in
    if decide (cursor_row s < top ∨ bottom < cursor_row s) then None
    else Some (cursor_row s, bottom).

Definition bounded_horizontal_scroll_columns s : option (nat * nat) :=
  if negb (left_right_margin_mode (modes s)) || bool_decide (columns s = 0) then None
  else
    let left := left_margin s `min` (columns s - 1) in
    let right := right_margin s `min` (columns s - 1) in
    if decide (left < right ∧ (left ≠ 0 ∨ right ≠ columns s - 1)) then Some (left, right) else None.

Definition cursor_home s : ScreenState :=
  let s := s{{ pending_wrap := false }} in
  let s := s{{ cursor_column := if origin_mode (modes s) && left_right_margin_mode (modes s)
                                then left_margin s else 0 }} in
  let s := s{{ cursor_row := if origin_mode (modes s)
                             then scroll_top s `min` (rows s - 1) else 0 }} in
  clear_semantic_type_due_to_movement s.

Definition set_left_right_margin_mode (enabled : bool) s : ScreenState :=
  let s := s{{ modes -> left_right_margin_mode := enabled }} in
  if enabled then s else s{{ left_margin := 0; right_margin := columns s - 1 }}.

(** The two ends of a margin parameter: one-based, a missing or zero second
    one is the last line. *)
Definition margin_params (params : rstring) (limit : nat) : nat * nat :=
  let values := parse_csi_params params in
  let first := Z.to_nat (param_or_one (head values)) - 1 in
  let last := match values !! 1 with
              | Some v => if bool_decide (v = 0%Z) then limit else Z.to_nat v
              | None => limit
              end in
  (first, (last - 1) `min` (limit - 1)).

Definition set_scroll_region (params : rstring) s : ScreenState :=
  if decide (rows s = 0) then s
  else
    let '(top, bottom) := margin_params params (rows s) in
    if decide (bottom ≤ top) then s
    else cursor_home (s{{ scroll_top := top; scroll_bottom := bottom }}).

Definition set_left_right_margins (params : rstring) s : ScreenState :=
  if decide (columns s = 0) then s
  else
    let '(first, last) := margin_params params (columns s) in
    if decide (last ≤ first) then s
    else cursor_home (s{{ left_margin := first; right_margin := last }}).

Definition set_origin_mode (enabled : bool) s : ScreenState :=
  cursor_home (s{{ modes -> origin_mode := enabled }}).

Definition set_auto_wrap (enabled : bool) s : ScreenState :=
  let s := s{{ modes -> auto_wrap := enabled }} in
  if enabled then s else s{{ pending_wrap := false }}.

Definition set_insert_mode (enabled : bool) s : ScreenState :=
  s{{ modes -> write_mode := if enabled then InsertMode else ReplaceMode }}.

Definition clamp_to_size s : ScreenState :=
  let s := s{{ cursor_row := clamp_axis (cursor_row s) (rows s);
               cursor_column := clamp_axis (cursor_column s) (columns s);
               scroll_top := clamp_axis (scroll_top s) (rows s);
               scroll_bottom := clamp_axis (scroll_bottom s) (rows s);
               left_margin := clamp_axis (left_margin s) (columns s);
               right_margin := clamp_axis (right_margin s) (columns s) }} in
  let s := if decide (scroll_bottom s ≤ scroll_top s)
           then s{{ scroll_top := 0; scroll_bottom := rows s - 1 }} else s in
  let s := if decide (right_margin s ≤ left_margin s)
           then s{{ left_margin := 0; right_margin := columns s - 1 }} else s in
  if decide (columns s = 0 ∨ rows s = 0) then s{{ pending_wrap := false }} else s.

(** [clamp_screen_state] of a dormant screen. *)
Definition clamp_screen_state (size : TerminalSize) s : ScreenState :=
  let s := s{{ cursor_row := clamp_axis (cursor_row s) (size_rows size);
               cursor_column := clamp_axis (cursor_column s) (size_columns size);
               scroll_top := clamp_axis (scroll_top s) (size_rows size);
               scroll_bottom := clamp_axis (scroll_bottom s) (size_rows size) }} in
  let s := if decide (scroll_bottom s ≤ scroll_top s)
           then s{{ scroll_top := 0; scroll_bottom := size_rows size - 1 }} else s in
  if decide (size_columns size = 0 ∨ size_rows size = 0) then s{{ pending_wrap := false }} else s.

(** *** The cursor *)

Definition save_cursor s : ScreenState :=
  s{{ saved_cursor := Some (mkSavedCursor (cursor_row s) (cursor_column s) (pending_wrap s)
        (clear_semantic_type_on_movement s) (origin_mode (modes s)) (character_set s) (style s)) }}.

Definition restore_cursor s : ScreenState :=
  match saved_cursor s with
  | None => s
  | Some saved =>
      let s := s{{ modes -> origin_mode := saved_origin_mode saved;
                   character_set := saved_character_set saved;
                   style := saved_style saved }} in
      if decide (rows s = 0 ∨ columns s = 0)
      then s{{ cursor_row := 0; cursor_column := 0; pending_wrap := false }}
      else s{{ cursor_row := saved_row saved `min` (rows s - 1);
               cursor_column := saved_column saved `min` (columns s - 1);
               pending_wrap := saved_pending_wrap saved;
               clear_semantic_type_on_movement := saved_clear_semantic saved }}
  end.

(** [if self.cursor_row != previous_row { self.clear_semantic_type.. }] *)
Definition moved_from (previous_row : nat) s : ScreenState :=
  if decide (cursor_row s = previous_row) then s else clear_semantic_type_due_to_movement s.

Definition move_cursor_up (count : nat) s : ScreenState :=
  let s := s{{ pending_wrap := false }} in
  moved_from (cursor_row s) (s{{ cursor_row := cursor_row s - count }}).

Definition move_cursor_down (count : nat) s : ScreenState :=
  let s := s{{ pending_wrap := false }} in
  if decide (rows s = 0) then s
  else moved_from (cursor_row s)
         (s{{ cursor_row := sat_add (cursor_row s) count `min` (rows s - 1) }}).

Definition move_cursor_forward (count : nat) s : ScreenState :=
  let s := s{{ pending_wrap := false }} in
  if decide (columns s = 0) then s
  else s{{ cursor_column := sat_add (cursor_column s) count `min` (columns s - 1) }}.

Definition move_cursor_back (count : nat) s : ScreenState :=
  s{{ pending_wrap := false; cursor_column := cursor_column s - count }}.

Definition move_cursor_next_line (count : nat) s : ScreenState :=
  (move_cursor_down count s){{ cursor_column := 0 }}.

Definition move_cursor_previous_line (count : nat) s : ScreenState :=
  (move_cursor_up count s){{ cursor_column := 0 }}.

Definition cursor_row_from_position_param (param : nat) s : nat :=
  let row := param - 1 in
  if decide (rows s = 0) then 0
  else if origin_mode (modes s) then
    let top := scroll_top s `min` (rows s - 1) in
    let bottom := scroll_bottom s `min` (rows s - 1) in
    sat_add top row `min` bottom
  else row `min` (rows s - 1).

Definition cursor_column_from_position_param (param : nat) s : nat :=
  let column := param - 1 in
  if decide (columns s = 0) then 0
  else if origin_mode (modes s) && left_right_margin_mode (modes s)
  then sat_add (left_margin s) column `min` right_margin s
  else column `min` (columns s - 1).

Definition position_cursor (params : rstring) s : ScreenState :=
  let s := s{{ pending_wrap := false }} in
  let values := parse_csi_params params in
  if decide (rows s = 0 ∨ columns s = 0) then s
  else
    let row := cursor_row_from_position_param (Z.to_nat (param_or_one (head values))) s in
    let column := cursor_column_from_position_param (Z.to_nat (param_or_one (values !! 1))) s in
    moved_from (cursor_row s) (s{{ cursor_row := row; cursor_column := column }}).

Definition position_cursor_column (params : rstring) s : ScreenState :=
  let s := s{{ pending_wrap := false }} in
  if decide (columns s = 0) then s
  else s{{ cursor_column := (Z.to_nat (csi_count params) - 1) `min` (columns s - 1) }}.

Definition position_cursor_row (params : rstring) s : ScreenState :=
  let s := s{{ pending_wrap := false }} in
  if decide (rows s = 0) then s
  else moved_from (cursor_row s)
         (s{{ cursor_row := (Z.to_nat (csi_count params) - 1) `min` (rows s - 1) }}).

Definition backspace s : ScreenState :=
  let s := s{{ pending_wrap := false }} in
  if decide (columns s = 0 ∨ rows s = 0) then s
  else
    let left_boundary :=
      if left_right_margin_mode (modes s) && bool_decide (left_margin s ≤ cursor_column s)
         && bool_decide (cursor_column s ≤ right_margin s)
      then left_margin s else 0 in
    if decide (left_boundary < cursor_column s) then s{{ cursor_column := cursor_column s - 1 }}
    else if reverse_wrap (modes s) && auto_wrap (modes s)
    then s{{ cursor_row := if decide (cursor_row s = 0) then rows s - 1 else cursor_row s - 1;
             cursor_column := if left_right_margin_mode (modes s)
                              then right_margin s `min` (columns s - 1) else columns s - 1 }}
    else s.

Definition carriage_return s : ScreenState :=
  s{{ cursor_column := if left_right_margin_mode (modes s)
                          && bool_decide (left_margin s ≤ cursor_column s)
                       then left_margin s else 0;
      pending_wrap := false }}.

Definition advance_cursor (width : nat) s : ScreenState :=
  let next_column := sat_add (cursor_column s) width in
  let right_boundary := character_right_boundary s in
  if decide (right_boundary < next_column)
  then s{{ cursor_column := right_boundary; pending_wrap := auto_wrap (modes s) }}
  else s{{ cursor_column := next_column; pending_wrap := false }}.

(** *** Tabs *)

(** [for _ in 0..count] with its [break]. *)
Fixpoint tab_loop (step : nat → nat) (count column : nat) : nat :=
  match count with
  | O => column
  | S count =>
      let next := step column in
      if decide (next = column) then column else tab_loop step count next
  end.

Definition move_forward_tabs (stops : list nat) (count : nat) s : ScreenState :=
  let s := s{{ pending_wrap := false }} in
  if decide (columns s = 0) then s
  else s{{ cursor_column := tab_loop (λ column, TabStops.next_after column (columns s - 1) stops)
             count (cursor_column s) }}.

Definition move_backward_tabs (stops : list nat) (count : nat) s : ScreenState :=
  let s := s{{ pending_wrap := false }} in
  if decide (columns s = 0) then s
  else s{{ cursor_column := tab_loop (λ column, TabStops.previous_before column stops)
             count (cursor_column s) }}.

(** *** Cells *)

Definition blank_cell s : Cell := Cell.set_blank (style s).

Definition set_grid_cell (seqno : Z) (row column : nat) (cell : Cell) s : bool * ScreenState :=
  let '(ok, g) := TerminalGrid.set row column cell (grid s) in
  if ok then (true, s{{ grid := (TerminalGrid.set_row_last_change_seqno row seqno g).2 }})
  else (false, s).

Definition set_grid_row_wrapped (seqno : Z) (row : nat) (wrapped : bool) s : ScreenState :=
  if bool_decide (TerminalGrid.row_wrapped row (grid s) = wrapped) then s
  else s{{ grid := (TerminalGrid.set_row_last_change_seqno row seqno
                      (TerminalGrid.set_row_wrapped row wrapped (grid s))).2 }}.

(** [for column in first..last { self.set_grid_cell(row, column, cell) }] *)
Definition fill_cells (seqno : Z) (row first last : nat) (cell : nat → Cell) s : ScreenState :=
  foldl (λ s column, (set_grid_cell seqno row column (cell column) s).2) s
    (seq first (last - first)).

Definition leader_of (column : nat) (cell : Cell) : nat :=
  match content cell with
  | Continuation leader_delta => column - Z.to_nat leader_delta
  | _ => column
  end.

Definition cell_width (cell : Cell) : nat := Z.to_nat (Z.max (Cell.columns cell) 1).

Definition clear_grapheme_span_at (seqno : Z) (row column : nat) s : ScreenState :=
  match TerminalGrid.get row column (grid s) with
  | None => s
  | Some cell =>
      let leader := leader_of column cell in
      let width := match TerminalGrid.get row leader (grid s) with
                   | None => 1
                   | Some c => cell_width c
                   end in
      foldl (λ s offset,
        let target := sat_add leader offset in
        if decide (target < columns s) then (set_grid_cell seqno row target (blank_cell s) s).2 else s)
        s (seq 0 width)
  end.

(** [(1..width).all(..)]: every cell of the grapheme is there. *)
Definition span_complete (row column width : nat) s : bool :=
  forallb (λ offset,
    match content <$> TerminalGrid.get row (column + offset) (grid s) with
    | Some (Continuation leader_delta) => bool_decide (Z.to_nat leader_delta = offset)
    | _ => false
    end) (seq 1 (width - 1)).

(** The [while column < columns]; every round moves [column] forward, so the
    number of columns is enough fuel ([None] is running out of it). *)
Fixpoint sanitize_loop (fuel : nat) (seqno : Z) (row column : nat) s : option ScreenState :=
  if decide (column < columns s) then
    match fuel with
    | O => None
    | S fuel =>
        match TerminalGrid.get row column (grid s) with
        | None => Some s
        | Some cell =>
            if Cell.is_continuation cell
            then sanitize_loop fuel seqno row (column + 1)
                   (set_grid_cell seqno row column (blank_cell s) s).2
            else
              let width := cell_width cell in
              if bool_decide (width = 1)
                 || (bool_decide (sat_add column width ≤ columns s)
                     && span_complete row column width s)
              then sanitize_loop fuel seqno row (column + width) s
              else sanitize_loop fuel seqno row (column + 1)
                     (clear_grapheme_span_at seqno row column s)
        end
    end
  else Some s.

Definition sanitize_grapheme_spans (seqno : Z) (row : nat) s : ScreenState :=
  default s (sanitize_loop (columns s) seqno row 0 s).

Definition grapheme_leader_column (column : nat) s : nat :=
  match TerminalGrid.get (cursor_row s) column (grid s) with
  | Some cell => leader_of column cell
  | None => column
  end.

End screen.
End Screen.
