(* ===== verification/Scroll.v ===== *)
(** Scrolling and history of the terminal ([rssh-terminal/src/parser.rs]):
    damage, pruning of the scrollback with its stable row numbers, scrolling
    of regions with and without left and right margins, line feeds, and the
    alternate screen's generation counter.

    [expect]s on the sequence number, the screen generation and the stable
    row offset, which grow for as long as the terminal lives, are panics of
    the monad; sums of row counts, which are bounded by the memory that holds
    the rows, are not checked. *)
From coqutil Require Import Datatypes.RecordSetters.
From S2P Require Import Prelude Text Grid Csi Reflow Utf8 Feed Screen.
Import DoubleBraceUpdate.

Definition isize_max : Z := 9223372036854775807.
Definition usize_max : Z := 18446744073709551615.

(** [checked_add(..).expect(..)]. *)
Definition checked_add (limit x y : Z) : option Z :=
  if bool_decide (x + y ≤ limit)%Z then Some (x + y)%Z else None.

Section terminal.
  Context `{Gfx : Graphics}.
  Abbreviation TM := (M Empty_set Terminal).
  Implicit Types (t : Terminal).

Definition on_active (f : ScreenState → ScreenState) t : Terminal := t{{ active := f (active t) }}.

Definition history_len t : nat := length (history_rows (scrollback t)).
Definition screen_size t : TerminalSize := Screen.size (active t).
Definition current_history_row t : nat := history_len t + cursor_row (active t).
Definition alternate_screen_active t : bool := bool_decide (is_Some (main_screen t)).

(** ** Damage *)

Definition damage_empty (d : DamageRegion) : bool :=
  bool_decide (dmg_width d = 0) || bool_decide (dmg_height d = 0).
Definition damage_right (d : DamageRegion) : nat := sat_add (dmg_x d) (dmg_width d).

Definition damage_adjacent (last region : DamageRegion) : bool :=
  bool_decide (dmg_y last = dmg_y region) && bool_decide (dmg_height last = dmg_height region)
  && bool_decide (damage_right last = dmg_x region).

(** Regions are kept in order; the last one may grow to the right. *)
Fixpoint push_damage (region : DamageRegion) (l : list DamageRegion) : list DamageRegion :=
  match l with
  | [] => [region]
  | [last] =>
      if damage_adjacent last region
      then [last{{ dmg_width := sat_add (dmg_width last) (dmg_width region) }}]
      else [last; region]
  | d :: rest => d :: push_damage region rest
  end.

Definition record_damage (region : DamageRegion) t : Terminal :=
  if damage_empty region then t else t{{ damage := push_damage region (damage t) }}.

Definition damage_screen t : Terminal :=
  record_damage (mkDamage 0 0 (size_columns (screen_size t)) (size_rows (screen_size t))) t.

(** ** Graphics *)

Definition graphics_view t : GraphicsView :=
  mkView (history_len t) (screen_size t) (cursor_row (active t), cursor_column (active t))
    (sixel_display_mode (modes (active t))).

(** The graphics fields of the dormant screen after a call. *)
Definition with_dormant (d : option screen_graphics) (m : option ScreenState) : option ScreenState :=
  match m, d with
  | Some s, Some g => Some (s{{ graphics := g }})
  | _, _ => m
  end.

Definition call_reply (c : GraphicsCall) t : GraphicsReply * Terminal :=
  let '(r, k, g, d) := graphics_call c (graphics_view t) (shared t) (graphics (active t))
                         (graphics <$> main_screen t) in
  (r, foldl (λ t d, record_damage d t)
        (t{{ shared := k; active -> graphics := g; main_screen := with_dormant d (main_screen t) }})
        (reply_damage r)).

Definition call (c : GraphicsCall) t : Terminal := (call_reply c t).2.
Definition call_flag (c : GraphicsCall) t : bool * Terminal :=
  let '(r, t) := call_reply c t in (reply_flag r, t).

(** The same on the dormant main screen, if there is one. *)
Definition call_dormant (c : GraphicsCall) t : Terminal :=
  match main_screen t with
  | None => t
  | Some s =>
      let '(r, k, g, _) := graphics_call c (graphics_view t) (shared t) (graphics s) None in
      foldl (λ t d, record_damage d t)
        (t{{ shared := k; main_screen := Some (s{{ graphics := g }}) }}) (reply_damage r)
  end.

(** ** Counters *)

Definition advance_seqno : TM () :=
  t ← get_state;
  n ← expect (checked_add usize_max (seqno t) 1);
  put_state (t{{ seqno := n }}).

Definition bump_screen_identity_generation : TM () :=
  t ← get_state;
  n ← expect (checked_add usize_max (screen_identity_generation t) 1);
  put_state (t{{ screen_identity_generation := n }}).

(** ** History *)

(** [row.checked_sub(rows)]. *)
Definition rebase_row (rows row : nat) : option nat := if decide (rows ≤ row) then Some (row - rows) else None.

Definition rebase_exit (rows : nat) (e : SemanticCommandExit) : option SemanticCommandExit :=
  (λ row, e{{ exit_row := row }}) <$> rebase_row rows (exit_row e).

Definition rebase_inline_images_after_history_prune (removed_rows : nat) t : Terminal :=
  if decide (removed_rows = 0) then t
  else
    let t := call_dormant RetainEditedPlacements
               (call_dormant (RebaseAfterHistoryPrune removed_rows) t) in
    let t := call RetainEditedPlacements (call (RebaseAfterHistoryPrune removed_rows) t) in
    if alternate_screen_active t then t else call DeleteOrphanRelativeChildren t.

Definition prune_scrollback_rows (rows : nat) : TM () :=
  t ← get_state;
  let '(rows, history) := evict_front rows (scrollback t) in
  let t := t{{ scrollback := history }} in
  if decide (rows = 0) then put_state t
  else
    stable_rows ← expect (if bool_decide (Z.of_nat rows ≤ isize_max)%Z then Some (Z.of_nat rows) else None);
    offset ← expect (checked_add isize_max (main_stable_row_offset t) stable_rows);
    let t := t{{ main_stable_row_offset := offset;
                 semantic_prompt_rows := omap (rebase_row rows) (semantic_prompt_rows t);
                 semantic_command_exits := omap (rebase_exit rows) (semantic_command_exits t) }} in
    let t := rebase_inline_images_after_history_prune rows t in
    put_state (t{{ metadata_rebase_batches := sat_add_u64 (metadata_rebase_batches t) 1 }}).

Definition trim_scrollback_to_limit : TM () :=
  t ← get_state;
  if decide (scrollback_limit t < history_len t)
  then prune_scrollback_rows (history_len t - scrollback_limit t)
  else mret ().

Definition set_scrollback_limit (limit : nat) : TM () :=
  modify (λ t, t{{ scrollback_limit := limit }});; trim_scrollback_to_limit.

Definition should_record_scrollback_for_scroll (top bottom : nat) t : bool :=
  let size := screen_size t in
  bool_decide (main_screen t = None ∧ top = 0 ∧ bottom < size_rows size ∧
    left_margin (active t) = 0 ∧ right_margin (active t) = size_columns size - 1 ∧
    0 < size_columns size).

(** ** Regions of whole rows *)

(** [for row in first..=last { grid.set_row_last_change_seqno(row, seqno) }],
    the range as a list. *)
Definition touch_rows (rows : list nat) t : Terminal :=
  foldl (λ t row,
    t{{ active -> grid := (TerminalGrid.set_row_last_change_seqno row (seqno t) (grid (active t))).2 }})
    t rows.

Definition rows_between (first last : nat) : list nat := seq first (last + 1 - first).

Definition shift_row (suffix_start rows row : nat) : nat :=
  if decide (suffix_start ≤ row) then row + rows else row.

Definition shift_suffix_metadata_for_recorded_rows (suffix_start rows : nat) t : Terminal :=
  if decide (rows = 0) then t
  else
    call (ShiftSuffixMetadata suffix_start rows)
      (t{{ semantic_prompt_rows := shift_row suffix_start rows <$> semantic_prompt_rows t;
           semantic_command_exits :=
             (λ e, e{{ exit_row := shift_row suffix_start rows (exit_row e) }})
               <$> semantic_command_exits t }}).

Definition scroll_up_region_by (top bottom count : nat) : TM () :=
  t ← get_state;
  let size := screen_size t in
  if decide (size_rows size = 0 ∨ size_columns size = 0 ∨ bottom < top ∨ count = 0) then mret ()
  else
    let height := bottom - top + 1 in
    let count := count `min` height in
    let records_scrollback := should_record_scrollback_for_scroll top bottom t in
    let t :=
      if records_scrollback then
        let suffix_start := history_len t + bottom + 1 in
        let t := if decide (bottom + 1 < size_rows size) then call (DropImagesCrossing suffix_start) t
                 else t in
        shift_suffix_metadata_for_recorded_rows suffix_start count t
      else call (ScrollPlaceholdersUp top bottom count) (call (ScrollImagesUp top bottom count) t) in
    let blank := Screen.blank_cell (active t) in
    (if (records_scrollback : bool) then
       let '(exiting_rows, g) := TerminalGrid.scroll_up_rows top bottom count blank (seqno t) (grid (active t)) in
       put_state (t{{ active -> grid := g;
         scrollback := foldl (λ h row, history_push (ScrollbackLine.from_grid_row row) h)
                         (scrollback t) exiting_rows }});;
       trim_scrollback_to_limit
     else
       put_state (t{{ active -> grid :=
         TerminalGrid.scroll_up_rows_discarding top bottom count blank (seqno t) (grid (active t)) }}));;
    modify (touch_rows (if (records_scrollback : bool) then seq (bottom + 1) (size_rows size - (bottom + 1))
                        else rows_between top bottom));;
    modify (record_damage (mkDamage 0 top (size_columns size) height)).

Definition scroll_down_region (top bottom count : nat) t : Terminal :=
  let size := screen_size t in
  if decide (size_rows size = 0 ∨ size_columns size = 0 ∨ bottom < top ∨ count = 0) then t
  else
    let height := bottom - top + 1 in
    let count := count `min` height in
    let t := call (ScrollPlaceholdersDown top bottom count) (call (ScrollImagesDown top bottom count) t) in
    let blank := Screen.blank_cell (active t) in
    let t := t{{ active -> grid :=
                   TerminalGrid.scroll_down_rows top bottom count blank (seqno t) (grid (active t)) }} in
    record_damage (mkDamage 0 top (size_columns size) height) (touch_rows (rows_between top bottom) t).

(** ** Regions between margins *)

(** [grid.set(to_row, column, grid.get(from_row, column).cloned().unwrap_or_default())]
    for the columns of the region. *)
Definition copy_row (first last from_row to_row : nat) (g : TerminalGrid) : TerminalGrid :=
  foldl (λ g column,
    (TerminalGrid.set to_row column (default Cell.default (TerminalGrid.get from_row column g)) g).2)
    g (rows_between first last).

Definition blank_row (first last : nat) (blank : Cell) (row : nat) (g : TerminalGrid) : TerminalGrid :=
  foldl (λ g column, (TerminalGrid.set row column blank g).2) g (rows_between first last).

Definition record_scrolled_survivor_cell_clones (rows columns : nat) t : Terminal :=
  t{{ scrolled_survivor_cell_clones :=
        sat_add_u64 (scrolled_survivor_cell_clones t)
          (Z.min (Z.of_nat rows * Z.of_nat columns) u64_max) }}.

Definition scroll_down_bounded_cells (top bottom count first last : nat) t : Terminal :=
  let height := bottom - top + 1 in
  let t := if decide (count < height) then
             let t := record_scrolled_survivor_cell_clones (height - count) (last - first + 1) t in
             t{{ active -> grid := foldl (λ g row, copy_row first last row (row + count) g)
                   (grid (active t)) (rev (rows_between top (bottom - count))) }}
           else t in
  let blank := Screen.blank_cell (active t) in
  t{{ active -> grid := foldl (λ g row, blank_row first last blank row g) (grid (active t))
        (seq top count) }}.

Definition scroll_up_bounded_cells (top bottom count first last : nat) t : Terminal :=
  let height := bottom - top + 1 in
  let t := if decide (count < height) then
             let t := record_scrolled_survivor_cell_clones (height - count) (last - first + 1) t in
             t{{ active -> grid := foldl (λ g row, copy_row first last (row + count) row g)
                   (grid (active t)) (rows_between top (bottom - count)) }}
           else t in
  let blank_start := if decide (count = height) then top else bottom - count + 1 in
  let blank := Screen.blank_cell (active t) in
  t{{ active -> grid := foldl (λ g row, blank_row first last blank row g) (grid (active t))
        (rows_between blank_start bottom) }}.

(** The two bounded scrolls around their cell moves. *)
Definition bounded_scroll (top bottom first last : nat) (transform : CellTransform)
    (move_cells : Terminal → Terminal) t : Terminal :=
  let height := bottom - top + 1 in
  let '(graphics_retired, t) := call_flag (RetireMalformedGraphics top bottom first last) t in
  let '(attachment_overflow_changed, t) := call_flag (ApplyCellTransform transform) t in
  let t := touch_rows (rows_between top bottom) (move_cells t) in
  let t := record_damage (mkDamage first top (last - first + 1) height) t in
  if graphics_retired || attachment_overflow_changed then damage_screen t else t.

Definition scroll_down_with_horizontal_margins (top bottom count : nat) t : Terminal :=
  let size := screen_size t in
  if decide (size_rows size = 0 ∨ size_columns size = 0 ∨ bottom < top ∨ count = 0) then t
  else
    let count := count `min` (bottom - top + 1) in
    match Screen.bounded_horizontal_scroll_columns (active t) with
    | None => scroll_down_region top bottom count t
    | Some (first, last) =>
        bounded_scroll top bottom first last
          (TScrollDown (history_len t + top) (history_len t + bottom) count first last)
          (scroll_down_bounded_cells top bottom count first last) t
    end.

Definition scroll_up_with_horizontal_margins (top bottom count : nat) : TM () :=
  t ← get_state;
  let size := screen_size t in
  if decide (size_rows size = 0 ∨ size_columns size = 0 ∨ bottom < top ∨ count = 0) then mret ()
  else
    let count := count `min` (bottom - top + 1) in
    match Screen.bounded_horizontal_scroll_columns (active t) with
    | None => scroll_up_region_by top bottom count
    | Some (first, last) =>
        modify (bounded_scroll top bottom first last
          (TScrollUp (history_len t + top) (history_len t + bottom) count first last)
          (scroll_up_bounded_cells top bottom count first last))
    end.

(** ** Line feeds *)

Definition move_to_row (row : nat) (wrapped : bool) t : Terminal :=
  on_active (λ s, Screen.clear_semantic_type_due_to_movement
    (Screen.set_grid_row_wrapped (seqno t) row wrapped (s{{ cursor_row := row }}))) t.

Definition index_down (wrapped : bool) : TM () :=
  modify (λ t, t{{ active -> pending_wrap := false }});;
  t ← get_state;
  let s := active t in
  let rows := Screen.rows s in
  if decide (rows = 0) then mret ()
  else
    let bottom := scroll_bottom s `min` (rows - 1) in
    if decide (cursor_row s = bottom) then
      scroll_up_with_horizontal_margins (scroll_top s) bottom 1;; modify (move_to_row bottom wrapped)
    else modify (move_to_row
           (if decide (cursor_row s + 1 < rows) then cursor_row s + 1 else cursor_row s) wrapped).

Definition index_down_control (wrapped : bool) : TM () :=
  t ← get_state;
  if Screen.cursor_within_horizontal_margins (active t) then index_down wrapped else mret ().

Definition index_down_outside_horizontal_margins (wrapped : bool) t : Terminal :=
  let t := t{{ active -> pending_wrap := false }} in
  let s := active t in
  let rows := Screen.rows s in
  if decide (rows = 0) then t
  else
    let bottom := scroll_bottom s `min` (rows - 1) in
    move_to_row (if decide (cursor_row s ≠ bottom ∧ cursor_row s + 1 < rows)
                 then cursor_row s + 1 else cursor_row s) wrapped t.

Definition newline : TM () := modify (on_active Screen.carriage_return);; index_down false.

Definition line_feed : TM () :=
  t ← get_state;
  if Screen.cursor_within_horizontal_margins (active t) then index_down false
  else modify (index_down_outside_horizontal_margins false).

Definition wrapped_newline : TM () :=
  t ← get_state;
  if left_right_margin_mode (modes (active t))
     && negb (Screen.cursor_within_horizontal_margins (active t))
  then modify (λ t, index_down_outside_horizontal_margins true
                      (t{{ active -> cursor_column := 0; active -> pending_wrap := false }}))
  else modify (on_active Screen.carriage_return);; index_down true.

Definition next_line : TM () :=
  t ← get_state;
  let within := Screen.cursor_within_horizontal_margins (active t) in
  modify (on_active (λ s,
    if left_right_margin_mode (modes s) && negb within
    then s{{ cursor_column := if decide (cursor_column s < left_margin s)
                              then cursor_column s else left_margin s;
             pending_wrap := false }}
    else Screen.carriage_return s));;
  if (within : bool) then index_down false else modify (index_down_outside_horizontal_margins false).

Definition reverse_index t : Terminal :=
  if negb (Screen.cursor_within_horizontal_margins (active t)) then t
  else
    let t := t{{ active -> pending_wrap := false }} in
    let s := active t in
    let rows := Screen.rows s in
    if decide (rows = 0) then t
    else
      let top := scroll_top s `min` (rows - 1) in
      let bottom := scroll_bottom s `min` (rows - 1) in
      let t := if decide (cursor_row s = top)
               then (scroll_down_with_horizontal_margins top bottom 1 t){{ active -> cursor_row := top }}
               else t{{ active -> cursor_row := cursor_row s - 1 }} in
      on_active Screen.clear_semantic_type_due_to_movement t.

(** ** Lines *)

Definition insert_lines (count : nat) t : Terminal :=
  let t := t{{ active -> pending_wrap := false }} in
  if negb (Screen.cursor_within_horizontal_margins (active t)) then t
  else match Screen.active_scroll_range_from_cursor (active t) with
       | None => t
       | Some (top, bottom) => scroll_down_with_horizontal_margins top bottom count t
       end.

Definition delete_lines (count : nat) : TM () :=
  modify (λ t, t{{ active -> pending_wrap := false }});;
  t ← get_state;
  if negb (Screen.cursor_within_horizontal_margins (active t)) then mret ()
  else match Screen.active_scroll_range_from_cursor (active t) with
       | None => mret ()
       | Some (top, bottom) => scroll_up_with_horizontal_margins top bottom count
       end.

Definition scroll_up (count : nat) : TM () :=
  modify (λ t, t{{ active -> pending_wrap := false }});;
  t ← get_state;
  match Screen.active_scroll_range (active t) with
  | None => mret ()
  | Some (top, bottom) => scroll_up_with_horizontal_margins top bottom count
  end.

Definition scroll_down (count : nat) t : Terminal :=
  let t := t{{ active -> pending_wrap := false }} in
  match Screen.active_scroll_range (active t) with
  | None => t
  | Some (top, bottom) => scroll_down_with_horizontal_margins top bottom count t
  end.

End terminal.
