(* ===== verification/Images.v ===== *)
(** Inline images of the terminal ([rssh-terminal/src/parser.rs] and
    [lib.rs]): the placements of one screen with the cells attached to them,
    the images and placements the Kitty protocol names, and the operations
    that keep, move and remove placements.

    The graphics fields of [Terminal] are [SharedImages], those that
    [ScreenState] has too are [ScreenImages]; [ImageState] is what a call of
    the screen code works on, with the damage it records and the cells the
    cursor moves over. Rows ([usize]), columns ([u16]) and identifiers ([u32],
    [u64]) are integers. The identity counter of placements is not bounded:
    the code panics when it reaches 2^64. A [HashSet] that is only searched
    is the list it is collected from. *)
From coqutil Require Import Datatypes.RecordSetters.
From S2P Require Import Prelude Text Grid Csi Parse Utf8 Feed Screen Scroll.
Import DoubleBraceUpdate.

Local Open Scope Z_scope.

(** ** Data *)

Inductive InlineImageFormat := FormatEncoded | FormatRgb | FormatRgba.

(** Image identifier and placement identifier. *)
Definition KittyPlacementKey : Type := Z * Z.
#[export] Instance placement_key_eq_dec : EqDecision KittyPlacementKey := _.
#[export] Instance placement_key_countable : Countable KittyPlacementKey := _.

Record ItermInlineImage := mkImage {
  im_row : Z;
  im_column : Z;
  im_name : option rstring;
  im_kitty_image_id : option Z;
  im_kitty_placement_id : option Z;
  im_kitty_z_index : option Z;
  im_size : option Z;
  im_width : option rstring;
  im_height : option rstring;
  im_preserve_aspect_ratio : option bool;
  im_format : InlineImageFormat;
  im_pixel_width : option Z;
  im_pixel_height : option Z;
  im_source_x : option Z;
  im_source_y : option Z;
  im_source_width : option Z;
  im_source_height : option Z;
  im_target_x : option Z;
  im_target_y : option Z;
  im_data : list Z;
}.

#[export] Hint Extern 0 (@Setter ItermInlineImage _ ?getter) =>
  mk_setter (λ r, mkImage (im_row r) (im_column r) (im_name r) (im_kitty_image_id r)
       (im_kitty_placement_id r) (im_kitty_z_index r) (im_size r) (im_width r) (im_height r)
       (im_preserve_aspect_ratio r) (im_format r) (im_pixel_width r) (im_pixel_height r)
       (im_source_x r) (im_source_y r) (im_source_width r) (im_source_height r) (im_target_x r)
       (im_target_y r) (im_data r)) getter
  : typeclass_instances.

Record CellAttachment := mkAttachment {
  at_parent_identity : Z;
  at_source_row : Z;
  at_source_column : Z;
  at_row : Z;
  at_column : Z;
}.

#[export] Hint Extern 0 (@Setter CellAttachment _ ?getter) =>
  mk_setter (λ r, mkAttachment (at_parent_identity r) (at_source_row r) (at_source_column r)
       (at_row r) (at_column r)) getter
  : typeclass_instances.

#[export] Instance attachment_eq_dec : EqDecision CellAttachment.
Proof. solve_decision. Defined.

Record KittySourceRect := mkSourceRect {
  sr_x : option Z;
  sr_y : option Z;
  sr_width : option Z;
  sr_height : option Z;
}.

Record StoredKittyImage := mkStored {
  sk_image_format : InlineImageFormat;
  sk_pixel_width : option Z;
  sk_pixel_height : option Z;
  sk_display_columns : option Z;
  sk_display_rows : option Z;
  sk_data : list Z;
}.

Record KittyVirtualPlacement := mkVirtual {
  vp_image_id : Z;
  vp_placement_id : option Z;
  vp_z_index : option Z;
  vp_display_columns : option Z;
  vp_display_rows : option Z;
  vp_source_rect : KittySourceRect;
  vp_target_x : option Z;
  vp_target_y : option Z;
}.

Record KittyPlacementOptions := mkOptions {
  po_display_columns : option Z;
  po_display_rows : option Z;
  po_image_id : option Z;
  po_placement_id : option Z;
  po_z_index : option Z;
  po_parent_placement : option KittyPlacementKey;
  po_row : option Z;
  po_column : option Z;
  po_move_cursor : bool;
  po_source_rect : KittySourceRect;
  po_target_x : option Z;
  po_target_y : option Z;
}.

Record LastKittyPlaceholder := mkLastPlaceholder {
  lp_row : Z;
  lp_column : Z;
  lp_foreground : Color;
  lp_underline_color : Color;
  lp_image_id_high_byte : Z;
  lp_placeholder_row : Z;
  lp_placeholder_column : Z;
}.

#[export] Hint Extern 0 (@Setter LastKittyPlaceholder _ ?getter) =>
  mk_setter (λ r, mkLastPlaceholder (lp_row r) (lp_column r) (lp_foreground r)
       (lp_underline_color r) (lp_image_id_high_byte r) (lp_placeholder_row r)
       (lp_placeholder_column r)) getter
  : typeclass_instances.

Record PendingKittyPlaceholder := mkPlaceholder {
  pp_row : Z;
  pp_column : Z;
  pp_foreground : Color;
  pp_underline_color : Color;
  pp_image_id : option Z;
  pp_placement_id : option Z;
  pp_diacritics : list Z;
  pp_rendered_row : option Z;
  pp_rendered_column : option Z;
  pp_rendered_image_id : option Z;
  pp_rendered_placement_id : option Z;
}.

#[export] Hint Extern 0 (@Setter PendingKittyPlaceholder _ ?getter) =>
  mk_setter (λ r, mkPlaceholder (pp_row r) (pp_column r) (pp_foreground r) (pp_underline_color r)
       (pp_image_id r) (pp_placement_id r) (pp_diacritics r) (pp_rendered_row r)
       (pp_rendered_column r) (pp_rendered_image_id r) (pp_rendered_placement_id r)) getter
  : typeclass_instances.

Inductive KittyTransmissionMedium := MediumDirect | MediumFile | MediumTempFile.

Inductive KittyUploadAction := UploadDisplay | UploadStore | UploadQuery.

Record PendingKittyGraphics := mkUpload {
  pg_image_format : InlineImageFormat;
  pg_medium : KittyTransmissionMedium;
  pg_compression : option Z;
  pg_action : KittyUploadAction;
  pg_image_id : option Z;
  pg_image_number : option Z;
  pg_placement_id : option Z;
  pg_z_index : option Z;
  pg_pixel_width : option Z;
  pg_pixel_height : option Z;
  pg_display_columns : option Z;
  pg_display_rows : option Z;
  pg_no_cursor_movement : bool;
  pg_source_x : option Z;
  pg_source_y : option Z;
  pg_source_width : option Z;
  pg_source_height : option Z;
  pg_target_x : option Z;
  pg_target_y : option Z;
  pg_file_offset : option Z;
  pg_file_size : option Z;
  pg_quiet : option Z;
  pg_virtual_placement : bool;
  pg_encoded_data : rstring;
}.

#[export] Hint Extern 0 (@Setter PendingKittyGraphics _ ?getter) =>
  mk_setter (λ r, mkUpload (pg_image_format r) (pg_medium r) (pg_compression r) (pg_action r)
       (pg_image_id r) (pg_image_number r) (pg_placement_id r) (pg_z_index r) (pg_pixel_width r)
       (pg_pixel_height r) (pg_display_columns r) (pg_display_rows r) (pg_no_cursor_movement r)
       (pg_source_x r) (pg_source_y r) (pg_source_width r) (pg_source_height r) (pg_target_x r)
       (pg_target_y r) (pg_file_offset r) (pg_file_size r) (pg_quiet r) (pg_virtual_placement r)
       (pg_encoded_data r)) getter
  : typeclass_instances.

Record SharedImages := mkShared {
  next_inline_image_parent_identity : Z;
  kitty_graphics_responses : list (list Z);
  pending_kitty_graphics : option PendingKittyGraphics;
  kitty_images : gmap Z StoredKittyImage;
  kitty_image_numbers : gmap Z Z;
  kitty_relative_parents : gmap KittyPlacementKey KittyPlacementKey;
  kitty_virtual_placements : gmap KittyPlacementKey KittyVirtualPlacement;
  pending_kitty_placeholder : option PendingKittyPlaceholder;
  next_kitty_image_id : Z;
  enable_kitty_graphics : bool;
}.

#[export] Hint Extern 0 (@Setter SharedImages _ ?getter) =>
  mk_setter (λ r, mkShared (next_inline_image_parent_identity r) (kitty_graphics_responses r)
       (pending_kitty_graphics r) (kitty_images r) (kitty_image_numbers r)
       (kitty_relative_parents r) (kitty_virtual_placements r) (pending_kitty_placeholder r)
       (next_kitty_image_id r) (enable_kitty_graphics r)) getter
  : typeclass_instances.

Record ScreenImages := mkScreenImages {
  inline_images : list ItermInlineImage;
  inline_image_parent_ids : list Z;
  inline_image_attachments : list CellAttachment;
  kitty_character_edited_placements : gset KittyPlacementKey;
  last_kitty_placeholder : option LastKittyPlaceholder;
  kitty_placeholder_cells : gmap (Z * Z) LastKittyPlaceholder;
}.

#[export] Hint Extern 0 (@Setter ScreenImages _ ?getter) =>
  mk_setter (λ r, mkScreenImages (inline_images r) (inline_image_parent_ids r)
       (inline_image_attachments r) (kitty_character_edited_placements r) (last_kitty_placeholder r)
       (kitty_placeholder_cells r)) getter
  : typeclass_instances.

Record ImageState := mkImageState {
  shared_images : SharedImages;
  images : ScreenImages;
  dormant : option ScreenImages;
  marked : list DamageRegion;
  cursor_cells : option (nat * nat);
}.

#[export] Hint Extern 0 (@Setter ImageState _ ?getter) =>
  mk_setter (λ r, mkImageState (shared_images r) (images r) (dormant r) (marked r) (cursor_cells r)) getter
  : typeclass_instances.

Definition no_screen_images : ScreenImages := mkScreenImages [] [] [] ∅ None ∅.

(** ** Sizes in cells *)

Definition DEFAULT_INLINE_IMAGE_CELL_WIDTH_PIXELS : Z := 8.
Definition DEFAULT_INLINE_IMAGE_CELL_HEIGHT_PIXELS : Z := 16.

Definition positive (x : option Z) : option Z := n ← x; if 0 <? n then Some n else None.
Definition parse_positive_u32 (s : rstring) : option Z := positive (parse_u32 s).
Definition parse_positive_u16 (s : rstring) : option Z := positive (parse_u16 s).

(** [saturating_add] on [u32] and [u16]. *)
Definition sat_add_u32 (x y : Z) : Z := Z.min (x + y) u32_max.
Definition sat_add_u16 (x y : Z) : Z := Z.min (x + y) u16_max.
Definition sat_add_usize (x y : Z) : Z := Z.min (x + y) usize_max.
Definition sat_sub (x y : Z) : Z := Z.max (x - y) 0.

(** [checked_sub] of an unsigned type. *)
Definition checked_sub (x y : Z) : option Z := if y <=? x then Some (x - y) else None.

Definition inline_image_axis_cells (value : option rstring) (cell_pixels : Z) : Z :=
  match value with
  | None => 1
  | Some value =>
      match strip_suffix (lit "px") value ≫= parse_positive_u32 with
      | Some pixels =>
          let cell_pixels := Z.max cell_pixels 1 in
          let cells := sat_add_u32 pixels (cell_pixels - 1) / cell_pixels in
          Z.max (Z.min cells u16_max) 1
      | None => default 1 (parse_positive_u16 value)
      end
  end.

Definition inline_image_width_cells (value : option rstring) : Z :=
  inline_image_axis_cells value DEFAULT_INLINE_IMAGE_CELL_WIDTH_PIXELS.
Definition inline_image_height_cells (value : option rstring) : Z :=
  inline_image_axis_cells value DEFAULT_INLINE_IMAGE_CELL_HEIGHT_PIXELS.

Definition kitty_image_column_range (image : ItermInlineImage) : Z * Z :=
  let width := Z.max (inline_image_width_cells (im_width image)) 1 in
  (im_column image, Z.max (sat_add_u16 (im_column image) width) (sat_add_u16 (im_column image) 1)).

Definition kitty_image_row_range (image : ItermInlineImage) : Z * Z :=
  let height := Z.max (inline_image_height_cells (im_height image)) 1 in
  (im_row image, Z.max (sat_add_usize (im_row image) height) (sat_add_usize (im_row image) 1)).

Definition kitty_image_intersects_cell (row column : Z) (image : ItermInlineImage) : bool :=
  if bool_decide (im_kitty_image_id image = None) then false
  else
    let '(first, last) := kitty_image_column_range image in
    let '(top, bottom) := kitty_image_row_range image in
    (top <=? row) && (row <? bottom) && (first <=? column) && (column <? last).

Definition kitty_image_intersects_column (first_row last_row column : Z) (image : ItermInlineImage) :
    bool :=
  if bool_decide (im_kitty_image_id image = None) then false
  else
    let '(first, last) := kitty_image_column_range image in
    let '(top, bottom) := kitty_image_row_range image in
    (first <=? column) && (column <? last) && (top <? last_row) && (first_row <? bottom).

Definition kitty_image_intersects_row (row : Z) (image : ItermInlineImage) : bool :=
  if bool_decide (im_kitty_image_id image = None) then false
  else
    let '(top, bottom) := kitty_image_row_range image in (top <=? row) && (row <? bottom).

Definition inline_image_intersects_region (first_row last_row first_column last_column : Z)
    (image : ItermInlineImage) : bool :=
  let '(first, last) := kitty_image_column_range image in
  let '(top, bottom) := kitty_image_row_range image in
  (top <? last_row) && (first_row <? bottom) && (first <? last_column) && (first_column <? last).

(** [value.ends_with("px")] of a present value. *)
Definition in_pixels (value : option rstring) : bool :=
  bool_decide (is_Some (value ≫= strip_suffix (lit "px"))).

Definition cell_attachment_dimensions (image : ItermInlineImage) : option (Z * Z) :=
  if in_pixels (im_width image) || in_pixels (im_height image) then None
  else
    let columns := default 1 (im_width image ≫= parse_positive_u16) in
    let rows := default 1 (im_height image ≫= parse_positive_u16) in
    let attachment_count := columns * rows in
    if (0 <? attachment_count) && (attachment_count <=? 1000000) then Some (columns, rows) else None.

(** The cells of a placement with a size in cells; none when one of them is
    out of range. *)
Definition cell_attachments_for_image (parent_identity : Z) (image : ItermInlineImage) :
    list CellAttachment :=
  match cell_attachment_dimensions image with
  | None => []
  | Some (columns, rows) =>
      default [] (mjoin <$> mapM (λ source_row,
        row ← checked_add usize_max (im_row image) source_row;
        mapM (λ source_column,
          column ← checked_add u16_max (im_column image) source_column;
          Some (mkAttachment parent_identity source_row source_column row column))
          (seqZ 0 columns)) (seqZ 0 rows))
  end.

(** ** Keys *)

Definition kitty_placement_key (image_id placement_id : option Z) : option KittyPlacementKey :=
  i ← image_id; p ← placement_id; Some (i, p).

Definition kitty_virtual_placement_key (image_id : Z) (placement_id : option Z) : KittyPlacementKey :=
  (image_id, default 0 placement_id).

Definition kitty_image_placement_key (image : ItermInlineImage) : option KittyPlacementKey :=
  kitty_placement_key (im_kitty_image_id image) (im_kitty_placement_id image).

(** ** The placements of a screen *)

Definition attached_to (ids : list Z) (a : CellAttachment) : bool :=
  bool_decide (at_parent_identity a ∈ ids).

(** The placement identity of each virtual placement that is shown; a later
    placement replaces an earlier one. *)
Definition virtual_parent_ids (virtuals : gmap KittyPlacementKey KittyVirtualPlacement)
    (s : ScreenImages) : gmap KittyPlacementKey Z :=
  foldl (λ m p,
    match kitty_image_placement_key p.1 with
    | Some key => if bool_decide (is_Some (virtuals !! key)) then <[key := p.2]> m else m
    | None => m
    end) ∅ (zip (inline_images s) (inline_image_parent_ids s)).

Definition attached_placement (parents : gmap KittyPlacementKey Z) (live : list Z)
    (key : KittyPlacementKey) : bool :=
  match parents !! key with Some identity => bool_decide (identity ∈ live) | None => false end.

Definition retain_kitty_character_edited_placements
    (virtuals : gmap KittyPlacementKey KittyVirtualPlacement) (s : ScreenImages) : ScreenImages :=
  let parents := virtual_parent_ids virtuals s in
  let live := at_parent_identity <$> inline_image_attachments s in
  s{{ kitty_character_edited_placements :=
        filter (λ key, attached_placement parents live key) (kitty_character_edited_placements s) }}.

Definition retain_edited (g : ImageState) : ImageState :=
  g{{ images := retain_kitty_character_edited_placements (kitty_virtual_placements (shared_images g))
                  (images g) }}.

Definition clear_inline_images (s : ScreenImages) : ScreenImages :=
  s{{ inline_images := []; inline_image_parent_ids := []; inline_image_attachments := [];
      kitty_character_edited_placements := ∅ }}.

(** Placements without an identity get new ones, surplus identities go. *)
Definition ensure_inline_image_parent_ids (g : ImageState) : ImageState :=
  let ids := inline_image_parent_ids (images g) in
  let count := length (inline_images (images g)) in
  let next := next_inline_image_parent_identity (shared_images g) in
  let missing := Z.of_nat (count - length ids) in
  g{{ shared_images -> next_inline_image_parent_identity := next + missing;
      images -> inline_image_parent_ids := take count (ids ++ seqZ next missing) }}.

Definition push_inline_image (image : ItermInlineImage) (g : ImageState) : ImageState :=
  let identity := next_inline_image_parent_identity (shared_images g) in
  let s := images g in
  g{{ shared_images -> next_inline_image_parent_identity := identity + 1;
      images -> inline_image_attachments :=
        inline_image_attachments s ++ cell_attachments_for_image identity image;
      images -> inline_images := inline_images s ++ [image];
      images -> inline_image_parent_ids := inline_image_parent_ids s ++ [identity] }}.

(** Keep the placements that satisfy the test, their identities and their
    cells. *)
Definition retain_inline_images (keep : ItermInlineImage → bool) (g : ImageState) : ImageState :=
  let g := ensure_inline_image_parent_ids g in
  let s := images g in
  let retained := filter (λ p, keep p.1) (zip (inline_images s) (inline_image_parent_ids s)) in
  let ids := retained.*2 in
  retain_edited (g{{ images -> inline_image_attachments :=
                       filter (λ a, attached_to ids a) (inline_image_attachments s);
                     images -> inline_images := retained.*1;
                     images -> inline_image_parent_ids := ids }}).

Definition record_damage_region (region : DamageRegion) (g : ImageState) : ImageState :=
  g{{ marked := marked g ++ [region] }}.

Definition damage_view (v : GraphicsView) : DamageRegion :=
  mkDamage 0 0 (size_columns (view_size v)) (size_rows (view_size v)).
