(* ===== verification/Placements.v ===== *)
(** Placements of images ([rssh-terminal/src/parser.rs]): showing an image,
    placements relative to others, deletion with its dependants, and how
    scrolling, character edits and the loss of history rows move placements,
    their cells and the cells of Unicode placeholders. *)
From coqutil Require Import Datatypes.RecordSetters.
From S2P Require Import Prelude Text Grid Csi Parse Utf8 Feed Screen Scroll Images.
Import DoubleBraceUpdate.

Local Open Scope Z_scope.

(** ** Deletion *)

Definition image_in_use (image_id : Z) (g : ImageState) : bool :=
  existsb (λ image, bool_decide (im_kitty_image_id image = Some image_id)) (inline_images (images g))
  || existsb (λ p, bool_decide (vp_image_id p.2 = image_id))
       (map_to_list (kitty_virtual_placements (shared_images g))).

Definition remove_unreferenced_kitty_images (image_ids : list Z) (g : ImageState) : ImageState :=
  foldl (λ g image_id,
    if image_in_use image_id g then g
    else g{{ shared_images -> kitty_images := delete image_id (kitty_images (shared_images g));
             shared_images -> kitty_image_numbers :=
               filter (λ p, p.2 ≠ image_id) (kitty_image_numbers (shared_images g)) }}) g image_ids.

(** A placement relative to one of [keys]. *)
Definition relative_to (parents : gmap KittyPlacementKey KittyPlacementKey)
    (keys : gset KittyPlacementKey) (image : ItermInlineImage) : bool :=
  match kitty_image_placement_key image ≫= λ key, parents !! key with
  | Some parent => bool_decide (parent ∈ keys)
  | None => false
  end.

Definition image_ids_of (l : list ItermInlineImage) : list Z := omap im_kitty_image_id l.

Definition keys_of (l : list ItermInlineImage) : gset KittyPlacementKey :=
  list_to_set (omap kitty_image_placement_key l).

(** The passes of [delete_relative_kitty_children]; each but the last removes
    a placement. *)
Fixpoint relative_children_loop (fuel : nat) (removed relative : list Z)
    (keys : gset KittyPlacementKey) (g : ImageState) : list Z * list Z * ImageState :=
  match fuel with
  | O => (removed, relative, g)
  | S fuel =>
      let child := relative_to (kitty_relative_parents (shared_images g)) keys in
      let gone := filter (λ image, child image) (inline_images (images g)) in
      let g := retain_inline_images (λ image, negb (child image)) g in
      if bool_decide (gone = []) then (removed, relative, g)
      else relative_children_loop fuel (removed ++ image_ids_of gone) (relative ++ image_ids_of gone)
             (keys ∪ keys_of gone) g
  end.

Definition delete_relative_kitty_children (removed : list Z) (keys : gset KittyPlacementKey)
    (g : ImageState) : list Z * list Z * ImageState :=
  relative_children_loop (S (length (inline_images (images g)))) removed [] keys g.

(** The keys of relative placements of which the parent or the placement
    itself is not shown. *)
Definition orphan_keys (g : ImageState) : gset KittyPlacementKey :=
  let live := keys_of (inline_images (images g)) in
  dom (filter (λ p, ¬ (p.2 ∈ live ∧ p.1 ∈ live)) (kitty_relative_parents (shared_images g))).

Definition is_orphan (orphans : gset KittyPlacementKey) (image : ItermInlineImage) : bool :=
  match kitty_image_placement_key image with Some key => bool_decide (key ∈ orphans) | None => false end.

(** The passes of [remove_orphan_kitty_relative_children]; each but the last
    removes a relation. The last pass keeps the relations between live
    placements, which are all of them when there is no orphan. *)
Fixpoint orphan_loop (fuel : nat) (remove_stored : bool) (g : ImageState) : ImageState :=
  match fuel with
  | O => g
  | S fuel =>
      let orphans := orphan_keys g in
      if bool_decide (orphans = ∅) then g
      else
        let gone := filter (λ image, is_orphan orphans image) (inline_images (images g)) in
        let g := g{{ shared_images -> kitty_relative_parents :=
                       filter (λ p, p.1 ∉ orphans) (kitty_relative_parents (shared_images g)) }} in
        let g := retain_inline_images (λ image, negb (is_orphan orphans image)) g in
        let g := if remove_stored then remove_unreferenced_kitty_images (image_ids_of gone) g else g in
        orphan_loop fuel remove_stored g
  end.

Definition remove_orphan_kitty_relative_children (remove_stored : bool) (g : ImageState) : ImageState :=
  orphan_loop (S (size (kitty_relative_parents (shared_images g)))) remove_stored g.

Definition delete_orphan_kitty_relative_children : ImageState → ImageState :=
  remove_orphan_kitty_relative_children true.
Definition retire_orphan_kitty_relative_children : ImageState → ImageState :=
  remove_orphan_kitty_relative_children false.

Definition delete_kitty_placements (v : GraphicsView) (remove_unreferenced_data : bool)
    (matches : ItermInlineImage → bool) (g : ImageState) : ImageState :=
  let before := length (inline_images (images g)) in
  let gone := filter (λ image, matches image) (inline_images (images g)) in
  let g := retain_inline_images (λ image, negb (matches image)) g in
  let '(removed, relative, g) := delete_relative_kitty_children (image_ids_of gone) (keys_of gone) g in
  let g :=
    if bool_decide (length (inline_images (images g)) = before) then g
    else
      let g := if remove_unreferenced_data then remove_unreferenced_kitty_images removed g else g in
      record_damage_region (damage_view v) (remove_unreferenced_kitty_images relative g) in
  delete_orphan_kitty_relative_children g.

(** ** Showing an image *)

(** [Option::or]. *)
Definition or_else {A} (x y : option A) : option A := match x with Some _ => x | None => y end.

Definition visible_history_rows (v : GraphicsView) : Z * Z :=
  (Z.of_nat (view_scrollback v), Z.of_nat (view_scrollback v) + Z.of_nat (size_rows (view_size v))).

Definition view_history_row (v : GraphicsView) : Z :=
  Z.of_nat (view_scrollback v) + Z.of_nat (view_cursor v).1.
Definition view_column (v : GraphicsView) : Z := Z.of_nat (view_cursor v).2.

Definition record_inline_image_damage_at (v : GraphicsView) (row column : Z)
    (width height : option rstring) (g : ImageState) : ImageState :=
  let columns := Z.of_nat (size_columns (view_size v)) in
  let rows := Z.of_nat (size_rows (view_size v)) in
  match checked_sub row (Z.of_nat (view_scrollback v)) with
  | Some visible_row =>
      if (u16_max <? visible_row) || (rows <=? visible_row) || (columns <=? column) then g
      else
        let width := Z.max (Z.min (inline_image_width_cells width) (columns - column)) 1 in
        let height := Z.max (Z.min (inline_image_height_cells height) (rows - visible_row)) 1 in
        record_damage_region (mkDamage (Z.to_nat column) (Z.to_nat visible_row) (Z.to_nat width)
                                (Z.to_nat height)) g
  | None => g
  end.

Definition kitty_source_aspect_pixels (image : StoredKittyImage) (source_rect : KittySourceRect) :
    option (Z * Z) :=
  pixel_width ← sk_pixel_width image;
  pixel_height ← sk_pixel_height image;
  let source_x := default 0 (sr_x source_rect) in
  let source_y := default 0 (sr_y source_rect) in
  if (pixel_width <=? source_x) || (pixel_height <=? source_y) then None
  else
    let width := Z.min (default (pixel_width - source_x) (sr_width source_rect)) (pixel_width - source_x) in
    let height := Z.min (default (pixel_height - source_y) (sr_height source_rect)) (pixel_height - source_y) in
    if (0 <? width) && (0 <? height) then Some (width, height) else None.

(** Products and sums saturate at [u64::MAX] in the source, which [u16] and
    [u32] factors never reach. *)
Definition derive_kitty_display_axis (known_cells numerator_pixels denominator_pixels : Z) : option Z :=
  if denominator_pixels =? 0 then None
  else
    let derived := (known_cells * numerator_pixels + (denominator_pixels - 1)) / denominator_pixels in
    Some (Z.min (Z.max derived 1) u16_max).

Definition kitty_display_dimensions (image : StoredKittyImage) (options : KittyPlacementOptions) :
    option rstring * option rstring :=
  let columns := or_else (po_display_columns options) (sk_display_columns image) in
  let rows := or_else (po_display_rows options) (sk_display_rows image) in
  let aspect := kitty_source_aspect_pixels image (po_source_rect options) in
  let derived_rows :=
    match columns, rows, aspect with
    | Some columns, None, Some (w, h) => derive_kitty_display_axis columns h w
    | _, _, _ => None
    end in
  let derived_columns :=
    match columns, rows, aspect with
    | None, Some rows, Some (w, h) => derive_kitty_display_axis rows w h
    | _, _, _ => None
    end in
  let axis (cells derived pixels : option Z) : option rstring :=
    match cells, derived, pixels with
    | Some n, _, _ => Some (show_unsigned n)
    | None, Some n, _ => Some (show_unsigned n)
    | None, None, Some n => Some (show_unsigned n ++ lit "px")
    | None, None, None => None
    end in
  (axis columns derived_columns (sk_pixel_width image), axis rows derived_rows (sk_pixel_height image)).

Definition move_kitty_history_row (row old_origin new_origin : Z) : Z :=
  if old_origin <=? new_origin then sat_add_usize row (new_origin - old_origin)
  else sat_sub row (old_origin - new_origin).

Definition move_kitty_column (column old_origin new_origin : Z) : Z :=
  if old_origin <=? new_origin then sat_add_u16 column (new_origin - old_origin)
  else sat_sub column (old_origin - new_origin).

(** The children of a placement; the order of a [HashMap] is not specified,
    and the moves below do not depend on it. *)
Definition children_of (parent : KittyPlacementKey) (g : ImageState) : list KittyPlacementKey :=
  (map_to_list (filter (λ p, p.2 = parent) (kitty_relative_parents (shared_images g)))).*1.

Definition has_key (key : KittyPlacementKey) (image : ItermInlineImage) : Prop :=
  im_kitty_image_id image = Some key.1 ∧ im_kitty_placement_id image = Some key.2.
#[export] Instance has_key_dec key image : Decision (has_key key image) := _.

(** Move the placement with a key, and its cells. *)
Definition move_placement (old_row old_column new_row new_column : Z) (key : KittyPlacementKey)
    (g : ImageState) : ImageState :=
  let s := images g in
  match list_find (has_key key) (inline_images s) with
  | None => g
  | Some (index, image) =>
      let identity := default 0 (inline_image_parent_ids s !! index) in
      g{{ images -> inline_images :=
            <[index := image{{ im_row := move_kitty_history_row (im_row image) old_row new_row;
                               im_column := move_kitty_column (im_column image) old_column new_column }}]>
              (inline_images s);
          images -> inline_image_attachments :=
            (λ a, if at_parent_identity a =? identity
                  then a{{ at_row := move_kitty_history_row (at_row a) old_row new_row;
                           at_column := move_kitty_column (at_column a) old_column new_column }}
                  else a) <$> inline_image_attachments s }}
  end.

(** The stack loop of [move_relative_kitty_descendants]: every relation puts
    its child on the stack at most once. *)
Fixpoint descendants_loop (fuel : nat) (old_row old_column new_row new_column : Z)
    (stack : list KittyPlacementKey) (seen : gset KittyPlacementKey) (g : ImageState) : ImageState :=
  match fuel, stack with
  | S fuel, parent :: stack =>
      if bool_decide (parent ∈ seen)
      then descendants_loop fuel old_row old_column new_row new_column stack seen g
      else
        let children := children_of parent g in
        let g := foldl (λ g key, move_placement old_row old_column new_row new_column key g) g children in
        descendants_loop fuel old_row old_column new_row new_column (rev children ++ stack)
          ({[parent]} ∪ seen) g
  | _, _ => g
  end.

Definition move_relative_kitty_descendants (parent : KittyPlacementKey)
    (old_row old_column new_row new_column : Z) (g : ImageState) : ImageState :=
  if (old_row =? new_row) && (old_column =? new_column) then g
  else
    let g := ensure_inline_image_parent_ids g in
    descendants_loop (S (size (kitty_relative_parents (shared_images g)))) old_row old_column new_row
      new_column [parent] ∅ g.

(** The placement a stored image gets. *)
Definition placed_image (image : StoredKittyImage) (options : KittyPlacementOptions) (row column : Z) :
    ItermInlineImage :=
  let '(width, height) := kitty_display_dimensions image options in
  let source := po_source_rect options in
  mkImage row column None (po_image_id options) (po_placement_id options) (po_z_index options)
    (Some (Z.of_nat (length (sk_data image)))) width height None (sk_image_format image)
    (sk_pixel_width image) (sk_pixel_height image) (sr_x source) (sr_y source) (sr_width source)
    (sr_height source) (po_target_x options) (po_target_y options) (sk_data image).

(** The placement with the key of the new one goes first. *)
Definition replace_placement (v : GraphicsView) (key : KittyPlacementKey) (g : ImageState) : ImageState :=
  let before := length (inline_images (images g)) in
  let g := retain_inline_images (λ image, negb (bool_decide (has_key key image))) g in
  let g := if bool_decide (length (inline_images (images g)) = before) then g
           else record_damage_region (damage_view v) g in
  g{{ shared_images -> kitty_relative_parents := delete key (kitty_relative_parents (shared_images g)) }}.

Definition place_kitty_image (v : GraphicsView) (image : StoredKittyImage)
    (options : KittyPlacementOptions) (g : ImageState) : ImageState :=
  let '(width, height) := kitty_display_dimensions image options in
  let row := default (view_history_row v) (po_row options) in
  let column := default (view_column v) (po_column options) in
  let key := kitty_placement_key (po_image_id options) (po_placement_id options) in
  let previous_origin :=
    key ← key;
    p ← list_find (λ image, kitty_image_placement_key image = Some key) (inline_images (images g));
    Some (im_row p.2, im_column p.2) in
  let g := match key with Some key => replace_placement v key g | None => g end in
  let g := record_inline_image_damage_at v row column width height g in
  let g := push_inline_image (placed_image image options row column) g in
  let g :=
    match key with
    | Some key =>
        let g := match po_parent_placement options with
                 | Some parent =>
                     g{{ shared_images -> kitty_relative_parents :=
                           <[key := parent]> (kitty_relative_parents (shared_images g)) }}
                 | None => g
                 end in
        match previous_origin with
        | Some (old_row, old_column) => move_relative_kitty_descendants key old_row old_column row column g
        | None => g
        end
    | None => g
    end in
  if po_move_cursor options
  then g{{ cursor_cells := Some (Z.to_nat (Z.max (inline_image_width_cells width) 1),
                                 Z.to_nat (Z.max (inline_image_height_cells height) 1)) }}
  else g.

(** ** Rows that move *)

Definition rebase_placeholder (f : Z → option Z) (p : LastKittyPlaceholder) :
    option LastKittyPlaceholder :=
  (λ row, p{{ lp_row := row }}) <$> f (lp_row p).

(** [drain().filter_map(..).collect()] on the placeholder cells: every
    coordinate moves by [f], the cells it drops go. *)
Definition move_placeholder_cells (f : Z → Z → option (Z * Z))
    (set : Z → Z → LastKittyPlaceholder → LastKittyPlaceholder)
    (cells : gmap (Z * Z) LastKittyPlaceholder) : gmap (Z * Z) LastKittyPlaceholder :=
  list_to_map (omap (λ p, (λ q, (q, set q.1 q.2 p.2)) <$> f p.1.1 p.1.2) (map_to_list cells)).

Definition set_placeholder_row (row _ : Z) (p : LastKittyPlaceholder) : LastKittyPlaceholder :=
  p{{ lp_row := row }}.
Definition set_placeholder_cell (row column : Z) (p : LastKittyPlaceholder) : LastKittyPlaceholder :=
  p{{ lp_row := row; lp_column := column }}.

(** [rebase_image_and_placeholder_metadata]; placements without an identity
    get one from the top of the range. *)
Definition rebase_image_and_placeholder_metadata (removed_rows : Z) (s : ScreenImages) : ScreenImages :=
  let ids := inline_image_parent_ids s in
  let count := length (inline_images s) in
  let ids := ids ++ ((λ index, sat_sub u64_max (Z.of_nat index)) <$> seq (length ids) (count - length ids)) in
  let rebased := omap (λ p, (λ row, (p.1{{ im_row := row }}, p.2)) <$> checked_sub (im_row p.1) removed_rows)
                   (zip (inline_images s) ids) in
  let live := rebased.*2 in
  s{{ inline_images := rebased.*1;
      inline_image_parent_ids := live;
      inline_image_attachments :=
        omap (λ a, row ← checked_sub (at_row a) removed_rows;
                   if attached_to live a then Some (a{{ at_row := row }}) else None)
          (inline_image_attachments s);
      kitty_placeholder_cells :=
        move_placeholder_cells (λ row column, (λ r, (r, column)) <$> checked_sub row removed_rows)
          set_placeholder_row (kitty_placeholder_cells s);
      last_kitty_placeholder :=
        last_kitty_placeholder s ≫= rebase_placeholder (λ row, checked_sub row removed_rows) }}.

(** [shift_image_and_placeholder_suffix_metadata]: the rows recorded are
    counted by the memory that holds them and do not overflow. *)
Definition shift_image_and_placeholder_suffix_metadata (suffix_start rows : Z) (s : ScreenImages) :
    ScreenImages :=
  let shift (row : Z) := if suffix_start <=? row then row + rows else row in
  s{{ inline_images := (λ image, image{{ im_row := shift (im_row image) }}) <$> inline_images s;
      inline_image_attachments := (λ a, a{{ at_row := shift (at_row a) }}) <$> inline_image_attachments s;
      kitty_placeholder_cells :=
        move_placeholder_cells (λ row column, Some (shift row, column)) set_placeholder_row
          (kitty_placeholder_cells s);
      last_kitty_placeholder := (λ p, p{{ lp_row := shift (lp_row p) }}) <$> last_kitty_placeholder s }}.

(** The region of whole rows a scroll works on, in history rows. *)
Definition region_rows (v : GraphicsView) (top bottom : nat) : Z * Z :=
  (Z.of_nat (view_scrollback v) + Z.of_nat top, Z.of_nat (view_scrollback v) + Z.of_nat bottom + 1).

(** One placement of a scrolled region: kept, moved or dropped. *)
Inductive ScrollFate := StaysPut | MovesTo (row : Z) | Dropped.

Definition scroll_fate (first_row last_row : Z) (move : Z → option Z) (image : ItermInlineImage) :
    ScrollFate :=
  let '(image_top, image_bottom) := kitty_image_row_range image in
  if (image_bottom <=? first_row) || (last_row <=? image_top) then StaysPut
  else if (image_top <? first_row) || (last_row <? image_bottom) then Dropped
  else match move (im_row image) with
       | None => Dropped
       | Some new_row =>
           let image_height := sat_sub image_bottom image_top in
           if (new_row <? first_row) || (last_row <? sat_add_usize new_row image_height) then Dropped
           else MovesTo new_row
       end.

(** The shared body of [scroll_inline_images_down_region] and
    [scroll_inline_images_up_region]. *)
Definition scroll_inline_images (v : GraphicsView) (top bottom count : nat) (move : Z → option Z)
    (g : ImageState) : ImageState :=
  if bool_decide (count = 0%nat ∨ (bottom < top)%nat) then g
  else
    let '(first_row, last_row) := region_rows v top bottom in
    let g := ensure_inline_image_parent_ids g in
    let s := images g in
    let fates := (λ p, (scroll_fate first_row last_row move p.1, p))
                   <$> zip (inline_images s) (inline_image_parent_ids s) in
    let kept := omap (λ q, match q.1 with
                           | StaysPut => Some q.2
                           | MovesTo row => Some (q.2.1{{ im_row := row }}, q.2.2)
                           | Dropped => None
                           end) fates in
    let moved := omap (λ q, match q.1 with MovesTo _ => Some q.2.2 | _ => None end) fates in
    let live := kept.*2 in
    let scroll_attachment (a : CellAttachment) : option CellAttachment :=
      if attached_to live a then
        if attached_to moved a then (λ row, a{{ at_row := row }}) <$> move (at_row a) else Some a
      else None in
    delete_orphan_kitty_relative_children
      (g{{ images -> inline_images := kept.*1;
           images -> inline_image_parent_ids := live;
           images -> inline_image_attachments := omap scroll_attachment (inline_image_attachments s) }}).

Definition scroll_inline_images_down_region (v : GraphicsView) (top bottom count : nat) :
    ImageState → ImageState :=
  scroll_inline_images v top bottom count (λ row, checked_add usize_max row (Z.of_nat count)).

Definition scroll_inline_images_up_region (v : GraphicsView) (top bottom count : nat) :
    ImageState → ImageState :=
  scroll_inline_images v top bottom count (λ row, checked_sub row (Z.of_nat count)).

Definition scroll_kitty_placeholder_cells_down_region (v : GraphicsView) (top bottom count : nat)
    (s : ScreenImages) : ScreenImages :=
  if bool_decide (count = 0%nat ∨ (bottom < top)%nat) then s
  else
    let '(first_row, last_row) := region_rows v top bottom in
    s{{ kitty_placeholder_cells := list_to_map (omap (λ p,
          let '((row, column), placeholder) := p in
          if (row <? first_row) || (last_row <=? row) then Some ((row, column), placeholder)
          else
            new_row ← checked_add usize_max row (Z.of_nat count);
            if last_row <=? new_row then None
            else Some ((new_row, column), placeholder{{ lp_row := new_row }}))
          (map_to_list (kitty_placeholder_cells s)));
        last_kitty_placeholder := None }}.

Definition scroll_kitty_placeholder_cells_up_region (v : GraphicsView) (top bottom count : nat)
    (s : ScreenImages) : ScreenImages :=
  if bool_decide (count = 0%nat ∨ (bottom < top)%nat) then s
  else
    let '(first_row, last_row) := region_rows v top bottom in
    s{{ kitty_placeholder_cells := list_to_map (omap (λ p,
          let '((row, column), placeholder) := p in
          if (row <? first_row) || (last_row <=? row) then Some ((row, column), placeholder)
          else
            new_row ← checked_sub row (Z.of_nat count);
            if new_row <? first_row then None
            else Some ((new_row, column), placeholder{{ lp_row := new_row }}))
          (map_to_list (kitty_placeholder_cells s)));
        last_kitty_placeholder := None }}.

Definition drop_inline_images_crossing_history_boundary (boundary : Z) (g : ImageState) : ImageState :=
  delete_orphan_kitty_relative_children
    (retain_inline_images (λ image,
       let '(top, bottom) := kitty_image_row_range image in negb ((top <? boundary) && (boundary <? bottom))) g).

Definition delete_visible_inline_images (v : GraphicsView) (g : ImageState) : ImageState :=
  let '(first_row, last_row) := visible_history_rows v in
  delete_orphan_kitty_relative_children
    (retain_inline_images (λ image,
       negb (inline_image_intersects_region first_row last_row 0 (Z.of_nat (size_columns (view_size v))) image)) g).

(** ** Bounded scrolls and character edits *)

Definition is_character_edit (t : CellTransform) : bool :=
  match t with TInsertCharacters _ _ _ _ | TDeleteCharacters _ _ _ _ => true | _ => false end.

(** [CellTransform::apply_coordinate]: where a cell goes, [None] when it is
    overwritten. *)
Definition apply_coordinate (t : CellTransform) (row column : Z) : option (Z * Z) :=
  let '(top, bottom, first, last) :=
    match t with
    | TScrollUp top bottom _ l r | TScrollDown top bottom _ l r => (top, bottom, l, r)
    | TInsertCharacters row column _ r | TDeleteCharacters row column _ r => (row, row, column, r)
    end in
  if (row <? Z.of_nat top) || (Z.of_nat bottom <? row) || (column <? Z.of_nat first) || (Z.of_nat last <? column)
  then Some (row, column)
  else
    match t with
    | TScrollUp top _ count _ _ =>
        row ← checked_sub row (Z.of_nat count);
        if Z.of_nat top <=? row then Some (row, column) else None
    | TScrollDown _ bottom count _ _ =>
        bottom ← checked_add usize_max (Z.of_nat bottom) 1;
        blank_start ← checked_sub bottom (Z.of_nat count);
        if blank_start <=? row then None
        else row ← checked_add usize_max row (Z.of_nat count); Some (row, column)
    | TInsertCharacters _ _ count r =>
        last ← checked_add u16_max (Z.of_nat r) 1;
        shift_end ← checked_sub last (Z.of_nat count);
        if shift_end <=? column then None
        else column ← checked_add u16_max column (Z.of_nat count); Some (row, column)
    | TDeleteCharacters _ start_column count _ =>
        first_source ← checked_add u16_max (Z.of_nat start_column) (Z.of_nat count);
        if column <? first_source then None
        else column ← checked_sub column (Z.of_nat count); Some (row, column)
    end.

Definition apply_to_attachment (t : CellTransform) (a : CellAttachment) : option CellAttachment :=
  (λ p, a{{ at_row := p.1; at_column := p.2 }}) <$> apply_coordinate t (at_row a) (at_column a).

(** The least (row, column) among the attachments of each placement. *)
Definition attachment_origins (l : list CellAttachment) : gmap Z (Z * Z) :=
  foldl (λ m a,
    let cell := (at_row a, at_column a) in
    <[at_parent_identity a :=
        match m !! at_parent_identity a with
        | Some origin => if (origin.1 <? cell.1) || ((origin.1 =? cell.1) && (origin.2 <=? cell.2))
                         then origin else cell
        | None => cell
        end]> m) ∅ l.

Definition synchronize_kitty_image_origins_with_attachments (s : ScreenImages) : ScreenImages :=
  let origins := attachment_origins (inline_image_attachments s) in
  let ids := inline_image_parent_ids s in
  s{{ inline_images := imap (λ index image,
        match im_kitty_image_id image, ids !! index ≫= λ identity, origins !! identity with
        | Some _, Some (row, column) => image{{ im_row := row; im_column := column }}
        | _, _ => image
        end) (inline_images s) }}.

Definition has_target_offset (image : ItermInlineImage) : bool :=
  negb (default 0 (im_target_x image) =? 0) || negb (default 0 (im_target_y image) =? 0).

(** The virtual placements by placement identity. *)
Definition virtual_keys_by_parent (g : ImageState) : gmap Z KittyPlacementKey :=
  foldl (λ m p,
    match kitty_image_placement_key p.1 with
    | Some key => if bool_decide (is_Some (kitty_virtual_placements (shared_images g) !! key))
                  then <[p.2 := key]> m else m
    | None => m
    end) ∅ (zip (inline_images (images g)) (inline_image_parent_ids (images g))).

(** The second result is whether an attachment with a pixel offset changed. *)
Definition apply_cell_transform (t : CellTransform) (g : ImageState) : bool * ImageState :=
  let g := ensure_inline_image_parent_ids g in
  let s := images g in
  let offset_ids := (filter (λ p, has_target_offset p.1) (zip (inline_images s) (inline_image_parent_ids s))).*2 in
  let virtual_keys := if is_character_edit t then virtual_keys_by_parent g else ∅ in
  let changed := filter (λ a, apply_to_attachment t a ≠ Some a) (inline_image_attachments s) in
  let overflow_changed := existsb (λ a, attached_to offset_ids a) changed in
  let edited := omap (λ a, virtual_keys !! at_parent_identity a) changed in
  let s := s{{ inline_image_attachments := omap (apply_to_attachment t) (inline_image_attachments s) }} in
  let s := if is_character_edit t then synchronize_kitty_image_origins_with_attachments s else s in
  let s := s{{ kitty_character_edited_placements :=
                 kitty_character_edited_placements s ∪ list_to_set edited }} in
  (overflow_changed, retain_edited (g{{ images := s }})).
