(* ===== verification/Placeholders.v ===== *)
(** Unicode placeholders of the Kitty protocol ([rssh-terminal/src/parser.rs]):
    a placeholder character names an image by its colours and a cell of it by
    its combining marks; the terminal shows the virtual placement it belongs
    to, and moves or forgets placeholder cells with the grid cells under
    them. *)
From coqutil Require Import Datatypes.RecordSetters.
From S2P Require Import Prelude Text Grid Csi Parse Utf8 Feed Screen Scroll Images Placements.
Import DoubleBraceUpdate.

Local Open Scope Z_scope.

Definition ANONYMOUS_KITTY_IMAGE_ID : Z := 0.

Definition KITTY_PLACEHOLDER_DIACRITICS : list Z :=
  [773; 781; 782; 784; 786; 829; 830; 831; 838; 842; 843; 844; 848; 849; 850; 855; 859; 867; 868;
   869; 870; 871; 872; 873; 874; 875; 876; 877; 878; 879; 1155; 1156; 1157; 1158; 1159; 1426;
   1427; 1428; 1429; 1431; 1432; 1433; 1436; 1437; 1438; 1439; 1440; 1441; 1448; 1449; 1451;
   1452; 1455; 1476; 1552; 1553; 1554; 1555; 1556; 1557; 1558; 1559; 1623; 1624; 1625; 1626;
   1627; 1629; 1630; 1750; 1751; 1752; 1753; 1754; 1755; 1756; 1759; 1760; 1761; 1762; 1764;
   1767; 1768; 1771; 1772; 1840; 1842; 1843; 1845; 1846; 1850; 1853; 1855; 1856; 1857; 1859;
   1861; 1863; 1865; 1866; 2027; 2028; 2029; 2030; 2031; 2032; 2033; 2035; 2070; 2071; 2072;
   2073; 2075; 2076; 2077; 2078; 2079; 2080; 2081; 2082; 2083; 2085; 2086; 2087; 2089; 2090;
   2091; 2092; 2093; 2385; 2387; 2388; 3970; 3971; 3974; 3975; 4957; 4958; 4959; 6109; 6458;
   6679; 6773; 6774; 6775; 6776; 6777; 6778; 6779; 6780; 7019; 7021; 7022; 7023; 7024; 7025;
   7026; 7027; 7376; 7377; 7378; 7386; 7387; 7392; 7616; 7617; 7619; 7620; 7621; 7622; 7623;
   7624; 7625; 7627; 7628; 7633; 7634; 7635; 7636; 7637; 7638; 7639; 7640; 7641; 7642; 7643;
   7644; 7645; 7646; 7647; 7648; 7649; 7650; 7651; 7652; 7653; 7654; 7678; 8400; 8401; 8404;
   8405; 8406; 8407; 8411; 8412; 8417; 8423; 8425; 8432; 11503; 11504; 11505; 11744; 11745;
   11746; 11747; 11748; 11749; 11750; 11751; 11752; 11753; 11754; 11755; 11756; 11757; 11758;
   11759; 11760; 11761; 11762; 11763; 11764; 11765; 11766; 11767; 11768; 11769; 11770; 11771;
   11772; 11773; 11774; 11775; 42607; 42620; 42621; 42736; 42737; 43232; 43233; 43234; 43235;
   43236; 43237]%Z.

(** What the graphics code takes from outside: [inflate] is the zlib decoder,
    [read_file path offset size] reads a file or a part of it, and
    [placement_order] is the order in which the [HashMap] of virtual
    placements is walked, which the library leaves open. *)
Class ImageHost := {
  inflate : list Z → option (list Z);
  read_file : rstring → option Z → option Z → option (list Z);
  placement_order : list (KittyPlacementKey * KittyVirtualPlacement) →
    list (KittyPlacementKey * KittyVirtualPlacement);
}.

(** The walk visits every placement once. *)
Class ImageHostLaws `{ImageHost} :=
  placement_order_perm : ∀ l, placement_order l ≡ₚ l.

(** ** Colours and marks *)

Definition kitty_placeholder_color_value (color : Color) : option Z :=
  match color with
  | DefaultColor => None
  | Indexed value => Some value
  | Rgb r g b | Rgba r g b _ => Some (Z.lor (Z.lor (Z.shiftl r 16) (Z.shiftl g 8)) b)
  end.

Definition kitty_placeholder_image_id (color : Color) : option Z :=
  n ← kitty_placeholder_color_value color;
  if n =? ANONYMOUS_KITTY_IMAGE_ID then None else Some n.

Definition kitty_placeholder_placement_id (color : Color) : option Z :=
  n ← kitty_placeholder_color_value color; if n =? 0 then None else Some n.

Definition kitty_placeholder_diacritic_value (ch : Z) : option Z :=
  Z.of_nat <$> position (λ diacritic, diacritic = ch) KITTY_PLACEHOLDER_DIACRITICS.

(** [low & 0x00ff_ffff | high << 24] of a [u32]; bits above the word are
    lost. *)
Definition placeholder_image_id (low high : Z) : Z :=
  Z.lor (Z.land low 16777215) (Z.shiftl high 24 `mod` 4294967296).

Definition kitty_placeholder_origin_from_cell (row column placeholder_row placeholder_column : Z) :
    option (Z * Z) :=
  if u16_max <? placeholder_column then None
  else
    row ← checked_sub row placeholder_row;
    column ← checked_sub column placeholder_column;
    Some (row, column).

Record ResolvedKittyPlaceholder := mkResolved {
  rs_image_id : Z;
  rs_image_id_high_byte : Z;
  rs_placeholder_row : Z;
  rs_placeholder_column : Z;
}.

(** [checked_add(1)] of a [u32] equal to a value. *)
Definition next_to (x y : Z) : bool := bool_decide (checked_add u32_max x 1 = Some y).

Definition left_kitty_placeholder_for (pending : PendingKittyPlaceholder) (s : ScreenImages) :
    option LastKittyPlaceholder :=
  left_column ← checked_sub (pp_column pending) 1;
  p ← or_else (kitty_placeholder_cells s !! (pp_row pending, left_column)) (last_kitty_placeholder s);
  if bool_decide (lp_foreground p = pp_foreground pending)
     && bool_decide (lp_underline_color p = pp_underline_color pending)
     && (lp_row p =? pp_row pending)
     && bool_decide (checked_add u16_max (lp_column p) 1 = Some (pp_column pending))
  then Some p else None.

Definition resolve_kitty_placeholder (pending : PendingKittyPlaceholder) (s : ScreenImages) :
    option ResolvedKittyPlaceholder :=
  image_id ← pp_image_id pending;
  let low_bytes := Z.land image_id 16777215 in
  let before := left_kitty_placeholder_for pending s in
  '(row, column, high) ←
    match pp_diacritics pending with
    | [] =>
        p ← before;
        column ← checked_add u32_max (lp_placeholder_column p) 1;
        Some (lp_placeholder_row p, column, lp_image_id_high_byte p)
    | [value] =>
        match before with
        | Some p =>
            if next_to (lp_placeholder_column p) value
            then Some (lp_placeholder_row p, value, lp_image_id_high_byte p)
            else Some (value, 0, 0)
        | None => Some (value, 0, 0)
        end
    | [row; column] =>
        let high :=
          match before with
          | Some p => if (lp_placeholder_row p =? row) && next_to (lp_placeholder_column p) column
                      then lp_image_id_high_byte p else 0
          | None => 0
          end in
        Some (row, column, high)
    | row :: column :: high :: _ => Some (row, column, high)
    end;
  Some (mkResolved (placeholder_image_id low_bytes high) high row column).

Section placeholders.
  Context `{Host : ImageHost}.

(** ** Virtual placements *)

Definition kitty_virtual_placement_for_placeholder (image_id : Z) (placement_id : option Z)
    (g : ImageState) : option KittyVirtualPlacement :=
  let virtuals := kitty_virtual_placements (shared_images g) in
  match placement_id with
  | Some placement_id => virtuals !! (image_id, placement_id)
  | None =>
      or_else (virtuals !! kitty_virtual_placement_key image_id None)
        (snd <$> (snd <$> list_find (λ p, vp_image_id p.2 = image_id) (placement_order (map_to_list virtuals))))
  end.

(** The placement a placeholder cell stands for: origin, image and
    placement. *)
Definition kitty_placeholder_render_key (row column : Z) (p : LastKittyPlaceholder) (g : ImageState) :
    option (Z * Z * Z * option Z) :=
  low_bytes ← kitty_placeholder_image_id (lp_foreground p);
  let image_id := placeholder_image_id low_bytes (lp_image_id_high_byte p) in
  let placement_id := kitty_placeholder_placement_id (lp_underline_color p) in
  '(origin_row, origin_column) ←
    kitty_placeholder_origin_from_cell row column (lp_placeholder_row p) (lp_placeholder_column p);
  placement ← kitty_virtual_placement_for_placeholder image_id placement_id g;
  Some (origin_row, origin_column, vp_image_id placement, vp_placement_id placement).

Definition kitty_placeholder_render_keys (g : ImageState) : list (Z * Z * Z * option Z) :=
  omap (λ p, kitty_placeholder_render_key p.1.1 p.1.2 p.2 g)
    (map_to_list (kitty_placeholder_cells (images g))).

Definition remove_kitty_placeholder_render (row column image_id : Z) (placement_id : option Z) :
    ImageState → ImageState :=
  retain_inline_images (λ image,
    negb (im_row image =? row) || negb (im_column image =? column)
    || negb (bool_decide (im_kitty_image_id image = Some image_id))
    || negb (bool_decide (im_kitty_placement_id image = placement_id))).

Definition place_kitty_virtual_placeholder (v : GraphicsView) (pending : PendingKittyPlaceholder)
    (g : ImageState) : PendingKittyPlaceholder * ImageState :=
  let forget := g{{ images -> last_kitty_placeholder := None }} in
  match resolve_kitty_placeholder pending (images g) with
  | None => (pending, g)
  | Some resolved =>
      match kitty_placeholder_origin_from_cell (pp_row pending) (pp_column pending)
              (rs_placeholder_row resolved) (rs_placeholder_column resolved) with
      | None => (pending, forget)
      | Some (origin_row, origin_column) =>
          match kitty_virtual_placement_for_placeholder (rs_image_id resolved) (pp_placement_id pending) g with
          | None => (pending, forget)
          | Some placement =>
              match kitty_images (shared_images g) !! vp_image_id placement with
              | None => (pending, forget)
              | Some image =>
                  let g :=
                    match pp_rendered_row pending, pp_rendered_column pending,
                          pp_rendered_image_id pending with
                    | Some row, Some column, Some image_id =>
                        remove_kitty_placeholder_render row column image_id
                          (pp_rendered_placement_id pending) g
                    | _, _, _ => g
                    end in
                  let g := remove_kitty_placeholder_render origin_row origin_column
                             (vp_image_id placement) (vp_placement_id placement) g in
                  let g := place_kitty_image v image
                             (mkOptions (vp_display_columns placement) (vp_display_rows placement)
                                (Some (vp_image_id placement)) (vp_placement_id placement)
                                (vp_z_index placement) None (Some origin_row) (Some origin_column) false
                                (vp_source_rect placement) (vp_target_x placement) (vp_target_y placement)) g in
                  let p := mkLastPlaceholder (pp_row pending) (pp_column pending) (pp_foreground pending)
                             (pp_underline_color pending) (rs_image_id_high_byte resolved)
                             (rs_placeholder_row resolved) (rs_placeholder_column resolved) in
                  (pending{{ pp_rendered_row := Some origin_row; pp_rendered_column := Some origin_column;
                             pp_rendered_image_id := Some (vp_image_id placement);
                             pp_rendered_placement_id := vp_placement_id placement }},
                   g{{ images -> kitty_placeholder_cells :=
                         <[(pp_row pending, pp_column pending) := p]> (kitty_placeholder_cells (images g));
                       images -> last_kitty_placeholder := Some p }})
              end
          end
      end
  end.

Definition take_pending (g : ImageState) : ImageState :=
  g{{ shared_images -> pending_kitty_placeholder := None }}.

Definition finish_pending_kitty_placeholder (v : GraphicsView) (g : ImageState) : ImageState :=
  match pending_kitty_placeholder (shared_images g) with
  | Some pending => (place_kitty_virtual_placeholder v pending (take_pending g)).2
  | None => g
  end.

(** The flag is whether the character was a mark of a pending placeholder. *)
Definition apply_kitty_placeholder_diacritic (v : GraphicsView) (ch : Z) (g : ImageState) :
    bool * ImageState :=
  match kitty_placeholder_diacritic_value ch with
  | None => (false, g)
  | Some value =>
      match pending_kitty_placeholder (shared_images g) with
      | None => (false, g)
      | Some pending =>
          let pending := pending{{ pp_diacritics := pp_diacritics pending ++ [value] }} in
          let '(pending, g) := place_kitty_virtual_placeholder v pending (take_pending g) in
          (true, g{{ shared_images -> pending_kitty_placeholder := Some pending }})
      end
  end.

(** The placeholder [write_char] starts. *)
Definition start_placeholder (row column : Z) (foreground underline_color : Color) (g : ImageState) :
    ImageState :=
  g{{ shared_images -> pending_kitty_placeholder :=
        Some (mkPlaceholder row column foreground underline_color
                (kitty_placeholder_image_id foreground) (kitty_placeholder_placement_id underline_color)
                [] None None None None) }}.

(** ** Cells that change *)

Definition clear_kitty_placeholder_cells (row column width : Z) (g : ImageState) : ImageState :=
  let g := foldl (λ g offset,
    let column := sat_add_u16 column offset in
    match kitty_placeholder_cells (images g) !! (row, column) with
    | None => g
    | Some p =>
        let g := g{{ images -> kitty_placeholder_cells :=
                       delete (row, column) (kitty_placeholder_cells (images g)) }} in
        match kitty_placeholder_render_key row column p g with
        | Some (render_row, render_column, image_id, placement_id) =>
            remove_kitty_placeholder_render render_row render_column image_id placement_id g
        | None => g
        end
    end) g (seqZ 0 width) in
  match last_kitty_placeholder (images g) with
  | Some p =>
      if (lp_row p =? row) && (column <=? lp_column p) && (lp_column p <? sat_add_u16 column width)
      then g{{ images -> last_kitty_placeholder := None }} else g
  | None => g
  end.

Definition kitty_placeholder_references_live_placement (live : list (Z * option Z))
    (p : LastKittyPlaceholder) : bool :=
  match kitty_placeholder_image_id (lp_foreground p) with
  | None => true
  | Some low_bytes =>
      let image_id := Z.lor (Z.land low_bytes 16777215) (Z.shiftl (Z.land (lp_image_id_high_byte p) 255) 24) in
      let placement_id := kitty_placeholder_placement_id (lp_underline_color p) in
      existsb (λ q, (q.1 =? image_id)
                    && (bool_decide (placement_id = None) || bool_decide (q.2 = placement_id))) live
  end.

Definition retire_stale_kitty_placeholder_caches (g : ImageState) : bool * ImageState :=
  let s := images g in
  let live := omap (λ image, (λ i, (i, im_kitty_placement_id image)) <$> im_kitty_image_id image)
                (inline_images s) in
  let cells := filter (λ p, kitty_placeholder_references_live_placement live p.2) (kitty_placeholder_cells s) in
  let last_retired :=
    match last_kitty_placeholder s with
    | Some p => negb (kitty_placeholder_references_live_placement live p)
    | None => false
    end in
  (bool_decide (size cells ≠ size (kitty_placeholder_cells s)) || last_retired,
   g{{ images -> kitty_placeholder_cells := cells;
       images -> last_kitty_placeholder := if last_retired then None else last_kitty_placeholder s }}).

Definition in_region (first_row last_row first last row column : Z) : bool :=
  (first_row <=? row) && (row <? last_row) && (first <=? column) && (column <=? last).

(** Forget the placeholders of a region; the flag is whether the last one
    was among them. *)
Definition retire_placeholders_in (first_row last_row first last : Z) (g : ImageState) : bool * ImageState :=
  let s := images g in
  let last_retired :=
    match last_kitty_placeholder s with
    | Some p => in_region first_row last_row first last (lp_row p) (lp_column p)
    | None => false
    end in
  (last_retired,
   g{{ images -> kitty_placeholder_cells :=
         filter (λ p, negb (in_region first_row last_row first last p.1.1 p.1.2)) (kitty_placeholder_cells s);
       images -> last_kitty_placeholder := if last_retired then None else last_kitty_placeholder s }}).

Definition retire_graphics_in_bounded_scroll_region (v : GraphicsView) (top bottom first last : nat)
    (g : ImageState) : bool * ImageState :=
  let '(first_row, last_row) := region_rows v top bottom in
  let first := Z.of_nat first in
  let last := Z.of_nat last in
  let last_column := sat_add_u16 last 1 in
  let image_count := length (inline_images (images g)) in
  let placeholder_count := size (kitty_placeholder_cells (images g)) in
  let g := retain_inline_images (λ image,
             negb (inline_image_intersects_region first_row last_row first last_column image)) g in
  let '(last_retired, g) := retire_placeholders_in first_row last_row first last g in
  let g := retire_orphan_kitty_relative_children g in
  let '(stale, g) := retire_stale_kitty_placeholder_caches g in
  (bool_decide (length (inline_images (images g)) ≠ image_count)
   || bool_decide (size (kitty_placeholder_cells (images g)) ≠ placeholder_count)
   || last_retired || stale, g).

Definition retire_malformed_graphics_in_bounded_scroll_region (v : GraphicsView)
    (top bottom first last : nat) (g : ImageState) : bool * ImageState :=
  let '(first_row, last_row) := region_rows v top bottom in
  let first := Z.of_nat first in
  let last := Z.of_nat last in
  let last_column := sat_add_u16 last 1 in
  let image_count := length (inline_images (images g)) in
  let g := retain_inline_images (λ image,
             bool_decide (is_Some (cell_attachment_dimensions image))
             || negb (inline_image_intersects_region first_row last_row first last_column image)) g in
  if bool_decide (length (inline_images (images g)) = image_count) then (false, g)
  else
    let '(_, g) := retire_placeholders_in first_row last_row first last g in
    let g := retire_orphan_kitty_relative_children g in
    let '(_, g) := retire_stale_kitty_placeholder_caches g in
    (true, g).

(** The coordinates of the image a pending placeholder has shown. *)
Definition transform_rendered (t : CellTransform) (p : PendingKittyPlaceholder) : PendingKittyPlaceholder :=
  let none := p{{ pp_rendered_row := None; pp_rendered_column := None; pp_rendered_image_id := None;
                  pp_rendered_placement_id := None }} in
  match pp_rendered_row p, pp_rendered_column p with
  | Some row, Some column =>
      match apply_coordinate t row column with
      | Some (row, column) => p{{ pp_rendered_row := Some row; pp_rendered_column := Some column }}
      | None => none
      end
  | _, _ => none
  end.

Definition transform_kitty_placeholder_state_for_character_edit (t : CellTransform) (g : ImageState) :
    ImageState :=
  g{{ images -> kitty_placeholder_cells :=
        move_placeholder_cells (apply_coordinate t) set_placeholder_cell (kitty_placeholder_cells (images g));
      images -> last_kitty_placeholder :=
        p ← last_kitty_placeholder (images g);
        '(row, column) ← apply_coordinate t (lp_row p) (lp_column p);
        Some (set_placeholder_cell row column p);
      shared_images -> pending_kitty_placeholder :=
        p ← pending_kitty_placeholder (shared_images g);
        '(row, column) ← apply_coordinate t (pp_row p) (pp_column p);
        Some (transform_rendered t (p{{ pp_row := row; pp_column := column }})) }}.

End placeholders.
