(* ===== verification/Kitty.v ===== *)
(** The Kitty graphics protocol ([rssh-terminal/src/parser.rs]): the control
    data of a command, uploads in one or several chunks, stored images,
    placements by command, relative placements, deletion, and the responses
    to the program.

    Temporary files are read and may be deleted; the deletion is an effect on
    the file system and not part of the terminal's state. *)
From coqutil Require Import Datatypes.RecordSetters.
From S2P Require Import Prelude Text Grid Csi Parse Utf8 Feed Screen Scroll Images Placements Placeholders.
Import DoubleBraceUpdate.

Local Open Scope Z_scope.

Definition MAX_KITTY_RELATIVE_CHAIN_DEPTH : nat := 8.

(** ** Control data *)

Record KittyGraphicsParams := mkParams {
  kp_action : option Z;
  kp_format : option Z;
  kp_medium : option Z;
  kp_compression : option Z;
  kp_image_id : option Z;
  kp_image_number : option Z;
  kp_placement_id : option Z;
  kp_parent_image_id : option Z;
  kp_parent_placement_id : option Z;
  kp_parent_offset_columns : option Z;
  kp_parent_offset_rows : option Z;
  kp_z_index : option Z;
  kp_delete_target : option Z;
  kp_cell_x : option Z;
  kp_cell_y : option Z;
  kp_more_chunks : option Z;
  kp_pixel_width : option Z;
  kp_pixel_height : option Z;
  kp_display_columns : option Z;
  kp_display_rows : option Z;
  kp_no_cursor_movement : bool;
  kp_virtual_placement : bool;
  kp_source_x : option Z;
  kp_source_y : option Z;
  kp_source_width : option Z;
  kp_source_height : option Z;
  kp_target_x : option Z;
  kp_target_y : option Z;
  kp_file_offset : option Z;
  kp_file_size : option Z;
  kp_quiet : option Z;
}.

#[export] Hint Extern 0 (@Setter KittyGraphicsParams _ ?getter) =>
  mk_setter (λ r, mkParams (kp_action r) (kp_format r) (kp_medium r) (kp_compression r)
       (kp_image_id r) (kp_image_number r) (kp_placement_id r) (kp_parent_image_id r)
       (kp_parent_placement_id r) (kp_parent_offset_columns r) (kp_parent_offset_rows r)
       (kp_z_index r) (kp_delete_target r) (kp_cell_x r) (kp_cell_y r) (kp_more_chunks r)
       (kp_pixel_width r) (kp_pixel_height r) (kp_display_columns r) (kp_display_rows r)
       (kp_no_cursor_movement r) (kp_virtual_placement r) (kp_source_x r) (kp_source_y r)
       (kp_source_width r) (kp_source_height r) (kp_target_x r) (kp_target_y r) (kp_file_offset r)
       (kp_file_size r) (kp_quiet r)) getter
  : typeclass_instances.

Definition default_params : KittyGraphicsParams :=
  mkParams None None None None None None None None None None None None None None None None
    None None None None false false None None None None None None None None None.

Definition kp_source_rect (p : KittyGraphicsParams) : KittySourceRect :=
  mkSourceRect (kp_source_x p) (kp_source_y p) (kp_source_width p) (kp_source_height p).
Definition pg_source_rect (p : PendingKittyGraphics) : KittySourceRect :=
  mkSourceRect (pg_source_x p) (pg_source_y p) (pg_source_width p) (pg_source_height p).

Definition parse_single_char (value : rstring) : option Z :=
  match value with [ch] => Some ch | _ => None end.

(** One [key=value] of the control data. *)
Definition apply_param (key value : rstring) (p : KittyGraphicsParams) : KittyGraphicsParams :=
  let named (s : string) := bool_decide (key = lit s) in
  if named "a" then p{{ kp_action := parse_single_char value }}
  else if named "d" then p{{ kp_delete_target := parse_single_char value }}
  else if named "f" then p{{ kp_format := parse_u32 value }}
  else if named "i" then p{{ kp_image_id := parse_positive_u32 value }}
  else if named "I" then p{{ kp_image_number := parse_positive_u32 value }}
  else if named "p" then p{{ kp_placement_id := parse_positive_u32 value }}
  else if named "P" then p{{ kp_parent_image_id := parse_positive_u32 value }}
  else if named "Q" then p{{ kp_parent_placement_id := parse_positive_u32 value }}
  else if named "t" then p{{ kp_medium := parse_single_char value }}
  else if named "o" then p{{ kp_compression := parse_single_char value }}
  else if named "m" then p{{ kp_more_chunks := parse_u8 value }}
  else if named "s" then p{{ kp_pixel_width := parse_positive_u32 value }}
  else if named "v" then p{{ kp_pixel_height := parse_positive_u32 value }}
  else if named "c" then p{{ kp_display_columns := parse_positive_u16 value }}
  else if named "r" then p{{ kp_display_rows := parse_positive_u16 value }}
  else if named "C" then p{{ kp_no_cursor_movement := bool_decide (value = lit "1") }}
  else if named "U" then p{{ kp_virtual_placement := bool_decide (value = lit "1") }}
  else if named "w" then p{{ kp_source_width := parse_positive_u32 value }}
  else if named "h" then p{{ kp_source_height := parse_positive_u32 value }}
  else if named "X" then p{{ kp_target_x := parse_u32 value }}
  else if named "Y" then p{{ kp_target_y := parse_u32 value }}
  else if named "H" then p{{ kp_parent_offset_columns := parse_i32 value }}
  else if named "V" then p{{ kp_parent_offset_rows := parse_i32 value }}
  else if named "x" then p{{ kp_cell_x := parse_positive_u16 value; kp_source_x := parse_u32 value }}
  else if named "y" then p{{ kp_cell_y := parse_positive_u16 value; kp_source_y := parse_u32 value }}
  else if named "z" then p{{ kp_z_index := parse_i32 value }}
  else if named "O" then p{{ kp_file_offset := parse_u64 value }}
  else if named "S" then p{{ kp_file_size := parse_u64 value }}
  else if named "q" then p{{ kp_quiet := parse_u8 value }}
  else p.

Definition parse_kitty_graphics_params (control : rstring) : KittyGraphicsParams :=
  foldl (λ p param, match split_once 61 param with
                    | Some (key, value) => apply_param key value p
                    | None => p
                    end) default_params (split_on 44 control).

(** ** Responses *)

Definition kitty_graphics_response_is_suppressed (params : KittyGraphicsParams) (status : rstring) : bool :=
  match kp_quiet params with
  | Some 1 => bool_decide (status = lit "OK")
  | Some 2 => negb (bool_decide (status = lit "OK"))
  | _ => false
  end.

(** [append_kitty_graphics_response_param]; the separator is needed when a
    parameter was written before. *)
Definition append_response_param (name : Z) (value : option Z) (response : list Z * bool) : list Z * bool :=
  match value with
  | None => response
  | Some value =>
      (response.1 ++ (if response.2 then [44] else []) ++ name :: 61 :: show_unsigned value, true)
  end.

(** [ESC _ G], the identifiers, a semicolon, the status and the string terminator. *)
Definition push_kitty_graphics_response (params : KittyGraphicsParams) (status : rstring) (g : ImageState) :
    ImageState :=
  if kitty_graphics_response_is_suppressed params status then g
  else
    let response := append_response_param 105 (kp_image_id params) ([27; 95; 71], false) in
    let response := append_response_param 73 (kp_image_number params) response in
    let response := append_response_param 112 (kp_placement_id params) response in
    let bytes := response.1 ++ 59 :: filter (λ b, negb (between 0 31 b || (b =? 127))) status ++ [27; 92] in
    g{{ shared_images -> kitty_graphics_responses := kitty_graphics_responses (shared_images g) ++ [bytes] }}.

Definition push_kitty_graphics_ok_response (params : KittyGraphicsParams) : ImageState → ImageState :=
  push_kitty_graphics_response params (lit "OK").

Definition push_kitty_graphics_error_response (params : KittyGraphicsParams) (code message : rstring) :
    ImageState → ImageState :=
  push_kitty_graphics_response params (code ++ lit ":" ++ message).

Definition with_image_id (image_id : Z) (params : KittyGraphicsParams) : KittyGraphicsParams :=
  params{{ kp_image_id := Some image_id }}.

Definition kitty_response_params_from_upload (upload : PendingKittyGraphics) : KittyGraphicsParams :=
  default_params{{ kp_image_id := pg_image_id upload; kp_image_number := pg_image_number upload;
                   kp_placement_id := pg_placement_id upload; kp_quiet := pg_quiet upload }}.

Definition kitty_params_should_respond (params : KittyGraphicsParams) : bool :=
  bool_decide (kp_action params = Some 113) || bool_decide (is_Some (kp_image_id params))
  || bool_decide (is_Some (kp_image_number params)).

Definition is_query (a : KittyUploadAction) : bool := match a with UploadQuery => true | _ => false end.

Definition kitty_upload_should_respond (upload : PendingKittyGraphics) : bool :=
  is_query (pg_action upload) || kitty_params_should_respond (kitty_response_params_from_upload upload).

Definition no_image_message (params : KittyGraphicsParams) (image_id : Z) : rstring :=
  lit "No image with " ++
  match kp_image_number params with
  | None => lit "id " ++ show_unsigned image_id
  | Some image_number => lit "number " ++ show_unsigned image_number
  end.

(** ** Uploads *)

Inductive KittyGraphicsStartError := StartAction | StartTransmissionMedium | StartCompression | StartImageFormat.

Definition start_error_message (e : KittyGraphicsStartError) : rstring :=
  match e with
  | StartAction => lit "Unsupported action"
  | StartTransmissionMedium => lit "Unsupported transmission medium"
  | StartCompression => lit "Unsupported compression"
  | StartImageFormat => lit "Unsupported image format"
  end.

Inductive KittyGraphicsDataError := InvalidBase64 | InvalidFile | UnsupportedCompression.

Definition data_error_message (e : KittyGraphicsDataError) : rstring :=
  match e with
  | InvalidBase64 => lit "Invalid base64 payload"
  | InvalidFile => lit "Invalid file payload"
  | UnsupportedCompression => lit "Unsupported compression"
  end.

Definition push_kitty_graphics_upload_start_error (params : KittyGraphicsParams)
    (error : KittyGraphicsStartError) (g : ImageState) : ImageState :=
  if kitty_params_should_respond params
  then push_kitty_graphics_error_response params (lit "EINVAL") (start_error_message error) g else g.

Definition start_kitty_graphics_upload (params : KittyGraphicsParams) (encoded_data : rstring) :
    KittyGraphicsStartError + PendingKittyGraphics :=
  let action := match kp_action params with
                | Some 84 => Some UploadDisplay
                | Some 116 | None => Some UploadStore
                | Some 113 => Some UploadQuery
                | _ => None
                end in
  let medium := match default 100 (kp_medium params) with
                | 100 => Some MediumDirect
                | 102 => Some MediumFile
                | 116 => Some MediumTempFile
                | _ => None
                end in
  let format := match default 32 (kp_format params) with
                | 24 => Some FormatRgb
                | 32 => Some FormatRgba
                | 100 => Some FormatEncoded
                | _ => None
                end in
  match action, medium with
  | None, _ => inl StartAction
  | Some _, None => inl StartTransmissionMedium
  | Some action, Some medium =>
      if match kp_compression params with Some c => negb (c =? 122) | None => false end
      then inl StartCompression
      else match format with
           | None => inl StartImageFormat
           | Some format =>
               inr (mkUpload format medium (kp_compression params) action (kp_image_id params)
                 (kp_image_number params) (kp_placement_id params) (kp_z_index params)
                 (kp_pixel_width params) (kp_pixel_height params) (kp_display_columns params)
                 (kp_display_rows params) (kp_no_cursor_movement params) (kp_source_x params)
                 (kp_source_y params) (kp_source_width params) (kp_source_height params)
                 (kp_target_x params) (kp_target_y params) (kp_file_offset params)
                 (kp_file_size params) (kp_quiet params) (kp_virtual_placement params) encoded_data)
           end
  end.

(** [checked_mul] of [usize]. *)
Definition checked_mul (x y : Z) : option Z := if x * y <=? usize_max then Some (x * y) else None.

Definition kitty_graphics_payload_is_supported (format : InlineImageFormat)
    (pixel_width pixel_height : option Z) (payload_len : Z) : bool :=
  let expected (bytes_per_pixel : Z) :=
    width ← pixel_width;
    height ← pixel_height;
    pixels ← checked_mul width height;
    checked_mul pixels bytes_per_pixel in
  match format with
  | FormatEncoded => true
  | FormatRgb => bool_decide (expected 3 = Some payload_len)
  | FormatRgba => bool_decide (expected 4 = Some payload_len)
  end.

Definition upload_supported (upload : PendingKittyGraphics) (data : list Z) : bool :=
  kitty_graphics_payload_is_supported (pg_image_format upload) (pg_pixel_width upload)
    (pg_pixel_height upload) (Z.of_nat (length data)).

(** The search of [next_kitty_image_id]: the numbers go up by one until one
    is free; more than the stored images there is no need to try. *)
Fixpoint free_image_id (fuel : nat) (image_id : Z) (stored : gmap Z StoredKittyImage) : Z :=
  match fuel with
  | O => image_id
  | S fuel =>
      if (image_id =? ANONYMOUS_KITTY_IMAGE_ID) || bool_decide (is_Some (stored !! image_id))
      then free_image_id fuel (Z.max (sat_add_u32 image_id 1) 1) stored
      else image_id
  end.

Definition next_kitty_id (g : ImageState) : Z * ImageState :=
  let k := shared_images g in
  let image_id := free_image_id (S (size (kitty_images k))) (Z.max (next_kitty_image_id k) 1) (kitty_images k) in
  (image_id, g{{ shared_images -> next_kitty_image_id := Z.max (sat_add_u32 image_id 1) 1 }}).

(** ** Relative placements *)

Definition offset_kitty_history_row (row offset : Z) : Z :=
  if 0 <=? offset then sat_add_usize row offset else sat_sub row (- offset).

Definition offset_kitty_column (column offset : Z) : Z :=
  Z.min (offset_kitty_history_row column offset) u16_max.

(** The walk up the relations from a placement, at most once through each;
    the placements met, the start first. *)
Fixpoint ancestors_loop (fuel : nat) (parents : gmap KittyPlacementKey KittyPlacementKey)
    (seen : gset KittyPlacementKey) (placement : KittyPlacementKey) : list KittyPlacementKey :=
  match fuel with
  | O => []
  | S fuel =>
      placement ::
        (if bool_decide (placement ∈ seen) then []
         else match parents !! placement with
              | Some parent => ancestors_loop fuel parents ({[placement]} ∪ seen) parent
              | None => []
              end)
  end.

Definition ancestors (parents : gmap KittyPlacementKey KittyPlacementKey) (placement : KittyPlacementKey) :
    list KittyPlacementKey :=
  ancestors_loop (S (S (size parents))) parents ∅ placement.

(** The number of steps of the walk. *)
Definition kitty_relative_parent_depth (parents : gmap KittyPlacementKey KittyPlacementKey)
    (parent : KittyPlacementKey) : nat := length (ancestors parents parent) - 1.

Definition kitty_relative_placement_would_cycle (parents : gmap KittyPlacementKey KittyPlacementKey)
    (child parent : KittyPlacementKey) : bool := bool_decide (child ∈ ancestors parents parent).

(** The least of the pairs, in lexicographic order. *)
Definition min_cell (l : list (Z * Z)) : option (Z * Z) :=
  match l with
  | [] => None
  | cell :: rest =>
      Some (foldl (λ m c, if (c.1 <? m.1) || ((c.1 =? m.1) && (c.2 <? m.2)) then c else m) cell rest)
  end.

Definition kitty_attachment_parent_origin (image_id placement_id : Z) (s : ScreenImages) : option (Z * Z) :=
  p ← list_find (λ p, has_key (image_id, placement_id) p.1) (zip (inline_images s) (inline_image_parent_ids s));
  let identity := p.2.2 in
  min_cell ((λ a, (at_row a, at_column a)) <$>
              filter (λ a, at_parent_identity a = identity) (inline_image_attachments s)).

Section kitty.
  Context `{Ext : External} `{Host : ImageHost}.

Definition kitty_virtual_parent_origin (image_id placement_id : Z) (g : ImageState) : option (Z * Z) :=
  let origins := omap (λ key, let '(row, column, i, p) := key in
                        if (i =? image_id) && bool_decide (p = Some placement_id)
                        then Some (row, column) else None) (kitty_placeholder_render_keys g) in
  match origins with
  | [] => None
  | cell :: rest => Some (foldl (λ m c, (Z.min m.1 c.1, Z.min m.2 c.2)) cell rest)
  end.

Definition kitty_relative_parent_origin (image_id placement_id : Z) (g : ImageState) : option (Z * Z) :=
  let key := (image_id, placement_id) in
  let attachment_origin := kitty_attachment_parent_origin image_id placement_id (images g) in
  if bool_decide (is_Some (kitty_virtual_placements (shared_images g) !! key)) then
    let cache_origin := kitty_virtual_parent_origin image_id placement_id g in
    if bool_decide (key ∈ kitty_character_edited_placements (images g))
    then or_else attachment_origin cache_origin
    else or_else cache_origin attachment_origin
  else
    or_else attachment_origin
      ((λ p, (im_row p.2, im_column p.2)) <$> list_find (has_key key) (inline_images (images g))).

(** ** Payloads *)

Definition decode_kitty_graphics_payload (compression : option Z) (data : list Z) : option (list Z) :=
  match compression with
  | None => Some data
  | Some 122 => inflate data
  | Some _ => None
  end.

Definition read_kitty_graphics_file_payload (encoded_path : rstring) (offset size : option Z) :
    KittyGraphicsDataError + list Z :=
  match base64_decode encoded_path with
  | None => inl InvalidBase64
  | Some bytes =>
      match from_utf8 0 bytes with
      | (path, _, None) =>
          match read_file path offset size with Some data => inr data | None => inl InvalidFile end
      | _ => inl InvalidFile
      end
  end.

Definition load_kitty_graphics_payload (upload : PendingKittyGraphics) : KittyGraphicsDataError + list Z :=
  let data :=
    match pg_medium upload with
    | MediumDirect =>
        match base64_decode (pg_encoded_data upload) with Some data => inr data | None => inl InvalidBase64 end
    | MediumFile | MediumTempFile =>
        read_kitty_graphics_file_payload (pg_encoded_data upload) (pg_file_offset upload) (pg_file_size upload)
    end in
  match data with
  | inl e => inl e
  | inr data =>
      match decode_kitty_graphics_payload (pg_compression upload) data with
      | Some data => inr data
      | None => inl UnsupportedCompression
      end
  end.

(** ** Storing and showing *)

Definition store_kitty_virtual_placement (params : KittyGraphicsParams) (image_id : Z) (respond : bool)
    (g : ImageState) : ImageState :=
  let placement :=
    mkVirtual image_id (kp_placement_id params) (Some (default 0 (kp_z_index params)))
      (kp_display_columns params) (kp_display_rows params) (kp_source_rect params)
      (kp_target_x params) (kp_target_y params) in
  let g := g{{ shared_images -> kitty_virtual_placements :=
                 <[kitty_virtual_placement_key image_id (kp_placement_id params) := placement]>
                   (kitty_virtual_placements (shared_images g)) }} in
  if respond then push_kitty_graphics_ok_response (with_image_id image_id params) g else g.

(** The parameters of the virtual placement an upload asks for. *)
Definition virtual_params_of_upload (upload : PendingKittyGraphics) (image_id : Z) : KittyGraphicsParams :=
  default_params{{ kp_image_id := Some image_id; kp_image_number := pg_image_number upload;
    kp_placement_id := pg_placement_id upload; kp_z_index := pg_z_index upload;
    kp_display_columns := pg_display_columns upload; kp_display_rows := pg_display_rows upload;
    kp_source_x := pg_source_x upload; kp_source_y := pg_source_y upload;
    kp_source_width := pg_source_width upload; kp_source_height := pg_source_height upload;
    kp_target_x := pg_target_x upload; kp_target_y := pg_target_y upload;
    kp_quiet := pg_quiet upload; kp_virtual_placement := true }}.

(** [image_id.and(placement_id)]. *)
Definition kitty_placement_id (image_id placement_id : option Z) : option Z :=
  match image_id with Some _ => placement_id | None => None end.

Definition store_uploaded_image (v : GraphicsView) (upload : PendingKittyGraphics) (image : StoredKittyImage)
    (g : ImageState) : option Z * ImageState :=
  let '(image_id, g) :=
    match pg_image_id upload, pg_image_number upload with
    | Some i, _ => (Some i, g)
    | None, Some _ => let '(i, g) := next_kitty_id g in (Some i, g)
    | None, None => (None, g)
    end in
  let g := match pg_image_id upload with
           | Some i => delete_kitty_placements v false
                         (λ image, bool_decide (im_kitty_image_id image = Some i)) g
           | None => g
           end in
  match image_id with
  | None => (None, g)
  | Some i =>
      let g := g{{ shared_images -> kitty_images := <[i := image]> (kitty_images (shared_images g)) }} in
      let g := match pg_image_number upload with
               | Some number => g{{ shared_images -> kitty_image_numbers :=
                                      <[number := i]> (kitty_image_numbers (shared_images g)) }}
               | None => g
               end in
      (Some i, push_kitty_graphics_ok_response
                 ((kitty_response_params_from_upload upload){{ kp_image_id := Some i }}) g)
  end.

Definition finish_kitty_graphics_upload (v : GraphicsView) (upload : PendingKittyGraphics) (g : ImageState) :
    ImageState :=
  let response_params := kitty_response_params_from_upload upload in
  match load_kitty_graphics_payload upload with
  | inl error =>
      if kitty_upload_should_respond upload
      then push_kitty_graphics_error_response response_params (lit "EINVAL") (data_error_message error) g
      else g
  | inr data =>
      if negb (upload_supported upload data) then
        if kitty_upload_should_respond upload
        then push_kitty_graphics_error_response response_params (lit "EINVAL") (lit "Unsupported image data") g
        else g
      else if is_query (pg_action upload) then push_kitty_graphics_ok_response response_params g
      else
        let image := mkStored (pg_image_format upload) (pg_pixel_width upload) (pg_pixel_height upload)
                       (pg_display_columns upload) (pg_display_rows upload) data in
        let '(image_id, g) := store_uploaded_image v upload image g in
        match pg_action upload with
        | UploadDisplay =>
            if pg_virtual_placement upload then
              match image_id with
              | Some i => store_kitty_virtual_placement (virtual_params_of_upload upload i) i false g
              | None => g
              end
            else
              place_kitty_image v image
                (mkOptions (pg_display_columns upload) (pg_display_rows upload)
                   (Some (default ANONYMOUS_KITTY_IMAGE_ID image_id))
                   (kitty_placement_id image_id (pg_placement_id upload))
                   (Some (default 0 (pg_z_index upload))) None None None
                   (negb (pg_no_cursor_movement upload)) (pg_source_rect upload)
                   (pg_target_x upload) (pg_target_y upload)) g
        | _ => g
        end
  end.

(** ** Commands *)

Definition kitty_image_id_from_params (params : KittyGraphicsParams) (g : ImageState) : option Z :=
  or_else (kp_image_id params)
    (number ← kp_image_number params; kitty_image_numbers (shared_images g) !! number).

(** The answer to a command whose image number is unknown. *)
Definition no_such_number (params : KittyGraphicsParams) (g : ImageState) : ImageState :=
  match kp_image_number params with
  | Some number => push_kitty_graphics_error_response params (lit "ENOENT")
                     (lit "No image with number " ++ show_unsigned number) g
  | None => g
  end.

Definition no_such_image (params : KittyGraphicsParams) (image_id : Z) : ImageState → ImageState :=
  push_kitty_graphics_error_response (with_image_id image_id params) (lit "ENOENT")
    (no_image_message params image_id).

(** The options of a placement command. *)
Definition placement_options (params : KittyGraphicsParams) (image_id : Z)
    (parent : option KittyPlacementKey) (row column : option Z) (move_cursor : bool) : KittyPlacementOptions :=
  mkOptions (kp_display_columns params) (kp_display_rows params) (Some image_id) (kp_placement_id params)
    (Some (default 0 (kp_z_index params))) parent row column move_cursor (kp_source_rect params)
    (kp_target_x params) (kp_target_y params).

Definition apply_kitty_virtual_placement (params : KittyGraphicsParams) (image_id : Z) (g : ImageState) :
    ImageState :=
  if bool_decide (is_Some (kitty_images (shared_images g) !! image_id))
  then store_kitty_virtual_placement params image_id true g
  else no_such_image params image_id g.

Definition apply_relative_kitty_graphics_placement (v : GraphicsView) (params : KittyGraphicsParams)
    (image_id : Z) (g : ImageState) : ImageState :=
  let error (code message : rstring) := push_kitty_graphics_error_response (with_image_id image_id params) code message g in
  if kp_virtual_placement params
  then error (lit "EINVAL") (lit "Virtual placements cannot be relative")
  else
    match kp_parent_image_id params with
    | None => g
    | Some parent_image_id =>
        match kp_parent_placement_id params with
        | None => error (lit "ENOPARENT")
                    (lit "No parent placement with id " ++ show_unsigned parent_image_id)
        | Some parent_placement_id =>
            let parent := (parent_image_id, parent_placement_id) in
            let parents := kitty_relative_parents (shared_images g) in
            match kitty_relative_parent_origin parent_image_id parent_placement_id g with
            | None => error (lit "ENOPARENT")
                        (lit "No parent placement with id " ++ show_unsigned parent_image_id ++ lit ",p="
                         ++ show_unsigned parent_placement_id)
            | Some (parent_row, parent_column) =>
                let row := offset_kitty_history_row parent_row (default 0 (kp_parent_offset_rows params)) in
                let column := offset_kitty_column parent_column (default 0 (kp_parent_offset_columns params)) in
                if match kitty_placement_key (Some image_id) (kp_placement_id params) with
                   | Some child => kitty_relative_placement_would_cycle parents child parent
                   | None => false
                   end
                then error (lit "ECYCLE") (lit "Relative placement cycle")
                else if bool_decide (MAX_KITTY_RELATIVE_CHAIN_DEPTH ≤ kitty_relative_parent_depth parents parent)%nat
                then error (lit "ETOODEEP") (lit "Relative placement chain too deep")
                else
                  match kitty_images (shared_images g) !! image_id with
                  | None => no_such_image params image_id g
                  | Some image =>
                      push_kitty_graphics_ok_response (with_image_id image_id params)
                        (place_kitty_image v image
                           (placement_options params image_id (Some parent) (Some row) (Some column) false) g)
                  end
            end
        end
    end.

Definition apply_kitty_graphics_placement (v : GraphicsView) (params : KittyGraphicsParams) (g : ImageState) :
    ImageState :=
  match kitty_image_id_from_params params g with
  | None => no_such_number params g
  | Some image_id =>
      if bool_decide (is_Some (kp_parent_image_id params))
      then apply_relative_kitty_graphics_placement v params image_id g
      else if kp_virtual_placement params then apply_kitty_virtual_placement params image_id g
      else
        match kitty_images (shared_images g) !! image_id with
        | None => no_such_image params image_id g
        | Some image =>
            push_kitty_graphics_ok_response (with_image_id image_id params)
              (place_kitty_image v image
                 (placement_options params image_id None None None (negb (kp_no_cursor_movement params))) g)
        end
  end.

(** The flag is whether the query was about a stored image. *)
Definition apply_kitty_graphics_stored_image_query (params : KittyGraphicsParams) (g : ImageState) :
    bool * ImageState :=
  if bool_decide (kp_image_id params = None) && bool_decide (kp_image_number params = None) then (false, g)
  else
    (true,
     match kitty_image_id_from_params params g with
     | None => no_such_number params g
     | Some image_id =>
         if bool_decide (is_Some (kitty_images (shared_images g) !! image_id))
         then push_kitty_graphics_ok_response (with_image_id image_id params) g
         else no_such_image params image_id g
     end).

Definition apply_kitty_graphics_query (params : KittyGraphicsParams) (encoded_data : rstring)
    (g : ImageState) : ImageState :=
  let '(answered, g) :=
    if bool_decide (encoded_data = []) then apply_kitty_graphics_stored_image_query params g else (false, g) in
  if answered : bool then g
  else
    match start_kitty_graphics_upload params encoded_data with
    | inl error => push_kitty_graphics_upload_start_error params error g
    | inr upload =>
        match load_kitty_graphics_payload upload with
        | inl error => push_kitty_graphics_error_response params (lit "EINVAL") (data_error_message error) g
        | inr data =>
            if upload_supported upload data then push_kitty_graphics_ok_response params g
            else push_kitty_graphics_error_response params (lit "EINVAL") (lit "Unsupported image data") g
        end
    end.

(** ** Deletion by command *)

Definition zero_based_axis (value : Z) : option Z := checked_sub value 1.

Definition visible_history_row (v : GraphicsView) (one_based_row : Z) : option Z :=
  row ← zero_based_axis one_based_row;
  if row <? Z.of_nat (size_rows (view_size v)) then Some (Z.of_nat (view_scrollback v) + row) else None.

Definition kitty_delete_cell (v : GraphicsView) (params : KittyGraphicsParams) : option (Z * Z) :=
  y ← kp_cell_y params;
  row ← visible_history_row v y;
  x ← kp_cell_x params;
  column ← zero_based_axis x;
  Some (row, column).

Definition kitty_image_matches_placeholder_render (keys : list (Z * Z * Z * option Z))
    (image : ItermInlineImage) : bool :=
  match im_kitty_image_id image with
  | Some image_id =>
      bool_decide ((im_row image, im_column image, image_id, im_kitty_placement_id image) ∈ keys)
  | None => false
  end.

(** Placements shown for placeholders are left to the placeholders. *)
Definition delete_kitty_physical_placements (v : GraphicsView) (remove_unreferenced_data : bool)
    (matches : ItermInlineImage → bool) (g : ImageState) : ImageState :=
  let keys := kitty_placeholder_render_keys g in
  delete_kitty_placements v remove_unreferenced_data
    (λ image, negb (kitty_image_matches_placeholder_render keys image) && matches image) g.

(** On both screens. *)
Definition discard_kitty_character_edited_placements (removed : gset KittyPlacementKey) (g : ImageState) :
    ImageState :=
  let discard (s : ScreenImages) :=
    s{{ kitty_character_edited_placements := kitty_character_edited_placements s ∖ removed }} in
  g{{ images := discard (images g); dormant := discard <$> dormant g }}.

(** Remove the virtual placements that satisfy the test, and what was
    remembered about them. *)
Definition remove_virtual_placements (gone : KittyVirtualPlacement → bool) (g : ImageState) : ImageState :=
  let virtuals := kitty_virtual_placements (shared_images g) in
  let removed := dom (filter (λ p, gone p.2) virtuals) in
  let g := g{{ shared_images -> kitty_virtual_placements := filter (λ p, negb (gone p.2)) virtuals }} in
  retain_edited (discard_kitty_character_edited_placements removed g).

Definition delete_kitty_virtual_placements_by_image_id (image_id : Z) (placement_id : option Z) :
    ImageState → ImageState :=
  remove_virtual_placements (λ p,
    (vp_image_id p =? image_id) && (bool_decide (placement_id = None)
                                    || bool_decide (vp_placement_id p = placement_id))).

Definition delete_kitty_placements_by_image_id (v : GraphicsView) (image_id : Z) (placement_id : option Z)
    (remove_unreferenced_data : bool) (g : ImageState) : ImageState :=
  let g := delete_kitty_virtual_placements_by_image_id image_id placement_id g in
  let g := delete_kitty_placements v false (λ image,
             bool_decide (im_kitty_image_id image = Some image_id)
             && match placement_id with
                | Some placement_id => bool_decide (im_kitty_placement_id image = Some placement_id)
                | None => true
                end) g in
  if remove_unreferenced_data then remove_unreferenced_kitty_images [image_id] g else g.

Definition delete_kitty_placements_by_image_id_range (v : GraphicsView) (first_image_id last_image_id : Z)
    (remove_unreferenced_data : bool) (g : ImageState) : ImageState :=
  let inside (i : Z) := between first_image_id last_image_id i in
  if last_image_id <? first_image_id then g
  else
    let removed := (map_to_list (filter (λ p, inside p.1) (kitty_images (shared_images g)))).*1 in
    let g := remove_virtual_placements (λ p, inside (vp_image_id p)) g in
    let g := delete_kitty_placements v false (λ image,
               match im_kitty_image_id image with Some i => inside i | None => false end) g in
    if remove_unreferenced_data then remove_unreferenced_kitty_images removed g else g.

Definition is_kitty (image : ItermInlineImage) : bool := bool_decide (is_Some (im_kitty_image_id image)).

(** The target letter in lower case; the upper-case letter also removes
    image data. *)
Definition apply_kitty_graphics_delete (v : GraphicsView) (params : KittyGraphicsParams) (g : ImageState) :
    ImageState :=
  let g := g{{ shared_images -> pending_kitty_graphics := None }} in
  let target := default 97 (kp_delete_target params) in
  let data := between 65 90 target in
  let '(first_row, last_row) := visible_history_rows v in
  let columns := Z.of_nat (size_columns (view_size v)) in
  match (if data then target + 32 else target) with
  | 97 =>
      delete_kitty_physical_placements v data (λ image,
        is_kitty image && inline_image_intersects_region first_row last_row 0 columns image) g
  | 105 =>
      match kp_image_id params with
      | Some image_id => delete_kitty_placements_by_image_id v image_id (kp_placement_id params) data g
      | None => g
      end
  | 110 =>
      match number ← kp_image_number params; kitty_image_numbers (shared_images g) !! number with
      | Some image_id => delete_kitty_placements_by_image_id v image_id (kp_placement_id params) data g
      | None => g
      end
  | 114 =>
      match kp_cell_x params, kp_cell_y params with
      | Some x, Some y => delete_kitty_placements_by_image_id_range v x y data g
      | _, _ => g
      end
  | 99 =>
      delete_kitty_physical_placements v data
        (kitty_image_intersects_cell (view_history_row v) (view_column v)) g
  | 112 =>
      match kitty_delete_cell v params with
      | Some (row, column) => delete_kitty_physical_placements v data (kitty_image_intersects_cell row column) g
      | None => g
      end
  | 120 =>
      match x ← kp_cell_x params; zero_based_axis x with
      | Some column =>
          delete_kitty_physical_placements v data (kitty_image_intersects_column first_row last_row column) g
      | None => g
      end
  | 121 =>
      match y ← kp_cell_y params; visible_history_row v y with
      | Some row => delete_kitty_physical_placements v data (kitty_image_intersects_row row) g
      | None => g
      end
  | 122 =>
      match kp_z_index params with
      | Some z => delete_kitty_physical_placements v data
                    (λ image, is_kitty image && bool_decide (im_kitty_z_index image = Some z)) g
      | None => g
      end
  | 113 =>
      match kp_z_index params, kitty_delete_cell v params with
      | Some z, Some (row, column) =>
          delete_kitty_physical_placements v data
            (λ image, bool_decide (im_kitty_z_index image = Some z) && kitty_image_intersects_cell row column image) g
      | _, _ => g
      end
  | _ => g
  end.

(** ** The command *)

Definition set_pending_graphics (pending : option PendingKittyGraphics) (g : ImageState) : ImageState :=
  g{{ shared_images -> pending_kitty_graphics := pending }}.

Definition add_data (encoded_data : rstring) (pending : PendingKittyGraphics) : PendingKittyGraphics :=
  pending{{ pg_encoded_data := pg_encoded_data pending ++ encoded_data }}.

Definition apply_kitty_graphics (v : GraphicsView) (graphics : rstring) (g : ImageState) : ImageState :=
  if negb (enable_kitty_graphics (shared_images g)) then set_pending_graphics None g
  else
    let '(control, encoded_data) := default (graphics, []) (split_once 59 graphics) in
    let params := parse_kitty_graphics_params control in
    if bool_decide (is_Some (kp_image_id params)) && bool_decide (is_Some (kp_image_number params))
    then push_kitty_graphics_error_response params (lit "EINVAL")
           (lit "Image id and image number are mutually exclusive") g
    else if bool_decide (kp_action params = Some 113) && bool_decide (kp_more_chunks params = None)
    then apply_kitty_graphics_query params encoded_data g
    else if bool_decide (kp_action params = Some 112) then apply_kitty_graphics_placement v params g
    else if bool_decide (kp_action params = Some 100) then apply_kitty_graphics_delete v params g
    else
      let pending := pending_kitty_graphics (shared_images g) in
      let g := set_pending_graphics None g in
      match pending, kp_more_chunks params with
      | Some pending, Some 0 => finish_kitty_graphics_upload v (add_data encoded_data pending) g
      | Some pending, Some 1 => set_pending_graphics (Some (add_data encoded_data pending)) g
      | None, Some 1 =>
          match start_kitty_graphics_upload params encoded_data with
          | inr pending => set_pending_graphics (Some pending) g
          | inl error => push_kitty_graphics_upload_start_error params error g
          end
      | None, Some 0 | None, None =>
          match start_kitty_graphics_upload params encoded_data with
          | inr pending => finish_kitty_graphics_upload v pending g
          | inl error => push_kitty_graphics_upload_start_error params error g
          end
      | _, _ => g
      end.

Definition set_enable_kitty_graphics (enabled : bool) (k : SharedImages) : SharedImages :=
  let k := k{{ enable_kitty_graphics := enabled }} in
  if enabled then k else k{{ pending_kitty_graphics := None }}.

Definition take_kitty_graphics_responses (k : SharedImages) : list (list Z) * SharedImages :=
  (kitty_graphics_responses k, k{{ kitty_graphics_responses := [] }}).

End kitty.
