(* ===== verification/Sixel.v ===== *)
(** Sixel images ([rssh-terminal/src/parser.rs]): the options in front of the
    data, the canvas the data draws on, and the image it becomes.

    [f32] arithmetic of the HLS colours is the binary32 arithmetic of the
    standard library's [SpecFloat]. The byte index of a pixel is computed in
    [u32] and wraps around as it does in a release build. *)
From Stdlib Require Import SpecFloat.
From coqutil Require Import Datatypes.RecordSetters.
From S2P Require Import Prelude Text Grid Csi Parse Utf8 Feed Screen Scroll Images.
Import DoubleBraceUpdate.

Local Open Scope Z_scope.

(** ** Numbers *)

Definition parse_sixel_numeric_params (raw : rstring) : list Z :=
  (λ value, default 0 (parse_u16 value)) <$> split_on 59 raw.

Fixpoint take_while (f : Z → bool) (s : rstring) : rstring :=
  match s with
  | c :: s' => if f c then c :: take_while f s' else []
  | [] => []
  end.

Definition is_param_char (c : Z) : bool := is_digit c || (c =? 59).

(** The digits after the cursor of the character stream, and how many
    characters they are. *)
Definition parse_sixel_number (chars : rstring) : option Z * nat :=
  let raw := take_while is_digit chars in (parse_u32 raw, length raw).

Definition parse_sixel_parameter_list (chars : rstring) : list Z * nat :=
  let raw := take_while is_param_char chars in (parse_sixel_numeric_params raw, length raw).

Definition sixel_bits (ch : Z) : option Z := if between 63 126 ch then Some (ch - 63) else None.

(** ** Colours *)

Definition Rgba8 : Type := Z * Z * Z * Z.

Definition sixel_percent_to_u8 (value : Z) : Z := (Z.min value 100 * 255 + 50) / 100.

Abbreviation f32 := spec_float.
Definition f32_of (n : Z) : f32 := binary_normalize 24 128 n 0 false.
Definition f32_add : f32 → f32 → f32 := SFadd 24 128.
Definition f32_sub : f32 → f32 → f32 := SFsub 24 128.
Definition f32_mul : f32 → f32 → f32 := SFmul 24 128.
Definition f32_div : f32 → f32 → f32 := SFdiv 24 128.

Definition hue_to_rgb (p q hue : f32) : f32 :=
  let hue := if SFltb hue (f32_of 0) then f32_add hue (f32_of 1) else hue in
  let hue := if SFltb (f32_of 1) hue then f32_sub hue (f32_of 1) else hue in
  if SFltb hue (f32_div (f32_of 1) (f32_of 6))
  then f32_add p (f32_mul (f32_mul (f32_sub q p) (f32_of 6)) hue)
  else if SFltb hue (f32_div (f32_of 1) (f32_of 2)) then q
  else if SFltb hue (f32_div (f32_of 2) (f32_of 3))
  then f32_add p (f32_mul (f32_mul (f32_sub q p) (f32_sub (f32_div (f32_of 2) (f32_of 3)) hue)) (f32_of 6))
  else p.

(** [round() as u8] of a finite number that is not negative: halves go up. *)
Definition round_to_u8 (x : f32) : Z :=
  match x with
  | S754_finite false m e =>
      let n := if 0 <=? e then Z.pos m * 2 ^ e else (2 * Z.pos m + 2 ^ (- e)) / 2 ^ (1 - e) in
      Z.min n 255
  | _ => 0
  end.

Definition unit_float_to_u8 (value : f32) : Z :=
  let value := if SFltb value (f32_of 0) then f32_of 0
               else if SFltb (f32_of 1) value then f32_of 1 else value in
  round_to_u8 (f32_mul value (f32_of 255)).

Definition sixel_hls_to_rgba (hue lightness saturation : Z) : Rgba8 :=
  let hue := f32_div (f32_of ((hue + 240) `mod` 360)) (f32_of 360) in
  let lightness := f32_div (f32_of (Z.min lightness 100)) (f32_of 100) in
  let saturation := f32_div (f32_of (Z.min saturation 100)) (f32_of 100) in
  let third := f32_div (f32_of 1) (f32_of 3) in
  let '(red, green, blue) :=
    if SFeqb saturation (f32_of 0) then (lightness, lightness, lightness)
    else
      let q := if SFltb lightness (f32_div (f32_of 1) (f32_of 2))
               then f32_mul lightness (f32_add (f32_of 1) saturation)
               else f32_sub (f32_add lightness saturation) (f32_mul lightness saturation) in
      let p := f32_sub (f32_mul (f32_of 2) lightness) q in
      (hue_to_rgb p q (f32_add hue third), hue_to_rgb p q hue, hue_to_rgb p q (f32_sub hue third)) in
  (unit_float_to_u8 red, unit_float_to_u8 green, unit_float_to_u8 blue, 255).

(** ** The canvas *)

Inductive SixelBackground := Opaque | Transparent.

Record SixelOptions := mkSixelOptions { so_background : SixelBackground; so_pixel_height_scale : Z }.

Record SixelCanvas := mkCanvas {
  sc_pixels : gmap (Z * Z) Rgba8;
  sc_palette : gmap Z Rgba8;
  sc_current_color : Rgba8;
  sc_background : SixelBackground;
  sc_x : Z;
  sc_y : Z;
  sc_max_x : Z;
  sc_max_y : Z;
  sc_declared_width : option Z;
  sc_declared_height : option Z;
  sc_pixel_height_scale : Z;
}.

#[export] Hint Extern 0 (@Setter SixelCanvas _ ?getter) =>
  mk_setter (λ r, mkCanvas (sc_pixels r) (sc_palette r) (sc_current_color r) (sc_background r) (sc_x r)
      (sc_y r) (sc_max_x r) (sc_max_y r) (sc_declared_width r) (sc_declared_height r)
      (sc_pixel_height_scale r)) getter
  : typeclass_instances.

Definition VT340_DEFAULT_SIXEL_PALETTE : list Rgba8 :=
  [(0, 0, 0, 255); (51, 51, 204, 255); (204, 33, 33, 255); (51, 204, 51, 255); (204, 51, 204, 255);
   (51, 204, 204, 255); (204, 204, 51, 255); (135, 135, 135, 255); (66, 66, 66, 255); (84, 84, 153, 255);
   (153, 66, 66, 255); (84, 153, 84, 255); (153, 84, 153, 255); (84, 153, 153, 255); (153, 153, 84, 255);
   (204, 204, 204, 255)].

Definition new_canvas (options : SixelOptions) : SixelCanvas :=
  mkCanvas ∅ (list_to_map (imap (λ i c, (Z.of_nat i, c)) VT340_DEFAULT_SIXEL_PALETTE)) (0, 0, 0, 255)
    (so_background options) 0 0 0 0 None None (so_pixel_height_scale options).

(** One column of six pixels. *)
Definition write_column (bits : Z) (c : SixelCanvas) : SixelCanvas :=
  let c := foldl (λ c bit,
    if Z.testbit bits bit then
      let y := sat_add_u32 (sc_y c) bit in
      c{{ sc_pixels := <[(sc_x c, y) := sc_current_color c]> (sc_pixels c);
          sc_max_x := Z.max (sc_max_x c) (sc_x c);
          sc_max_y := Z.max (sc_max_y c) y }}
    else c) c [0; 1; 2; 3; 4; 5] in
  c{{ sc_x := sat_add_u32 (sc_x c) 1 }}.

Definition write_bits (bits repeat : Z) (c : SixelCanvas) : SixelCanvas :=
  Nat.iter (Z.to_nat (Z.max repeat 1)) (write_column bits) c.

Definition sixel_carriage_return (c : SixelCanvas) : SixelCanvas := c{{ sc_x := 0 }}.
Definition sixel_newline (c : SixelCanvas) : SixelCanvas :=
  c{{ sc_x := 0; sc_y := sat_add_u32 (sc_y c) 6 }}.

Definition select_color (index : Z) (c : SixelCanvas) : SixelCanvas :=
  match sc_palette c !! index with Some color => c{{ sc_current_color := color }} | None => c end.

Definition define_color (index : Z) (color : Rgba8) (c : SixelCanvas) : SixelCanvas :=
  c{{ sc_palette := <[index := color]> (sc_palette c); sc_current_color := color }}.

Definition define_rgb_color (index red green blue : Z) : SixelCanvas → SixelCanvas :=
  define_color index (sixel_percent_to_u8 red, sixel_percent_to_u8 green, sixel_percent_to_u8 blue, 255).

Definition define_hls_color (index hue lightness saturation : Z) : SixelCanvas → SixelCanvas :=
  define_color index (sixel_hls_to_rgba hue lightness saturation).

Definition sixel_pixel_height_scale (numerator denominator : Z) : Z :=
  if (numerator =? 0) || (denominator =? 0) then 1
  else Z.max ((numerator + denominator / 2) / denominator) 1.

Definition set_raster_attributes (numerator denominator width height : Z) (c : SixelCanvas) : SixelCanvas :=
  let c := c{{ sc_pixel_height_scale := sixel_pixel_height_scale numerator denominator }} in
  let c := if 0 <? width then c{{ sc_declared_width := Some width }} else c in
  if 0 <? height then c{{ sc_declared_height := Some height }} else c.

Definition parse_sixel_color_introducer (params : list Z) (c : SixelCanvas) : SixelCanvas :=
  match params with
  | [] => c
  | [index] => select_color index c
  | index :: kind :: rest =>
      match kind, rest with
      | 1, hue :: lightness :: saturation :: _ => define_hls_color index hue lightness saturation c
      | 2, red :: green :: blue :: _ => define_rgb_color index red green blue c
      | _, _ => select_color index c
      end
  end.

Definition parse_sixel_raster_attributes (params : list Z) (c : SixelCanvas) : SixelCanvas :=
  match params with
  | numerator :: denominator :: width :: height :: _ =>
      set_raster_attributes numerator denominator width height c
  | _ => c
  end.

(** The loop of [parse_sixel_image]; [skip] characters were consumed by the
    introducer before. *)
Fixpoint sixel_loop (skip : nat) (chars : rstring) (c : SixelCanvas) : SixelCanvas :=
  match chars with
  | [] => c
  | ch :: rest =>
      match skip with
      | S skip => sixel_loop skip rest c
      | O =>
          match ch with
          | 36 => sixel_loop 0 rest (sixel_carriage_return c)
          | 45 => sixel_loop 0 rest (sixel_newline c)
          | 33 =>
              let '(repeat, n) := parse_sixel_number rest in
              let c := match head (drop n rest) ≫= sixel_bits with
                       | Some bits => write_bits bits (default 1 repeat) c
                       | None => c
                       end in
              sixel_loop (S n) rest c
          | 35 =>
              let '(params, n) := parse_sixel_parameter_list rest in
              sixel_loop n rest (parse_sixel_color_introducer params c)
          | 34 =>
              let '(params, n) := parse_sixel_parameter_list rest in
              sixel_loop n rest (parse_sixel_raster_attributes params c)
          | _ =>
              sixel_loop 0 rest (match sixel_bits ch with Some bits => write_bits bits 1 c | None => c end)
          end
      end
  end.

(** ** The image *)

Record SixelImage := mkSixelImage { si_width : Z; si_height : Z; si_data : list Z }.

(** Width, logical height and physical height; [None] for an empty image and
    when a size does not fit its type. *)
Definition sixel_size (c : SixelCanvas) : option (Z * Z * Z) :=
  if bool_decide (sc_pixels c = ∅) && match sc_background c with Transparent => true | Opaque => false end
  then None
  else
    '(drawn_width, drawn_height) ←
      if bool_decide (sc_pixels c = ∅) then Some (0, 0)
      else (w ← checked_add u32_max (sc_max_x c) 1; h ← checked_add u32_max (sc_max_y c) 1; Some (w, h));
    let width := match sc_declared_width c with Some d => Z.max d drawn_width | None => drawn_width end in
    let logical_height :=
      match sc_declared_height c with Some d => Z.max d drawn_height | None => drawn_height end in
    let height := logical_height * sc_pixel_height_scale c in
    if (u32_max <? height) || (width =? 0) || (logical_height =? 0) || (height =? 0)
       || (usize_max <? width * height * 4)
    then None else Some (width, logical_height, height).

Definition color_bytes (c : Rgba8) : list Z := let '(r, g, b, a) := c in [r; g; b; a].

(** [usize::try_from((row * width + x) * 4)] in wrapping [u32] arithmetic. *)
Definition pixel_index (width x row : Z) : nat := Z.to_nat (((row * width + x) * 4) `mod` (u32_max + 1)).

(** [data[index..index + 4].copy_from_slice(&color)]. *)
Definition write_pixel (index : nat) (color : Rgba8) (data : list Z) : list Z :=
  take index data ++ color_bytes color ++ drop (index + 4) data.

(** The rows of one logical pixel that lie in the image. *)
Definition pixel_rows (height scale y : Z) : list Z :=
  filter (λ row, row < height) ((λ offset, y * scale + offset) <$> seqZ 0 scale).

Definition draw_pixels (width logical_height height scale : Z) (pixels : list ((Z * Z) * Rgba8))
    (data : list Z) : list Z :=
  foldl (λ data p,
    let '((x, y), color) := p in
    if (width <=? x) || (logical_height <=? y) then data
    else foldl (λ data row, write_pixel (pixel_index width x row) color data) data
           (pixel_rows height scale y)) data pixels.

Definition background_color (c : SixelCanvas) : Rgba8 :=
  match sc_background c with
  | Opaque => default (0, 0, 0, 255) (sc_palette c !! 0)
  | Transparent => (0, 0, 0, 0)
  end.

Definition into_image (c : SixelCanvas) : option SixelImage :=
  '(width, logical_height, height) ← sixel_size c;
  let data := mjoin (replicate (Z.to_nat (width * height)) (color_bytes (background_color c))) in
  Some (mkSixelImage width height
          (draw_pixels width logical_height height (sc_pixel_height_scale c) (map_to_list (sc_pixels c)) data)).

Definition parse_sixel_image (options : SixelOptions) (content : rstring) : option SixelImage :=
  into_image (sixel_loop 0 content (new_canvas options)).

(** ** The control string *)

Definition sixel_dcs_macro_pixel_height_scale (value : option Z) : Z :=
  match default 0 value with
  | 2 => 5
  | 3 | 4 => 3
  | 7 | 8 | 9 => 1
  | _ => 2
  end.

Definition parse_sixel_dcs_options (params : rstring) : SixelOptions :=
  let params := parse_sixel_numeric_params params in
  mkSixelOptions (if bool_decide (params !! 1%nat = Some 1) then Transparent else Opaque)
    (sixel_dcs_macro_pixel_height_scale (params !! 0%nat)).

(** The parameters in front of the first [q] and the data after it. *)
Definition sixel_dcs_parts (content : rstring) : option (rstring * rstring) :=
  '(params, data) ← split_once 113 content;
  if forallb is_param_char params
     && negb (bool_decide (parse_sixel_numeric_params params !! 0%nat = Some 1000))
  then Some (params, data) else None.
