(* ===== verification/ImageCalls.v ===== *)
(** The graphics code behind the screen ([rssh-terminal/src/parser.rs]): iTerm2
    inline files, sixel images and the resets, and the implementation of the
    interface [Graphics] by the functions of [Images], [Placements],
    [Placeholders], [Kitty] and [Sixel]. *)
From coqutil Require Import Datatypes.RecordSetters.
From S2P Require Import Prelude Text Grid Csi Parse Utf8 Feed Screen Scroll.
From S2P Require Import Images Placements Placeholders Kitty Sixel.
Import DoubleBraceUpdate.

Local Open Scope Z_scope.

(** ** Inline files *)

Record FileParams := mkFileParams {
  fp_inline : bool;
  fp_name : option rstring;
  fp_size : option Z;
  fp_width : option rstring;
  fp_height : option rstring;
  fp_preserve_aspect_ratio : option bool;
}.

#[export] Hint Extern 0 (@Setter FileParams _ ?getter) =>
  mk_setter (λ r, mkFileParams (fp_inline r) (fp_name r) (fp_size r) (fp_width r) (fp_height r)
      (fp_preserve_aspect_ratio r)) getter
  : typeclass_instances.

Section calls.
  Context `{Ext : External} `{Host : ImageHost}.

(** Base64 of UTF-8 text. *)
Definition decode_text (value : rstring) : option rstring :=
  bytes ← base64_decode value;
  match from_utf8 0 bytes with (cs, _, None) => Some cs | _ => None end.

Definition apply_file_param (key value : rstring) (p : FileParams) : FileParams :=
  let named (s : string) := bool_decide (key = lit s) in
  if named "inline" then p{{ fp_inline := bool_decide (value = lit "1") }}
  else if named "name" then p{{ fp_name := decode_text value }}
  else if named "size" then p{{ fp_size := parse_unsigned usize_max value }}
  else if named "width" then p{{ fp_width := Some value }}
  else if named "height" then p{{ fp_height := Some value }}
  else if named "preserveAspectRatio" then
    p{{ fp_preserve_aspect_ratio :=
          if bool_decide (value = lit "0") then Some false
          else if bool_decide (value = lit "1") then Some true else None }}
  else p.

Definition parse_file_params (params : rstring) : FileParams :=
  foldl (λ p param, match split_once 61 param with
                    | Some (key, value) => apply_file_param key value p
                    | None => p
                    end) (mkFileParams false None None None None None) (split_on 59 params).

Definition apply_osc1337_file (v : GraphicsView) (file : rstring) (g : ImageState) : ImageState :=
  match split_once 58 file with
  | None => g
  | Some (params, encoded_data) =>
      let p := parse_file_params params in
      if negb (fp_inline p) then g
      else
        match base64_decode encoded_data with
        | None => g
        | Some data =>
            let row := view_history_row v in
            let column := view_column v in
            let g := record_inline_image_damage_at v row column (fp_width p) (fp_height p) g in
            push_inline_image
              (mkImage row column (fp_name p) None None None (fp_size p) (fp_width p) (fp_height p)
                 (fp_preserve_aspect_ratio p) FormatEncoded None None None None None None None None data) g
        end
  end.

(** ** Sixel *)

Definition pixels_text (n : Z) : rstring := show_unsigned n ++ lit "px".

(** The placement of a decoded image; the line feed after it and the cursor
    movement are the caller's. *)
Definition apply_sixel_content (v : GraphicsView) (options : SixelOptions) (content : rstring)
    (g : ImageState) : ImageState :=
  match parse_sixel_image options content with
  | None => g
  | Some image =>
      let width := pixels_text (si_width image) in
      let height := pixels_text (si_height image) in
      let '(row, column) :=
        if view_sixel_display_mode v then ((visible_history_rows v).1, 0)
        else (view_history_row v, view_column v) in
      let g := record_inline_image_damage_at v row column (Some width) (Some height) g in
      let g := push_inline_image
                 (mkImage row column None None None None (Some (Z.of_nat (length (si_data image))))
                    (Some width) (Some height) None FormatRgba (Some (si_width image))
                    (Some (si_height image)) None None None None None None (si_data image)) g in
      g{{ cursor_cells := Some (Z.to_nat (inline_image_width_cells (Some width)), 0%nat) }}
  end.

Definition apply_sixel_dcs (v : GraphicsView) (content : rstring) (g : ImageState) : ImageState :=
  match sixel_dcs_parts content with
  | Some (params, data) => apply_sixel_content v (parse_sixel_dcs_options params) data g
  | None => g
  end.

(** ** Resets *)

Definition clear_placeholders (s : ScreenImages) : ScreenImages :=
  s{{ last_kitty_placeholder := None; kitty_placeholder_cells := ∅ }}.

(** The graphics part of [apply_main_reflow_outcome] on the active screen. *)
Definition retire_reflow_globals (g : ImageState) : ImageState :=
  g{{ images := clear_placeholders (clear_inline_images (images g));
      shared_images -> pending_kitty_placeholder := None;
      shared_images -> kitty_relative_parents := ∅;
      shared_images -> kitty_virtual_placements := ∅ }}.

Definition clear_kitty_graphics (g : ImageState) : ImageState :=
  let g := retain_inline_images (λ image, bool_decide (im_kitty_image_id image = None)) g in
  g{{ shared_images -> pending_kitty_graphics := None;
      shared_images -> kitty_images := ∅;
      shared_images -> kitty_image_numbers := ∅;
      shared_images -> kitty_relative_parents := ∅;
      shared_images -> kitty_virtual_placements := ∅;
      shared_images -> pending_kitty_placeholder := None;
      images := clear_placeholders ((images g){{ kitty_character_edited_placements := ∅ }}) }}.

(** The graphics part of [reset_terminal] and
    [erase_scrollback_and_viewport]. *)
Definition reset_graphics (g : ImageState) : ImageState :=
  g{{ images := clear_placeholders (clear_inline_images (images g));
      shared_images -> pending_kitty_graphics := None;
      shared_images -> kitty_images := ∅;
      shared_images -> kitty_image_numbers := ∅;
      shared_images -> kitty_relative_parents := ∅;
      shared_images -> kitty_virtual_placements := ∅;
      shared_images -> pending_kitty_placeholder := None;
      shared_images -> next_kitty_image_id := 1 }}.

(** ** The interface *)

Definition on_images (f : ScreenImages → ScreenImages) (g : ImageState) : ImageState :=
  g{{ images := f (images g) }}.

(** The function behind each call, with its flag. *)
Definition image_call (c : GraphicsCall) (v : GraphicsView) (g : ImageState) : bool * ImageState :=
  match c with
  | FinishPendingPlaceholder => (false, finish_pending_kitty_placeholder v g)
  | ApplyPlaceholderDiacritic ch => apply_kitty_placeholder_diacritic v ch g
  | StartPlaceholder row column foreground underline_color =>
      (false, start_placeholder (Z.of_nat row) (Z.of_nat column) foreground underline_color g)
  | ForgetLastPlaceholder => (false, g{{ images -> last_kitty_placeholder := None }})
  | ClearPlaceholderCells row column width =>
      (false, clear_kitty_placeholder_cells (Z.of_nat row) (Z.of_nat column) (Z.of_nat width) g)
  | ClearInlineImages => (false, on_images clear_inline_images g)
  | ClearPlaceholders => (false, on_images clear_placeholders g)
  | DeleteOrphanRelativeChildren => (false, delete_orphan_kitty_relative_children g)
  | DeleteVisibleInlineImages => (false, delete_visible_inline_images v g)
  | RebaseAfterHistoryPrune rows => (false, on_images (rebase_image_and_placeholder_metadata (Z.of_nat rows)) g)
  | RetainEditedPlacements => (false, retain_edited g)
  | ScrollImagesDown top bottom count => (false, scroll_inline_images_down_region v top bottom count g)
  | ScrollPlaceholdersDown top bottom count =>
      (false, on_images (scroll_kitty_placeholder_cells_down_region v top bottom count) g)
  | ScrollImagesUp top bottom count => (false, scroll_inline_images_up_region v top bottom count g)
  | ScrollPlaceholdersUp top bottom count =>
      (false, on_images (scroll_kitty_placeholder_cells_up_region v top bottom count) g)
  | DropImagesCrossing boundary => (false, drop_inline_images_crossing_history_boundary (Z.of_nat boundary) g)
  | ShiftSuffixMetadata suffix_start rows =>
      (false, on_images (shift_image_and_placeholder_suffix_metadata (Z.of_nat suffix_start) (Z.of_nat rows)) g)
  | RetireGraphics top bottom first last => retire_graphics_in_bounded_scroll_region v top bottom first last g
  | RetireMalformedGraphics top bottom first last =>
      retire_malformed_graphics_in_bounded_scroll_region v top bottom first last g
  | ApplyCellTransform transform => apply_cell_transform transform g
  | TransformPlaceholders transform =>
      (false, transform_kitty_placeholder_state_for_character_edit transform g)
  | RetireReflowCoordinates => (false, on_images (λ s, clear_placeholders (clear_inline_images s)) g)
  | RetireReflowGlobals => (false, retire_reflow_globals g)
  | ClearKittyGraphics => (false, clear_kitty_graphics g)
  | ResetGraphics => (false, reset_graphics g)
  | KittyCommand graphics => (false, apply_kitty_graphics v graphics g)
  | SixelContent content => (false, apply_sixel_dcs v content g)
  | InlineFile file => (false, apply_osc1337_file v file g)
  end.

#[export] Instance rterm_graphics : Graphics := {|
  screen_graphics := ScreenImages;
  shared_graphics := SharedImages;
  no_images := no_screen_images;
  graphics_call c v k s d :=
    let '(flag, g) := image_call c v (mkImageState k s d [] None) in
    (mkReply flag (marked g) (cursor_cells g), shared_images g, images g, dormant g);
|}.

End calls.

(** The graphics fields of a new terminal. *)
Definition new_shared_images : SharedImages := mkShared 1 [] None ∅ ∅ ∅ ∅ None 1 true.
