(* ===== verification/Edit.v ===== *)
(** Writing and erasing cells ([rssh-terminal/src/parser.rs]): character
    widths, insertion and deletion of characters, erasing, and [write_char]
    with grapheme extension. *)
From coqutil Require Import Datatypes.RecordSetters.
From S2P Require Import Prelude Text Grid Csi Reflow Utf8 Feed Screen Scroll.
Import DoubleBraceUpdate.

(** ** Widths *)

Definition WIDENED_IN_UNICODE9 : list (Z * Z) :=
  [(8986, 8987); (9193, 9196); (9200, 9200); (9203, 9203); (9725, 9726); (9748, 9749);
   (9800, 9811); (9855, 9855); (9875, 9875); (9889, 9889); (9898, 9899); (9917, 9918);
   (9924, 9925); (9934, 9934); (9940, 9940); (9962, 9962); (9970, 9971); (9973, 9973);
   (9978, 9978); (9981, 9981); (9989, 9989); (9994, 9995); (10024, 10024); (10060, 10060);
   (10062, 10062); (10067, 10069); (10071, 10071); (10133, 10135); (10160, 10160);
   (10175, 10175); (11035, 11036); (11088, 11088); (11093, 11093); (126980, 126980);
   (127183, 127183); (127374, 127374); (127377, 127386); (127489, 127489); (127514, 127514);
   (127535, 127535); (127538, 127542); (127544, 127546); (127568, 127569); (127744, 127776);
   (127789, 127797); (127799, 127868); (127870, 127891); (127904, 127946); (127951, 127955);
   (127968, 127984); (127988, 127988); (127992, 128062); (128064, 128064); (128066, 128252);
   (128255, 128317); (128331, 128334); (128336, 128359); (128405, 128406); (128507, 128591);
   (128640, 128709); (128716, 128716); (128720, 128720); (128747, 128748); (129296, 129304);
   (129408, 129412); (129472, 129472)]%Z.

(** [binary_search_by(..).is_ok()] of a sorted table is membership. *)
Definition is_widened_in_unicode9 (c : Z) : bool :=
  existsb (λ r, (fst r <=? c)%Z && (c <=? snd r)%Z) WIDENED_IN_UNICODE9.

Definition override_contains (o : CellWidthOverride) (c : Z) : bool :=
  (ov_first o <=? c)%Z && (c <=? ov_last o)%Z.

Definition u16_display_width (width : nat) : nat := width `min` Z.to_nat u16_max.

Definition is_unicode_presentation_selector (c : Z) : bool := (c =? 65038)%Z || (c =? 65039)%Z.

Definition UNICODE_PRESENTATION_SELECTOR_VERSION : Z := 14.

Definition may_extend_previous_grapheme (previous_text : rstring) (ch : Z) : bool :=
  negb (forallb is_ascii previous_text && is_ascii ch).

Definition map_dec_special_graphics (ch : Z) : Z :=
  match ch with
  | 96 => 9670 | 97 => 9618 | 106 => 9496 | 107 => 9488 | 108 => 9484 | 109 => 9492
  | 110 => 9532 | 111 => 9146 | 112 => 9147 | 113 => 9472 | 114 => 9148 | 115 => 9149
  | 116 => 9500 | 117 => 9508 | 118 => 9524 | 119 => 9516 | 120 => 9474 | 126 => 183
  | _ => ch
  end%Z.

(** [char::encode_utf8] is not needed: a [SmolStr] is its characters. *)

Section widths.
  Context `{Ext : External}.

Definition find_override (overrides : list CellWidthOverride) (c : Z) : option nat :=
  ov_width <$> find (λ o, override_contains o c) overrides.

Definition display_width (ch : Z) (unicode_version : Z) (wide : bool)
    (overrides : list CellWidthOverride) : nat :=
  match find_override overrides ch with
  | Some w => w
  | None =>
      if (unicode_version <=? 8)%Z && is_widened_in_unicode9 ch then 1
      else match char_width wide ch with
           | Some 0 => 0
           | Some w => u16_display_width w
           | None => 1
           end
  end.

Definition grapheme_display_width (grapheme : rstring) (unicode_version : Z) (wide : bool)
    (overrides : list CellWidthOverride) : nat :=
  match grapheme with
  | [] => 0
  | ch :: _ =>
      match find_override overrides ch with
      | Some w => w
      | None =>
          if (unicode_version <=? 8)%Z && is_widened_in_unicode9 ch then 1
          else u16_display_width (str_width wide grapheme)
      end
  end.
End widths.

Section edit.
  Context `{Ext : External} `{Gfx : Graphics}.
  Abbreviation TM := (M Empty_set Terminal).
  Implicit Types (t : Terminal) (s : ScreenState).

Definition width_of (ch : Z) t : nat :=
  display_width ch (unicode_version t) (ambiguous_width_as_wide t) (cell_width_overrides t).
Definition grapheme_width_of (g : rstring) t : nat :=
  grapheme_display_width g (unicode_version t) (ambiguous_width_as_wide t) (cell_width_overrides t).

Definition map_graphic_character (ch : Z) s : Z :=
  match character_set s with Ascii => ch | DecSpecialGraphics => map_dec_special_graphics ch end.

(** ** Character edits *)

Definition prepare_bounded_character_edit_attachments (right : nat)
    (transform : option CellTransform) t : (bool * bool) * Terminal :=
  let s := active t in
  let bounded := bool_decide (is_Some (Screen.bounded_horizontal_scroll_columns s)) in
  match transform, bounded with
  | Some transform, true =>
      let t := call (TransformPlaceholders transform) t in
      let '(graphics_retired, t) :=
        call_flag (RetireMalformedGraphics (cursor_row s) (cursor_row s) (cursor_column s) right) t in
      let '(overflow, t) := call_flag (ApplyCellTransform transform) t in
      ((graphics_retired, overflow), t)
  | _, true =>
      let '(graphics_retired, t) :=
        call_flag (RetireGraphics (cursor_row s) (cursor_row s) (cursor_column s) right) t in
      ((graphics_retired, false), t)
  | _, false => ((false, false), t)
  end.

(** The cells [first..last] of a row moved by [shift], one by one in the
    given order. *)
Definition move_cells (seqno : Z) (row : nat) (columns : list nat) (source target : nat → nat) s :
    ScreenState :=
  foldl (λ s column,
    let cell := default Cell.default (TerminalGrid.get row (source column) (grid s)) in
    (Screen.set_grid_cell seqno row (target column) cell s).2) s columns.

Definition fill_blank (seqno : Z) (row : nat) (columns : list nat) s : ScreenState :=
  foldl (λ s column, (Screen.set_grid_cell seqno row column (Screen.blank_cell s) s).2) s columns.

(** The tail of both character edits. *)
Definition finish_character_edit (right : nat) (flags : bool * bool) t : Terminal :=
  let s := active t in
  let t := record_damage (mkDamage (cursor_column s) (cursor_row s) (right - cursor_column s + 1) 1) t in
  if flags.1 || flags.2 then damage_screen t else t.

Definition insert_blank_characters_with_right_boundary (count right : nat)
    (transform_attachments : bool) t : Terminal :=
  let s := active t in
  if decide (Screen.rows s ≤ cursor_row s ∨ Screen.columns s ≤ cursor_column s ∨
             right < cursor_column s ∨ count = 0) then t
  else
    let row := cursor_row s in
    let column := cursor_column s in
    let count := count `min` (right - column + 1) in
    let '(flags, t) :=
      prepare_bounded_character_edit_attachments right
        (if transform_attachments then Some (TInsertCharacters (history_len t + row) column count right)
         else None) t in
    let shift_end := right + 1 - count in
    let t := on_active (λ s,
      let s := move_cells (seqno t) row (rev (seq column (shift_end - column)))
                 (λ c, c) (λ c, c + count) s in
      let s := fill_blank (seqno t) row (seq column count) s in
      Screen.sanitize_grapheme_spans (seqno t) row s) t in
    finish_character_edit right flags t.

Definition insert_blank_characters (count : nat) t : Terminal :=
  let t := t{{ active -> pending_wrap := false }} in
  let s := active t in
  if negb (Screen.cursor_within_horizontal_margins s) || negb (Screen.cursor_within_vertical_margins s)
  then t
  else
    let right := Screen.character_right_boundary s in
    let t := t{{ active -> cursor_column := Screen.grapheme_leader_column (cursor_column s) s }} in
    insert_blank_characters_with_right_boundary count right true t.

Definition insert_blank_characters_for_write (count : nat) t : Terminal :=
  let s := active t in
  let right := Screen.character_right_boundary s in
  let t := t{{ active -> cursor_column := Screen.grapheme_leader_column (cursor_column s) s }} in
  insert_blank_characters_with_right_boundary count right false t.

(** The [while column < end && column <= right] of
    [grapheme_aligned_delete_range]; [None] is running out of fuel, which
    this loop can do. *)
Fixpoint delete_range_loop (fuel : nat) (right column finish : nat) s : option nat :=
  if decide (column < finish ∧ column ≤ right) then
    match fuel with
    | O => None
    | S fuel =>
        match TerminalGrid.get (cursor_row s) column (grid s) with
        | None => Some finish
        | Some cell =>
            match content cell with
            | Continuation leader_delta =>
                delete_range_loop fuel right (column - Z.to_nat leader_delta) finish s
            | _ =>
                let width := Screen.cell_width cell in
                delete_range_loop fuel right (sat_add column width)
                  (finish `max` (sat_add column width `min` sat_add right 1)) s
            end
        end
    end
  else Some finish.

Definition grapheme_aligned_delete_range (fuel count right : nat) s : option (nat * nat) :=
  let requested_start := cursor_column s in
  let requested_end := sat_add requested_start count `min` sat_add right 1 in
  let start := Screen.grapheme_leader_column requested_start s in
  finish ← delete_range_loop fuel right start (requested_end `max` start) s;
  Some (start, finish - start).

Definition delete_characters_with_right_boundary (count right : nat) t : Terminal :=
  let s := active t in
  if decide (Screen.rows s ≤ cursor_row s ∨ Screen.columns s ≤ cursor_column s ∨
             right < cursor_column s ∨ count = 0) then t
  else
    let row := cursor_row s in
    let column := cursor_column s in
    let count := count `min` (right - column + 1) in
    let '(flags, t) :=
      prepare_bounded_character_edit_attachments right
        (Some (TDeleteCharacters (history_len t + row) column count right)) t in
    let shift_end := right + 1 - count in
    let t := on_active (λ s,
      let s := move_cells (seqno t) row (seq column (shift_end - column)) (λ c, c + count) (λ c, c) s in
      let s := fill_blank (seqno t) row (seq shift_end (right + 1 - shift_end)) s in
      Screen.sanitize_grapheme_spans (seqno t) row s) t in
    finish_character_edit right flags t.

(** Enough rounds for every row whose graphemes are whole; a [Panic] is the
    loop not ending. *)
Definition delete_fuel s : nat := 2 * Screen.columns s + 2.

Definition delete_characters (count : nat) : TM () :=
  modify (λ t, t{{ active -> pending_wrap := false }});;
  t ← get_state;
  let s := active t in
  if negb (Screen.cursor_within_horizontal_margins s) then mret ()
  else
    let right := Screen.character_right_boundary s in
    '(start, count) ← expect (grapheme_aligned_delete_range (delete_fuel s) count right s);
    modify (λ t, delete_characters_with_right_boundary count right
                   (t{{ active -> cursor_column := start }})).

Definition erase_characters (count : nat) t : Terminal :=
  let t := t{{ active -> pending_wrap := false }} in
  let s := active t in
  if decide (Screen.rows s ≤ cursor_row s ∨ Screen.columns s ≤ cursor_column s ∨ count = 0) then t
  else
    let count := count `min` (Screen.columns s - cursor_column s) in
    let t := on_active (λ s,
      Screen.sanitize_grapheme_spans (seqno t) (cursor_row s)
        (fill_blank (seqno t) (cursor_row s) (seq (cursor_column s) count) s)) t in
    record_damage (mkDamage (cursor_column s) (cursor_row s) count 1) t.

(** ** Erasing *)

Definition clear_cell (selective : bool) (row source_row column : nat) t : Terminal :=
  if selective && match TerminalGrid.get row column (grid (active t)) with
                  | Some cell => protected cell
                  | None => false
                  end
  then t
  else
    let t := if selective then call (ClearPlaceholderCells source_row column 1) t else t in
    on_active (λ s, (Screen.set_grid_cell (seqno t) row column (Screen.blank_cell s) s).2) t.

Definition clear_cells (row start_column end_column : nat) (selective : bool) t : Terminal :=
  let columns := Screen.columns (active t) in
  if decide (Screen.rows (active t) ≤ row ∨ columns ≤ start_column) then t
  else
    let end_column := end_column `min` columns in
    if decide (end_column ≤ start_column) then t
    else
      let source_row := history_len t + row in
      let t := if selective then t
               else call (ClearPlaceholderCells source_row start_column (end_column - start_column)) t in
      let t := foldl (λ t column, clear_cell selective row source_row column t) t
                 (seq start_column (end_column - start_column)) in
      let t := on_active (Screen.sanitize_grapheme_spans (seqno t) row) t in
      let t := if decide (start_column = 0 ∧ columns ≤ end_column)
               then on_active (Screen.set_grid_row_wrapped (seqno t) row false) t else t in
      record_damage (mkDamage start_column row (end_column - start_column) 1) t.

Definition clear_rows (rows : list nat) (selective : bool) t : Terminal :=
  foldl (λ t row, clear_cells row 0 (Screen.columns (active t)) selective t) t rows.

Definition erase_display (mode : Z) (selective : bool) : TM () :=
  t ← get_state;
  let s := active t in
  let size := screen_size t in
  if (mode =? 3)%Z then prune_scrollback_rows (history_len t)
  else if decide (size_rows size = 0 ∨ size_columns size = 0) then mret ()
  else if (mode =? 0)%Z then
    modify (λ t, clear_rows (seq (cursor_row s + 1) (size_rows size - (cursor_row s + 1))) selective
      (clear_cells (cursor_row s) (cursor_column s) (size_columns size) selective t))
  else if (mode =? 1)%Z then
    modify (λ t, clear_cells (cursor_row s) 0 (sat_add (cursor_column s) 1 `min` size_columns size)
      selective (clear_rows (seq 0 (cursor_row s)) selective t))
  else if (mode =? 2)%Z then
    (if selective then mret () else bump_screen_identity_generation);;
    modify (λ t, let t := clear_rows (seq 0 (size_rows size)) selective t in
                 if selective then t else call DeleteVisibleInlineImages t)
  else mret ().

Definition erase_line (mode : Z) (selective : bool) t : Terminal :=
  let s := active t in
  let columns := Screen.columns s in
  if decide (Screen.rows s ≤ cursor_row s ∨ columns = 0) then t
  else if (mode =? 0)%Z then clear_cells (cursor_row s) (cursor_column s) columns selective t
  else if (mode =? 1)%Z
  then clear_cells (cursor_row s) 0 (sat_add (cursor_column s) 1 `min` columns) selective t
  else if (mode =? 2)%Z then clear_cells (cursor_row s) 0 columns selective t
  else t.

(** ** Writing *)

(** The continuation cells [first..last] of a grapheme. *)
Definition continuations (base : Cell) (first last : nat) : list Cell :=
  (λ offset, Cell.set_continuation (saturating_u8 (Z.of_nat offset)) base)
    <$> seq first (last - first).

Definition write_continuations (seqno : Z) (row column : nat) (base : Cell) (first last : nat) s :
    ScreenState :=
  foldl (λ s offset,
    (Screen.set_grid_cell seqno row (column + offset)
       (Cell.set_continuation (saturating_u8 (Z.of_nat offset)) base) s).2)
    s (seq first (last - first)).

(** Whether the character joins the grapheme written last; [Some] is the
    leader's position with the joined text. *)
Definition joins_previous (ch : Z) s : option (nat * nat * Cell * rstring) :=
  '(row, column) ← nfc_last_printable_cell s;
  previous_cell ← TerminalGrid.get row column (grid s);
  if bool_decide (Cell.primary_char previous_cell = KITTY_UNICODE_PLACEHOLDER)
     || Cell.is_continuation previous_cell || Cell.is_blank previous_cell
     || negb (may_extend_previous_grapheme (Cell.text previous_cell) ch)
  then None
  else
    let grapheme := Cell.text previous_cell ++ [ch] in
    if bool_decide (grapheme_count grapheme = 1) then Some (row, column, previous_cell, grapheme)
    else None.

(** The cells of the grapheme at its new width. *)
Definition rewrite_grapheme (seqno : Z) (row column : nat) (previous_cell : Cell)
    (grapheme : rstring) (previous_width sequence_width visible_width : nat) s : ScreenState :=
  let leader := Cell.set_text grapheme (saturating_u8 (Z.of_nat sequence_width)) previous_cell in
  let s := (Screen.set_grid_cell seqno row column leader s).2 in
  let s := if decide (previous_width < visible_width)
           then write_continuations seqno row column previous_cell previous_width visible_width s
           else foldl (λ s offset,
                  (Screen.set_grid_cell seqno row (column + offset) (Screen.blank_cell s) s).2)
                  s (seq visible_width (previous_width - visible_width)) in
  let overflow := if decide (visible_width < sequence_width)
                  then continuations previous_cell visible_width sequence_width else [] in
  s{{ grid := TerminalGrid.set_reflow_overflow row overflow (grid s) }}.

Definition extend_previous_grapheme (ch : Z) t : bool * Terminal :=
  let s := active t in
  match joins_previous ch s with
  | None => (false, t)
  | Some (row, column, previous_cell, grapheme) =>
      let previous_width := Z.to_nat (Cell.columns previous_cell) in
      let sequence_width := grapheme_width_of grapheme t in
      if decide (previous_width = 0 ∨ sequence_width = 0) then (true, t)
      else
        let boundary := Screen.character_right_boundary s in
        let expected_cursor := sat_add column previous_width `min` boundary in
        if decide (cursor_row s ≠ row ∨ cursor_column s ≠ expected_cursor) then (true, t)
        else
          let available_width := sat_add boundary 1 - column in
          let visible_width := (sequence_width `min` available_width) `max` 1 in
          let t := on_active (rewrite_grapheme (seqno t) row column previous_cell grapheme
                     previous_width sequence_width visible_width) t in
          let t := record_damage
                     (mkDamage column row ((previous_width `min` available_width) `max` visible_width) 1) t in
          (true, on_active (λ s,
             let s := Screen.advance_cursor visible_width
                        (s{{ cursor_column := column; pending_wrap := false }}) in
             s{{ last_printable := Some grapheme }}) t)
  end.

(** The cells of a new character at the cursor. *)
Definition put_character (ch : Z) (width write_width : nat) t : Terminal :=
  let s := active t in
  let row := cursor_row s in
  let column := cursor_column s in
  let t := on_active (λ s,
    foldl (λ s target, Screen.clear_grapheme_span_at (seqno t) row target s) s
      (seq column (sat_add column write_width - column))) t in
  let history_row := history_len t + row in
  let cell := Cell.set_text [ch] (saturating_u8 (Z.of_nat width)) (style (active t)) in
  let '(ok, s) := Screen.set_grid_cell (seqno t) row column cell (active t) in
  if ok then
    let t := call (ClearPlaceholderCells history_row column write_width) (t{{ active := s }}) in
    let t := on_active (λ s,
      let s := write_continuations (seqno t) row column (style s) 1 write_width s in
      if decide (write_width < width)
      then s{{ grid := TerminalGrid.set_reflow_overflow row
                         (continuations (style s) write_width width) (grid s) }}
      else s) t in
    let t := record_damage (mkDamage column row write_width 1) t in
    let t := on_active (λ s,
      (Screen.advance_cursor write_width s)
        {{ last_printable := Some [ch]; nfc_last_printable_cell := Some (row, column) }}) t in
    if bool_decide (ch = KITTY_UNICODE_PLACEHOLDER)
    then call (StartPlaceholder history_row column (foreground (style (active t)))
                 (underline_color (style (active t)))) t
    else call ForgetLastPlaceholder t
  else t.

Definition write_char (ch : Z) : TM () :=
  t ← get_state;
  let ch := map_graphic_character ch (active t) in
  if is_unicode_presentation_selector ch
     && (unicode_version t <? UNICODE_PRESENTATION_SELECTOR_VERSION)%Z then mret ()
  else
    let '(is_diacritic, t) := call_flag (ApplyPlaceholderDiacritic ch) t in
    if (is_diacritic : bool) then put_state t
    else
      let '(extended, t) := extend_previous_grapheme ch t in
      if (extended : bool) then put_state t
      else
        let t := call FinishPendingPlaceholder t in
        let width := width_of ch t `min` 255 in
        if decide (width = 0) then put_state t
        else
          put_state t;;
          (if pending_wrap (active t) && auto_wrap (modes (active t)) then wrapped_newline
           else modify (λ t, t{{ active -> pending_wrap := false }}));;
          t ← get_state;
          (if bool_decide (Screen.columns (active t) < sat_add (cursor_column (active t)) width)
              && auto_wrap (modes (active t)) then wrapped_newline else mret ());;
          t ← get_state;
          let s := active t in
          if decide (Screen.rows s ≤ cursor_row s ∨ Screen.columns s ≤ cursor_column s ∨
                     Screen.columns s = 0) then mret ()
          else
            let write_width := width `min` (Screen.columns s - cursor_column s) in
            modify (λ t,
              let t := match write_mode (modes (active t)) with
                       | InsertMode => insert_blank_characters_for_write write_width t
                       | ReplaceMode => t
                       end in
              put_character ch width write_width t).

Definition repeat_previous_character (count : nat) : TM () :=
  t ← get_state;
  match last_printable (active t) with
  | None => mret ()
  | Some grapheme =>
      iterM (λ _,
        modify (λ t, t{{ active -> nfc_last_printable_cell := None }});;
        iterM write_char grapheme) (seq 0 count)
  end.

End edit.
