(* ===== verification/Control.v ===== *)
(** Control functions of the terminal ([rssh-terminal/src/parser.rs]): modes,
    the alternate screen, resizing, resets, CSI and OSC dispatch, and the
    terminal as the performer behind the feed layer. *)
From coqutil Require Import Datatypes.RecordSetters.
From S2P Require Import Prelude Text Grid Csi Parse Reflow Utf8 Feed Screen Scroll Edit.
Import DoubleBraceUpdate.

Definition DEFAULT_SCROLLBACK_LIMIT : nat := 3500.
Definition DEFAULT_UNICODE_VERSION : Z := 9.

Inductive TerminalResizeOutcome :=
| Unchanged | PhysicalResize | MainScreenReflowed | AlternateScreenResized.

Section control.
  Context `{Ext : External} `{Gfx : Graphics}.
  Abbreviation TM := (M Empty_set Terminal).
  Implicit Types (t : Terminal) (s : ScreenState).

(** ** Construction *)

Definition new_screen (size : TerminalSize) (seqno : Z) (modes : TerminalModes) : ScreenState :=
  mkScreen (TerminalGrid.new_with_seqno size seqno) no_images 0 0 false false None None None modes
    0 (size_rows size - 1) 0 (size_columns size - 1) Ascii Cell.default.

Definition new_with_default_cursor_style (size : TerminalSize) (cursor_style : CursorStyle)
    (graphics_state : shared_graphics) : Terminal :=
  mkTerminal (new_screen size 1 (modes_with_cursor_style cursor_style)) None (mkHistoryBuffer [])
    DEFAULT_SCROLLBACK_LIMIT 1 0 0 None None None [] None None ∅
    (mkMetadataChanges false false false []) graphics_state [] [] cursor_style
    (TabStops.new size) [] 0 [] false [] DEFAULT_UNICODE_VERSION [] 0 0.

(** ** Modes *)

Definition apply_default_cursor_style t : Terminal :=
  t{{ active -> modes -> cursor_shape := cursor_style_shape (default_cursor_style t);
      active -> modes -> cursor_blinking := cursor_style_blinking (default_cursor_style t) }}.

Definition set_default_cursor_style (cursor_style : CursorStyle) t : Terminal :=
  apply_default_cursor_style (t{{ default_cursor_style := cursor_style }}).

Definition set_screen_reverse_video (enabled : bool) t : Terminal :=
  if bool_decide (screen_reverse (modes (active t)) = enabled) then t
  else damage_screen (t{{ active -> modes -> screen_reverse := enabled }}).

Definition set_cursor_shape (params : rstring) t : Terminal :=
  match strip_suffix [32%Z] params with
  | None => t
  | Some params =>
      let value := csi_mode params in
      if (value =? 0)%Z then apply_default_cursor_style t
      else
        let m := modes (active t) in
        t{{ active -> modes -> cursor_shape :=
              if in_range 1 2 value then CursorBlock
              else if in_range 3 4 value then CursorUnderline
              else if in_range 5 6 value then CursorBar else cursor_shape m;
            active -> modes -> cursor_blinking :=
              if ((value =? 1) || (value =? 3) || (value =? 5))%Z then true
              else if ((value =? 2) || (value =? 4) || (value =? 6))%Z then false
              else cursor_blinking m }}
  end.

Definition set_character_protection (params : rstring) t : Terminal :=
  match strip_suffix [34%Z] params with
  | None => t
  | Some params => t{{ active -> style -> protected := (csi_mode params =? 1)%Z }}
  end.

(** ** The alternate screen *)

Definition screen_state t : ScreenState := active t.

Definition restore_screen_state (screen : ScreenState) t : Terminal :=
  on_active Screen.clamp_to_size (t{{ active := screen }}).

Definition set_alternate_screen (enabled : bool) : TM () :=
  t ← get_state;
  match enabled, main_screen t with
  | true, Some _ => mret ()
  | true, None =>
      bump_screen_identity_generation;;
      modify (λ t,
        let size := screen_size t in
        let t := t{{ main_screen := Some (screen_state t);
                     active -> grid := TerminalGrid.new_with_seqno size (seqno t) }} in
        let t := call ClearPlaceholders (call ClearInlineImages t) in
        let t := on_active (λ s,
          s{{ cursor_row := 0; cursor_column := 0; pending_wrap := false;
              last_printable := None; nfc_last_printable_cell := None; saved_cursor := None;
              modes -> cursor_visible := true; modes -> origin_mode := false;
              modes -> left_right_margin_mode := false;
              scroll_top := 0; scroll_bottom := size_rows size - 1;
              left_margin := 0; right_margin := size_columns size - 1 }}) t in
        damage_screen t)
  | false, None => mret ()
  | false, Some screen =>
      modify (λ t, t{{ main_screen := None }});;
      bump_screen_identity_generation;;
      modify (λ t, damage_screen (call DeleteOrphanRelativeChildren (restore_screen_state screen t)))
  end.

(** ** Mode sequences *)

Definition set_standard_mode (params : rstring) (enabled : bool) t : Terminal :=
  foldl (λ t value, if (value =? 4)%Z then on_active (Screen.set_insert_mode enabled) t else t)
    t (parse_csi_params params).

Definition set_private_mode_value (enabled : bool) (value : Z) : TM () :=
  if (value =? 5)%Z then modify (set_screen_reverse_video enabled)
  else if (value =? 6)%Z then modify (on_active (Screen.set_origin_mode enabled))
  else if (value =? 7)%Z then modify (on_active (Screen.set_auto_wrap enabled))
  else if (value =? 12)%Z then modify (λ t, t{{ active -> modes -> cursor_blinking := enabled }})
  else if (value =? 25)%Z then modify (λ t, t{{ active -> modes -> cursor_visible := enabled }})
  else if (value =? 45)%Z then modify (λ t, t{{ active -> modes -> reverse_wrap := enabled }})
  else if (value =? 69)%Z then modify (on_active (Screen.set_left_right_margin_mode enabled))
  else if (value =? 80)%Z then modify (λ t, t{{ active -> modes -> sixel_display_mode := enabled }})
  else if (value =? 8452)%Z then modify (λ t, t{{ active -> modes -> sixel_scrolls_right := enabled }})
  else if ((value =? 47) || (value =? 1047) || (value =? 1049))%Z then set_alternate_screen enabled
  else if (value =? 1048)%Z
  then modify (on_active (if enabled then Screen.save_cursor else Screen.restore_cursor))
  else mret ().

Definition set_private_mode (params : rstring) (enabled : bool) : TM () :=
  match parse_private_csi_params params with
  | None => mret ()
  | Some values => iterM (set_private_mode_value enabled) values
  end.

Definition set_mode (params : rstring) (enabled : bool) : TM () :=
  if bool_decide (head params = Some 63%Z) then set_private_mode params enabled
  else modify (set_standard_mode params enabled).

(** ** Resets *)

Definition reset_terminal : TM () :=
  bump_screen_identity_generation;;
  t ← get_state;
  let size := screen_size t in
  prune_scrollback_rows (history_len t);;
  modify (λ t, t{{ active -> grid := TerminalGrid.new_with_seqno size (seqno t) }});;
  modify (call ResetGraphics);;
  modify (λ t,
    damage_screen (t{{ semantic_prompt_rows := []; semantic_command_exits := [];
      main_screen := None;
      tab_stops := TabStops.new size;
      active -> cursor_row := 0; active -> cursor_column := 0; active -> pending_wrap := false;
      active -> clear_semantic_type_on_movement := false; active -> last_printable := None;
      active -> nfc_last_printable_cell := None; active -> saved_cursor := None;
      active -> modes := modes_with_cursor_style (default_cursor_style t);
      active -> scroll_top := 0; active -> scroll_bottom := size_rows size - 1;
      active -> left_margin := 0; active -> right_margin := size_columns size - 1;
      active -> character_set := Ascii; active -> style := Cell.default }})).

Definition soft_reset_terminal : TM () :=
  set_alternate_screen false;;
  modify (λ t,
    let size := screen_size t in
    let t := t{{ active -> modes -> write_mode := ReplaceMode;
                 active -> modes -> origin_mode := false; active -> modes -> auto_wrap := true;
                 active -> modes -> left_right_margin_mode := false;
                 active -> modes -> reverse_wrap := false;
                 active -> modes -> screen_reverse := false;
                 active -> modes -> cursor_visible := true; active -> style := Cell.default }} in
    let t := call ClearKittyGraphics t in
    damage_screen (t{{ active -> scroll_top := 0; active -> scroll_bottom := size_rows size - 1;
      active -> left_margin := 0; active -> right_margin := size_columns size - 1;
      active -> character_set := Ascii; active -> saved_cursor := None;
      active -> pending_wrap := false; active -> clear_semantic_type_on_movement := false;
      active -> last_printable := None; active -> nfc_last_printable_cell := None }})).

Definition alignment_row (seqno : Z) (columns : nat) (row : nat) s : ScreenState :=
  Screen.set_grid_row_wrapped seqno row false
    (foldl (λ s column, (Screen.set_grid_cell seqno row column (Cell.with_char 69) s).2)
       s (seq 0 columns)).

Definition screen_alignment_test t : Terminal :=
  let size := screen_size t in
  let t := t{{ active -> modes -> origin_mode := false;
               active -> scroll_top := 0; active -> scroll_bottom := size_rows size - 1;
               active -> left_margin := 0; active -> right_margin := size_columns size - 1;
               active -> cursor_row := 0; active -> cursor_column := 0;
               active -> pending_wrap := false;
               active -> clear_semantic_type_on_movement := false }} in
  if decide (size_rows size = 0 ∨ size_columns size = 0) then t
  else
    damage_screen (on_active (λ s,
      foldl (λ s row, alignment_row (seqno t) (size_columns size) row s) s (seq 0 (size_rows size))) t).

(** ** Resize *)

(** [apply_main_reflow_outcome(MainReflowOutcome::new(old_size, rows))]. *)
Definition apply_main_reflow_outcome (old_size : TerminalSize) (scrollback_rows : nat) : TM () :=
  t ← get_state;
  offset ← expect (checked_add isize_max (main_stable_row_offset t)
                     (Z.of_nat (scrollback_rows + size_rows old_size)));
  let t := t{{ main_stable_row_offset := offset; semantic_prompt_rows := [];
               semantic_command_exits := [] }} in
  match main_screen t with
  | Some _ =>
      let t := call_dormant RetireReflowCoordinates t in
      put_state (t{{ main_screen :=
        (λ s, s{{ nfc_last_printable_cell := None; saved_cursor := None }}) <$> main_screen t }})
  | None =>
      let t := call RetireReflowGlobals t in
      put_state (t{{ active -> nfc_last_printable_cell := None; active -> saved_cursor := None }})
  end.

(** The width-changing path; [None] of the reflow is its fuel, which is
    always enough. *)
Definition resize_reflow (old_size size : TerminalSize) : TM () :=
  t ← get_state;
  let old_main_scrollback_rows := history_len t in
  match main_screen t with
  | Some screen =>
      let t := t{{ active -> grid := TerminalGrid.resize_with_seqno size (seqno t) (grid (active t)) }} in
      res ← expect (reflow_main_screen (scrollback t) (grid screen) size (seqno t)
                      (cursor_row screen) (cursor_column screen));
      put_state (t{{ scrollback := rr_scrollback res;
        main_screen := Some (screen{{ grid := rr_grid res; cursor_row := rr_cursor_row res;
                                      cursor_column := rr_cursor_column res;
                                      pending_wrap := false }}) }});;
      apply_main_reflow_outcome old_size old_main_scrollback_rows
  | None =>
      res ← expect (reflow_main_screen (scrollback t) (grid (active t)) size (seqno t)
                      (cursor_row (active t)) (cursor_column (active t)));
      put_state (t{{ scrollback := rr_scrollback res;
        active -> grid := rr_grid res; active -> cursor_row := rr_cursor_row res;
        active -> cursor_column := rr_cursor_column res; active -> pending_wrap := false }});;
      apply_main_reflow_outcome old_size old_main_scrollback_rows
  end;;
  trim_scrollback_to_limit.

Definition resize_rows_only (size : TerminalSize) t : Terminal :=
  let t := t{{ active -> grid := TerminalGrid.resize_with_seqno size (seqno t) (grid (active t)) }} in
  t{{ main_screen :=
        (λ s, Screen.clamp_screen_state size
                (s{{ grid := TerminalGrid.resize_with_seqno size (seqno t) (grid s) }}))
          <$> main_screen t }}.

Definition finish_resize (size : TerminalSize) t : Terminal :=
  let t := call RetainEditedPlacements (call_dormant RetainEditedPlacements t) in
  let t := t{{ tab_stops := TabStops.resize size (tab_stops t) }} in
  let t := on_active (λ s,
    (Screen.clamp_to_size s){{ scroll_top := 0; scroll_bottom := size_rows size - 1;
                               left_margin := 0; right_margin := size_columns size - 1 }}) t in
  record_damage (mkDamage 0 0 (size_columns size) (size_rows size)) t.

Definition resize (size : TerminalSize) : TM TerminalResizeOutcome :=
  let size := mkTerminalSize (size_columns size `max` 1) (size_rows size) in
  advance_seqno;;
  t ← get_state;
  let old_size := screen_size t in
  let active_main_screen := bool_decide (main_screen t = None) in
  (if decide (size_columns old_size = size_columns size) then modify (resize_rows_only size)
   else resize_reflow old_size size);;
  modify (finish_resize size);;
  mret (if decide (size_columns old_size = size_columns size ∧ size_rows old_size = size_rows size)
        then Unchanged
        else if decide (size_columns old_size = size_columns size) then PhysicalResize
        else if active_main_screen then MainScreenReflowed else AlternateScreenResized).

(** ** Titles and metadata *)

Definition note_title (title' : rstring) t : Terminal :=
  if bool_decide (title t = Some title') then t
  else t{{ pending_metadata_changes -> mc_title := true }}.

Definition set_icon_and_window_title (s : rstring) t : Terminal :=
  (note_title s t){{ title := Some s; icon_title := Some s; window_title := Some s }}.
Definition set_icon_title (s : rstring) t : Terminal :=
  (note_title s t){{ title := Some s; icon_title := Some s }}.
Definition set_window_title (s : rstring) t : Terminal :=
  (note_title s t){{ title := Some s; window_title := Some s }}.

Definition set_current_working_dir (s : rstring) t : Terminal :=
  if bool_decide (current_working_dir t = Some s) then t
  else t{{ current_working_dir := Some s;
           pending_metadata_changes -> mc_current_working_dir := true }}.

Definition apply_window_manipulation (params : rstring) t : Terminal :=
  let values := parse_csi_params params in
  match head values with
  | None => t
  | Some action =>
      if (2 <? default 0 (values !! 1%nat))%Z then t
      else if (action =? 22)%Z then t{{ title_stack := title_stack t ++ [title t] }}
      else if (action =? 23)%Z then
        match last (title_stack t) with
        | None => t
        | Some saved =>
            let t := t{{ title_stack := removelast (title_stack t) }} in
            let t := if bool_decide (title t = saved) then t
                     else t{{ pending_metadata_changes -> mc_title := true }} in
            t{{ title := saved }}
        end
      else t
  end.

Definition record_unknown_escape_sequence (s : rstring) t : Terminal :=
  t{{ unknown_escape_sequences := unknown_escape_sequences t ++ [s] }}.

(** ** CSI *)

Definition apply_csi (command : Z) (params : rstring) : TM () :=
  let count := Z.to_nat (csi_count params) in
  let screen f := modify (on_active f) in
  if (command =? 64)%Z then modify (insert_blank_characters count)
  else if (command =? 65)%Z then screen (Screen.move_cursor_up count)
  else if ((command =? 66) || (command =? 101))%Z then screen (Screen.move_cursor_down count)
  else if ((command =? 67) || (command =? 97))%Z then screen (Screen.move_cursor_forward count)
  else if (command =? 68)%Z then screen (Screen.move_cursor_back count)
  else if (command =? 69)%Z then screen (Screen.move_cursor_next_line count)
  else if (command =? 70)%Z then screen (Screen.move_cursor_previous_line count)
  else if ((command =? 71) || (command =? 96))%Z then screen (Screen.position_cursor_column params)
  else if ((command =? 72) || (command =? 102))%Z then screen (Screen.position_cursor params)
  else if (command =? 73)%Z
  then modify (λ t, on_active (Screen.move_forward_tabs (tab_stops t) count) t)
  else if (command =? 74)%Z then erase_display (csi_or_private_mode params) (csi_is_private params)
  else if (command =? 75)%Z
  then modify (erase_line (csi_or_private_mode params) (csi_is_private params))
  else if (command =? 76)%Z then modify (insert_lines count)
  else if (command =? 77)%Z then delete_lines count
  else if (command =? 80)%Z then delete_characters count
  else if (command =? 83)%Z then scroll_up count
  else if (command =? 84)%Z then modify (scroll_down count)
  else if (command =? 88)%Z then modify (erase_characters count)
  else if (command =? 90)%Z
  then modify (λ t, on_active (Screen.move_backward_tabs (tab_stops t) count) t)
  else if (command =? 98)%Z then repeat_previous_character count
  else if (command =? 100)%Z then screen (Screen.position_cursor_row params)
  else if (command =? 103)%Z
  then modify (λ t,
    let mode := csi_mode params in
    if (mode =? 0)%Z then t{{ tab_stops := TabStops.clear (cursor_column (active t)) (tab_stops t) }}
    else if (mode =? 3)%Z then t{{ tab_stops := TabStops.clear_all (tab_stops t) }}
    else t)
  else if (command =? 109)%Z
  then modify (λ t, t{{ active -> style := default (style (active t)) (apply_sgr params (style (active t))) }})
  else if (command =? 113)%Z then
    (if bool_decide (last params = Some 34%Z) then modify (set_character_protection params)
     else modify (set_cursor_shape params))
  else if (command =? 112)%Z && bool_decide (params = [33%Z]) then soft_reset_terminal
  else if (command =? 114)%Z then screen (Screen.set_scroll_region params)
  else if (command =? 116)%Z then modify (apply_window_manipulation params)
  else if (command =? 104)%Z then set_mode params true
  else if (command =? 108)%Z then set_mode params false
  else if (command =? 115)%Z
  then screen (λ s, if left_right_margin_mode (modes s) then Screen.set_left_right_margins params s
                    else Screen.save_cursor s)
  else if (command =? 117)%Z then screen Screen.restore_cursor
  else modify (record_unknown_escape_sequence (lit "CSI " ++ params ++ [command])).

(** ** OSC *)

Definition non_empty_unicode_version_label (label : rstring) : option rstring :=
  let label := trim label in if bool_decide (label = []) then None else Some label.

(** [rposition] of a label. *)
Definition label_position (label : rstring) (l : list UnicodeVersionStackEntry) : option nat :=
  (λ i, length l - 1 - i) <$> (fst <$> list_find (λ e, uv_label e = Some label) (rev l)).

Definition pop_labeled_unicode_version (label : rstring) t : Terminal :=
  match label_position label (unicode_version_stack t) with
  | None => t
  | Some index =>
      match unicode_version_stack t !! index with
      | None => t
      | Some entry => t{{ unicode_version_stack := take index (unicode_version_stack t);
                          unicode_version := uv_version entry }}
      end
  end.

Definition apply_osc1337_unicode_version (value : rstring) t : Terminal :=
  let trimmed := trim value in
  match strip_prefix (lit "push") trimmed, strip_prefix (lit "pop") trimmed with
  | Some label, _ =>
      t{{ unicode_version_stack := unicode_version_stack t
            ++ [mkUnicodeEntry (unicode_version t) (non_empty_unicode_version_label label)] }}
  | None, Some label =>
      match non_empty_unicode_version_label label with
      | Some label => pop_labeled_unicode_version label t
      | None =>
          match last (unicode_version_stack t) with
          | None => t
          | Some entry => t{{ unicode_version_stack := removelast (unicode_version_stack t);
                              unicode_version := uv_version entry }}
          end
      end
  | None, None =>
      match parse_u32 trimmed with
      | Some version => t{{ unicode_version := version }}
      | None => t
      end
  end.

(** [String::from_utf8(STANDARD.decode(..).ok()?).ok()] *)
Definition decode_base64_utf8 (value : rstring) : option rstring :=
  bytes ← base64_decode value;
  match from_utf8 0 bytes with (cs, _, None) => Some cs | _ => None end.

Definition apply_osc1337_set_user_var (user_var : rstring) t : Terminal :=
  match split_once 61 user_var with
  | None => t
  | Some (name, encoded_value) =>
      match decode_base64_utf8 encoded_value with
      | None => t
      | Some value =>
          if bool_decide (user_vars t !! name = Some value) then t
          else
            let t := t{{ user_vars := <[name := value]> (user_vars t) }} in
            if bool_decide (name ∈ mc_user_vars (pending_metadata_changes t)) then t
            else t{{ pending_metadata_changes -> mc_user_vars :=
                       mc_user_vars (pending_metadata_changes t) ++ [name] }}
      end
  end.

Definition apply_osc1337_set_badge_format (encoded : rstring) t : Terminal :=
  match decode_base64_utf8 encoded with
  | None => t
  | Some value =>
      if bool_decide (badge_format t = Some value) then t
      else t{{ badge_format := Some value; pending_metadata_changes -> mc_badge_format := true }}
  end.

Definition apply_osc1337_iterm_metadata (content : rstring) t : Terminal :=
  match strip_prefix (lit "CurrentDir=") content with
  | Some dir => set_current_working_dir dir t
  | None =>
  match strip_prefix (lit "SetUserVar=") content with
  | Some user_var => apply_osc1337_set_user_var user_var t
  | None =>
  match strip_prefix (lit "SetBadgeFormat=") content with
  | Some badge => apply_osc1337_set_badge_format badge t
  | None =>
  match strip_prefix (lit "File=") content with
  | Some file => call (InlineFile file) t
  | None =>
  match strip_prefix (lit "UnicodeVersion=") content with
  | Some version => apply_osc1337_unicode_version version t
  | None => t
  end end end end end.

Definition apply_osc8_hyperlink (content : rstring) t : Terminal :=
  match split_once 59 content with
  | None => t
  | Some (_, uri) =>
      t{{ active -> style -> hyperlink := if bool_decide (uri = []) then None else Some uri }}
  end.

Definition record_semantic_prompt_row t : Terminal :=
  let row := current_history_row t in
  if bool_decide (last (semantic_prompt_rows t) = Some row) then t
  else if bool_decide (row ∈ semantic_prompt_rows t) then t
  else t{{ semantic_prompt_rows := TabStops.insert_sorted row (semantic_prompt_rows t) }}.

(** The loop over the parts of [D;..]: the first one may be the exit code,
    any may carry the application id. *)
Definition command_exit_part (acc : option Z * option rstring) (p : nat * rstring) :
    option Z * option rstring :=
  match strip_prefix (lit "aid=") p.2 with
  | Some value => (acc.1, Some value)
  | None => if decide (p.1 = 0) then (parse_i32 p.2, acc.2) else acc
  end.

Definition record_semantic_command_exit (params : rstring) t : Terminal :=
  let parts := filter (λ part, part ≠ []) (split_on 59 params) in
  let '(code, aid) := foldl command_exit_part (None, None) (imap pair parts) in
  t{{ semantic_command_exits := semantic_command_exits t
        ++ [mkCommandExit (current_history_row t) code aid] }}.

Definition fresh_line : TM () :=
  t ← get_state;
  if decide (cursor_column (active t) = 0) then mret () else newline.

Definition set_semantic_type (x : SemanticType) (clear_on_movement : bool) t : Terminal :=
  t{{ active -> style -> semantic_type := x;
      active -> clear_semantic_type_on_movement := clear_on_movement }}.

Definition apply_osc133_semantic_prompt (content : rstring) : TM () :=
  let '(marker, params) := default (content, []) (split_once 59 content) in
  if bool_decide (marker = lit "A") || bool_decide (marker = lit "N")
  then fresh_line;; modify (λ t, record_semantic_prompt_row (set_semantic_type Prompt false t))
  else if bool_decide (marker = lit "P")
  then modify (λ t, record_semantic_prompt_row (set_semantic_type Prompt false t))
  else if bool_decide (marker = lit "B") then modify (set_semantic_type Input false)
  else if bool_decide (marker = lit "I") then modify (set_semantic_type Input true)
  else if bool_decide (marker = lit "C") then modify (set_semantic_type Output false)
  else if bool_decide (marker = lit "D") then modify (record_semantic_command_exit params)
  else mret ().

Definition apply_osc_content (content : rstring) : TM () :=
  match content with
  | 76%Z :: rest => modify (set_icon_title rest)
  | 108%Z :: rest => modify (set_window_title rest)
  | _ =>
      match split_once 59 content with
      | None => mret ()
      | Some (command, rest) =>
          if bool_decide (command = lit "0") then modify (set_icon_and_window_title rest)
          else if bool_decide (command = lit "1") then modify (set_icon_title rest)
          else if bool_decide (command = lit "2") then modify (set_window_title rest)
          else if bool_decide (command = lit "7") then modify (set_current_working_dir rest)
          else if bool_decide (command = lit "8") then modify (apply_osc8_hyperlink rest)
          else if bool_decide (command = lit "133") then apply_osc133_semantic_prompt rest
          else if bool_decide (command = lit "1337") then modify (apply_osc1337_iterm_metadata rest)
          else mret ()
      end
  end.

(** ** Graphics protocols *)

Definition apply_apc_content (content : rstring) : TM () :=
  match content with
  | 71%Z :: graphics =>
      modify (λ t,
        let '(r, t) := call_reply (KittyCommand graphics) t in
        match reply_cells r with
        | Some (columns, rows) =>
            on_active (λ s, Screen.move_cursor_down rows (Screen.move_cursor_forward columns s)) t
        | None => t
        end)
  | _ => mret ()
  end.

(** A DCS string with a sixel image in it. *)
Definition apply_dcs_content (content : rstring) : TM () :=
  t ← get_state;
  let '(r, t) := call_reply (SixelContent content) t in
  put_state t;;
  match reply_cells r with
  | Some (columns, _) =>
      if sixel_display_mode (modes (active t)) then mret ()
      else
        index_down false;;
        modify (λ t, if sixel_scrolls_right (modes (active t))
                     then on_active (Screen.move_cursor_forward columns) t else t)
  | None => mret ()
  end.

(** ** Clearing on request *)

Definition erase_rows (seqno : Z) (size : TerminalSize) (blank : Cell) (g : TerminalGrid) : TerminalGrid :=
  foldl (λ g row,
    let g := foldl (λ g column, (TerminalGrid.set row column blank g).2) g (seq 0 (size_columns size)) in
    (TerminalGrid.set_row_last_change_seqno row seqno (TerminalGrid.set_row_wrapped row false g)).2)
    g (seq 0 (size_rows size)).

Definition erase_scrollback_and_viewport : TM () :=
  advance_seqno;;
  t ← get_state;
  let size := screen_size t in
  prune_scrollback_rows (history_len t);;
  modify (λ t, t{{ title_stack := [] }});;
  modify (call ResetGraphics);;
  modify (λ t, t{{ semantic_prompt_rows := []; semantic_command_exits := [] }});;
  if decide (size_rows size = 0 ∨ size_columns size = 0)
  then modify (λ t, t{{ active -> cursor_row := 0; active -> cursor_column := 0;
                        active -> pending_wrap := false;
                        active -> clear_semantic_type_on_movement := false }})
  else
    modify (λ t,
      let s := active t in
      let line := cursor_row s `min` (size_rows size - 1) in
      let cursor_line := (λ column, default Cell.default (TerminalGrid.get line column (grid s)))
                           <$> seq 0 (size_columns size) in
      let g := erase_rows (seqno t) size (Screen.blank_cell s) (grid s) in
      let g := write_cells 0 cursor_line g in
      damage_screen (t{{ active -> grid := g; active -> cursor_row := 0;
                         active -> pending_wrap := false;
                         active -> clear_semantic_type_on_movement := false }})).

(** ** Normalisation *)

Fixpoint leading_combining_marks_end (text : rstring) : nat :=
  match text with
  | [] => 0
  | ch :: rest =>
      if bool_decide (combining_class ch = 0%Z) then 0 else S (leading_combining_marks_end rest)
  end.

(** Marks at the start of a run that compose with the cell written last;
    the number of characters used. *)
Definition normalize_marks (text : rstring) t : nat * Terminal :=
  let leading_end := leading_combining_marks_end text in
  if decide (leading_end = 0) then (0, t)
  else
    match nfc_last_printable_cell (active t) with
    | None => (0, t)
    | Some (row, column) =>
        match TerminalGrid.get row column (grid (active t)) with
        | None => (0, t)
        | Some previous_cell =>
            if bool_decide (Cell.primary_char previous_cell = KITTY_UNICODE_PLACEHOLDER) then (0, t)
            else
              let normalized := nfc_text (Cell.text previous_cell ++ take leading_end text) in
              if bool_decide (normalized = Cell.text previous_cell) then (0, t)
              else
                let previous_width := grapheme_width_of (Cell.text previous_cell) t in
                let normalized_width := grapheme_width_of normalized t in
                if decide (previous_width = 0 ∨ previous_width ≠ normalized_width) then (0, t)
                else
                  let cell := Cell.set_text normalized (saturating_u8 (Z.of_nat normalized_width))
                                previous_cell in
                  let '(ok, s) := Screen.set_grid_cell (seqno t) row column cell (active t) in
                  if ok then
                    let t := record_damage (mkDamage column row previous_width 1) (t{{ active := s }}) in
                    (leading_end, t{{ active -> last_printable := Some normalized }})
                  else (0, t)
        end
    end.

(** ** The terminal behind the feed layer *)

Definition finish_text_run t : Terminal :=
  (call FinishPendingPlaceholder t){{ active -> nfc_last_printable_cell := None }}.

#[export] Instance terminal_performer : Performer Terminal := {
  finish_run := finish_text_run;
  perform_csi := apply_csi;
  perform_osc := apply_osc_content;
  perform_apc := apply_apc_content;
  perform_dcs := apply_dcs_content;
  perform_index_down_control := index_down_control false;
  perform_next_line := next_line;
  perform_reverse_index := modify reverse_index;
  perform_line_feed := line_feed;
  perform_reset := reset_terminal;
  perform_alignment_test := screen_alignment_test;
  perform_set_tab_stop := λ t,
    t{{ tab_stops := TabStops.set (cursor_column (active t)) (screen_size t) (tab_stops t) }};
  perform_save_cursor := on_active Screen.save_cursor;
  perform_restore_cursor := on_active Screen.restore_cursor;
  perform_character_set := λ c t, t{{ active -> character_set := c }};
  perform_unknown := record_unknown_escape_sequence;
  perform_bell := λ t, t{{ bell_count := sat_add_u64 (bell_count t) 1 }};
  perform_backspace := on_active Screen.backspace;
  perform_tab := λ t, on_active (Screen.move_forward_tabs (tab_stops t) 1) t;
  perform_carriage_return := on_active Screen.carriage_return;
  perform_write_char := write_char;
  nfc := nfc_text;
  normalize_leading_combining_marks := normalize_marks;
}.

(** [Terminal::feed]. *)
Definition feed (bytes : list Z) : M Empty_set (Feeder Terminal) () :=
  on_screen advance_seqno;; feed_at_current_seqno bytes.

Definition mark_all_lines_changed_at_current_seqno t : Terminal :=
  let t := if alternate_screen_active t then t
           else t{{ scrollback := mkHistoryBuffer
                      ((λ l, l{{ line_sequence := seqno t }}) <$> history_rows (scrollback t)) }} in
  touch_rows (seq 0 (Screen.rows (active t))) t.

Definition mark_all_lines_changed : TM () :=
  advance_seqno;; modify mark_all_lines_changed_at_current_seqno.

Definition feed_with_all_lines_changed (bytes : list Z) : M Empty_set (Feeder Terminal) () :=
  on_screen advance_seqno;; feed_at_current_seqno bytes;;
  modify_screen mark_all_lines_changed_at_current_seqno.

End control.
