(* ===== verification/StableRows.v ===== *)
(** What clients read of a terminal ([rssh-terminal/src/parser.rs], 3073 to
    3515): stable row numbers, the rows changed since a sequence number,
    semantic zones, the text of a region or a selection, checksums.

    A stable row number names a line of the main screen for as long as it is
    kept, across scrolling and pruning. The functions that panic when row
    counts leave the range of [isize] return [option], [None] being the
    panic. *)
From coqutil Require Import Datatypes.RecordSetters.
From S2P Require Import Prelude Text Grid Csi Reflow Utf8 Feed Screen Scroll.
Import DoubleBraceUpdate.

Inductive TerminalScreenDomain := DomainMain | DomainAlternate.

#[export] Instance domain_eq_dec : EqDecision TerminalScreenDomain.
Proof. solve_decision. Defined.

Record TerminalStableDimensions := mkDimensions {
  sd_domain : TerminalScreenDomain;
  viewport_rows : nat;
  scrollback_rows : nat;
  scrollback_top : Z;
  physical_top : Z;
}.

Record StableSelectionCoordinate := mkSelectionCoordinate {
  sc_domain : TerminalScreenDomain;
  sc_row : Z;
  sc_column : nat;
}.

Record StableSelectionRange := mkSelectionRange {
  sel_start : StableSelectionCoordinate;
  sel_end : StableSelectionCoordinate;
  rectangular : bool;
}.

Record SemanticZone := mkZone {
  zone_start_y : nat;
  zone_start_x : nat;
  zone_end_y : nat;
  zone_end_x : nat;
  zone_type : SemanticType;
}.

#[export] Hint Extern 0 (@Setter SemanticZone _ ?getter) =>
  mk_setter (λ r, mkZone (zone_start_y r) (zone_start_x r) (zone_end_y r) (zone_end_x r) (zone_type r)) getter
  : typeclass_instances.

Definition zone_contains (x y : nat) (z : SemanticZone) : bool :=
  if decide (y < zone_start_y z ∨ zone_end_y z < y) then false
  else if decide (y = zone_start_y z ∧ x < zone_start_x z) then false
  else if decide (y = zone_end_y z ∧ zone_end_x z < x) then false
  else true.

Record StableSemanticZone := mkStableZone {
  sz_start_x : nat;
  sz_start_y : Z;
  sz_end_x : nat;
  sz_end_y : Z;
  sz_type : SemanticType;
}.

Record StableSemanticCommandExit := mkStableExit {
  se_row : Z;
  se_code : option Z;
  se_aid : option rstring;
}.

#[export] Instance semantic_type_eq_dec : EqDecision SemanticType.
Proof. solve_decision. Defined.

(** ** Semantic zones of a row *)

Definition append_semantic_zone (zone : SemanticZone) (st : option SemanticZone * list SemanticZone) :
    option SemanticZone * list SemanticZone :=
  match st with
  | (None, zones) => (Some zone, zones)
  | (Some current, zones) =>
      if decide (zone_type current = zone_type zone)
      then (Some (current{{ zone_end_y := zone_end_y zone; zone_end_x := zone_end_x zone }}), zones)
      else (Some zone, zones ++ [current])
  end.

(** [while end < last && cells[end + 1].semantic_type == ..]; the cells after
    [start] up to the last one are fuel enough. *)
Fixpoint zone_end (fuel finish last : nat) (x : SemanticType) (cells : list Cell) : nat :=
  match fuel with
  | O => finish
  | S fuel =>
      if decide (finish < last ∧ semantic_type <$> cells !! (finish + 1) = Some x)
      then zone_end fuel (finish + 1) last x cells else finish
  end.

(** [while start <= last_non_blank]. *)
Fixpoint zones_loop (fuel row start last : nat) (cells : list Cell)
    (st : option SemanticZone * list SemanticZone) : option SemanticZone * list SemanticZone :=
  match fuel with
  | O => st
  | S fuel =>
      if decide (start ≤ last) then
        match cells !! start with
        | None => st
        | Some cell =>
            let x := semantic_type cell in
            let finish := zone_end (last - start) start last x cells in
            let st := if existsb (λ c, negb (Cell.is_blank c)) (take (finish + 1 - start) (drop start cells))
                      then append_semantic_zone (mkZone row start row finish x) st else st in
            zones_loop fuel row (finish + 1) last cells st
        end
      else st
  end.

Definition append_semantic_zones_for_row (row : nat) (cells : list Cell)
    (st : option SemanticZone * list SemanticZone) : option SemanticZone * list SemanticZone :=
  match position (λ c, Cell.is_blank c = false) cells, position (λ c, Cell.is_blank c = false) (rev cells) with
  | Some first, Some back => zones_loop (length cells) row first (length cells - 1 - back) cells st
  | _, _ => st
  end.

(** [while text.ends_with(' ') { text.pop(); }] *)
Fixpoint drop_spaces (s : rstring) : rstring :=
  match s with 32%Z :: s => drop_spaces s | _ => s end.
Definition trim_trailing_spaces (s : rstring) : rstring := rev (drop_spaces (rev s)).

(** [lines.join("\n")]. *)
Fixpoint join_lines (lines : list rstring) : rstring :=
  match lines with
  | [] => []
  | [l] => l
  | l :: rest => l ++ [10%Z] ++ join_lines rest
  end.

Section read.
  Context `{Gfx : Graphics}.
  Implicit Types (t : Terminal).

(** ** Stable rows *)

Definition stable_dimensions t : option TerminalStableDimensions :=
  let viewport := Screen.rows (active t) in
  if alternate_screen_active t then Some (mkDimensions DomainAlternate viewport viewport 0 0)
  else
    top ← (if bool_decide (Z.of_nat (history_len t) ≤ isize_max)%Z
           then checked_add isize_max (main_stable_row_offset t) (Z.of_nat (history_len t)) else None);
    if bool_decide (Z.of_nat (history_len t + viewport) ≤ usize_max)%Z
    then Some (mkDimensions DomainMain viewport (history_len t + viewport) (main_stable_row_offset t) top)
    else None.

Definition retained_stable_range t : option (Z * Z) :=
  d ← stable_dimensions t;
  if bool_decide (Z.of_nat (scrollback_rows d) ≤ isize_max)%Z
  then finish ← checked_add isize_max (scrollback_top d) (Z.of_nat (scrollback_rows d));
       Some (scrollback_top d, finish)
  else None.

Definition stable_bottom_exclusive t : option (option Z) :=
  d ← stable_dimensions t;
  Some (if bool_decide (Z.of_nat (viewport_rows d) ≤ isize_max)%Z
        then checked_add isize_max (physical_top d) (Z.of_nat (viewport_rows d)) else None).

Definition viewport_stable_range (top : option Z) t : option (Z * Z) :=
  d ← stable_dimensions t;
  let start := default (physical_top d) top in
  if bool_decide (Z.of_nat (viewport_rows d) ≤ isize_max)%Z
  then Some (start, default start (checked_add isize_max start (Z.of_nat (viewport_rows d))))
  else Some (start, start).

Definition is_stable_range_fully_retained (rows : Z * Z) t : option bool :=
  if (rows.2 <? rows.1)%Z then Some false
  else
    retained ← retained_stable_range t;
    Some ((retained.1 <=? rows.1)%Z && (rows.2 <=? retained.2)%Z).

(** [row.checked_sub(top)?], [usize::try_from], and the bound. *)
Definition retained_index (d : TerminalStableDimensions) (row : Z) : option nat :=
  let retained := (row - scrollback_top d)%Z in
  if bool_decide (0 ≤ retained < Z.of_nat (scrollback_rows d))%Z then Some (Z.to_nat retained) else None.

Definition index_row (d : TerminalStableDimensions) (row : nat) : option Z :=
  if decide (scrollback_rows d ≤ row) then None
  else if bool_decide (Z.of_nat row ≤ isize_max)%Z
  then checked_add isize_max (scrollback_top d) (Z.of_nat row) else None.

Definition history_index_to_stable_row (row : nat) t : option (option Z) :=
  d ← stable_dimensions t; Some (index_row d row).

Definition stable_row_to_history_index (row : Z) t : option (option nat) :=
  d ← stable_dimensions t; Some (retained_index d row).

(** The sequence number of a retained line; a row that does not exist has
    number 0, which counts as changed. *)
Definition line_seqno (history_row : nat) t : Z :=
  if alternate_screen_active t then default 0%Z (TerminalGrid.row_last_change_seqno history_row (grid (active t)))
  else match history_rows (scrollback t) !! history_row with
       | Some line => line_sequence line
       | None => default 0%Z (TerminalGrid.row_last_change_seqno (history_row - history_len t) (grid (active t)))
       end.

Definition row_changed (d : TerminalStableDimensions) (since : Z) t (row : Z) : bool :=
  match retained_index d row with
  | None => false
  | Some history_row =>
      (line_seqno history_row t =? 0)%Z || (since <? line_seqno history_row t)%Z
  end.

(** The retained rows of a range whose line is newer than [since]. *)
Definition changed_stable_rows_since (rows : Z * Z) (since : Z) t : option (list Z) :=
  if (rows.2 <=? rows.1)%Z then Some []
  else
    retained ← retained_stable_range t;
    d ← stable_dimensions t;
    let start := Z.max rows.1 retained.1 in
    let finish := Z.min rows.2 retained.2 in
    if (finish <=? start)%Z then Some []
    else Some (filter (λ row, row_changed d since t row = true) (seqZ start (finish - start))).

(** ** Rows by history index *)

Definition cells_for_history_row (row : nat) t : option (list Cell) :=
  match history_rows (scrollback t) !! row with
  | Some line => Some (line_cells line)
  | None =>
      if decide (Screen.rows (active t) ≤ row - history_len t) then None
      else Some ((λ column, default Cell.default (TerminalGrid.get (row - history_len t) column (grid (active t))))
                   <$> seq 0 (Screen.columns (active t)))
  end.

Definition history_row_is_wrapped (row : nat) t : option bool :=
  match history_rows (scrollback t) !! row with
  | Some line => Some (line_wrapped line)
  | None =>
      if decide (Screen.rows (active t) ≤ row - history_len t) then None
      else Some (TerminalGrid.row_wrapped (row - history_len t) (grid (active t)))
  end.

(** ** Semantic zones *)

Definition semantic_zones t : list SemanticZone :=
  let st := foldl (λ st p, append_semantic_zones_for_row p.1 (line_cells p.2) st) (None, [])
              (imap pair (history_rows (scrollback t))) in
  let st := foldl (λ st row,
    append_semantic_zones_for_row (history_len t + row)
      ((λ column, default Cell.default (TerminalGrid.get row column (grid (active t))))
         <$> seq 0 (Screen.columns (active t))) st) st (seq 0 (Screen.rows (active t))) in
  match st with (Some zone, zones) => zones ++ [zone] | (None, zones) => zones end.

Definition semantic_zone_at (x y : nat) t : option SemanticZone := find (zone_contains x y) (semantic_zones t).

Definition stable_semantic_prompt_rows t : option (list Z) :=
  if alternate_screen_active t then Some []
  else d ← stable_dimensions t; Some (omap (index_row d) (semantic_prompt_rows t)).

Definition stable_zone (d : TerminalStableDimensions) (z : SemanticZone) : option StableSemanticZone :=
  start ← index_row d (zone_start_y z);
  finish ← index_row d (zone_end_y z);
  Some (mkStableZone (zone_start_x z) start (zone_end_x z) finish (zone_type z)).

Definition stable_semantic_zones t : option (list StableSemanticZone) :=
  if alternate_screen_active t then Some []
  else d ← stable_dimensions t; Some (omap (stable_zone d) (semantic_zones t)).

Definition stable_semantic_zone_at (column : nat) (row : Z) t : option (option StableSemanticZone) :=
  if alternate_screen_active t then Some None
  else
    d ← stable_dimensions t;
    Some (history_row ← retained_index d row;
          zone ← semantic_zone_at column history_row t;
          stable_zone d zone).

Definition stable_semantic_command_exits t : option (list StableSemanticCommandExit) :=
  if alternate_screen_active t then Some []
  else
    d ← stable_dimensions t;
    Some (omap (λ e, (λ row, mkStableExit row (exit_code e) (exit_aid e)) <$> index_row d (exit_row e))
            (semantic_command_exits t)).

(** ** Text *)

(** One row of the [for]: a row that is not a continuation of the one before
    ends the logical line. *)
Definition region_row (start_x start_y end_x end_y : nat) t (st : list rstring * rstring) (row : nat) :
    option (list rstring * rstring) :=
  cells ← cells_for_history_row row t;
  let break :=
    if decide (row = start_y) then Some st
    else w ← history_row_is_wrapped row t;
         Some (if (w : bool) then st else (st.1 ++ [trim_trailing_spaces st.2], [])) in
  if decide (cells = []) then break
  else
    let first_column := if decide (row = start_y) then start_x else 0 in
    let last_column := if decide (row = end_y) then end_x `min` (length cells - 1) else length cells - 1 in
    let first_column := match cells !! first_column with
                        | Some cell => Screen.leader_of first_column cell
                        | None => first_column
                        end in
    st ← break;
    if decide (last_column < first_column ∨ length cells ≤ first_column) then Some st
    else Some (st.1, st.2 ++ concat (Cell.text <$> take (last_column + 1 - first_column) (drop first_column cells))).

Definition region_rows (start_x start_y end_x end_y : nat) t (rows : list nat) :
    option (list rstring * rstring) :=
  foldl (λ st row, st ← st; region_row start_x start_y end_x end_y t st row) (Some ([], [])) rows.

Definition text_from_region (start_x start_y end_x end_y : nat) t : option rstring :=
  if decide (end_y < start_y ∨ (start_y = end_y ∧ end_x < start_x)) then None
  else
    '(lines, logical_line) ← region_rows start_x start_y end_x end_y t (rows_between start_y end_y);
    Some (join_lines (lines ++ [trim_trailing_spaces logical_line])).

Definition text_from_semantic_zone (z : SemanticZone) t : option rstring :=
  text_from_region (zone_start_x z) (zone_start_y z) (zone_end_x z) (zone_end_y z) t.

Definition text_history_index (row : nat) t : nat :=
  if alternate_screen_active t then history_len t + row else row.

Definition stable_row_to_text_history_index (row : Z) t : option (option nat) :=
  d ← stable_dimensions t; Some ((λ r, text_history_index r t) <$> retained_index d row).

(** The loop over the rows of a rectangular selection. *)
Fixpoint rectangle_rows (first_column last_column : nat) (rows : list nat) t : option (list rstring) :=
  match rows with
  | [] => Some []
  | row :: rest =>
      l ← text_from_region first_column row last_column row t;
      ls ← rectangle_rows first_column last_column rest t;
      Some (l :: ls)
  end.

(** [end_of_row] is the [usize::MAX] of the source, passed as an argument so
    that the definition can be evaluated. *)
Definition text_from_stable_selection (end_of_row : nat) (selection : StableSelectionRange) t :
    option (option rstring) :=
  d ← stable_dimensions t;
  let start := sel_start selection in
  let finish := sel_end selection in
  if decide (sc_domain start ≠ sc_domain finish ∨ sc_domain start ≠ sd_domain d) then Some None
  else
    let '(first, last) :=
      if decide ((sc_row start < sc_row finish)%Z ∨
                 (sc_row start = sc_row finish ∧ sc_column start ≤ sc_column finish))
      then (start, finish) else (finish, start) in
    retained ← retained_stable_range t;
    let first_retained := Z.max (sc_row first) retained.1 in
    let last_retained := Z.min (sc_row last) (retained.2 - 1)%Z in
    if (last_retained <? first_retained)%Z then Some None
    else
      first_history ← stable_row_to_text_history_index first_retained t;
      last_history ← stable_row_to_text_history_index last_retained t;
      match first_history, last_history with
      | Some first_history, Some last_history =>
          if rectangular selection then
            let first_column := sc_column start `min` sc_column finish in
            let last_column := sc_column start `max` sc_column finish in
            Some (join_lines <$> rectangle_rows first_column last_column
                    (rows_between first_history last_history) t)
          else
            let first_column := if bool_decide (first_retained = sc_row first) then sc_column first else 0 in
            let last_column := if bool_decide (last_retained = sc_row last) then sc_column last else end_of_row in
            Some (text_from_region first_column first_history last_column last_history t)
      | _, _ => Some None
      end.

(** ** Checksums *)

(** [cell.primary_char() as u8]: the low byte. *)
Definition cell_byte (row column : nat) (g : TerminalGrid) : Z :=
  match TerminalGrid.get row column g with
  | Some cell => Z.land (Cell.primary_char cell) 255
  | None => 32
  end.

Definition checksum_rectangle (first top last bottom : nat) t : Z :=
  let s := active t in
  if decide (Screen.rows s = 0 ∨ Screen.columns s = 0 ∨ bottom < top ∨ last < first) then 32%Z
  else
    let row_origin := if origin_mode (modes s) then scroll_top s else 0 in
    let column_origin := if origin_mode (modes s) then left_margin s else 0 in
    let max_row := Screen.rows s - 1 in
    let max_column := Screen.columns s - 1 in
    let start_row := sat_add row_origin top `min` max_row in
    let end_row := sat_add row_origin bottom `min` max_row in
    let start_column := sat_add column_origin first `min` max_column in
    let end_column := sat_add column_origin last `min` max_column in
    if decide (end_row < start_row ∨ end_column < start_column) then 32%Z
    else
      let checksum := foldl (λ sum row,
        foldl (λ sum column, ((sum + cell_byte row column (grid s)) mod 65536)%Z) sum
          (rows_between start_column end_column)) 0%Z (rows_between start_row end_row) in
      if bool_decide (checksum = 0%Z) then 32%Z else checksum.

End read.
