(* ===== verification/ScreenFacts.v ===== *)
(** The invariant of one screen: the grid has its recorded shape, the cursor
    is on it and the margins are ordered and inside. Every operation of
    [Screen] keeps it, and the operations that write cells change nothing
    else. *)
From coqutil Require Import Datatypes.RecordSetters.
From Stdlib Require Import Sorted.
From S2P Require Import Prelude Text Grid GridFacts Csi Reflow Utf8 Feed Screen.
Import DoubleBraceUpdate.

(** ** Grids *)

Definition same_shape (g g' : TerminalGrid) : Prop :=
  grid_size g' = grid_size g ∧ (grid_ok g → grid_ok g').

#[export] Instance same_shape_preorder : PreOrder same_shape.
Proof.
  split; [done|]. intros g1 g2 g3 [H1 H2] [H3 H4]. split; [by rewrite H3|auto].
Qed.

Lemma same_shape_op g op : op_size (grid_size g) op = grid_size g → same_shape g (run_grid_op g op).
Proof. intros Hs. split; [by rewrite run_grid_op_size|apply run_grid_op_ok]. Qed.

Lemma same_shape_set g row column cell : same_shape g (TerminalGrid.set row column cell g).2.
Proof. by apply (same_shape_op g (OpSet row column cell)). Qed.

Lemma same_shape_seqno g row n : same_shape g (TerminalGrid.set_row_last_change_seqno row n g).2.
Proof. by apply (same_shape_op g (OpSetSeqno row n)). Qed.

Lemma same_shape_wrapped g row b : same_shape g (TerminalGrid.set_row_wrapped row b g).
Proof. by apply (same_shape_op g (OpSetWrapped row b)). Qed.

Lemma same_shape_overflow g row l : same_shape g (TerminalGrid.set_reflow_overflow row l g).
Proof.
  unfold TerminalGrid.set_reflow_overflow, TerminalGrid.update_row.
  destruct (grid_rows g !! row) as [r|] eqn:Hr; [|done].
  split; [done|]. intros Hok. apply grid_ok_insert; [done|]. simpl. exact (grid_ok_row g row r Hok Hr).
Qed.

(** A loop over anything that keeps a preorder keeps it. *)
Lemma foldl_preorder {A B} (R : relation A) `{!PreOrder R} (f : A → B → A) l a :
  (∀ a b, R a (f a b)) → R a (foldl f a l).
Proof. intros Hf. revert a. induction l; intros a'; simpl; [done|]. by etrans; [apply Hf|]. Qed.

Create HintDb screen.
#[export] Hint Resolve same_shape_set same_shape_seqno same_shape_wrapped same_shape_overflow : screen.

(** The size, seen through any chain of updates. *)
Ltac screen_simpl :=
  unfold Screen.rows, Screen.columns, Screen.size, clamp_axis, sat_add in *; simpl in *.

(** Prove [screen_ok] of an updated screen from that of the original. *)
Ltac solve_ok :=
  intros [? ? ? ? ?]; screen_simpl;
  repeat (case_decide || case_match); simpl in *;
  (split; screen_simpl; first [done | lia]).

(** ** One screen *)

Section screen.
  Context `{Gfx : Graphics}.
  Implicit Types (s : ScreenState).

Record screen_ok s : Prop := {
  ok_grid : grid_ok (grid s);
  ok_u16 : Screen.rows s ≤ Z.to_nat u16_max ∧ Screen.columns s ≤ Z.to_nat u16_max;
  ok_cursor : cursor_row s ≤ Screen.rows s - 1 ∧ cursor_column s ≤ Screen.columns s - 1;
  ok_vertical : scroll_top s ≤ scroll_bottom s ≤ Screen.rows s - 1;
  ok_horizontal : left_margin s ≤ right_margin s ≤ Screen.columns s - 1;
}.

(** Only cells, wrap marks and sequence numbers change. *)
Definition cells_only s s' : Prop := s' = s{{ grid := grid s' }} ∧ same_shape (grid s) (grid s').

#[export] Instance cells_only_preorder : PreOrder cells_only.
Proof.
  split; [by intros [] |]. intros s1 s2 s3 [H1 H2] [H3 H4]. split; [|by etrans].
  rewrite H3, H1. done.
Qed.

Lemma cells_only_grid s g : same_shape (grid s) g → cells_only s (s{{ grid := g }}).
Proof. done. Qed.

Lemma cells_only_ok s s' : cells_only s s' → screen_ok s → screen_ok s'.
Proof.
  intros [Heq [Hsize Hg]] [H1 H2 H3 H4 H5]. rewrite Heq.
  unfold Screen.rows, Screen.columns, Screen.size in *.
  by split; unfold Screen.rows, Screen.columns, Screen.size; simpl; rewrite ?Hsize; auto.
Qed.

Lemma cells_only_set seqno row column cell s :
  cells_only s (Screen.set_grid_cell seqno row column cell s).2.
Proof.
  unfold Screen.set_grid_cell. destruct (TerminalGrid.set row column cell (grid s)) as [ok g] eqn:Hg.
  destruct ok; simpl; [|done]. apply cells_only_grid.
  pose proof (same_shape_set (grid s) row column cell) as H. rewrite Hg in H.
  by etrans; [exact H|apply same_shape_seqno].
Qed.

Lemma cells_only_wrapped seqno row b s : cells_only s (Screen.set_grid_row_wrapped seqno row b s).
Proof.
  unfold Screen.set_grid_row_wrapped. case_match; [done|]. apply cells_only_grid.
  etrans; [apply same_shape_wrapped|apply same_shape_seqno].
Qed.

Lemma cells_only_clear_span seqno row column s :
  cells_only s (Screen.clear_grapheme_span_at seqno row column s).
Proof.
  unfold Screen.clear_grapheme_span_at. case_match; [|done].
  apply foldl_preorder; [apply _|]. intros s' offset. case_decide; [apply cells_only_set|done].
Qed.

Lemma cells_only_sanitize_loop fuel seqno row column s s' :
  Screen.sanitize_loop fuel seqno row column s = Some s' → cells_only s s'.
Proof.
  revert column s. induction fuel as [|fuel IH]; intros column s; simpl;
    (case_decide; [|by intros [= <-]]); [done|].
  repeat case_match; try (by intros [= <-]); intros Hr%IH;
    (etrans; [|exact Hr]); first [reflexivity|apply cells_only_set|apply cells_only_clear_span].
Qed.

Lemma cells_only_sanitize seqno row s : cells_only s (Screen.sanitize_grapheme_spans seqno row s).
Proof.
  unfold Screen.sanitize_grapheme_spans.
  destruct (Screen.sanitize_loop _ _ _ _ _) eqn:H; simpl; [by eapply cells_only_sanitize_loop|done].
Qed.

(** ** Operations that move the cursor or the margins *)

Lemma semantic_ok s : screen_ok s → screen_ok (Screen.clear_semantic_type_due_to_movement s).
Proof. unfold Screen.clear_semantic_type_due_to_movement. solve_ok. Qed.

Lemma cursor_home_ok s : screen_ok s → screen_ok (Screen.cursor_home s).
Proof. intros H. apply semantic_ok. revert H. solve_ok. Qed.

Lemma moved_from_ok r s : screen_ok s → screen_ok (Screen.moved_from r s).
Proof. unfold Screen.moved_from. case_decide; auto using semantic_ok. Qed.

Lemma margin_mode_ok b s : screen_ok s → screen_ok (Screen.set_left_right_margin_mode b s).
Proof. unfold Screen.set_left_right_margin_mode. solve_ok. Qed.

Lemma margin_params_bound params limit :
  (Screen.margin_params params limit).2 ≤ limit - 1.
Proof. unfold Screen.margin_params. simpl. lia. Qed.

Lemma scroll_region_ok params s : screen_ok s → screen_ok (Screen.set_scroll_region params s).
Proof.
  intros Hok. unfold Screen.set_scroll_region. case_decide; [done|].
  pose proof (margin_params_bound params (Screen.rows s)) as Hb.
  destruct (Screen.margin_params params (Screen.rows s)) as [top bottom]. simpl in Hb.
  case_decide; [done|]. apply cursor_home_ok. revert Hok. solve_ok.
Qed.

Lemma horizontal_margins_ok params s : screen_ok s → screen_ok (Screen.set_left_right_margins params s).
Proof.
  intros Hok. unfold Screen.set_left_right_margins. case_decide; [done|].
  pose proof (margin_params_bound params (Screen.columns s)) as Hb.
  destruct (Screen.margin_params params (Screen.columns s)) as [top bottom]. simpl in Hb.
  case_decide; [done|]. apply cursor_home_ok. revert Hok. solve_ok.
Qed.

Lemma origin_mode_ok b s : screen_ok s → screen_ok (Screen.set_origin_mode b s).
Proof. intros H. apply cursor_home_ok. revert H. solve_ok. Qed.

Lemma auto_wrap_ok b s : screen_ok s → screen_ok (Screen.set_auto_wrap b s).
Proof. unfold Screen.set_auto_wrap. solve_ok. Qed.

Lemma insert_mode_ok b s : screen_ok s → screen_ok (Screen.set_insert_mode b s).
Proof. unfold Screen.set_insert_mode. solve_ok. Qed.

Lemma save_cursor_ok s : screen_ok s → screen_ok (Screen.save_cursor s).
Proof. unfold Screen.save_cursor. solve_ok. Qed.

Lemma restore_cursor_ok s : screen_ok s → screen_ok (Screen.restore_cursor s).
Proof. unfold Screen.restore_cursor. solve_ok. Qed.

Lemma move_up_ok n s : screen_ok s → screen_ok (Screen.move_cursor_up n s).
Proof. intros H. apply moved_from_ok. revert H. solve_ok. Qed.

Lemma move_down_ok n s : screen_ok s → screen_ok (Screen.move_cursor_down n s).
Proof.
  intros H. unfold Screen.move_cursor_down. case_decide; [|apply moved_from_ok]; revert H; solve_ok.
Qed.

Lemma move_forward_ok n s : screen_ok s → screen_ok (Screen.move_cursor_forward n s).
Proof. unfold Screen.move_cursor_forward. solve_ok. Qed.

Lemma move_back_ok n s : screen_ok s → screen_ok (Screen.move_cursor_back n s).
Proof. unfold Screen.move_cursor_back. solve_ok. Qed.

Lemma column_zero_ok s : screen_ok s → screen_ok (s{{ cursor_column := 0 }}).
Proof. solve_ok. Qed.

Lemma next_line_ok n s : screen_ok s → screen_ok (Screen.move_cursor_next_line n s).
Proof. intros H. by apply column_zero_ok, move_down_ok. Qed.

Lemma previous_line_ok n s : screen_ok s → screen_ok (Screen.move_cursor_previous_line n s).
Proof. intros H. by apply column_zero_ok, move_up_ok. Qed.

Lemma position_ok params s : screen_ok s → screen_ok (Screen.position_cursor params s).
Proof.
  intros H. unfold Screen.position_cursor. case_decide; [revert H; solve_ok|].
  apply moved_from_ok. revert H.
  unfold Screen.cursor_row_from_position_param, Screen.cursor_column_from_position_param. solve_ok.
Qed.

Lemma position_column_ok params s : screen_ok s → screen_ok (Screen.position_cursor_column params s).
Proof. unfold Screen.position_cursor_column. solve_ok. Qed.

Lemma position_row_ok params s : screen_ok s → screen_ok (Screen.position_cursor_row params s).
Proof.
  intros H. unfold Screen.position_cursor_row. case_decide; [|apply moved_from_ok]; revert H; solve_ok.
Qed.

Lemma backspace_ok s : screen_ok s → screen_ok (Screen.backspace s).
Proof. unfold Screen.backspace. solve_ok. Qed.

Lemma carriage_return_ok s : screen_ok s → screen_ok (Screen.carriage_return s).
Proof. unfold Screen.carriage_return. solve_ok. Qed.

Lemma right_boundary_bound s : Screen.character_right_boundary s ≤ Screen.columns s - 1.
Proof. unfold Screen.character_right_boundary. case_match; lia. Qed.

Lemma advance_ok n s : screen_ok s → screen_ok (Screen.advance_cursor n s).
Proof.
  pose proof (right_boundary_bound s). unfold Screen.advance_cursor.
  destruct (decide (Screen.character_right_boundary s < sat_add (cursor_column s) n)).
  all: solve_ok.
Qed.

Lemma clamp_to_size_ok s :
  grid_ok (grid s) → Screen.rows s ≤ Z.to_nat u16_max ∧ Screen.columns s ≤ Z.to_nat u16_max →
  screen_ok (Screen.clamp_to_size s).
Proof.
  intros Hg Hu. unfold Screen.clamp_to_size. screen_simpl.
  repeat (case_decide; simpl in * ); (split; screen_simpl; first [done | lia]).
Qed.

(** ** Tabs *)

(** Tab stops are increasing and on the screen. *)
Definition tabs_ok (columns : nat) (stops : list nat) : Prop :=
  StronglySorted lt stops ∧ Forall (λ c, c < columns) stops.

Lemma Forall_filter_keep (Q : nat → Prop) P `{∀ x, Decision (P x)} (l : list nat) :
  Forall Q l → Forall Q (filter P l).
Proof. rewrite !Forall_forall. intros HQ x [_ Hx]%list_elem_of_filter. auto. Qed.

Lemma tabs_filter P `{∀ x, Decision (P x)} columns stops :
  tabs_ok columns stops → tabs_ok columns (filter P stops).
Proof.
  intros [Hs Hf]. split; [|by apply Forall_filter_keep].
  induction Hs as [|a l Hs IH Ha]; [constructor|]. inv Hf.
  rewrite filter_cons. case_decide; [|auto]. constructor; [auto|by apply Forall_filter_keep].
Qed.

Lemma insert_sorted_Forall (P : nat → Prop) c l :
  P c → Forall P l → Forall P (TabStops.insert_sorted c l).
Proof.
  intros Hc. induction 1 as [|x l Hx Hl IH]; simpl; [by repeat constructor|].
  case_decide; repeat constructor; auto.
Qed.

Lemma insert_sorted_sorted c l :
  c ∉ l → StronglySorted lt l → StronglySorted lt (TabStops.insert_sorted c l).
Proof.
  intros Hc. induction 1 as [|x l Hs IH Hx]; simpl; [by repeat constructor|].
  apply not_elem_of_cons in Hc as [Hne Hc]. case_decide.
  - constructor; [auto|]. by apply insert_sorted_Forall.
  - constructor; [by constructor|]. constructor; [lia|].
    eapply Forall_impl; [exact Hx|]. simpl. lia.
Qed.

Lemma tabs_set columns rows c stops :
  tabs_ok columns stops → tabs_ok columns (TabStops.set c (mkTerminalSize columns rows) stops).
Proof.
  intros [Hs Hf]. unfold TabStops.set. simpl. case_decide as Hd; [done|].
  apply Decidable.not_or in Hd as [Hc Hin]. split; [by apply insert_sorted_sorted|].
  apply insert_sorted_Forall; [lia|done].
Qed.

Lemma tabs_resize columns columns' rows stops :
  tabs_ok columns stops → tabs_ok columns' (TabStops.resize (mkTerminalSize columns' rows) stops).
Proof.
  intros H. split; [apply (tabs_filter _ columns stops H)|].
  apply Forall_forall. intros c [Hc _]%list_elem_of_filter. done.
Qed.

Lemma default_loop_tabs fuel column columns :
  columns ≤ Z.to_nat u16_max →
  StronglySorted lt (TabStops.default_loop fuel column columns) ∧
  Forall (λ c, column ≤ c < columns) (TabStops.default_loop fuel column columns).
Proof.
  intros Hu. revert column. induction fuel as [|fuel IH]; intros column; simpl; [by repeat constructor|].
  destruct (column <? columns) eqn:Hc; [|by repeat constructor]. apply Nat.ltb_lt in Hc.
  destruct (IH (sat_add column 8)) as [IH1 IH2]. unfold sat_add in *. split.
  - constructor; [done|]. eapply Forall_impl; [exact IH2|]. simpl. intros c Hcc. lia.
  - constructor; [lia|]. eapply Forall_impl; [exact IH2|]. simpl. intros c Hcc. lia.
Qed.

Lemma tabs_new columns rows :
  columns ≤ Z.to_nat u16_max → tabs_ok columns (TabStops.new (mkTerminalSize columns rows)).
Proof.
  intros Hu. destruct (default_loop_tabs columns 8 columns Hu) as [H1 H2]. split; [done|].
  eapply Forall_impl; [exact H2|]. simpl. lia.
Qed.

Lemma next_after_bound columns column stops :
  tabs_ok columns stops → TabStops.next_after column (columns - 1) stops ≤ columns - 1.
Proof.
  intros [_ Hf]. unfold TabStops.next_after.
  destruct (list_find _ stops) as [[i x]|] eqn:Hl; simpl; [|lia].
  apply list_find_Some in Hl as (Hi & _ & _). eapply Forall_lookup_1 in Hf; [|done]. simpl in Hf. lia.
Qed.

Lemma previous_before_bound column stops :
  TabStops.previous_before column stops ≤ column.
Proof.
  unfold TabStops.previous_before.
  destruct (list_find _ (rev stops)) as [[i x]|] eqn:Hl; simpl; [|lia].
  apply list_find_Some in Hl as (_ & Hx & _). lia.
Qed.

Lemma tab_loop_bound step n column bound :
  (∀ c, c ≤ bound → step c ≤ bound) → column ≤ bound → Screen.tab_loop step n column ≤ bound.
Proof.
  intros Hstep. revert column. induction n as [|n IH]; intros column Hc; simpl; [done|].
  case_decide; [done|]. auto.
Qed.

Lemma forward_tabs_ok stops n s :
  tabs_ok (Screen.columns s) stops → screen_ok s → screen_ok (Screen.move_forward_tabs stops n s).
Proof.
  intros Ht Hok. unfold Screen.move_forward_tabs. case_decide; [revert Hok; clear; solve_ok|].
  assert (Screen.tab_loop (λ c, TabStops.next_after c (Screen.columns s - 1) stops) n (cursor_column s)
    ≤ Screen.columns s - 1) as Hb.
  { apply tab_loop_bound; [|apply Hok]. intros. by apply next_after_bound. }
  destruct Hok. split; try done. split; [apply ok_cursor0|exact Hb].
Qed.

Lemma backward_tabs_ok stops n s : screen_ok s → screen_ok (Screen.move_backward_tabs stops n s).
Proof.
  intros Hok. unfold Screen.move_backward_tabs. case_decide; [revert Hok; clear; solve_ok|].
  assert (Screen.tab_loop (λ c, TabStops.previous_before c stops) n (cursor_column s)
    ≤ Screen.columns s - 1) as Hb.
  { apply tab_loop_bound; [|apply Hok]. intros c Hc. pose proof (previous_before_bound c stops). lia. }
  destruct Hok. split; try done. split; [apply ok_cursor0|exact Hb].
Qed.

(** ** Steps of a screen *)

(** The invariant and the size are kept. *)
Definition ok_step s s' : Prop := screen_ok s' ∧ Screen.size s' = Screen.size s.

Lemma cells_only_step s s' : screen_ok s → cells_only s s' → ok_step s s'.
Proof. intros Hok Hc. split; [by eapply cells_only_ok|]. apply Hc. Qed.

(** An operation that does not touch the grid. *)
Lemma same_grid_step s s' : screen_ok s' → grid s' = grid s → ok_step s s'.
Proof. intros Hok Hg. split; [done|]. unfold Screen.size. by rewrite Hg. Qed.
End screen.
