(* ===== verification/TerminalInv.v ===== *)
(** The invariant of the terminal, and that scrolling, editing and printing
    keep it. [inv true size t]: the active screen is well formed and has the given
    size, a dormant main screen has a grid of that size, tab stops are
    increasing and on the screen, and the scrollback is within its limit;
    [inv false] leaves out the limit, which scrolling exceeds for a moment. *)
From Stdlib Require Import Sorted.
From coqutil Require Import Datatypes.RecordSetters.
From S2P Require Import Prelude Text Grid GridFacts Csi Reflow Utf8 Feed Screen Scroll Edit.
From S2P Require Import ScreenFacts.
Import DoubleBraceUpdate.

(** ** Partial correctness

    [preserves I m]: whenever [m] returns, [I] still holds. *)

Definition preserves {E S A} (I : S → Prop) (m : M E S A) : Prop :=
  ∀ s, I s → match m s with Ok _ s' => I s' | Err _ s' => I s' | Panic => True end.

Section preserves.
  Context {E S : Type} (I : S → Prop).

Lemma preserves_ret {A} (a : A) : preserves (E:=E) I (mret a).
Proof. by intros s Hs. Qed.

Lemma preserves_bind {A B} (m : M E S A) (k : A → M E S B) :
  preserves I m → (∀ a, preserves I (k a)) → preserves I (m ≫= k).
Proof.
  intros Hm Hk s Hs. specialize (Hm s Hs). unfold mbind, M_bind.
  destruct (m s); [by apply Hk|done|done].
Qed.

Lemma preserves_modify (f : S → S) : (∀ s, I s → I (f s)) → preserves (E:=E) I (modify f).
Proof. intros Hf s Hs. by apply Hf. Qed.

(** Reading the state: the continuation may use what is known of it. *)
Lemma preserves_read {B} (k : S → M E S B) :
  (∀ s, I s → match k s s with Ok _ s' => I s' | Err _ s' => I s' | Panic => True end) →
  preserves I (get_state ≫= k).
Proof. intros Hk s Hs. by apply Hk. Qed.

Lemma preserves_put (s0 : S) : I s0 → preserves (E:=E) I (put_state s0).
Proof. by intros H0 s Hs. Qed.

Lemma preserves_expect {A} (o : option A) : preserves (E:=E) I (expect o).
Proof. intros s Hs. by destruct o. Qed.

Lemma preserves_iterM {A} (f : A → M E S ()) l :
  (∀ x, preserves I (f x)) → preserves I (iterM f l).
Proof. intros Hf. induction l; [apply preserves_ret|]. by apply preserves_bind. Qed.
End preserves.

(** Unfold the monad without touching record updates. *)
Ltac monad := cbv [mbind M_bind mret M_ret get_state put_state modify throw panic expect ok_or].

Section terminal.
  Context `{Ext : External} `{Gfx : Graphics}.
  Abbreviation TM := (M Empty_set Terminal).
  Implicit Types (t : Terminal) (s : ScreenState).

Record inv (trimmed : bool) (size : TerminalSize) t : Prop := {
  inv_active : screen_ok (active t);
  inv_size : screen_size t = size;
  inv_dormant : ∀ s, main_screen t = Some s → grid_ok (grid s) ∧ grid_size (grid s) = size;
  inv_tabs : tabs_ok (size_columns size) (tab_stops t);
  inv_limit : trimmed = true → history_len t ≤ scrollback_limit t;
}.

(** ** Frames *)

(** Same rows and history, graphics and damage aside. *)
Record gfx_frame t t' : Prop := {
  gf_terminal : t' = t{{ shared := shared t'; damage := damage t'; active := active t';
                         main_screen := main_screen t' }};
  gf_active : active t' = (active t){{ graphics := graphics (active t') }};
  gf_dormant : (λ s, s{{ graphics := no_images }}) <$> main_screen t' =
               (λ s, s{{ graphics := no_images }}) <$> main_screen t;
}.

#[export] Instance gfx_frame_preorder : PreOrder gfx_frame.
Proof.
  split.
  - intros t. split; [by destruct t|by destruct t as [[]]|done].
  - intros t1 t2 t3 [H1 H2 H3] [H4 H5 H6]. split.
    + by rewrite H4, H1.
    + by rewrite H5, H2.
    + by rewrite H6, H3.
Qed.

Lemma gfx_frame_damage t d : gfx_frame t (t{{ damage := d }}).
Proof. split; [done|by destruct t as [[]]|done]. Qed.

Lemma record_damage_frame d t : gfx_frame t (record_damage d t).
Proof. unfold record_damage. case_match; [done|]. apply gfx_frame_damage. Qed.

Lemma record_damages_frame l t : gfx_frame t (foldl (λ t d, record_damage d t) t l).
Proof. apply foldl_preorder; [apply _|]. intros. apply record_damage_frame. Qed.

Lemma damage_screen_frame t : gfx_frame t (damage_screen t).
Proof. apply record_damage_frame. Qed.

Lemma call_reply_frame c t : gfx_frame t (call_reply c t).2.
Proof.
  unfold call_reply. destruct (graphics_call c _ _ _ _) as [[[r k] g] d]. simpl.
  etrans; [|apply record_damages_frame]. split; [done..|]. simpl. by destruct (main_screen t), d.
Qed.

Lemma call_frame c t : gfx_frame t (call c t).
Proof. apply call_reply_frame. Qed.

Lemma call_flag_frame c t : gfx_frame t (call_flag c t).2.
Proof.
  pose proof (call_reply_frame c t). unfold call_flag. by destruct (call_reply c t).
Qed.

Lemma call_dormant_frame c t : gfx_frame t (call_dormant c t).
Proof.
  unfold call_dormant. destruct (main_screen t) as [s|] eqn:Hm; [|done].
  destruct (graphics_call c _ _ _ _) as [[[r k] g] d].
  etrans; [|apply record_damages_frame]. split; [done|by destruct t as [[]]|]. simpl. by rewrite Hm.
Qed.

Lemma gfx_frame_inv b size t t' : gfx_frame t t' → inv b size t → inv b size t'.
Proof.
  intros [H1 H2 H3] [I1 I2 I3 I4 I5]. split.
  - rewrite H2. destruct I1. by split.
  - unfold screen_size, Screen.size. by rewrite H2.
  - intros s Hs. rewrite Hs in H3. destruct (main_screen t) as [s0|] eqn:Hm; [|done].
    simpl in H3. injection H3 as Hg. rewrite Hg. by apply I3.
  - by rewrite H1.
  - rewrite H1. done.
Qed.

(** An operation of the active screen. *)
Lemma on_active_inv b size f t :
  (screen_ok (active t) → ok_step (active t) (f (active t))) → inv b size t → inv b size (on_active f t).
Proof.
  intros Hf [I1 I2 I3 I4 I5]. destruct (Hf I1) as [H1 H2]. split; try done.
  unfold screen_size in *. simpl. by rewrite H2.
Qed.

(** Only cells of the active grid change. *)
Definition cells_frame t t' : Prop := t' = t{{ active := active t' }} ∧ cells_only (active t) (active t').

#[export] Instance cells_frame_preorder : PreOrder cells_frame.
Proof.
  split; [intros t; split; [by destruct t|done]|].
  intros t1 t2 t3 [H1 H2] [H3 H4]. split; [by rewrite H3, H1|by etrans].
Qed.

Lemma cells_frame_inv b size t t' : cells_frame t t' → inv b size t → inv b size t'.
Proof.
  intros [H1 H2] Hi. rewrite H1. apply (on_active_inv b size (λ _, active t') t); [|done].
  intros Hok. by apply cells_only_step.
Qed.

Lemma cells_frame_grid t g : same_shape (grid (active t)) g → cells_frame t (t{{ active -> grid := g }}).
Proof. done. Qed.

Lemma touch_rows_frame l t : cells_frame t (touch_rows l t).
Proof.
  unfold touch_rows. apply foldl_preorder; [apply _|]. intros t' row.
  apply cells_frame_grid, same_shape_seqno.
Qed.

(** ** History *)

Lemma evict_front_length n (h : HistoryBuffer ScrollbackLine) :
  length (history_rows (evict_front n h).2) = length (history_rows h) - n.
Proof.
  unfold evict_front. case_bool_decide as Hd; simpl.
  - lia.
  - rewrite pop_fronts_drop, length_drop. lia.
Qed.

Lemma rebase_images_frame n t : gfx_frame t (rebase_inline_images_after_history_prune n t).
Proof.
  unfold rebase_inline_images_after_history_prune. case_decide; [done|].
  set (t1 := call_dormant _ (call_dormant _ t)). set (t2 := call _ (call _ t1)).
  assert (gfx_frame t t2) as H2.
  { etrans; [apply call_dormant_frame|]. etrans; [apply call_dormant_frame|].
    etrans; [apply call_frame|]. apply call_frame. }
  case_match; [done|]. by etrans; [exact H2|apply call_frame].
Qed.

(** Fields that the invariant does not mention. *)
Lemma inv_same b b' size t t' :
  active t' = active t → main_screen t' = main_screen t → tab_stops t' = tab_stops t →
  (b' = true → history_len t' ≤ scrollback_limit t') → inv b size t → inv b' size t'.
Proof.
  intros H1 H2 H3 H4 [I1 I2 I3 I4 I5]. unfold screen_size in *.
  split; unfold screen_size; rewrite ?H1, ?H2, ?H3; done.
Qed.

(** Pruning drops the oldest lines and moves the stable offset by as many;
    besides, graphics and prompt rows change. *)
Definition pruned (n : nat) t t' : Prop :=
  ∃ u rows exits m,
    t' = u{{ metadata_rebase_batches := m }} ∧
    gfx_frame (t{{ scrollback := mkHistoryBuffer (drop n (history_rows (scrollback t)));
                   main_stable_row_offset := (main_stable_row_offset t + Z.of_nat (n `min` history_len t))%Z;
                   semantic_prompt_rows := rows; semantic_command_exits := exits }}) u.

Lemma prune_effect n t :
  match prune_scrollback_rows n t with
  | Ok _ t' => pruned n t t'
  | Err _ _ => False
  | Panic => (isize_max < Z.of_nat (n `min` history_len t))%Z ∨
             (isize_max < main_stable_row_offset t + Z.of_nat (n `min` history_len t))%Z
  end.
Proof.
  unfold prune_scrollback_rows. monad. rewrite evict_front_spec. fold (history_len t).
  case_decide as Hk.
  - eexists _, (semantic_prompt_rows t), (semantic_command_exits t), (metadata_rebase_batches t).
    split; [|reflexivity]. rewrite Hk. simpl. rewrite Z.add_0_r. done.
  - case_bool_decide; [|left; lia]. unfold checked_add. simpl. case_bool_decide; [|right; lia].
    eexists _, _, _, _. split; [reflexivity|]. apply rebase_images_frame.
Qed.

(** What graphics calls leave alone. *)
Lemma gfx_frame_rest t t' :
  gfx_frame t t' → tab_stops t' = tab_stops t ∧ scrollback t' = scrollback t ∧
    scrollback_limit t' = scrollback_limit t ∧ main_stable_row_offset t' = main_stable_row_offset t ∧
    seqno t' = seqno t ∧ screen_identity_generation t' = screen_identity_generation t.
Proof. intros [H _ _]. destruct t', t. simpl in *. by injection H. Qed.

Lemma gfx_frame_main t t' : gfx_frame t t' → main_screen t = None → main_screen t' = None.
Proof. intros [_ _ H] Hm. rewrite Hm in H. by destruct (main_screen t'). Qed.

(** Any property of the active screen, the dormant one and the tabs. *)
Lemma prune_rule (P : Terminal → Prop) n t :
  (∀ t t', gfx_frame t t' → P t → P t') →
  (∀ t t', active t' = active t → main_screen t' = main_screen t → tab_stops t' = tab_stops t → P t → P t') →
  P t →
  match prune_scrollback_rows n t with
  | Ok _ t' => P t' ∧ history_len t' = history_len t - n ∧ scrollback_limit t' = scrollback_limit t
  | Err _ _ => False
  | Panic => (isize_max < Z.of_nat (n `min` history_len t))%Z ∨
             (isize_max < main_stable_row_offset t + Z.of_nat (n `min` history_len t))%Z
  end.
Proof.
  intros Hg Hs HP. pose proof (prune_effect n t) as Hp.
  destruct (prune_scrollback_rows n t) as [[] t'| |]; [|done|done].
  destruct Hp as (u & rows & exits & m & -> & Hf).
  destruct (gfx_frame_rest _ _ Hf) as (_ & F2 & F3 & _). split_and!.
  - eapply (Hs u); [done..|]. eapply Hg; [exact Hf|]. by eapply Hs, HP.
  - unfold history_len. simpl. rewrite F2. simpl. by rewrite length_drop.
  - exact F3.
Qed.

Lemma prune_inv n b b' size t :
  inv b size t →
  (b' = true → b = true ∨ history_len t - n ≤ scrollback_limit t) →
  match prune_scrollback_rows n t with Ok _ t' => inv b' size t' | Err _ _ => False | Panic => True end.
Proof.
  intros Hi Hb.
  pose proof (prune_rule (inv false size) n t (gfx_frame_inv false size)) as Hp.
  specialize (Hp (λ t t' H1 H2 H3, inv_same false false size t t' H1 H2 H3 ltac:(done))).
  assert (inv false size t) as Hf by (by eapply inv_same, Hi).
  specialize (Hp Hf). destruct (prune_scrollback_rows n t) as [[] t'| |]; [|done|done].
  destruct Hp as (H1 & Hlen & Hlim). eapply inv_same, H1; try done. intros ->. rewrite Hlen, Hlim.
  destruct (Hb eq_refl) as [->|Hle]; [|done]. pose proof (inv_limit _ _ _ Hi eq_refl). lia.
Qed.

Lemma trim_rule (P : Terminal → Prop) t :
  (∀ t t', gfx_frame t t' → P t → P t') →
  (∀ t t', active t' = active t → main_screen t' = main_screen t → tab_stops t' = tab_stops t → P t → P t') →
  P t →
  match trim_scrollback_to_limit t with
  | Ok _ t' => P t' ∧ history_len t' ≤ scrollback_limit t'
  | Err _ _ => False
  | Panic => (isize_max < main_stable_row_offset t + Z.of_nat (history_len t))%Z ∨
             (isize_max < Z.of_nat (history_len t))%Z
  end.
Proof.
  intros Hg Hs HP. unfold trim_scrollback_to_limit. monad. case_decide as Hd; [|split; [done|lia]].
  pose proof (prune_rule P (history_len t - scrollback_limit t) t Hg Hs HP) as Hp.
  destruct (prune_scrollback_rows _ t) as [[] t'| |]; [|done|lia].
  destruct Hp as (H1 & Hlen & Hlim). split; [done|]. lia.
Qed.

Lemma trim_inv b size t :
  inv b size t →
  match trim_scrollback_to_limit t with Ok _ t' => inv true size t' | Err _ _ => False | Panic => True end.
Proof.
  intros Hi.
  pose proof (trim_rule (inv false size) t (gfx_frame_inv false size)) as Hp.
  specialize (Hp (λ t t' H1 H2 H3, inv_same false false size t t' H1 H2 H3 ltac:(done))).
  assert (inv false size t) as Hf by (by eapply inv_same, Hi). specialize (Hp Hf).
  destruct (trim_scrollback_to_limit t) as [[] t'| |]; [|done|done].
  destruct Hp as [H1 Hlen]. by eapply inv_same, H1.
Qed.

(** ** Scrolling *)

Lemma same_shape_scroll_up g top bottom count blank n :
  same_shape g (TerminalGrid.rotate_up_rows top bottom count blank n g).2.
Proof. by apply (same_shape_op g (OpScrollUp top bottom count blank n)). Qed.

Lemma same_shape_scroll_down g top bottom count blank n :
  same_shape g (TerminalGrid.scroll_down_rows top bottom count blank n g).
Proof. by apply (same_shape_op g (OpScrollDown top bottom count blank n)). Qed.

Lemma same_shape_copy first last from to g : same_shape g (copy_row first last from to g).
Proof.
  unfold copy_row. apply foldl_preorder; [apply _|]. intros. apply same_shape_set.
Qed.

Lemma same_shape_blank first last blank row g : same_shape g (blank_row first last blank row g).
Proof.
  unfold blank_row. apply foldl_preorder; [apply _|]. intros. apply same_shape_set.
Qed.

(** Frames for the operations below: cells, graphics, damage and counters. *)
Definition scroll_frame t t' : Prop :=
  (∀ b size, inv b size t → inv b size t') ∧ scrollback t' = scrollback t ∧
  main_stable_row_offset t' = main_stable_row_offset t ∧ screen_size t' = screen_size t.

#[export] Instance scroll_frame_preorder : PreOrder scroll_frame.
Proof.
  split; [done|]. intros t1 t2 t3 (H1 & H2 & H3 & H4) (H5 & H6 & H7 & H8).
  split_and!; [auto|by rewrite H6|by rewrite H7|by rewrite H8].
Qed.

Lemma gfx_scroll_frame t t' : gfx_frame t t' → scroll_frame t t'.
Proof.
  intros H. split_and!; [by intros; eapply gfx_frame_inv|..]; destruct H as [H1 H2 _];
    [by rewrite H1|by rewrite H1|unfold screen_size, Screen.size; by rewrite H2].
Qed.

Lemma cells_scroll_frame t t' : cells_frame t t' → scroll_frame t t'.
Proof.
  intros H. split_and!; [by intros; eapply cells_frame_inv|..]; destruct H as [H1 [H2 [H3 _]]];
    [by rewrite H1|by rewrite H1|done].
Qed.

Lemma clones_scroll_frame n m t : scroll_frame t (record_scrolled_survivor_cell_clones n m t).
Proof. split_and!; try done. intros b size H. by eapply inv_same, H; [| | |apply H]. Qed.

Hint Resolve gfx_scroll_frame cells_scroll_frame call_frame record_damage_frame damage_screen_frame
  touch_rows_frame clones_scroll_frame : screen.

Lemma scroll_down_region_frame top bottom count t : scroll_frame t (scroll_down_region top bottom count t).
Proof.
  unfold scroll_down_region. case_decide; [done|].
  set (t1 := call _ (call _ t)).
  assert (scroll_frame t t1) as H1 by (unfold t1; etrans; apply gfx_scroll_frame, call_frame).
  etrans; [exact H1|]. etrans; [|apply gfx_scroll_frame, record_damage_frame].
  etrans; [|apply cells_scroll_frame, touch_rows_frame].
  apply cells_scroll_frame, cells_frame_grid, same_shape_scroll_down.
Qed.

Lemma copy_rows_frame (f : TerminalGrid → nat → TerminalGrid) l t :
  (∀ g row, same_shape g (f g row)) →
  scroll_frame t (t{{ active -> grid := foldl f (grid (active t)) l }}).
Proof. intros Hf. apply cells_scroll_frame, cells_frame_grid, foldl_preorder; [apply _|done]. Qed.

Lemma bounded_down_frame top bottom count first last t :
  scroll_frame t (scroll_down_bounded_cells top bottom count first last t).
Proof.
  unfold scroll_down_bounded_cells.
  etrans; [|apply copy_rows_frame; intros; apply same_shape_blank].
  case_decide; [|done].
  etrans; [|apply copy_rows_frame; intros; apply same_shape_copy]. apply clones_scroll_frame.
Qed.

Lemma bounded_up_frame top bottom count first last t :
  scroll_frame t (scroll_up_bounded_cells top bottom count first last t).
Proof.
  unfold scroll_up_bounded_cells.
  etrans; [|apply copy_rows_frame; intros; apply same_shape_blank].
  case_decide; [|done].
  etrans; [|apply copy_rows_frame; intros; apply same_shape_copy]. apply clones_scroll_frame.
Qed.

Lemma bounded_scroll_frame top bottom first last tr f t :
  (∀ t, scroll_frame t (f t)) → scroll_frame t (bounded_scroll top bottom first last tr f t).
Proof.
  intros Hf. unfold bounded_scroll.
  pose proof (call_flag_frame (RetireMalformedGraphics top bottom first last) t) as H1.
  destruct (call_flag _ t) as [b1 t1]. simpl in H1.
  pose proof (call_flag_frame (ApplyCellTransform tr) t1) as H2.
  destruct (call_flag _ t1) as [b2 t2]. simpl in H2.
  assert (scroll_frame t t2) as H by (etrans; apply gfx_scroll_frame; eassumption).
  etrans; [exact H|]. etrans; [apply Hf|].
  etrans; [apply cells_scroll_frame, touch_rows_frame|].
  etrans; [apply gfx_scroll_frame, record_damage_frame|].
  case_match; [apply gfx_scroll_frame, damage_screen_frame|done].
Qed.

Lemma scroll_down_margins_frame top bottom count t :
  scroll_frame t (scroll_down_with_horizontal_margins top bottom count t).
Proof.
  unfold scroll_down_with_horizontal_margins. case_decide; [done|].
  destruct (Screen.bounded_horizontal_scroll_columns (active t)) as [[first last]|].
  - apply bounded_scroll_frame, bounded_down_frame.
  - apply scroll_down_region_frame.
Qed.
End terminal.
