(* ===== verification/TerminalKeeps.v ===== *)
(** Every operation of the terminal keeps its invariant: scrolling, line
    feeds, insertion, deletion, erasing, printing, modes, resets, CSI and OSC
    functions, and so every input. Statements about monadic operations are
    of the form [preserves (inv true size)]. *)
From Stdlib Require Import Sorted.
From coqutil Require Import Datatypes.RecordSetters.
From S2P Require Import Prelude Text Grid GridFacts Csi Reflow Utf8 Feed Screen Scroll Edit Control.
From S2P Require Import ScreenFacts TerminalInv.
Import DoubleBraceUpdate.

(** Name the next [let] of a computation, or split its next [if]. *)
Ltac next_let :=
  lazymatch goal with
  | |- preserves ?I (let x := ?v in @?k x) =>
      let y := fresh x in pose (y := v); change (preserves I (k y)); cbv beta
  end.
Ltac next_if :=
  repeat next_let;
  lazymatch goal with
  | |- preserves _ (match ?b with _ => _ end) =>
      lazymatch type of b with
      | sumbool _ _ => destruct b
      | _ => destruct b eqn:?
      end
  end.

Section keeps.
  Context `{Ext : External} `{Gfx : Graphics}.
  Abbreviation TM := (M Empty_set Terminal).
  Implicit Types (t : Terminal) (s : ScreenState) (size : TerminalSize).

(** ** Rules *)

Lemma preserves_get {B} (I : Terminal → Prop) (k : Terminal → TM B) :
  (∀ t, I t → preserves I (k t)) → preserves I (get_state ≫= k).
Proof. intros Hk t Ht. by apply (Hk t Ht t Ht). Qed.

Lemma preserves_seq {B} (I : Terminal → Prop) (m : TM ()) (k : TM B) :
  preserves I m → preserves I k → preserves I (m;; k).
Proof. intros Hm Hk. by apply preserves_bind. Qed.

(** Only the active screen changes, and keeps its grid. *)
Lemma active_inv b size t t' :
  t' = t{{ active := active t' }} → (screen_ok (active t) → screen_ok (active t')) →
  grid_size (grid (active t')) = grid_size (grid (active t)) →
  inv b size t → inv b size t'.
Proof.
  intros Ht Hok Hg Hi. rewrite Ht. apply (on_active_inv b size (λ _, active t') t); [|done].
  intros H. by split; [apply Hok|].
Qed.

Lemma on_inv b size f t :
  (∀ s, screen_ok s → screen_ok (f s)) → (∀ s, grid (f s) = grid s) →
  inv b size t → inv b size (on_active f t).
Proof. intros Hf Hg. apply active_inv; [done|apply Hf|]. simpl. by rewrite Hg. Qed.

Lemma cells_inv b size f t :
  (∀ s, cells_only s (f s)) → inv b size t → inv b size (on_active f t).
Proof. intros Hf. apply on_active_inv. intros Hok. by apply cells_only_step. Qed.

(** Fields no part of the invariant reads. *)
Lemma other_inv b size t t' :
  active t' = active t → main_screen t' = main_screen t → tab_stops t' = tab_stops t →
  scrollback t' = scrollback t → scrollback_limit t' = scrollback_limit t →
  inv b size t → inv b size t'.
Proof.
  intros H1 H2 H3 H4 H5 Hi. eapply inv_same; try done. unfold history_len. rewrite H4, H5. apply Hi.
Qed.

Lemma foldl_inv {A} b size (f : Terminal → A → Terminal) l t :
  (∀ t a, inv b size t → inv b size (f t a)) → inv b size t → inv b size (foldl f t l).
Proof. intros Hf. revert t. induction l; simpl; auto. Qed.

Lemma call_inv b size c t : inv b size t → inv b size (call c t).
Proof. apply gfx_frame_inv, call_frame. Qed.

Lemma damage_inv b size d t : inv b size t → inv b size (record_damage d t).
Proof. apply gfx_frame_inv, record_damage_frame. Qed.

Lemma damage_screen_inv b size t : inv b size t → inv b size (damage_screen t).
Proof. apply damage_inv. Qed.

Lemma touch_inv b size l t : inv b size t → inv b size (touch_rows l t).
Proof. apply cells_frame_inv, touch_rows_frame. Qed.

Lemma flag_inv b size c t : inv b size t → inv b size (call_flag c t).2.
Proof. apply gfx_frame_inv, call_flag_frame. Qed.

Lemma reply_inv b size c t : inv b size t → inv b size (call_reply c t).2.
Proof. apply gfx_frame_inv, call_reply_frame. Qed.

Lemma no_wrap_inv b size t : inv b size t → inv b size (t{{ active -> pending_wrap := false }}).
Proof. apply active_inv; [done| |done]. solve_ok. Qed.

Hint Resolve call_inv damage_inv damage_screen_inv touch_inv no_wrap_inv : screen.

(** ** Scrolling *)

Lemma scroll_frame_inv b size t t' : scroll_frame t t' → inv b size t → inv b size t'.
Proof. intros [H _]. apply H. Qed.

Lemma shift_suffix_inv b size start rows t :
  inv b size t → inv b size (shift_suffix_metadata_for_recorded_rows start rows t).
Proof.
  intros Hi. unfold shift_suffix_metadata_for_recorded_rows. case_decide; [done|].
  apply call_inv. by eapply other_inv, Hi.
Qed.

Lemma same_shape_grid_inv b size g t :
  same_shape (grid (active t)) g → inv b size t → inv b size (t{{ active -> grid := g }}).
Proof. intros Hg. by apply cells_frame_inv, cells_frame_grid. Qed.

Lemma trim_keeps size : ∀ t b, inv b size t →
  match trim_scrollback_to_limit t with Ok _ t' => inv true size t' | Err _ t' => inv true size t' | Panic => True end.
Proof. intros t b Hi. pose proof (trim_inv b size t Hi). by case_match. Qed.

Lemma scroll_up_region_keeps size top bottom count :
  preserves (inv true size) (scroll_up_region_by top bottom count).
Proof.
  apply preserves_get. intros t Hi. next_if; [apply preserves_ret|].
  do 3 next_let. next_let.
  assert (inv true size t0) as H1.
  { unfold t0. case_match; [apply shift_suffix_inv; case_decide; auto with screen|].
    by apply call_inv, call_inv. }
  clearbody t0 records_scrollback. next_let. apply preserves_seq.
  { destruct records_scrollback.
    - destruct (TerminalGrid.scroll_up_rows _ _ _ _ _ _) as [exiting g] eqn:Hg.
      intros t1 _. monad. apply trim_keeps with false.
      apply (inv_same true false size (t0{{ active -> grid := g }})); try done.
      apply same_shape_grid_inv; [|exact H1].
      pose proof (same_shape_scroll_up (grid (active t0)) top bottom count0 blank (seqno t0)) as Hs.
      unfold TerminalGrid.scroll_up_rows in Hg. rewrite Hg in Hs. exact Hs.
    - apply preserves_put. apply same_shape_grid_inv; [|done]. apply same_shape_scroll_up. }
  apply preserves_seq; apply preserves_modify; auto with screen.
Qed.

Lemma scroll_up_margins_keeps size top bottom count :
  preserves (inv true size) (scroll_up_with_horizontal_margins top bottom count).
Proof.
  apply preserves_get. intros t Hi. next_if; [apply preserves_ret|]. next_if.
  - destruct p as [first last]. apply preserves_modify. intros t'.
    apply scroll_frame_inv, bounded_scroll_frame, bounded_up_frame.
  - apply scroll_up_region_keeps.
Qed.

Lemma scroll_down_margins_inv b size top bottom count t :
  inv b size t → inv b size (scroll_down_with_horizontal_margins top bottom count t).
Proof. apply scroll_frame_inv, scroll_down_margins_frame. Qed.

(** ** Line feeds *)

(** What the invariant says of the numbers of the active screen. *)
Lemma inv_screen b size t :
  inv b size t → screen_ok (active t) ∧ Screen.rows (active t) = size_rows size ∧
    Screen.columns (active t) = size_columns size.
Proof. intros [Hok <- _ _ _]. done. Qed.

Lemma move_to_row_inv b size row wrapped t :
  row ≤ size_rows size - 1 → inv b size t → inv b size (move_to_row row wrapped t).
Proof.
  intros Hrow Hi. destruct (inv_screen b size t Hi) as (Hok & Hr & _).
  unfold move_to_row. apply on_active_inv; [intros _|done].
  assert (screen_ok ((active t){{ cursor_row := row }})) as H1.
  { destruct Hok as [? ? [_ Hcol] ? ?]. split; try done.
    split; [|exact Hcol]. unfold Screen.rows, Screen.size in *. simpl. rewrite Hr. lia. }
  pose proof (cells_only_wrapped (seqno t) row wrapped ((active t){{ cursor_row := row }})) as Hc.
  destruct (cells_only_step _ _ H1 Hc) as [H2 H3]. split; [by apply semantic_ok|].
  unfold Screen.clear_semantic_type_due_to_movement. by case_match.
Qed.

Lemma index_down_keeps size wrapped : preserves (inv true size) (index_down wrapped).
Proof.
  apply preserves_seq; [apply preserves_modify; auto with screen|].
  apply preserves_get. intros t Hi. destruct (inv_screen _ _ _ Hi) as (Hok & Hr & _).
  destruct Hok as [_ _ [Hc _] _ _]. rewrite Hr in Hc.
  next_if; [apply preserves_ret|]. subst rows. next_if.
  - apply preserves_seq; [apply scroll_up_margins_keeps|].
    apply preserves_modify. intros t'. apply move_to_row_inv. subst bottom s. rewrite Hr. lia.
  - apply preserves_modify. intros t'. apply move_to_row_inv. subst s. rewrite Hr. case_decide; lia.
Qed.

Lemma index_down_control_keeps size wrapped : preserves (inv true size) (index_down_control wrapped).
Proof.
  apply preserves_get. intros t Hi. next_if; [apply index_down_keeps|apply preserves_ret].
Qed.

Lemma index_down_outside_inv b size wrapped t :
  inv b size t → inv b size (index_down_outside_horizontal_margins wrapped t).
Proof.
  intros Hi. unfold index_down_outside_horizontal_margins.
  assert (inv b size (t{{ active -> pending_wrap := false }})) as H1 by auto with screen.
  case_decide; [done|]. apply move_to_row_inv; [|done].
  destruct (inv_screen _ _ _ H1) as ([_ _ [Hc _] _ _] & Hr & _).
  rewrite Hr in Hc |- *. case_decide; [|lia]. lia.
Qed.

Lemma carriage_return_inv b size t : inv b size t → inv b size (on_active Screen.carriage_return t).
Proof. apply on_inv; [apply carriage_return_ok|done]. Qed.

Lemma newline_keeps size : preserves (inv true size) newline.
Proof.
  apply preserves_seq; [apply preserves_modify, carriage_return_inv|apply index_down_keeps].
Qed.

Lemma line_feed_keeps size : preserves (inv true size) line_feed.
Proof.
  apply preserves_get. intros t Hi. next_if; [apply index_down_keeps|].
  apply preserves_modify. intros. by apply index_down_outside_inv.
Qed.

Lemma wrapped_newline_keeps size : preserves (inv true size) wrapped_newline.
Proof.
  apply preserves_get. intros t Hi. next_if.
  - apply preserves_modify. intros t' Hi'. apply index_down_outside_inv. revert Hi'.
    apply active_inv; [done| |done]. solve_ok.
  - apply preserves_seq; [apply preserves_modify, carriage_return_inv|apply index_down_keeps].
Qed.

Lemma next_line_keeps size : preserves (inv true size) next_line.
Proof.
  apply preserves_get. intros t Hi. next_let. apply preserves_seq.
  - apply preserves_modify. intros t'. apply on_inv.
    + intros s. unfold Screen.carriage_return. solve_ok.
    + intros s. by case_match.
  - next_if; [apply index_down_keeps|]. apply preserves_modify. intros. by apply index_down_outside_inv.
Qed.

Lemma reverse_index_inv b size t : inv b size t → inv b size (reverse_index t).
Proof.
  intros Hi. unfold reverse_index. case_match; [done|].
  set (t1 := t{{ active -> pending_wrap := false }}).
  assert (inv b size t1) as H1 by (unfold t1; auto with screen).
  case_decide; [done|]. apply on_inv; [apply semantic_ok| |].
  { intros s. unfold Screen.clear_semantic_type_due_to_movement. by case_match. }
  clearbody t1. case_decide.
  - eapply active_inv; [done| |done|by apply scroll_down_margins_inv, H1].
    destruct (inv_screen _ _ _ H1) as (_ & Hr & _).
    match goal with |- screen_ok (active ?u) → _ => assert (inv b size u) as Hu
      by (by apply scroll_down_margins_inv) end.
    destruct (inv_screen _ _ _ Hu) as (_ & Hr2 & _).
    intros [? ? [_ Hcol] ? ?]. split; try done. split; [|exact Hcol].
    unfold Screen.rows, Screen.size in *. simpl. rewrite Hr2, Hr. lia.
  - revert H1. apply active_inv; [done| |done]. solve_ok.
Qed.

Lemma insert_lines_inv b size count t : inv b size t → inv b size (insert_lines count t).
Proof.
  intros Hi. unfold insert_lines. case_match; [auto with screen|].
  repeat case_match; auto with screen. apply scroll_down_margins_inv. auto with screen.
Qed.

Lemma scroll_down_inv b size count t : inv b size t → inv b size (scroll_down count t).
Proof.
  intros Hi. unfold scroll_down. repeat case_match; auto with screen.
  apply scroll_down_margins_inv. auto with screen.
Qed.

Lemma delete_lines_keeps size count : preserves (inv true size) (delete_lines count).
Proof.
  apply preserves_seq; [apply preserves_modify; auto with screen|].
  apply preserves_get. intros t Hi. next_if; [apply preserves_ret|].
  next_if; [|apply preserves_ret]. destruct p. apply scroll_up_margins_keeps.
Qed.

Lemma scroll_up_keeps size count : preserves (inv true size) (scroll_up count).
Proof.
  apply preserves_seq; [apply preserves_modify; auto with screen|].
  apply preserves_get. intros t Hi. next_if; [|apply preserves_ret].
  destruct p. apply scroll_up_margins_keeps.
Qed.

(** ** Character edits *)

Lemma prepare_inv b size right transform t :
  inv b size t → inv b size (prepare_bounded_character_edit_attachments right transform t).2.
Proof.
  intros Hi. unfold prepare_bounded_character_edit_attachments.
  assert (∀ c u, inv b size u → inv b size (call_flag c u).2) as Hf by (intros; by apply flag_inv).
  destruct transform as [tr|], (bool_decide _); try done.
  - set (u := call (TransformPlaceholders tr) t).
    assert (inv b size u) as Hu by (unfold u; auto with screen).
    pose proof (Hf (RetireMalformedGraphics (cursor_row (active t)) (cursor_row (active t))
      (cursor_column (active t)) right) u Hu) as H1.
    destruct (call_flag _ u) as [f1 u1]. specialize (Hf (ApplyCellTransform tr) u1 H1).
    by destruct (call_flag _ u1) as [f2 u2].
  - specialize (Hf (RetireGraphics (cursor_row (active t)) (cursor_row (active t))
      (cursor_column (active t)) right) t Hi). by destruct (call_flag _ t).
Qed.

Lemma move_cells_only n row l source target s : cells_only s (move_cells n row l source target s).
Proof. unfold move_cells. apply foldl_preorder; [apply _|]. intros. apply cells_only_set. Qed.

Lemma fill_blank_only n row l s : cells_only s (fill_blank n row l s).
Proof. unfold fill_blank. apply foldl_preorder; [apply _|]. intros. apply cells_only_set. Qed.

(** A move, a fill and the repair of split graphemes. *)
Lemma character_edit_only n row l source target l' s :
  cells_only s (Screen.sanitize_grapheme_spans n row
                  (fill_blank n row l' (move_cells n row l source target s))).
Proof.
  etrans; [apply move_cells_only|]. etrans; [apply fill_blank_only|apply cells_only_sanitize].
Qed.

Lemma finish_edit_inv b size right flags t :
  inv b size t → inv b size (finish_character_edit right flags t).
Proof. intros. unfold finish_character_edit. case_match; auto with screen. Qed.

Lemma insert_boundary_inv b size count right tr t :
  inv b size t → inv b size (insert_blank_characters_with_right_boundary count right tr t).
Proof.
  intros Hi. unfold insert_blank_characters_with_right_boundary. case_decide; [done|].
  match goal with |- context [prepare_bounded_character_edit_attachments ?r ?x t] =>
    pose proof (prepare_inv b size r x t Hi) as Hp;
    destruct (prepare_bounded_character_edit_attachments r x t) as [flags u] end.
  apply finish_edit_inv, cells_inv; [|exact Hp]. intros. apply character_edit_only.
Qed.

Lemma delete_boundary_inv b size count right t :
  inv b size t → inv b size (delete_characters_with_right_boundary count right t).
Proof.
  intros Hi. unfold delete_characters_with_right_boundary. case_decide; [done|].
  match goal with |- context [prepare_bounded_character_edit_attachments ?r ?x t] =>
    pose proof (prepare_inv b size r x t Hi) as Hp;
    destruct (prepare_bounded_character_edit_attachments r x t) as [flags u] end.
  apply finish_edit_inv, cells_inv; [|exact Hp]. intros. apply character_edit_only.
Qed.

Lemma leader_of_le column cell : Screen.leader_of column cell ≤ column.
Proof. unfold Screen.leader_of. case_match; lia. Qed.

Lemma grapheme_leader_le column s : Screen.grapheme_leader_column column s ≤ column.
Proof. unfold Screen.grapheme_leader_column. case_match; [apply leader_of_le|done]. Qed.

(** The cursor moves left. *)
Lemma column_inv b size column t :
  column ≤ size_columns size - 1 → inv b size t → inv b size (t{{ active -> cursor_column := column }}).
Proof.
  intros Hc Hi. destruct (inv_screen _ _ _ Hi) as (_ & _ & Hcol). revert Hi.
  apply active_inv; [done| |done]. intros [? ? [Hrow _] ? ?]. split; try done.
  split; [exact Hrow|]. unfold Screen.columns, Screen.size in *. simpl. by rewrite Hcol.
Qed.

Lemma leader_inv b size column t :
  column ≤ size_columns size - 1 → inv b size t →
  inv b size (t{{ active -> cursor_column := Screen.grapheme_leader_column column (active t) }}).
Proof. intros Hc. apply column_inv. pose proof (grapheme_leader_le column (active t)). lia. Qed.

Lemma inv_column b size t : inv b size t → cursor_column (active t) ≤ size_columns size - 1.
Proof. intros Hi. destruct (inv_screen _ _ _ Hi) as ([_ _ [_ Hc] _ _] & _ & Hcol). by rewrite <-Hcol. Qed.

Lemma insert_blank_inv b size count t : inv b size t → inv b size (insert_blank_characters count t).
Proof.
  intros Hi. unfold insert_blank_characters. set (u := t{{ active -> pending_wrap := false }}).
  assert (inv b size u) as Hu by (unfold u; auto with screen). clearbody u. case_match; [done|].
  apply insert_boundary_inv, leader_inv; [|done]. by apply (inv_column b).
Qed.

Lemma insert_for_write_inv b size count t :
  inv b size t → inv b size (insert_blank_characters_for_write count t).
Proof.
  intros Hi. apply insert_boundary_inv, leader_inv; [|done]. by apply (inv_column b).
Qed.

Lemma delete_characters_keeps size count : preserves (inv true size) (delete_characters count).
Proof.
  apply preserves_seq; [apply preserves_modify; auto with screen|].
  apply preserves_get. intros t Hi. next_if; [apply preserves_ret|]. next_let.
  destruct (grapheme_aligned_delete_range (delete_fuel s) count right s) as [[start n]|] eqn:Hr; [|done].
  assert (start ≤ size_columns size - 1) as Hs.
  { unfold grapheme_aligned_delete_range in Hr. apply bind_Some in Hr as (finish & _ & Hr).
    injection Hr as <- _. pose proof (grapheme_leader_le (cursor_column s) s).
    pose proof (inv_column _ _ _ Hi). subst s. lia. }
  apply (preserves_modify (E:=Empty_set)). intros t' Hi'. by apply delete_boundary_inv, column_inv.
Qed.

Lemma erase_characters_inv b size count t : inv b size t → inv b size (erase_characters count t).
Proof.
  intros Hi. unfold erase_characters. set (u := t{{ active -> pending_wrap := false }}).
  assert (inv b size u) as Hu by (unfold u; auto with screen). clearbody u. case_decide; [done|].
  apply damage_inv, cells_inv; [|done]. intros s.
  etrans; [apply fill_blank_only|apply cells_only_sanitize].
Qed.

(** ** Erasing *)

Lemma clear_cell_inv b size sel row source column t :
  inv b size t → inv b size (clear_cell sel row source column t).
Proof.
  intros Hi. unfold clear_cell. case_match; [done|]. apply cells_inv; [intros; apply cells_only_set|].
  destruct sel; auto with screen.
Qed.

Lemma clear_cells_inv b size row c1 c2 sel t :
  inv b size t → inv b size (clear_cells row c1 c2 sel t).
Proof.
  intros Hi. unfold clear_cells. case_decide; [done|]. case_decide; [done|]. apply damage_inv.
  match goal with |- inv _ _ (if _ then on_active _ ?u else _) => assert (inv b size u) as Hu end.
  { apply cells_inv; [intros; apply cells_only_sanitize|].
    apply foldl_inv; [intros; by apply clear_cell_inv|]. destruct sel; auto with screen. }
  case_decide; [|exact Hu]. apply cells_inv; [|exact Hu]. intros. apply cells_only_wrapped.
Qed.

Lemma clear_rows_inv b size rows sel t : inv b size t → inv b size (clear_rows rows sel t).
Proof. apply foldl_inv. intros. by apply clear_cells_inv. Qed.

Lemma prune_keeps size n : preserves (inv true size) (prune_scrollback_rows n).
Proof.
  intros t Hi. pose proof (prune_inv n true true size t Hi (λ _, or_introl eq_refl)). by case_match.
Qed.

(** A counter is read, checked and written back. *)
Lemma counter_keeps (I : Terminal → Prop) (get : Terminal → Z) (limit step : Z) (set : Z → Terminal → Terminal) :
  (∀ n t, I t → I (set n t)) →
  preserves I (t ← get_state; n ← expect (checked_add limit (get t) step); put_state (set n t) : TM ()).
Proof.
  intros Hset. apply preserves_get. intros t Hi. apply preserves_bind; [apply preserves_expect|].
  intros n. by apply preserves_put, Hset.
Qed.

Lemma bump_keeps size : preserves (inv true size) bump_screen_identity_generation.
Proof.
  apply (counter_keeps _ screen_identity_generation _ 1 (λ n t, t{{ screen_identity_generation := n }})).
  intros n t. by apply other_inv.
Qed.

Lemma advance_seqno_keeps size : preserves (inv true size) advance_seqno.
Proof. apply (counter_keeps _ seqno _ 1 (λ n t, t{{ seqno := n }})). intros n t. by apply other_inv. Qed.

Lemma erase_display_keeps size mode sel : preserves (inv true size) (erase_display mode sel).
Proof.
  apply preserves_get. intros t Hi. next_if; [apply prune_keeps|].
  next_if; [apply preserves_ret|].
  next_if; [apply preserves_modify; intros; by apply clear_rows_inv, clear_cells_inv|].
  next_if; [apply preserves_modify; intros; by apply clear_cells_inv, clear_rows_inv|].
  next_if; [|apply preserves_ret]. apply preserves_seq.
  - destruct sel; [apply preserves_ret|apply bump_keeps].
  - apply preserves_modify. intros t' Hi'. destruct sel; [|apply call_inv]; by apply clear_rows_inv.
Qed.

Lemma erase_line_inv b size mode sel t : inv b size t → inv b size (erase_line mode sel t).
Proof.
  intros Hi. unfold erase_line. case_decide; [done|]. repeat case_match; auto using clear_cells_inv.
Qed.

(** ** Printing *)

Lemma write_continuations_only n row column base first last s :
  cells_only s (write_continuations n row column base first last s).
Proof. unfold write_continuations. apply foldl_preorder; [apply _|]. intros. apply cells_only_set. Qed.

Lemma overflow_only row l s :
  cells_only s (s{{ grid := TerminalGrid.set_reflow_overflow row l (grid s) }}).
Proof. apply cells_only_grid, same_shape_overflow. Qed.

Lemma rewrite_grapheme_only n row column cell g w1 w2 w3 s :
  cells_only s (rewrite_grapheme n row column cell g w1 w2 w3 s).
Proof.
  unfold rewrite_grapheme. etrans; [|apply overflow_only]. etrans; [apply cells_only_set|].
  case_decide; [apply write_continuations_only|].
  apply foldl_preorder; [apply _|]. intros. apply cells_only_set.
Qed.

Lemma joins_previous_column ch s row column cell g :
  grid_ok (grid s) → joins_previous ch s = Some (row, column, cell, g) → column < Screen.columns s.
Proof.
  intros Hg H. unfold joins_previous in H. apply bind_Some in H as ([r c] & _ & H).
  apply bind_Some in H as (cell' & Hget & H). case_match; [done|].
  case_bool_decide; [|done]. injection H as -> -> _ _.
  apply (grid_ok_get (grid s) row column Hg). by eexists.
Qed.

Lemma extend_inv b size ch t : inv b size t → inv b size (extend_previous_grapheme ch t).2.
Proof.
  intros Hi. unfold extend_previous_grapheme.
  destruct (joins_previous ch (active t)) as [[[[row column] cell] g]|] eqn:Hj; [|done].
  case_decide; [done|]. case_decide; [done|]. cbn [snd].
  destruct (inv_screen _ _ _ Hi) as (Hok & _ & Hcol).
  pose proof (joins_previous_column _ _ _ _ _ _ (ok_grid _ Hok) Hj) as Hc. rewrite Hcol in Hc.
  match goal with |- inv _ _ (on_active _ ?u) => assert (inv b size u) as Hu end.
  { apply damage_inv, cells_inv; [|done]. intros. apply rewrite_grapheme_only. }
  revert Hu. match goal with |- inv _ _ ?u → _ => generalize u end. intros u Hu.
  destruct (inv_screen _ _ _ Hu) as (_ & _ & Hcolu).
  revert Hu. apply active_inv; [done| |].
  - intros Hoku. simpl.
    assert (screen_ok ((active u){{ cursor_column := column; pending_wrap := false }})) as H1.
    { destruct Hoku as [? ? [Hrow _] ? ?]. split; try done. split; [exact Hrow|].
      unfold Screen.columns, Screen.size in *. simpl. lia. }
    match goal with |- context [Screen.advance_cursor ?n _] => destruct (advance_ok n _ H1) end.
    by split.
  - simpl. unfold Screen.advance_cursor. by case_decide.
Qed.

Lemma put_character_inv b size ch width write_width t :
  inv b size t → inv b size (put_character ch width write_width t).
Proof.
  intros Hi. unfold put_character.
  match goal with |- context [history_len ?v + _] =>
    match v with on_active _ _ => set (u := v) end end.
  assert (inv b size u) as Hu.
  { apply cells_inv; [|done]. intros s. apply foldl_preorder; [apply _|].
    intros. apply cells_only_clear_span. }
  clearbody u. clear Hi.
  pose proof (cells_only_set (seqno u) (cursor_row (active t)) (cursor_column (active t))
    (Cell.set_text [ch] (saturating_u8 (Z.of_nat width)) (style (active u))) (active u)) as Hs.
  destruct (Screen.set_grid_cell _ _ _ _ _) as [ok s]. simpl in Hs. destruct ok; [|done].
  assert (inv b size (u{{ active := s }})) as H1.
  { apply (cells_frame_inv b size u); [|done]. split; [done|exact Hs]. }
  revert H1. generalize (u{{ active := s }}). clear Hu Hs. intros v Hv.
  match goal with |- context [call (ClearPlaceholderCells ?r ?c ?w) v] =>
    assert (inv b size (call (ClearPlaceholderCells r c w) v)) as H2 by auto with screen;
    revert H2; generalize (call (ClearPlaceholderCells r c w) v) end.
  clear Hv v. intros v Hv.
  match goal with |- context [record_damage ?d ?x] => assert (inv b size x) as H2 end.
  { apply cells_inv; [|done]. intros s'. etrans; [apply write_continuations_only|].
    case_decide; [apply overflow_only|done]. }
  revert H2. match goal with |- inv _ _ ?x → _ => generalize x end. clear Hv v. intros v Hv.
  match goal with |- context [on_active ?f (record_damage ?d v)] =>
    assert (inv b size (on_active f (record_damage d v))) as H3;
    [|destruct (bool_decide (ch = KITTY_UNICODE_PLACEHOLDER)); apply call_inv, H3] end.
  apply on_inv; [| |auto with screen].
  - intros s' Hs'. destruct (advance_ok write_width s' Hs'). by split.
  - intros s'. simpl. unfold Screen.advance_cursor. by case_decide.
Qed.

Lemma write_char_keeps size ch : preserves (inv true size) (write_char ch).
Proof.
  apply preserves_get. intros t Hi. next_if; [apply preserves_ret|].
  pose proof (flag_inv true size (ApplyPlaceholderDiacritic ch0) t Hi) as H1.
  destruct (call_flag (ApplyPlaceholderDiacritic ch0) t) as [d t1]. simpl in H1.
  next_if; [by apply preserves_put|].
  pose proof (extend_inv true size ch0 t1 H1) as H2.
  destruct (extend_previous_grapheme ch0 t1) as [e t2]. simpl in H2.
  next_if; [by apply preserves_put|]. next_let.
  assert (inv true size t0) as H3 by (subst t0; auto with screen). clearbody t0.
  next_if; [by apply preserves_put|].
  apply preserves_seq; [by apply preserves_put|]. apply preserves_seq.
  { next_if; [apply wrapped_newline_keeps|]. apply preserves_modify. auto with screen. }
  apply preserves_get. intros t3 H4. apply preserves_seq.
  { next_if; [apply wrapped_newline_keeps|apply preserves_ret]. }
  apply preserves_get. intros t4 H5. next_if; [apply preserves_ret|]. next_let.
  apply preserves_modify. intros t5 H6. apply put_character_inv.
  destruct (write_mode (modes (active t5))); [done|by apply insert_for_write_inv].
Qed.

Lemma repeat_keeps size count : preserves (inv true size) (repeat_previous_character count).
Proof.
  apply preserves_get. intros t Hi. next_if; [|apply preserves_ret].
  apply preserves_iterM. intros _. apply preserves_seq.
  - apply preserves_modify. intros t' Hi'. eapply active_inv, Hi'; [done| |done]. solve_ok.
  - apply preserves_iterM. intros ch. apply write_char_keeps.
Qed.
End keeps.
