(* ===== verification/ControlKeeps.v ===== *)
(** The control functions keep the terminal's invariant: modes, the
    alternate screen, resets, CSI and OSC dispatch. With the interface
    [PerformerKeeps], proved once for the feed layer over any performer, this
    gives the invariant for every input of bytes. *)
From Stdlib Require Import Sorted.
From coqutil Require Import Datatypes.RecordSetters.
From S2P Require Import Prelude Text Grid GridFacts Csi Parse Reflow Utf8 Feed Screen Scroll Edit Control.
From S2P Require Import ScreenFacts TerminalInv TerminalKeeps.
Import DoubleBraceUpdate.

(** ** The feed layer over any performer *)

(** An invariant every operation of the performer keeps. *)
Class PerformerKeeps (T : Type) `{Performer T} (I : T → Prop) := {
  keeps_finish : ∀ t, I t → I (finish_run t);
  keeps_csi : ∀ c p, preserves I (perform_csi c p);
  keeps_osc : ∀ c, preserves I (perform_osc c);
  keeps_apc : ∀ c, preserves I (perform_apc c);
  keeps_dcs : ∀ c, preserves I (perform_dcs c);
  keeps_index_down : preserves I perform_index_down_control;
  keeps_next_line : preserves I perform_next_line;
  keeps_reverse_index : preserves I perform_reverse_index;
  keeps_line_feed : preserves I perform_line_feed;
  keeps_reset : preserves I perform_reset;
  keeps_alignment : ∀ t, I t → I (perform_alignment_test t);
  keeps_tab_stop : ∀ t, I t → I (perform_set_tab_stop t);
  keeps_save : ∀ t, I t → I (perform_save_cursor t);
  keeps_restore : ∀ t, I t → I (perform_restore_cursor t);
  keeps_character_set : ∀ c t, I t → I (perform_character_set c t);
  keeps_unknown : ∀ s t, I t → I (perform_unknown s t);
  keeps_bell : ∀ t, I t → I (perform_bell t);
  keeps_backspace : ∀ t, I t → I (perform_backspace t);
  keeps_tab : ∀ t, I t → I (perform_tab t);
  keeps_carriage_return : ∀ t, I t → I (perform_carriage_return t);
  keeps_write_char : ∀ c, preserves I (perform_write_char c);
  keeps_normalize : ∀ l t, I t → I (normalize_leading_combining_marks l t).2;
}.

Section feed.
  Context {T : Type} `{HP : Performer T} (I : T → Prop) `{HK : !PerformerKeeps T I}.
  Abbreviation F := (M Empty_set (Feeder T)).

(** The invariant of the screen behind a feeder. *)
Definition behind (f : Feeder T) : Prop := I (screen f).

Lemma behind_on {A} (m : M Empty_set T A) : preserves I m → preserves behind (on_screen m).
Proof.
  intros Hm f Hf. unfold on_screen, zoom. specialize (Hm (screen f) Hf).
  by destruct (m (screen f)).
Qed.

Lemma behind_modify g : (∀ t, I t → I (g t)) → preserves behind (modify_screen g).
Proof. intros Hg. apply preserves_modify. intros f. apply Hg. Qed.

Lemma behind_ret {A} (a : A) : preserves behind (mret a : F A).
Proof. apply preserves_ret. Qed.

Lemma behind_keep l : preserves behind (keep_pending l).
Proof. apply preserves_bind; [by apply preserves_modify|intros; apply behind_ret]. Qed.

Lemma behind_sequence {A} chars off (p : SequenceParse A) (k : A → F nat) :
  (∀ a, preserves behind (k a)) → preserves behind (sequence_advance chars off p k).
Proof.
  intros Hk. destruct p; [|apply behind_ret|apply behind_keep].
  apply preserves_bind; [apply Hk|intros; apply behind_ret].
Qed.

Lemma behind_content perform content n :
  (∀ c, preserves I (perform c)) → preserves behind (apply_content perform content n).
Proof. intros Hp. apply preserves_bind; [apply behind_on, Hp|intros; apply behind_ret]. Qed.

Hint Resolve keeps_csi keeps_osc keeps_apc keeps_dcs keeps_index_down keeps_next_line
  keeps_reverse_index keeps_line_feed keeps_reset keeps_write_char behind_on behind_ret
  behind_keep behind_sequence behind_content : screen.

(** The pure operations. *)
Ltac pure :=
  apply behind_modify;
  first [ apply keeps_finish | apply keeps_alignment | apply keeps_tab_stop | apply keeps_save
        | apply keeps_restore | apply keeps_character_set | apply keeps_unknown | apply keeps_bell
        | apply keeps_backspace | apply keeps_tab | apply keeps_carriage_return ].

(** Walk through binds and conditionals. *)
Ltac walk :=
  repeat match goal with
  | |- preserves _ (_ ≫= _) => apply preserves_bind; [|intros]
  | |- preserves _ (if ?b then _ else _) => destruct b
  | |- preserves _ (match ?b with _ => _ end) => destruct b
  end; try pure; eauto with screen.

Lemma behind_csi chars off : preserves behind (apply_csi_sequence chars off).
Proof using HK. apply behind_sequence. intros [c n]. walk. Qed.

Lemma behind_skip chars off : preserves behind (skip_control_string chars off).
Proof. apply behind_sequence. intros. apply behind_ret. Qed.

Lemma behind_escape chars : preserves behind (consume_escape_sequence chars).
Proof using HK.
  unfold consume_escape_sequence. destruct (chars !! 1); [|apply behind_keep].
  unfold dispatch_escape, apply_osc_sequence, apply_apc_sequence, apply_dcs_sequence,
    consume_g0_character_set_selection, consume_hash_escape_sequence.
  walk; first [apply behind_csi|apply behind_skip].
Qed.

Lemma behind_c1 ch chars : preserves behind (consume_escape_or_c1_sequence ch chars).
Proof using HK.
  unfold consume_escape_or_c1_sequence. apply preserves_bind; [walk|intros _].
  assert (∀ p, dispatch_c1 ch = Some p → preserves behind (p chars)) as Hd.
  { intros p Hp. unfold dispatch_c1 in Hp.
    repeat (case_match; [injection Hp as <-|]); try done;
      unfold apply_osc_sequence, apply_dcs_sequence; walk;
      first [apply behind_escape|apply behind_csi|apply behind_skip]. }
  destruct (dispatch_c1 ch) as [p|]; [|apply behind_ret].
  intros f Hf. specialize (Hd p eq_refl f Hf). unfold fmap, M_fmap. by destruct (p chars f).
Qed.

Lemma behind_ascii byte : preserves behind (consume_ascii_control byte).
Proof using HK. unfold consume_ascii_control. walk. Qed.

Lemma behind_write text : preserves behind (write_chars text).
Proof using HK. apply preserves_iterM. eauto with screen. Qed.

Lemma behind_text ch chars : preserves behind (consume_text_run_or_ascii_control ch chars).
Proof using HK.
  unfold consume_text_run_or_ascii_control. apply preserves_bind; [|intros is_control].
  { destruct (is_ascii ch); [apply behind_ascii|apply behind_ret]. }
  destruct is_control; [apply behind_ret|]. apply preserves_read. intros f Hf.
  destruct (negb _); [by apply preserves_bind; [apply behind_on, keeps_write_char|intros; apply behind_ret|]|].
  apply preserves_bind; [|intros; apply behind_ret|done].
  unfold write_normalized. case_bool_decide; [apply behind_write|].
  apply preserves_read. intros f' Hf'.
  pose proof (keeps_normalize (take (S (text_run (tail chars))) chars) (screen f') Hf') as Hn.
  destruct (normalize_leading_combining_marks _ (screen f')) as [n t]. simpl in Hn.
  by apply preserves_bind; [by apply preserves_put|intros; apply behind_write|].
Qed.

Lemma behind_loop skip chars : preserves behind (feed_loop skip chars).
Proof using HK.
  revert skip. induction chars as [|ch rest IH]; intros skip; cbn [feed_loop]; [apply behind_ret|].
  destruct skip; [|apply IH]. apply preserves_bind; [apply behind_c1|]. intros [[n|]|].
  - apply IH.
  - apply behind_ret.
  - apply preserves_bind; [apply behind_text|intros; apply IH].
Qed.

Lemma behind_decoded bytes : preserves behind (feed_decoded_at_current_seqno bytes).
Proof using HK.
  apply preserves_read. intros f Hf.
  destruct (decode_chunk (pending_utf8 f) bytes) as [[decoded rest]|]; [|done].
  change (match feed_chars decoded (with_pending_utf8 rest f) with
          | Ok _ s' => behind s' | Err _ s' => behind s' | Panic => True end).
  assert (preserves behind (feed_chars decoded)) as H; [|by apply H].
  apply preserves_read. intros f' Hf'.
  by apply preserves_bind; [by apply preserves_put|intros; apply behind_loop|].
Qed.

Lemma behind_feed bytes : preserves behind (feed_at_current_seqno bytes).
Proof using HK.
  apply preserves_bind.
  - unfold try_feed_direct_ascii_at_current_seqno. apply preserves_read. intros f Hf.
    destruct (_ || _); [done|]. apply preserves_bind; [|intros; apply behind_ret|done].
    apply preserves_iterM. intros byte. apply preserves_bind; [apply behind_ascii|].
    intros []; walk.
  - intros []; [apply behind_ret|apply behind_decoded].
Qed.
End feed.

(** ** The terminal *)

Section terminal.
  Context `{Ext : External} `{Gfx : Graphics}.
  Abbreviation TM := (M Empty_set Terminal).
  Implicit Types (t : Terminal) (s : ScreenState) (size : TerminalSize).

(** A field of the active screen other than its grid, cursor and margins. *)
Ltac field := apply active_inv; [done| |done]; solve_ok.

Lemma default_cursor_style_inv b size t : inv b size t → inv b size (apply_default_cursor_style t).
Proof. field. Qed.

Lemma reverse_video_inv b size e t : inv b size t → inv b size (set_screen_reverse_video e t).
Proof. intros Hi. unfold set_screen_reverse_video. case_match; [done|]. apply damage_inv. revert Hi. field. Qed.

Lemma cursor_shape_inv b size p t : inv b size t → inv b size (set_cursor_shape p t).
Proof.
  intros Hi. unfold set_cursor_shape. destruct (strip_suffix [32%Z] p) as [q|]; [|done].
  destruct (csi_mode q =? 0)%Z; [by apply default_cursor_style_inv|].
  revert Hi. apply active_inv; [done| |done]. intros [? ? ? ? ?]. by split.
Qed.

Lemma protection_inv b size p t : inv b size t → inv b size (set_character_protection p t).
Proof. intros Hi. unfold set_character_protection. case_match; [|done]. revert Hi. field. Qed.

(** ** The alternate screen *)

Lemma inv_u16 b size t :
  inv b size t → size_rows size ≤ Z.to_nat u16_max ∧ size_columns size ≤ Z.to_nat u16_max.
Proof. intros Hi. destruct (inv_screen _ _ _ Hi) as ([_ Hu _ _ _] & Hr & Hc). by rewrite <-Hr, <-Hc. Qed.

(** The margins are reset to the whole screen. *)
Lemma full_margins_inv b size t t' :
  t' = t{{ active := active t' }} → grid (active t') = grid (active t) →
  cursor_row (active t') ≤ size_rows size - 1 → cursor_column (active t') ≤ size_columns size - 1 →
  scroll_top (active t') = 0 → scroll_bottom (active t') = size_rows size - 1 →
  left_margin (active t') = 0 → right_margin (active t') = size_columns size - 1 →
  inv b size t → inv b size t'.
Proof.
  intros Ht Hg Hr Hc Ht0 Hb Hl0 Hrm Hi. pose proof (inv_size _ _ _ Hi) as Hs.
  unfold screen_size, Screen.size in Hs. rewrite <-Hg in Hs. revert Hi.
  apply active_inv; [done| |by rewrite Hg]. intros [H1 H2 _ _ _].
  unfold Screen.rows, Screen.columns, Screen.size in *. rewrite <-Hg in *.
  split; unfold Screen.rows, Screen.columns, Screen.size; rewrite ?Hs; try done; try lia.
  by rewrite <-Hs.
Qed.

Lemma blank_grid_inv b size t :
  inv b size t →
  inv b size (t{{ active -> grid := TerminalGrid.new_with_seqno (screen_size t) (seqno t) }}).
Proof. apply same_shape_grid_inv. split; [done|]. intros _. apply new_with_seqno_ok. Qed.

Lemma enter_alternate_inv b size t :
  inv b size t → main_screen t = None →
  inv b size (t{{ main_screen := Some (screen_state t);
                  active -> grid := TerminalGrid.new_with_seqno (screen_size t) (seqno t) }}).
Proof.
  intros Hi Hm. pose proof (blank_grid_inv b size t Hi) as [I1 I2 I3 I4 I5].
  split; try done. intros s [= <-]. destruct Hi as [H1 H2 _ _ _]. split; [apply H1|exact H2].
Qed.

Lemma leave_alternate_inv b size screen t :
  inv b size t → grid_ok (grid screen) → grid_size (grid screen) = size →
  main_screen t = None → inv b size (restore_screen_state screen t).
Proof.
  intros Hi Hg Hsize Hm. pose proof (inv_u16 _ _ _ Hi) as Hu. destruct Hi as [_ _ _ I4 I5].
  assert (screen_ok (Screen.clamp_to_size screen)) as Hc.
  { apply clamp_to_size_ok; [done|]. unfold Screen.rows, Screen.columns, Screen.size. by rewrite Hsize. }
  split; try done.
  - unfold screen_size, Screen.size, restore_screen_state, on_active, Screen.clamp_to_size. simpl.
    repeat (case_decide; simpl); done.
  - simpl. by rewrite Hm.
Qed.

Lemma drop_dormant_inv b size t : inv b size t → inv b size (t{{ main_screen := None }}).
Proof. intros [I1 I2 I3 I4 I5]. by split. Qed.

Lemma alternate_keeps size enabled : preserves (inv true size) (set_alternate_screen enabled).
Proof.
  intros t Hi. unfold set_alternate_screen. unfold get_state, mbind at 1, M_bind at 1.
  destruct enabled, (main_screen t) as [main|] eqn:Hm; try done;
    monad; unfold bump_screen_identity_generation; monad;
    destruct (checked_add _ _ _) as [n|]; try done; apply damage_inv.
  - set (u := t{{ screen_identity_generation := n }}).
    assert (inv true size u) as Hu by (by eapply other_inv, Hi).
    assert (screen_size u = size) as Hs by apply Hu.
    eapply full_margins_inv, call_inv, call_inv, enter_alternate_inv;
      rewrite ?Hs; try done; simpl; lia.
  - pose proof (inv_dormant _ _ _ Hi main Hm) as [Hg Hsize].
    apply call_inv, leave_alternate_inv; try done.
    by eapply other_inv, drop_dormant_inv, Hi.
Qed.

(** ** Modes and resets *)

Lemma home_grid s : grid (Screen.cursor_home s) = grid s.
Proof. unfold Screen.cursor_home, Screen.clear_semantic_type_due_to_movement. by case_match. Qed.

Lemma semantic_grid s : grid (Screen.clear_semantic_type_due_to_movement s) = grid s.
Proof. unfold Screen.clear_semantic_type_due_to_movement. by case_match. Qed.

Lemma moved_grid r s : grid (Screen.moved_from r s) = grid s.
Proof. unfold Screen.moved_from. case_decide; [done|apply semantic_grid]. Qed.

Lemma restore_grid s : grid (Screen.restore_cursor s) = grid s.
Proof. unfold Screen.restore_cursor. repeat case_match; done. Qed.

Lemma private_mode_keeps size enabled value :
  preserves (inv true size) (set_private_mode_value enabled value).
Proof.
  unfold set_private_mode_value.
  next_if; [apply preserves_modify; intros; by apply reverse_video_inv|].
  next_if; [apply preserves_modify; intros t; apply on_inv; [apply origin_mode_ok|]|].
  { intros s. unfold Screen.set_origin_mode. by rewrite home_grid. }
  next_if; [apply preserves_modify; intros t; apply on_inv; [apply auto_wrap_ok|]|].
  { intros s. unfold Screen.set_auto_wrap. by case_match. }
  do 3 (next_if; [apply preserves_modify; intros t; field|]).
  next_if; [apply preserves_modify; intros t; apply on_inv; [apply margin_mode_ok|]|].
  { intros s. unfold Screen.set_left_right_margin_mode. by case_match. }
  do 2 (next_if; [apply preserves_modify; intros t; field|]).
  next_if; [apply alternate_keeps|]. next_if; [|apply preserves_ret].
  apply preserves_modify. intros t. destruct enabled; apply on_inv.
  - apply save_cursor_ok.
  - done.
  - apply restore_cursor_ok.
  - intros s. apply restore_grid.
Qed.

Lemma set_mode_keeps size params enabled : preserves (inv true size) (set_mode params enabled).
Proof.
  unfold set_mode, set_private_mode. case_bool_decide.
  - case_match; [|apply preserves_ret]. apply preserves_iterM. intros. apply private_mode_keeps.
  - apply preserves_modify. intros t. apply foldl_inv. intros t' v Hi. case_match; [|done].
    revert Hi. apply on_inv; [apply insert_mode_ok|done].
Qed.

Lemma tabs_inv b size stops t :
  tabs_ok (size_columns size) stops → inv b size t → inv b size (t{{ tab_stops := stops }}).
Proof. intros Ht [I1 I2 I3 I4 I5]. by split. Qed.

Lemma new_tabs_ok b size t : inv b size t → tabs_ok (size_columns size) (TabStops.new size).
Proof. intros Hi. destruct (inv_u16 _ _ _ Hi). destruct size. by apply tabs_new. Qed.

Lemma reset_keeps size : preserves (inv true size) reset_terminal.
Proof.
  apply preserves_seq; [apply bump_keeps|]. apply preserves_get. intros t Hi. next_let.
  assert (size0 = size) as -> by apply Hi.
  apply preserves_seq; [apply prune_keeps|]. apply preserves_seq.
  { apply preserves_modify. intros u Hu. replace size with (screen_size u) at 2 by apply Hu.
    by apply blank_grid_inv. }
  apply preserves_seq; apply preserves_modify; [auto using call_inv|].
  intros u Hu. apply damage_inv.
  eapply full_margins_inv with (u{{ semantic_prompt_rows := []; semantic_command_exits := [];
    main_screen := None; tab_stops := TabStops.new size }}); try done; try (simpl; lia).
  eapply (other_inv true size ((u{{ main_screen := None }}){{ tab_stops := TabStops.new size }})); try done.
  apply tabs_inv; [by eapply new_tabs_ok|]. by apply drop_dormant_inv.
Qed.

Lemma soft_reset_keeps size : preserves (inv true size) soft_reset_terminal.
Proof.
  apply preserves_seq; [apply alternate_keeps|]. apply preserves_modify. intros t Hi.
  assert (screen_size t = size) as Hs by apply Hi. cbv zeta. rewrite Hs. apply damage_inv.
  match goal with |- context [call ClearKittyGraphics ?x] =>
    assert (inv true size (call ClearKittyGraphics x)) as Hu end.
  { apply call_inv. revert Hi. field. }
  revert Hu. generalize (call ClearKittyGraphics
    (t{{ active -> modes -> write_mode := ReplaceMode; active -> modes -> origin_mode := false;
         active -> modes -> auto_wrap := true; active -> modes -> left_right_margin_mode := false;
         active -> modes -> reverse_wrap := false; active -> modes -> screen_reverse := false;
         active -> modes -> cursor_visible := true; active -> style := Cell.default }})).
  intros u Hu. destruct (inv_screen _ _ _ Hu) as ([_ _ [Hr Hc] _ _] & Hrow & Hcol).
  rewrite Hrow in Hr. rewrite Hcol in Hc. by eapply full_margins_inv, Hu.
Qed.

Lemma alignment_row_only n columns row s : cells_only s (alignment_row n columns row s).
Proof.
  unfold alignment_row. etrans; [|apply cells_only_wrapped].
  apply foldl_preorder; [apply _|]. intros. apply cells_only_set.
Qed.

Lemma alignment_inv b size t : inv b size t → inv b size (screen_alignment_test t).
Proof.
  intros Hi. unfold screen_alignment_test. assert (screen_size t = size) as Hs by apply Hi.
  rewrite Hs.
  match goal with |- context [seqno ?x] => assert (inv b size x) as Hu end.
  { eapply full_margins_inv, Hi; try done; simpl; lia. }
  case_decide; [exact Hu|]. apply damage_inv, cells_inv; [|exact Hu].
  intros s. apply foldl_preorder; [apply _|]. intros. apply alignment_row_only.
Qed.

(** ** Control sequences *)

(** Only titles, counters and lists that the invariant does not read. *)
Ltac other := intros; eapply other_inv; [..|eassumption]; repeat case_match; done.

Lemma window_manipulation_inv b size params t :
  inv b size t → inv b size (apply_window_manipulation params t).
Proof. unfold apply_window_manipulation. other. Qed.

Lemma on_keeps size f :
  (∀ s, screen_ok s → screen_ok (f s)) → (∀ s, grid (f s) = grid s) →
  preserves (inv true size) (modify (on_active f) : TM ()).
Proof. intros Hf Hg. apply preserves_modify. intros t. by apply on_inv. Qed.

(** The grid is not touched. *)
Ltac same_grid :=
  intros s; cbv [Screen.move_cursor_up Screen.move_cursor_down Screen.move_cursor_forward
    Screen.move_cursor_back Screen.move_cursor_next_line Screen.move_cursor_previous_line
    Screen.position_cursor Screen.position_cursor_column Screen.position_cursor_row
    Screen.set_scroll_region Screen.set_left_right_margins Screen.backspace];
  repeat case_match; rewrite ?home_grid, ?moved_grid, ?restore_grid; simpl;
  rewrite ?home_grid, ?moved_grid; done.

Lemma tabs_forward_inv b size n t :
  inv b size t → inv b size (on_active (Screen.move_forward_tabs (tab_stops t) n) t).
Proof.
  intros Hi. destruct (inv_screen _ _ _ Hi) as (_ & _ & Hc). pose proof (inv_tabs _ _ _ Hi) as Ht.
  rewrite <-Hc in Ht. revert Hi. apply active_inv; [done| |].
  - intros. by apply forward_tabs_ok.
  - simpl. unfold Screen.move_forward_tabs. by case_decide.
Qed.

Lemma tabs_backward_inv b size n t :
  inv b size t → inv b size (on_active (Screen.move_backward_tabs (tab_stops t) n) t).
Proof.
  apply active_inv; [done|apply backward_tabs_ok|].
  simpl. unfold Screen.move_backward_tabs. by case_decide.
Qed.

Lemma clear_tabs_inv b size mode t :
  inv b size t →
  inv b size (if (mode =? 0)%Z then t{{ tab_stops := TabStops.clear (cursor_column (active t)) (tab_stops t) }}
              else if (mode =? 3)%Z then t{{ tab_stops := TabStops.clear_all (tab_stops t) }} else t).
Proof.
  intros Hi. repeat case_match; [| |done]; apply tabs_inv; try done.
  - apply tabs_filter, Hi.
  - split; constructor.
Qed.

Lemma csi_keeps size command params : preserves (inv true size) (apply_csi command params).
Proof.
  unfold apply_csi.
  next_if; [apply preserves_modify; intros; by apply insert_blank_inv|].
  next_if; [apply on_keeps; [apply move_up_ok|same_grid]|].
  next_if; [apply on_keeps; [apply move_down_ok|same_grid]|].
  next_if; [apply on_keeps; [apply move_forward_ok|same_grid]|].
  next_if; [apply on_keeps; [apply move_back_ok|same_grid]|].
  next_if; [apply on_keeps; [apply next_line_ok|same_grid]|].
  next_if; [apply on_keeps; [apply previous_line_ok|same_grid]|].
  next_if; [apply on_keeps; [apply position_column_ok|same_grid]|].
  next_if; [apply on_keeps; [apply position_ok|same_grid]|].
  next_if; [apply preserves_modify; intros; by apply tabs_forward_inv|].
  next_if; [apply erase_display_keeps|].
  next_if; [apply preserves_modify; intros; by apply erase_line_inv|].
  next_if; [apply preserves_modify; intros; by apply insert_lines_inv|].
  next_if; [apply delete_lines_keeps|].
  next_if; [apply delete_characters_keeps|].
  next_if; [apply scroll_up_keeps|].
  next_if; [apply preserves_modify; intros; by apply scroll_down_inv|].
  next_if; [apply preserves_modify; intros; by apply erase_characters_inv|].
  next_if; [apply preserves_modify; intros; by apply tabs_backward_inv|].
  next_if; [apply repeat_keeps|].
  next_if; [apply on_keeps; [apply position_row_ok|same_grid]|].
  next_if; [apply preserves_modify; intros; by apply clear_tabs_inv|].
  next_if; [apply preserves_modify; intros t; field|].
  next_if.
  { next_if; apply preserves_modify; intros; [by apply protection_inv|by apply cursor_shape_inv]. }
  next_if; [apply soft_reset_keeps|].
  next_if; [apply on_keeps; [apply scroll_region_ok|same_grid]|].
  next_if; [apply preserves_modify; intros; by apply window_manipulation_inv|].
  next_if; [apply set_mode_keeps|].
  next_if; [apply set_mode_keeps|].
  next_if; [apply on_keeps; [intros s; case_match; [apply horizontal_margins_ok|apply save_cursor_ok]|same_grid]|].
  next_if; [apply on_keeps; [apply restore_cursor_ok|apply restore_grid]|].
  apply preserves_modify. unfold record_unknown_escape_sequence. other.
Qed.

Lemma unicode_version_inv b size v t : inv b size t → inv b size (apply_osc1337_unicode_version v t).
Proof. unfold apply_osc1337_unicode_version, pop_labeled_unicode_version. other. Qed.

Lemma title_inv b size x t :
  inv b size t → inv b size (set_icon_and_window_title x t) ∧ inv b size (set_icon_title x t) ∧
    inv b size (set_window_title x t) ∧ inv b size (set_current_working_dir x t).
Proof.
  intros Hi.
  unfold set_icon_and_window_title, set_icon_title, set_window_title, set_current_working_dir, note_title.
  split_and!; revert Hi; other.
Qed.

Lemma iterm_inv b size c t : inv b size t → inv b size (apply_osc1337_iterm_metadata c t).
Proof.
  intros Hi. unfold apply_osc1337_iterm_metadata.
  case_match; [by apply title_inv|].
  case_match; [unfold apply_osc1337_set_user_var; revert Hi; other|].
  case_match; [unfold apply_osc1337_set_badge_format; revert Hi; other|].
  case_match; [by apply call_inv|]. case_match; [by apply unicode_version_inv|done].
Qed.

Lemma prompt_row_inv b size t : inv b size t → inv b size (record_semantic_prompt_row t).
Proof. unfold record_semantic_prompt_row. other. Qed.

Lemma command_exit_inv b size p t : inv b size t → inv b size (record_semantic_command_exit p t).
Proof.
  unfold record_semantic_command_exit. destruct (foldl command_exit_part _ _). other.
Qed.

Lemma semantic_type_inv b size x c t : inv b size t → inv b size (set_semantic_type x c t).
Proof. field. Qed.

Lemma osc133_keeps size c : preserves (inv true size) (apply_osc133_semantic_prompt c).
Proof.
  unfold apply_osc133_semantic_prompt. destruct (default _ _) as [marker params].
  next_if.
  { apply preserves_seq.
    - apply preserves_get. intros t Hi. next_if; [apply preserves_ret|apply newline_keeps].
    - apply preserves_modify. intros. by apply prompt_row_inv, semantic_type_inv. }
  next_if; [apply preserves_modify; intros; by apply prompt_row_inv, semantic_type_inv|].
  do 3 (next_if; [apply preserves_modify; intros; by apply semantic_type_inv|]).
  next_if; [apply preserves_modify; intros; by apply command_exit_inv|apply preserves_ret].
Qed.

Lemma osc_keeps size c : preserves (inv true size) (apply_osc_content c).
Proof.
  unfold apply_osc_content.
  assert (preserves (inv true size)
    match split_once 59 c with
    | None => mret ()
    | Some (command, rest) =>
        if bool_decide (command = lit "0") then modify (set_icon_and_window_title rest)
        else if bool_decide (command = lit "1") then modify (set_icon_title rest)
        else if bool_decide (command = lit "2") then modify (set_window_title rest)
        else if bool_decide (command = lit "7") then modify (set_current_working_dir rest)
        else if bool_decide (command = lit "8") then modify (apply_osc8_hyperlink rest)
        else if bool_decide (command = lit "133") then apply_osc133_semantic_prompt rest
        else if bool_decide (command = lit "1337") then modify (apply_osc1337_iterm_metadata rest)
        else mret ()
    end) as H.
  { destruct (split_once 59 c) as [[command rest]|]; [|apply preserves_ret].
    do 4 (next_if; [apply preserves_modify; intros; by apply title_inv|]).
    next_if.
    { apply preserves_modify. intros t Hi. unfold apply_osc8_hyperlink.
      destruct (split_once 59 rest) as [[? uri]|]; [|done]. revert Hi. field. }
    next_if; [apply osc133_keeps|].
    next_if; [apply preserves_modify; intros; by apply iterm_inv|apply preserves_ret]. }
  destruct c as [|z rest]; [exact H|].
  repeat (case_match; try exact H); apply preserves_modify; intros; by apply title_inv.
Qed.

Lemma apc_keeps size c : preserves (inv true size) (apply_apc_content c).
Proof.
  destruct c as [|z rest]; [apply preserves_ret|]. unfold apply_apc_content.
  repeat (case_match; try apply preserves_ret). apply preserves_modify. intros t Hi.
  pose proof (reply_inv true size (KittyCommand rest) t Hi) as Hr.
  destruct (call_reply _ t) as [r u]. simpl in Hr. destruct (reply_cells r) as [[columns rows]|]; [|done].
  revert Hr. apply on_inv.
  - intros s Hs. by apply move_down_ok, move_forward_ok.
  - same_grid.
Qed.

Lemma dcs_keeps size c : preserves (inv true size) (apply_dcs_content c).
Proof.
  apply preserves_get. intros t Hi.
  pose proof (reply_inv true size (SixelContent c) t Hi) as Hr.
  destruct (call_reply _ t) as [r u]. simpl in Hr.
  apply preserves_seq; [by apply preserves_put|].
  next_if; [destruct p as [columns rows]|apply preserves_ret].
  next_if; [apply preserves_ret|]. apply preserves_seq; [apply index_down_keeps|].
  apply preserves_modify. intros v Hv. case_match; [|done]. revert Hv.
  apply on_inv; [apply move_forward_ok|same_grid].
Qed.

Lemma normalize_marks_inv b size l t : inv b size t → inv b size (normalize_marks l t).2.
Proof.
  intros Hi. unfold normalize_marks. case_decide; [done|].
  destruct (nfc_last_printable_cell (active t)) as [[row column]|]; [|done].
  destruct (TerminalGrid.get _ _ _) as [cell|]; [|done].
  case_bool_decide; [done|]. case_bool_decide; [done|]. case_decide; [done|].
  match goal with |- context [Screen.set_grid_cell ?n ?r ?c ?x ?s] =>
    pose proof (cells_only_set n r c x s) as Hs; destruct (Screen.set_grid_cell n r c x s) as [ok s'] end.
  simpl in Hs. destruct ok; [|done]. cbn [snd].
  assert (inv b size (t{{ active := s' }})) as Ha.
  { apply (cells_frame_inv b size t); [|done]. by split. }
  match goal with |- context [record_damage ?d ?x] =>
    assert (inv b size (record_damage d x)) as Hb by (by apply damage_inv);
    revert Hb; generalize (record_damage d x) end.
  intros u. field.
Qed.

#[export] Instance terminal_keeps size : PerformerKeeps Terminal (inv true size).
Proof.
  split; simpl.
  - intros t Hi. unfold finish_text_run.
    assert (inv true size (call FinishPendingPlaceholder t)) as H by auto using call_inv.
    revert H. field.
  - apply csi_keeps.
  - apply osc_keeps.
  - apply apc_keeps.
  - apply dcs_keeps.
  - apply index_down_control_keeps.
  - apply next_line_keeps.
  - apply preserves_modify. intros. by apply reverse_index_inv.
  - apply line_feed_keeps.
  - apply reset_keeps.
  - apply alignment_inv.
  - intros t Hi. apply tabs_inv; [|done]. replace (screen_size t) with size by (symmetry; apply Hi).
    destruct size. apply tabs_set, Hi.
  - intros t. apply on_inv; [apply save_cursor_ok|done].
  - intros t. apply on_inv; [apply restore_cursor_ok|apply restore_grid].
  - intros c t. field.
  - intros x. unfold record_unknown_escape_sequence. other.
  - other.
  - intros t. apply on_inv; [apply backspace_ok|same_grid].
  - intros t. apply tabs_forward_inv.
  - intros t. apply carriage_return_inv.
  - apply write_char_keeps.
  - intros. by apply normalize_marks_inv.
Qed.

Lemma feed_keeps size bytes : preserves (behind (inv true size)) (feed bytes).
Proof.
  apply preserves_bind; [apply behind_on, advance_seqno_keeps|]. intros _. apply behind_feed, _.
Qed.
End terminal.
