(* ===== verification/ResizeFacts.v ===== *)
(** Resizing re-establishes the terminal's invariant at the new size, on
    both screens, and panics only when a counter is exhausted; with the
    operations of [ControlKeeps] the invariant holds for every history of
    inputs. *)
From Stdlib Require Import Sorted.
From coqutil Require Import Datatypes.RecordSetters.
From S2P Require Import Prelude Text Grid GridFacts Csi Reflow ReflowFacts Utf8 Feed Screen Scroll Edit Control.
From S2P Require Import ScreenFacts TerminalInv TerminalKeeps ControlKeeps.
Import DoubleBraceUpdate.

(** ** The reflowed grid *)

Lemma write_cells_shape row cells g : same_shape g (write_cells row cells g).
Proof. unfold write_cells. apply foldl_preorder; [apply _|]. intros. apply same_shape_set. Qed.

Lemma write_reflow_row_shape columns n g r : same_shape g (write_reflow_row columns n g r).
Proof.
  destruct r as [row [r w]]. unfold write_reflow_row.
  etrans; [apply write_cells_shape|]. etrans; [apply same_shape_overflow|].
  etrans; [apply same_shape_wrapped|apply same_shape_seqno].
Qed.

Lemma reflow_main_screen_grid h g size n row column res :
  reflow_main_screen h g size n row column = Some res →
  grid_ok (rr_grid res) ∧ grid_size (rr_grid res) = size.
Proof.
  unfold reflow_main_screen. intros H. apply bind_Some in H as ([rows cursor] & _ & H).
  set (g0 := foldl _ _ _) in H.
  assert (same_shape (TerminalGrid.new_with_seqno size n) g0) as [H1 H2].
  { apply foldl_preorder; [apply _|]. intros. apply write_reflow_row_shape. }
  destruct cursor as [[]|]; injection H as <-; split; auto using new_with_seqno_ok.
Qed.

Lemma reflow_main_screen_total h g size n row column :
  0 < size_columns size → is_Some (reflow_main_screen h g size n row column).
Proof.
  intros Hc. unfold reflow_main_screen.
  destruct (reflow_lines_spec (size_columns size) (collect_lines (history_rows h) g row column) [] None Hc)
    as (rows & cursor & -> & _).
  simpl. destruct cursor as [[]|]; by eexists.
Qed.

Lemma resize_with_seqno_grid size n g :
  grid_ok (TerminalGrid.resize_with_seqno size n g) ∧ grid_size (TerminalGrid.resize_with_seqno size n g) = size.
Proof. split; [apply resize_with_seqno_ok|done]. Qed.

Section resize.
  Context `{Ext : External} `{Gfx : Graphics}.
  Abbreviation TM := (M Empty_set Terminal).
  Implicit Types (t : Terminal) (s : ScreenState) (size : TerminalSize).

(** ** In the middle of a resize *)

Definition fits_u16 size : Prop :=
  size_rows size ≤ Z.to_nat u16_max ∧ size_columns size ≤ Z.to_nat u16_max.

(** The grids have the new size already. *)
Record shaped size t : Prop := {
  shaped_active : grid_ok (grid (active t)) ∧ grid_size (grid (active t)) = size;
  shaped_dormant : ∀ s, main_screen t = Some s → grid_ok (grid s) ∧ grid_size (grid s) = size;
}.

Lemma shaped_same size t t' :
  grid (active t') = grid (active t) → (grid <$> main_screen t') = (grid <$> main_screen t) →
  shaped size t → shaped size t'.
Proof.
  intros H1 H2 [S1 S2]. split; [by rewrite H1|].
  intros s Hs. rewrite Hs in H2. destruct (main_screen t) as [s0|] eqn:Hm; [|done].
  injection H2 as Hg. rewrite Hg. by apply S2.
Qed.

Lemma shaped_frame size t t' : gfx_frame t t' → shaped size t → shaped size t'.
Proof.
  intros [_ H2 H3]. apply shaped_same; [by rewrite H2|].
  apply (f_equal (fmap grid)) in H3. rewrite <-!option_fmap_compose in H3. exact H3.
Qed.

Lemma clamp_grid s : grid (Screen.clamp_to_size s) = grid s.
Proof. unfold Screen.clamp_to_size. repeat (case_decide; simpl); done. Qed.

(** The tail of a resize: tabs and margins for a clamped screen [c]. *)
Lemma clamped_inv old size t c :
  shaped size t → screen_ok c → grid c = grid (active t) → tabs_ok old (tab_stops t) →
  history_len t ≤ scrollback_limit t →
  inv true size (t{{ tab_stops := TabStops.resize size (tab_stops t);
    active := c{{ scroll_top := 0; scroll_bottom := size_rows size - 1;
                  left_margin := 0; right_margin := size_columns size - 1 }} }}).
Proof.
  intros [[S1 S2] S3] [O1 O2 O3 O4 O5] Hg Ht Hl.
  unfold Screen.rows, Screen.columns, Screen.size in *. rewrite Hg, S2 in *. split.
  - split; unfold Screen.rows, Screen.columns, Screen.size; simpl; rewrite ?Hg, ?S2; try done; lia.
  - unfold screen_size, Screen.size. simpl. by rewrite Hg.
  - exact S3.
  - destruct size as [columns rows]. by apply (tabs_resize old).
  - by intros _.
Qed.

Lemma finish_resize_inv old size t :
  fits_u16 size → shaped size t → tabs_ok old (tab_stops t) → history_len t ≤ scrollback_limit t →
  inv true size (finish_resize size t).
Proof.
  intros Hu Hs Ht Hl. unfold finish_resize.
  assert (gfx_frame t (call RetainEditedPlacements (call_dormant RetainEditedPlacements t))) as Hf
    by (etrans; [apply call_dormant_frame|apply call_frame]).
  revert Hf. generalize (call RetainEditedPlacements (call_dormant RetainEditedPlacements t)).
  intros u Hf. destruct (gfx_frame_rest t u Hf) as (F1 & F2 & F3 & _).
  pose proof (shaped_frame size t u Hf Hs) as Hsu. apply damage_inv.
  apply (clamped_inv old size u (Screen.clamp_to_size (active u)) Hsu).
  - apply clamp_to_size_ok; [apply Hsu|].
    unfold Screen.rows, Screen.columns, Screen.size. by destruct (shaped_active _ _ Hsu) as [_ ->].
  - apply clamp_grid.
  - by rewrite F1.
  - unfold history_len. by rewrite F2, F3.
Qed.

(** ** The two paths *)

Lemma rows_only_shaped size t : shaped size (resize_rows_only size t).
Proof.
  unfold resize_rows_only. split; [apply resize_with_seqno_grid|]. simpl.
  destruct (main_screen t) as [s0|]; [|done]. intros s [= <-].
  assert (∀ s, grid (Screen.clamp_screen_state size s) = grid s) as Hg.
  { intros s. unfold Screen.clamp_screen_state. repeat (case_decide; simpl); done. }
  rewrite Hg. apply resize_with_seqno_grid.
Qed.

(** The main screen, active or not. *)
Definition main_of t : ScreenState := default (active t) (main_screen t).

Definition reflow_of size t : option reflow_result :=
  reflow_main_screen (scrollback t) (grid (main_of t)) size (seqno t)
    (cursor_row (main_of t)) (cursor_column (main_of t)).

Lemma outcome_spec old_size rows size t :
  shaped size t →
  match apply_main_reflow_outcome old_size rows t with
  | Ok _ t' => shaped size t' ∧ scrollback t' = scrollback t ∧ tab_stops t' = tab_stops t ∧
      scrollback_limit t' = scrollback_limit t ∧
      main_stable_row_offset t' = (main_stable_row_offset t + Z.of_nat (rows + size_rows old_size))%Z
  | Err _ _ => False
  | Panic => (isize_max < main_stable_row_offset t + Z.of_nat (rows + size_rows old_size))%Z
  end.
Proof.
  intros Hs. unfold apply_main_reflow_outcome, checked_add. monad. case_bool_decide; [|lia].
  match goal with |- context [call RetireReflowGlobals ?x] => set (t1 := x) end.
  assert (shaped size t1) as H1 by (by apply (shaped_same size t)).
  change (main_screen t) with (main_screen t1). change (scrollback t) with (scrollback t1).
  change (tab_stops t) with (tab_stops t1). change (scrollback_limit t) with (scrollback_limit t1).
  change (main_stable_row_offset t + Z.of_nat (rows + size_rows old_size))%Z
    with (main_stable_row_offset t1). clearbody t1.
  destruct (main_screen t1).
  - pose proof (call_dormant_frame RetireReflowCoordinates t1) as Hf. revert Hf.
    generalize (call_dormant RetireReflowCoordinates t1). intros u Hf.
    destruct (gfx_frame_rest t1 u Hf) as (F1 & F2 & F3 & F4 & _).
    split; [|done]. apply (shaped_same size u); [done| |by apply (shaped_frame size t1)].
    simpl. by destruct (main_screen u).
  - pose proof (call_frame RetireReflowGlobals t1) as Hf. revert Hf.
    generalize (call RetireReflowGlobals t1). intros u Hf.
    destruct (gfx_frame_rest t1 u Hf) as (F1 & F2 & F3 & F4 & _).
    split; [|done]. apply (shaped_same size u); [done..|by apply (shaped_frame size t1)].
Qed.

(** The rows the reflow and the pruning after it number. *)
Definition reflow_rows (old_size : TerminalSize) (res : reflow_result) t : Z :=
  (Z.max 0 (main_stable_row_offset t) + Z.of_nat (history_len t + size_rows old_size)
   + Z.of_nat (length (history_rows (rr_scrollback res))))%Z.

Lemma trim_shaped size stops t :
  shaped size t → tab_stops t = stops →
  match trim_scrollback_to_limit t with
  | Ok _ t' => (shaped size t' ∧ tab_stops t' = stops) ∧ history_len t' ≤ scrollback_limit t'
  | Err _ _ => False
  | Panic => (isize_max < main_stable_row_offset t + Z.of_nat (history_len t))%Z ∨
             (isize_max < Z.of_nat (history_len t))%Z
  end.
Proof.
  intros Hs Ht. apply (trim_rule (λ u, shaped size u ∧ tab_stops u = stops)).
  - intros u u' Hf [H1 H2]. split; [by eapply shaped_frame|].
    by destruct (gfx_frame_rest u u' Hf) as (-> & _).
  - intros u u' H1 H2 H3 [H4 H5]. split; [|by rewrite H3].
    eapply shaped_same, H4; [by rewrite H1|by rewrite H2].
  - done.
Qed.

(** Install the reflowed rows, number them anew, trim. *)
Lemma reflow_tail old_size size rows res t u :
  shaped size u → tab_stops u = tab_stops t → scrollback u = rr_scrollback res →
  main_stable_row_offset u = main_stable_row_offset t → rows = history_len t →
  match (apply_main_reflow_outcome old_size rows;; trim_scrollback_to_limit) u with
  | Ok _ t' => (shaped size t' ∧ tab_stops t' = tab_stops t) ∧ history_len t' ≤ scrollback_limit t'
  | Err _ _ => False
  | Panic => (isize_max < reflow_rows old_size res t)%Z
  end.
Proof.
  intros Hs Ht Hsb Hoff ->. pose proof (outcome_spec old_size (history_len t) size u Hs) as Ho.
  unfold mbind, M_bind, reflow_rows.
  destruct (apply_main_reflow_outcome old_size (history_len t) u) as [[] v| |]; [|done|lia].
  destruct Ho as (Hv & H1 & H2 & H3 & H4).
  pose proof (trim_shaped size (tab_stops t) v Hv ltac:(congruence)) as Hr.
  destruct (trim_scrollback_to_limit v) as [[] w| |]; [done|done|].
  unfold history_len in *. rewrite H1, Hsb, H4, Hoff in Hr. lia.
Qed.

Lemma resize_reflow_spec old_size size t :
  0 < size_columns size →
  match resize_reflow old_size size t with
  | Ok _ t' => (shaped size t' ∧ tab_stops t' = tab_stops t) ∧ history_len t' ≤ scrollback_limit t'
  | Err _ _ => False
  | Panic => ∃ res, reflow_of size t = Some res ∧ (isize_max < reflow_rows old_size res t)%Z
  end.
Proof.
  intros Hc. unfold resize_reflow, reflow_of, main_of. unfold get_state, mbind at 1, M_bind at 1.
  destruct (main_screen t) as [main|] eqn:Hm; simpl default.
  - destruct (reflow_main_screen_total (scrollback t) (grid main) size (seqno t) (cursor_row main)
      (cursor_column main) Hc) as [res Hres].
    destruct (reflow_main_screen_grid _ _ _ _ _ _ _ Hres) as [G1 G2].
    set (u := t{{ scrollback := rr_scrollback res;
      active -> grid := TerminalGrid.resize_with_seqno size (seqno t) (grid (active t));
      main_screen := Some (main{{ grid := rr_grid res; cursor_row := rr_cursor_row res;
                                  cursor_column := rr_cursor_column res; pending_wrap := false }}) }}).
    pose proof (reflow_tail old_size size (history_len t) res t u) as Hr.
    assert (shaped size u) as Hs.
    { split; [apply resize_with_seqno_grid|]. by intros s [= <-]. }
    specialize (Hr Hs eq_refl eq_refl eq_refl eq_refl).
    cbv [mbind M_bind expect put_state mret M_ret] in Hr |- *.
    change (seqno (t{{ active -> grid := TerminalGrid.resize_with_seqno size (seqno t) (grid (active t)) }}))
      with (seqno t).
    change (scrollback (t{{ active -> grid := TerminalGrid.resize_with_seqno size (seqno t) (grid (active t)) }}))
      with (scrollback t).
    rewrite Hres.
    match goal with |- context [apply_main_reflow_outcome old_size (history_len t) ?x] => change x with u end.
    destruct (apply_main_reflow_outcome old_size (history_len t) u) as [[] v| |]; [|done|by exists res].
    destruct (trim_scrollback_to_limit v); [done|done|by exists res].
  - destruct (reflow_main_screen_total (scrollback t) (grid (active t)) size (seqno t)
      (cursor_row (active t)) (cursor_column (active t)) Hc) as [res Hres].
    destruct (reflow_main_screen_grid _ _ _ _ _ _ _ Hres) as [G1 G2].
    set (u := t{{ scrollback := rr_scrollback res; active -> grid := rr_grid res;
      active -> cursor_row := rr_cursor_row res; active -> cursor_column := rr_cursor_column res;
      active -> pending_wrap := false }}).
    pose proof (reflow_tail old_size size (history_len t) res t u) as Hr.
    assert (shaped size u) as Hs.
    { split; [done|]. simpl. by rewrite Hm. }
    specialize (Hr Hs eq_refl eq_refl eq_refl eq_refl).
    cbv [mbind M_bind expect put_state mret M_ret] in Hr |- *. rewrite Hres. fold u.
    destruct (apply_main_reflow_outcome old_size (history_len t) u) as [[] v| |]; [|done|by exists res].
    destruct (trim_scrollback_to_limit v); [done|done|by exists res].
Qed.

(** The margins of the shown screen cover it. *)
Record margins_reset size s : Prop := {
  reset_top : scroll_top s = 0;
  reset_bottom : scroll_bottom s = size_rows size - 1;
  reset_left : left_margin s = 0;
  reset_right : right_margin s = size_columns size - 1;
}.

Lemma finish_resize_margins size t : margins_reset size (active (finish_resize size t)).
Proof. unfold finish_resize, record_damage. case_match; by split. Qed.

(** The outcome tells which of the sizes changed and, when rows were
    reflowed, which screen was shown. *)
Record outcome_fits old size t (outcome : TerminalResizeOutcome) : Prop := {
  fits_unchanged : outcome = Unchanged ↔ size = old;
  fits_physical : outcome = PhysicalResize ↔ size_columns size = size_columns old ∧ size_rows size ≠ size_rows old;
  fits_main : outcome = MainScreenReflowed ↔ size_columns size ≠ size_columns old ∧ main_screen t = None;
  fits_alternate : outcome = AlternateScreenResized ↔ size_columns size ≠ size_columns old ∧ main_screen t ≠ None;
}.

Lemma outcome_of_sizes old size t :
  outcome_fits old size t
    (if decide (size_columns old = size_columns size ∧ size_rows old = size_rows size) then Unchanged
     else if decide (size_columns old = size_columns size) then PhysicalResize
     else if bool_decide (main_screen t = None) then MainScreenReflowed else AlternateScreenResized).
Proof.
  assert (size = old ↔ size_columns old = size_columns size ∧ size_rows old = size_rows size) as Hs
    by (destruct old, size; cbn; naive_solver).
  split; rewrite ?Hs; repeat case_decide; try case_bool_decide; naive_solver.
Qed.

(** What a resize that returns has done. *)
Record resized old size t (outcome : TerminalResizeOutcome) t' : Prop := {
  resized_inv : inv true size t';
  resized_margins : margins_reset size (active t');
  resized_outcome : outcome_fits old size t outcome;
}.

Lemma resize_spec old size t :
  fits_u16 size → inv true old t →
  match resize size t with
  | Ok outcome t' => resized old (mkTerminalSize (size_columns size `max` 1) (size_rows size)) t outcome t'
  | Err _ _ => False
  | Panic => (usize_max < seqno t + 1)%Z ∨
      ∃ res, reflow_of (mkTerminalSize (size_columns size `max` 1) (size_rows size))
               (t{{ seqno := (seqno t + 1)%Z }}) = Some res ∧ (isize_max < reflow_rows old res t)%Z
  end.
Proof.
  intros Hu Hi. unfold resize, advance_seqno, checked_add.
  set (size' := mkTerminalSize (size_columns size `max` 1) (size_rows size)).
  assert (fits_u16 size') as Hu'.
  { destruct Hu. split; simpl; [done|]. unfold u16_max in *. lia. }
  assert (screen_size t = old) as Hold by apply Hi.
  set (t1 := t{{ seqno := (seqno t + 1)%Z }}).
  assert (inv true old t1) as H1 by (by eapply other_inv, Hi).
  monad. case_bool_decide; [|left; lia]. fold t1. change (screen_size t) with (screen_size t1) in Hold.
  assert (∀ v, (shaped size' v ∧ tab_stops v = tab_stops t1) ∧ history_len v ≤ scrollback_limit v →
    ∀ outcome, outcome_fits old size' t1 outcome → resized old size' t outcome (finish_resize size' v)) as Hfin.
  { intros v [[V1 V2] V3] outcome Hout. split; [|apply finish_resize_margins|by destruct Hout; split]. apply (finish_resize_inv (size_columns old)); try done. rewrite V2. apply H1. }
  rewrite Hold. generalize (outcome_of_sizes old size' t1).
  match goal with |- outcome_fits _ _ _ ?o → _ => generalize o end. intros outcome Hout. case_decide.
  - apply Hfin; [|exact Hout]. split; [split; [apply rows_only_shaped|done]|]. by apply H1.
  - pose proof (resize_reflow_spec old size' t1 ltac:(simpl; lia)) as Hr.
    destruct (resize_reflow old size' t1) as [[] v| |]; [by apply Hfin|done|].
    right. destruct Hr as (res & Hres & Hlt). by exists res.
Qed.
End resize.
