(* ===== verification/Tracking.v ===== *)
(** Which rows an operation may change without being noticed: none. A row of
    the grid is either untouched or carries the current sequence number
    afterwards. The relation [rows_tracked] of grids, and that every
    operation of one screen satisfies it. *)
From coqutil Require Import Datatypes.RecordSetters.
From S2P Require Import Prelude Text Grid GridFacts Csi Reflow Utf8 Feed Screen Scroll Edit Control.
From S2P Require Import ScreenFacts TerminalInv TerminalKeeps.
Import DoubleBraceUpdate.

(** ** Grids *)

Definition rows_tracked (n : Z) (g g' : TerminalGrid) : Prop :=
  same_shape g g' ∧
  ∀ i r', grid_rows g' !! i = Some r' → grid_rows g !! i = Some r' ∨ last_change_seqno r' = n.

#[export] Instance rows_tracked_preorder n : PreOrder (rows_tracked n).
Proof.
  split; [by intros g; split; [done|auto]|].
  intros g1 g2 g3 [H1 H2] [H3 H4]. split; [by etrans|].
  intros i r' [Hr|Hr]%H4; [by apply H2|by right].
Qed.

(** Rows outside [rows] are as before. *)
Definition only_rows (rows : list nat) (g g' : TerminalGrid) : Prop :=
  same_shape g g' ∧ ∀ i, i ∉ rows → grid_rows g' !! i = grid_rows g !! i.

#[export] Instance only_rows_preorder rows : PreOrder (only_rows rows).
Proof.
  split; [done|]. intros g1 g2 g3 [H1 H2] [H3 H4]. split; [by etrans|].
  intros i Hi. by rewrite H4, H2.
Qed.

Lemma only_rows_weaken rows rows' g g' : rows ⊆ rows' → only_rows rows g g' → only_rows rows' g g'.
Proof. intros Hs [H1 H2]. split; [done|]. intros i Hi. apply H2. set_solver. Qed.

(** The row carries the number [n], if it exists. *)
Definition touched (n : Z) (row : nat) (g : TerminalGrid) : Prop :=
  ∀ r, grid_rows g !! row = Some r → last_change_seqno r = n.

Lemma touched_tracked n row g g' : rows_tracked n g g' → touched n row g → touched n row g'.
Proof. intros [_ H] Ht r Hr. destruct (H _ _ Hr) as [Hr'|]; [by apply Ht|done]. Qed.

Lemma seqno_lookup row n g i :
  grid_rows (TerminalGrid.set_row_last_change_seqno row n g).2 !! i =
    (if decide (i = row) then (λ r, mkGridRow (row_cells r) (reflow_overflow r) (wrapped r) n)
     else id) <$> grid_rows g !! i.
Proof.
  unfold TerminalGrid.set_row_last_change_seqno. destruct (grid_rows g !! row) as [r|] eqn:Hr; simpl.
  - case_decide as Hi; [subst|].
    + rewrite list_lookup_insert_eq by (by eapply lookup_lt_Some). by rewrite Hr.
    + rewrite list_lookup_insert_ne by done. by rewrite option_fmap_id.
  - case_decide; [subst; by rewrite Hr|by rewrite option_fmap_id].
Qed.

Lemma seqno_touches row n g : touched n row (TerminalGrid.set_row_last_change_seqno row n g).2.
Proof.
  intros r Hr. rewrite seqno_lookup, decide_True in Hr by done.
  destruct (grid_rows g !! row); simplify_eq/=. done.
Qed.

Lemma seqno_tracked row n g : rows_tracked n g (TerminalGrid.set_row_last_change_seqno row n g).2.
Proof.
  split; [apply same_shape_seqno|]. intros i r' Hr.
  destruct (decide (i = row)) as [->|Hi]; [right; by apply (seqno_touches row n g)|left].
  rewrite seqno_lookup, decide_False in Hr by done. by rewrite option_fmap_id in Hr.
Qed.

(** Mark some rows. *)
Definition touch_all (n : Z) (rows : list nat) (g : TerminalGrid) : TerminalGrid :=
  foldl (λ g row, (TerminalGrid.set_row_last_change_seqno row n g).2) g rows.

Lemma touch_all_spec n l g :
  rows_tracked n g (touch_all n l g) ∧ (∀ i, i ∈ l → touched n i (touch_all n l g)) ∧
  (∀ i, i ∉ l → grid_rows (touch_all n l g) !! i = grid_rows g !! i).
Proof.
  revert g. induction l as [|row l IH]; intros g; simpl.
  { split_and!; [done|by intros i ?%not_elem_of_nil|done]. }
  destruct (IH (TerminalGrid.set_row_last_change_seqno row n g).2) as (H1 & H2 & H3).
  split_and!; [by etrans; [apply seqno_tracked|]| |].
  - intros i [->|Hi]%elem_of_cons; [|by apply H2]. by eapply touched_tracked, seqno_touches.
  - intros i [Hi Hi']%not_elem_of_cons. rewrite H3 by done.
    rewrite seqno_lookup, decide_False by done. by rewrite option_fmap_id.
Qed.

(** Change some rows, then mark them. *)
Lemma touch_after rows n g g' : only_rows rows g g' → rows_tracked n g (touch_all n rows g').
Proof.
  intros [Hs Ho]. destruct (touch_all_spec n rows g') as (H1 & H2 & H3).
  split; [by etrans; [exact Hs|apply H1]|].
  intros i r' Hr. destruct (decide (i ∈ rows)) as [Hi|Hi]; [right; by apply (H2 i Hi)|left].
  by rewrite <-Ho, <-H3.
Qed.

Lemma update_lookup row f g i :
  i ≠ row → grid_rows (TerminalGrid.update_row row f g) !! i = grid_rows g !! i.
Proof.
  intros Hi. unfold TerminalGrid.update_row. case_match; simpl; [|done].
  by rewrite list_lookup_insert_ne by done.
Qed.

Lemma set_only row column cell g : only_rows [row] g (TerminalGrid.set row column cell g).2.
Proof.
  split; [apply same_shape_set|]. intros i Hi%not_elem_of_cons. unfold TerminalGrid.set.
  repeat case_match; simpl; try done. rewrite list_lookup_insert_ne; [done|naive_solver].
Qed.

Lemma wrapped_only row b g : only_rows [row] g (TerminalGrid.set_row_wrapped row b g).
Proof.
  split; [apply same_shape_wrapped|]. intros i Hi%not_elem_of_cons. apply update_lookup. naive_solver.
Qed.

(** The overflow of a marked row. *)
Lemma overflow_tracked n row l g : touched n row g → rows_tracked n g (TerminalGrid.set_reflow_overflow row l g).
Proof.
  intros Ht. split; [apply same_shape_overflow|]. intros i r' Hr.
  destruct (decide (i = row)) as [->|Hi].
  - right. unfold TerminalGrid.set_reflow_overflow, TerminalGrid.update_row in Hr.
    destruct (grid_rows g !! row) as [r|] eqn:Hrow; simpl in Hr; [|by rewrite Hrow in Hr].
    rewrite list_lookup_insert_eq in Hr by (by eapply lookup_lt_Some). injection Hr as <-. simpl. by apply Ht.
  - left. unfold TerminalGrid.set_reflow_overflow in Hr. by rewrite update_lookup in Hr.
Qed.

Lemma copy_row_only first last from to rows g : to ∈ rows → only_rows rows g (copy_row first last from to g).
Proof.
  intros Hi. unfold copy_row. apply foldl_preorder; [apply _|]. intros.
  apply (only_rows_weaken [to]); [set_solver|apply set_only].
Qed.

Lemma blank_row_only first last blank row rows g : row ∈ rows → only_rows rows g (blank_row first last blank row g).
Proof.
  intros Hi. unfold blank_row. apply foldl_preorder; [apply _|]. intros.
  apply (only_rows_weaken [row]); [set_solver|apply set_only].
Qed.

(** A loop whose every round stays within [rows]. *)
Lemma foldl_only (f : TerminalGrid → nat → TerminalGrid) (l rows : list nat) g :
  (∀ g x, x ∈ l → only_rows rows g (f g x)) → only_rows rows g (foldl f g l).
Proof.
  intros Hf. revert g. induction l as [|x l IH]; intros g; simpl; [done|].
  etrans; [apply Hf, list_elem_of_here|]. apply IH. intros. by apply Hf, list_elem_of_further.
Qed.

Lemma fresh_tracked n size g :
  grid_size g = size → length (grid_rows g) = size_rows size → rows_tracked n g (TerminalGrid.new_with_seqno size n).
Proof.
  intros Hs Hl. split; [split; [by rewrite Hs|intros _; apply new_with_seqno_ok]|].
  intros i r' Hr. right. unfold TerminalGrid.new_with_seqno in Hr. simpl in Hr.
  apply list_lookup_fmap_Some in Hr as (x & -> & _). done.
Qed.

(** ** Regions *)

Lemma rotate_up_tracked top bottom count blank n g :
  grid_ok g → only_rows (rows_between top bottom) g (TerminalGrid.rotate_up_rows top bottom count blank n g).2.
Proof.
  intros Hok. split; [apply same_shape_scroll_up|]. intros i Hi.
  destruct (decide (region_valid top bottom g ∧ 0 < count)) as [[Hv Hc]|Hn].
  - rewrite rotate_up_rows_eq by done. cbn [snd]. rewrite put_region_lookup.
    + rewrite bool_decide_false; [done|]. intros Hb. apply Hi. unfold rows_between.
      apply elem_of_seq. lia.
    + done.
    + done.
    + rewrite scrolled_up_length; rewrite region_length by done; [done|lia].
  - by rewrite rotate_up_rows_noop by (destruct (decide (count = 0)); [by right|left; intros ?; apply Hn; split; [done|lia]]).
Qed.

Lemma rotate_down_tracked top bottom count blank n g :
  grid_ok g → only_rows (rows_between top bottom) g (TerminalGrid.scroll_down_rows top bottom count blank n g).
Proof.
  intros Hok. split; [apply same_shape_scroll_down|]. intros i Hi.
  destruct (decide (region_valid top bottom g ∧ 0 < count)) as [[Hv Hc]|Hn].
  - rewrite scroll_down_rows_eq by done. rewrite put_region_lookup.
    + rewrite bool_decide_false; [done|]. intros Hb. apply Hi. unfold rows_between.
      apply elem_of_seq. lia.
    + done.
    + done.
    + rewrite scrolled_down_length; rewrite region_length by done; [done|lia].
  - by rewrite scroll_down_rows_noop by (destruct (decide (count = 0)); [by right|left; intros ?; apply Hn; split; [done|lia]]).
Qed.

(** ** Operations of one screen *)

Section screen.
  Context `{Ext : External} `{Gfx : Graphics}.
  Implicit Types (s : ScreenState).

(** Cells are written and their rows marked. *)
Definition writes (n : Z) s s' : Prop := rows_tracked n (grid s) (grid s').

#[export] Instance writes_preorder n : PreOrder (writes n).
Proof. split; [by intros s; unfold writes|]. intros s1 s2 s3. unfold writes. by etrans. Qed.

Lemma writes_set n row column cell s : writes n s (Screen.set_grid_cell n row column cell s).2.
Proof.
  unfold Screen.set_grid_cell. pose proof (set_only row column cell (grid s)) as Ho.
  destruct (TerminalGrid.set row column cell (grid s)) as [ok g]. destruct ok; [|done].
  apply (touch_after [row] n (grid s) g Ho).
Qed.

(** A cell was written: its row is marked. *)
Lemma set_touches n row column cell s s' :
  Screen.set_grid_cell n row column cell s = (true, s') → touched n row (grid s').
Proof.
  unfold Screen.set_grid_cell. destruct (TerminalGrid.set _ _ _ _) as [[] g]; [|done].
  intros [= <-]. apply seqno_touches.
Qed.

Lemma writes_wrapped n row b s : writes n s (Screen.set_grid_row_wrapped n row b s).
Proof.
  unfold Screen.set_grid_row_wrapped. case_match; [done|].
  apply (touch_after [row] n (grid s)), wrapped_only.
Qed.

Lemma writes_clear_span n row column s : writes n s (Screen.clear_grapheme_span_at n row column s).
Proof.
  unfold Screen.clear_grapheme_span_at. case_match; [|done].
  apply foldl_preorder; [apply _|]. intros s' offset. case_decide; [apply writes_set|done].
Qed.

Lemma writes_sanitize n row s : writes n s (Screen.sanitize_grapheme_spans n row s).
Proof.
  unfold Screen.sanitize_grapheme_spans.
  assert (∀ fuel column s s', Screen.sanitize_loop fuel n row column s = Some s' → writes n s s') as H.
  { clear. induction fuel as [|fuel IH]; intros column s s'; simpl;
      (case_decide; [|by intros [= <-]]); [done|].
    repeat case_match; try (by intros [= <-]); intros Hr%IH;
      (etrans; [|exact Hr]); first [reflexivity|apply writes_set|apply writes_clear_span]. }
  destruct (Screen.sanitize_loop _ _ _ _ _) eqn:Hl; simpl; [by eapply H|done].
Qed.

Lemma writes_fill n row l s : writes n s (fill_blank n row l s).
Proof. unfold fill_blank. apply foldl_preorder; [apply _|]. intros. apply writes_set. Qed.

Lemma writes_edit n row l source target l' s :
  writes n s (Screen.sanitize_grapheme_spans n row
                (fill_blank n row l' (move_cells n row l source target s))).
Proof.
  etrans; [|apply writes_sanitize]. etrans; [|apply writes_fill].
  unfold move_cells. apply foldl_preorder; [apply _|]. intros. apply writes_set.
Qed.

Lemma writes_continuations n row column base first last s :
  writes n s (write_continuations n row column base first last s).
Proof. unfold write_continuations. apply foldl_preorder; [apply _|]. intros. apply writes_set. Qed.

Lemma writes_overflow n row l s :
  touched n row (grid s) → writes n s (s{{ grid := TerminalGrid.set_reflow_overflow row l (grid s) }}).
Proof. apply overflow_tracked. Qed.

Lemma get_set row column cell cell' g :
  TerminalGrid.get row column g = Some cell → (TerminalGrid.set row column cell' g).1 = true.
Proof.
  unfold TerminalGrid.get, TerminalGrid.set. destruct (grid_rows g !! row) as [r|]; [|done]. simpl.
  intros ->. done.
Qed.

Lemma writes_grapheme n row column cell g w1 w2 w3 s :
  is_Some (TerminalGrid.get row column (grid s)) →
  writes n s (rewrite_grapheme n row column cell g w1 w2 w3 s).
Proof.
  intros [c Hc]. unfold rewrite_grapheme.
  match goal with |- context [Screen.set_grid_cell n row column ?x s] =>
    pose proof (writes_set n row column x s) as Hw; pose proof (get_set row column c x _ Hc) as Hok;
    pose proof (set_touches n row column x s) as Ht;
    assert ((Screen.set_grid_cell n row column x s).1 = true) as Hb;
    [unfold Screen.set_grid_cell; by destruct (TerminalGrid.set row column x (grid s)) as [[] ?]|];
    destruct (Screen.set_grid_cell n row column x s) as [ok s1] end.
  simpl in Hb, Hw. subst. specialize (Ht s1 eq_refl). cbn [snd].
  match goal with |- writes n s (?x{{ grid := _ }}) => set (s2 := x) end.
  assert (writes n s1 s2) as H2.
  { unfold s2. case_decide; [apply writes_continuations|].
    apply foldl_preorder; [apply _|]. intros. apply writes_set. }
  etrans; [exact Hw|]. etrans; [exact H2|]. apply writes_overflow. by eapply touched_tracked.
Qed.

Lemma writes_alignment n columns row s : writes n s (alignment_row n columns row s).
Proof.
  unfold alignment_row. etrans; [|apply writes_wrapped].
  apply foldl_preorder; [apply _|]. intros. apply writes_set.
Qed.
End screen.
