(* ===== verification/Effects.v ===== *)
(** The kinds of change the terminal's operations are made of. [Effects I]
    says that a predicate survives each kind; then it survives every
    operation, and so every input ([PerformerKeeps]). The predicates of
    interest compare the terminal with an earlier state of it: which lines
    may differ ([StableFacts]), what the alternate screen leaves alone. *)
From coqutil Require Import Datatypes.RecordSetters.
From S2P Require Import Prelude Text Grid GridFacts Csi Reflow Utf8 Feed Screen Scroll Edit Control.
From S2P Require Import ScreenFacts TerminalInv TerminalKeeps ControlKeeps Tracking.
Import DoubleBraceUpdate.

Section effects.
  Context `{Ext : External} `{Gfx : Graphics}.
  Abbreviation TM := (M Empty_set Terminal).
  Implicit Types (t : Terminal) (s : ScreenState).

(** Rows move into the history: the first [count] rows of the grid are
    appended, the oldest [dropped] lines pruned; every other row keeps its
    distance from the new lines or is marked. *)
Record recorded t t' : Prop := {
  rec_main : main_screen t = None ∧ main_screen t' = None;
  rec_seqno : seqno t' = seqno t;
  rec_generation : screen_identity_generation t' = screen_identity_generation t;
  rec_ok : grid_ok (grid (active t'));
  rec_lines : ∃ count dropped,
    count ≤ length (grid_rows (grid (active t))) ∧ dropped ≤ history_len t + count ∧
    history_rows (scrollback t') =
      drop dropped (history_rows (scrollback t) ++
        (ScrollbackLine.from_grid_row <$> take count (grid_rows (grid (active t))))) ∧
    main_stable_row_offset t' = (main_stable_row_offset t + Z.of_nat dropped)%Z ∧
    ∀ i r', grid_rows (grid (active t')) !! i = Some r' →
      grid_rows (grid (active t)) !! (i + count) = Some r' ∨ last_change_seqno r' = seqno t;
}.

(** Changes that leave the history, the generation and the dormant screen
    alone. *)
Class Quiet (I : Terminal → Prop) := {
  eff_ok : ∀ t, I t → grid_ok (grid (active t));
  eff_gfx : ∀ t t', gfx_frame t t' → I t → I t';
  eff_active : ∀ t t', t' = t{{ active := active t' }} →
    rows_tracked (seqno t) (grid (active t)) (grid (active t')) → I t → I t';
  eff_rest : ∀ t t', active t' = active t → main_screen t' = main_screen t →
    scrollback t' = scrollback t → main_stable_row_offset t' = main_stable_row_offset t →
    seqno t' = seqno t → screen_identity_generation t' = screen_identity_generation t → I t → I t';
}.

(** The others: rows recorded, lines pruned, a new identity. *)
Class Effects (I : Terminal → Prop) `{!Quiet I} := {
  eff_dormant : ∀ t s, I t → main_screen t = Some s → grid_ok (grid s);
  eff_record : ∀ t t', recorded t t' → I t → I t';
  eff_prune : ∀ n t t', pruned n t t' → I t → I t';
  eff_bump : ∀ t t', (screen_identity_generation t < screen_identity_generation t')%Z →
    seqno t' = seqno t → grid_ok (grid (active t')) →
    (∀ s, main_screen t' = Some s → grid_ok (grid s)) → I t → I t';
}.

Context (I : Terminal → Prop) `{HQ : !Quiet I} `{HI : !Effects I}.

(** ** Rules *)

Lemma e_call c t : I t → I (call c t).
Proof using HQ. apply eff_gfx, call_frame. Qed.

Lemma e_flag c t : I t → I (call_flag c t).2.
Proof using HQ. apply eff_gfx, call_flag_frame. Qed.

Lemma e_reply c t : I t → I (call_reply c t).2.
Proof using HQ. apply eff_gfx, call_reply_frame. Qed.

Lemma e_damage d t : I t → I (record_damage d t).
Proof using HQ. apply eff_gfx, record_damage_frame. Qed.

Lemma e_damage_screen t : I t → I (damage_screen t).
Proof using HQ. apply e_damage. Qed.

(** The active grid is not touched. *)
Lemma e_same t t' :
  t' = t{{ active := active t' }} → grid (active t') = grid (active t) → I t → I t'.
Proof using HQ. intros Ht Hg. apply eff_active; [done|]. by rewrite Hg. Qed.

Lemma e_on f t : (∀ s, grid (f s) = grid s) → I t → I (on_active f t).
Proof using HQ. intros Hf. apply e_same; [done|apply Hf]. Qed.

(** Cells are written. *)
Lemma e_writes f t : (∀ s, writes (seqno t) s (f s)) → I t → I (on_active f t).
Proof using HQ. intros Hf. apply eff_active; [done|apply Hf]. Qed.

Lemma e_writes_at f t : writes (seqno t) (active t) (f (active t)) → I t → I (on_active f t).
Proof using HQ. intros Hw Hi. by apply (eff_active t (on_active f t)). Qed.

Lemma e_foldl {A} (f : Terminal → A → Terminal) l t : (∀ t a, I t → I (f t a)) → I t → I (foldl f t l).
Proof. intros Hf. revert t. induction l; simpl; auto. Qed.

Lemma e_modify f : (∀ t, I t → I (f t)) → preserves I (modify f : TM ()).
Proof. apply preserves_modify. Qed.

Hint Resolve e_call e_flag e_reply e_damage e_damage_screen : screen.

(** Fields no effect reads; fields of the active screen besides its grid. *)
Ltac other := intros; eapply eff_rest; [..|eassumption]; repeat case_match; done.
Ltac field := apply e_same; done.

Lemma e_prune n : preserves I (prune_scrollback_rows n).
Proof using HI.
  intros t Ht. pose proof (prune_effect n t) as Hp.
  destruct (prune_scrollback_rows n t) as [[] t'| |]; [|done|done]. by eapply eff_prune.
Qed.

Lemma touch_rows_eq l t :
  touch_rows l t =
    t{{ active -> grid := touch_all (seqno t) l (grid (active t)) }}.
Proof.
  unfold touch_rows. revert t. induction l as [|row l IH]; intros t; simpl.
  - by destruct t as [[]].
  - rewrite IH. done.
Qed.

(** Change the rows of a region, then mark them. *)
Lemma e_region rows t g :
  only_rows rows (grid (active t)) g → I t → I (touch_rows rows (t{{ active -> grid := g }})).
Proof using HQ.
  intros Ho. rewrite touch_rows_eq. apply eff_active; [done|]. simpl. by apply touch_after.
Qed.

(** ** Scrolling *)

Lemma push_all rows (h : HistoryBuffer ScrollbackLine) :
  history_rows (foldl (λ h row, history_push (ScrollbackLine.from_grid_row row) h) h rows) =
    history_rows h ++ (ScrollbackLine.from_grid_row <$> rows).
Proof.
  revert h. induction rows as [|r rows IH]; intros h; simpl; [by rewrite app_nil_r|].
  rewrite IH. simpl. by rewrite <-app_assoc.
Qed.

(** The grid and the lines after the rows left the screen, before pruning. *)
Lemma recorded_grid bottom count blank t :
  grid_ok (grid (active t)) → bottom < size_rows (screen_size t) → count ≤ bottom + 1 →
  let '(exiting, g) := TerminalGrid.rotate_up_rows 0 bottom count blank (seqno t) (grid (active t)) in
  let g' := touch_all (seqno t) (seq (bottom + 1) (size_rows (screen_size t) - (bottom + 1))) g in
  exiting = take count (grid_rows (grid (active t))) ∧ grid_ok g' ∧
  count ≤ length (grid_rows (grid (active t))) ∧
  ∀ i r', grid_rows g' !! i = Some r' →
    grid_rows (grid (active t)) !! (i + count) = Some r' ∨ last_change_seqno r' = seqno t.
Proof.
  intros Hok Hb Hc. assert (region_valid 0 bottom (grid (active t))) as Hv.
  { destruct Hok. split; [lia|]. unfold screen_size, Screen.size in Hb. lia. }
  pose proof (rotate_up_lookup 0 bottom count blank (seqno t) _ Hok Hv) as Hl.
  pose proof (same_shape_scroll_up (grid (active t)) 0 bottom count blank (seqno t)) as [Hsz Hsh].
  destruct (TerminalGrid.rotate_up_rows _ _ _ _ _ _) as [exiting g]. destruct Hl as [He Hg].
  simpl in Hsz, Hsh. intros g'. set (suffix := seq _ _) in g'.
  assert (length (grid_rows (grid (active t))) = size_rows (screen_size t)) as Hlen by apply Hok.
  replace (count `min` (bottom + 1 - 0)) with count in He, Hg by lia.
  destruct (touch_all_spec (seqno t) suffix g) as (Ht & Hin & _). fold g' in Ht, Hin. split_and!.
  - apply list_eq. intros i. rewrite He. case_bool_decide.
    + by rewrite lookup_take_lt.
    + symmetry. apply lookup_ge_None_2. rewrite length_take. lia.
  - apply (proj2 (proj1 Ht)). auto.
  - lia.
  - intros i r' Hr. destruct Ht as [_ Ht]. destruct (Ht i r' Hr) as [Hr2|]; [|by right].
    rewrite Hg in Hr2. case_bool_decide as Hi; [|].
    + case_bool_decide; [by left|]. injection Hr2 as <-. by right.
    + right. assert (i < length (grid_rows (grid (active t)))) as Hil by (by eapply lookup_lt_Some).
      apply (Hin i); [|done]. apply elem_of_seq. lia.
Qed.

(** What pruning leaves alone, and what it does to the lines. *)
Lemma pruned_spec n t t' :
  pruned n t t' →
  grid (active t') = grid (active t) ∧ seqno t' = seqno t ∧
  screen_identity_generation t' = screen_identity_generation t ∧
  (main_screen t = None → main_screen t' = None) ∧
  history_rows (scrollback t') = drop n (history_rows (scrollback t)) ∧
  main_stable_row_offset t' = (main_stable_row_offset t + Z.of_nat (n `min` history_len t))%Z.
Proof.
  intros (u & rows & exits & m & -> & Hf). destruct (gfx_frame_rest _ _ Hf) as (_ & F2 & _ & F4 & F5 & F6).
  pose proof (gfx_frame_main _ _ Hf) as Hm. destruct Hf as [_ G2 _]. split_and!; simpl.
  - by rewrite G2.
  - exact F5.
  - exact F6.
  - exact Hm.
  - by rewrite F2.
  - exact F4.
Qed.

(** The same for the trimming after a scroll. *)
Lemma trim_spec t :
  match trim_scrollback_to_limit t with
  | Ok _ t' =>
      grid (active t') = grid (active t) ∧ seqno t' = seqno t ∧
      screen_identity_generation t' = screen_identity_generation t ∧
      (main_screen t = None → main_screen t' = None) ∧
      ∃ n, n ≤ history_len t ∧ history_rows (scrollback t') = drop n (history_rows (scrollback t)) ∧
        main_stable_row_offset t' = (main_stable_row_offset t + Z.of_nat n)%Z
  | Err _ _ => False
  | Panic => True
  end.
Proof.
  unfold trim_scrollback_to_limit. monad. case_decide as Hd.
  - pose proof (prune_effect (history_len t - scrollback_limit t) t) as Hp.
    destruct (prune_scrollback_rows _ t) as [[] t'| |]; [|done|done].
    apply pruned_spec in Hp as (H1 & H2 & H3 & H4 & H5 & H6). split_and!; try done.
    exists (history_len t - scrollback_limit t). split_and!; [lia|done|].
    by rewrite H6, Nat.min_l by lia.
  - split_and!; try done. exists 0. split_and!; [lia|done|]. by rewrite Z.add_0_r.
Qed.

Lemma e_scroll_up_region top bottom count : preserves I (scroll_up_region_by top bottom count).
Proof using HI.
  apply preserves_get. intros t Hi. next_if; [apply preserves_ret|]. do 4 next_let.
  assert (I t0 ∧ screen_size t0 = size ∧ (records_scrollback = true → main_screen t0 = None)) as (H0 & Hs0 & Hm0).
  { assert (∀ u, gfx_frame t u → I u ∧ screen_size u = size ∧ (main_screen t = None → main_screen u = None)) as Hf.
    { intros u Hf. split; [by eapply eff_gfx|]. pose proof (gfx_frame_main _ _ Hf).
      destruct Hf as [_ G2 _]. unfold screen_size, Screen.size. by rewrite G2. }
    unfold t0. destruct records_scrollback eqn:Hr.
    - unfold records_scrollback, should_record_scrollback_for_scroll in Hr.
      apply bool_decide_eq_true in Hr as (Hm & _).
      match goal with |- context [shift_suffix_metadata_for_recorded_rows ?a ?b ?u] => set (u0 := u) end.
      destruct (Hf u0) as (J1 & J2 & J3); [unfold u0; case_decide; [apply call_frame|done]|].
      unfold shift_suffix_metadata_for_recorded_rows. case_decide; [auto|].
      match goal with |- context [call ?c ?v] => pose proof (call_frame c v) as Hc;
        assert (I v) as Hv by (by eapply eff_rest, J1); set (v0 := v) in * end.
      split; [by eapply eff_gfx|]. pose proof (gfx_frame_main _ _ Hc).
      destruct Hc as [_ G2 _]. unfold screen_size, Screen.size. rewrite G2. auto.
    - edestruct Hf as (J1 & J2 & _); [|by split; [exact J1|]]. etrans; apply call_frame. }
  assert (records_scrollback = true → top = 0 ∧ bottom < size_rows size) as Hrec.
  { unfold records_scrollback, should_record_scrollback_for_scroll. intros Hr.
    apply bool_decide_eq_true in Hr as (_ & Ht & Hb & _). done. }
  assert (count0 ≤ height) as Hch by (unfold count0; lia).
  clearbody t0 records_scrollback. next_let. destruct records_scrollback; last first.
  { intros t1 _. monad. apply e_damage, e_region; [|done]. apply rotate_up_tracked. by apply eff_ok. }
  destruct (Hrec eq_refl) as [-> Hb]. specialize (Hm0 eq_refl).
  pose proof (recorded_grid bottom count0 blank t0 (eff_ok _ H0)) as Hg. rewrite Hs0 in Hg.
  specialize (Hg Hb ltac:(unfold height in Hch; lia)).
  unfold TerminalGrid.scroll_up_rows. destruct (TerminalGrid.rotate_up_rows _ _ _ _ _ _) as [exiting g].
  destruct Hg as (-> & Hok & Hcl & Hrows). intros t1 _. monad.
  match goal with |- context [trim_scrollback_to_limit ?u] => pose proof (trim_spec u) as Htrim;
    destruct (trim_scrollback_to_limit u) as [[] t3| |]; [|done|done] end.
  destruct Htrim as (G1 & G2 & G3 & G4 & m & Hn & G5 & G6).
  apply e_damage, (eff_record t0); [|done]. rewrite touch_rows_eq. simpl in *. split; simpl.
  - split; [done|]. by apply G4.
  - exact G2.
  - exact G3.
  - by rewrite G1, G2.
  - exists count0, m. rewrite push_all in G5. split_and!; try done.
    + unfold history_len in Hn. simpl in Hn. rewrite push_all, length_app, length_fmap, length_take in Hn.
      unfold history_len. lia.
    + by rewrite G1, G2.
Qed.

Lemma e_scroll_down_region top bottom count t : I t → I (scroll_down_region top bottom count t).
Proof using HQ.
  intros Hi. unfold scroll_down_region. case_decide; [done|].
  match goal with |- context [call ?c (call ?d t)] => set (t1 := call c (call d t)) end.
  assert (I t1) as H1 by (unfold t1; auto with screen). clearbody t1.
  apply e_damage, e_region; [|done]. apply rotate_down_tracked. by apply eff_ok.
Qed.

Lemma e_clones n m t : I t → I (record_scrolled_survivor_cell_clones n m t).
Proof using HQ. by apply eff_rest. Qed.

Lemma e_bounded_down top bottom count first last t :
  top ≤ bottom → count ≤ bottom - top + 1 → I t →
  I (touch_rows (rows_between top bottom) (scroll_down_bounded_cells top bottom count first last t)).
Proof using HQ.
  intros Hb Hc Hi. unfold scroll_down_bounded_cells.
  assert (∀ blank g, only_rows (rows_between top bottom) g
    (foldl (λ g row, blank_row first last blank row g) g (seq top count))) as Hblank.
  { intros blank g. apply foldl_only. intros g' row Hr%elem_of_seq. apply blank_row_only, elem_of_seq. lia. }
  case_decide; [|by apply (e_region _ t)].
  set (t1 := record_scrolled_survivor_cell_clones _ _ t).
  apply (e_region _ t1); [|by apply e_clones]. etrans; [|apply Hblank].
  apply foldl_only. intros g' row Hr. rewrite rev_alt in Hr. fold (reverse (rows_between top (bottom - count))) in Hr.
  apply elem_of_reverse, elem_of_seq in Hr. apply copy_row_only, elem_of_seq. lia.
Qed.

Lemma e_bounded_up top bottom count first last t :
  top ≤ bottom → count ≤ bottom - top + 1 → I t →
  I (touch_rows (rows_between top bottom) (scroll_up_bounded_cells top bottom count first last t)).
Proof using HQ.
  intros Hb Hc Hi. unfold scroll_up_bounded_cells.
  set (start := if decide (count = bottom - top + 1) then top else bottom - count + 1).
  assert (top ≤ start) as Hstart by (unfold start; case_decide; lia).
  assert (∀ blank g, only_rows (rows_between top bottom) g
    (foldl (λ g row, blank_row first last blank row g) g (rows_between start bottom))) as Hblank.
  { intros blank g. apply foldl_only. intros g' row Hr%elem_of_seq. apply blank_row_only, elem_of_seq. lia. }
  case_decide; [|by apply (e_region _ t)].
  set (t1 := record_scrolled_survivor_cell_clones _ _ t).
  apply (e_region _ t1); [|by apply e_clones]. etrans; [|apply Hblank].
  apply foldl_only. intros g' row Hr%elem_of_seq. apply copy_row_only, elem_of_seq. lia.
Qed.

Lemma e_bounded_scroll top bottom first last tr f t :
  (∀ t, I t → I (touch_rows (rows_between top bottom) (f t))) → I t →
  I (bounded_scroll top bottom first last tr f t).
Proof using HQ.
  intros Hf Hi. unfold bounded_scroll.
  pose proof (e_flag (RetireMalformedGraphics top bottom first last) t Hi) as H1.
  destruct (call_flag _ t) as [b1 t1]. simpl in H1.
  pose proof (e_flag (ApplyCellTransform tr) t1 H1) as H2.
  destruct (call_flag _ t1) as [b2 t2]. simpl in H2.
  case_match; auto with screen.
Qed.

Lemma e_scroll_down_margins top bottom count t :
  I t → I (scroll_down_with_horizontal_margins top bottom count t).
Proof using HQ.
  intros Hi. unfold scroll_down_with_horizontal_margins. case_decide as Hd; [done|].
  destruct (Screen.bounded_horizontal_scroll_columns (active t)) as [[first last]|].
  - apply e_bounded_scroll; [|done]. intros u Hu. apply e_bounded_down; [lia|lia|done].
  - by apply e_scroll_down_region.
Qed.

Lemma e_scroll_up_margins top bottom count : preserves I (scroll_up_with_horizontal_margins top bottom count).
Proof using HI.
  apply preserves_get. intros t Hi. next_if; [apply preserves_ret|]. next_if; [|apply e_scroll_up_region].
  destruct p as [first last]. apply e_modify. intros u Hu. apply e_bounded_scroll; [|done].
  intros v Hv. apply e_bounded_up; [lia|unfold count0; lia|done].
Qed.

(** ** Line feeds *)

Lemma e_move_to_row row w t : I t → I (move_to_row row w t).
Proof using HQ.
  intros Hi.
  assert (I (on_active (λ s, s{{ cursor_row := row }}) t)) as H1 by (by apply e_on).
  assert (I (on_active (Screen.set_grid_row_wrapped (seqno t) row w)
               (on_active (λ s, s{{ cursor_row := row }}) t))) as H2.
  { apply e_writes; [|exact H1]. intros s. apply writes_wrapped. }
  exact (e_on _ _ semantic_grid H2).
Qed.

Lemma e_no_wrap t : I t → I (t{{ active -> pending_wrap := false }}).
Proof using HQ. by apply e_same. Qed.

Hint Resolve e_move_to_row e_no_wrap e_scroll_down_margins : screen.

Lemma e_index_down w : preserves I (index_down w).
Proof using HI.
  apply preserves_seq; [apply e_modify; auto with screen|]. apply preserves_get. intros t Hi.
  next_if; [apply preserves_ret|]. next_if.
  - apply preserves_seq; [apply e_scroll_up_margins|apply e_modify; auto with screen].
  - apply e_modify. auto with screen.
Qed.

Lemma e_index_down_outside w t : I t → I (index_down_outside_horizontal_margins w t).
Proof using HQ.
  intros Hi. unfold index_down_outside_horizontal_margins.
  case_decide; [|apply e_move_to_row]; auto with screen.
Qed.

Hint Resolve e_index_down e_index_down_outside : screen.

Lemma e_carriage_return t : I t → I (on_active Screen.carriage_return t).
Proof using HQ. by apply e_on. Qed.

Lemma e_newline : preserves I newline.
Proof using HI. apply preserves_seq; [apply e_modify, e_carriage_return|apply e_index_down]. Qed.

Lemma e_line_feed : preserves I line_feed.
Proof using HI.
  apply preserves_get. intros t Hi. next_if; [apply e_index_down|]. apply e_modify. auto with screen.
Qed.

Lemma e_wrapped_newline : preserves I wrapped_newline.
Proof using HI.
  apply preserves_get. intros t Hi. next_if.
  - apply e_modify. intros u Hu. apply e_index_down_outside. by eapply e_same, Hu.
  - apply preserves_seq; [apply e_modify, e_carriage_return|apply e_index_down].
Qed.

Lemma e_next_line : preserves I next_line.
Proof using HI.
  apply preserves_get. intros t Hi. next_let. apply preserves_seq.
  - apply e_modify. intros u. apply e_on. intros s. by case_match.
  - next_if; [apply e_index_down|]. apply e_modify. auto with screen.
Qed.

Lemma e_reverse_index t : I t → I (reverse_index t).
Proof using HQ.
  intros Hi. unfold reverse_index. case_match; [done|]. case_decide; [auto with screen|].
  apply e_on; [apply semantic_grid|]. case_decide.
  - eapply e_same; [done|done|]. auto with screen.
  - by eapply e_same, Hi.
Qed.

Lemma e_insert_lines n t : I t → I (insert_lines n t).
Proof using HQ. intros Hi. unfold insert_lines. repeat case_match; auto with screen. Qed.

Lemma e_scroll_down n t : I t → I (scroll_down n t).
Proof using HQ. intros Hi. unfold scroll_down. repeat case_match; auto with screen. Qed.

Lemma e_delete_lines n : preserves I (delete_lines n).
Proof using HI.
  apply preserves_seq; [apply e_modify; auto with screen|]. apply preserves_get. intros t Hi.
  next_if; [apply preserves_ret|]. next_if; [|apply preserves_ret]. destruct p. apply e_scroll_up_margins.
Qed.

Lemma e_scroll_up n : preserves I (scroll_up n).
Proof using HI.
  apply preserves_seq; [apply e_modify; auto with screen|]. apply preserves_get. intros t Hi.
  next_if; [|apply preserves_ret]. destruct p. apply e_scroll_up_margins.
Qed.

(** ** Editing and printing *)

Lemma e_prepare right transform t :
  I t → I (prepare_bounded_character_edit_attachments right transform t).2 ∧
    seqno (prepare_bounded_character_edit_attachments right transform t).2 = seqno t.
Proof using HQ.
  intros Hi.
  assert (gfx_frame t (prepare_bounded_character_edit_attachments right transform t).2) as Hf.
  { unfold prepare_bounded_character_edit_attachments.
    destruct transform as [tr|], (bool_decide _); try done.
    - pose proof (call_frame (TransformPlaceholders tr) t) as H0.
      set (u := call (TransformPlaceholders tr) t) in *.
      match goal with |- context [call_flag ?c u] => pose proof (call_flag_frame c u) as H1;
        destruct (call_flag c u) as [f1 u1] end.
      match goal with |- context [call_flag ?c u1] => pose proof (call_flag_frame c u1) as H2;
        destruct (call_flag c u1) as [f2 u2] end.
      simpl in *. etrans; [exact H0|]. by etrans.
    - match goal with |- context [call_flag ?c t] => pose proof (call_flag_frame c t) as H1;
        by destruct (call_flag c t) end. }
  split; [by eapply eff_gfx|]. by destruct (gfx_frame_rest _ _ Hf) as (_ & _ & _ & _ & ? & _).
Qed.

Lemma e_finish_edit right flags t : I t → I (finish_character_edit right flags t).
Proof using HQ. intros. unfold finish_character_edit. case_match; auto with screen. Qed.

Lemma e_insert_boundary n right tr t : I t → I (insert_blank_characters_with_right_boundary n right tr t).
Proof using HQ.
  intros Hi. unfold insert_blank_characters_with_right_boundary. case_decide; [done|].
  match goal with |- context [prepare_bounded_character_edit_attachments ?r ?x t] =>
    pose proof (e_prepare r x t Hi) as [Hp _];
    destruct (prepare_bounded_character_edit_attachments r x t) as [flags u] end.
  apply e_finish_edit, e_writes; [|exact Hp]. intros. apply writes_edit.
Qed.

Lemma e_delete_boundary n right t : I t → I (delete_characters_with_right_boundary n right t).
Proof using HQ.
  intros Hi. unfold delete_characters_with_right_boundary. case_decide; [done|].
  match goal with |- context [prepare_bounded_character_edit_attachments ?r ?x t] =>
    pose proof (e_prepare r x t Hi) as [Hp _];
    destruct (prepare_bounded_character_edit_attachments r x t) as [flags u] end.
  apply e_finish_edit, e_writes; [|exact Hp]. intros. apply writes_edit.
Qed.

Lemma e_insert_blank n t : I t → I (insert_blank_characters n t).
Proof using HQ.
  intros Hi. unfold insert_blank_characters. case_match; [auto with screen|].
  apply e_insert_boundary. by eapply e_same, Hi.
Qed.

Lemma e_insert_for_write n t : I t → I (insert_blank_characters_for_write n t).
Proof using HQ. intros Hi. apply e_insert_boundary. by eapply e_same, Hi. Qed.

Lemma e_delete_characters n : preserves I (delete_characters n).
Proof using HI.
  apply preserves_seq; [apply e_modify; auto with screen|]. apply preserves_get. intros t Hi.
  next_if; [apply preserves_ret|]. next_let. apply preserves_bind; [apply preserves_expect|].
  intros [start k]. apply e_modify. intros u Hu. apply e_delete_boundary. by eapply e_same, Hu.
Qed.

Lemma e_erase_characters n t : I t → I (erase_characters n t).
Proof using HQ.
  intros Hi. unfold erase_characters. case_decide; [auto with screen|].
  apply e_damage, e_writes; [|auto with screen]. intros s.
  etrans; [apply writes_fill|apply writes_sanitize].
Qed.

Lemma e_clear_cell sel row source column t : I t → I (clear_cell sel row source column t).
Proof using HQ.
  intros Hi. unfold clear_cell. case_match; [done|].
  apply e_writes; [intros; apply writes_set|]. destruct sel; auto with screen.
Qed.

Lemma e_clear_cells row c1 c2 sel t : I t → I (clear_cells row c1 c2 sel t).
Proof using HQ.
  intros Hi. unfold clear_cells. case_decide; [done|]. case_decide; [done|]. apply e_damage.
  match goal with |- I (if _ then on_active _ ?u else _) => assert (I u) as Hu end.
  { apply e_writes; [intros; apply writes_sanitize|].
    apply e_foldl; [intros; by apply e_clear_cell|]. destruct sel; auto with screen. }
  case_decide; [|exact Hu]. apply e_writes; [|exact Hu]. intros. apply writes_wrapped.
Qed.

Lemma e_clear_rows rows sel t : I t → I (clear_rows rows sel t).
Proof using HQ. apply e_foldl. intros. by apply e_clear_cells. Qed.

(** The generation moves on. *)
Lemma e_bump : preserves I bump_screen_identity_generation.
Proof using HI.
  intros t Hi. unfold bump_screen_identity_generation, checked_add. monad. case_bool_decide; [|done].
  eapply eff_bump, Hi; simpl; [lia|done|by apply eff_ok|]. intros s. by eapply eff_dormant.
Qed.

Lemma e_erase_display mode sel : preserves I (erase_display mode sel).
Proof using HI.
  apply preserves_get. intros t Hi. next_if; [apply e_prune|]. next_if; [apply preserves_ret|].
  next_if; [apply e_modify; intros; by apply e_clear_rows, e_clear_cells|].
  next_if; [apply e_modify; intros; by apply e_clear_cells, e_clear_rows|].
  next_if; [|apply preserves_ret]. apply preserves_seq.
  - destruct sel; [apply preserves_ret|apply e_bump].
  - apply e_modify. intros u Hu. destruct sel; [|apply e_call]; by apply e_clear_rows.
Qed.

Lemma e_erase_line mode sel t : I t → I (erase_line mode sel t).
Proof using HQ.
  intros Hi. unfold erase_line. case_decide; [done|]. repeat case_match; auto using e_clear_cells.
Qed.

Lemma advance_grid n s : grid (Screen.advance_cursor n s) = grid s.
Proof. unfold Screen.advance_cursor. by case_decide. Qed.

Lemma joins_previous_get ch s row column cell g :
  joins_previous ch s = Some (row, column, cell, g) → is_Some (TerminalGrid.get row column (grid s)).
Proof.
  unfold joins_previous. intros H. apply bind_Some in H as ([r c] & _ & H).
  apply bind_Some in H as (cell' & Hget & H). case_match; [done|].
  case_bool_decide; [|done]. injection H as -> -> _ _. by eexists.
Qed.

Lemma e_extend ch t : I t → I (extend_previous_grapheme ch t).2.
Proof using HQ.
  intros Hi. unfold extend_previous_grapheme.
  destruct (joins_previous ch (active t)) as [[[[row column] cell] g]|] eqn:Hj; [|done].
  case_decide; [done|]. case_decide; [done|]. cbn [snd].
  apply e_on; [intros s; simpl; by rewrite advance_grid|].
  apply e_damage, e_writes_at; [|done].
  apply writes_grapheme. by eapply joins_previous_get.
Qed.

Lemma e_put_character ch width write_width t : I t → I (put_character ch width write_width t).
Proof using HQ.
  intros Hi. unfold put_character.
  match goal with |- context [history_len ?v + _] =>
    match v with on_active _ _ => set (u := v) end end.
  assert (I u) as Hu.
  { apply e_writes; [|done]. intros s. apply foldl_preorder; [apply _|].
    intros. apply writes_clear_span. }
  assert (seqno u = seqno t) as Hn by done. clearbody u. clear Hi.
  match goal with |- context [Screen.set_grid_cell ?n ?r ?c ?x ?s] =>
    pose proof (writes_set n r c x s) as Hs; pose proof (set_touches n r c x s) as Ht;
    destruct (Screen.set_grid_cell n r c x s) as [ok s1] end.
  destruct ok; [|done]. specialize (Ht s1 eq_refl). simpl in Hs.
  assert (I (u{{ active := s1 }})) as H1 by (by apply (eff_active u)).
  set (row := cursor_row (active t)) in *.
  match goal with |- context [call (ClearPlaceholderCells ?r ?c ?w) ?x] =>
    pose proof (call_frame (ClearPlaceholderCells r c w) x) as Hf;
    set (v := call (ClearPlaceholderCells r c w) x) in * end.
  assert (I v) as Hv by (by eapply eff_gfx).
  assert (touched (seqno v) row (grid (active v))) as Htv.
  { destruct (gfx_frame_rest _ _ Hf) as (_ & _ & _ & _ & -> & _). destruct Hf as [_ -> _]. exact Ht. }
  clearbody v. clear Hf H1 Hs Ht Hu.
  match goal with |- context [record_damage ?d ?x] => assert (I x) as H2 end.
  { apply e_writes_at; [|done]. cbv beta zeta.
    match goal with |- context [write_continuations ?n ?r ?c ?b ?x ?y ?z] =>
      pose proof (writes_continuations n r c b x y z) as Hw;
      set (s2 := write_continuations n r c b x y z) in * end.
    case_decide; [|exact Hw]. etrans; [exact Hw|].
    apply (writes_overflow (seqno v) row _ s2). by eapply touched_tracked. }
  match goal with |- context [on_active ?f (record_damage ?d ?x)] =>
    assert (I (on_active f (record_damage d x))) as H3;
    [|destruct (bool_decide (ch = KITTY_UNICODE_PLACEHOLDER)); apply e_call, H3] end.
  apply e_on; [|auto with screen]. intros s'. apply (advance_grid write_width s').
Qed.

Lemma e_write_char ch : preserves I (write_char ch).
Proof using HI.
  apply preserves_get. intros t Hi. next_if; [apply preserves_ret|].
  pose proof (e_flag (ApplyPlaceholderDiacritic ch0) t Hi) as H1.
  destruct (call_flag (ApplyPlaceholderDiacritic ch0) t) as [d t1]. simpl in H1.
  next_if; [by apply preserves_put|].
  pose proof (e_extend ch0 t1 H1) as H2.
  destruct (extend_previous_grapheme ch0 t1) as [e t2]. simpl in H2.
  next_if; [by apply preserves_put|]. next_let.
  assert (I t0) as H3 by (subst t0; auto with screen). clearbody t0.
  next_if; [by apply preserves_put|].
  apply preserves_seq; [by apply preserves_put|]. apply preserves_seq.
  { next_if; [apply e_wrapped_newline|]. apply e_modify. auto with screen. }
  apply preserves_get. intros t3 H4. apply preserves_seq.
  { next_if; [apply e_wrapped_newline|apply preserves_ret]. }
  apply preserves_get. intros t4 H5. next_if; [apply preserves_ret|]. next_let.
  apply e_modify. intros t5 H6. apply e_put_character.
  destruct (write_mode (modes (active t5))); [done|by apply e_insert_for_write].
Qed.

Lemma e_repeat n : preserves I (repeat_previous_character n).
Proof using HI.
  apply preserves_get. intros t Hi. next_if; [|apply preserves_ret].
  apply preserves_iterM. intros _. apply preserves_seq.
  - apply e_modify. intros u. field.
  - apply preserves_iterM. intros ch. apply e_write_char.
Qed.
End effects.
