(* ===== verification/EffectsControl.v ===== *)
(** The control functions are made of the same kinds of change: a predicate
    with [Effects] survives modes, resets, CSI and OSC functions, and so
    every input of bytes. *)
From coqutil Require Import Datatypes.RecordSetters.
From S2P Require Import Prelude Text Grid GridFacts Csi Parse Reflow Utf8 Feed Screen Scroll Edit Control.
From S2P Require Import ScreenFacts TerminalInv TerminalKeeps ControlKeeps Tracking Effects.
Import DoubleBraceUpdate.

Section effects.
  Context `{Ext : External} `{Gfx : Graphics} (I : Terminal → Prop) `{HQ : !Quiet I} `{HI : !Effects I}.
  Abbreviation TM := (M Empty_set Terminal).
  Implicit Types (t : Terminal) (s : ScreenState).

Ltac other := intros; eapply eff_rest; [..|eassumption]; repeat case_match; done.
Ltac field := apply e_same; done.

(** A field of the active screen, several times. *)
Lemma e_default_style t : I t → I (apply_default_cursor_style t).
Proof using HI. field. Qed.

Lemma e_reverse_video e t : I t → I (set_screen_reverse_video e t).
Proof using HI.
  intros Hi. unfold set_screen_reverse_video. case_match; [done|]. apply e_damage_screen; [done|].
  revert Hi. field.
Qed.

Lemma e_cursor_shape p t : I t → I (set_cursor_shape p t).
Proof using HI.
  intros Hi. unfold set_cursor_shape. destruct (strip_suffix [32%Z] p) as [q|]; [|done].
  destruct (csi_mode q =? 0)%Z; [by apply e_default_style|]. revert Hi. field.
Qed.

Lemma e_protection p t : I t → I (set_character_protection p t).
Proof using HI. intros Hi. unfold set_character_protection. case_match; [|done]. revert Hi. field. Qed.

(** ** The alternate screen and resets *)

(** Between the bump of the generation and the end of the operation. *)
Record ahead t0 t : Prop := {
  ahead_generation : (screen_identity_generation t0 < screen_identity_generation t)%Z;
  ahead_seqno : seqno t = seqno t0;
  ahead_ok : grid_ok (grid (active t));
  ahead_dormant : ∀ s, main_screen t = Some s → grid_ok (grid s);
}.

Lemma ahead_gfx t0 t t' : gfx_frame t t' → ahead t0 t → ahead t0 t'.
Proof.
  intros Hf [A1 A2 A3 A4]. destruct (gfx_frame_rest _ _ Hf) as (_ & _ & _ & _ & F5 & F6).
  destruct Hf as [_ G2 G3]. split.
  - by rewrite F6.
  - by rewrite F5.
  - by rewrite G2.
  - intros s Hs. rewrite Hs in G3. destruct (main_screen t) as [s0|] eqn:Hm; [|done].
    apply (f_equal (fmap grid)) in G3. injection G3 as Hg. simpl in Hg. rewrite Hg. by apply A4.
Qed.

Lemma e_ahead t0 t : ahead t0 t → I t0 → I t.
Proof using HI. intros [A1 A2 A3 A4]. by apply eff_bump. Qed.

Lemma e_alternate enabled : preserves I (set_alternate_screen enabled).
Proof using HI.
  intros t Hi. unfold set_alternate_screen. unfold get_state, mbind at 1, M_bind at 1.
  destruct enabled, (main_screen t) as [main|] eqn:Hm; try done;
    monad; unfold bump_screen_identity_generation, checked_add; monad;
    case_bool_decide; try done; apply e_damage_screen; try done.
  - match goal with |- I (on_active _ ?u) => assert (ahead t u) as Hu end.
    { do 2 (eapply ahead_gfx; [apply call_frame|]). split; simpl; [lia|done|apply new_with_seqno_ok|].
      intros s [= <-]. by apply eff_ok. }
    apply (e_ahead t); [|done]. destruct Hu. by split.
  - eapply (e_ahead t), Hi. eapply ahead_gfx; [apply call_frame|]. split; simpl; [lia|done| |done].
    unfold Screen.clamp_to_size. pose proof (eff_dormant t main Hi Hm).
    repeat (case_decide; simpl); done.
Qed.

Lemma prune_ahead t0 n t :
  ahead t0 t → match prune_scrollback_rows n t with Ok _ t' => ahead t0 t' | Err _ _ => False | Panic => True end.
Proof.
  intros Ha. pose proof (prune_effect n t) as Hp. destruct (prune_scrollback_rows n t) as [[] t'| |]; try done.
  destruct Hp as (u & rows & exits & m & -> & Hf).
  assert (ahead t0 u) as Hu; [|destruct Hu; by split].
  eapply ahead_gfx; [exact Hf|]. destruct Ha. by split.
Qed.

Lemma e_reset : preserves I reset_terminal.
Proof using HI.
  intros t Hi. unfold reset_terminal, bump_screen_identity_generation, checked_add. monad.
  case_bool_decide; [|done].
  match goal with |- context [prune_scrollback_rows (history_len ?x) ?u] =>
    pose proof (prune_ahead t (history_len x) u) as Hp end.
  match type of Hp with ?P → _ => assert P as Ha end.
  { split; simpl; [lia|done|by apply eff_ok|]. intros s. by apply eff_dormant. }
  specialize (Hp Ha). destruct (prune_scrollback_rows _ _) as [[] u| |]; [|done|done].
  apply e_damage_screen; [done|].
  match goal with |- context [call ResetGraphics ?x] => set (v := x); assert (ahead t v) as Hv end.
  { destruct Hp. split; try done. apply new_with_seqno_ok. }
  apply (ahead_gfx t v (call ResetGraphics v)) in Hv; [|apply call_frame].
  apply (e_ahead t); [|done]. destruct Hv. split; try done.
Qed.

Lemma e_soft_reset : preserves I soft_reset_terminal.
Proof using HI.
  apply preserves_seq; [apply e_alternate|]. apply e_modify. intros t Hi. apply e_damage_screen; [done|].
  match goal with |- context [call ClearKittyGraphics ?x] =>
    assert (I (call ClearKittyGraphics x)) as Hu; [apply e_call; [done|]; revert Hi; field|];
    revert Hu; generalize (call ClearKittyGraphics x) end.
  intros u. field.
Qed.

Lemma e_alignment t : I t → I (screen_alignment_test t).
Proof using HI.
  intros Hi. unfold screen_alignment_test.
  match goal with |- context [seqno ?x] => assert (I x) as Hu; [revert Hi; field|] end.
  case_decide; [exact Hu|]. apply e_damage_screen; [done|]. apply e_writes; [done| |exact Hu].
  intros s. apply foldl_preorder; [apply _|]. intros. apply writes_alignment.
Qed.

(** ** Modes *)

Lemma e_on_m f : (∀ s, grid (f s) = grid s) → preserves I (modify (on_active f) : TM ()).
Proof using HI. intros Hf. apply preserves_modify. intros t. by apply e_on. Qed.

Ltac same_grid :=
  intros ?s; cbv [Screen.move_cursor_up Screen.move_cursor_down Screen.move_cursor_forward
    Screen.move_cursor_back Screen.move_cursor_next_line Screen.move_cursor_previous_line
    Screen.position_cursor Screen.position_cursor_column Screen.position_cursor_row
    Screen.set_scroll_region Screen.set_left_right_margins Screen.backspace
    Screen.set_origin_mode Screen.set_auto_wrap Screen.set_left_right_margin_mode
    Screen.set_insert_mode Screen.save_cursor];
  repeat case_match; rewrite ?home_grid, ?moved_grid, ?restore_grid; simpl;
  rewrite ?home_grid, ?moved_grid; done.

Lemma e_private_mode enabled value : preserves I (set_private_mode_value enabled value).
Proof using HI.
  unfold set_private_mode_value.
  next_if; [apply e_modify; intros; by apply e_reverse_video|].
  do 2 (next_if; [apply e_on_m; same_grid|]).
  do 3 (next_if; [apply e_modify; intros t; field|]).
  next_if; [apply e_on_m; same_grid|].
  do 2 (next_if; [apply e_modify; intros t; field|]).
  next_if; [apply e_alternate|]. next_if; [|apply preserves_ret].
  apply e_on_m. destruct enabled; same_grid.
Qed.

Lemma e_set_mode params enabled : preserves I (set_mode params enabled).
Proof using HI.
  unfold set_mode, set_private_mode. case_bool_decide.
  - case_match; [|apply preserves_ret]. apply preserves_iterM. intros. apply e_private_mode.
  - apply e_modify. intros t. apply e_foldl. intros u v Hi. case_match; [|done]. by apply e_on.
Qed.

Lemma e_tabs stops t : I t → I (t{{ tab_stops := stops }}).
Proof using HI. by apply eff_rest. Qed.

Lemma forward_tabs_grid stops n s : grid (Screen.move_forward_tabs stops n s) = grid s.
Proof. unfold Screen.move_forward_tabs. by case_decide. Qed.

Lemma backward_tabs_grid stops n s : grid (Screen.move_backward_tabs stops n s) = grid s.
Proof. unfold Screen.move_backward_tabs. by case_decide. Qed.

Lemma e_csi command params : preserves I (apply_csi command params).
Proof using HI.
  unfold apply_csi.
  next_if; [apply e_modify; intros; by apply e_insert_blank|].
  do 8 (next_if; [apply e_on_m; same_grid|]).
  next_if; [apply e_modify; intros; by apply e_on; [|apply forward_tabs_grid|]|].
  next_if; [by apply (e_erase_display I)|].
  next_if; [apply e_modify; intros; by apply e_erase_line|].
  next_if; [apply e_modify; intros; by apply e_insert_lines|].
  next_if; [by apply (e_delete_lines I)|].
  next_if; [by apply (e_delete_characters I)|].
  next_if; [by apply (e_scroll_up I)|].
  next_if; [apply e_modify; intros; by apply e_scroll_down|].
  next_if; [apply e_modify; intros; by apply e_erase_characters|].
  next_if; [apply e_modify; intros; by apply e_on; [|apply backward_tabs_grid|]|].
  next_if; [by apply (e_repeat I)|].
  next_if; [apply e_on_m; same_grid|].
  next_if; [apply e_modify; intros; repeat case_match; by try apply e_tabs|].
  next_if; [apply e_modify; intros t; field|].
  next_if; [next_if; apply e_modify; intros; [by apply e_protection|by apply e_cursor_shape]|].
  next_if; [apply e_soft_reset|].
  next_if; [apply e_on_m; same_grid|].
  next_if; [apply e_modify; unfold apply_window_manipulation; other|].
  do 2 (next_if; [apply e_set_mode|]).
  do 2 (next_if; [apply e_on_m; same_grid|]).
  apply e_modify. unfold record_unknown_escape_sequence. other.
Qed.

(** ** Strings *)

Lemma e_iterm c t : I t → I (apply_osc1337_iterm_metadata c t).
Proof using HI.
  intros Hi. unfold apply_osc1337_iterm_metadata.
  case_match; [unfold set_current_working_dir; revert Hi; other|].
  case_match; [unfold apply_osc1337_set_user_var; revert Hi; other|].
  case_match; [unfold apply_osc1337_set_badge_format; revert Hi; other|].
  case_match; [by apply e_call|]. case_match; [|done].
  unfold apply_osc1337_unicode_version, pop_labeled_unicode_version. revert Hi. other.
Qed.

Lemma e_prompt t : I t → I (record_semantic_prompt_row (set_semantic_type Prompt false t)).
Proof using HI.
  intros Hi. assert (I (set_semantic_type Prompt false t)) as H1 by (revert Hi; field).
  revert H1. generalize (set_semantic_type Prompt false t). unfold record_semantic_prompt_row. other.
Qed.

Lemma e_osc133 c : preserves I (apply_osc133_semantic_prompt c).
Proof using HI.
  unfold apply_osc133_semantic_prompt. destruct (default _ _) as [marker params].
  next_if.
  { apply preserves_seq; [|apply e_modify; intros; by apply e_prompt].
    apply preserves_get. intros t Hi. next_if; [apply preserves_ret|by apply (e_newline I)]. }
  next_if; [apply e_modify; intros; by apply e_prompt|].
  do 3 (next_if; [apply e_modify; intros t; field|]).
  next_if; [|apply preserves_ret]. apply e_modify. unfold record_semantic_command_exit.
  destruct (foldl command_exit_part _ _). other.
Qed.

Lemma e_osc c : preserves I (apply_osc_content c).
Proof using HI.
  assert (∀ x t, I t → I (set_icon_and_window_title x t) ∧ I (set_icon_title x t) ∧
    I (set_window_title x t) ∧ I (set_current_working_dir x t)) as Htitle.
  { intros x t Hi.
    unfold set_icon_and_window_title, set_icon_title, set_window_title, set_current_working_dir, note_title.
    split_and!; revert Hi; other. }
  assert (∀ o : option (rstring * rstring), preserves I
    match o with
    | None => mret ()
    | Some (command, rest) =>
        if bool_decide (command = lit "0") then modify (set_icon_and_window_title rest)
        else if bool_decide (command = lit "1") then modify (set_icon_title rest)
        else if bool_decide (command = lit "2") then modify (set_window_title rest)
        else if bool_decide (command = lit "7") then modify (set_current_working_dir rest)
        else if bool_decide (command = lit "8") then modify (apply_osc8_hyperlink rest)
        else if bool_decide (command = lit "133") then apply_osc133_semantic_prompt rest
        else if bool_decide (command = lit "1337") then modify (apply_osc1337_iterm_metadata rest)
        else mret ()
    end) as H.
  { intros [[command rest]|]; [|apply preserves_ret].
    do 4 (next_if; [apply e_modify; intros; by apply Htitle|]).
    next_if.
    { apply e_modify. intros t Hi. unfold apply_osc8_hyperlink.
      destruct (split_once 59 rest) as [[? uri]|]; [|done]. revert Hi. field. }
    next_if; [apply e_osc133|].
    next_if; [apply e_modify; intros; by apply e_iterm|apply preserves_ret]. }
  destruct c as [|z rest]; [apply (H (split_once 59 []))|]. unfold apply_osc_content.
  repeat (case_match; try apply (H (split_once 59 (_ :: rest)))); apply e_modify; intros; by apply Htitle.
Qed.

Lemma e_apc c : preserves I (apply_apc_content c).
Proof using HI.
  destruct c as [|z rest]; [apply preserves_ret|]. unfold apply_apc_content.
  repeat (case_match; try apply preserves_ret). apply e_modify. intros t Hi.
  pose proof (e_reply I (KittyCommand rest) t Hi) as Hr.
  destruct (call_reply _ t) as [r u]. simpl in Hr. destruct (reply_cells r) as [[columns rows]|]; [|done].
  apply e_on; [done|same_grid|done].
Qed.

Lemma e_dcs c : preserves I (apply_dcs_content c).
Proof using HI.
  apply preserves_get. intros t Hi. pose proof (e_reply I (SixelContent c) t Hi) as Hr.
  destruct (call_reply _ t) as [r u]. simpl in Hr.
  apply preserves_seq; [by apply preserves_put|].
  next_if; [destruct p as [columns rows]|apply preserves_ret].
  next_if; [apply preserves_ret|]. apply preserves_seq; [by apply (e_index_down I)|].
  apply e_modify. intros v Hv. case_match; [|done]. apply e_on; [done|same_grid|done].
Qed.

Lemma e_normalize l t : I t → I (normalize_marks l t).2.
Proof using HI.
  intros Hi. unfold normalize_marks. case_decide; [done|].
  destruct (nfc_last_printable_cell (active t)) as [[row column]|]; [|done].
  destruct (TerminalGrid.get _ _ _) as [cell|]; [|done].
  case_bool_decide; [done|]. case_bool_decide; [done|]. case_decide; [done|].
  match goal with |- context [Screen.set_grid_cell ?n ?r ?c ?x ?s] =>
    pose proof (writes_set n r c x s) as Hs; destruct (Screen.set_grid_cell n r c x s) as [ok s'] end.
  simpl in Hs. destruct ok; [|done]. cbn [snd].
  assert (I (t{{ active := s' }})) as Ha by (by apply (eff_active t)).
  match goal with |- context [record_damage ?d ?x] =>
    assert (I (record_damage d x)) as Hb by (by apply e_damage);
    revert Hb; generalize (record_damage d x) end.
  intros u. field.
Qed.

#[export] Instance effects_keep : PerformerKeeps Terminal I.
Proof using HI.
  split; simpl.
  - intros t Hi. unfold finish_text_run.
    assert (I (call FinishPendingPlaceholder t)) as H by (by apply e_call). revert H. field.
  - apply e_csi.
  - apply e_osc.
  - apply e_apc.
  - apply e_dcs.
  - apply preserves_get. intros t Hi. next_if; [by apply (e_index_down I)|apply preserves_ret].
  - by apply (e_next_line I).
  - apply e_modify. by apply e_reverse_index.
  - by apply (e_line_feed I).
  - apply e_reset.
  - apply e_alignment.
  - intros t. apply e_tabs.
  - intros t. by apply e_on.
  - intros t. apply e_on; [done|apply restore_grid].
  - intros c t. field.
  - intros x. unfold record_unknown_escape_sequence. other.
  - other.
  - intros t. apply e_on; [done|same_grid].
  - intros t. apply e_on; [done|apply forward_tabs_grid].
  - intros t. by apply e_on.
  - by apply (e_write_char I).
  - intros. by apply e_normalize.
Qed.
End effects.
