(* ===== verification/StableFacts.v ===== *)
(** Stable rows: a line keeps its stable number for as long as it is kept,
    and every row whose line changed is reported by
    [changed_stable_rows_since]. Both follow from one comparison of the
    terminal with an earlier state of it, [tracked], which survives every
    input ([EffectsControl]). *)
From coqutil Require Import Datatypes.RecordSetters.
From S2P Require Import Prelude Text Grid GridFacts Csi Reflow Utf8 Feed Screen Scroll Edit Control StableRows.
From S2P Require Import ScreenFacts TerminalInv TerminalKeeps ControlKeeps Tracking Effects EffectsControl.
Import DoubleBraceUpdate.

Section stable.
  Context `{Ext : External} `{Gfx : Graphics}.
  Implicit Types (t : Terminal) (k : Z) (l : ScrollbackLine).

(** ** Lines by stable number *)

Definition lines t : list ScrollbackLine :=
  (if alternate_screen_active t then [] else history_rows (scrollback t))
  ++ (ScrollbackLine.from_grid_row <$> grid_rows (grid (active t))).

Definition base t : Z := if alternate_screen_active t then 0%Z else main_stable_row_offset t.

Definition stable_line k t : option ScrollbackLine :=
  if bool_decide (base t ≤ k)%Z then lines t !! Z.to_nat (k - base t) else None.

(** What a client sees of a stable row: its cells and its wrap mark. *)
Definition stable_row_view k t : option (list Cell * bool) :=
  d ← stable_dimensions t;
  i ← retained_index d k;
  cells ← cells_for_history_row (text_history_index i t) t;
  w ← history_row_is_wrapped (text_history_index i t) t;
  Some (cells, w).

Lemma stable_dimensions_spec t d :
  stable_dimensions t = Some d →
  scrollback_top d = base t ∧ viewport_rows d = Screen.rows (active t) ∧
  scrollback_rows d = (if alternate_screen_active t then 0 else history_len t) + Screen.rows (active t).
Proof.
  unfold stable_dimensions, base. destruct (alternate_screen_active t); [by intros [= <-]|].
  intros H. apply bind_Some in H as (top & _ & H). case_bool_decide; [|done]. by injection H as <-.
Qed.

Lemma lines_length t d :
  grid_ok (grid (active t)) → stable_dimensions t = Some d → length (lines t) = scrollback_rows d.
Proof.
  intros [Hl _] Hd. destruct (stable_dimensions_spec t d Hd) as (_ & _ & ->).
  unfold lines. rewrite length_app, length_fmap, Hl. by destruct (alternate_screen_active t).
Qed.

(** A row of the grid, read cell by cell. *)
Lemma row_cells_read (g : TerminalGrid) i r :
  grid_ok g → grid_rows g !! i = Some r →
  (λ column, default Cell.default (TerminalGrid.get i column g)) <$> seq 0 (size_columns (grid_size g)) = row_cells r.
Proof.
  intros Hok Hr. apply list_eq. intros j. rewrite list_lookup_fmap.
  pose proof (grid_ok_row g i r Hok Hr) as Hlen. unfold TerminalGrid.get. rewrite Hr. simpl.
  destruct (decide (j < size_columns (grid_size g))).
  - rewrite lookup_seq_lt by done. simpl.
    destruct (row_cells r !! j) eqn:Hc; [done|]. apply lookup_ge_None_1 in Hc. lia.
  - rewrite lookup_seq_ge by lia. symmetry. apply lookup_ge_None_2. lia.
Qed.

(** The line a history index names. *)
Lemma lines_lookup t i :
  grid_ok (grid (active t)) → i < length (lines t) →
  ∃ l, lines t !! i = Some l ∧ cells_for_history_row (text_history_index i t) t = Some (line_cells l) ∧
    history_row_is_wrapped (text_history_index i t) t = Some (line_wrapped l) ∧ line_seqno i t = line_sequence l.
Proof.
  intros Hok Hi. unfold lines in *.
  assert (∀ row, row < Screen.rows (active t) →
    ∃ r, grid_rows (grid (active t)) !! row = Some r ∧
      cells_for_history_row (history_len t + row) t = Some (row_cells r) ∧
      history_row_is_wrapped (history_len t + row) t = Some (wrapped r)) as Hgrid.
  { intros row Hrow. destruct (lookup_lt_is_Some_2 (grid_rows (grid (active t))) row) as [r Hr].
    { destruct Hok as [-> _]. exact Hrow. }
    exists r. split; [done|]. unfold cells_for_history_row, history_row_is_wrapped.
    rewrite lookup_ge_None_2 by (unfold history_len; lia).
    replace (history_len t + row - history_len t) with row by lia.
    rewrite !decide_False by lia. unfold Screen.columns, Screen.size, TerminalGrid.row_wrapped.
    by rewrite (row_cells_read _ row r Hok Hr), Hr. }
  unfold line_seqno, text_history_index. destruct (alternate_screen_active t).
  - simpl in *. rewrite length_fmap in Hi. destruct (Hgrid i) as (r & Hr & Hc & Hw).
    { unfold Screen.rows, Screen.size. by destruct Hok as [<- _]. }
    exists (ScrollbackLine.from_grid_row r). rewrite list_lookup_fmap, Hr. split_and!; try done.
    unfold TerminalGrid.row_last_change_seqno. by rewrite Hr.
  - destruct (history_rows (scrollback t) !! i) as [l|] eqn:Hl.
    + exists l. rewrite lookup_app_l by (by eapply lookup_lt_Some). rewrite Hl.
      unfold cells_for_history_row, history_row_is_wrapped. rewrite Hl. done.
    + apply lookup_ge_None_1 in Hl. fold (history_len t) in Hl.
      rewrite length_app, length_fmap in Hi. fold (history_len t) in Hi.
      destruct (Hgrid (i - history_len t)) as (r & Hr & Hc & Hw).
      { unfold Screen.rows, Screen.size. destruct Hok as [<- _]. lia. }
      replace (history_len t + (i - history_len t)) with i in Hc, Hw by lia.
      exists (ScrollbackLine.from_grid_row r). rewrite lookup_app_r by done. fold (history_len t).
      rewrite list_lookup_fmap, Hr. split_and!; try done.
      unfold TerminalGrid.row_last_change_seqno. by rewrite Hr.
Qed.

Lemma retained_index_spec t d k i :
  stable_dimensions t = Some d → retained_index d k = Some i →
  (base t ≤ k)%Z ∧ i = Z.to_nat (k - base t) ∧ i < scrollback_rows d.
Proof.
  intros Hd. destruct (stable_dimensions_spec t d Hd) as (Hb & _). unfold retained_index. rewrite Hb.
  case_bool_decide; [|done]. intros [= <-]. lia.
Qed.

Lemma view_line t d k :
  grid_ok (grid (active t)) → stable_dimensions t = Some d →
  stable_row_view k t = (λ l, (line_cells l, line_wrapped l)) <$> stable_line k t.
Proof.
  intros Hok Hd. unfold stable_row_view. rewrite Hd. simpl. pose proof (lines_length t d Hok Hd) as Hlen.
  destruct (retained_index d k) as [i|] eqn:Hi; simpl.
  - destruct (retained_index_spec t d k i Hd Hi) as (Hb & -> & Hlt).
    destruct (lines_lookup t (Z.to_nat (k - base t)) Hok) as (l & Hl & -> & Hw & _); [lia|].
    simpl. rewrite Hw. simpl. unfold stable_line. rewrite bool_decide_true by done. by rewrite Hl.
  - unfold stable_line. case_bool_decide as Hb; [|done].
    unfold retained_index in Hi. destruct (stable_dimensions_spec t d Hd) as (Hb' & _). rewrite Hb' in Hi.
    case_bool_decide; [done|]. rewrite lookup_ge_None_2 by lia. done.
Qed.

(** ** Comparison with an earlier state *)

(** [tracked t0 t]: as long as the screen's identity did not change, a line
    found under a stable number is the line that was there, or carries the
    current sequence number. *)
Record tracked t0 t : Prop := {
  tr_ok : grid_ok (grid (active t));
  tr_dormant : ∀ s, main_screen t = Some s → grid_ok (grid s);
  tr_generation : (screen_identity_generation t0 ≤ screen_identity_generation t)%Z;
  tr_seqno : seqno t = seqno t0;
  tr_lines : screen_identity_generation t = screen_identity_generation t0 →
    alternate_screen_active t = alternate_screen_active t0 ∧
    ∀ k l, stable_line k t = Some l → stable_line k t0 = Some l ∨ line_sequence l = seqno t0;
}.

(** The step from [t] to [t'] within one identity. *)
Lemma tracked_step t0 t t' :
  grid_ok (grid (active t')) → (∀ s, main_screen t' = Some s → grid_ok (grid s)) →
  screen_identity_generation t' = screen_identity_generation t → seqno t' = seqno t →
  alternate_screen_active t' = alternate_screen_active t →
  (∀ k l, stable_line k t' = Some l → stable_line k t = Some l ∨ line_sequence l = seqno t) →
  tracked t0 t → tracked t0 t'.
Proof.
  intros H1 H2 H3 H4 H5 H6 [T1 T2 T3 T4 T5]. split; try done.
  - by rewrite H3.
  - by rewrite H4.
  - rewrite H3. intros Hg. destruct (T5 Hg) as [Ha Hl]. split; [by rewrite H5|].
    intros k l [Hk|Hk]%H6; [by apply Hl|]. right. by rewrite Hk.
Qed.

(** Lookup by stable number depends on few fields. *)
Lemma stable_line_same k t t' :
  grid_rows (grid (active t')) = grid_rows (grid (active t)) →
  alternate_screen_active t' = alternate_screen_active t → scrollback t' = scrollback t →
  main_stable_row_offset t' = main_stable_row_offset t → stable_line k t' = stable_line k t.
Proof. intros H1 H2 H3 H4. unfold stable_line, lines, base. by rewrite H1, H2, H3, H4. Qed.

Lemma gfx_frame_alternate t t' :
  gfx_frame t t' → alternate_screen_active t' = alternate_screen_active t.
Proof.
  intros [_ _ H]. unfold alternate_screen_active. apply bool_decide_ext.
  rewrite <-(fmap_is_Some (λ s, s{{ graphics := no_images }})), H. apply fmap_is_Some.
Qed.

Lemma gfx_frame_dormant t t' :
  gfx_frame t t' → (∀ s, main_screen t = Some s → grid_ok (grid s)) →
  ∀ s, main_screen t' = Some s → grid_ok (grid s).
Proof.
  intros [_ _ H] Hd s Hs. rewrite Hs in H. destruct (main_screen t) as [s0|]; [|done].
  apply (f_equal (fmap grid)) in H. injection H as Hg. simpl in Hg. rewrite Hg. by apply Hd.
Qed.

Lemma tracked_gfx t0 t t' : gfx_frame t t' → tracked t0 t → tracked t0 t'.
Proof.
  intros Hf Ht. destruct (gfx_frame_rest _ _ Hf) as (_ & F2 & _ & F4 & F5 & F6).
  pose proof (gfx_frame_alternate _ _ Hf) as Ha.
  apply (tracked_step t0 t); try done.
  - destruct Hf as [_ -> _]. apply Ht.
  - eapply gfx_frame_dormant; [exact Hf|apply Ht].
  - intros k l Hl. left. rewrite <-(stable_line_same k t t'); try done. by destruct Hf as [_ -> _].
Qed.

(** Rows of the active grid change. *)
Lemma tracked_active t0 t t' :
  t' = t{{ active := active t' }} → rows_tracked (seqno t) (grid (active t)) (grid (active t')) →
  tracked t0 t → tracked t0 t'.
Proof.
  intros Heq [[_ Hsh] Hr] Ht. rewrite Heq. set (s := active t') in *. clearbody s. clear Heq t'.
  apply (tracked_step t0 t); try done; [apply Hsh, Ht|apply Ht|].
  intros k l.
  change (stable_line k (t{{ active := s }})) with
    (if bool_decide (base t ≤ k)%Z
     then ((if alternate_screen_active t then [] else history_rows (scrollback t))
           ++ (ScrollbackLine.from_grid_row <$> grid_rows (grid s))) !! Z.to_nat (k - base t) else None).
  unfold stable_line, lines. case_bool_decide; [|done].
  set (h := if alternate_screen_active t then [] else _). rewrite !lookup_app.
  destruct (h !! _) as [x|]; [by left|]. rewrite !list_lookup_fmap.
  intros Hl. apply fmap_Some in Hl as (r & Hl & ->).
  destruct (Hr _ _ Hl) as [Hr'|Hr']; [left|right; exact Hr']. by rewrite Hr'.
Qed.

Lemma stable_line_main k t :
  main_screen t = None →
  stable_line k t =
    if bool_decide (main_stable_row_offset t ≤ k)%Z
    then (history_rows (scrollback t) ++ (ScrollbackLine.from_grid_row <$> grid_rows (grid (active t))))
           !! Z.to_nat (k - main_stable_row_offset t) else None.
Proof. intros Hm. unfold stable_line, base, lines, alternate_screen_active. by rewrite Hm. Qed.

Lemma tracked_record t0 t t' : recorded t t' → tracked t0 t → tracked t0 t'.
Proof.
  intros [[M1 M2] Hn Hg Hok (count & d & Hc & Hd & Hh & Ho & Hr)] Ht.
  apply (tracked_step t0 t); try done.
  - by rewrite M2.
  - unfold alternate_screen_active. by rewrite M1, M2.
  - intros k l. rewrite !stable_line_main by done. rewrite Hh, Ho.
    case_bool_decide as Hk; [|done]. rewrite bool_decide_true by lia.
    set (rows := grid_rows (grid (active t))) in *. set (rows' := grid_rows (grid (active t'))) in *.
    set (A := history_rows (scrollback t) ++ (ScrollbackLine.from_grid_row <$> take count rows)).
    assert (length A = history_len t + count) as HA.
    { unfold A, history_len. rewrite length_app, length_fmap, length_take. lia. }
    rewrite <-drop_app_le by lia. rewrite lookup_drop.
    replace (d + Z.to_nat (k - (main_stable_row_offset t + Z.of_nat d)))
      with (Z.to_nat (k - main_stable_row_offset t)) by lia.
    set (j := Z.to_nat (k - main_stable_row_offset t)).
    destruct (decide (j < length A)) as [Hj|Hj].
    + rewrite lookup_app_l by done. left. rewrite <-(take_drop count rows), fmap_app, app_assoc.
      by rewrite lookup_app_l.
    + rewrite lookup_app_r, list_lookup_fmap by lia. intros Hl. apply fmap_Some in Hl as (r & Hl & ->).
      destruct (Hr _ _ Hl) as [Hr'|Hr']; [left|right; exact Hr'].
      rewrite lookup_app_r by (unfold history_len in HA; lia). rewrite list_lookup_fmap.
      replace (j - length (history_rows (scrollback t))) with (j - length A + count)
        by (unfold history_len in HA; lia).
      by rewrite Hr'.
Qed.

Lemma tracked_prune t0 n t t' : pruned n t t' → tracked t0 t → tracked t0 t'.
Proof.
  intros (u & rows & exits & m & -> & Hf) Ht.
  set (t1 := t{{ scrollback := mkHistoryBuffer (drop n (history_rows (scrollback t)));
    main_stable_row_offset := (main_stable_row_offset t + Z.of_nat (n `min` history_len t))%Z;
    semantic_prompt_rows := rows; semantic_command_exits := exits }}) in *.
  assert (tracked t0 t1) as H1.
  { apply (tracked_step t0 t); try done; [apply Ht|apply Ht|].
    intros k l. unfold stable_line, base, lines.
    change (alternate_screen_active t1) with (alternate_screen_active t).
    destruct (alternate_screen_active t); [by left|]. simpl. case_bool_decide; [|done].
    rewrite bool_decide_true by lia.
    assert (drop n (history_rows (scrollback t)) = drop (n `min` history_len t) (history_rows (scrollback t))) as ->.
    { destruct (decide (n ≤ history_len t)); [by rewrite Nat.min_l by done|].
      unfold history_len in *. by rewrite !drop_ge by lia. }
    rewrite <-drop_app_le by (unfold history_len; lia). rewrite lookup_drop. left.
    by replace (Z.to_nat (k - main_stable_row_offset t)) with
      (n `min` history_len t + Z.to_nat (k - (main_stable_row_offset t + Z.of_nat (n `min` history_len t)))) by lia. }
  apply (tracked_gfx t0 t1 u Hf) in H1. destruct H1 as [T1 T2 T3 T4 T5]. by split.
Qed.

#[export] Instance tracked_quiet t0 : Quiet (tracked t0).
Proof.
  split.
  - intros t Ht. apply Ht.
  - apply tracked_gfx.
  - apply tracked_active.
  - intros t t' H1 H2 H3 H4 H5 H6 Ht.
    assert (alternate_screen_active t' = alternate_screen_active t) as Ha
      by (unfold alternate_screen_active; by rewrite H2).
    apply (tracked_step t0 t); try done.
    + rewrite H1. apply Ht.
    + rewrite H2. apply Ht.
    + intros k l Hl. left. rewrite <-(stable_line_same k t t'); try done. by rewrite H1.
Qed.

#[export] Instance tracked_effects t0 : Effects (tracked t0).
Proof.
  split.
  - intros t s Ht. apply Ht.
  - apply tracked_record.
  - apply tracked_prune.
  - intros t t' H1 H2 H3 H4 [T1 T2 T3 T4 T5]. split; try done; [lia|congruence|lia].
Qed.

Lemma tracked_refl t :
  grid_ok (grid (active t)) → (∀ s, main_screen t = Some s → grid_ok (grid s)) → tracked t t.
Proof. intros H1 H2. split; try done. split; [done|]. by left. Qed.

(** ** Whole inputs *)

(** One [feed]: the sequence number moves on, then the bytes are run. *)
Lemma feed_steps bytes f f' :
  feed bytes f = Ok () f' →
  feed_at_current_seqno bytes (with_screen ((screen f){{ seqno := (seqno (screen f) + 1)%Z }}) f) = Ok () f'.
Proof.
  unfold feed, on_screen, zoom, advance_seqno, checked_add. monad. by case_bool_decide.
Qed.

Lemma feed_effects (I : Terminal → Prop) `{!Quiet I} `{!Effects I} bytes f f' :
  feed bytes f = Ok () f' → I ((screen f){{ seqno := (seqno (screen f) + 1)%Z }}) → I (screen f').
Proof.
  intros Hf%feed_steps Hi.
  pose proof (behind_feed I bytes (with_screen ((screen f){{ seqno := (seqno (screen f) + 1)%Z }}) f) Hi) as H.
  by rewrite Hf in H.
Qed.

Lemma feed_tracked size bytes f f' :
  inv true size (screen f) → feed bytes f = Ok () f' →
  tracked ((screen f){{ seqno := (seqno (screen f) + 1)%Z }}) (screen f').
Proof.
  intros Hi Hf. apply (feed_effects (tracked _) bytes f f' Hf). apply tracked_refl; simpl.
  - apply Hi.
  - intros s Hs. by apply (inv_dormant _ _ _ Hi).
Qed.

(** Membership in the report. *)
Lemma changed_elem range since t ks k l :
  grid_ok (grid (active t)) → changed_stable_rows_since range since t = Some ks →
  (range.1 ≤ k < range.2)%Z → stable_line k t = Some l → (since < line_sequence l)%Z → k ∈ ks.
Proof.
  intros Hok Hks Hk Hl Hs. unfold changed_stable_rows_since in Hks.
  destruct (range.2 <=? range.1)%Z eqn:He; [lia|].
  apply bind_Some in Hks as (retained & Hret & Hks). apply bind_Some in Hks as (d & Hd & Hks).
  unfold retained_stable_range in Hret. rewrite Hd in Hret. simpl in Hret.
  case_bool_decide; [|done]. apply bind_Some in Hret as (finish & Hfin & [= <-]).
  unfold checked_add in Hfin. case_bool_decide; [|done]. injection Hfin as <-. simpl in Hks.
  destruct (stable_dimensions_spec t d Hd) as (Htop & _). pose proof (lines_length t d Hok Hd) as Hlen.
  unfold stable_line in Hl. case_bool_decide as Hb; [|done].
  pose proof (lookup_lt_Some _ _ _ Hl) as Hlt. rewrite Htop in *.
  assert (retained_index d k = Some (Z.to_nat (k - base t))) as Hi.
  { unfold retained_index. rewrite Htop, bool_decide_true by lia. done. }
  case_match eqn:Hz; [lia|]. injection Hks as <-. apply list_elem_of_filter. split.
  - unfold row_changed. rewrite Hi. destruct (lines_lookup t (Z.to_nat (k - base t)) Hok) as (l' & Hl' & _ & _ & ->); [lia|].
    rewrite Hl in Hl'. injection Hl' as <-. apply orb_true_iff. right. by apply Z.ltb_lt.
  - apply elem_of_seqZ. lia.
Qed.

(** C7. A client that redraws only the rows reported by
    [changed_stable_rows_since] is always up to date: after feeding any
    bytes, as long as the screen kept its identity (no switch of screen, reset
    or full erase), a retained row of the requested range that is not reported
    shows, under the same stable number, exactly the cells and the wrap mark
    it showed before, wherever scrolling, pruning and editing have moved it. *)
Theorem unreported_rows_unchanged size bytes f f' range ks k :
  inv true size (screen f) → feed bytes f = Ok () f' →
  screen_identity_generation (screen f') = screen_identity_generation (screen f) →
  is_Some (stable_dimensions (screen f)) →
  changed_stable_rows_since range (seqno (screen f)) (screen f') = Some ks →
  (range.1 ≤ k < range.2)%Z → k ∉ ks → is_Some (stable_row_view k (screen f')) →
  stable_row_view k (screen f') = stable_row_view k (screen f).
Proof.
  intros Hi Hf Hg [d Hd] Hks Hk Hn Hview. pose proof (feed_tracked size bytes f f' Hi Hf) as [T1 T2 T3 T4 T5].
  destruct (T5 Hg) as [_ Hl]. simpl in T4.
  assert (is_Some (stable_dimensions (screen f'))) as [d' Hd'].
  { destruct Hview as [v Hv]. unfold stable_row_view in Hv. apply bind_Some in Hv as (d' & -> & _). by eexists. }
  rewrite (view_line (screen f') d' k T1 Hd') in Hview |- *.
  rewrite (view_line (screen f) d k (ok_grid _ (inv_active _ _ _ Hi)) Hd).
  destruct (stable_line k (screen f')) as [l|] eqn:Hline; [|by destruct Hview].
  destruct (Hl k l Hline) as [Hsame|Hseq]; [by change (stable_line k (screen f)) with
    (stable_line k ((screen f){{ seqno := (seqno (screen f) + 1)%Z }})); rewrite Hsame|].
  exfalso. apply Hn. eapply changed_elem; try done. simpl in Hseq. lia.
Qed.

(** ** The alternate screen *)

(** While it is shown, the main screen sleeps: only its images may change,
    and its scrollback only loses its oldest lines. *)
Record isolated t0 t : Prop := {
  is_ok : grid_ok (grid (active t));
  is_dormant : ∀ s, main_screen t = Some s → grid_ok (grid s);
  is_generation : (screen_identity_generation t0 ≤ screen_identity_generation t)%Z;
  is_asleep : screen_identity_generation t = screen_identity_generation t0 →
    (λ s, s{{ graphics := no_images }}) <$> main_screen t =
      (λ s, s{{ graphics := no_images }}) <$> main_screen t0 ∧
    ∃ n, n ≤ history_len t0 ∧ history_rows (scrollback t) = drop n (history_rows (scrollback t0)) ∧
      main_stable_row_offset t = (main_stable_row_offset t0 + Z.of_nat n)%Z;
}.

Lemma isolated_step t0 t t' :
  grid_ok (grid (active t')) → (∀ s, main_screen t' = Some s → grid_ok (grid s)) →
  screen_identity_generation t' = screen_identity_generation t →
  (λ s, s{{ graphics := no_images }}) <$> main_screen t' = (λ s, s{{ graphics := no_images }}) <$> main_screen t →
  history_rows (scrollback t') = history_rows (scrollback t) →
  main_stable_row_offset t' = main_stable_row_offset t →
  isolated t0 t → isolated t0 t'.
Proof.
  intros H1 H2 H3 H4 H5 H6 [T1 T2 T3 T4]. split; try done; [by rewrite H3|].
  rewrite H3, H4, H5, H6. done.
Qed.

#[export] Instance isolated_quiet t0 : Quiet (isolated t0).
Proof.
  split.
  - intros t Ht. apply Ht.
  - intros t t' Hf Ht. destruct (gfx_frame_rest _ _ Hf) as (_ & F2 & _ & F4 & _ & F6).
    pose proof (gfx_frame_dormant _ _ Hf (is_dormant _ _ Ht)) as Hd. destruct Hf as [_ G2 G3].
    apply (isolated_step t0 t); try done; [rewrite G2; apply Ht|by rewrite F2].
  - intros t t' -> [[_ Hsh] _] Ht. apply (isolated_step t0 t); try done; [apply Hsh, Ht|apply Ht].
  - intros t t' H1 H2 H3 H4 H5 H6 Ht. apply (isolated_step t0 t); try done.
    + rewrite H1. apply Ht.
    + rewrite H2. apply Ht.
    + by rewrite H2.
    + by rewrite H3.
Qed.

Lemma isolated_effects t0 : is_Some (main_screen t0) → Effects (isolated t0).
Proof.
  intros Hm0. split.
  - intros t s Ht. apply Ht.
  - intros t t' [[M1 M2] _ Hg Hok _] [T1 T2 T3 T4]. split; try done; [by rewrite M2|by rewrite Hg|].
    rewrite Hg. intros Hgen. destruct (T4 Hgen) as [Hm _]. rewrite M1 in Hm.
    destruct Hm0 as [s0 Hm0]. by rewrite Hm0 in Hm.
  - intros n t t' Hp [T1 T2 T3 T4].
    pose proof (pruned_spec n t t' Hp) as (P1 & _ & P3 & _ & P5 & P6).
    destruct Hp as (u & rows & exits & m & -> & Hf).
    pose proof (gfx_frame_dormant _ _ Hf T2) as Hd. destruct Hf as [_ _ G3].
    split; try done; [by rewrite P1|by rewrite P3|]. rewrite P3. intros Hgen.
    destruct (T4 Hgen) as (Hm & n0 & Hn0 & Hh & Ho). split; [by rewrite <-Hm|].
    exists (n0 + n `min` history_len t). rewrite P5, P6, Hh, Ho, drop_drop.
    unfold history_len in *. rewrite Hh, length_drop. split_and!; [lia| |lia].
    destruct (decide (n ≤ length (history_rows (scrollback t0)) - n0)).
    + by rewrite Nat.min_l by done.
    + rewrite !drop_ge by lia. done.
  - intros t t' H1 H2 H3 H4 [T1 T2 T3 T4]. split; try done; [lia|lia].
Qed.

Definition plain (s : ScreenState) : ScreenState := s{{ graphics := no_images }}.

Lemma enter_alternate_spec t t1 :
  main_screen t = None → grid_ok (grid (active t)) → set_alternate_screen true t = Ok () t1 →
  plain <$> main_screen t1 = Some (plain (active t)) ∧ scrollback t1 = scrollback t ∧
  main_stable_row_offset t1 = main_stable_row_offset t ∧ isolated t1 t1.
Proof.
  intros Hm Hok. unfold set_alternate_screen. unfold get_state, mbind at 1, M_bind at 1. rewrite Hm.
  unfold bump_screen_identity_generation, checked_add. monad. case_bool_decide; [|done].
  match goal with |- context [call ClearPlaceholders (call ClearInlineImages ?x)] => set (u := x) end.
  assert (gfx_frame u (call ClearPlaceholders (call ClearInlineImages u))) as Hf
    by (etrans; apply call_frame).
  revert Hf. generalize (call ClearPlaceholders (call ClearInlineImages u)). intros v Hf [= <-].
  match goal with |- context [damage_screen ?x] => set (w := x);
    pose proof (damage_screen_frame w) as Hd; revert Hd; generalize (damage_screen w) end.
  intros x Hd. destruct (gfx_frame_rest _ _ Hf) as (_ & F2 & _ & F4 & _).
  destruct (gfx_frame_rest _ _ Hd) as (_ & D2 & _ & D4 & _).
  assert (plain <$> main_screen x = Some (plain (active t))) as Hx.
  { etrans; [exact (gf_dormant _ _ Hd)|]. exact (gf_dormant _ _ Hf). }
  split_and!; [exact Hx|by rewrite D2|by rewrite D4|]. split; try done.
  - destruct Hd as [_ -> _]. simpl. destruct Hf as [_ -> _]. apply new_with_seqno_ok.
  - intros s Hs. rewrite Hs in Hx. simpl in Hx. injection Hx as Hg. by rewrite Hg.
  - split; [done|]. exists 0. split_and!; [lia|done|by rewrite Z.add_0_r].
Qed.

Lemma on_active_fields (c : ScreenState → ScreenState) t s :
  let u := on_active c (t{{ active := s }}) in
  active u = c s ∧ main_screen u = main_screen t ∧ scrollback u = scrollback t ∧
  main_stable_row_offset u = main_stable_row_offset t.
Proof. done. Qed.

Lemma leave_run t main :
  main_screen t = Some main →
  set_alternate_screen false t =
    match checked_add usize_max (screen_identity_generation t) 1 with
    | Some n => Ok () (damage_screen (call DeleteOrphanRelativeChildren
                  (restore_screen_state main (t{{ main_screen := None; screen_identity_generation := n }}))))
    | None => Panic
    end.
Proof.
  intros Hm. unfold set_alternate_screen. unfold get_state, mbind at 1, M_bind at 1. rewrite Hm.
  unfold bump_screen_identity_generation. unfold mbind, M_bind, modify, get_state, expect, put_state.
  change (screen_identity_generation (t{{ main_screen := None }})) with (screen_identity_generation t).
  by destruct (checked_add usize_max (screen_identity_generation t) 1).
Qed.

Lemma leave_alternate_spec t t3 main :
  main_screen t = Some main → set_alternate_screen false t = Ok () t3 →
  main_screen t3 = None ∧ plain (active t3) = plain (Screen.clamp_to_size main) ∧
  scrollback t3 = scrollback t ∧ main_stable_row_offset t3 = main_stable_row_offset t.
Proof.
  intros Hm. rewrite (leave_run t main Hm). destruct (checked_add _ _ _) as [n|]; [|done].
  destruct (on_active_fields Screen.clamp_to_size (t{{ main_screen := None; screen_identity_generation := n }}) main)
    as (U1 & U2 & U3 & U4). unfold restore_screen_state.
  set (u := on_active _ _) in *. clearbody u.
  assert (gfx_frame u (damage_screen (call DeleteOrphanRelativeChildren u))) as Hf
    by (etrans; [apply call_frame|apply damage_screen_frame]).
  revert Hf. generalize (damage_screen (call DeleteOrphanRelativeChildren u)). intros v Hf [= <-].
  destruct (gfx_frame_rest _ _ Hf) as (_ & F2 & _ & F4 & _).
  split_and!; [by apply (gfx_frame_main u)| |by rewrite F2|by rewrite F4].
  destruct Hf as [_ Hv _]. rewrite U1 in Hv. revert Hv.
  generalize (Screen.clamp_to_size main). intros c Hv. by rewrite Hv.
Qed.

(** Clamping changes nothing on a well-formed screen with real margins. *)
Lemma clamp_id_screen s :
  screen_ok s → scroll_top s < scroll_bottom s → left_margin s < right_margin s → Screen.clamp_to_size s = s.
Proof.
  intros [H1 H2 [Hr Hc] Hv Hh] Ht Hl. destruct s.
  unfold Screen.clamp_to_size, clamp_axis, Screen.columns, Screen.rows, Screen.size in *. cbn in *.
  rewrite !Nat.min_l by lia. rewrite (decide_False (P := scroll_bottom ≤ scroll_top)) by lia. cbn.
  rewrite (decide_False (P := right_margin ≤ left_margin)) by lia. cbn.
  by rewrite decide_False by lia.
Qed.

Lemma clamp_plain s : plain (Screen.clamp_to_size s) = Screen.clamp_to_size (plain s).
Proof.
  destruct s. unfold Screen.clamp_to_size, plain, Screen.rows, Screen.columns, Screen.size. cbn.
  repeat match goal with |- context [@decide ?P ?d] =>
    lazymatch P with context [if _ then _ else _] => fail | _ => destruct (@decide P d); cbn end end;
  reflexivity.
Qed.

(** C11. A full-screen program cannot damage the main screen: enter the
    alternate screen, feed any bytes that keep the identity of the screen (no
    leaving it, reset or full erase), and leave it. A main screen whose margins
    enclose more than one row and column is then what it was, images aside:
    cells, cursor, saved cursor, modes, margins and colours; and its scrollback
    has kept its lines under their stable numbers, less some of the oldest
    ones, which CSI 3 J erases. *)
Theorem alternate_screen_round_trip size bytes f f1 f2 f3 :
  inv true size (screen f) → main_screen (screen f) = None →
  scroll_top (active (screen f)) < scroll_bottom (active (screen f)) →
  left_margin (active (screen f)) < right_margin (active (screen f)) →
  on_screen (set_alternate_screen true) f = Ok () f1 →
  feed bytes f1 = Ok () f2 →
  screen_identity_generation (screen f2) = screen_identity_generation (screen f1) →
  on_screen (set_alternate_screen false) f2 = Ok () f3 →
  main_screen (screen f3) = None ∧ plain (active (screen f3)) = plain (active (screen f)) ∧
  ∃ n, n ≤ history_len (screen f) ∧
    history_rows (scrollback (screen f3)) = drop n (history_rows (scrollback (screen f))) ∧
    main_stable_row_offset (screen f3) = (main_stable_row_offset (screen f) + Z.of_nat n)%Z.
Proof.
  intros Hi Hm Hv Hh He Hf Hg Hl. unfold on_screen, zoom in He, Hl.
  destruct (set_alternate_screen true (screen f)) as [[] t1| |] eqn:Hen; try done. injection He as <-.
  destruct (set_alternate_screen false (screen f2)) as [[] t3| |] eqn:Hle; try done. injection Hl as <-.
  simpl in *. pose proof (inv_active _ _ _ Hi) as Hok.
  destruct (enter_alternate_spec _ _ Hm (ok_grid _ Hok) Hen) as (E1 & E2 & E3 & E4).
  assert (is_Some (main_screen t1)) as Hm1 by (by destruct (main_screen t1)).
  pose proof (isolated_effects t1 Hm1) as Heff.
  assert (isolated t1 (screen f2)) as Hiso.
  { apply (feed_effects (isolated t1) bytes _ f2 Hf). simpl.
    destruct E4 as [S1 S2 S3 S4]. by split. }
  destruct (is_asleep _ _ Hiso Hg) as (A1 & n & A2 & A3 & A4).
  change (plain <$> main_screen (screen f2) = plain <$> main_screen t1) in A1. rewrite E1 in A1.
  destruct (main_screen (screen f2)) as [main|] eqn:Hmain; [|done]. apply Some_inj in A1.
  destruct (leave_alternate_spec _ _ main Hmain Hle) as (L1 & L2 & L3 & L4).
  split_and!; [done| |].
  - rewrite L2, clamp_plain, A1, <-clamp_plain.
    by rewrite clamp_id_screen.
  - exists n. rewrite L3, L4, A3, A4, E2, E3. unfold history_len in *. rewrite E2 in A2. done.
Qed.
End stable.
