(* ===== verification/Printing.v ===== *)
(** Printing always returns. Writing a character or a line feed panics only
    when the counter of stable rows is exhausted, and moves it by at most two
    rows; so plain text of any length is printed while the counter has room
    for it, and the terminal is well formed afterwards. *)
From coqutil Require Import Datatypes.RecordSetters.
From S2P Require Import Prelude Text Grid GridFacts Csi Reflow Utf8 Feed Screen Scroll Edit Control.
From S2P Require Import ScreenFacts TerminalInv TerminalKeeps ControlKeeps Tracking Effects.
Import DoubleBraceUpdate.

Section printing.
  Context `{Ext : External} `{Gfx : Graphics}.
  Abbreviation TM := (M Empty_set Terminal).
  Implicit Types (t : Terminal) (size : TerminalSize).

(** The stable number of the first row of the screen. *)
Definition stable_top t : Z := (main_stable_row_offset t + Z.of_nat (history_len t))%Z.

(** [m] returns, keeps the invariant, and moves [stable_top] by at most [n]. *)
Definition runs size (n : Z) (m : TM ()) : Prop :=
  ∀ t, inv true size t → (0 ≤ main_stable_row_offset t)%Z → (stable_top t + n ≤ isize_max)%Z →
  ∃ t', m t = Ok () t' ∧ inv true size t' ∧ (0 ≤ main_stable_row_offset t')%Z ∧
    (stable_top t ≤ stable_top t' ≤ stable_top t + n)%Z.

Lemma runs_weaken size n k m : (n ≤ k)%Z → runs size n m → runs size k m.
Proof.
  intros Hle Hm t Hi Ho Hr. destruct (Hm t Hi Ho ltac:(lia)) as (t' & ? & ? & ? & ?).
  exists t'. split_and!; try done; lia.
Qed.

Lemma runs_ret size : runs size 0 (mret ()).
Proof. intros t Hi Ho Hr. exists t. split_and!; try done; lia. Qed.

Lemma runs_seq size n k (m m' : TM ()) :
  (0 ≤ k)%Z → runs size n m → runs size k m' → runs size (n + k) (m;; m').
Proof.
  intros Hk Hm Hm' t Hi Ho Hr. destruct (Hm t Hi Ho ltac:(lia)) as (t1 & E1 & I1 & O1 & S1).
  destruct (Hm' t1 I1 O1 ltac:(lia)) as (t2 & E2 & I2 & O2 & S2).
  exists t2. split_and!; try done; [|lia|lia]. unfold mbind, M_bind. by rewrite E1.
Qed.

Lemma runs_get size n (k : Terminal → TM ()) :
  (∀ t, inv true size t → runs size n (k t)) → runs size n (get_state ≫= k).
Proof. intros Hk t Hi. by apply (Hk t Hi t Hi). Qed.

(** The history and its offset are as given. *)
Definition settled (h : HistoryBuffer ScrollbackLine) (o : Z) t : Prop :=
  grid_ok (grid (active t)) ∧ scrollback t = h ∧ main_stable_row_offset t = o.

#[export] Instance settled_quiet h o : Quiet (settled h o).
Proof.
  split.
  - by intros t [Hok _].
  - intros t t' Hf (Hok & Hs & Ho). destruct (gfx_frame_rest _ _ Hf) as (_ & F2 & _ & F4 & _).
    destruct Hf as [_ G2 _]. split_and!; [by rewrite G2|by rewrite F2|by rewrite F4].
  - intros t t' -> [[_ Hsh] _] (Hok & Hs & Ho). split_and!; [by apply Hsh|done|done].
  - intros t t' H1 _ H3 H4 _ _ (Hok & Hs & Ho). split_and!; [by rewrite H1|by rewrite H3|by rewrite H4].
Qed.

Lemma runs_state size t t' :
  inv true size t' → (∀ h o, settled h o t → settled h o t') → inv true size t →
  (0 ≤ main_stable_row_offset t)%Z →
  inv true size t' ∧ (0 ≤ main_stable_row_offset t')%Z ∧ stable_top t' = stable_top t.
Proof.
  intros Hi' Hf Hi Ho. destruct (Hf (scrollback t) (main_stable_row_offset t)) as (_ & H2 & H3).
  { split_and!; try done. apply Hi. }
  unfold stable_top, history_len. by rewrite H2, H3.
Qed.

Lemma runs_modify size f :
  (∀ t, inv true size t → inv true size (f t)) → (∀ h o t, settled h o t → settled h o (f t)) →
  runs size 0 (modify f).
Proof.
  intros Hf Hs t Hi Ho Hr. destruct (runs_state size t (f t)) as (I1 & O1 & S1); auto.
  exists (f t). split_and!; try done; lia.
Qed.

(** ** Line feeds *)

(** Trimming fails only when the rows cannot be numbered. *)
Lemma trim_total t :
  (0 ≤ main_stable_row_offset t)%Z → (stable_top t ≤ isize_max)%Z →
  ∃ t', trim_scrollback_to_limit t = Ok () t' ∧ (0 ≤ main_stable_row_offset t')%Z ∧ stable_top t' = stable_top t.
Proof.
  intros Ho Hr. unfold stable_top in *.
  pose proof (trim_rule (λ _, True) t ltac:(done) ltac:(done) I) as Hp. pose proof (trim_spec t) as Hs.
  destruct (trim_scrollback_to_limit t) as [[] t'| |]; [|done|exfalso; lia].
  destruct Hs as (_ & _ & _ & _ & n & Hn & Hh & Hoff). exists t'. unfold history_len in *.
  rewrite Hh, Hoff, length_drop. split_and!; [done|lia|lia].
Qed.

Lemma exiting_count top bottom count blank n g :
  length (TerminalGrid.rotate_up_rows top bottom count blank n g).1 ≤ count.
Proof.
  unfold TerminalGrid.rotate_up_rows. destruct (TerminalGrid.row_region top bottom g) as [rows|]; [|simpl; lia].
  case_bool_decide; [simpl; lia|]. simpl. rewrite length_drop, length_rotate_left. lia.
Qed.

(** What a region scroll does before it touches the grid. *)
Lemma scroll_prelude size top bottom count (records : bool) start t :
  inv true size t →
  let t1 := if records then
              shift_suffix_metadata_for_recorded_rows start count
                (if decide (bottom + 1 < size_rows size) then call (DropImagesCrossing start) t else t)
            else call (ScrollPlaceholdersUp top bottom count) (call (ScrollImagesUp top bottom count) t) in
  inv true size t1 ∧ ∀ h o, settled h o t → settled h o t1.
Proof.
  intros Hi. destruct records; cbv zeta iota.
  - split; [apply shift_suffix_inv; case_decide; [by apply call_inv|done]|].
    intros h o Hs. unfold shift_suffix_metadata_for_recorded_rows.
    assert (settled h o (if decide (bottom + 1 < size_rows size)
                         then call (DropImagesCrossing start) t else t)) as Hu.
    { destruct (decide (bottom + 1 < size_rows size)); [by apply (e_call (settled h o))|done]. }
    revert Hu. generalize (if decide (bottom + 1 < size_rows size)
                           then call (DropImagesCrossing start) t else t). intros u Hu.
    case_decide; [done|]. apply (e_call (settled h o)). by eapply eff_rest, Hu.
  - split; [by apply call_inv, call_inv|]. intros h o Hs. by apply (e_call (settled h o)), (e_call (settled h o)).
Qed.

Lemma scroll_up_region_runs size top bottom count :
  runs size (Z.of_nat count) (scroll_up_region_by top bottom count).
Proof.
  intros t Hi Ho Hr.
  assert (∃ t', scroll_up_region_by top bottom count t = Ok () t' ∧ (0 ≤ main_stable_row_offset t')%Z ∧
    (stable_top t ≤ stable_top t' ≤ stable_top t + Z.of_nat count)%Z) as (t' & E & O & S).
  2: { exists t'. split_and!; try done; try lia.
       pose proof (scroll_up_region_keeps size top bottom count t Hi) as H. by rewrite E in H. }
  unfold scroll_up_region_by. unfold get_state, mbind at 1, M_bind at 1.
  case_decide; [exists t; split_and!; [done|done|lia|lia]|].
  assert (screen_size t = size) as Hsize by apply Hi. rewrite Hsize.
  set (k := count `min` (bottom - top + 1)).
  destruct (scroll_prelude size top bottom k (should_record_scrollback_for_scroll top bottom t)
    (history_len t + bottom + 1) t Hi) as [I1 S1]. cbv zeta.
  match type of I1 with inv true size ?u => set (t1 := u) in * end.
  destruct (runs_state size t t1 I1 S1 Hi Ho) as (_ & O1 & T1).
  clearbody t1. clear S1. destruct (should_record_scrollback_for_scroll top bottom t).
  - pose proof (exiting_count top bottom k (Screen.blank_cell (active t1)) (seqno t1) (grid (active t1))) as Hx.
    unfold TerminalGrid.scroll_up_rows. destruct (TerminalGrid.rotate_up_rows _ _ _ _ _ _) as [exiting g].
    simpl in Hx. monad.
    match goal with |- context [trim_scrollback_to_limit ?u] => set (t2 := u) end.
    assert (stable_top t2 = stable_top t1 + Z.of_nat (length exiting))%Z as T2.
    { unfold stable_top, history_len, t2. simpl. rewrite push_all, length_app, length_fmap. lia. }
    destruct (trim_total t2) as (t3 & -> & O3 & T3); [done|lia|].
    eexists. split; [reflexivity|].
    assert (∀ l d, scrollback (record_damage d (touch_rows l t3)) = scrollback t3 ∧
      main_stable_row_offset (record_damage d (touch_rows l t3)) = main_stable_row_offset t3) as Hsame.
    { intros l d. rewrite touch_rows_eq. unfold record_damage. by case_match. }
    destruct (Hsame (seq (bottom + 1) (size_rows size - (bottom + 1)))
      (mkDamage 0 top (size_columns size) (bottom - top + 1))) as [Hs1 Hs2].
    unfold stable_top, history_len in *. rewrite Hs1, Hs2. lia.
  - monad. eexists. split; [reflexivity|].
    assert (∀ l d g, scrollback (record_damage d (touch_rows l (t1{{ active -> grid := g }}))) = scrollback t1 ∧
      main_stable_row_offset (record_damage d (touch_rows l (t1{{ active -> grid := g }})))
        = main_stable_row_offset t1) as Hsame.
    { intros l d g. rewrite touch_rows_eq. unfold record_damage. by case_match. }
    match goal with |- context [record_damage ?d (touch_rows ?l (t1{{ active -> grid := ?g }}))] =>
      destruct (Hsame l d g) as [Hs1 Hs2] end.
    unfold stable_top, history_len in *. rewrite Hs1, Hs2. lia.
Qed.

Lemma scroll_up_margins_runs size top bottom count :
  runs size (Z.of_nat count) (scroll_up_with_horizontal_margins top bottom count).
Proof.
  apply runs_get. intros t Hi. cbv zeta. case_decide as Hd; [apply (runs_weaken size 0); [lia|apply runs_ret]|].
  set (k := count `min` (bottom - top + 1)).
  destruct (Screen.bounded_horizontal_scroll_columns (active t)) as [[first last]|].
  - apply (runs_weaken size 0); [lia|]. apply runs_modify.
    + intros u. apply scroll_frame_inv, bounded_scroll_frame, bounded_up_frame.
    + intros h o u Hu. apply (e_bounded_scroll (settled h o)); [|done]. intros v Hv.
      apply (e_bounded_up (settled h o)); [lia|unfold k; lia|done].
  - apply (runs_weaken size (Z.of_nat k)); [lia|apply scroll_up_region_runs].
Qed.

Lemma index_down_runs size w : runs size 1 (index_down w).
Proof.
  apply (runs_seq size 0 1); [lia| |].
  { apply runs_modify; [intros; by apply no_wrap_inv|]. intros h o t. apply (e_no_wrap (settled h o)). }
  apply runs_get. intros t Hi. destruct (inv_screen _ _ _ Hi) as ([_ _ [Hc _] _ _] & Hr & _). rewrite Hr in Hc.
  cbv zeta. case_decide; [apply (runs_weaken size 0); [lia|apply runs_ret]|].
  assert (∀ row, row ≤ size_rows size - 1 → runs size 0 (modify (move_to_row row w))) as Hmove.
  { intros row Hrow. apply runs_modify; [intros; by apply move_to_row_inv|].
    intros h o u. apply (e_move_to_row (settled h o)). }
  case_decide.
  - apply (runs_seq size 1 0); [lia|apply (scroll_up_margins_runs size _ _ 1)|]. apply Hmove. rewrite Hr. lia.
  - apply (runs_weaken size 0); [lia|]. apply Hmove. rewrite Hr. case_decide; lia.
Qed.

Lemma index_down_outside_runs size w : runs size 0 (modify (index_down_outside_horizontal_margins w)).
Proof.
  apply runs_modify; [intros; by apply index_down_outside_inv|].
  intros h o t. apply (e_index_down_outside (settled h o)).
Qed.

Lemma carriage_return_runs size : runs size 0 (modify (on_active Screen.carriage_return)).
Proof.
  apply runs_modify; [intros t; apply carriage_return_inv|].
  intros h o t. apply (e_carriage_return (settled h o)).
Qed.

Lemma line_feed_runs size : runs size 1 line_feed.
Proof.
  apply runs_get. intros t Hi. case_match; [apply index_down_runs|].
  apply (runs_weaken size 0); [lia|apply index_down_outside_runs].
Qed.

Lemma wrapped_newline_runs size : runs size 1 wrapped_newline.
Proof.
  apply runs_get. intros t Hi. case_match.
  - apply (runs_weaken size 0); [lia|]. apply runs_modify.
    + intros u Hu. apply index_down_outside_inv. revert Hu. apply active_inv; [done| |done]. solve_ok.
    + intros h o u Hu. apply (e_index_down_outside (settled h o)). by eapply (e_same (settled h o)), Hu.
  - apply (runs_seq size 0 1); [lia|apply carriage_return_runs|apply index_down_runs].
Qed.

(** ** Characters *)

(** The part of [write_char] after the character was found to need a cell. *)
Lemma place_runs size ch width (first_wrap : bool) :
  runs size 2 (
    (if first_wrap then wrapped_newline else modify (λ t, t{{ active -> pending_wrap := false }}));;
    t ← get_state;
    (if bool_decide (Screen.columns (active t) < sat_add (cursor_column (active t)) width)
        && auto_wrap (modes (active t)) then wrapped_newline else mret ());;
    t ← get_state;
    let s := active t in
    if decide (Screen.rows s ≤ cursor_row s ∨ Screen.columns s ≤ cursor_column s ∨
               Screen.columns s = 0) then mret ()
    else
      let write_width := width `min` (Screen.columns s - cursor_column s) in
      modify (λ t,
        let t := match write_mode (modes (active t)) with
                 | InsertMode => insert_blank_characters_for_write write_width t
                 | ReplaceMode => t
                 end in
        put_character ch width write_width t)).
Proof.
  apply (runs_seq size 1 1); [lia| |].
  { destruct first_wrap; [apply wrapped_newline_runs|]. apply (runs_weaken size 0); [lia|].
    apply runs_modify; [intros; by apply no_wrap_inv|]. intros h o t. apply (e_no_wrap (settled h o)). }
  apply runs_get. intros t _. apply (runs_seq size 1 0); [lia| |].
  { case_match; [apply wrapped_newline_runs|]. apply (runs_weaken size 0); [lia|apply runs_ret]. }
  apply runs_get. intros u _. cbv zeta. case_decide; [apply runs_ret|]. apply runs_modify.
  - intros v Hv. apply put_character_inv. case_match; [done|by apply insert_for_write_inv].
  - intros h o v Hv. apply (e_put_character (settled h o)).
    case_match; [done|by apply (e_insert_for_write (settled h o))].
Qed.

Lemma write_char_runs size ch : runs size 2 (write_char ch).
Proof.
  intros t Hi Ho Hr. unfold write_char. unfold get_state, mbind at 1, M_bind at 1. cbv zeta.
  set (c := map_graphic_character ch (active t)).
  case_match; [exists t; split_and!; try done; lia|].
  pose proof (flag_inv true size (ApplyPlaceholderDiacritic c) t Hi) as I1.
  pose proof (λ h o, e_flag (settled h o) (ApplyPlaceholderDiacritic c) t) as S1.
  destruct (call_flag (ApplyPlaceholderDiacritic c) t) as [d t1].
  destruct (runs_state size t t1 I1 S1 Hi Ho) as (_ & O1 & T1).
  destruct d; [exists t1; split_and!; try done; lia|].
  pose proof (extend_inv true size c t1 I1) as I2.
  pose proof (λ h o, e_extend (settled h o) c t1) as S2.
  destruct (extend_previous_grapheme c t1) as [e t2].
  destruct (runs_state size t1 t2 I2 S2 I1 O1) as (_ & O2 & T2).
  destruct e; [exists t2; split_and!; try done; lia|].
  pose proof (call_inv true size FinishPendingPlaceholder t2 I2) as I3.
  pose proof (λ h o, e_call (settled h o) FinishPendingPlaceholder t2) as S3.
  destruct (runs_state size t2 _ I3 S3 I2 O2) as (_ & O3 & T3).
  revert I3 S3 O3 T3. generalize (call FinishPendingPlaceholder t2). intros t3 I3 S3 O3 T3.
  case_decide; [exists t3; split_and!; try done; lia|].
  destruct (place_runs size c (width_of c t3 `min` 255)
    (pending_wrap (active t3) && auto_wrap (modes (active t3))) t3 I3 O3 ltac:(lia)) as (t4 & E4 & I4 & O4 & T4).
  exists t4. split_and!; [exact E4|done|done|lia|lia].
Qed.

(** ** Plain text *)

(** The same for the feeder, which only passes the screen on. *)
Definition feeds size (n : Z) {A} (m : M Empty_set (Feeder Terminal) A) : Prop :=
  ∀ f, inv true size (screen f) → (0 ≤ main_stable_row_offset (screen f))%Z →
  (stable_top (screen f) + n ≤ isize_max)%Z →
  ∃ a f', m f = Ok a f' ∧ inv true size (screen f') ∧ (0 ≤ main_stable_row_offset (screen f'))%Z ∧
    (stable_top (screen f') ≤ stable_top (screen f) + n)%Z.

Lemma feeds_on size n (m : TM ()) : runs size n m → feeds size n (on_screen m).
Proof.
  intros Hm f Hi Ho Hr. destruct (Hm (screen f) Hi Ho Hr) as (t' & E & I' & O' & S').
  exists (), (with_screen t' f). split_and!; try done; [|simpl; lia]. unfold on_screen, zoom. by rewrite E.
Qed.

Lemma feeds_bind size n k {A B} (m : M Empty_set (Feeder Terminal) A) (q : A → M Empty_set (Feeder Terminal) B) :
  (0 ≤ n)%Z → (0 ≤ k)%Z → feeds size n m → (∀ a, feeds size k (q a)) → feeds size (n + k) (m ≫= q).
Proof.
  intros Hn Hk Hm Hq f Hi Ho Hr. destruct (Hm f Hi Ho ltac:(lia)) as (a & f1 & E1 & I1 & O1 & S1).
  destruct (Hq a f1 I1 O1 ltac:(lia)) as (b & f2 & E2 & I2 & O2 & S2).
  exists b, f2. split_and!; try done; [|lia]. unfold mbind, M_bind. by rewrite E1.
Qed.

Lemma feeds_ret size {A} (a : A) : feeds size 0 (mret a).
Proof. intros f Hi Ho Hr. exists a, f. split_and!; try done. lia. Qed.

Lemma feeds_weaken size n k {A} (m : M Empty_set (Feeder Terminal) A) :
  (n ≤ k)%Z → feeds size n m → feeds size k m.
Proof.
  intros Hle Hm f Hi Ho Hr. destruct (Hm f Hi Ho ltac:(lia)) as (a & f' & ? & ? & ? & ?).
  exists a, f'. split_and!; try done; lia.
Qed.

Lemma feeds_pure size g :
  (∀ t, inv true size t → inv true size (g t)) → (∀ h o t, settled h o t → settled h o (g t)) →
  feeds size 0 (modify_screen g).
Proof. intros Hg Hs. apply (feeds_on size 0 (modify g)). by apply runs_modify. Qed.

Lemma finish_runs size : feeds size 0 (modify_screen finish_run).
Proof.
  apply feeds_pure; [apply keeps_finish|]. intros h o t Ht.
  apply (e_same (settled h o) (call FinishPendingPlaceholder t)); [done..|]. by apply (e_call (settled h o)).
Qed.

Lemma ascii_control_feeds size byte : feeds size 1 (consume_ascii_control byte).
Proof.
  unfold consume_ascii_control.
  assert (∀ g, (∀ t, inv true size t → inv true size (g t)) → (∀ h o t, settled h o t → settled h o (g t)) →
    feeds size 1 (modify_screen finish_run;; modify_screen g;; mret true)) as Hpure.
  { intros g Hg Hs. apply (feeds_bind size 0 1); [lia..|apply finish_runs|intros _].
    apply (feeds_bind size 0 1); [lia..|by apply feeds_pure|intros _].
    apply (feeds_weaken size 0); [lia|apply feeds_ret]. }
  case_match; [apply (feeds_bind size 0 1); [lia..|apply finish_runs|intros _];
    apply (feeds_weaken size 0); [lia|apply feeds_ret]|].
  case_match; [apply Hpure; [apply keeps_bell|intros h o t Ht; by eapply eff_rest, Ht]|].
  case_match; [apply Hpure; [apply keeps_backspace|intros h o t]|].
  { apply (e_on (settled h o)). intros s. unfold Screen.backspace. repeat case_match; done. }
  case_match; [apply Hpure; [apply keeps_tab|intros h o t]|].
  { apply (e_on (settled h o)). intros s. unfold Screen.move_forward_tabs. by case_decide. }
  case_match.
  { apply (feeds_bind size 0 1); [lia..|apply finish_runs|intros _].
    apply (feeds_bind size 1 0); [lia..|apply feeds_on, line_feed_runs|intros _; apply feeds_ret]. }
  case_match; [apply Hpure; [apply keeps_carriage_return|intros h o t; apply (e_carriage_return (settled h o))]|].
  apply (feeds_weaken size 0); [lia|apply feeds_ret].
Qed.

Lemma ascii_byte_feeds size byte : feeds size 3 (feed_ascii_byte byte).
Proof.
  apply (feeds_bind size 1 2); [lia..|apply ascii_control_feeds|]. intros [].
  - apply (feeds_weaken size 0); [lia|apply feeds_ret].
  - apply feeds_on, write_char_runs.
Qed.

Lemma ascii_bytes_feed size bytes :
  feeds size (3 * Z.of_nat (length bytes)) (iterM feed_ascii_byte bytes).
Proof.
  induction bytes as [|b bytes IH]; [apply feeds_ret|]. cbn [iterM length].
  replace (3 * Z.of_nat (S (length bytes)))%Z with (3 + 3 * Z.of_nat (length bytes))%Z by lia.
  apply feeds_bind; [lia..|apply ascii_byte_feeds|intros _; apply IH].
Qed.

(** C12. Plain text never hangs or crashes the terminal: from every
    well-formed state, with no incomplete input pending, feeding ASCII
    characters and controls without escape sequences returns and leaves a
    well-formed terminal of the same size, as long as the sequence number
    and the stable row counter have room (three rows per byte). *)
Theorem plain_text_always_prints size bytes f :
  inv true size (screen f) → pending_utf8 f = [] → pending_control f = [] →
  normalize_output_to_unicode_nfc f = false →
  Forall (λ b, 0 ≤ b ≤ 127 ∧ b ≠ 27)%Z bytes →
  (0 ≤ main_stable_row_offset (screen f))%Z → (seqno (screen f) < usize_max)%Z →
  (stable_top (screen f) + 3 * Z.of_nat (length bytes) ≤ isize_max)%Z →
  ∃ f', feed bytes f = Ok () f' ∧ inv true size (screen f').
Proof.
  intros Hi Hu Hc Hn Hb Ho Hs Hr. unfold feed, on_screen, zoom, advance_seqno, checked_add. monad.
  rewrite bool_decide_true by lia.
  set (f1 := with_screen ((screen f){{ seqno := (seqno (screen f) + 1)%Z }}) f).
  assert (inv true size (screen f1)) as Hi1 by (by eapply other_inv, Hi).
  destruct (ascii_bytes_feed size bytes f1 Hi1 Ho Hr) as ([] & f' & E & I' & _).
  exists f'. split; [|done].
  assert (forallb is_ascii bytes = true) as Ha.
  { clear -Hb. induction Hb as [|b l [Hb1 _] _ IH]; [done|]. simpl. rewrite IH, andb_true_r.
    unfold is_ascii, between. lia. }
  assert (27%Z ∉ bytes) as He.
  { intros Hin. rewrite Forall_forall in Hb. by destruct (Hb _ Hin). }
  unfold feed_at_current_seqno, try_feed_direct_ascii_at_current_seqno. monad.
  change (pending_utf8 f1) with (pending_utf8 f). change (pending_control f1) with (pending_control f).
  change (normalize_output_to_unicode_nfc f1) with (normalize_output_to_unicode_nfc f).
  rewrite Hu, Hc, Hn, Ha. simpl. rewrite bool_decide_false by done. by rewrite E.
Qed.
End printing.
