(* ===== verification/GraphemeFacts.v ===== *)
(** Wide characters in a row: a grapheme is a leader followed by its
    continuation cells. [sanitize_grapheme_spans], which every character edit
    ends with, leaves only whole graphemes; on such rows the loop of [DCH]
    that aligns the deleted range to graphemes ends. Scrolling between left
    and right margins can cut graphemes and does not repair them, and there
    the loop need not end. *)
From coqutil Require Import Datatypes.RecordSetters.
From S2P Require Import Prelude Text Grid GridFacts Csi Reflow Utf8 Feed Screen Scroll Edit.
From S2P Require Import ScreenFacts TerminalInv TerminalKeeps.
Import DoubleBraceUpdate.

Section grapheme.
  Context `{Gfx : Graphics}.
  Implicit Types (s : ScreenState) (row column : nat).

Definition cell_at row column s : option Cell := TerminalGrid.get row column (grid s).

(** The columns before [n] hold whole graphemes only: a continuation has its
    leader, a leader has all its continuations. *)
Definition whole_upto row (n : nat) s : Prop :=
  ∀ column cell, column < n → cell_at row column s = Some cell →
  match content cell with
  | Continuation d =>
      1 ≤ Z.to_nat d ≤ column ∧
      ∃ leader, cell_at row (column - Z.to_nat d) s = Some leader ∧
        Cell.is_continuation leader = false ∧ Z.to_nat d < Screen.cell_width leader
  | _ =>
      column + Screen.cell_width cell ≤ n ∧
      ∀ o, 1 ≤ o < Screen.cell_width cell →
        ∃ x d, cell_at row (column + o) s = Some x ∧ content x = Continuation d ∧ Z.to_nat d = o
  end.

Definition row_whole row s : Prop := whole_upto row (Screen.columns s) s.

Lemma cell_width_pos cell : 1 ≤ Screen.cell_width cell.
Proof. unfold Screen.cell_width. lia. Qed.

(** ** Cells after a write *)

Lemma get_seqno row column r n g :
  TerminalGrid.get row column (TerminalGrid.set_row_last_change_seqno r n g).2 = TerminalGrid.get row column g.
Proof.
  unfold TerminalGrid.set_row_last_change_seqno, TerminalGrid.get.
  destruct (grid_rows g !! r) as [x|] eqn:Hr; [|done]. simpl.
  destruct (decide (row = r)) as [->|Hne].
  - by rewrite list_lookup_insert_eq, Hr by (by eapply lookup_lt_Some).
  - by rewrite list_lookup_insert_ne.
Qed.

Lemma get_set_cell row column row' column' x g :
  TerminalGrid.get row column (TerminalGrid.set row' column' x g).2 =
    if decide (row = row' ∧ column = column' ∧ is_Some (TerminalGrid.get row' column' g))
    then Some x else TerminalGrid.get row column g.
Proof.
  unfold TerminalGrid.set, TerminalGrid.get.
  destruct (grid_rows g !! row') as [r|] eqn:Hr; simpl.
  2: { rewrite decide_False; [done|]. intros (_ & _ & [? H]). done. }
  destruct (row_cells r !! column') as [c|] eqn:Hc; simpl.
  2: { rewrite decide_False; [done|]. intros (_ & _ & [? H]). done. }
  destruct (decide (row = row')) as [->|Hne].
  - rewrite list_lookup_insert_eq by (by eapply lookup_lt_Some). rewrite Hr. simpl.
    destruct (decide (column = column')) as [->|Hne'].
    + rewrite list_lookup_insert_eq by (by eapply lookup_lt_Some). by rewrite decide_True.
    + rewrite list_lookup_insert_ne by done. rewrite decide_False; [done|]. naive_solver.
  - rewrite list_lookup_insert_ne by done. rewrite decide_False; [done|]. naive_solver.
Qed.

Lemma set_flag row column x g :
  is_Some (TerminalGrid.get row column g) → (TerminalGrid.set row column x g).1 = true.
Proof.
  unfold TerminalGrid.set, TerminalGrid.get. intros [y Hy].
  destruct (grid_rows g !! row) as [r|]; [|done]. simpl in Hy. by rewrite Hy.
Qed.

Lemma cell_at_set n row column x s c :
  cell_at row c (Screen.set_grid_cell n row column x s).2 =
    if decide (c = column ∧ is_Some (cell_at row column s)) then Some x else cell_at row c s.
Proof.
  unfold Screen.set_grid_cell, cell_at. pose proof (get_set_cell row c row column x (grid s)) as Hget.
  pose proof (set_flag row column x (grid s)) as Hflag.
  destruct (TerminalGrid.set row column x (grid s)) as [ok g]. simpl in *. destruct ok; simpl.
  - rewrite get_seqno, Hget. repeat case_decide; naive_solver.
  - rewrite decide_False; [done|]. intros [_ Hs]. by specialize (Hflag Hs).
Qed.

Lemma columns_set n row column x s :
  Screen.columns (Screen.set_grid_cell n row column x s).2 = Screen.columns s.
Proof.
  destruct (cells_only_set n row column x s) as [_ [H _]]. unfold Screen.columns, Screen.size. by rewrite H.
Qed.

Lemma blank_content s : content (Screen.blank_cell s) = Blank.
Proof. done. Qed.

(** Clearing a span blanks its first cell and touches nothing to the left. *)
Lemma clear_span_cells n row column cell s :
  cell_at row column s = Some cell → Cell.is_continuation cell = false → column < Screen.columns s →
  Screen.columns s ≤ Z.to_nat u16_max →
  let s' := Screen.clear_grapheme_span_at n row column s in
  (∀ c, c < column → cell_at row c s' = cell_at row c s) ∧
  (∃ x, cell_at row column s' = Some x ∧ content x = Blank) ∧ Screen.columns s' = Screen.columns s.
Proof.
  intros Hcell Hcont Hcol Hu. unfold Screen.clear_grapheme_span_at.
  change (TerminalGrid.get row column (grid s)) with (cell_at row column s). rewrite Hcell.
  assert (Screen.leader_of column cell = column) as Hlead.
  { unfold Screen.leader_of, Cell.is_continuation in *. by destruct (content cell). }
  rewrite Hlead. change (TerminalGrid.get row column (grid s)) with (cell_at row column s). rewrite Hcell.
  pose proof (cell_width_pos cell) as Hw. destruct (Screen.cell_width cell) as [|w]; [lia|].
  set (step := λ s offset, _).
  assert (∀ l s1, Forall (λ o, 1 ≤ o) l → Screen.columns s1 = Screen.columns s →
    (∀ c, c ≤ column → cell_at row c (foldl step s1 l) = cell_at row c s1) ∧
    Screen.columns (foldl step s1 l) = Screen.columns s) as Htail.
  { induction l as [|o l IH]; intros s1 Hl Hs1; [done|]. inversion Hl; subst. simpl.
    assert (Screen.columns (step s1 o) = Screen.columns s ∧
      ∀ c, c ≤ column → cell_at row c (step s1 o) = cell_at row c s1) as [Hc1 Hc2].
    { unfold step. case_decide as Ht; [|done]. rewrite columns_set. split; [done|].
      intros c Hc. rewrite cell_at_set, decide_False; [done|]. unfold sat_add in *. rewrite Hs1 in Ht. lia. }
    destruct (IH (step s1 o)) as [IH1 IH2]; [done|done|]. split; [|done].
    intros c Hc. by rewrite IH1, Hc2. }
  cbn [seq foldl].
  assert (step s 0 = (Screen.set_grid_cell n row column (Screen.blank_cell s) s).2) as Hfirst.
  { unfold step, sat_add. rewrite Nat.add_0_r, Nat.min_l by lia. by rewrite decide_True. }
  rewrite Hfirst.
  destruct (Htail (seq 1 w) (Screen.set_grid_cell n row column (Screen.blank_cell s) s).2) as [H1 H2].
  { apply Forall_seq. lia. }
  { apply columns_set. }
  split_and!; [| |done].
  - intros c Hc. rewrite H1 by lia. rewrite cell_at_set, decide_False; [done|lia].
  - exists (Screen.blank_cell s). rewrite H1 by lia. rewrite cell_at_set, decide_True by (split; [done|by eexists]).
    done.
Qed.

(** ** Repair *)

Lemma whole_same row n s s' :
  (∀ c, c < n → cell_at row c s' = cell_at row c s) → whole_upto row n s → whole_upto row n s'.
Proof.
  intros Hc Hw column cell Hlt Hcell. rewrite Hc in Hcell by done. specialize (Hw column cell Hlt Hcell).
  destruct (content cell) as [|g w|d] eqn:He.
  - destruct Hw as [H1 H2]. split; [done|]. intros o Ho. rewrite Hc by lia. by apply H2.
  - destruct Hw as [H1 H2]. split; [done|]. intros o Ho. rewrite Hc by lia. by apply H2.
  - destruct Hw as [H1 (leader & H2 & H3)]. split; [done|]. exists leader. by rewrite Hc by lia.
Qed.

(** One more column, blank. *)
Lemma whole_blank row column s x :
  cell_at row column s = Some x → content x = Blank → whole_upto row column s → whole_upto row (column + 1) s.
Proof.
  intros Hx Hb Hw c cell Hlt Hcell. destruct (decide (c = column)) as [->|Hne].
  - rewrite Hx in Hcell. injection Hcell as <-. rewrite Hb.
    assert (Screen.cell_width x = 1) as -> by (unfold Screen.cell_width, Cell.columns; by rewrite Hb).
    split; lia.
  - specialize (Hw c cell ltac:(lia) Hcell). destruct (content cell); [| |done];
      (destruct Hw as [H1 H2]; split; [lia|exact H2]).
Qed.

Lemma span_complete_spec row column width s :
  Screen.span_complete row column width s = true →
  ∀ o, 1 ≤ o < width → ∃ x d, cell_at row (column + o) s = Some x ∧ content x = Continuation d ∧ Z.to_nat d = o.
Proof.
  unfold Screen.span_complete. intros H o Ho. rewrite forallb_forall in H.
  specialize (H o). rewrite in_seq in H. specialize (H ltac:(lia)).
  change (TerminalGrid.get row (column + o) (grid s)) with (cell_at row (column + o) s) in H.
  destruct (cell_at row (column + o) s) as [x|]; [|done]. simpl in H.
  destruct (content x) as [| |d] eqn:He; [done|done|]. case_bool_decide; [|done]. by exists x, d.
Qed.

(** One more grapheme. *)
Lemma whole_grapheme row column cell s :
  cell_at row column s = Some cell → Cell.is_continuation cell = false →
  (∀ o, 1 ≤ o < Screen.cell_width cell →
     ∃ x d, cell_at row (column + o) s = Some x ∧ content x = Continuation d ∧ Z.to_nat d = o) →
  whole_upto row column s → whole_upto row (column + Screen.cell_width cell) s.
Proof.
  intros Hcell Hcont Hspan Hw c x Hlt Hx. pose proof (cell_width_pos cell).
  destruct (decide (c < column)) as [Hc|Hc].
  - specialize (Hw c x Hc Hx). destruct (content x); [| |done];
      (destruct Hw as [H1 H2]; split; [lia|exact H2]).
  - destruct (decide (c = column)) as [->|Hne].
    + rewrite Hcell in Hx. injection Hx as <-. unfold Cell.is_continuation in Hcont.
      destruct (content cell); [done|done|done].
    + destruct (Hspan (c - column)) as (y & d & Hy & He & Hd); [lia|].
      replace (column + (c - column)) with c in Hy by lia. rewrite Hx in Hy. injection Hy as <-.
      rewrite He, Hd. split; [lia|]. exists cell.
      replace (c - (c - column)) with column by lia. split_and!; [done|done|lia].
Qed.

Lemma sanitize_loop_whole fuel n row column s :
  Screen.columns s ≤ Z.to_nat u16_max → Screen.columns s - column ≤ fuel → grid_ok (grid s) →
  row < Screen.rows s → column ≤ Screen.columns s → whole_upto row column s →
  ∃ s', Screen.sanitize_loop fuel n row column s = Some s' ∧ Screen.columns s' = Screen.columns s ∧
    whole_upto row (Screen.columns s) s'.
Proof.
  revert column s. induction fuel as [|fuel IH]; intros column s Hu Hf Hok Hrow Hc Hw; simpl.
  { rewrite decide_False by lia. exists s. replace (Screen.columns s) with column by lia. done. }
  case_decide as Hlt; [|exists s; replace (Screen.columns s) with column by lia; done].
  change (TerminalGrid.get row column (grid s)) with (cell_at row column s).
  destruct (proj2 (grid_ok_get (grid s) row column Hok)) as [cell Hcell]; [done|].
  change (cell_at row column s = Some cell) in Hcell. rewrite Hcell.
  assert (∀ s1, cells_only s s1 → grid_ok (grid s1) ∧ Screen.rows s1 = Screen.rows s ∧
    Screen.columns s1 = Screen.columns s) as Hco.
  { intros s1 [_ [Hsz Hsh]]. unfold Screen.rows, Screen.columns, Screen.size. rewrite Hsz. auto. }
  assert (∀ s1, cells_only s s1 → whole_upto row (column + 1) s1 →
    ∃ s', Screen.sanitize_loop fuel n row (column + 1) s1 = Some s' ∧ Screen.columns s' = Screen.columns s ∧
      whole_upto row (Screen.columns s) s') as Hnext.
  { intros s1 H1 Hw1. destruct (Hco s1 H1) as (O1 & R1 & C1).
    rewrite <-C1. apply IH; rewrite ?C1, ?R1; try done; lia. }
  destruct (Cell.is_continuation cell) eqn:Hcont.
  - apply Hnext; [apply cells_only_set|].
    apply (whole_blank row column _ (Screen.blank_cell s)); [|done|].
    + rewrite cell_at_set, decide_True; [done|]. split; [done|by eexists].
    + eapply whole_same, Hw. intros c Hlt'. rewrite cell_at_set, decide_False; [done|lia].
  - pose proof (cell_width_pos cell) as Hpos.
    destruct (bool_decide (Screen.cell_width cell = 1) || _) eqn:Hb.
    + assert (∀ o, 1 ≤ o < Screen.cell_width cell →
        ∃ x d, cell_at row (column + o) s = Some x ∧ content x = Continuation d ∧ Z.to_nat d = o) as Hspan.
      { apply orb_true_iff in Hb as [Hb|Hb]; [apply bool_decide_eq_true in Hb; lia|].
        apply andb_true_iff in Hb as [_ Hb]. by apply span_complete_spec. }
      assert (column + Screen.cell_width cell ≤ Screen.columns s) as Hle.
      { destruct (decide (Screen.cell_width cell = 1)); [lia|].
        destruct (Hspan (Screen.cell_width cell - 1)) as (x & d & Hx & _); [lia|].
        assert (is_Some (TerminalGrid.get row (column + (Screen.cell_width cell - 1)) (grid s))) as Hs
          by (by eexists). apply grid_ok_get in Hs as [_ Hs]; [|done].
        unfold Screen.columns, Screen.size. lia. }
      apply IH; try done; [lia|]. by apply whole_grapheme.
    + destruct (clear_span_cells n row column cell s Hcell Hcont Hlt Hu) as (H1 & (x & Hx & Hxb) & H3).
      apply Hnext; [apply cells_only_clear_span|]. apply (whole_blank row column _ x); [done|done|].
      by eapply whole_same, Hw.
Qed.

Lemma sanitized_row n row s :
  screen_ok s → row < Screen.rows s → row_whole row (Screen.sanitize_grapheme_spans n row s).
Proof.
  intros [Hok [_ Hu] _ _ _] Hrow. unfold row_whole, Screen.sanitize_grapheme_spans.
  assert (whole_upto row 0 s) as H0 by (intros c cell Hc; lia).
  destruct (sanitize_loop_whole (Screen.columns s) n row 0 s Hu ltac:(lia) Hok Hrow ltac:(lia) H0)
    as (s' & -> & Hc & Hw).
  simpl. by rewrite Hc.
Qed.

(** ** Deleting characters *)

(** After a grapheme comes a leader, or the end of the row. *)
Lemma next_leader row s column cell :
  row_whole row s → cell_at row column s = Some cell → Cell.is_continuation cell = false →
  column < Screen.columns s →
  ∀ x, column + Screen.cell_width cell < Screen.columns s →
    cell_at row (column + Screen.cell_width cell) s = Some x → Cell.is_continuation x = false.
Proof.
  intros Hw Hcell Hcont Hlt x Hlt' Hx. unfold Cell.is_continuation.
  pose proof (Hw _ _ Hlt' Hx) as Hwx. destruct (content x) as [| |d] eqn:He; [done|done|exfalso].
  destruct Hwx as [Hd (leader & Hl & Hlc & Hlw)]. set (w := Screen.cell_width cell) in *.
  assert (∀ c y, c < Screen.columns s → cell_at row c s = Some y → Cell.is_continuation y = false →
    ∀ o, 1 ≤ o < Screen.cell_width y → ∃ z, cell_at row (c + o) s = Some z ∧ Cell.is_continuation z = true) as Hspan.
  { intros c y Hc Hy Hyc o Ho. pose proof (Hw c y Hc Hy) as H. unfold Cell.is_continuation in Hyc.
    destruct (content y); [| |done]; (destruct H as [_ H]; destruct (H o Ho) as (z & e & Hz & Hze & _);
      exists z; split; [done|]; unfold Cell.is_continuation; by rewrite Hze). }
  destruct (decide (Z.to_nat d < w)) as [Hdw|Hdw].
  - destruct (Hspan column cell Hlt Hcell Hcont (w - Z.to_nat d)) as (z & Hz & Hzc); [lia|].
    replace (column + (w - Z.to_nat d)) with (column + w - Z.to_nat d) in Hz by lia. congruence.
  - destruct (decide (Z.to_nat d = w)) as [Heq|Hne].
    + replace (column + w - Z.to_nat d) with column in Hl by lia. rewrite Hcell in Hl. injection Hl as <-. lia.
    + destruct (Hspan (column + w - Z.to_nat d) leader ltac:(lia) Hl Hlc (Z.to_nat d - w)) as (z & Hz & Hzc); [lia|].
      replace (column + w - Z.to_nat d + (Z.to_nat d - w)) with column in Hz by lia. congruence.
Qed.

Lemma delete_loop_total fuel right column finish s :
  grid_ok (grid s) → cursor_row s < Screen.rows s → row_whole (cursor_row s) s →
  right < Screen.columns s → Screen.columns s ≤ Z.to_nat u16_max →
  (∀ x, cell_at (cursor_row s) column s = Some x → Cell.is_continuation x = false) →
  right + 1 - column ≤ fuel → is_Some (delete_range_loop fuel right column finish s).
Proof.
  intros Hok Hrow Hw Hr Hu. revert column finish.
  induction fuel as [|fuel IH]; intros column finish Hl Hf; cbn [delete_range_loop].
  { case_decide; [lia|by eexists]. }
  case_decide as Hc; [|by eexists].
  change (TerminalGrid.get (cursor_row s) column (grid s)) with (cell_at (cursor_row s) column s).
  destruct (cell_at (cursor_row s) column s) as [cell|] eqn:Hcell; [|by eexists].
  pose proof (Hl cell eq_refl) as Hcont. pose proof (cell_width_pos cell) as Hpos.
  assert (is_Some (delete_range_loop fuel right (sat_add column (Screen.cell_width cell))
    (finish `max` (sat_add column (Screen.cell_width cell) `min` sat_add right 1)) s)) as Hgo.
  { unfold sat_add. destruct (decide (column + Screen.cell_width cell ≤ Z.to_nat u16_max)) as [Hle|Hle].
    - rewrite (Nat.min_l (column + _)) by done. apply IH; [|lia]. intros x Hx.
      assert (column + Screen.cell_width cell < Screen.columns s) as Hlt.
      { apply (grid_ok_get (grid s) (cursor_row s)); [done|]. by eexists. }
      by apply (next_leader (cursor_row s) s column cell Hw Hcell Hcont ltac:(lia) x Hlt Hx).
    - rewrite (Nat.min_r (column + _)) by lia. destruct fuel; cbn [delete_range_loop];
        (rewrite decide_False by lia); by eexists. }
  unfold Cell.is_continuation in Hcont. by destruct (content cell).
Qed.

Lemma whole_leader column s x :
  row_whole (cursor_row s) s → column < Screen.columns s →
  cell_at (cursor_row s) (Screen.grapheme_leader_column column s) s = Some x → Cell.is_continuation x = false.
Proof.
  intros Hw Hc Hx. unfold Screen.grapheme_leader_column in Hx.
  change (TerminalGrid.get (cursor_row s) column (grid s)) with (cell_at (cursor_row s) column s) in Hx.
  destruct (cell_at (cursor_row s) column s) as [cell|] eqn:Hcell; [|congruence].
  unfold Screen.leader_of in Hx. pose proof (Hw column cell Hc Hcell) as H.
  destruct (content cell) as [|g w|d] eqn:He.
  - rewrite Hcell in Hx. injection Hx as <-. unfold Cell.is_continuation. by rewrite He.
  - rewrite Hcell in Hx. injection Hx as <-. unfold Cell.is_continuation. by rewrite He.
  - destruct H as [_ (leader & Hl & Hlc & _)]. rewrite Hl in Hx. by injection Hx as <-.
Qed.

(** The aligned range of a row of whole graphemes. *)
Lemma delete_range_total count right s :
  screen_ok s → cursor_row s < Screen.rows s → row_whole (cursor_row s) s →
  right < Screen.columns s → cursor_column s < Screen.columns s →
  is_Some (grapheme_aligned_delete_range (delete_fuel s) count right s).
Proof.
  intros [Hg [_ Hu] _ _ _] Hr Hw Hright Hcol. unfold grapheme_aligned_delete_range.
  destruct (delete_loop_total (delete_fuel s) right (Screen.grapheme_leader_column (cursor_column s) s)
    ((sat_add (cursor_column s) count `min` sat_add right 1)
       `max` Screen.grapheme_leader_column (cursor_column s) s) s) as [finish ->]; try done.
  - intros x Hx. by eapply whole_leader.
  - unfold delete_fuel. lia.
Qed.

Lemma delete_loop_grows fuel right column finish s finish' :
  delete_range_loop fuel right column finish s = Some finish' → finish ≤ finish'.
Proof.
  revert column finish. induction fuel as [|fuel IH]; intros column finish; cbn [delete_range_loop].
  { case_decide; [done|]. by intros [= <-]. }
  case_decide; [|by intros [= <-]]. destruct (TerminalGrid.get _ _ _) as [cell|]; [|by intros [= <-]].
  destruct (content cell); intros Hf%IH; lia.
Qed.

(** A range that was asked for is not empty. *)
Lemma delete_range_nonempty fuel count right s start n :
  0 < count → cursor_column s ≤ right → cursor_column s + 1 ≤ Z.to_nat u16_max → right < Z.to_nat u16_max →
  grapheme_aligned_delete_range fuel count right s = Some (start, n) →
  start ≤ cursor_column s ∧ 0 < n.
Proof.
  intros Hc Hr Hu Hu' (finish & Hf%delete_loop_grows & [= <- <-])%bind_Some.
  pose proof (grapheme_leader_le (cursor_column s) s). split; [done|]. unfold sat_add in *. lia.
Qed.

End grapheme.

(** ** The character edits *)

Section edits.
  Context `{Ext : External} `{Gfx : Graphics}.
  Implicit Types (t : Terminal) (s : ScreenState) (size : TerminalSize).

Lemma row_whole_grid row s s' : grid s' = grid s → row_whole row s → row_whole row s'.
Proof.
  intros Hg. unfold row_whole, whole_upto, cell_at, Screen.columns, Screen.size. by rewrite Hg.
Qed.

Lemma row_whole_frame row t t' : gfx_frame t t' → row_whole row (active t) → row_whole row (active t').
Proof. intros [_ H _]. apply row_whole_grid. by rewrite H. Qed.

(** An edit of cells that ends with the repair of the row. *)
Lemma repaired_row b size n row f t :
  inv b size t → row < size_rows size → (∀ s, cells_only s (f s)) →
  row_whole row (active (on_active (λ s, Screen.sanitize_grapheme_spans n row (f s)) t)).
Proof.
  intros Hi Hr Hf. destruct (inv_screen _ _ _ Hi) as (Hok & Hrows & _).
  apply sanitized_row; [eapply cells_only_ok; [apply Hf|done]|].
  destruct (Hf (active t)) as [_ [Hs _]]. unfold Screen.rows, Screen.size in *. rewrite Hs. by rewrite Hrows.
Qed.

Lemma finish_edit_frame right flags t : gfx_frame t (finish_character_edit right flags t).
Proof.
  unfold finish_character_edit. case_match; [etrans; [|apply damage_screen_frame]|]; apply record_damage_frame.
Qed.

(** What both edits at the cursor have in common. *)
Ltac repaired_edit Hi Hp :=
  match goal with |- context [prepare_bounded_character_edit_attachments ?r ?x ?t] =>
    pose proof (prepare_inv _ _ r x t Hi) as Hp;
    destruct (prepare_bounded_character_edit_attachments r x t) as [flags u] end;
  eapply row_whole_frame; [apply finish_edit_frame|];
  eapply (repaired_row _ _ _ _ (λ s, fill_blank _ _ _ (move_cells _ _ _ _ _ s))); [exact Hp|done|];
  intros; etrans; [apply move_cells_only|apply fill_blank_only].

Lemma insert_boundary_whole b size count right tr t :
  inv b size t → cursor_row (active t) < size_rows size → cursor_column (active t) < size_columns size →
  cursor_column (active t) ≤ right → 0 < count →
  row_whole (cursor_row (active t)) (active (insert_blank_characters_with_right_boundary count right tr t)).
Proof.
  intros Hi Hr Hc Hright Hn. destruct (inv_screen _ _ _ Hi) as (_ & Hrows & Hcols).
  unfold insert_blank_characters_with_right_boundary. rewrite Hrows, Hcols, decide_False by lia. let Hp := fresh in repaired_edit Hi Hp.
Qed.

Lemma delete_boundary_whole b size count right t :
  inv b size t → cursor_row (active t) < size_rows size → cursor_column (active t) < size_columns size →
  cursor_column (active t) ≤ right → 0 < count →
  row_whole (cursor_row (active t)) (active (delete_characters_with_right_boundary count right t)).
Proof.
  intros Hi Hr Hc Hright Hn. destruct (inv_screen _ _ _ Hi) as (_ & Hrows & Hcols).
  unfold delete_characters_with_right_boundary. rewrite Hrows, Hcols, decide_False by lia. let Hp := fresh in repaired_edit Hi Hp.
Qed.

Lemma boundary_bounds s :
  screen_ok s → 0 < Screen.columns s → Screen.cursor_within_horizontal_margins s = true →
  cursor_column s ≤ Screen.character_right_boundary s < Screen.columns s.
Proof.
  intros [_ _ [_ Hc] _ _] Hpos Hm. unfold Screen.character_right_boundary. rewrite Hm, andb_true_r.
  unfold Screen.cursor_within_horizontal_margins in Hm.
  destruct (left_right_margin_mode (modes s)); [|lia]. cbn in Hm.
  apply andb_true_iff in Hm as [_ Hm%bool_decide_eq_true]. lia.
Qed.

Lemma erase_characters_whole b size count t :
  inv b size t → cursor_row (active t) < size_rows size → cursor_column (active t) < size_columns size → 0 < count →
  row_whole (cursor_row (active t)) (active (erase_characters count t)).
Proof.
  intros Hi Hr Hc Hn. unfold erase_characters. set (u := t{{ active -> pending_wrap := false }}).
  assert (inv b size u) as Hu by (by apply no_wrap_inv). destruct (inv_screen _ _ _ Hu) as (_ & Hrows & Hcols).
  change (cursor_row (active t)) with (cursor_row (active u)) in *.
  change (cursor_column (active t)) with (cursor_column (active u)) in *. clearbody u.
  rewrite Hrows, decide_False by lia. eapply row_whole_frame; [apply record_damage_frame|].
  apply (repaired_row b size _ _ (λ s, fill_blank (seqno u) (cursor_row s) _ s)); [done|done|].
  intros. apply fill_blank_only.
Qed.

Lemma get_wrapped row column r w g :
  TerminalGrid.get row column (TerminalGrid.set_row_wrapped r w g) = TerminalGrid.get row column g.
Proof.
  unfold TerminalGrid.set_row_wrapped, TerminalGrid.update_row, TerminalGrid.get.
  destruct (grid_rows g !! r) as [x|] eqn:Hx; [|done]. cbn. destruct (decide (r = row)) as [->|Hne].
  - by rewrite list_lookup_insert_eq, Hx by (by eapply lookup_lt_Some).
  - by rewrite list_lookup_insert_ne.
Qed.

Lemma wrapped_whole n row row' w s : row_whole row s → row_whole row (Screen.set_grid_row_wrapped n row' w s).
Proof.
  intros Hw. destruct (cells_only_wrapped n row' w s) as [_ [Hs _]].
  unfold row_whole, Screen.columns, Screen.size in *. rewrite Hs. eapply whole_same, Hw. intros c _.
  unfold cell_at, Screen.set_grid_row_wrapped. case_bool_decide; [done|]. cbn. by rewrite get_seqno, get_wrapped.
Qed.

Lemma clear_cells_whole b size row first last selective t :
  inv b size t → row < size_rows size → first < size_columns size → first < last →
  row_whole row (active (clear_cells row first last selective t)).
Proof.
  intros Hi Hr Hf Hl. destruct (inv_screen _ _ _ Hi) as (_ & Hrows & Hcols).
  unfold clear_cells. rewrite Hrows, Hcols, !decide_False by lia.
  eapply row_whole_frame; [apply record_damage_frame|].
  match goal with |- context [on_active (Screen.sanitize_grapheme_spans (seqno ?v) row) ?v] =>
    assert (row_whole row (active (on_active (Screen.sanitize_grapheme_spans (seqno v) row) v))) as Hw end.
  { eapply (repaired_row b size _ row id); [|done|done].
    apply foldl_inv; [intros; by apply clear_cell_inv|]. destruct selective; [done|by apply call_inv]. }
  case_decide; [by apply wrapped_whole|exact Hw].
Qed.

Lemma erase_line_whole b size mode selective t :
  inv b size t → cursor_row (active t) < size_rows size → cursor_column (active t) < size_columns size →
  (0 ≤ mode ≤ 2)%Z → row_whole (cursor_row (active t)) (active (erase_line mode selective t)).
Proof.
  intros Hi Hr Hc Hm. destruct (inv_screen _ _ _ Hi) as ([_ [_ Hu] _ _ _] & Hrows & Hcols).
  unfold erase_line. rewrite Hrows, Hcols, decide_False by lia. rewrite Hcols in Hu.
  destruct (Z.eqb_spec mode 0); [by eapply clear_cells_whole|].
  destruct (Z.eqb_spec mode 1); [eapply clear_cells_whole; try done; unfold sat_add; lia|].
  destruct (Z.eqb_spec mode 2); [eapply clear_cells_whole; try done; lia|lia].
Qed.

Lemma insert_blank_whole b size count t :
  inv b size t → cursor_row (active t) < size_rows size → cursor_column (active t) < size_columns size → 0 < count →
  Screen.cursor_within_horizontal_margins (active t) = true →
  Screen.cursor_within_vertical_margins (active t) = true →
  row_whole (cursor_row (active t)) (active (insert_blank_characters count t)).
Proof.
  intros Hi Hr Hc Hn Hh Hv. unfold insert_blank_characters. set (u := t{{ active -> pending_wrap := false }}).
  assert (inv b size u) as Hu by (by apply no_wrap_inv). destruct (inv_screen _ _ _ Hu) as (Hok & Hrows & Hcols).
  change (cursor_row (active t)) with (cursor_row (active u)) in *.
  change (cursor_column (active t)) with (cursor_column (active u)) in *.
  change (Screen.cursor_within_horizontal_margins (active u) = true) in Hh.
  change (Screen.cursor_within_vertical_margins (active u) = true) in Hv. clearbody u.
  rewrite Hh, Hv. cbn [negb orb]. destruct (boundary_bounds (active u) Hok ltac:(lia) Hh) as [Hb _].
  pose proof (grapheme_leader_le (cursor_column (active u)) (active u)) as Hle.
  set (v := u{{ active -> cursor_column := Screen.grapheme_leader_column (cursor_column (active u)) (active u) }}).
  assert (inv b size v) as Hiv by (apply leader_inv; [lia|done]).
  assert (cursor_row (active v) = cursor_row (active u)) as Hrow by done.
  assert (cursor_column (active v) ≤ cursor_column (active u)) as Hcol by exact Hle.
  clearbody v. rewrite <-Hrow in Hr |- *. apply (insert_boundary_whole b size); try done; lia.
Qed.

(** The range that is deleted, and the row after it. *)
Lemma delete_characters_whole size count t :
  inv true size t → cursor_row (active t) < size_rows size → cursor_column (active t) < size_columns size → 0 < count →
  Screen.cursor_within_horizontal_margins (active t) = true →
  (∀ t', delete_characters count t = Ok () t' → row_whole (cursor_row (active t)) (active t')) ∧
  (row_whole (cursor_row (active t)) (active t) → ∃ t', delete_characters count t = Ok () t').
Proof.
  intros Hi Hr Hc Hn Hh. unfold delete_characters. monad. set (u := t{{ active -> pending_wrap := false }}).
  assert (inv true size u) as Hu by (by apply no_wrap_inv). destruct (inv_screen _ _ _ Hu) as (Hok & Hrows & Hcols).
  change (cursor_row (active t)) with (cursor_row (active u)) in *.
  change (cursor_column (active t)) with (cursor_column (active u)) in *.
  change (Screen.cursor_within_horizontal_margins (active u) = true) in Hh.
  assert (row_whole (cursor_row (active u)) (active t) → row_whole (cursor_row (active u)) (active u)) as Hsame
    by (by apply row_whole_grid). clearbody u.
  rewrite Hh. cbn [negb]. destruct (boundary_bounds (active u) Hok ltac:(lia) Hh) as [Hb1 Hb2].
  pose proof (ok_u16 _ Hok) as [_ Hu16].
  destruct (grapheme_aligned_delete_range _ _ _ _) as [[start n]|] eqn:Hrange.
  - destruct (delete_range_nonempty _ _ _ _ _ _ Hn Hb1 ltac:(lia) ltac:(lia) Hrange) as [Hs Hpos].
    split; [|by eexists]. intros t' [= Ht'].
    set (v := u{{ active -> cursor_column := start }}).
    assert (t' = delete_characters_with_right_boundary n (Screen.character_right_boundary (active u)) v) as -> by exact (eq_sym Ht').
    clear Ht'.
    assert (inv true size v) as Hiv by (apply column_inv; [lia|done]).
    assert (cursor_row (active v) = cursor_row (active u)) as Hrow by done.
    assert (cursor_column (active v) ≤ cursor_column (active u)) as Hcol by exact Hs.
    clearbody v. rewrite <-Hrow in Hr |- *. apply (delete_boundary_whole true size); try done; lia.
  - split; [done|]. intros Hw%Hsame. exfalso.
    destruct (delete_range_total count (Screen.character_right_boundary (active u)) (active u)) as [? Hs]; try done; [lia..|].
    congruence.
Qed.

(** C28. The character edits repair the row they touch, and deletion on a
    repaired row ends. With the cursor on the screen and a positive count, the
    row of the cursor holds only whole graphemes after [ECH] and after every
    kind of [EL]; after [ICH] with the cursor inside the margins; and after
    [DCH] with the cursor between the left and right margins, if it returns.
    On a row of whole graphemes [DCH] does return. *)
Theorem edits_repair_and_deletion_ends size count t :
  inv true size t → 0 < size_rows size → 0 < size_columns size → 0 < count →
  let row := cursor_row (active t) in
  row_whole row (active (erase_characters count t)) ∧
  (∀ mode selective, (0 ≤ mode ≤ 2)%Z → row_whole row (active (erase_line mode selective t))) ∧
  (Screen.cursor_within_horizontal_margins (active t) = true →
   (Screen.cursor_within_vertical_margins (active t) = true →
    row_whole row (active (insert_blank_characters count t))) ∧
   (∀ t', delete_characters count t = Ok () t' → row_whole row (active t')) ∧
   (row_whole row (active t) → ∃ t', delete_characters count t = Ok () t')).
Proof.
  intros Hi Hr Hc Hn row. destruct (inv_screen _ _ _ Hi) as ([_ _ [Hrow Hcol] _ _] & Hrows & Hcols).
  rewrite Hrows in Hrow. rewrite Hcols in Hcol.
  split; [by eapply erase_characters_whole; try done; lia|].
  split; [intros; eapply erase_line_whole; try done; lia|].
  intros Hh. split; [intros; eapply insert_blank_whole; try done; lia|].
  apply (delete_characters_whole size); try done; lia.
Qed.
End edits.

(** ** Deletion on a cut grapheme *)

Section cut.
  Context `{Gfx : Graphics}.
  Implicit Types (s : ScreenState) (row column : nat).

(** A continuation whose leader is one column wide: the loop goes back and
    forth between the two. *)
Lemma delete_loop_diverges fuel right column finish s leader x :
  cell_at (cursor_row s) column s = Some leader → Cell.is_continuation leader = false →
  Screen.cell_width leader = 1 →
  cell_at (cursor_row s) (column + 1) s = Some x → content x = Continuation 1 →
  column + 1 < finish → finish ≤ sat_add right 1 → column + 1 ≤ Z.to_nat u16_max → column + 1 ≤ right →
  delete_range_loop fuel right column finish s = None ∧ delete_range_loop fuel right (column + 1) finish s = None.
Proof.
  intros Hl Hlc Hlw Hx He Hf Hfr Hu Hr. induction fuel as [|fuel [IH1 IH2]]; cbn [delete_range_loop].
  { by rewrite !decide_True by lia. }
  rewrite !decide_True by lia.
  change (TerminalGrid.get (cursor_row s) column (grid s)) with (cell_at (cursor_row s) column s).
  change (TerminalGrid.get (cursor_row s) (column + 1) (grid s)) with (cell_at (cursor_row s) (column + 1) s).
  rewrite Hl, Hx, He, Hlw. split.
  - unfold Cell.is_continuation in Hlc.
    replace (sat_add column 1) with (column + 1) by (unfold sat_add; lia).
    rewrite Nat.max_l by lia. by destruct (content leader).
  - change (Z.to_nat 1) with 1. by replace (column + 1 - 1) with column by lia.
Qed.
End cut.
