(* ===== verification/Concrete.v ===== *)
(** Concrete instances of the interfaces: a terminal without graphics, and
    Unicode tables in which every character from U+1100 on is two columns
    wide. They are used to run the terminal on concrete inputs. *)
From coqutil Require Import Datatypes.RecordSetters.
From S2P Require Import Prelude Text Grid Csi Reflow Utf8 Feed Screen Scroll Edit Control.
Import DoubleBraceUpdate.

#[export] Instance no_graphics : Graphics := {|
  screen_graphics := ();
  shared_graphics := ();
  no_images := ();
  graphics_call := λ _ _ _ _ d, (no_reply, (), (), d);
|}.

#[export] Instance no_graphics_laws : GraphicsLaws.
Proof. by intros v v' k s d r k' s' d' [= <- <- <- <-] e. Qed.

#[export] Instance simple_unicode : External := {|
  char_width := λ _ c, Some (if (c <? 4352)%Z then 1 else 2);
  str_width := λ _ s, foldr (λ c n, n + if (c <? 4352)%Z then 1 else 2) 0 s;
  grapheme_count := length;
  nfc_text := id;
  combining_class := λ _, 0%Z;
  base64_decode := λ _, None;
|}.

Definition small_terminal (columns rows : nat) : Feeder Terminal :=
  mkFeeder [] [] false (new_with_default_cursor_style (mkTerminalSize columns rows) SteadyBlock ()).

(** The state after some input; the default is never used by the examples. *)
Definition after {A} (m : M Empty_set (Feeder Terminal) A) (f : Feeder Terminal) : Feeder Terminal :=
  match m f with Ok _ f' => f' | _ => f end.

Definition text_of_row (row : nat) (f : Feeder Terminal) : rstring :=
  concat ((λ column, default [] (Cell.text <$> TerminalGrid.get row column (grid (active (screen f)))))
            <$> seq 0 (Screen.columns (active (screen f)))).
