(* ===== verification/TerminalProps.v ===== *)
(** The terminal as its clients use it: sequences of inputs from a fresh
    terminal keep the invariant, resizing re-establishes it, and the terminal
    is a lawful performer behind the feed layer. The theorems of the feed
    layer, of printing, stable rows and the alternate screen are applied to
    concrete terminals here, and two defects are shown on concrete inputs. *)
From Stdlib Require Import Sorted.
From coqutil Require Import Datatypes.RecordSetters.
From S2P Require Import Prelude Text Grid GridFacts Csi Reflow Utf8 Feed Screen Scroll Edit Control.
From S2P Require Import StableRows Utf8Facts FeedFacts ScreenFacts TerminalInv TerminalKeeps ControlKeeps ResizeFacts.
From S2P Require Import Tracking Effects EffectsControl StableFacts Printing GraphemeFacts Concrete.
Import DoubleBraceUpdate.

(** ** Inputs *)

(** The public operations of a terminal that change it. *)
Inductive TerminalInput :=
| Feed (bytes : list Z)
| FeedWithAllLinesChanged (bytes : list Z)
| Resize (size : TerminalSize)
| SetScrollbackLimit (limit : nat)
| EraseScrollbackAndViewport
| MarkAllLinesChanged
| SetDefaultCursorStyle (style : CursorStyle).

Section inputs.
  Context `{Ext : External} `{Gfx : Graphics}.
  Abbreviation TM := (M Empty_set Terminal).
  Abbreviation F := (M Empty_set (Feeder Terminal)).
  Implicit Types (t : Terminal) (size : TerminalSize).

Definition run_input (i : TerminalInput) : F () :=
  match i with
  | Feed bytes => feed bytes
  | FeedWithAllLinesChanged bytes => feed_with_all_lines_changed bytes
  | Resize size => on_screen (resize size);; mret ()
  | SetScrollbackLimit limit => on_screen (set_scrollback_limit limit)
  | EraseScrollbackAndViewport => on_screen erase_scrollback_and_viewport
  | MarkAllLinesChanged => on_screen mark_all_lines_changed
  | SetDefaultCursorStyle style => modify_screen (set_default_cursor_style style)
  end.

(** A size given as [u16] columns and rows. *)
Definition input_fits (i : TerminalInput) : Prop :=
  match i with Resize size => fits_u16 size | _ => True end.

(** The size the terminal has after an input. *)
Definition size_after (size : TerminalSize) (i : TerminalInput) : TerminalSize :=
  match i with Resize s => mkTerminalSize (size_columns s `max` 1) (size_rows s) | _ => size end.

Definition fresh_feeder (size : TerminalSize) (style : CursorStyle) (g : shared_graphics) : Feeder Terminal :=
  mkFeeder [] [] false (new_with_default_cursor_style size style g).

Lemma new_inv size style g :
  fits_u16 size → inv true size (new_with_default_cursor_style size style g).
Proof.
  intros [Hr Hc]. split; try done.
  - split; unfold Screen.rows, Screen.columns, Screen.size; simpl; try lia; try done.
    apply new_with_seqno_ok.
  - destruct size. by apply tabs_new.
  - intros _. unfold history_len. simpl. unfold DEFAULT_SCROLLBACK_LIMIT. lia.
Qed.

Lemma limit_keeps size limit : preserves (inv true size) (set_scrollback_limit limit).
Proof.
  intros t Hi. unfold set_scrollback_limit, modify, mbind, M_bind.
  apply trim_keeps with false. eapply inv_same, Hi; done.
Qed.

Lemma mark_all_inv size t : inv true size t → inv true size (mark_all_lines_changed_at_current_seqno t).
Proof.
  intros Hi. unfold mark_all_lines_changed_at_current_seqno. apply touch_inv.
  case_match; [done|]. eapply inv_same, Hi; try done. intros _. unfold history_len. simpl.
  rewrite length_fmap. by apply Hi.
Qed.

Lemma erase_rows_shape n size blank g : same_shape g (erase_rows n size blank g).
Proof.
  unfold erase_rows. apply foldl_preorder; [apply _|]. intros g' row.
  etrans; [|apply same_shape_seqno]. etrans; [|apply same_shape_wrapped].
  apply foldl_preorder; [apply _|]. intros. apply same_shape_set.
Qed.

Lemma erase_all_keeps size : preserves (inv true size) erase_scrollback_and_viewport.
Proof.
  apply preserves_seq; [apply advance_seqno_keeps|]. apply preserves_get. intros t Hi. next_let.
  apply preserves_seq; [apply prune_keeps|].
  apply preserves_seq; [apply preserves_modify; intros u; by apply other_inv|].
  apply preserves_seq; [apply preserves_modify; intros u; apply call_inv|].
  apply preserves_seq; [apply preserves_modify; intros u; by apply other_inv|].
  next_if; apply preserves_modify; intros u Hu.
  - revert Hu. apply active_inv; [done| |done]. solve_ok.
  - apply damage_inv.
    match goal with |- context [write_cells 0 ?l ?g] => set (g' := write_cells 0 l g) end.
    assert (inv true size (u{{ active -> grid := g' }})) as Hg.
    { apply same_shape_grid_inv; [|done]. etrans; [apply erase_rows_shape|apply write_cells_shape]. }
    clearbody g'. revert Hg. apply active_inv; [done| |done]. solve_ok.
Qed.

Lemma run_input_keeps size i f :
  input_fits i → behind (inv true size) f →
  match run_input i f with
  | Ok _ f' => behind (inv true (size_after size i)) f'
  | Err _ _ => False
  | Panic => True
  end.
Proof.
  intros Hfit Hf.
  assert (∀ m : F (), preserves (behind (inv true size)) m →
    match m f with Ok _ f' => behind (inv true size) f' | Err _ _ => False | Panic => True end) as Hp.
  { intros m Hm. specialize (Hm f Hf). by destruct (m f) as [|[]|]. }
  destruct i as [bytes|bytes|s|limit| | |style]; cbn [run_input size_after].
  - apply Hp, feed_keeps.
  - apply Hp. apply preserves_bind; [apply behind_on, advance_seqno_keeps|]. intros _.
    apply preserves_bind; [apply behind_feed, _|]. intros _.
    apply behind_modify. intros t. apply mark_all_inv.
  - pose proof (resize_spec size s (screen f) Hfit Hf) as Hr.
    unfold on_screen, zoom, mbind, M_bind.
    destruct (resize s (screen f)) as [o t'| |]; [exact (resized_inv _ _ _ _ _ Hr)|done|done].
  - apply Hp, behind_on, limit_keeps.
  - apply Hp, behind_on, erase_all_keeps.
  - apply Hp, behind_on, preserves_seq; [apply advance_seqno_keeps|].
    apply preserves_modify. intros t. apply mark_all_inv.
  - apply Hp, behind_modify. intros t Hi. apply default_cursor_style_inv. by eapply other_inv, Hi.
Qed.

Lemma run_inputs_keep size inputs f :
  Forall input_fits inputs → behind (inv true size) f →
  match iterM run_input inputs f with
  | Ok _ f' => behind (inv true (foldl size_after size inputs)) f'
  | Err _ _ => False
  | Panic => True
  end.
Proof.
  intros Hfit. revert size f. induction Hfit as [|i l Hi Hl IH]; intros size f Hf; [exact Hf|].
  cbn [iterM foldl]. unfold mbind, M_bind. pose proof (run_input_keeps size i f Hi Hf) as Hr.
  destruct (run_input i f) as [[] f'| |]; [by apply IH|done|done].
Qed.

(** C2. Whatever bytes a terminal is fed, in whatever pieces, and however it
    is resized, limited and cleared in between, if all of it returns: afterwards every row of both
    screens has exactly the current width and there are as many rows as the
    current height; on the screen that is shown, the cursor is
    on the screen and both pairs of margins are ordered and inside
    it; the tab stops are increasing and inside it, and the scrollback is
    within its limit. Of a main screen behind the alternate one only the rows
    are claimed: a resize leaves its margins to the moment it is shown. *)
Theorem terminal_stays_well_formed size style g inputs f' :
  fits_u16 size → Forall input_fits inputs →
  iterM run_input inputs (fresh_feeder size style g) = Ok () f' →
  inv true (foldl size_after size inputs) (screen f').
Proof.
  intros Hs Hfit Hrun. pose proof (run_inputs_keep size inputs (fresh_feeder size style g) Hfit) as H.
  rewrite Hrun in H. apply H. by apply new_inv.
Qed.

(** C27. Resizing is total and leaves a well-formed terminal of the requested
    size (at least one column), whichever screen is shown and however the
    text reflows; the margins of the shown screen cover all of it, and the
    outcome tells whether the rows, the columns or nothing changed and which
    screen was shown. It panics only when the sequence number or the stable
    row counter is exhausted. *)
Theorem resize_well_formed old size t :
  fits_u16 size → inv true old t →
  match resize size t with
  | Ok outcome t' =>
      let size' := mkTerminalSize (size_columns size `max` 1) (size_rows size) in
      inv true size' t' ∧ margins_reset size' (active t') ∧ outcome_fits old size' t outcome
  | Err _ _ => False
  | Panic => (usize_max < seqno t + 1)%Z ∨
      ∃ res, reflow_of (mkTerminalSize (size_columns size `max` 1) (size_rows size))
               (t{{ seqno := (seqno t + 1)%Z }}) = Some res ∧ (isize_max < reflow_rows old res t)%Z
  end.
Proof.
  intros Hu Hi. pose proof (resize_spec old size t Hu Hi) as Hr.
  destruct (resize size t); [by destruct Hr|done|done].
Qed.
End inputs.

(** ** The terminal behind the feed layer *)

Section laws.
  Context `{Ext : External} `{Gfx : Graphics} `{HG : !GraphicsLaws}.

#[export] Instance terminal_laws : PerformerLaws Terminal.
Proof using HG.
  intros t. unfold finish_run. simpl. unfold finish_text_run, call, call_reply.
  destruct (graphics_call FinishPendingPlaceholder (graphics_view t) (shared t) (graphics (active t))
    (graphics <$> main_screen t)) as [[[r k] g] d] eqn:Hg.
  set (v := t{{ shared := k; active -> graphics := g; main_screen := with_dormant d (main_screen t) }}).
  set (u := foldl (λ t d, record_damage d t) v (reply_damage r)). cbn [snd].
  assert (shared u = k ∧ graphics (active u) = g) as [Hk Hs].
  { assert (∀ l v, shared (foldl (λ t d, record_damage d t) v l) = shared v ∧
      active (foldl (λ t d, record_damage d t) v l) = active v) as Hf.
    { clear. induction l as [|d l IH]; intros v; [done|]. simpl. destruct (IH (record_damage d v)) as [-> ->].
      unfold record_damage. by case_match. }
    unfold u. destruct (Hf (reply_damage r) v) as [-> ->]. done. }
  clearbody u. simpl. rewrite Hk, Hs. erewrite (finish_placeholder_idem _ _ _ _ _ _ _ _ _ Hg). simpl.
  subst. destruct u as [[] [[]|]]; reflexivity.
Qed.
End laws.

(** ** Concrete terminals *)

Definition esc (s : string) : list Z := 27%Z :: lit s.

Definition sample_inputs : list TerminalInput :=
  [Feed (lit "one" ++ [13; 10]%Z ++ lit "two" ++ [13; 10; 228; 184; 173]%Z ++ esc "[2;3r" ++ esc "[?1049h");
   Resize (mkTerminalSize 4 2); Feed (lit "wrapping text" ++ esc "[?1049l" ++ lit "main");
   SetScrollbackLimit 1; EraseScrollbackAndViewport].

Ltac each tac := repeat first [apply Forall_nil_2 | apply Forall_cons_2; [solve [tac]|]].

Definition fresh_sample : Feeder Terminal :=
  fresh_feeder (Gfx := no_graphics) (mkTerminalSize 6 3) SteadyBlock ().

Lemma terminal_stays_well_formed_witness :
  ∃ f', iterM run_input sample_inputs fresh_sample = Ok () f' ∧
    inv true (mkTerminalSize 4 2) (screen f').
Proof.
  exists (after (iterM run_input sample_inputs) fresh_sample).
  split; [vm_compute; reflexivity|].
  apply (terminal_stays_well_formed (Gfx := no_graphics) (mkTerminalSize 6 3) SteadyBlock () sample_inputs).
  - split; simpl; unfold u16_max; lia.
  - each ltac:(simpl; first [exact I|split; simpl; unfold u16_max; lia]).
  - vm_compute. reflexivity.
Defined.

Lemma sample_inv columns rows :
  columns ≤ 100 → rows ≤ 100 → inv true (mkTerminalSize columns rows) (screen (small_terminal columns rows)).
Proof. intros. apply new_inv. split; simpl; unfold u16_max; lia. Qed.

Lemma resize_well_formed_witness :
  match resize (mkTerminalSize 0 5) (screen (small_terminal 6 3)) with
  | Ok outcome t' =>
      inv true (mkTerminalSize 1 5) t' ∧ margins_reset (mkTerminalSize 1 5) (active t') ∧ outcome = MainScreenReflowed
  | _ => False
  end.
Proof.
  pose proof (resize_well_formed (mkTerminalSize 6 3) (mkTerminalSize 0 5) (screen (small_terminal 6 3))
    ltac:(split; simpl; unfold u16_max; lia) ltac:(by apply sample_inv; lia)) as H.
  assert (match resize (mkTerminalSize 0 5) (screen (small_terminal 6 3)) with Ok _ _ => True | _ => False end) as Hok
    by (vm_compute; exact I).
  destruct (resize _ _); [|done|done]. destruct H as (H1 & H2 & H3).
  split; [exact H1|]. split; [exact H2|]. apply (fits_main _ _ _ _ H3). split; [simpl; lia|vm_compute; reflexivity].
Defined.

Definition sample_text : rstring := lit "A" ++ [20013; 27]%Z ++ lit "[1mB" ++ [233; 155]%Z ++ lit "2Jx".

(** A character cut in three, and a control sequence cut in two; its first
    byte is pending already. *)
Definition sample_chunks : list (list Z) :=
  [take 1 (drop 2 (encode sample_text)); take 6 (drop 3 (encode sample_text)); []; drop 9 (encode sample_text)].
Definition waiting_terminal : Feeder Terminal :=
  match feed_at_current_seqno (take 2 (encode sample_text)) (small_terminal 6 3) with
  | Ok _ f => f
  | _ => small_terminal 6 3
  end.

Lemma feed_any_chunks_witness :
  pending_utf8 waiting_terminal = [228]%Z ∧
  iterM feed_at_current_seqno sample_chunks waiting_terminal =
    feed_at_current_seqno (concat sample_chunks) waiting_terminal.
Proof.
  split; [vm_compute; reflexivity|].
  apply (feed_any_chunks (drop 1 sample_text)); [vm_compute; reflexivity| | |vm_compute; reflexivity|done].
  - exists 20013%Z, 1%nat. vm_compute pending_utf8. split_and!; [unfold scalar; lia|vm_compute; lia|vm_compute; reflexivity].
  - let x := eval vm_compute in (drop 1 sample_text) in change (Forall scalar x).
    each ltac:(unfold scalar; lia).
Defined.

Lemma plain_text_always_prints_witness :
  ∃ f', feed (lit "hello world" ++ [13; 10; 9; 8; 7]%Z) (small_terminal 6 3) = Ok () f' ∧
    inv true (mkTerminalSize 6 3) (screen f').
Proof.
  apply (plain_text_always_prints (mkTerminalSize 6 3)); try done.
  - by apply sample_inv; lia.
  - match goal with |- Forall ?P ?l => let x := eval vm_compute in l in change (Forall P x) end.
    each ltac:(lia).
Defined.

(** A screen with history, then three more lines: rows 3 and up are new, the
    line with stable number 1 is in the history now and shows what it showed
    on the screen. *)
Definition page : Feeder Terminal := after (feed (lit "one" ++ [13; 10]%Z ++ lit "two" ++ [13; 10]%Z ++ lit "three")) (small_terminal 6 3).
Definition more : list Z := [13; 10]%Z ++ lit "four" ++ [13; 10]%Z ++ lit "five".

Lemma sample_feed_inv bytes : inv true (mkTerminalSize 6 3) (screen (after (feed bytes) (small_terminal 6 3))).
Proof.
  pose proof (feed_keeps (mkTerminalSize 6 3) bytes (small_terminal 6 3)) as H. unfold after.
  destruct (feed _ _) as [[] f'|[]|]; [|by apply sample_inv; lia]. apply H. by apply sample_inv; lia.
Qed.

Lemma unreported_rows_unchanged_witness :
  changed_stable_rows_since (0, 10)%Z (seqno (screen page)) (screen (after (feed more) page)) = Some [3; 4]%Z ∧
  stable_row_view 1 (screen (after (feed more) page)) = stable_row_view 1 (screen page) ∧
  is_Some (stable_row_view 1 (screen page)).
Proof.
  split; [vm_compute; reflexivity|]. split; [|by vm_compute; eexists].
  apply (unreported_rows_unchanged (mkTerminalSize 6 3) more page (after (feed more) page) (0, 10)%Z [3; 4]%Z 1%Z).
  - apply sample_feed_inv.
  - vm_compute. reflexivity.
  - vm_compute. reflexivity.
  - by vm_compute; eexists.
  - vm_compute. reflexivity.
  - simpl. lia.
  - vm_compute. intros H. by repeat (apply elem_of_cons in H as [H|H]; [discriminate|]); apply not_elem_of_nil in H.
  - by vm_compute; eexists.
Defined.

Definition enter_leave (bytes : list Z) : M Empty_set (Feeder Terminal) () :=
  on_screen (set_alternate_screen true);; feed bytes;; on_screen (set_alternate_screen false).

Lemma alternate_screen_round_trip_witness :
  plain (active (screen (after (enter_leave (lit "full screen" ++ esc "[2;2r" ++ esc "[H")) page))) =
    plain (active (screen page)).
Proof.
  set (bytes := lit "full screen" ++ esc "[2;2r" ++ esc "[H").
  set (f1 := after (on_screen (set_alternate_screen true)) page).
  set (f2 := after (feed bytes) f1).
  set (f3 := after (on_screen (set_alternate_screen false)) f2).
  assert (after (enter_leave bytes) page = f3) as -> by (vm_compute; reflexivity).
  apply (alternate_screen_round_trip (mkTerminalSize 6 3) bytes page f1 f2 f3).
  - apply sample_feed_inv.
  - vm_compute. reflexivity.
  - vm_compute. lia.
  - vm_compute. lia.
  - vm_compute. reflexivity.
  - vm_compute. reflexivity.
  - vm_compute. reflexivity.
  - vm_compute. reflexivity.
Defined.

(** ** A hang *)

(** "A" on the first line, a wide character on the second; the region
    between columns 2 and 5 scrolls up, so that the second half of the wide
    character lands next to the "A"; margins off, cursor home. *)
Definition cut_wide_character : list Z :=
  lit "A" ++ [13; 10; 228; 184; 173]%Z ++ esc "[?69h" ++ esc "[2;5s" ++ esc "[S" ++ esc "[?69l" ++ esc "[H".

Definition cut_terminal : Feeder Terminal := after (feed cut_wide_character) (small_terminal 6 3).

(** C38. Output can hang the terminal: after the 30 bytes of
    [cut_wide_character] the loop of [CSI 2 P] (delete two characters) never
    ends, whatever number of rounds it is given. *)
Theorem delete_characters_can_hang fuel :
  feed cut_wide_character (small_terminal 6 3) = Ok () cut_terminal ∧
  grapheme_aligned_delete_range fuel 2 (Screen.character_right_boundary (active (screen cut_terminal)))
    (active (screen cut_terminal)) = None.
Proof.
  split; [vm_compute; reflexivity|].
  assert (Screen.grapheme_leader_column (cursor_column (active (screen cut_terminal)))
    (active (screen cut_terminal)) = 0) as Hl by (vm_compute; reflexivity).
  assert (cursor_column (active (screen cut_terminal)) = 0) as Hc by (vm_compute; reflexivity).
  assert (Screen.character_right_boundary (active (screen cut_terminal)) = 5) as Hr by (vm_compute; reflexivity).
  unfold grapheme_aligned_delete_range. rewrite Hl, Hc, Hr.
  replace ((sat_add 0 2 `min` sat_add 5 1) `max` 0) with 2 by (unfold sat_add, u16_max; lia).
  destruct (delete_loop_diverges fuel 5 0 2 (active (screen cut_terminal))
    (Cell.with_char 65) (Cell.set_continuation 1 Cell.default)) as [-> _]; [..|reflexivity].
  - vm_compute. reflexivity.
  - vm_compute. reflexivity.
  - vm_compute. reflexivity.
  - vm_compute. reflexivity.
  - vm_compute. reflexivity.
  - lia.
  - unfold sat_add, u16_max. lia.
  - unfold u16_max. lia.
  - lia.
Qed.

(** On that very row, once repaired, deletion ends. *)
Lemma edits_repair_and_deletion_ends_witness :
  let t := erase_characters 1 (screen cut_terminal) in
  row_whole 0 (active t) ∧ ∃ t', delete_characters 2 t = Ok () t'.
Proof.
  assert (inv true (mkTerminalSize 6 3) (screen cut_terminal)) as Hi by apply sample_feed_inv.
  intros t. assert (row_whole 0 (active t)) as Hw.
  { destruct (edits_repair_and_deletion_ends (mkTerminalSize 6 3) 1 (screen cut_terminal) Hi) as [H1 _]; [simpl; lia..|].
    change (row_whole (cursor_row (active (screen cut_terminal))) (active t)) in H1.
    assert (cursor_row (active (screen cut_terminal)) = 0) as Hr by (vm_compute; reflexivity). by rewrite Hr in H1. }
  split; [exact Hw|].
  destruct (edits_repair_and_deletion_ends (mkTerminalSize 6 3) 2 t) as (_ & _ & H); [by apply erase_characters_inv|simpl; lia..|].
  apply H; [vm_compute; reflexivity|]. assert (cursor_row (active t) = 0) as -> by (vm_compute; reflexivity). exact Hw.
Defined.

(** ** Margins after a resize *)

(** Enter the alternate screen, grow the window, leave it, print lines. *)
Definition grow_in_alternate : M Empty_set (Feeder Terminal) () :=
  on_screen (set_alternate_screen true);; (on_screen (resize (mkTerminalSize 8 5));; mret ());;
  on_screen (set_alternate_screen false).

Definition ten_lines : list Z := concat (replicate 10 (lit "line" ++ [13; 10]%Z)).

(** Growing the window while the alternate screen is shown leaves the
    main screen with the margins of the old size: its bottom margin and
    right margin stay at the third row and sixth column of an 8 by 5 screen,
    and ten lines printed afterwards leave no scrollback, while the same
    resize and lines on the main screen leave six lines of it. *)
Theorem resize_in_alternate_keeps_old_margins :
  let stale := after grow_in_alternate (small_terminal 6 3) in
  let direct := after (on_screen (resize (mkTerminalSize 8 5))) (small_terminal 6 3) in
  screen_size (screen stale) = mkTerminalSize 8 5 ∧ screen_size (screen direct) = mkTerminalSize 8 5 ∧
  (scroll_bottom (active (screen stale)), right_margin (active (screen stale))) = (2, 5) ∧
  (scroll_bottom (active (screen direct)), right_margin (active (screen direct))) = (4, 7) ∧
  history_len (screen (after (feed ten_lines) stale)) = 0 ∧
  history_len (screen (after (feed ten_lines) direct)) = 6.
Proof. vm_compute. repeat split. Qed.
