(* ===== verification/GraphicsTrace.v ===== *)
(** What the terminal does with its graphics fields: it calls the graphics
    code for the screen it shows or for the dormant one, saves the fields of
    the main screen when it enters the alternate screen, and brings them back
    or drops them when it leaves. Every operation, and so every input, is a
    sequence of these steps, whatever graphics code stands behind the
    interface. *)
From coqutil Require Import Datatypes.RecordSetters.
From S2P Require Import Prelude Text Grid Csi Parse Reflow Utf8 Feed Screen Scroll Edit Control.
From S2P Require Import ScreenFacts TerminalInv TerminalKeeps ControlKeeps TerminalProps.
Import DoubleBraceUpdate.

Create HintDb trace.

Section trace.
  Context `{Ext : External} `{Gfx : Graphics}.
  Abbreviation TM := (M Empty_set Terminal).
  Implicit Types (t : Terminal) (s : ScreenState).

(** The fields the graphics code works on. *)
Definition GraphicsFields : Type := shared_graphics * screen_graphics * option screen_graphics.

Definition graphics_fields t : GraphicsFields :=
  (shared t, graphics (active t), graphics <$> main_screen t).

Definition dormant_after (d d' : option screen_graphics) : option screen_graphics :=
  match d, d' with Some _, Some g => Some g | _, _ => d end.

Inductive graphics_step : GraphicsFields → GraphicsFields → Prop :=
| step_call c v k g d r k' g' d' :
    graphics_call c v k g d = (r, k', g', d') →
    graphics_step (k, g, d) (k', g', dormant_after d d')
| step_dormant c v k g x r k' x' e :
    graphics_call c v k x None = (r, k', x', e) →
    graphics_step (k, g, Some x) (k', g, Some x')
| step_enter k g : graphics_step (k, g, None) (k, g, Some g)
| step_leave k g x : graphics_step (k, g, Some x) (k, x, None)
| step_drop k g x : graphics_step (k, g, Some x) (k, g, None).

Context (g0 : GraphicsFields).

Definition traced t : Prop := rtc graphics_step g0 (graphics_fields t).

(** ** Rules *)

Lemma t_same t t' : graphics_fields t' = graphics_fields t → traced t → traced t'.
Proof. unfold traced. by intros ->. Qed.

Lemma t_step t t' : graphics_step (graphics_fields t) (graphics_fields t') → traced t → traced t'.
Proof. intros Hs Ht. by eapply rtc_r. Qed.

Lemma t_damage d t : traced t → traced (record_damage d t).
Proof. apply t_same. unfold record_damage. by case_match. Qed.

Lemma t_damage_screen t : traced t → traced (damage_screen t).
Proof. apply t_damage. Qed.

Lemma t_foldl {A} (f : Terminal → A → Terminal) l t :
  (∀ t a, traced t → traced (f t a)) → traced t → traced (foldl f t l).
Proof. intros Hf. revert t. induction l; simpl; auto. Qed.

Lemma t_reply c t : traced t → traced (call_reply c t).2.
Proof.
  intros Ht. unfold call_reply. destruct (graphics_call c _ _ _ _) as [[[r k] g] d] eqn:Hc. cbn [snd].
  apply t_foldl; [intros; by apply t_damage|]. revert Ht. apply t_step.
  replace (graphics_fields (t{{ shared := k; active -> graphics := g;
      main_screen := with_dormant d (main_screen t) }}))
    with (k, g, dormant_after (graphics <$> main_screen t) d) by (by destruct t as [? []], d).
  by eapply step_call.
Qed.

Lemma t_call c t : traced t → traced (call c t).
Proof. apply t_reply. Qed.

Lemma t_flag c t : traced t → traced (call_flag c t).2.
Proof. intros Ht%(t_reply c). unfold call_flag. by destruct (call_reply c t). Qed.

Lemma t_dormant c t : traced t → traced (call_dormant c t).
Proof.
  intros Ht. unfold call_dormant. destruct (main_screen t) as [s|] eqn:Hm; [|done].
  destruct (graphics_call c _ _ _ _) as [[[r k] g] e] eqn:Hc.
  apply t_foldl; [intros; by apply t_damage|]. revert Ht. apply t_step.
  unfold graphics_fields. simpl. rewrite Hm. simpl. by eapply step_dormant.
Qed.

Lemma t_on f t : (∀ s, graphics (f s) = graphics s) → traced t → traced (on_active f t).
Proof. intros Hf. apply t_same. unfold graphics_fields. simpl. by rewrite Hf. Qed.

Lemma cells_graphics s s' : cells_only s s' → graphics s' = graphics s.
Proof. by intros [-> _]. Qed.

Lemma t_cells f t : (∀ s, cells_only s (f s)) → traced t → traced (on_active f t).
Proof. intros Hf. apply t_on. intros s. apply cells_graphics, Hf. Qed.

Lemma t_frame t t' : cells_frame t t' → traced t → traced t'.
Proof.
  intros [H1 H2]. apply t_same. rewrite H1. unfold graphics_fields. simpl. by rewrite (cells_graphics _ _ H2).
Qed.

Lemma t_touch l t : traced t → traced (touch_rows l t).
Proof. apply t_frame, touch_rows_frame. Qed.

Lemma t_modify f : (∀ t, traced t → traced (f t)) → preserves traced (modify f : TM ()).
Proof. apply preserves_modify. Qed.

Hint Resolve t_call t_flag t_reply t_dormant t_damage t_damage_screen t_touch : trace.

(** Fields other than the graphics fields. *)
Ltac rest := intros; eapply t_same; [|eassumption]; repeat case_match; done.

(** ** History and scrolling *)

Lemma t_rebase n t : traced t → traced (rebase_inline_images_after_history_prune n t).
Proof. intros Ht. unfold rebase_inline_images_after_history_prune. repeat case_match; auto 10 with trace. Qed.

Lemma t_prune n : preserves traced (prune_scrollback_rows n).
Proof.
  apply preserves_get. intros t Ht. destruct (evict_front n (scrollback t)) as [rows h]. next_let.
  next_if; [apply preserves_put; by apply (t_same t)|].
  apply preserves_bind; [apply preserves_expect|]. intros k.
  apply preserves_bind; [apply preserves_expect|]. intros o. do 2 next_let. apply preserves_put.
  assert (traced t2) as H by (apply t_rebase; by apply (t_same t)). revert H. clearbody t2. rest.
Qed.

Lemma t_trim : preserves traced trim_scrollback_to_limit.
Proof. apply preserves_get. intros t Ht. next_if; [apply t_prune|apply preserves_ret]. Qed.

Lemma t_shift start n t : traced t → traced (shift_suffix_metadata_for_recorded_rows start n t).
Proof.
  intros Ht. unfold shift_suffix_metadata_for_recorded_rows. case_decide; [done|].
  apply t_call. by apply (t_same t).
Qed.

Hint Resolve t_shift : trace.

Lemma t_scroll_up_region top bottom count : preserves traced (scroll_up_region_by top bottom count).
Proof.
  apply preserves_get. intros t Ht. next_if; [apply preserves_ret|]. do 4 next_let.
  assert (traced t0) as H0 by (unfold t0; repeat case_match; auto with trace).
  clearbody t0. next_let. apply preserves_seq.
  - next_if.
    + destruct (TerminalGrid.scroll_up_rows _ _ _ _ _ _) as [exiting g].
      apply preserves_seq; [apply preserves_put; by apply (t_same t0)|apply t_trim].
    + apply preserves_put. by apply (t_same t0).
  - apply preserves_seq; apply t_modify; auto with trace.
Qed.

Lemma t_scroll_down_region top bottom count t : traced t → traced (scroll_down_region top bottom count t).
Proof.
  intros Ht. unfold scroll_down_region. case_decide; [done|].
  match goal with |- context [call ?c (call ?d t)] => set (t1 := call c (call d t)) end.
  assert (traced t1) as H1 by (unfold t1; auto with trace). clearbody t1.
  apply t_damage, t_touch. by apply (t_same t1).
Qed.

Lemma t_bounded_scroll top bottom first last tr f t :
  (∀ t, traced t → traced (f t)) → traced t → traced (bounded_scroll top bottom first last tr f t).
Proof.
  intros Hf Ht. unfold bounded_scroll.
  pose proof (t_flag (RetireMalformedGraphics top bottom first last) t Ht) as H1.
  destruct (call_flag _ t) as [b1 t1]. simpl in H1.
  pose proof (t_flag (ApplyCellTransform tr) t1 H1) as H2.
  destruct (call_flag _ t1) as [b2 t2]. simpl in H2. case_match; auto with trace.
Qed.

Lemma t_scroll_down_margins top bottom count t :
  traced t → traced (scroll_down_with_horizontal_margins top bottom count t).
Proof.
  intros Ht. unfold scroll_down_with_horizontal_margins. case_decide; [done|].
  destruct (Screen.bounded_horizontal_scroll_columns (active t)) as [[first last]|];
    [|by apply t_scroll_down_region].
  apply t_bounded_scroll; [|done]. unfold scroll_down_bounded_cells. rest.
Qed.

Lemma t_scroll_up_margins top bottom count : preserves traced (scroll_up_with_horizontal_margins top bottom count).
Proof.
  apply preserves_get. intros t Ht. next_if; [apply preserves_ret|]. next_if; [|apply t_scroll_up_region].
  destruct p as [first last]. apply t_modify. intros u Hu. apply t_bounded_scroll; [|done].
  unfold scroll_up_bounded_cells. rest.
Qed.

(** ** Line feeds *)

Lemma semantic_graphics s : graphics (Screen.clear_semantic_type_due_to_movement s) = graphics s.
Proof. unfold Screen.clear_semantic_type_due_to_movement. by case_match. Qed.

Lemma t_move_to_row row w t : traced t → traced (move_to_row row w t).
Proof.
  apply t_on. intros s. rewrite semantic_graphics.
  by rewrite (cells_graphics _ _ (cells_only_wrapped (seqno t) row w (s{{ cursor_row := row }}))).
Qed.

Hint Resolve t_move_to_row t_scroll_down_margins : trace.

Lemma t_index_down w : preserves traced (index_down w).
Proof.
  apply preserves_seq; [apply t_modify; rest|]. apply preserves_get. intros t Ht.
  next_if; [apply preserves_ret|]. next_if.
  - apply preserves_seq; [apply t_scroll_up_margins|apply t_modify; auto with trace].
  - apply t_modify. auto with trace.
Qed.

Lemma t_index_down_outside w t : traced t → traced (index_down_outside_horizontal_margins w t).
Proof.
  intros Ht. unfold index_down_outside_horizontal_margins.
  assert (traced (t{{ active -> pending_wrap := false }})) by (by apply (t_same t)).
  case_decide; auto with trace.
Qed.

Hint Resolve t_index_down_outside : trace.

Lemma t_newline : preserves traced newline.
Proof. apply preserves_seq; [apply t_modify; rest|apply t_index_down]. Qed.

Lemma t_line_feed : preserves traced line_feed.
Proof.
  apply preserves_get. intros t Ht. next_if; [apply t_index_down|]. apply t_modify. auto with trace.
Qed.

Lemma t_wrapped_newline : preserves traced wrapped_newline.
Proof.
  apply preserves_get. intros t Ht. next_if.
  - apply t_modify. intros u Hu. apply t_index_down_outside. by apply (t_same u).
  - apply preserves_seq; [apply t_modify; rest|apply t_index_down].
Qed.

Lemma t_next_line : preserves traced next_line.
Proof.
  apply preserves_get. intros t Ht. next_let. apply preserves_seq.
  - apply t_modify. intros u. apply t_on. intros s. by case_match.
  - next_if; [apply t_index_down|]. apply t_modify. auto with trace.
Qed.

Lemma t_reverse_index t : traced t → traced (reverse_index t).
Proof.
  intros Ht. unfold reverse_index. case_match; [done|].
  assert (traced (t{{ active -> pending_wrap := false }})) by (by apply (t_same t)).
  case_decide; [auto with trace|].
  apply t_on; [apply semantic_graphics|]. case_decide.
  - match goal with |- context [scroll_down_with_horizontal_margins ?a ?b ?c ?u] =>
      apply (t_same (scroll_down_with_horizontal_margins a b c u)); [done|auto with trace] end.
  - by apply (t_same t).
Qed.

Lemma t_insert_lines n t : traced t → traced (insert_lines n t).
Proof.
  intros Ht. unfold insert_lines.
  assert (traced (t{{ active -> pending_wrap := false }})) by (by apply (t_same t)).
  repeat case_match; auto with trace.
Qed.

Lemma t_scroll_down n t : traced t → traced (scroll_down n t).
Proof.
  intros Ht. unfold scroll_down.
  assert (traced (t{{ active -> pending_wrap := false }})) by (by apply (t_same t)).
  repeat case_match; auto with trace.
Qed.

Lemma t_delete_lines n : preserves traced (delete_lines n).
Proof.
  apply preserves_seq; [apply t_modify; rest|]. apply preserves_get. intros t Ht.
  next_if; [apply preserves_ret|]. next_if; [|apply preserves_ret]. destruct p. apply t_scroll_up_margins.
Qed.

Lemma t_scroll_up n : preserves traced (scroll_up n).
Proof.
  apply preserves_seq; [apply t_modify; rest|]. apply preserves_get. intros t Ht.
  next_if; [|apply preserves_ret]. destruct p. apply t_scroll_up_margins.
Qed.

(** ** Editing and printing *)

Lemma t_prepare right transform t :
  traced t → traced (prepare_bounded_character_edit_attachments right transform t).2.
Proof.
  intros Ht. unfold prepare_bounded_character_edit_attachments.
  destruct transform as [tr|], (bool_decide _); try done.
  - pose proof (t_call (TransformPlaceholders tr) t Ht) as H0.
    set (u := call (TransformPlaceholders tr) t) in *.
    match goal with |- context [call_flag ?c u] => pose proof (t_flag c u H0) as H1;
      destruct (call_flag c u) as [f1 u1] end.
    match goal with |- context [call_flag ?c u1] => pose proof (t_flag c u1 H1) as H2;
      destruct (call_flag c u1) as [f2 u2] end. done.
  - match goal with |- context [call_flag ?c t] => pose proof (t_flag c t Ht);
      by destruct (call_flag c t) end.
Qed.

Lemma t_finish_edit right flags t : traced t → traced (finish_character_edit right flags t).
Proof. intros. unfold finish_character_edit. case_match; auto with trace. Qed.

Lemma t_insert_boundary n right tr t :
  traced t → traced (insert_blank_characters_with_right_boundary n right tr t).
Proof.
  intros Ht. unfold insert_blank_characters_with_right_boundary. case_decide; [done|].
  match goal with |- context [prepare_bounded_character_edit_attachments ?r ?x t] =>
    pose proof (t_prepare r x t Ht) as Hp;
    destruct (prepare_bounded_character_edit_attachments r x t) as [flags u] end.
  apply t_finish_edit, t_cells; [|exact Hp]. intros. apply character_edit_only.
Qed.

Lemma t_delete_boundary n right t : traced t → traced (delete_characters_with_right_boundary n right t).
Proof.
  intros Ht. unfold delete_characters_with_right_boundary. case_decide; [done|].
  match goal with |- context [prepare_bounded_character_edit_attachments ?r ?x t] =>
    pose proof (t_prepare r x t Ht) as Hp;
    destruct (prepare_bounded_character_edit_attachments r x t) as [flags u] end.
  apply t_finish_edit, t_cells; [|exact Hp]. intros. apply character_edit_only.
Qed.

Lemma t_insert_blank n t : traced t → traced (insert_blank_characters n t).
Proof.
  intros Ht. unfold insert_blank_characters.
  case_match; [|apply t_insert_boundary]; by apply (t_same t).
Qed.

Lemma t_insert_for_write n t : traced t → traced (insert_blank_characters_for_write n t).
Proof. intros Ht. apply t_insert_boundary. by apply (t_same t). Qed.

Lemma t_delete_characters n : preserves traced (delete_characters n).
Proof.
  apply preserves_seq; [apply t_modify; rest|]. apply preserves_get. intros t Ht.
  next_if; [apply preserves_ret|]. next_let. apply preserves_bind; [apply preserves_expect|].
  intros [start k]. apply t_modify. intros u Hu. apply t_delete_boundary. by apply (t_same u).
Qed.

Lemma t_erase_characters n t : traced t → traced (erase_characters n t).
Proof.
  intros Ht. unfold erase_characters.
  assert (traced (t{{ active -> pending_wrap := false }})) by (by apply (t_same t)).
  case_decide; [done|]. apply t_damage, t_cells; [|done]. intros s.
  etrans; [apply fill_blank_only|apply cells_only_sanitize].
Qed.

Lemma t_clear_cell sel row source column t : traced t → traced (clear_cell sel row source column t).
Proof.
  intros Ht. unfold clear_cell. case_match; [done|].
  apply t_cells; [intros; apply cells_only_set|]. destruct sel; auto with trace.
Qed.

Lemma t_clear_cells row c1 c2 sel t : traced t → traced (clear_cells row c1 c2 sel t).
Proof.
  intros Ht. unfold clear_cells. case_decide; [done|]. case_decide; [done|]. apply t_damage.
  match goal with |- traced (if _ then on_active _ ?u else _) => assert (traced u) as Hu end.
  { apply t_cells; [intros; apply cells_only_sanitize|].
    apply t_foldl; [intros; by apply t_clear_cell|]. destruct sel; auto with trace. }
  case_decide; [|exact Hu]. apply t_cells; [|exact Hu]. intros. apply cells_only_wrapped.
Qed.

Lemma t_clear_rows rows sel t : traced t → traced (clear_rows rows sel t).
Proof. apply t_foldl. intros. by apply t_clear_cells. Qed.

Lemma t_counter (read : Terminal → Z) limit step set :
  (∀ n t, graphics_fields (set n t) = graphics_fields t) →
  preserves traced (t ← get_state; n ← expect (checked_add limit (read t) step); put_state (set n t) : TM ()).
Proof.
  intros Hset. apply preserves_get. intros t Ht. apply preserves_bind; [apply preserves_expect|].
  intros n. apply preserves_put. by apply (t_same t).
Qed.

Lemma t_bump : preserves traced bump_screen_identity_generation.
Proof. by apply (t_counter _ _ _ (λ n t, t{{ screen_identity_generation := n }})). Qed.

Lemma t_advance_seqno : preserves traced advance_seqno.
Proof. by apply (t_counter _ _ _ (λ n t, t{{ seqno := n }})). Qed.

Lemma t_erase_display mode sel : preserves traced (erase_display mode sel).
Proof.
  apply preserves_get. intros t Ht. next_if; [apply t_prune|]. next_if; [apply preserves_ret|].
  next_if; [apply t_modify; intros; by apply t_clear_rows, t_clear_cells|].
  next_if; [apply t_modify; intros; by apply t_clear_cells, t_clear_rows|].
  next_if; [|apply preserves_ret]. apply preserves_seq.
  - destruct sel; [apply preserves_ret|apply t_bump].
  - apply t_modify. intros u Hu. destruct sel; [|apply t_call]; by apply t_clear_rows.
Qed.

Lemma t_erase_line mode sel t : traced t → traced (erase_line mode sel t).
Proof. intros Ht. unfold erase_line. case_decide; [done|]. repeat case_match; auto using t_clear_cells. Qed.

Lemma advance_graphics n s : graphics (Screen.advance_cursor n s) = graphics s.
Proof. unfold Screen.advance_cursor. by case_decide. Qed.

Lemma t_extend ch t : traced t → traced (extend_previous_grapheme ch t).2.
Proof.
  intros Ht. unfold extend_previous_grapheme.
  destruct (joins_previous ch (active t)) as [[[[row column] cell] g]|]; [|done].
  case_decide; [done|]. case_decide; [done|]. cbn [snd].
  apply t_on; [intros s; simpl; by rewrite advance_graphics|].
  apply t_damage, t_cells; [|done]. intros s. apply rewrite_grapheme_only.
Qed.

Lemma t_put_character ch width write_width t : traced t → traced (put_character ch width write_width t).
Proof.
  intros Ht. unfold put_character.
  match goal with |- context [history_len ?v + _] =>
    match v with on_active _ _ => set (u := v) end end.
  assert (traced u) as Hu.
  { apply t_cells; [|done]. intros s. apply foldl_preorder; [apply _|].
    intros. apply cells_only_clear_span. }
  clearbody u.
  match goal with |- context [Screen.set_grid_cell ?n ?r ?c ?x ?s] =>
    pose proof (cells_graphics _ _ (cells_only_set n r c x s)) as Hs;
    destruct (Screen.set_grid_cell n r c x s) as [ok s1] end.
  destruct ok; [|done]. simpl in Hs.
  assert (traced (u{{ active := s1 }})) as H1.
  { apply (t_same u); [|done]. unfold graphics_fields. simpl. by rewrite Hs. }
  match goal with |- context [call (ClearPlaceholderCells ?r ?c ?w) ?x] =>
    pose proof (t_call (ClearPlaceholderCells r c w) x H1) as Hv;
    set (v := call (ClearPlaceholderCells r c w) x) in * end.
  clearbody v.
  match goal with |- context [on_active ?f (record_damage ?d ?x)] =>
    assert (traced (on_active f (record_damage d x))) as H3;
    [|destruct (bool_decide (ch = KITTY_UNICODE_PLACEHOLDER)); apply t_call, H3] end.
  apply t_on; [intros s'; apply (advance_graphics write_width s')|]. apply t_damage, t_cells; [|done].
  intros s. case_decide; [|apply write_continuations_only].
  etrans; [apply write_continuations_only|apply overflow_only].
Qed.

Lemma t_write_char ch : preserves traced (write_char ch).
Proof.
  apply preserves_get. intros t Ht. next_if; [apply preserves_ret|].
  pose proof (t_flag (ApplyPlaceholderDiacritic ch0) t Ht) as H1.
  destruct (call_flag (ApplyPlaceholderDiacritic ch0) t) as [d t1]. simpl in H1.
  next_if; [by apply preserves_put|].
  pose proof (t_extend ch0 t1 H1) as H2.
  destruct (extend_previous_grapheme ch0 t1) as [e t2]. simpl in H2.
  next_if; [by apply preserves_put|]. next_let.
  assert (traced t0) as H3 by (subst t0; auto with trace). clearbody t0.
  next_if; [by apply preserves_put|].
  apply preserves_seq; [by apply preserves_put|]. apply preserves_seq.
  { next_if; [apply t_wrapped_newline|]. apply t_modify. rest. }
  apply preserves_get. intros t3 H4. apply preserves_seq.
  { next_if; [apply t_wrapped_newline|apply preserves_ret]. }
  apply preserves_get. intros t4 H5. next_if; [apply preserves_ret|]. next_let.
  apply t_modify. intros t5 H6. apply t_put_character.
  destruct (write_mode (modes (active t5))); [done|by apply t_insert_for_write].
Qed.

Lemma t_repeat n : preserves traced (repeat_previous_character n).
Proof.
  apply preserves_get. intros t Ht. next_if; [|apply preserves_ret].
  apply preserves_iterM. intros _. apply preserves_seq.
  - apply t_modify. rest.
  - apply preserves_iterM. intros ch. apply t_write_char.
Qed.

(** ** The alternate screen and resets *)

Lemma clamp_graphics s : graphics (Screen.clamp_to_size s) = graphics s.
Proof. unfold Screen.clamp_to_size. by repeat (case_decide; simpl). Qed.

Lemma dormant_clamp_graphics size s : graphics (Screen.clamp_screen_state size s) = graphics s.
Proof. unfold Screen.clamp_screen_state. by repeat (case_decide; simpl). Qed.

Lemma t_leave t screen :
  main_screen t = Some screen → traced t →
  traced (t{{ main_screen := None; active := screen }}).
Proof.
  intros Hm. apply t_step. unfold graphics_fields. rewrite Hm. apply step_leave.
Qed.

Lemma t_drop t : traced t → traced (t{{ main_screen := None }}).
Proof.
  intros Ht. destruct (main_screen t) as [s|] eqn:Hm.
  - revert Ht. apply t_step. unfold graphics_fields. rewrite Hm. apply step_drop.
  - apply (t_same t); [|done]. unfold graphics_fields. by rewrite Hm.
Qed.

Lemma t_alternate enabled : preserves traced (set_alternate_screen enabled).
Proof.
  intros t Ht. unfold set_alternate_screen. unfold get_state, mbind at 1, M_bind at 1.
  destruct enabled, (main_screen t) as [main|] eqn:Hm; try done;
    monad; unfold bump_screen_identity_generation, checked_add; monad;
    case_bool_decide; try done; apply t_damage_screen.
  - match goal with |- traced (on_active ?f (call ?c (call ?d ?u))) => assert (traced u) as Hu end.
    { revert Ht. apply t_step. unfold graphics_fields. simpl. rewrite Hm. apply step_enter. }
    match goal with |- traced (on_active ?f ?u) => apply (t_same u); [done|] end. auto with trace.
  - apply t_call. unfold restore_screen_state. apply t_on; [apply clamp_graphics|].
    pose proof (t_leave t main Hm Ht) as Hl. revert Hl. by apply t_same.
Qed.

Lemma t_reset : preserves traced reset_terminal.
Proof.
  apply preserves_seq; [apply t_bump|]. apply preserves_get. intros t Ht. next_let.
  apply preserves_seq; [apply t_prune|]. apply preserves_seq; [apply t_modify; rest|].
  apply preserves_seq; [apply t_modify; auto with trace|]. apply t_modify. intros u Hu.
  apply t_damage_screen. apply t_drop in Hu. revert Hu. by apply t_same.
Qed.

Lemma t_soft_reset : preserves traced soft_reset_terminal.
Proof.
  apply preserves_seq; [apply t_alternate|]. apply t_modify. intros t Ht. apply t_damage_screen.
  match goal with |- context [call ClearKittyGraphics ?x] =>
    assert (traced (call ClearKittyGraphics x)) as Hu by (apply t_call; by apply (t_same t));
    revert Hu; generalize (call ClearKittyGraphics x) end.
  intros u. by apply t_same.
Qed.

Lemma t_alignment t : traced t → traced (screen_alignment_test t).
Proof.
  intros Ht. unfold screen_alignment_test.
  match goal with |- context [seqno ?x] => assert (traced x) as Hu by (by apply (t_same t)) end.
  case_decide; [exact Hu|]. apply t_damage_screen, t_cells; [|exact Hu].
  intros s. apply foldl_preorder; [apply _|]. intros. apply alignment_row_only.
Qed.

(** ** Modes and control functions *)

Lemma t_default_style t : traced t → traced (apply_default_cursor_style t).
Proof. rest. Qed.

Lemma t_reverse_video e t : traced t → traced (set_screen_reverse_video e t).
Proof.
  intros Ht. unfold set_screen_reverse_video. case_match; [done|]. apply t_damage_screen. by apply (t_same t).
Qed.

Lemma t_cursor_shape p t : traced t → traced (set_cursor_shape p t).
Proof.
  intros Ht. unfold set_cursor_shape. destruct (strip_suffix [32%Z] p) as [q|]; [|done].
  destruct (csi_mode q =? 0)%Z; [by apply t_default_style|]. by apply (t_same t).
Qed.

Lemma t_on_m f : (∀ s, graphics (f s) = graphics s) → preserves traced (modify (on_active f) : TM ()).
Proof. intros Hf. apply preserves_modify. intros t. by apply t_on. Qed.

Lemma home_graphics s : graphics (Screen.cursor_home s) = graphics s.
Proof. unfold Screen.cursor_home, Screen.clear_semantic_type_due_to_movement. by case_match. Qed.

Lemma moved_graphics r s : graphics (Screen.moved_from r s) = graphics s.
Proof. unfold Screen.moved_from. case_decide; [done|apply semantic_graphics]. Qed.

Lemma restore_graphics s : graphics (Screen.restore_cursor s) = graphics s.
Proof. unfold Screen.restore_cursor. repeat case_match; done. Qed.

Ltac same_graphics :=
  intros ?s; cbv [Screen.move_cursor_up Screen.move_cursor_down Screen.move_cursor_forward
    Screen.move_cursor_back Screen.move_cursor_next_line Screen.move_cursor_previous_line
    Screen.position_cursor Screen.position_cursor_column Screen.position_cursor_row
    Screen.set_scroll_region Screen.set_left_right_margins Screen.backspace
    Screen.set_origin_mode Screen.set_auto_wrap Screen.set_left_right_margin_mode
    Screen.set_insert_mode Screen.save_cursor Screen.move_forward_tabs Screen.move_backward_tabs];
  repeat case_match; rewrite ?home_graphics, ?moved_graphics, ?restore_graphics; simpl;
  rewrite ?home_graphics, ?moved_graphics; done.

Lemma t_private_mode enabled value : preserves traced (set_private_mode_value enabled value).
Proof.
  unfold set_private_mode_value.
  next_if; [apply t_modify; intros; by apply t_reverse_video|].
  do 2 (next_if; [apply t_on_m; same_graphics|]).
  do 3 (next_if; [apply t_modify; rest|]).
  next_if; [apply t_on_m; same_graphics|].
  do 2 (next_if; [apply t_modify; rest|]).
  next_if; [apply t_alternate|]. next_if; [|apply preserves_ret].
  apply t_on_m. destruct enabled; same_graphics.
Qed.

Lemma t_set_mode params enabled : preserves traced (set_mode params enabled).
Proof.
  unfold set_mode, set_private_mode. case_bool_decide.
  - case_match; [|apply preserves_ret]. apply preserves_iterM. intros. apply t_private_mode.
  - apply t_modify. intros t. apply t_foldl. intros u v Ht. case_match; [|done]. by apply t_on.
Qed.

Lemma t_csi command params : preserves traced (apply_csi command params).
Proof.
  unfold apply_csi.
  next_if; [apply t_modify; intros; by apply t_insert_blank|].
  do 8 (next_if; [apply t_on_m; same_graphics|]).
  next_if; [apply t_modify; intros t; apply t_on; same_graphics|].
  next_if; [apply t_erase_display|].
  next_if; [apply t_modify; intros; by apply t_erase_line|].
  next_if; [apply t_modify; intros; by apply t_insert_lines|].
  next_if; [apply t_delete_lines|].
  next_if; [apply t_delete_characters|].
  next_if; [apply t_scroll_up|].
  next_if; [apply t_modify; intros; by apply t_scroll_down|].
  next_if; [apply t_modify; intros; by apply t_erase_characters|].
  next_if; [apply t_modify; intros t; apply t_on; same_graphics|].
  next_if; [apply t_repeat|].
  next_if; [apply t_on_m; same_graphics|].
  next_if; [apply t_modify; rest|].
  next_if; [apply t_modify; rest|].
  next_if; [next_if; apply t_modify; intros; [unfold set_character_protection; rest|by apply t_cursor_shape]|].
  next_if; [apply t_soft_reset|].
  next_if; [apply t_on_m; same_graphics|].
  next_if; [apply t_modify; unfold apply_window_manipulation; rest|].
  do 2 (next_if; [apply t_set_mode|]).
  do 2 (next_if; [apply t_on_m; same_graphics|]).
  apply t_modify. unfold record_unknown_escape_sequence. rest.
Qed.

(** ** Strings *)

Lemma t_iterm c t : traced t → traced (apply_osc1337_iterm_metadata c t).
Proof.
  intros Ht. unfold apply_osc1337_iterm_metadata.
  case_match; [unfold set_current_working_dir; rest|].
  case_match; [unfold apply_osc1337_set_user_var; rest|].
  case_match; [unfold apply_osc1337_set_badge_format; rest|].
  case_match; [by apply t_call|]. case_match; [|done].
  unfold apply_osc1337_unicode_version, pop_labeled_unicode_version. rest.
Qed.

Lemma t_prompt t : traced t → traced (record_semantic_prompt_row (set_semantic_type Prompt false t)).
Proof.
  intros Ht. assert (traced (set_semantic_type Prompt false t)) as H1 by (by apply (t_same t)).
  revert H1. generalize (set_semantic_type Prompt false t). unfold record_semantic_prompt_row. rest.
Qed.

Lemma t_osc133 c : preserves traced (apply_osc133_semantic_prompt c).
Proof.
  unfold apply_osc133_semantic_prompt. destruct (default _ _) as [marker params].
  next_if.
  { apply preserves_seq; [|apply t_modify; intros; by apply t_prompt].
    apply preserves_get. intros t Ht. next_if; [apply preserves_ret|apply t_newline]. }
  next_if; [apply t_modify; intros; by apply t_prompt|].
  do 3 (next_if; [apply t_modify; rest|]).
  next_if; [|apply preserves_ret]. apply t_modify. unfold record_semantic_command_exit.
  destruct (foldl command_exit_part _ _). rest.
Qed.

Lemma t_titles x t :
  traced t → traced (set_icon_and_window_title x t) ∧ traced (set_icon_title x t) ∧
  traced (set_window_title x t) ∧ traced (set_current_working_dir x t).
Proof.
  intros Ht.
  unfold set_icon_and_window_title, set_icon_title, set_window_title, set_current_working_dir, note_title.
  split_and!; rest.
Qed.

Lemma t_osc_command (o : option (rstring * rstring)) : preserves traced
  match o with
  | None => mret ()
  | Some (command, rest) =>
      if bool_decide (command = lit "0") then modify (set_icon_and_window_title rest)
      else if bool_decide (command = lit "1") then modify (set_icon_title rest)
      else if bool_decide (command = lit "2") then modify (set_window_title rest)
      else if bool_decide (command = lit "7") then modify (set_current_working_dir rest)
      else if bool_decide (command = lit "8") then modify (apply_osc8_hyperlink rest)
      else if bool_decide (command = lit "133") then apply_osc133_semantic_prompt rest
      else if bool_decide (command = lit "1337") then modify (apply_osc1337_iterm_metadata rest)
      else mret ()
  end.
Proof.
  destruct o as [[command args]|]; [|apply preserves_ret].
  do 4 (next_if; [apply t_modify; intros; by apply t_titles|]).
  next_if.
  { apply t_modify. intros t Ht. unfold apply_osc8_hyperlink.
    destruct (split_once 59 args) as [[? uri]|]; [|done]. by apply (t_same t). }
  next_if; [apply t_osc133|].
  next_if; [apply t_modify; intros; by apply t_iterm|apply preserves_ret].
Qed.

Lemma t_osc c : preserves traced (apply_osc_content c).
Proof.
  destruct c as [|z rest]; [apply (t_osc_command (split_once 59 []))|]. unfold apply_osc_content.
  repeat (case_match; try apply (t_osc_command (split_once 59 (_ :: rest)))); apply t_modify; intros;
    by apply t_titles.
Qed.

Lemma t_apc c : preserves traced (apply_apc_content c).
Proof.
  destruct c as [|z rest]; [apply preserves_ret|]. unfold apply_apc_content.
  repeat (case_match; try apply preserves_ret). apply t_modify. intros t Ht.
  pose proof (t_reply (KittyCommand rest) t Ht) as Hr.
  destruct (call_reply _ t) as [r u]. simpl in Hr. destruct (reply_cells r) as [[columns rows]|]; [|done].
  apply t_on; [same_graphics|done].
Qed.

Lemma t_dcs c : preserves traced (apply_dcs_content c).
Proof.
  apply preserves_get. intros t Ht. pose proof (t_reply (SixelContent c) t Ht) as Hr.
  destruct (call_reply _ t) as [r u]. simpl in Hr.
  apply preserves_seq; [by apply preserves_put|].
  next_if; [destruct p as [columns rows]|apply preserves_ret].
  next_if; [apply preserves_ret|]. apply preserves_seq; [apply t_index_down|].
  apply t_modify. intros v Hv. case_match; [|done]. apply t_on; [same_graphics|done].
Qed.

Lemma t_normalize l t : traced t → traced (normalize_marks l t).2.
Proof.
  intros Ht. unfold normalize_marks. case_decide; [done|].
  destruct (nfc_last_printable_cell (active t)) as [[row column]|]; [|done].
  destruct (TerminalGrid.get _ _ _) as [cell|]; [|done].
  case_bool_decide; [done|]. case_bool_decide; [done|]. case_decide; [done|].
  match goal with |- context [Screen.set_grid_cell ?n ?r ?c ?x ?s] =>
    pose proof (cells_graphics _ _ (cells_only_set n r c x s)) as Hs;
    destruct (Screen.set_grid_cell n r c x s) as [ok s'] end.
  simpl in Hs. destruct ok; [|done]. cbn [snd].
  assert (traced (t{{ active := s' }})) as Ha.
  { apply (t_same t); [|done]. unfold graphics_fields. simpl. by rewrite Hs. }
  match goal with |- context [record_damage ?d ?x] =>
    assert (traced (record_damage d x)) as Hb by (by apply t_damage);
    revert Hb; generalize (record_damage d x) end.
  intros u. by apply t_same.
Qed.

#[export] Instance trace_keeps : PerformerKeeps Terminal traced.
Proof.
  split; simpl.
  - intros t Ht%(t_call FinishPendingPlaceholder). unfold finish_text_run. revert Ht. by apply t_same.
  - apply t_csi.
  - apply t_osc.
  - apply t_apc.
  - apply t_dcs.
  - apply preserves_get. intros t Ht. next_if; [apply t_index_down|apply preserves_ret].
  - apply t_next_line.
  - apply t_modify, t_reverse_index.
  - apply t_line_feed.
  - apply t_reset.
  - apply t_alignment.
  - rest.
  - intros t. by apply t_on.
  - intros t. apply t_on, restore_graphics.
  - rest.
  - unfold record_unknown_escape_sequence. rest.
  - rest.
  - intros t. apply t_on. same_graphics.
  - intros t. apply t_on. same_graphics.
  - intros t. by apply t_on.
  - apply t_write_char.
  - intros. by apply t_normalize.
Qed.

(** ** Other inputs *)

Lemma t_feed bytes : preserves (behind traced) (feed bytes).
Proof. apply preserves_bind; [apply behind_on, t_advance_seqno|]. intros _. apply behind_feed, _. Qed.

Lemma t_mark_all t : traced t → traced (mark_all_lines_changed_at_current_seqno t).
Proof.
  intros Ht. unfold mark_all_lines_changed_at_current_seqno. apply t_touch.
  case_match; [done|]. by apply (t_same t).
Qed.

Lemma t_reflow_outcome size n : preserves traced (apply_main_reflow_outcome size n).
Proof.
  apply preserves_get. intros t Ht. apply preserves_bind; [apply preserves_expect|]. intros o. next_let.
  assert (traced t0) as H0 by (by apply (t_same t)). clearbody t0.
  next_if.
  - next_let. apply preserves_put. apply (t_same t1); [|unfold t1; auto with trace].
    unfold graphics_fields. simpl. by destruct (main_screen t1).
  - next_let. apply preserves_put. apply (t_same t1); [done|unfold t1; auto with trace].
Qed.

Lemma t_resize_reflow old size : preserves traced (resize_reflow old size).
Proof.
  apply preserves_get. intros t Ht. next_let. apply preserves_seq; [|apply t_trim].
  next_if.
  - next_let. apply preserves_bind; [apply preserves_expect|]. intros res.
    apply preserves_seq; [apply preserves_put; apply (t_same t); [|done]|apply t_reflow_outcome].
    unfold graphics_fields. simpl. by rewrite Heqo.
  - apply preserves_bind; [apply preserves_expect|]. intros res.
    apply preserves_seq; [apply preserves_put; by apply (t_same t)|apply t_reflow_outcome].
Qed.

Lemma t_rows_only size t : traced t → traced (resize_rows_only size t).
Proof.
  apply t_same. unfold graphics_fields, resize_rows_only. simpl. f_equal.
  destruct (main_screen t) as [s|]; [|done]. simpl. f_equal. by rewrite dormant_clamp_graphics.
Qed.

Lemma whole_region_graphics size s :
  graphics (s{{ scroll_top := 0; scroll_bottom := size_rows size - 1;
                left_margin := 0; right_margin := size_columns size - 1 }}) = graphics s.
Proof. done. Qed.

Lemma t_finish_resize size t : traced t → traced (finish_resize size t).
Proof.
  intros Ht. unfold finish_resize.
  match goal with |- context [call ?c (call_dormant ?d t)] =>
    assert (traced (call c (call_dormant d t))) as H1 by auto with trace;
    revert H1; generalize (call c (call_dormant d t)) end.
  intros v Hv. apply t_damage, t_on.
  - intros s. rewrite whole_region_graphics. apply clamp_graphics.
  - by apply (t_same v).
Qed.

Lemma t_resize size : preserves traced (resize size).
Proof.
  unfold resize. apply preserves_bind; [apply t_advance_seqno|]. intros _. apply preserves_get. intros t Ht.
  apply preserves_bind; [next_if; [apply t_modify, t_rows_only|apply t_resize_reflow]|]. intros _.
  apply preserves_bind; [apply t_modify, t_finish_resize|]. intros _. apply preserves_ret.
Qed.

Lemma t_erase_all : preserves traced erase_scrollback_and_viewport.
Proof.
  apply preserves_seq; [apply t_advance_seqno|]. apply preserves_get. intros t Ht. next_let.
  apply preserves_seq; [apply t_prune|]. apply preserves_seq; [apply t_modify; rest|].
  apply preserves_seq; [apply t_modify; auto with trace|].
  apply preserves_seq; [apply t_modify; rest|]. next_if; apply t_modify; [rest|].
  intros u Hu. apply t_damage_screen. by apply (t_same u).
Qed.

Lemma t_input i : preserves (behind traced) (run_input i).
Proof.
  destruct i as [bytes|bytes|s|limit| | |style]; cbn [run_input].
  - apply t_feed.
  - apply preserves_bind; [apply behind_on, t_advance_seqno|]. intros _.
    apply preserves_bind; [apply behind_feed, _|]. intros _. apply behind_modify. apply t_mark_all.
  - apply preserves_bind; [apply behind_on, t_resize|]. intros _. apply preserves_ret.
  - apply behind_on, preserves_seq; [apply t_modify; rest|apply t_trim].
  - apply behind_on, t_erase_all.
  - apply behind_on, preserves_seq; [apply t_advance_seqno|]. apply t_modify, t_mark_all.
  - apply behind_modify. rest.
Qed.
End trace.

(** Whatever the input: the graphics fields went through calls, saves and
    restores, starting with those of a terminal without images. *)
Lemma graphics_trace `{External} `{Graphics} size style k inputs f' :
  iterM run_input inputs (fresh_feeder size style k) = Ok () f' →
  rtc graphics_step (k, no_images, None) (graphics_fields (screen f')).
Proof.
  intros Hrun.
  pose proof (preserves_iterM (behind (traced (k, no_images, None))) run_input inputs (t_input _)) as Hp.
  specialize (Hp (fresh_feeder size style k) (rtc_refl _ _)). by rewrite Hrun in Hp.
Qed.
