(* ===== verification/ImageFacts.v ===== *)
(** Facts about inline images: the placements of a screen, their identities
    and their cells stay consistent under every call of the screen code, and
    the relations between placements never form a cycle. *)
From coqutil Require Import Datatypes.RecordSetters.
From S2P Require Import Prelude Text Grid Csi Parse Utf8 Feed Screen Scroll.
From S2P Require Import Images Placements Placeholders Kitty Sixel ImageCalls.
Import DoubleBraceUpdate.

Local Open Scope Z_scope.

(** ** Relations between placements *)

Section relations.
  Implicit Types (parents : gmap KittyPlacementKey KittyPlacementKey) (p q r : KittyPlacementKey).

Definition parent_of parents p q : Prop := parents !! p = Some q.

(** Every placement leads to one that is relative to no other. *)
Definition rooted parents p : Prop := ∃ r, rtc (parent_of parents) p r ∧ parents !! r = None.
Definition acyclic parents : Prop := ∀ p, rooted parents p.

Lemma rooted_no_cycle parents p : rooted parents p → ¬ tc (parent_of parents) p p.
Proof.
  intros (r & Hp & Hr). induction Hp as [r|p z r Hpz _ IH]; intros Hc.
  - inversion Hc; subst; unfold parent_of in *; congruence.
  - apply (IH Hr). assert (rtc (parent_of parents) z p) as Hzp.
    { inversion Hc as [? ? H|? z' ? H H']; subst; unfold parent_of in *; simplify_eq; [done|].
      by apply tc_rtc. }
    eapply tc_rtc_l; [exact Hzp|]. by apply tc_once.
Qed.

Lemma acyclic_empty : acyclic ∅.
Proof. intros p. exists p. split; [done|]. apply lookup_empty. Qed.

Lemma acyclic_subset parents parents' : parents' ⊆ parents → acyclic parents → acyclic parents'.
Proof.
  intros Hs Ha p. destruct (Ha p) as (r & Hp & Hr). induction Hp as [r|p z r Hpz _ IH].
  - exists r. split; [done|]. destruct (parents' !! r) eqn:E; [|done].
    apply (lookup_weaken _ _ _ _ E) in Hs. congruence.
  - destruct (IH Hr) as (r' & Hz & Hr'). destruct (parents' !! p) as [z'|] eqn:E; [|by exists p].
    pose proof (lookup_weaken _ _ _ _ E Hs). unfold parent_of in Hpz. simplify_eq.
    exists r'. split; [|done]. by eapply rtc_l.
Qed.

(** The two steps of a new relation. *)
Lemma acyclic_insert parents child parent :
  acyclic parents → ¬ rtc (parent_of parents) parent child → acyclic (<[child := parent]> parents).
Proof.
  intros Ha Hn.
  assert (∀ z r, rtc (parent_of parents) z r → ¬ rtc (parent_of parents) z child → parents !! r = None →
    rooted (<[child := parent]> parents) z) as Hfree.
  { induction 1 as [r|x z r Hxz _ IH]; intros Hc Hr.
    - exists r. split; [done|]. rewrite lookup_insert_ne; [done|]. by intros ->.
    - destruct IH as (r' & Hz & Hr'); [|done|].
      + intros H. apply Hc. by eapply rtc_l.
      + exists r'. split; [|done]. eapply rtc_l; [|exact Hz]. unfold parent_of.
        rewrite lookup_insert_ne; [done|]. by intros ->. }
  assert (rooted (<[child := parent]> parents) child) as Hchild.
  { destruct (Ha parent) as (r & Hp & Hr). destruct (Hfree parent r Hp Hn Hr) as (r' & Hp' & Hr').
    exists r'. split; [|done]. eapply rtc_l; [|exact Hp']. apply lookup_insert_eq. }
  intros p. destruct (Ha p) as (r & Hp & Hr). induction Hp as [r|p z r Hpz _ IH].
  - destruct (decide (r = child)) as [->|]; [done|]. exists r. split; [done|]. by rewrite lookup_insert_ne.
  - destruct (decide (p = child)) as [->|]; [done|]. destruct (IH Hr) as (r' & Hz & Hr').
    exists r'. split; [|done]. eapply rtc_l; [|exact Hz]. unfold parent_of. by rewrite lookup_insert_ne.
Qed.

(** A placement the walk has passed. *)
Lemma unseen_size parents (seen : gset KittyPlacementKey) p z :
  parents !! p = Some z → p ∉ seen →
  size (filter (λ x, x.1 ∉ seen) parents) =
    S (size (filter (λ x, x.1 ∉ ({[p]} ∪ seen : gset KittyPlacementKey)) parents)).
Proof.
  intros Hp Hs.
  assert (filter (λ x, x.1 ∉ ({[p]} ∪ seen : gset KittyPlacementKey)) parents =
    delete p (filter (λ x, x.1 ∉ seen) parents)) as ->.
  { apply map_eq. intros i. destruct (decide (i = p)) as [->|Hi].
    - rewrite lookup_delete_eq. apply map_lookup_filter_None. right. intros x _. simpl. set_solver.
    - rewrite lookup_delete_ne by done. rewrite !map_lookup_filter. destruct (parents !! i); simpl; [|done].
      repeat case_guard; set_solver. }
  rewrite <-(insert_delete_id (filter _ _) p z) at 1 by (by apply map_lookup_filter_Some).
  by rewrite map_size_insert_None by apply lookup_delete_eq.
Qed.

(** The walk of [kitty_relative_placement_would_cycle] meets every ancestor. *)
Lemma ancestors_loop_complete parents fuel seen p q :
  acyclic parents → rtc (parent_of parents) p q →
  (∀ x, rtc (parent_of parents) p x → x ∉ seen) →
  (size (filter (λ x, x.1 ∉ seen) parents) < fuel)%nat →
  q ∈ ancestors_loop fuel parents seen p.
Proof.
  intros Ha Hp. revert fuel seen. induction Hp as [q|p z q Hpz Hz IH]; intros [|fuel] seen Hs Hf; try lia.
  - simpl. left.
  - simpl. rewrite bool_decide_false by (by apply Hs). rewrite Hpz. right. apply IH.
    + intros x Hx. rewrite not_elem_of_union, not_elem_of_singleton. split.
      * intros ->. apply (rooted_no_cycle parents p (Ha p)). eapply tc_rtc_r; [by apply tc_once|done].
      * apply Hs. by eapply rtc_l.
    + pose proof (unseen_size parents seen p z Hpz (Hs p (rtc_refl _ _))) as Hu. clear -Hu Hf.
      change (size (filter (λ x, x.1 ∉ seen) parents) < S fuel)%nat in Hf. rewrite Hu in Hf. lia.
Qed.

Lemma ancestors_complete parents p q :
  acyclic parents → rtc (parent_of parents) p q → q ∈ ancestors parents p.
Proof.
  intros Ha Hp. apply ancestors_loop_complete; [done..|set_solver|].
  eapply Nat.le_lt_trans; [apply map_size_filter|lia].
Qed.
End relations.

(** ** Lists *)

Lemma omap_fmap_sublist {A B C} (f : A → option B) (h : A → C) (k : B → C) l :
  (∀ x y, f x = Some y → k y = h x) → (k <$> omap f l) `sublist_of` (h <$> l).
Proof.
  intros Hf. induction l as [|x l IH]; simpl; [done|]. destruct (f x) as [y|] eqn:E; simpl.
  - rewrite (Hf x y E). by apply sublist_skip.
  - by apply sublist_cons.
Qed.

Lemma filter_fmap_sublist {A B} (P : A → Prop) `{∀ x, Decision (P x)} (f : A → B) l :
  (f <$> filter P l) `sublist_of` (f <$> l).
Proof.
  induction l as [|x l IH]; simpl; [done|]. rewrite filter_cons. case_decide; simpl.
  - by apply sublist_skip.
  - by apply sublist_cons.
Qed.

(** ** Consistent screens *)

(** The part of its image an attached cell shows. *)
Definition source_cell (a : CellAttachment) : Z * Z * Z :=
  (at_parent_identity a, at_source_row a, at_source_column a).

Record images_ok (next : Z) (s : ScreenImages) : Prop := {
  io_ids : length (inline_image_parent_ids s) = length (inline_images s);
  io_unique : NoDup (inline_image_parent_ids s);
  io_issued : Forall (λ i, i < next) (inline_image_parent_ids s);
  io_attached : Forall (λ a, at_parent_identity a ∈ inline_image_parent_ids s) (inline_image_attachments s);
  io_cells : NoDup (source_cell <$> inline_image_attachments s);
}.

(** The state a call works on: both screens are consistent, and relations do
    not form cycles. *)
Record state_ok (g : ImageState) : Prop := {
  so_images : images_ok (next_inline_image_parent_identity (shared_images g)) (images g);
  so_dormant : ∀ d, dormant g = Some d → images_ok (next_inline_image_parent_identity (shared_images g)) d;
  so_acyclic : acyclic (kitty_relative_parents (shared_images g));
}.

(** What most steps leave alone. *)
Definition same_frame (g g' : ImageState) : Prop :=
  next_inline_image_parent_identity (shared_images g') = next_inline_image_parent_identity (shared_images g) ∧
  dormant g' = dormant g ∧
  kitty_relative_parents (shared_images g') ⊆ kitty_relative_parents (shared_images g).

Lemma images_ok_weaken next next' s : next ≤ next' → images_ok next s → images_ok next' s.
Proof.
  intros Hn [H1 H2 H3 H4 H5]. split; try done. eapply Forall_impl; [exact H3|]. simpl. lia.
Qed.

Lemma no_images_ok next : images_ok next no_screen_images.
Proof. split; simpl; try done; constructor. Qed.

Lemma clear_inline_images_ok next s : images_ok next (clear_inline_images s).
Proof. split; simpl; try done; constructor. Qed.

(** Fewer placements and cells, possibly elsewhere. *)
Lemma images_ok_sub next s s' :
  images_ok next s → length (inline_image_parent_ids s') = length (inline_images s') →
  inline_image_parent_ids s' `sublist_of` inline_image_parent_ids s →
  (source_cell <$> inline_image_attachments s') `sublist_of` (source_cell <$> inline_image_attachments s) →
  Forall (λ a, at_parent_identity a ∈ inline_image_parent_ids s') (inline_image_attachments s') →
  images_ok next s'.
Proof.
  intros [H1 H2 H3 H4 H5] Hl Hi Hc Ha. split; try done.
  - by eapply sublist_NoDup.
  - rewrite Forall_forall in *. intros x Hx. apply H3. by eapply elem_of_submseteq, sublist_submseteq.
  - by eapply sublist_NoDup.
Qed.

(** ** Placements that stay *)

Lemma ensure_id g :
  length (inline_image_parent_ids (images g)) = length (inline_images (images g)) →
  ensure_inline_image_parent_ids g = g.
Proof.
  intros Hl. destruct g as [k s d m c]. unfold ensure_inline_image_parent_ids. simpl in *.
  rewrite Hl, Nat.sub_diag. change (Z.of_nat 0) with 0. rewrite Z.add_0_r.
  change (seqZ (next_inline_image_parent_identity k) 0) with (@nil Z).
  rewrite app_nil_r, take_ge by lia. by destruct k, s.
Qed.

Lemma retain_edited_ok next virtuals s :
  images_ok next s → images_ok next (retain_kitty_character_edited_placements virtuals s).
Proof. intros [H1 H2 H3 H4 H5]. by split. Qed.

(** The effect of [retain_inline_images]. *)
Lemma retain_spec keep g :
  length (inline_image_parent_ids (images g)) = length (inline_images (images g)) →
  let g' := retain_inline_images keep g in
  shared_images g' = shared_images g ∧ dormant g' = dormant g ∧ marked g' = marked g ∧
  cursor_cells g' = cursor_cells g ∧ inline_images (images g') = filter (λ i, keep i) (inline_images (images g)).
Proof.
  intros Hl. unfold retain_inline_images. rewrite ensure_id by done. split_and!; try done. simpl.
  rewrite <-(fst_zip (inline_images (images g)) (inline_image_parent_ids (images g))) at 2 by lia.
  generalize (zip (inline_images (images g)) (inline_image_parent_ids (images g))). intros l.
  induction l as [|[i n] l IH]; [done|]. rewrite fmap_cons, !filter_cons. simpl.
  case_decide; [|exact IH]. rewrite fmap_cons. simpl. f_equal. exact IH.
Qed.

Lemma retain_images_ok next keep g :
  images_ok next (images g) → images_ok next (images (retain_inline_images keep g)).
Proof.
  intros Hok. unfold retain_inline_images. rewrite ensure_id by apply Hok. apply retain_edited_ok.
  eapply images_ok_sub; [exact Hok|..]; simpl.
  - by rewrite !length_fmap.
  - etrans; [apply filter_fmap_sublist|]. by rewrite snd_zip by (rewrite (io_ids _ _ Hok); lia).
  - apply filter_fmap_sublist.
  - apply Forall_forall. intros a [Ha _]%list_elem_of_filter. by apply bool_decide_unpack in Ha.
Qed.

(** A step that only works on the images of the active screen, or forgets
    relations. *)
Lemma step_ok g g' :
  state_ok g → same_frame g g' →
  images_ok (next_inline_image_parent_identity (shared_images g)) (images g') → state_ok g'.
Proof.
  intros [H1 H2 H3] (F1 & F2 & F3) Hi. split.
  - by rewrite F1.
  - intros d. rewrite F1, F2. apply H2.
  - by eapply acyclic_subset.
Qed.

Lemma same_frame_refl g : same_frame g g.
Proof. done. Qed.

Lemma same_frame_trans g1 g2 g3 : same_frame g1 g2 → same_frame g2 g3 → same_frame g1 g3.
Proof. intros (A1 & A2 & A3) (B1 & B2 & B3). split_and!; [congruence..|by etrans]. Qed.

#[export] Instance same_frame_preorder : PreOrder same_frame.
Proof. split; [exact same_frame_refl|exact same_frame_trans]. Qed.

Lemma retain_ok keep g : state_ok g → state_ok (retain_inline_images keep g).
Proof.
  intros Hg. destruct (retain_spec keep g) as (R1 & R2 & _); [apply (so_images _ Hg)|].
  apply (step_ok g); [done| |apply retain_images_ok, Hg]. split_and!; rewrite ?R1, ?R2; done.
Qed.

(** ** Deletion *)

(** Steps that keep a state consistent and use up no identity. *)
Definition shrinks (f : ImageState → ImageState) : Prop :=
  ∀ g, state_ok g → state_ok (f g) ∧ same_frame g (f g).

Lemma retain_shrinks keep : shrinks (retain_inline_images keep).
Proof.
  intros g Hg. split; [by apply retain_ok|].
  destruct (retain_spec keep g) as (R1 & R2 & _); [apply (so_images _ Hg)|].
  by split_and!; rewrite ?R1, ?R2.
Qed.

(** Changes of other fields. *)
Lemma other_shrinks f :
  (∀ g, images_ok (next_inline_image_parent_identity (shared_images g)) (images g) →
        images_ok (next_inline_image_parent_identity (shared_images g)) (images (f g))) →
  (∀ g, same_frame g (f g)) → shrinks f.
Proof. intros H1 H2 g Hg. split; [|done]. eapply step_ok; [exact Hg|done|]. apply H1, Hg. Qed.

Lemma shrinks_comp f f' : shrinks f → shrinks f' → shrinks (λ g, f' (f g)).
Proof.
  intros H H' g Hg. destruct (H g Hg) as [H1 H2]. destruct (H' _ H1) as [H3 H4].
  split; [done|by etrans].
Qed.

Lemma shrinks_id : shrinks (λ g, g).
Proof. done. Qed.

Lemma shrinks_if (b : bool) f f' : shrinks f → shrinks f' → shrinks (λ g, if b then f g else f' g).
Proof. by destruct b. Qed.

Lemma shrinks_foldl {A} (f : ImageState → A → ImageState) l :
  (∀ x, shrinks (λ g, f g x)) → shrinks (λ g, foldl f g l).
Proof.
  intros Hf. induction l as [|x l IH]; [done|]. exact (shrinks_comp _ _ (Hf x) IH).
Qed.

Lemma remove_unreferenced_shrinks ids : shrinks (remove_unreferenced_kitty_images ids).
Proof.
  apply shrinks_foldl. intros i. apply other_shrinks; intros g; by destruct (image_in_use i g).
Qed.

Lemma relative_children_shrinks fuel removed relative keys :
  shrinks (λ g, (relative_children_loop fuel removed relative keys g).2).
Proof.
  revert removed relative keys. induction fuel as [|fuel IH]; intros removed relative keys g Hg; [done|].
  simpl. set (child := relative_to _ keys).
  destruct (retain_shrinks (λ image, negb (child image)) g Hg) as [H1 H2]. case_bool_decide; [done|].
  match goal with |- context [relative_children_loop fuel ?a ?b ?c ?x] =>
    destruct (IH a b c x H1) as [H3 H4] end.
  split; [done|by etrans].
Qed.

Lemma orphan_step_shrinks (orphans : gset KittyPlacementKey) :
  shrinks (λ g, g{{ shared_images -> kitty_relative_parents :=
    filter (λ p, p.1 ∉ orphans) (kitty_relative_parents (shared_images g)) }}).
Proof.
  apply other_shrinks; [done|]. intros g. split_and!; try done. simpl. apply map_filter_subseteq.
Qed.

Lemma orphan_loop_shrinks fuel b : shrinks (orphan_loop fuel b).
Proof.
  induction fuel as [|fuel IH]; intros g Hg; [done|]. simpl. case_bool_decide; [done|].
  set (orphans := orphan_keys g). set (gone := filter _ _).
  apply (shrinks_comp _ (λ g, orphan_loop fuel b (if b then remove_unreferenced_kitty_images (image_ids_of gone)
    (retain_inline_images (λ image, negb (is_orphan orphans image)) g) else
    retain_inline_images (λ image, negb (is_orphan orphans image)) g)) (orphan_step_shrinks orphans)); [|done].
  apply (shrinks_comp _ (λ g, orphan_loop fuel b (if b then remove_unreferenced_kitty_images (image_ids_of gone) g
    else g)) (retain_shrinks _)).
  apply (shrinks_comp _ (orphan_loop fuel b)); [|exact IH].
  destruct b; [apply remove_unreferenced_shrinks|apply shrinks_id].
Qed.

Lemma orphans_shrinks b : shrinks (remove_orphan_kitty_relative_children b).
Proof. intros g. apply (orphan_loop_shrinks _ b g). Qed.

Lemma damage_shrinks d : shrinks (record_damage_region d).
Proof. by apply other_shrinks. Qed.

Lemma delete_placements_shrinks v b matches : shrinks (delete_kitty_placements v b matches).
Proof.
  intros g Hg. unfold delete_kitty_placements, delete_relative_kitty_children.
  set (gone := filter _ _). set (before := length _).
  destruct (retain_shrinks (λ image, negb (matches image)) g Hg) as [H1 F1].
  match goal with |- context [relative_children_loop ?n ?a ?b ?c ?x] =>
    destruct (relative_children_shrinks n a b c x H1) as [H2 F2];
    destruct (relative_children_loop n a b c x) as [[removed relative] g2] end.
  simpl in H2, F2.
  match goal with |- state_ok (delete_orphan_kitty_relative_children ?x) ∧ _ => set (g3 := x) end.
  assert (state_ok g3 ∧ same_frame g2 g3) as [H3 F3].
  { unfold g3. case_bool_decide; [done|]. destruct b.
    - apply (shrinks_comp _ (λ g, record_damage_region (damage_view v) (remove_unreferenced_kitty_images relative g))
        (remove_unreferenced_shrinks removed)); [|done].
      apply (shrinks_comp _ _ (remove_unreferenced_shrinks relative) (damage_shrinks _)).
    - apply (shrinks_comp _ _ (remove_unreferenced_shrinks relative) (damage_shrinks _) g2 H2). }
  clearbody g3. destruct (orphans_shrinks true g3 H3) as [H4 F4]. split; [done|].
  etrans; [exact F1|]. etrans; [exact F2|]. by etrans.
Qed.

(** ** New placements *)

Lemma mapM_fmap {A B C} (f : A → option B) (h : A → C) (k : B → C) l l' :
  (∀ x y, f x = Some y → k y = h x) → mapM f l = Some l' → k <$> l' = h <$> l.
Proof.
  intros Hf Hm. apply mapM_Some in Hm. induction Hm as [|x y l l' Hxy _ IH]; [done|].
  rewrite !fmap_cons, (Hf x y Hxy). f_equal. exact IH.
Qed.

Lemma grid_NoDup (n : Z) (rows columns : list Z) :
  NoDup rows → NoDup columns → NoDup (rows ≫= λ r, (λ c, (n, r, c)) <$> columns).
Proof.
  intros Hr Hc. induction Hr as [|r rows Hn _ IH]; [constructor|]. simpl.
  apply NoDup_app. split_and!; [|intros x|done].
  - apply NoDup_fmap_2; [|done]. by intros c c' [= ->].
  - intros (c & -> & _)%list_elem_of_fmap (r' & Hx & Hr')%list_elem_of_bind.
    apply list_elem_of_fmap in Hx as (c' & [= -> ->] & _). done.
Qed.

Lemma cell_attachments_spec n image :
  Forall (λ a, at_parent_identity a = n) (cell_attachments_for_image n image) ∧
  NoDup (source_cell <$> cell_attachments_for_image n image).
Proof.
  unfold cell_attachments_for_image. destruct (cell_attachment_dimensions image) as [[columns rows]|];
    [|split; constructor].
  match goal with |- context [mapM ?x (seqZ 0 rows)] => set (f := x) end.
  destruct (mapM f (seqZ 0 rows)) as [ll|] eqn:E; simpl; [|split; constructor].
  assert (∀ r y, f r = Some y → source_cell <$> y = (λ c, (n, r, c)) <$> seqZ 0 columns) as Hf.
  { intros r y. unfold f. destruct (checked_add usize_max (im_row image) r); simpl; [|done].
    apply mapM_fmap. intros c a. by destruct (checked_add u16_max (im_column image) c); intros [= <-]. }
  assert (source_cell <$> mjoin ll = seqZ 0 rows ≫= λ r, (λ c, (n, r, c)) <$> seqZ 0 columns) as Hs.
  { pose proof (mapM_fmap f (λ r, (λ c, (n, r, c)) <$> seqZ 0 columns) (fmap source_cell) _ _ Hf E) as Hm.
    clear -Hm. revert Hm. generalize (seqZ 0 rows). induction ll as [|y ll IH]; intros [|r l]; try done.
    simpl. intros [= H1 H2]. rewrite fmap_app, H1. f_equal. by apply IH. }
  split.
  - apply Forall_forall. intros a Ha. apply (list_elem_of_fmap_2 source_cell) in Ha. rewrite Hs in Ha.
    apply list_elem_of_bind in Ha as (r & (c & [= -> _ _] & _)%list_elem_of_fmap & _). done.
  - rewrite Hs. apply grid_NoDup; apply NoDup_seqZ.
Qed.

Lemma push_ok image g : state_ok g → state_ok (push_inline_image image g).
Proof.
  intros [[H1 H2 H3 H4 H5] Hd Ha]. destruct (cell_attachments_spec
    (next_inline_image_parent_identity (shared_images g)) image) as [C1 C2].
  set (n := next_inline_image_parent_identity (shared_images g)) in *.
  assert (n ∉ inline_image_parent_ids (images g)) as Hn.
  { intros Hn. rewrite Forall_forall in H3. apply H3 in Hn. lia. }
  split; [split| |done]; simpl.
  - rewrite !length_app. simpl. lia.
  - apply NoDup_app. split_and!; [done| |apply NoDup_singleton].
    intros x Hx ->%list_elem_of_singleton. done.
  - apply Forall_app. split; [|repeat constructor; lia]. eapply Forall_impl; [exact H3|]. simpl. lia.
  - apply Forall_app. split.
    + eapply Forall_impl; [exact H4|]. intros a. simpl. rewrite elem_of_app. by left.
    + eapply Forall_impl; [exact C1|]. intros a ->. rewrite elem_of_app, list_elem_of_singleton. by right.
  - rewrite fmap_app. apply NoDup_app. split_and!; [done| |done].
    intros x (a & -> & Ha1)%list_elem_of_fmap (b & Hb & Ha2)%list_elem_of_fmap.
    rewrite Forall_forall in H4, C1. apply Hn. apply C1 in Ha2.
    injection Hb as Hb _ _. rewrite <-Ha2, <-Hb. by apply H4.
  - intros d Hd'. eapply images_ok_weaken; [|by apply Hd]. lia.
Qed.

(** ** Placements that move *)

(** The same identities; the cells that stay show what they showed. *)
Lemma images_ok_moved next s s' :
  images_ok next s → inline_image_parent_ids s' = inline_image_parent_ids s →
  length (inline_images s') = length (inline_images s) →
  (source_cell <$> inline_image_attachments s') `sublist_of` (source_cell <$> inline_image_attachments s) →
  images_ok next s'.
Proof.
  intros Hok Hi Hl Hc. eapply images_ok_sub; [exact Hok|..]; rewrite ?Hi, ?Hl; [apply Hok|done|done|].
  apply Forall_forall. intros a Ha%(list_elem_of_fmap_2 source_cell).
  eapply elem_of_submseteq in Ha; [|apply sublist_submseteq, Hc].
  apply list_elem_of_fmap in Ha as (b & [= -> _ _] & Hb).
  exact (proj1 (Forall_forall _ _) (io_attached _ _ Hok) b Hb).
Qed.

(** A change of the images alone. *)
Lemma on_images_shrinks (f : ScreenImages → ScreenImages) :
  (∀ next s, images_ok next s → images_ok next (f s)) → shrinks (on_images f).
Proof. intros Hf. apply other_shrinks; [intros g; apply Hf|done]. Qed.

Lemma move_placement_shrinks or oc nr nc key : shrinks (move_placement or oc nr nc key).
Proof.
  apply other_shrinks; intros g; unfold move_placement;
    (destruct (list_find (has_key key) (inline_images (images g))) as [[i im]|]; [|done]); [|done].
  intros Hok. apply (images_ok_moved _ _ _ Hok); simpl; [done|by rewrite length_insert|].
  rewrite <-list_fmap_compose. erewrite list_fmap_ext; [done|]. intros _ a _. simpl. by case_match.
Qed.

Lemma descendants_shrinks fuel or oc nr nc stack seen :
  shrinks (descendants_loop fuel or oc nr nc stack seen).
Proof.
  revert stack seen. induction fuel as [|fuel IH]; intros [|p stack] seen g Hg; try done. simpl.
  case_bool_decide; [by apply IH|].
  apply (shrinks_comp (λ g', foldl (λ g key, move_placement or oc nr nc key g) g' (children_of p g))
    (descendants_loop fuel or oc nr nc (rev (children_of p g) ++ stack) ({[p]} ∪ seen))); [|apply IH|done].
  apply shrinks_foldl. intros key. apply move_placement_shrinks.
Qed.

Lemma ensure_shrinks : shrinks ensure_inline_image_parent_ids.
Proof. intros g Hg. rewrite ensure_id by apply (so_images _ Hg). done. Qed.

Lemma move_descendants_shrinks key or oc nr nc : shrinks (move_relative_kitty_descendants key or oc nr nc).
Proof.
  intros g Hg. unfold move_relative_kitty_descendants. case_match; [done|].
  rewrite ensure_id by apply (so_images _ Hg). by apply descendants_shrinks.
Qed.

Lemma damage_at_shrinks v r c w h : shrinks (record_inline_image_damage_at v r c w h).
Proof.
  intros g Hg. unfold record_inline_image_damage_at. repeat case_match; try done; by apply damage_shrinks.
Qed.

Lemma replace_placement_spec v key g :
  state_ok g → let g' := replace_placement v key g in
  state_ok g' ∧ same_frame g g' ∧
  kitty_relative_parents (shared_images g') = delete key (kitty_relative_parents (shared_images g)).
Proof.
  intros Hg. unfold replace_placement.
  destruct (retain_spec (λ image, negb (bool_decide (has_key key image))) g) as (R1 & _);
    [apply (so_images _ Hg)|].
  destruct (retain_shrinks (λ image, negb (bool_decide (has_key key image))) g Hg) as [H1 F1].
  set (g1 := retain_inline_images _ g) in *. clearbody g1.
  match goal with |- context [if ?b then g1 else ?x] => set (g2 := if b then g1 else x) end.
  assert (state_ok g2 ∧ same_frame g1 g2 ∧ shared_images g2 = shared_images g1) as (H2 & F2 & S2).
  { unfold g2. case_bool_decide; [done|]. split_and!; try done. by destruct H1. }
  clearbody g2. simpl. rewrite <-R1, <-S2. split_and!; [..|done].
  - split; simpl; [apply H2|apply H2|]. eapply acyclic_subset; [|apply H2]. apply delete_subseteq.
  - etrans; [exact F1|]. etrans; [exact F2|]. split_and!; try done. simpl. apply delete_subseteq.
Qed.

(** The relation a new placement asks for does not close a cycle. *)
Definition safe_parent (options : KittyPlacementOptions) (g : ImageState) : Prop :=
  ∀ key parent, kitty_placement_key (po_image_id options) (po_placement_id options) = Some key →
    po_parent_placement options = Some parent →
    ¬ rtc (parent_of (kitty_relative_parents (shared_images g))) parent key.

Lemma rtc_subset parents parents' p q :
  parents' ⊆ parents → rtc (parent_of parents') p q → rtc (parent_of parents) p q.
Proof.
  intros Hs. apply rtc_subrel. intros x y H. by eapply lookup_weaken.
Qed.

(** Identities are not taken back, and a screen stays active or dormant. *)
Definition grows (g g' : ImageState) : Prop :=
  next_inline_image_parent_identity (shared_images g) ≤ next_inline_image_parent_identity (shared_images g') ∧
  (is_Some (dormant g) ↔ is_Some (dormant g')).

#[export] Instance grows_preorder : PreOrder grows.
Proof.
  split; [by split|]. intros g1 g2 g3 [A1 A2] [B1 B2]. split; [lia|by rewrite A2].
Qed.

Lemma frame_grows g g' : same_frame g g' → grows g g'.
Proof. intros (F1 & F2 & _). split; [lia|by rewrite F2]. Qed.

Lemma push_grows image g : grows g (push_inline_image image g).
Proof. split; simpl; [lia|done]. Qed.

Lemma place_ok v image options g :
  state_ok g → safe_parent options g →
  state_ok (place_kitty_image v image options g) ∧ grows g (place_kitty_image v image options g).
Proof.
  intros Hg Hs. unfold place_kitty_image. destruct (kitty_display_dimensions image options) as [w h].
  set (row := default _ _). set (column := default _ _). unfold safe_parent in Hs.
  assert (∀ g' : ImageState, state_ok g' ∧ grows g g' →
    let g'' := if po_move_cursor options
               then g'{{ cursor_cells := Some (Z.to_nat (Z.max (inline_image_width_cells w) 1),
                                               Z.to_nat (Z.max (inline_image_height_cells h) 1)) }}
               else g' in
    state_ok g'' ∧ grows g g'') as Hcursor.
  { intros g' [Hok Hgr]. destruct (po_move_cursor options); [|done]. split; [by destruct Hok|done]. }
  apply Hcursor. clear Hcursor.
  destruct (kitty_placement_key (po_image_id options) (po_placement_id options)) as [key|] eqn:Hk.
  - match goal with |- context [replace_placement v key g] => set (g1 := replace_placement v key g) end.
    destruct (replace_placement_spec v key g Hg) as (H1 & F1 & P1). fold g1 in H1, F1, P1. clearbody g1.
    destruct (damage_at_shrinks v row column w h g1 H1) as [H2 F2].
    set (g2 := record_inline_image_damage_at v row column w h g1) in *. clearbody g2.
    pose proof (push_ok (placed_image image options row column) g2 H2) as H3.
    pose proof (push_grows (placed_image image options row column) g2) as G3.
    set (g3 := push_inline_image _ g2) in *.
    assert (grows g g3) as G3'.
    { etrans; [apply frame_grows, F1|]. etrans; [apply frame_grows, F2|exact G3]. }
    assert (kitty_relative_parents (shared_images g3) ⊆ kitty_relative_parents (shared_images g)) as Hp.
    { transitivity (kitty_relative_parents (shared_images g1)); [apply F2|]. rewrite P1. apply delete_subseteq. }
    clearbody g3. clear G3 H1 F1 P1 H2 F2.
    match goal with |- context [match po_parent_placement options with Some _ => _ | None => g3 end] =>
      set (g4 := match po_parent_placement options with Some _ => _ | None => g3 end) end.
    assert (state_ok g4 ∧ grows g3 g4) as [H4 G4].
    { unfold g4. destruct (po_parent_placement options) as [parent|]; [|done]. split; [|done].
      split; simpl; [apply H3|apply H3|]. apply acyclic_insert; [apply H3|]. intros Hr.
      apply (Hs key parent eq_refl eq_refl). by eapply rtc_subset. }
    clearbody g4. case_match; [|split; [done|by etrans]]. case_match.
    destruct (move_descendants_shrinks key z z0 row column g4 H4) as [H5 F5].
    split; [done|]. etrans; [exact G3'|]. etrans; [exact G4|by apply frame_grows].
  - destruct (damage_at_shrinks v row column w h g Hg) as [H2 F2]. split.
    + apply (push_ok (placed_image image options row column) _ H2).
    + etrans; [apply frame_grows, F2|apply push_grows].
Qed.

(** ** Rows that move *)

Lemma rebase_ok next rows s : images_ok next s → images_ok next (rebase_image_and_placeholder_metadata rows s).
Proof.
  intros Hok. unfold rebase_image_and_placeholder_metadata. rewrite (io_ids _ _ Hok), Nat.sub_diag. simpl.
  rewrite app_nil_r. eapply images_ok_sub; [exact Hok|..]; simpl.
  - by rewrite !length_fmap.
  - etrans; [apply (omap_fmap_sublist _ snd)|].
    + intros [im i] [im' i']. simpl. destruct (checked_sub _ _); by intros [= _ ->].
    + by rewrite snd_zip by (rewrite (io_ids _ _ Hok); lia).
  - apply omap_fmap_sublist. intros a a'. destruct (checked_sub _ _); simpl; [|done].
    case_match; by intros [= <-].
  - apply Forall_forall. intros a' (a & _ & Ha)%list_elem_of_omap. revert Ha.
    destruct (checked_sub _ _); simpl; [|done]. unfold attached_to. by case_bool_decide; intros [= <-].
Qed.

Lemma shift_ok next start rows s :
  images_ok next s → images_ok next (shift_image_and_placeholder_suffix_metadata start rows s).
Proof.
  intros Hok. apply (images_ok_moved _ _ _ Hok); simpl; [done|by rewrite length_fmap|].
  by rewrite <-list_fmap_compose.
Qed.

Lemma scroll_images_shrinks v top bottom count move : shrinks (scroll_inline_images v top bottom count move).
Proof.
  intros g Hg. unfold scroll_inline_images. case_bool_decide; [done|].
  destruct (region_rows v top bottom) as [first last]. rewrite ensure_id by apply (so_images _ Hg).
  pose proof (so_images _ Hg) as Hok. set (s := images g) in *.
  match goal with |- context [omap ?f (?h <$> zip ?a ?b)] => set (kept := omap f (h <$> zip a b)) end.
  match goal with |- state_ok (_ ?x) ∧ _ => set (g1 := x) end.
  assert (state_ok g1 ∧ same_frame g g1) as [H1 F1].
  { split; [|done]. apply (step_ok g); [done..|]. eapply images_ok_sub; [exact Hok|..]; simpl.
    - by rewrite !length_fmap.
    - etrans; [apply (omap_fmap_sublist _ (λ q, q.2.2))|].
      + intros [[] [im i]] [im' i']; simpl; by intros [= _ ->].
      + rewrite <-list_fmap_compose. unfold compose. simpl.
        by rewrite snd_zip by (rewrite (io_ids _ _ Hok); lia).
    - apply omap_fmap_sublist. intros a a'. repeat (case_match; simpl); try done; [|by intros [= <-]].
      destruct (move (at_row a)); by intros [= <-].
    - apply Forall_forall. intros a' (a & _ & Ha)%list_elem_of_omap. revert Ha. unfold attached_to.
      case_bool_decide; [|done]. case_bool_decide; [|by intros [= <-]].
      destruct (move (at_row a)); by intros [= <-]. }
  clearbody g1. destruct (orphans_shrinks true g1 H1) as [H2 F2]. split; [done|by etrans].
Qed.

Lemma placeholder_cells_ok next (f : ScreenImages → ScreenImages) s :
  f s = s{{ kitty_placeholder_cells := kitty_placeholder_cells (f s);
            last_kitty_placeholder := last_kitty_placeholder (f s) }} →
  images_ok next s → images_ok next (f s).
Proof. intros -> [H1 H2 H3 H4 H5]. by split. Qed.

Lemma transform_ok next t s :
  images_ok next s →
  images_ok next (s{{ inline_image_attachments := omap (apply_to_attachment t) (inline_image_attachments s) }}).
Proof.
  intros Hok. apply (images_ok_moved _ _ _ Hok); simpl; [done..|]. apply omap_fmap_sublist.
  intros a a'. unfold apply_to_attachment. destruct (apply_coordinate _ _ _); by intros [= <-].
Qed.

Lemma synchronize_ok next s : images_ok next s → images_ok next (synchronize_kitty_image_origins_with_attachments s).
Proof. intros Hok. apply (images_ok_moved _ _ _ Hok); simpl; [done|by rewrite length_imap|done]. Qed.

Lemma apply_transform_shrinks t : shrinks (λ g, (apply_cell_transform t g).2).
Proof.
  intros g Hg. unfold apply_cell_transform. rewrite ensure_id by apply (so_images _ Hg). simpl. split; [|done].
  eapply step_ok; [exact Hg|done|]. simpl. apply retain_edited_ok.
  assert (∀ next s e, images_ok next s →
    images_ok next (s{{ kitty_character_edited_placements := e }})) as Hedit.
  { intros next s e [H1 H2 H3 H4 H5]. by split. }
  apply Hedit. destruct (is_character_edit t); [apply synchronize_ok|]; apply transform_ok, Hg.
Qed.
