(* ===== verification/ImageDeletion.v ===== *)
(** Deletion of placements: what the deletion commands remove and what they
    leave, the end of the loops that follow relations between placements. *)
From coqutil Require Import Datatypes.RecordSetters.
From S2P Require Import Prelude Text Grid Csi Parse Utf8 Feed Screen Scroll.
From S2P Require Import Images Placements Placeholders Kitty ScreenFacts ImageFacts.
Import DoubleBraceUpdate.

Local Open Scope Z_scope.

Implicit Types (g : ImageState) (image : ItermInlineImage) (key : KittyPlacementKey).

Definition parents_of g : gmap KittyPlacementKey KittyPlacementKey := kitty_relative_parents (shared_images g).
Definition shown g : list ItermInlineImage := inline_images (images g).

(** Both ends of every relation are shown. *)
Definition relations_shown g : Prop :=
  ∀ child parent, parents_of g !! child = Some parent →
    child ∈ keys_of (shown g) ∧ parent ∈ keys_of (shown g).

(** The placements a deletion takes along: those relative to a placement that
    is deleted, or that is not shown, or that is itself taken along. *)
Inductive taken_along g (matches : ItermInlineImage → bool) : KittyPlacementKey → Prop :=
| parent_deleted child parent :
    parents_of g !! child = Some parent →
    parent ∈ keys_of (filter (λ image, matches image) (shown g)) →
    taken_along g matches child
| parent_not_shown child parent :
    parents_of g !! child = Some parent →
    parent ∉ keys_of (shown g) →
    taken_along g matches child
| parent_taken_along child parent :
    parents_of g !! child = Some parent →
    taken_along g matches parent →
    taken_along g matches child.

Lemma elem_of_keys key (l : list ItermInlineImage) :
  key ∈ keys_of l ↔ ∃ image, image ∈ l ∧ kitty_image_placement_key image = Some key.
Proof. unfold keys_of. rewrite elem_of_list_to_set, list_elem_of_omap. naive_solver. Qed.

Lemma no_orphans_iff g : orphan_keys g = ∅ ↔ relations_shown g.
Proof.
  unfold orphan_keys. rewrite dom_empty_iff_L. split.
  - intros He child parent Hp. apply dec_stable. intros Hn.
    apply (f_equal (lookup child)) in He. rewrite lookup_empty in He.
    rewrite map_lookup_filter_None in He. destruct He as [He|He]; [unfold parents_of in Hp; congruence|].
    apply (He parent Hp). simpl. naive_solver.
  - intros Hs. apply map_empty. intros child. apply map_lookup_filter_None. right.
    intros parent Hp Hn. apply Hn. simpl. destruct (Hs child parent Hp). done.
Qed.

(** What the deletion has done so far: relations only go, placements that are
    still shown keep theirs, and those that went have a key in [lost]. *)
Record prunes (lost : KittyPlacementKey → Prop) g g' : Prop := {
  pr_parents : parents_of g' ⊆ parents_of g;
  pr_shown : ∀ image, image ∈ shown g' → image ∈ shown g;
  pr_related : ∀ image key parent, image ∈ shown g' → kitty_image_placement_key image = Some key →
    parents_of g !! key = Some parent → parents_of g' !! key = Some parent;
  pr_lost : ∀ image, image ∈ shown g → image ∈ shown g' ∨
    ∃ key, kitty_image_placement_key image = Some key ∧ lost key;
}.

#[export] Instance prunes_preorder lost : PreOrder (prunes lost).
Proof.
  split; [split; naive_solver|]. intros g1 g2 g3 [A1 A2 A3 A4] [B1 B2 B3 B4]. split; [by etrans|naive_solver..].
Qed.

Lemma prunes_same lost g g' :
  parents_of g' = parents_of g → shown g' = shown g → prunes lost g g'.
Proof. intros H1 H2. split; rewrite ?H1, ?H2; naive_solver. Qed.

Lemma retain_shown keep g :
  state_ok g → shown (retain_inline_images keep g) = filter (λ i, keep i) (shown g).
Proof. intros Hg. apply (retain_spec keep g), (so_images _ Hg). Qed.

Lemma retain_parents keep g : parents_of (retain_inline_images keep g) = parents_of g.
Proof. done. Qed.

Lemma retain_prunes (lost : KittyPlacementKey → Prop) keep g :
  state_ok g →
  (∀ image, image ∈ shown g → keep image = false →
     ∃ key, kitty_image_placement_key image = Some key ∧ lost key) →
  prunes lost g (retain_inline_images keep g).
Proof.
  intros Hg Hk. split; [done|..]; setoid_rewrite retain_shown; try done; setoid_rewrite list_elem_of_filter.
  - by intros image [_ ?].
  - intros image Hi. destruct (keep image) eqn:E; [by left|right; by apply Hk].
Qed.

Lemma unreferenced_same lost ids g : prunes lost g (remove_unreferenced_kitty_images ids g).
Proof.
  unfold remove_unreferenced_kitty_images. apply (foldl_preorder (prunes lost)).
  intros g' i. apply prunes_same; by destruct (image_in_use i g').
Qed.

Lemma relative_to_iff parents keys image :
  relative_to parents keys image = true ↔
  ∃ key parent, kitty_image_placement_key image = Some key ∧ parents !! key = Some parent ∧ parent ∈ keys.
Proof.
  unfold relative_to. destruct (kitty_image_placement_key image) as [key|]; simpl; [|naive_solver].
  destruct (parents !! key) as [parent|] eqn:Hp; [|naive_solver]. rewrite bool_decide_eq_true. naive_solver.
Qed.

(** Removing the placements relative to lost ones, pass after pass, loses
    nothing else, and ends with no placement relative to one of [keys]. *)
Lemma relative_children_prunes (lost : KittyPlacementKey → Prop) fuel removed relative keys g :
  (∀ child parent, parents_of g !! child = Some parent → parent ∈ keys ∨ lost parent → lost child) →
  state_ok g → (length (shown g) < fuel)%nat →
  let g' := (relative_children_loop fuel removed relative keys g).2 in
  prunes lost g g' ∧ parents_of g' = parents_of g ∧
  ∀ image, image ∈ shown g' → relative_to (parents_of g) keys image = false.
Proof.
  revert removed relative keys g. induction fuel as [|fuel IH]; intros removed relative keys g Hl Hg Hf; [lia|].
  cbn [relative_children_loop]. fold (parents_of g) (shown g). set (child := relative_to (parents_of g) keys).
  set (g1 := retain_inline_images _ g).
  assert (prunes lost g g1) as P1.
  { apply retain_prunes; [done|]. intros image _ Hc%negb_false_iff.
    apply relative_to_iff in Hc as (key & parent & Hk & Hp & Hin). exists key. split; [done|]. eauto. }
  assert (shown g1 = filter (λ image, negb (child image)) (shown g)) as Hs by by apply retain_shown.
  case_bool_decide as Hgone.
  - split_and!; [exact P1|done|]. cbn [snd]. intros image. rewrite Hs. intros [Hc _]%list_elem_of_filter.
    fold child. by destruct (child image).
  - match goal with |- context [relative_children_loop fuel ?a ?b ?c ?x] => destruct (IH a b c x) as (P2 & Hp & Hend) end.
    + intros c p Hcp. change (parents_of g1) with (parents_of g) in Hcp. rewrite elem_of_union.
      intros [[Hk|Hk]|Hk]; [by eauto| |by eauto]. apply (Hl c p); [done|right].
      apply elem_of_keys in Hk as (image & [Hc%Is_true_true Hi]%list_elem_of_filter & Hk).
      apply relative_to_iff in Hc as (key & parent & Hk' & Hp & Hin). simplify_eq. eauto.
    + by apply retain_ok.
    + rewrite Hs.
      destruct (filter (λ image, child image) (shown g)) as [|image rest] eqn:Hfilter; [done|].
      assert (image ∈ image :: rest) as Hin by left. rewrite <-Hfilter in Hin.
      apply list_elem_of_filter in Hin as [Hc Hi].
      assert (length (filter (λ image, negb (child image)) (shown g)) < length (shown g))%nat; [|lia].
      apply (length_filter_lt _ _ image Hi). by rewrite Is_true_true, negb_true_iff, (Is_true_eq_true _ Hc).
    + split_and!; [by etrans|done|]. intros image Hi. specialize (Hend image Hi).
      change (parents_of g1) with (parents_of g) in Hend. apply not_true_iff_false. intros Hc.
      apply not_true_iff_false in Hend. apply Hend. apply relative_to_iff in Hc as (key & parent & Hk & Hp' & Hin).
      apply relative_to_iff. exists key, parent. split_and!; [done..|]. set_solver.
Qed.

(** The relations without those of the orphans are fewer. *)
Lemma orphans_fewer g :
  orphan_keys g ≠ ∅ →
  (size (filter (λ p, p.1 ∉ orphan_keys g) (parents_of g)) < size (parents_of g))%nat.
Proof.
  intros Hne. apply set_choose_L in Hne as [key Hk].
  assert (∃ p, parents_of g !! key = Some p) as [p Hp].
  { unfold orphan_keys in Hk. apply elem_of_dom in Hk as [p [Hp _]%map_lookup_filter_Some]. by exists p. }
  rewrite <-(insert_delete_id (parents_of g) key p) at 2 by done.
  rewrite map_size_insert_None by apply lookup_delete_eq. apply Nat.lt_succ_r. apply map_subseteq_size.
  apply map_subseteq_spec. intros i x Hx. apply map_lookup_filter_Some in Hx as [Hx Hi]. simpl in Hi.
  rewrite lookup_delete_ne; [done|]. intros ->. done.
Qed.

(** One pass of the loop. *)
Definition orphan_pass (remove_stored : bool) g : ImageState :=
  let orphans := orphan_keys g in
  let gone := filter (λ image, is_orphan orphans image) (inline_images (images g)) in
  let g := g{{ shared_images -> kitty_relative_parents :=
                 filter (λ p, p.1 ∉ orphans) (kitty_relative_parents (shared_images g)) }} in
  let g := retain_inline_images (λ image, negb (is_orphan orphans image)) g in
  if remove_stored then remove_unreferenced_kitty_images (image_ids_of gone) g else g.

Lemma unreferenced_parents ids g : parents_of (remove_unreferenced_kitty_images ids g) = parents_of g.
Proof.
  unfold remove_unreferenced_kitty_images. revert g. induction ids as [|i ids IH]; intros g; [done|].
  simpl. rewrite IH. by destruct (image_in_use i g).
Qed.

Lemma is_orphan_iff g image :
  is_orphan (orphan_keys g) image = true ↔
  ∃ key parent, kitty_image_placement_key image = Some key ∧ parents_of g !! key = Some parent ∧
    ¬ (parent ∈ keys_of (shown g) ∧ key ∈ keys_of (shown g)).
Proof.
  unfold is_orphan. destruct (kitty_image_placement_key image) as [key|]; [|naive_solver].
  rewrite bool_decide_eq_true. unfold orphan_keys. rewrite elem_of_dom. unfold is_Some.
  setoid_rewrite map_lookup_filter_Some. naive_solver.
Qed.

Lemma orphan_pass_spec (lost : KittyPlacementKey → Prop) b g :
  state_ok g →
  (∀ child parent, parents_of g !! child = Some parent → parent ∉ keys_of (shown g) → lost child) →
  state_ok (orphan_pass b g) ∧ prunes lost g (orphan_pass b g) ∧
  parents_of (orphan_pass b g) = filter (λ p, p.1 ∉ orphan_keys g) (parents_of g).
Proof.
  intros Hg Hl. unfold orphan_pass. set (orphans := orphan_keys g).
  match goal with |- context [retain_inline_images ?k ?x] => set (g1 := x); set (keep := k) end.
  assert (state_ok g1) as H1 by apply (orphan_step_shrinks orphans), Hg.
  assert (shown (retain_inline_images keep g1) = filter (λ i, keep i) (shown g)) as Hs by exact (retain_shown keep g1 H1).
  assert (prunes lost g (retain_inline_images keep g1)) as Hp.
  { split; rewrite ?Hs, ?retain_parents.
    - apply map_filter_subseteq.
    - by intros image [_ ?]%list_elem_of_filter.
    - intros image key parent [Hk%Is_true_true Hi]%list_elem_of_filter Hkey Hp.
      apply map_lookup_filter_Some. split; [done|]. cbn [fst]. intros Ho. unfold keep, is_orphan in Hk.
      rewrite Hkey, bool_decide_eq_true_2 in Hk by done. done.
    - intros image Hi. destruct (keep image) eqn:Hk.
      + left. apply list_elem_of_filter. by rewrite Hk.
      + right. apply negb_false_iff, is_orphan_iff in Hk as (key & parent & Hkey & Hp & Hn). exists key. split; [done|].
        apply (Hl key parent Hp). intros Hin. apply Hn. split; [done|]. apply elem_of_keys. eauto. }
  pose proof (retain_ok keep g1 H1) as H2. destruct b; split_and!; try done.
  - by apply remove_unreferenced_shrinks.
  - etrans; [exact Hp|apply unreferenced_same].
  - by rewrite unreferenced_parents.
Qed.

(** The loop over the orphans, from a state [g] the deletion started with. *)
Lemma orphan_loop_ends (lost : KittyPlacementKey → Prop) fuel b g g1 :
  (∀ child parent, parents_of g !! child = Some parent → parent ∉ keys_of (shown g) ∨ lost parent → lost child) →
  prunes lost g g1 → state_ok g1 → (size (parents_of g1) < fuel)%nat →
  relations_shown (orphan_loop fuel b g1) ∧ prunes lost g (orphan_loop fuel b g1).
Proof.
  intros Hl. revert g1. induction fuel as [|fuel IH]; intros g1 Hp Hg Hf; [lia|]. simpl.
  case_bool_decide as Ho; [by split; [apply no_orphans_iff|]|].
  change (relations_shown (orphan_loop fuel b (orphan_pass b g1)) ∧
          prunes lost g (orphan_loop fuel b (orphan_pass b g1))).
  destruct (orphan_pass_spec lost b g1 Hg) as (H1 & H2 & H3).
  { intros child parent Hc Hn. apply (Hl child parent); [by eapply lookup_weaken, pr_parents|].
    destruct (decide (parent ∈ keys_of (shown g))) as [(image & Hi & Hk)%elem_of_keys|]; [right|by left].
    destruct (pr_lost _ _ _ Hp image Hi) as [Hi'|(key & Hk' & Hlost)]; [|by simplify_eq].
    destruct Hn. apply elem_of_keys. eauto. }
  apply IH; [by etrans|done|]. rewrite H3. pose proof (orphans_fewer g1 Ho). lia.
Qed.

(** The state after the first removal of [delete_kitty_placements]. *)
Definition without_matching (matches : ItermInlineImage → bool) g : ImageState :=
  retain_inline_images (λ image, negb (matches image)) g.

Lemma without_matching_shown matches g :
  state_ok g → shown (without_matching matches g) = filter (λ image, negb (matches image)) (shown g).
Proof. apply retain_shown. Qed.

Lemma taken_along_closed matches g child parent :
  state_ok g → parents_of g !! child = Some parent →
  parent ∉ keys_of (shown (without_matching matches g)) ∨ taken_along g matches parent →
  taken_along g matches child.
Proof.
  intros Hg Hp [Hn|Hd]; [|by eapply parent_taken_along].
  destruct (decide (parent ∈ keys_of (shown g))) as [(image & Hi & Hk)%elem_of_keys|]; [|by eapply parent_not_shown].
  apply (parent_deleted _ _ _ parent); [done|]. apply elem_of_keys. exists image. split; [|done].
  apply list_elem_of_filter. split; [|done]. destruct (matches image) eqn:Hm; [done|].
  destruct Hn. apply elem_of_keys. exists image. split; [|done].
  rewrite without_matching_shown, list_elem_of_filter by done. by rewrite Hm.
Qed.

(** The rest of the deletion, and what holds between. *)
Lemma deletion_prunes v b matches g :
  state_ok g →
  let g' := delete_kitty_placements v b matches g in
  relations_shown g' ∧ prunes (taken_along g matches) (without_matching matches g) g' ∧
  ∀ image, image ∈ shown g' →
    relative_to (parents_of g) (keys_of (filter (λ image, matches image) (shown g))) image = false.
Proof.
  intros Hg g'. set (lost := taken_along g matches). set (g1 := without_matching matches g).
  assert (state_ok g1) as H1 by (by apply retain_ok).
  unfold g', delete_kitty_placements. fold (without_matching matches g) (shown g). fold g1.
  unfold delete_relative_kitty_children.
  match goal with |- context [relative_children_loop ?n ?a ?b ?c ?x] =>
    destruct (relative_children_shrinks n a b c x H1) as [H2 _];
    destruct (relative_children_prunes lost n a b c x) as (P2 & Hp2 & Hend2);
    [intros child parent Hp [Hk|Hk]; [by eapply parent_deleted|by eapply parent_taken_along]|done|unfold shown; lia|];
    destruct (relative_children_loop n a b c x) as [[removed relative] g2] end.
  cbn [snd] in H2, P2, Hp2, Hend2. set (g3 := if bool_decide _ then g2 else _).
  assert (state_ok g3 ∧ prunes lost g2 g3) as [H3 P3].
  { unfold g3. case_bool_decide; [done|]. destruct b.
    - split; [by apply damage_shrinks, remove_unreferenced_shrinks, remove_unreferenced_shrinks|].
      etrans; [apply (unreferenced_same lost removed)|]. etrans; [apply (unreferenced_same lost relative)|].
      by apply prunes_same.
    - split; [by apply damage_shrinks, remove_unreferenced_shrinks|].
      etrans; [apply (unreferenced_same lost relative)|]. by apply prunes_same. }
  clearbody g3. change (delete_orphan_kitty_relative_children g3) with (orphan_loop (S (size (parents_of g3))) true g3).
  destruct (orphan_loop_ends lost (S (size (parents_of g3))) true g1 g3) as [Hr P4]; [|by etrans|done|lia|].
  { intros child parent. exact (taken_along_closed matches g child parent Hg). }
  split_and!; [done..|]. intros image Hi. apply Hend2, (pr_shown _ _ _ P3).
  destruct (orphan_loop_ends (λ _, True) (S (size (parents_of g3))) true g3 g3) as [_ P5]; [done..|lia|].
  by apply (pr_shown _ _ _ P5).
Qed.

(** C20. Deleting placements, by whatever test: a placement is left exactly
    when it was shown, does not satisfy the test and is not taken along,
    that is, no chain of relations leads from it to a placement that is
    deleted or not shown; and afterwards the two ends of every relation
    between placements are shown, however long the chains were. *)
Theorem delete_removes_exactly_dependants v b matches g :
  state_ok g →
  let g' := delete_kitty_placements v b matches g in
  (∀ image, image ∈ inline_images (images g') ↔
     image ∈ inline_images (images g) ∧ matches image = false ∧
     ¬ ∃ key, kitty_image_placement_key image = Some key ∧ taken_along g matches key) ∧
  relations_shown g'.
Proof.
  intros Hg g'. destruct (deletion_prunes v b matches g Hg) as (Hr & Hp & Hend). fold g' in Hr, Hp, Hend.
  assert (∀ child parent, parents_of g !! child = Some parent → child ∈ keys_of (shown g') →
            parent ∈ keys_of (shown g')) as Hup.
  { intros child parent Hc (image & Hi & Hk)%elem_of_keys.
    eapply (Hr child parent), (pr_related _ _ _ Hp image child parent); done. }
  assert (∀ key, taken_along g matches key → key ∉ keys_of (shown g')) as Hgone.
  { intros key Hk. induction Hk as [child parent Hc Hd|child parent Hc Hn|child parent Hc Ht IH]; [| |eauto].
    - intros (image & Hi & Hkey)%elem_of_keys. specialize (Hend image Hi). apply not_true_iff_false in Hend.
      apply Hend, relative_to_iff. eauto.
    - intros (image & Hi & Hk)%(Hup _ _ Hc)%elem_of_keys. apply Hn, elem_of_keys. exists image. split; [|done].
      apply (pr_shown _ _ _ Hp) in Hi. rewrite without_matching_shown in Hi by done.
      by apply list_elem_of_filter in Hi as [_ Hi]. }
  split; [|done]. intros image. fold (shown g') (shown g). split.
  - intros Hi. pose proof (pr_shown _ _ _ Hp image Hi) as Hi1.
    rewrite without_matching_shown in Hi1 by done. apply list_elem_of_filter in Hi1 as [Hm Hi1].
    split_and!; [done|by destruct (matches image)|]. intros (key & Hk & Ht). apply (Hgone key Ht), elem_of_keys. eauto.
  - intros (Hi & Hm & Hn). destruct (pr_lost _ _ _ Hp image) as [?|?]; [|done..].
    rewrite without_matching_shown by done. apply list_elem_of_filter. by rewrite Hm.
Qed.
