(* ===== verification/KittyFacts.v ===== *)
(** The Kitty protocol from the program's side: an upload in chunks has the
    effect of one upload, and new images get identifiers that are free. *)
From coqutil Require Import Datatypes.RecordSetters.
From S2P Require Import Prelude Text Grid Csi CsiFacts Parse Utf8 Feed Screen Scroll.
From S2P Require Import Images Placements Placeholders Kitty.
Import DoubleBraceUpdate.

Local Open Scope Z_scope.

(** ** Control data *)

Lemma split_once_app c s t : c ∉ s → split_once c (s ++ c :: t) = Some (s, t).
Proof.
  induction s as [|x s IH]; intros Hn; simpl.
  - by rewrite Z.eqb_refl.
  - destruct (Z.eqb_spec x c) as [->|]; [set_solver|]. rewrite IH by set_solver. done.
Qed.

(** One more parameter at the end. *)
Lemma params_snoc control piece :
  44 ∉ piece →
  parse_kitty_graphics_params (control ++ 44 :: piece) =
    match split_once 61 piece with
    | Some (key, value) => apply_param key value (parse_kitty_graphics_params control)
    | None => parse_kitty_graphics_params control
    end.
Proof.
  intros Hp. unfold parse_kitty_graphics_params. rewrite split_on_app, (split_on_piece 44 piece) by done.
  by rewrite foldl_app.
Qed.

Lemma params_first_chunk control :
  parse_kitty_graphics_params (control ++ lit ",m=1") =
    (parse_kitty_graphics_params control){{ kp_more_chunks := Some 1 }}.
Proof. apply (params_snoc control (lit "m=1")). vm_compute. set_solver. Qed.

Lemma params_last_chunk control :
  parse_kitty_graphics_params (control ++ lit ",m=0") =
    (parse_kitty_graphics_params control){{ kp_more_chunks := Some 0 }}.
Proof. apply (params_snoc control (lit "m=0")). vm_compute. set_solver. Qed.

(** The data of an upload does not matter to its start. *)
Lemma start_data params m data data' upload :
  start_kitty_graphics_upload params data = inr upload →
  start_kitty_graphics_upload (params{{ kp_more_chunks := m }}) data' = inr (upload{{ pg_encoded_data := data' }}).
Proof.
  unfold start_kitty_graphics_upload. simpl. intros H.
  repeat (case_match; try discriminate); by injection H as <-.
Qed.

Section kitty.
  Context `{Ext : External} `{Host : ImageHost}.

(** ** Chunks *)

Lemma set_pending_twice p q g : set_pending_graphics p (set_pending_graphics q g) = set_pending_graphics p g.
Proof. done. Qed.

Lemma set_pending_same g : set_pending_graphics (pending_kitty_graphics (shared_images g)) g = g.
Proof. by destruct g as [[]]. Qed.

Lemma middle_chunk v data upload g :
  enable_kitty_graphics (shared_images g) = true →
  apply_kitty_graphics v (lit "m=1;" ++ data) (set_pending_graphics (Some upload) g) =
    set_pending_graphics (Some (add_data data upload)) g.
Proof.
  intros He. unfold apply_kitty_graphics.
  change (enable_kitty_graphics (shared_images (set_pending_graphics (Some upload) g)))
    with (enable_kitty_graphics (shared_images g)).
  rewrite He. cbn [negb].
  change (split_once 59 (lit "m=1;" ++ data)) with (Some (lit "m=1", data)). cbn [default from_option id].
  change (parse_kitty_graphics_params (lit "m=1")) with (default_params{{ kp_more_chunks := Some 1 }}). done.
Qed.

Lemma final_chunk v data upload g :
  enable_kitty_graphics (shared_images g) = true →
  apply_kitty_graphics v (lit "m=0;" ++ data) (set_pending_graphics (Some upload) g) =
    finish_kitty_graphics_upload v (add_data data upload) (set_pending_graphics None g).
Proof.
  intros He. unfold apply_kitty_graphics.
  change (enable_kitty_graphics (shared_images (set_pending_graphics (Some upload) g)))
    with (enable_kitty_graphics (shared_images g)).
  rewrite He. cbn [negb].
  change (split_once 59 (lit "m=0;" ++ data)) with (Some (lit "m=0", data)). cbn [default from_option id].
  change (parse_kitty_graphics_params (lit "m=0")) with (default_params{{ kp_more_chunks := Some 0 }}). done.
Qed.

Lemma middle_chunks v chunks upload g :
  enable_kitty_graphics (shared_images g) = true →
  foldl (λ g data, apply_kitty_graphics v (lit "m=1;" ++ data) g) (set_pending_graphics (Some upload) g) chunks =
    set_pending_graphics (Some (add_data (concat chunks) upload)) g.
Proof.
  intros He. revert upload. induction chunks as [|data chunks IH]; intros upload; cbn [foldl concat].
  - unfold add_data. rewrite app_nil_r. by destruct upload.
  - rewrite middle_chunk by done. rewrite IH. unfold add_data. simpl. by rewrite <-app_assoc.
Qed.

(** The commands that start an upload. *)
Definition starts_upload (params : KittyGraphicsParams) : Prop :=
  kp_action params ≠ Some 112 ∧ kp_action params ≠ Some 100 ∧
  (kp_image_id params = None ∨ kp_image_number params = None) ∧
  ∃ upload, start_kitty_graphics_upload params [] = inr upload.

Lemma upload_command v control more m data g upload :
  59 ∉ control ++ more →
  parse_kitty_graphics_params (control ++ more) = (parse_kitty_graphics_params control){{ kp_more_chunks := Some m }} →
  enable_kitty_graphics (shared_images g) = true → pending_kitty_graphics (shared_images g) = None →
  starts_upload (parse_kitty_graphics_params control) →
  start_kitty_graphics_upload (parse_kitty_graphics_params control) [] = inr upload → m = 0 ∨ m = 1 →
  apply_kitty_graphics v (control ++ more ++ 59 :: data) g =
    if m =? 1 then set_pending_graphics (Some (upload{{ pg_encoded_data := data }})) g
    else finish_kitty_graphics_upload v (upload{{ pg_encoded_data := data }}) g.
Proof.
  intros Hs Hp He Hn (Ha & Hd & Hi & _) Hu Hm. unfold apply_kitty_graphics. rewrite He. cbn [negb].
  rewrite (app_assoc control more), split_once_app by done. cbn [default from_option id].
  rewrite Hp. set (params := parse_kitty_graphics_params control) in *. clearbody params.
  rewrite (start_data params (Some m) [] data upload Hu), Hn.
  change (kp_image_id (params{{ kp_more_chunks := Some m }})) with (kp_image_id params).
  change (kp_image_number (params{{ kp_more_chunks := Some m }})) with (kp_image_number params).
  change (kp_action (params{{ kp_more_chunks := Some m }})) with (kp_action params).
  change (kp_more_chunks (params{{ kp_more_chunks := Some m }})) with (Some m).
  assert (bool_decide (is_Some (kp_image_id params)) && bool_decide (is_Some (kp_image_number params)) = false)
    as Hb.
  { apply andb_false_iff. rewrite !bool_decide_eq_false. destruct Hi as [->| ->]; [left|right]; by intros []. }
  rewrite Hb. rewrite (bool_decide_false (Some m = None)) by done. rewrite andb_false_r.
  rewrite (bool_decide_false (kp_action params = Some 112)) by done.
  rewrite (bool_decide_false (kp_action params = Some 100)) by done.
  assert (set_pending_graphics None g = g) as Hg by (rewrite <-Hn; apply set_pending_same).
  rewrite Hg. destruct Hm as [-> | ->]; done.
Qed.

(** C21. An upload sent in any number of chunks leaves the terminal in the
    state in which the same control data with all the data in one command
    leaves it, responses included: whether the image is stored, shown or
    only checked, and whatever the data decodes to. *)
Theorem chunked_upload_is_one_upload v control first chunks last g :
  59 ∉ control → starts_upload (parse_kitty_graphics_params control) →
  pending_kitty_graphics (shared_images g) = None →
  apply_kitty_graphics v (lit "m=0;" ++ last)
    (foldl (λ g data, apply_kitty_graphics v (lit "m=1;" ++ data) g)
       (apply_kitty_graphics v (control ++ lit ",m=1;" ++ first) g) chunks)
  = apply_kitty_graphics v (control ++ lit ",m=0;" ++ first ++ concat chunks ++ last) g.
Proof.
  intros Hc Hs Hn. destruct (enable_kitty_graphics (shared_images g)) eqn:He; last first.
  { assert (∀ s, apply_kitty_graphics v s g = g) as Hoff.
    { intros s. unfold apply_kitty_graphics. rewrite He. simpl. rewrite <-Hn. apply set_pending_same. }
    rewrite !Hoff. assert (foldl (λ g data, apply_kitty_graphics v (lit "m=1;" ++ data) g) g chunks = g) as ->.
    { induction chunks as [|d chunks IH]; [done|]. simpl. by rewrite Hoff. }
    apply Hoff. }
  pose proof Hs as (_ & _ & _ & upload & Hu).
  assert (∀ more, 59 ∉ lit more → 59 ∉ control ++ lit more) as Hmore.
  { intros more Hm. rewrite not_elem_of_app. done. }
  change (lit ",m=1;" ++ first) with (lit ",m=1" ++ 59 :: first).
  rewrite (upload_command v control (lit ",m=1") 1 first g upload)
    by (first [apply params_first_chunk | apply Hmore; vm_compute; set_solver | by right | done]).
  change (1 =? 1) with true. cbv iota. rewrite middle_chunks, final_chunk, <-Hn, set_pending_same by done.
  change (lit ",m=0;" ++ first ++ concat chunks ++ last) with (lit ",m=0" ++ 59 :: first ++ concat chunks ++ last).
  rewrite (upload_command v control (lit ",m=0") 0 _ g upload)
    by (first [apply params_last_chunk | apply Hmore; vm_compute; set_solver | by left | done]).
  change (0 =? 1) with false. cbv iota. f_equal. unfold add_data. simpl. by rewrite <-app_assoc.
Qed.

(** ** New identifiers *)

Lemma above_size (stored : gmap Z StoredKittyImage) i image :
  stored !! i = Some image →
  size (filter (λ p, i ≤ p.1) stored) = S (size (filter (λ p, i + 1 ≤ p.1) stored)).
Proof.
  intros Hi.
  assert (filter (λ p, i + 1 ≤ p.1) stored = delete i (filter (λ p, i ≤ p.1) stored)) as ->.
  { apply map_eq. intros j. destruct (decide (j = i)) as [->|Hj].
    - rewrite lookup_delete_eq. apply map_lookup_filter_None. right. intros x _. simpl. lia.
    - rewrite lookup_delete_ne by done. rewrite !map_lookup_filter. destruct (stored !! j); simpl; [|done].
      repeat case_guard; (done || lia). }
  rewrite <-(insert_delete_id (filter _ _) i image) at 1 by (by apply map_lookup_filter_Some).
  by rewrite map_size_insert_None by apply lookup_delete_eq.
Qed.

(** The search ends at an identifier that is not stored. *)
Lemma free_image_id_spec fuel i (stored : gmap Z StoredKittyImage) :
  1 ≤ i → i + Z.of_nat fuel ≤ u32_max + 1 → (size (filter (λ p, (i ≤ p.1)%Z) stored) < fuel)%nat →
  let r := free_image_id fuel i stored in i ≤ r < i + Z.of_nat fuel ∧ stored !! r = None.
Proof.
  revert i. induction fuel as [|fuel IH]; intros i Hi Hf Hs; [lia|]. cbn [free_image_id].
  replace (i =? ANONYMOUS_KITTY_IMAGE_ID) with false by (symmetry; apply Z.eqb_neq; unfold ANONYMOUS_KITTY_IMAGE_ID; lia).
  cbn [orb]. case_bool_decide as Hd.
  - destruct Hd as [image Hd]. pose proof (above_size stored i image Hd) as Hz.
    change (size (filter (λ p, (i ≤ p.1)%Z) stored) < S fuel)%nat in Hs. rewrite Hz in Hs.
    assert (0 < fuel)%nat by lia.
    replace (Z.max (sat_add_u32 i 1) 1) with (i + 1) by (unfold sat_add_u32; lia).
    destruct (IH (i + 1)) as [H1 H2]; [lia..|]. split; [lia|done].
  - split; [lia|]. by apply eq_None_not_Some.
Qed.

(** An upload that names its image by a number gets an identifier that is
    not in use and not zero: no stored image changes, the number leads to the
    new image, and the placements of other images stay. *)
Theorem numbered_upload_is_new v upload image number g :
  pg_image_id upload = None → pg_image_number upload = Some number →
  let k := shared_images g in
  1 ≤ next_kitty_image_id k → next_kitty_image_id k + Z.of_nat (size (kitty_images k)) < u32_max →
  let '(i, g') := store_uploaded_image v upload image g in
  ∃ n, i = Some n ∧ 1 ≤ n ∧ kitty_images k !! n = None ∧
    kitty_images (shared_images g') = <[n := image]> (kitty_images k) ∧
    kitty_image_numbers (shared_images g') = <[number := n]> (kitty_image_numbers k) ∧
    images g' = images g ∧ n < next_kitty_image_id (shared_images g').
Proof.
  intros Hi Hn k H1 H2. unfold store_uploaded_image. rewrite Hi, Hn. unfold next_kitty_id. fold k.
  rewrite Z.max_l by done.
  destruct (free_image_id_spec (S (size (kitty_images k))) (next_kitty_image_id k) (kitty_images k))
    as [Hr Hf]; [done|lia| |].
  { apply Nat.lt_succ_r, map_size_filter. }
  set (n := free_image_id _ _ _) in *. clearbody n. exists n.
  assert (∀ params status h, let h' := push_kitty_graphics_response params status h in
    images h' = images h ∧ shared_images h' = (shared_images h){{ kitty_graphics_responses :=
      kitty_graphics_responses (shared_images h') }}) as Hpush.
  { intros params status h. unfold push_kitty_graphics_response. case_match; [|done]. by destruct h as [[]]. }
  match goal with |- context [push_kitty_graphics_ok_response ?p ?h] => destruct (Hpush p (lit "OK") h) as [P1 P2];
    unfold push_kitty_graphics_ok_response; rewrite P2 end.
  split_and!; try done; [lia|]. simpl. unfold sat_add_u32. lia.
Qed.
End kitty.
