(* ===== verification/Attachments.v ===== *)
(** Images attached to cells follow the text: where the graphics code moves an
    attached cell in a scroll between margins is where the screen code moves
    the text of that cell. *)
From coqutil Require Import Datatypes.RecordSetters.
From S2P Require Import Prelude Text Grid GridFacts Csi Parse Utf8 Feed Screen Scroll Edit Control.
From S2P Require Import ScreenFacts TerminalInv GraphemeFacts Images Placements.
Import DoubleBraceUpdate.

(** ** Rows of cells *)

Section rows.
  Context (first last : nat).

Definition in_columns (c : nat) : Prop := first ≤ c ≤ last.

Lemma columns_between c : c ∈ rows_between first last ↔ in_columns c.
Proof. unfold rows_between, in_columns. rewrite elem_of_seq. lia. Qed.

Lemma rows_between_NoDup a b : NoDup (rows_between a b).
Proof. apply NoDup_seq. Qed.

(** Writing some cells of a row; [f] does not look at them. *)
Lemma set_cells_get to (f : nat → TerminalGrid → Cell) l g r c :
  (∀ x y z g, f y (TerminalGrid.set to x z g).2 = f y g) → NoDup l →
  TerminalGrid.get r c (foldl (λ g x, (TerminalGrid.set to x (f x g) g).2) g l) =
    if decide (r = to ∧ c ∈ l ∧ is_Some (TerminalGrid.get to c g)) then Some (f c g)
    else TerminalGrid.get r c g.
Proof.
  intros Hf Hn. revert g. induction Hn as [|x l Hx Hn IH]; intros g.
  - rewrite decide_False; [done|]. intros (_ & Hc & _). by apply elem_of_nil in Hc.
  - simpl. rewrite IH, Hf. clear IH.
    assert (is_Some (TerminalGrid.get to c (TerminalGrid.set to x (f x g) g).2) ↔
            is_Some (TerminalGrid.get to c g)) as Hs.
    { rewrite get_set_cell. case_decide as Hd; [|done]. destruct Hd as (_ & -> & Hd). done. }
    destruct (decide (r = to ∧ c ∈ l ∧ is_Some (TerminalGrid.get to c g))) as [Hd|Hd].
    + rewrite decide_True by (by rewrite Hs). rewrite decide_True by set_solver. done.
    + rewrite decide_False by (by rewrite Hs). rewrite get_set_cell.
      destruct (decide (r = to ∧ c = x ∧ is_Some (TerminalGrid.get to x g))) as [(-> & -> & ?)|Hd'].
      * rewrite decide_True by set_solver. done.
      * rewrite decide_False; [done|]. intros (-> & Hc & ?). apply elem_of_cons in Hc as [->|]; naive_solver.
Qed.

Lemma blank_row_get blank row g r c :
  TerminalGrid.get r c (blank_row first last blank row g) =
    if decide (r = row ∧ in_columns c ∧ is_Some (TerminalGrid.get row c g)) then Some blank
    else TerminalGrid.get r c g.
Proof.
  unfold blank_row. rewrite (set_cells_get row (λ _ _, blank)); [|done|apply rows_between_NoDup].
  apply decide_ext. by rewrite columns_between.
Qed.

Lemma copy_row_get from to g r c :
  from ≠ to →
  TerminalGrid.get r c (copy_row first last from to g) =
    if decide (r = to ∧ in_columns c ∧ is_Some (TerminalGrid.get to c g))
    then Some (default Cell.default (TerminalGrid.get from c g)) else TerminalGrid.get r c g.
Proof.
  intros Hne. unfold copy_row.
  rewrite (set_cells_get to (λ x g, default Cell.default (TerminalGrid.get from x g)));
    [|intros x y z g'; rewrite get_set_cell, decide_False by naive_solver; done|apply rows_between_NoDup].
  apply decide_ext. by rewrite columns_between.
Qed.

(** Blanking some rows. *)
Lemma blank_rows_get blank l g r c :
  TerminalGrid.get r c (foldl (λ g row, blank_row first last blank row g) g l) =
    if decide (r ∈ l ∧ in_columns c ∧ is_Some (TerminalGrid.get r c g)) then Some blank
    else TerminalGrid.get r c g.
Proof.
  revert g. induction l as [|row l IH]; intros g; simpl; [done|].
  rewrite IH, blank_row_get. pose proof (elem_of_cons l r row) as He.
  destruct (decide (r = row ∧ in_columns c ∧ is_Some (TerminalGrid.get row c g))) as [(-> & Hc & Hs)|Hd].
  - repeat case_decide; naive_solver.
  - apply decide_ext. naive_solver.
Qed.

(** Copying some rows: the copies read rows that were not written before,
    and no row is written twice. *)
Fixpoint copy_order (src dst : nat → nat) (l : list nat) : Prop :=
  match l with
  | [] => True
  | x :: l => dst x ≠ src x ∧ (∀ y, y ∈ l → dst x ≠ src y ∧ dst x ≠ dst y) ∧ copy_order src dst l
  end.

Lemma copy_rows_get src dst l g r c :
  copy_order src dst l →
  let g' := foldl (λ g x, copy_row first last (src x) (dst x) g) g l in
  (∀ x, x ∈ l → in_columns c → is_Some (TerminalGrid.get (dst x) c g) →
     TerminalGrid.get (dst x) c g' = Some (default Cell.default (TerminalGrid.get (src x) c g))) ∧
  (¬ (r ∈ dst <$> l ∧ in_columns c) → TerminalGrid.get r c g' = TerminalGrid.get r c g).
Proof.
  revert g r. induction l as [|x l IH]; intros g r Ho; [split; [intros ? []%elem_of_nil|done]|].
  destruct Ho as (Hne & Hx & Ho). cbn [foldl].
  destruct (IH (copy_row first last (src x) (dst x) g) r Ho) as [IH1 _].
  assert (∀ r, r ≠ dst x ∨ ¬ in_columns c →
    TerminalGrid.get r c (copy_row first last (src x) (dst x) g) = TerminalGrid.get r c g) as Hrest.
  { intros r' Hr. rewrite copy_row_get, decide_False by naive_solver. done. }
  split.
  - intros y Hy Hc Hs. destruct (decide (y ∈ l)) as [Hl|Hl].
    + destruct (Hx y Hl). rewrite IH1; [|done..|]; by rewrite Hrest by auto.
    + assert (y = x) as -> by set_solver.
      rewrite (proj2 (IH _ _ Ho)); [by rewrite copy_row_get, decide_True|].
      intros [(z & Hz & Hzl)%list_elem_of_fmap _]. by destruct (Hx z Hzl).
  - intros Hn. rewrite (proj2 (IH _ _ Ho)).
    + apply Hrest. destruct (decide (in_columns c)); [|by right]. left. intros ->. apply Hn. set_solver.
    + intros [Hr Hc]. apply Hn. set_solver.
Qed.
End rows.

Lemma copy_order_up count a n : 0 < count → copy_order (λ x, x + count) (λ x, x) (seq a n).
Proof.
  intros Hc. revert a. induction n as [|n IH]; intros a; simpl; [done|].
  split_and!; [lia| |apply IH]. intros y Hy%elem_of_seq. lia.
Qed.

Lemma copy_order_down count a n : 0 < count → copy_order (λ x, x) (λ x, x + count) (rev (seq a n)).
Proof.
  intros Hc. induction n as [|n IH]; [done|]. rewrite seq_S, rev_app_distr. simpl.
  split_and!; [lia| |done]. intros y Hy. rewrite rev_alt in Hy. fold (reverse (seq a n)) in Hy.
  apply elem_of_reverse, elem_of_seq in Hy. lia.
Qed.

Lemma elem_of_rev {A} (x : A) l : x ∈ rev l ↔ x ∈ l.
Proof. rewrite rev_alt. fold (reverse l). apply elem_of_reverse. Qed.

(** ** The text after a bounded scroll *)

Section scroll.
  Context `{Gfx : Graphics}.
  Context (top bottom count first last : nat).

(** The region lies on the screen, and the rows that are counted fit. *)
Record region_on (t : Terminal) : Prop := {
  ro_grid : grid_ok (grid (active t));
  ro_rows : top ≤ bottom < size_rows (screen_size t);
  ro_columns : first ≤ last < size_columns (screen_size t);
  ro_count : 0 < count ≤ bottom - top + 1;
  ro_fits : (Z.of_nat (history_len t) + Z.of_nat (size_rows (screen_size t)) + Z.of_nat count ≤ usize_max)%Z;
}.

Definition in_rows (r : nat) : Prop := top ≤ r ≤ bottom.

Lemma cell_on t r c :
  region_on t → r < size_rows (screen_size t) → c < size_columns (screen_size t) →
  ∃ x, TerminalGrid.get r c (grid (active t)) = Some x.
Proof. intros Hr H1 H2. apply grid_ok_get; [apply Hr|done]. Qed.

Lemma scroll_up_get t r c :
  region_on t → r < size_rows (screen_size t) → c < size_columns (screen_size t) →
  TerminalGrid.get r c (grid (active (scroll_up_bounded_cells top bottom count first last t))) =
    if decide (in_rows r ∧ in_columns first last c) then
      if decide (r + count ≤ bottom) then TerminalGrid.get (r + count) c (grid (active t))
      else Some (Screen.blank_cell (active t))
    else TerminalGrid.get r c (grid (active t)).
Proof.
  intros Hreg Hr Hc. pose proof Hreg as [Hg [Hb1 Hb2] [Hf1 Hf2] [Hc1 Hc2] _].
  unfold scroll_up_bounded_cells. set (g := grid (active t)).
  set (g1 := if decide (count < bottom - top + 1)
             then foldl (λ g row, copy_row first last (row + count) row g) g (rows_between top (bottom - count))
             else g).
  set (start := if decide (count = bottom - top + 1) then top else bottom - count + 1).
  assert (TerminalGrid.get r c g1 =
    if decide (top ≤ r ∧ r + count ≤ bottom ∧ in_columns first last c) then TerminalGrid.get (r + count) c g
    else TerminalGrid.get r c g) as H1.
  { unfold g1. case_decide; [|rewrite decide_False by lia; done].
    destruct (copy_rows_get first last (λ x, x + count) (λ x, x) (rows_between top (bottom - count)) g r c)
      as [C1 C2]; [by apply copy_order_up|]. simpl in C1, C2. unfold rows_between in *. case_decide as Hd.
    - destruct (cell_on t r c Hreg Hr Hc) as [x Hx]. destruct (cell_on t (r + count) c Hreg) as [y Hy]; [lia..|].
      rewrite C1; [fold g in Hy; by rewrite Hy|apply elem_of_seq; lia|apply Hd|by exists x].
    - apply C2. intros [Hm Hin]. rewrite list_fmap_id in Hm. apply elem_of_seq in Hm. apply Hd. split_and!; [lia..|done]. }
  transitivity (TerminalGrid.get r c
    (foldl (λ g row, blank_row first last (Screen.blank_cell (active t)) row g) g1 (rows_between start bottom))).
  { unfold g1. destruct (decide (count < bottom - top + 1)); reflexivity. }
  rewrite blank_rows_get, H1. clear H1.
  destruct (cell_on t r c Hreg Hr Hc) as [x Hx]. fold g in Hx.
  unfold rows_between. rewrite (decide_ext (r ∈ seq start (bottom + 1 - start) ∧ _ ∧ _)
    (in_rows r ∧ in_columns first last c ∧ bottom < r + count)).
  2: { rewrite elem_of_seq. unfold start, in_rows. rewrite Hx. split.
       - intros (Hs & Hin & _). split_and!; [..|exact Hin|]; revert Hs; case_decide; lia.
       - intros ([? ?] & Hin & ?). split_and!; [case_decide; lia..|exact Hin|].
         rewrite decide_False by (intros (_ & ? & _); lia). by eexists. }
  unfold in_rows. repeat case_decide; try done; exfalso; naive_solver lia.
Qed.

Lemma scroll_down_get t r c :
  region_on t → r < size_rows (screen_size t) → c < size_columns (screen_size t) →
  TerminalGrid.get r c (grid (active (scroll_down_bounded_cells top bottom count first last t))) =
    if decide (in_rows r ∧ in_columns first last c) then
      if decide (top + count ≤ r) then TerminalGrid.get (r - count) c (grid (active t))
      else Some (Screen.blank_cell (active t))
    else TerminalGrid.get r c (grid (active t)).
Proof.
  intros Hreg Hr Hc. pose proof Hreg as [Hg [Hb1 Hb2] [Hf1 Hf2] [Hc1 Hc2] _].
  unfold scroll_down_bounded_cells. set (g := grid (active t)).
  set (g1 := if decide (count < bottom - top + 1)
             then foldl (λ g row, copy_row first last row (row + count) g) g
                    (rev (rows_between top (bottom - count)))
             else g).
  assert (TerminalGrid.get r c g1 =
    if decide (top + count ≤ r ∧ r ≤ bottom ∧ in_columns first last c) then TerminalGrid.get (r - count) c g
    else TerminalGrid.get r c g) as H1.
  { unfold g1. case_decide; [|rewrite decide_False by (intros (? & ? & _); lia); done].
    destruct (copy_rows_get first last (λ x, x) (λ x, x + count) (rev (rows_between top (bottom - count))) g r c)
      as [C1 C2]; [by apply copy_order_down|]. simpl in C1, C2. unfold rows_between in *. case_decide as Hd.
    - destruct Hd as (Hd1 & Hd2 & Hd3). replace r with (r - count + count) at 1 by lia.
      destruct (cell_on t r c Hreg Hr Hc) as [x Hx]. destruct (cell_on t (r - count) c Hreg) as [y Hy]; [lia..|].
      rewrite C1; [fold g in Hy; by rewrite Hy|rewrite elem_of_rev; apply elem_of_seq; lia|done|].
      replace (r - count + count) with r by lia. by exists x.
    - apply C2. intros [(y & -> & Hy)%list_elem_of_fmap Hin]. apply elem_of_rev, elem_of_seq in Hy.
      apply Hd. split_and!; [lia..|done]. }
  transitivity (TerminalGrid.get r c
    (foldl (λ g row, blank_row first last (Screen.blank_cell (active t)) row g) g1 (seq top count))).
  { unfold g1. destruct (decide (count < bottom - top + 1)); reflexivity. }
  rewrite blank_rows_get, H1. clear H1.
  destruct (cell_on t r c Hreg Hr Hc) as [x Hx]. fold g in Hx.
  rewrite (decide_ext (r ∈ seq top count ∧ _ ∧ _) (in_rows r ∧ in_columns first last c ∧ r < top + count)).
  2: { rewrite elem_of_seq. unfold in_rows. rewrite Hx. split.
       - intros (Hs & Hin & _). split_and!; [lia..|exact Hin|lia].
       - intros ([? ?] & Hin & ?). split_and!; [lia..|exact Hin|].
         rewrite decide_False by (intros (? & _); lia). by eexists. }
  unfold in_rows. repeat case_decide; try done; exfalso; naive_solver lia.
Qed.

(** The scroll of the text and the transform that goes with it. *)
Definition scroll_cells (up : bool) : Terminal → Terminal :=
  (if up then scroll_up_bounded_cells else scroll_down_bounded_cells) top bottom count first last.

Definition scroll_transform (up : bool) (t : Terminal) : CellTransform :=
  (if up then TScrollUp else TScrollDown) (history_len t + top) (history_len t + bottom) count first last.

Lemma region_guard (h r c : nat) :
  ((Z.of_nat (h + r) <? Z.of_nat (h + top)) || (Z.of_nat (h + bottom) <? Z.of_nat (h + r))
   || (Z.of_nat c <? Z.of_nat first) || (Z.of_nat last <? Z.of_nat c))%Z =
  negb (bool_decide (in_rows r ∧ in_columns first last c)).
Proof.
  unfold in_rows, in_columns. case_bool_decide as Hd; simpl.
  - rewrite !orb_false_iff, !Z.ltb_ge. lia.
  - rewrite !orb_true_iff, !Z.ltb_lt. lia.
Qed.

(** What the transform does to a coordinate on the screen. *)
Lemma scroll_up_coordinate t r c :
  region_on t →
  apply_coordinate (scroll_transform true t) (Z.of_nat (history_len t + r)) (Z.of_nat c) =
    if decide (in_rows r ∧ in_columns first last c) then
      if decide (top + count ≤ r) then Some (Z.of_nat (history_len t + (r - count)), Z.of_nat c) else None
    else Some (Z.of_nat (history_len t + r), Z.of_nat c).
Proof.
  intros [_ _ _ Hc _]. unfold apply_coordinate, scroll_transform. rewrite region_guard.
  case_decide as Hd; [rewrite bool_decide_true by done|by rewrite bool_decide_false].
  cbn [negb]. destruct Hd as [Hd _]. unfold in_rows in Hd. unfold checked_sub.
  destruct (Z.leb_spec (Z.of_nat count) (Z.of_nat (history_len t + r))); simpl;
    [|rewrite decide_False by lia; done].
  destruct (Z.leb_spec (Z.of_nat (history_len t + top)) (Z.of_nat (history_len t + r) - Z.of_nat count));
    [rewrite decide_True by lia|rewrite decide_False by lia; done].
  repeat f_equal. lia.
Qed.

Lemma scroll_down_coordinate t r c :
  region_on t → r < size_rows (screen_size t) →
  apply_coordinate (scroll_transform false t) (Z.of_nat (history_len t + r)) (Z.of_nat c) =
    if decide (in_rows r ∧ in_columns first last c) then
      if decide (r + count ≤ bottom) then Some (Z.of_nat (history_len t + (r + count)), Z.of_nat c) else None
    else Some (Z.of_nat (history_len t + r), Z.of_nat c).
Proof.
  intros [_ [Hb1 Hb2] _ Hc Hfit] Hr. unfold apply_coordinate, scroll_transform. rewrite region_guard.
  case_decide as Hd; [rewrite bool_decide_true by done|by rewrite bool_decide_false].
  cbn [negb]. destruct Hd as [Hd _]. unfold in_rows in Hd. unfold checked_add, checked_sub.
  rewrite !bool_decide_true by lia. cbn [mbind option_bind]. 
  rewrite (proj2 (Z.leb_le _ _)) by lia.
  cbn [mbind option_bind].
  destruct (Z.leb_spec (Z.of_nat (history_len t + bottom) + 1 - Z.of_nat count) (Z.of_nat (history_len t + r)));
    [rewrite decide_False by lia; done|rewrite decide_True by lia].
  repeat f_equal. lia.
Qed.

(** C19. In a scroll between margins, up or down, the cells attached to images
    go where the text goes: the cell to which the graphics code moves an
    attached cell shows the text that was under it before, and a cell from
    which no attached cell can have come is blank. *)
Theorem attachments_follow_text up t :
  region_on t →
  let cell (r c : nat) (t : Terminal) := TerminalGrid.get r c (grid (active t)) in
  let moved (r c : nat) :=
    apply_coordinate (scroll_transform up t) (Z.of_nat (history_len t + r)) (Z.of_nat c) in
  let t' := scroll_cells up t in
  (∀ r c row column, r < size_rows (screen_size t) → c < size_columns (screen_size t) →
     moved r c = Some (row, column) →
     ∃ r', row = Z.of_nat (history_len t + r') ∧ column = Z.of_nat c ∧
       r' < size_rows (screen_size t) ∧ cell r' c t' = cell r c t) ∧
  (∀ r c, r < size_rows (screen_size t) → c < size_columns (screen_size t) →
     (∃ r', r' < size_rows (screen_size t) ∧ moved r' c = Some (Z.of_nat (history_len t + r), Z.of_nat c)) ∨
     cell r c t' = Some (Screen.blank_cell (active t))).
Proof.
  intros Hreg. pose proof Hreg as [_ [Hb1 Hb2] _ [Hc1 Hc2] _]. unfold scroll_cells.
  destruct up; cbv zeta; split; intros r c.
  - intros row column Hr Hc. rewrite scroll_up_coordinate by done.
    case_decide as Hin; [case_decide; [|done]|]; intros [= <- <-].
    + exists (r - count). destruct Hin as [[? ?] ?]. split_and!; [done..|lia|].
      rewrite scroll_up_get by (done || lia). unfold in_rows.
      rewrite decide_True by (split; [lia|done]). rewrite decide_True by lia. f_equal. lia.
    + exists r. split_and!; [done..|]. rewrite scroll_up_get by done. by rewrite decide_False.
  - intros Hr Hc. rewrite scroll_up_get by done. setoid_rewrite scroll_up_coordinate; [|done].
    case_decide as Hin; [case_decide as Hle; [|by right]|]; left.
    + exists (r + count). destruct Hin as [[? ?] ?]. split; [lia|]. unfold in_rows.
      rewrite decide_True by (split; [lia|done]). rewrite decide_True by lia. repeat f_equal. lia.
    + exists r. split; [done|]. by rewrite decide_False.
  - intros row column Hr Hc. rewrite scroll_down_coordinate by done.
    case_decide as Hin; [case_decide; [|done]|]; intros [= <- <-].
    + exists (r + count). destruct Hin as [[? ?] ?]. split_and!; [done..|lia|].
      rewrite scroll_down_get by (done || lia). unfold in_rows.
      rewrite decide_True by (split; [lia|done]). rewrite decide_True by lia. f_equal. lia.
    + exists r. split_and!; [done..|]. rewrite scroll_down_get by done. by rewrite decide_False.
  - intros Hr Hc. rewrite scroll_down_get by done.
    case_decide as Hin; [case_decide as Hle; [|by right]|]; left.
    + exists (r - count). destruct Hin as [[? ?] ?]. split; [lia|]. rewrite scroll_down_coordinate by (done || lia).
      unfold in_rows. rewrite decide_True by (split; [lia|done]). rewrite decide_True by lia. repeat f_equal. lia.
    + exists r. split; [done|]. rewrite scroll_down_coordinate by done. by rewrite decide_False.
Qed.
End scroll.
