(* ===== verification/SixelFacts.v ===== *)
(** Sixel images: the canvas stays within its recorded extent, and the image
    shows the canvas. The bytes of a pixel are addressed in 32-bit arithmetic,
    which is exact for images of at most 2^32 bytes; larger ones are wrong,
    and nothing bounds the size a short string can ask for. *)
From coqutil Require Import Datatypes.RecordSetters.
From S2P Require Import Prelude Text Grid Csi Parse Utf8 Feed Screen Scroll Images Sixel.
Import DoubleBraceUpdate.

Local Open Scope Z_scope.

(** ** The canvas *)

Record canvas_ok (c : SixelCanvas) : Prop := {
  co_position : 0 ≤ sc_x c ∧ 0 ≤ sc_y c;
  co_pixels : ∀ x y color, sc_pixels c !! (x, y) = Some color → 0 ≤ x ≤ sc_max_x c ∧ 0 ≤ y ≤ sc_max_y c;
  co_scale : 1 ≤ sc_pixel_height_scale c;
}.

Definition keeps_canvas (f : SixelCanvas → SixelCanvas) : Prop := ∀ c, canvas_ok c → canvas_ok (f c).

Lemma sat_add_nonneg x y : 0 ≤ x → 0 ≤ y → 0 ≤ sat_add_u32 x y.
Proof. unfold sat_add_u32, u32_max. lia. Qed.

Lemma column_keeps bits : keeps_canvas (write_column bits).
Proof.
  intros c Hc. unfold write_column.
  match goal with |- context [foldl ?f c ?l] => assert (canvas_ok (foldl f c l)) as H end.
  { assert (Forall (λ bit, 0 ≤ bit) [0; 1; 2; 3; 4; 5]) as Hb by (repeat constructor; lia).
    revert c Hc. induction Hb as [|bit l Hbit _ IH]; intros c Hc; [done|]. simpl. apply IH.
    destruct (Z.testbit bits bit); [|done]. destruct Hc as [H1 H2 H3]. split; simpl; [done| |done].
    intros x y color. pose proof (sat_add_nonneg (sc_y c) bit (proj2 H1) Hbit) as Hy.
    set (y0 := sat_add_u32 (sc_y c) bit) in *. clearbody y0.
    destruct (decide ((sc_x c, y0) = (x, y))) as [[= <- <-]|Hn].
    - intros _. lia.
    - rewrite lookup_insert_ne by exact Hn. intros Hl%H2. lia. }
  match goal with |- context [foldl ?f c ?l] => set (c' := foldl f c l) in *; clearbody c' end.
  destruct H as [H1 H2 H3]. split; simpl; [|done|done]. split; [|apply H1]. apply sat_add_nonneg; [apply H1|lia].
Qed.

Lemma bits_keeps bits n : keeps_canvas (write_bits bits n).
Proof.
  intros c Hc. unfold write_bits. induction (Z.to_nat (Z.max n 1)) as [|k IH]; [done|].
  simpl. by apply column_keeps.
Qed.

Lemma colour_keeps i color : keeps_canvas (define_color i color).
Proof. intros c [H1 H2 H3]. by split. Qed.

Lemma introducer_keeps params : keeps_canvas (parse_sixel_color_introducer params).
Proof.
  assert (∀ i, keeps_canvas (select_color i)) as Hs.
  { intros i c Hc. unfold select_color. case_match; [|done]. destruct Hc. by split. }
  intros c Hc. unfold parse_sixel_color_introducer, define_rgb_color, define_hls_color.
  repeat (case_match; try done); first [by apply colour_keeps | by apply Hs].
Qed.

Lemma raster_keeps params : keeps_canvas (parse_sixel_raster_attributes params).
Proof.
  intros c Hc. unfold parse_sixel_raster_attributes, set_raster_attributes, sixel_pixel_height_scale.
  repeat (case_match; try done); destruct Hc; split; simpl; try done; lia.
Qed.

Lemma loop_keeps skip chars : keeps_canvas (sixel_loop skip chars).
Proof.
  revert skip. induction chars as [|ch chars IH]; intros skip c Hc; [done|]. cbn [sixel_loop].
  destruct skip as [|skip]; [|by apply IH].
  assert (canvas_ok (sixel_loop 0 chars (match sixel_bits ch with Some bits => write_bits bits 1 c | None => c end)))
    as Hother.
  { apply IH. case_match; [by apply bits_keeps|done]. }
  destruct ch as [|p|p]; try exact Hother.
  do 6 (try destruct p as [p|p|]; try exact Hother).
  all: try (destruct (parse_sixel_parameter_list chars) as [params n]; apply IH;
    first [by apply introducer_keeps | by apply raster_keeps]).
  - apply IH. destruct Hc as [[? ?] H2 H3]. split; [|exact H2|exact H3]. split; [done|]. by apply sat_add_nonneg.
  - destruct (parse_sixel_number chars) as [count n]. apply IH.
    destruct (head (drop n chars) ≫= sixel_bits); [by apply bits_keeps|done].
  - apply IH. destruct Hc as [[? ?] H2 H3]. by split.
Qed.

Lemma new_canvas_ok params : canvas_ok (new_canvas (parse_sixel_dcs_options params)).
Proof.
  split; simpl; [lia|intros x y color; by rewrite lookup_empty|].
  unfold sixel_dcs_macro_pixel_height_scale. repeat case_match; lia.
Qed.

(** ** Pixels *)

(** The bytes of a list of colours. *)
Definition bytes_of (colors : list Rgba8) : list Z := colors ≫= color_bytes.

Lemma color_bytes_length c : length (color_bytes c) = 4%nat.
Proof. by destruct c as [[[]]]. Qed.

Lemma bytes_length colors : length (bytes_of colors) = (4 * length colors)%nat.
Proof.
  induction colors as [|c colors IH]; [done|].
  change (length (color_bytes c ++ bytes_of colors) = (4 * S (length colors))%nat).
  rewrite length_app, IH, color_bytes_length. lia.
Qed.

Lemma bytes_app l l' : bytes_of (l ++ l') = bytes_of l ++ bytes_of l'.
Proof. unfold bytes_of. apply bind_app. Qed.

Lemma bytes_split colors i :
  (i < length colors)%nat →
  take (4 * i) (bytes_of colors) = bytes_of (take i colors) ∧
  drop (4 * i) (bytes_of colors) = bytes_of (drop i colors).
Proof.
  intros Hi. rewrite <-(take_drop i colors) at 1 3. rewrite bytes_app.
  assert (length (bytes_of (take i colors)) = 4 * i)%nat as Hl by (rewrite bytes_length, length_take; lia).
  split; [by rewrite take_app_length'|by rewrite drop_app_length'].
Qed.

(** Writing a pixel. *)
Lemma write_pixel_bytes colors i color :
  (i < length colors)%nat → write_pixel (4 * i) color (bytes_of colors) = bytes_of (<[i := color]> colors).
Proof.
  intros Hi. unfold write_pixel. rewrite insert_take_drop, bytes_app by done.
  destruct (bytes_split colors i Hi) as [-> _]. f_equal.
  change (bytes_of (color :: drop (S i) colors)) with (color_bytes color ++ bytes_of (drop (S i) colors)). f_equal.
  destruct (decide (S i < length colors)%nat) as [Hs|Hs].
  - replace (4 * i + 4)%nat with (4 * S i)%nat by lia. apply (bytes_split colors (S i) Hs).
  - rewrite !drop_ge; [done|lia|rewrite bytes_length; lia].
Qed.

(** Reading one. *)
Lemma read_pixel_bytes colors i color :
  colors !! i = Some color → take 4 (drop (4 * i) (bytes_of colors)) = color_bytes color.
Proof.
  intros Hi. pose proof (lookup_lt_Some _ _ _ Hi) as Hl. destruct (bytes_split colors i Hl) as [_ ->].
  erewrite drop_S by exact Hi.
  change (bytes_of (color :: drop (S i) colors)) with (color_bytes color ++ bytes_of (drop (S i) colors)).
  apply take_app_length'. by rewrite color_bytes_length.
Qed.

(** ** The image *)

(** The colour index a pixel of the image is written at. *)
Definition color_index (width x row : Z) : nat := Z.to_nat ((row * width + x) `mod` 2 ^ 30).

Lemma pixel_index_color width x row :
  0 ≤ row * width + x → pixel_index width x row = (4 * color_index width x row)%nat.
Proof.
  intros Hn. unfold pixel_index, color_index, u32_max.
  replace (4294967295 + 1) with (4 * 2 ^ 30) by lia.
  rewrite (Z.mul_comm (row * width + x) 4), Zmult_mod_distr_l. lia.
Qed.

(** [draw_pixels] on colours. *)
Definition draw_colors (width logical_height height scale : Z) (pixels : list ((Z * Z) * Rgba8))
    (colors : list Rgba8) : list Rgba8 :=
  foldl (λ colors p,
    let '((x, y), color) := p in
    if (width <=? x) || (logical_height <=? y) then colors
    else foldl (λ colors row, <[color_index width x row := color]> colors) colors (pixel_rows height scale y))
    colors pixels.

Definition inside (pixels : list ((Z * Z) * Rgba8)) : Prop := Forall (λ p, 0 ≤ p.1.1 ∧ 0 ≤ p.1.2) pixels.

Lemma pixel_rows_spec height scale y row :
  1 ≤ scale → row ∈ pixel_rows height scale y ↔ row < height ∧ row / scale = y.
Proof.
  intros Hs. unfold pixel_rows. rewrite list_elem_of_filter, list_elem_of_fmap. split.
  - intros (Hh & o & -> & Ho%elem_of_seqZ). split; [done|].
    rewrite Z.add_comm, Z.div_add, Z.div_small by lia. lia.
  - intros [Hh <-]. split; [done|]. exists (row `mod` scale). split.
    + rewrite (Z.mul_comm (row / scale)). apply Z.div_mod. lia.
    + apply elem_of_seqZ. pose proof (Z.mod_pos_bound row scale). lia.
Qed.

Lemma color_index_lt width height x row :
  0 ≤ x < width → 0 ≤ row < height → (color_index width x row < Z.to_nat (width * height))%nat.
Proof.
  intros Hx Hr. unfold color_index. assert (row * width + x < width * height) by nia.
  pose proof (Z.mod_le (row * width + x) (2 ^ 30)). nia.
Qed.

Lemma draw_bytes width logical_height height scale pixels colors :
  1 ≤ scale → inside pixels → length colors = Z.to_nat (width * height) →
  draw_pixels width logical_height height scale pixels (bytes_of colors) =
    bytes_of (draw_colors width logical_height height scale pixels colors) ∧
  length (draw_colors width logical_height height scale pixels colors) = length colors.
Proof.
  intros Hs Hin. revert colors. induction Hin as [|[[x y] color] pixels [Hx Hy] _ IH]; intros colors Hl; [done|].
  unfold draw_pixels, draw_colors. simpl in Hx, Hy. cbn [foldl].
  destruct (Z.leb_spec width x); [apply IH; done|]. destruct (Z.leb_spec logical_height y); [apply IH; done|].
  cbn [orb].
  assert (∀ rows, Forall (λ row, 0 ≤ row < height) rows → ∀ colors, length colors = Z.to_nat (width * height) →
    foldl (λ data row, write_pixel (pixel_index width x row) color data) (bytes_of colors) rows =
      bytes_of (foldl (λ colors row, <[color_index width x row := color]> colors) colors rows) ∧
    length (foldl (λ colors row, <[color_index width x row := color]> colors) colors rows) = length colors) as Hrows.
  { induction 1 as [|row rows Hr _ IHr]; intros cs Hcs; [done|]. cbn [foldl].
    rewrite pixel_index_color by nia.
    rewrite write_pixel_bytes by (rewrite Hcs; apply color_index_lt; lia).
    destruct (IHr (<[color_index width x row := color]> cs)) as [-> H2]; [by rewrite length_insert|].
    by rewrite H2, length_insert. }
  destruct (Hrows (pixel_rows height scale y)) with (colors := colors) as [-> H2]; [|done|].
  { apply Forall_forall. intros row [Hr Hd]%pixel_rows_spec; [|done]. split; [|done].
    subst y. apply Z.div_le_lower_bound in Hy || idtac. pose proof (Z.mul_div_le row scale). nia. }
  destruct (IH (foldl (λ colors row, <[color_index width x row := color]> colors) colors (pixel_rows height scale y)))
    as [IH1 IH2]; [by rewrite H2|]. split; [exact IH1|]. etrans; [exact IH2|exact H2].
Qed.

(** *** Small images *)

Section small.
  Context (width logical_height height scale : Z).
  Hypothesis (Hscale : 1 ≤ scale) (Hheight : height = logical_height * scale) (Hsmall : width * height ≤ 2 ^ 30).

Lemma small_index x row :
  0 ≤ x < width → 0 ≤ row < height → color_index width x row = Z.to_nat (row * width + x).
Proof using Hscale Hheight Hsmall. intros Hx Hr. unfold color_index. rewrite Z.mod_small by nia. done. Qed.

Lemma color_index_inj x row x' row' :
  0 ≤ x < width → 0 ≤ row < height → 0 ≤ x' < width → 0 ≤ row' < height →
  color_index width x row = color_index width x' row' → x = x' ∧ row = row'.
Proof using Hscale Hheight Hsmall.
  intros Hx Hr Hx' Hr'. rewrite !small_index by done. intros Hi. apply Z2Nat.inj in Hi; [|nia..].
  assert (∀ a b, 0 ≤ b < width → (a * width + b) / width = a) as Hdiv.
  { intros a b Hb. rewrite Z.div_add_l, Z.div_small by lia. lia. }
  assert (row = row') as -> by (rewrite <-(Hdiv row x Hx), Hi; by apply Hdiv). split; lia.
Qed.

(** The rows of one pixel. *)
Lemma draw_pixel_lookup (colors : list Rgba8) x color rows x' row' :
  0 ≤ x < width → Forall (λ row, 0 ≤ row < height) rows → 0 ≤ x' < width → 0 ≤ row' < height →
  length colors = Z.to_nat (width * height) →
  (foldl (λ colors row, <[color_index width x row := color]> colors) colors rows : list Rgba8)
    !! color_index width x' row' =
    if decide (x = x' ∧ row' ∈ rows) then Some color else colors !! color_index width x' row'.
Proof using Hscale Hheight Hsmall.
  intros Hx Hrows Hx' Hr'. revert colors. induction Hrows as [|row rows Hr _ IH]; intros colors Hl.
  { rewrite decide_False; [done|]. intros [_ Hn]. by apply elem_of_nil in Hn. }
  cbn [foldl]. rewrite IH by (by rewrite length_insert). pose proof (elem_of_cons rows row' row) as He.
  destruct (decide (x = x' ∧ row' ∈ rows)) as [Hd|Hd]; [by rewrite decide_True by naive_solver|].
  destruct (decide (x = x' ∧ row' = row)) as [[-> ->]|Hne].
  - rewrite decide_True by naive_solver. rewrite list_lookup_insert_eq; [done|].
    rewrite Hl. by apply color_index_lt.
  - rewrite decide_False by naive_solver. apply list_lookup_insert_ne. intros Hi.
    apply color_index_inj in Hi; naive_solver.
Qed.

Lemma pixel_rows_inside y : 0 ≤ y < logical_height → Forall (λ row, 0 ≤ row < height) (pixel_rows height scale y).
Proof using Hscale Hheight Hsmall.
  intros Hy. apply Forall_forall. intros row [Hr Hd]%pixel_rows_spec; [|done]. split; [|done].
  pose proof (Z.mul_div_le row scale). nia.
Qed.

(** All pixels: each has its own place. *)
Lemma draw_lookup pixels (colors : list Rgba8) x row :
  inside pixels → NoDup pixels.*1 → length colors = Z.to_nat (width * height) →
  0 ≤ x < width → 0 ≤ row < height →
  let colors' := draw_colors width logical_height height scale pixels colors in
  (∀ color, ((x, row / scale), color) ∈ pixels → colors' !! color_index width x row = Some color) ∧
  ((x, row / scale) ∉ pixels.*1 → colors' !! color_index width x row = colors !! color_index width x row).
Proof using Hscale Hheight Hsmall.
  intros Hin Hnd Hl Hx Hr. revert colors Hl.
  induction Hin as [|[[x0 y0] color0] pixels [Hx0 Hy0] Hrest IH]; intros colors Hl;
    [split; [intros color []%elem_of_nil|done]|].
  simpl in Hx0, Hy0. apply NoDup_cons in Hnd as [Hnew Hnd]. unfold draw_colors. cbn [foldl].
  set (colors1 := if (width <=? x0) || (logical_height <=? y0) then colors else _).
  fold (draw_colors width logical_height height scale pixels colors1).
  assert (0 ≤ row / scale < logical_height) as Hrow.
  { split; [apply Z.div_pos; lia|]. apply Z.div_lt_upper_bound; lia. }
  assert (length colors1 = Z.to_nat (width * height) ∧
    colors1 !! color_index width x row =
      if decide (x0 = x ∧ y0 = row / scale) then Some color0 else colors !! color_index width x row) as [Hl1 Hlook].
  { unfold colors1. destruct (Z.leb_spec width x0); [rewrite decide_False by lia; done|].
    destruct (Z.leb_spec logical_height y0); [rewrite decide_False by lia; done|]. cbn [orb]. split.
    - rewrite <-Hl. generalize (pixel_rows height scale y0). intros rows. clear. revert colors.
      induction rows as [|r rows IHr]; intros colors; [done|]. simpl. by rewrite IHr, length_insert.
    - rewrite draw_pixel_lookup by (done || apply pixel_rows_inside; lia). apply decide_ext.
      rewrite pixel_rows_spec by done. naive_solver lia. }
  clearbody colors1. destruct (IH Hnd colors1 Hl1) as [IH1 IH2]. split.
  - intros color Hc. apply elem_of_cons in Hc as [[= <- <- <-]|Hc]; [|by apply IH1].
    rewrite IH2 by done. rewrite Hlook. by rewrite decide_True.
  - intros Hn. rewrite fmap_cons, not_elem_of_cons in Hn. rewrite IH2 by apply Hn. rewrite Hlook.
    apply decide_False. intros [-> ->]. by destruct Hn.
Qed.
End small.

Lemma background_bytes n c : mjoin (replicate n (color_bytes c)) = bytes_of (replicate n c).
Proof.
  induction n as [|n IH]; [done|]. change (color_bytes c ++ mjoin (replicate n (color_bytes c)) = color_bytes c ++ bytes_of (replicate n c)).
  by rewrite IH.
Qed.

Lemma canvas_inside c : canvas_ok c → inside (map_to_list (sc_pixels c)).
Proof.
  intros Hc. apply Forall_forall. intros [[x y] color] Hp%elem_of_map_to_list. simpl.
  apply (co_pixels _ Hc) in Hp. lia.
Qed.

Lemma sixel_size_spec c width logical height :
  canvas_ok c → sixel_size c = Some (width, logical, height) →
  1 ≤ width ∧ 1 ≤ height ∧ height = logical * sc_pixel_height_scale c ∧
  ∀ x y color, sc_pixels c !! (x, y) = Some color → x < width ∧ y < logical.
Proof.
  intros Hc. unfold sixel_size. pose proof (co_scale _ Hc) as Hs.
  destruct (bool_decide (sc_pixels c = ∅) && _); [done|].
  match goal with |- context [mbind _ ?x] => set (drawn := x) end.
  assert (∀ w h, drawn = Some (w, h) →
    ∀ x y color, sc_pixels c !! (x, y) = Some color → 0 ≤ x < w ∧ 0 ≤ y < h) as Hdrawn.
  { intros w h. unfold drawn. case_bool_decide as He.
    - intros _ x y color. by rewrite He, lookup_empty.
    - intros Hd x y color Hp%(co_pixels _ Hc). apply bind_Some in Hd as (a & Ha & Hd).
      apply bind_Some in Hd as (b & Hb & Hd). unfold checked_add in *.
      do 2 (case_bool_decide; simplify_eq/=). lia. }
  assert (∀ w h, drawn = Some (w, h) → 0 ≤ w ∧ 0 ≤ h) as Hpos.
  { intros w h Hd. destruct (decide (sc_pixels c = ∅)) as [He|He].
    - revert Hd. unfold drawn. rewrite bool_decide_true by done. intros [= <- <-]. lia.
    - apply map_choose in He as ([x y] & color & Hp). specialize (Hdrawn w h Hd x y color Hp). lia. }
  destruct drawn as [[w h]|]; [|done]. specialize (Hdrawn w h eq_refl). specialize (Hpos w h eq_refl).
  cbn [mbind option_bind]. set (width' := match sc_declared_width c with Some d => _ | None => w end).
  set (logical' := match sc_declared_height c with Some d => _ | None => h end).
  assert (w ≤ width' ∧ h ≤ logical') as [Hw Hh] by (unfold width', logical'; repeat case_match; lia).
  clearbody width' logical'. set (tests := _ || _). destruct tests eqn:Ht; [done|]. intros [= <- <- <-].
  unfold tests in Ht. rewrite !orb_false_iff, !Z.ltb_ge, !Z.eqb_neq in Ht.
  split_and!; [lia|nia|done|]. intros x y color Hp%Hdrawn. lia.
Qed.

(** C32. A sixel string that is shown becomes an image with four bytes for
    every pixel of its width and height, whatever the string; and when these
    are at most 2^32 bytes, the pixel at a column and a row has the colour
    that was drawn there, each drawn pixel repeated downwards by the aspect
    ratio, or else the background colour. *)
Theorem sixel_image_shows_canvas params content image :
  parse_sixel_image (parse_sixel_dcs_options params) content = Some image →
  let c := sixel_loop 0 content (new_canvas (parse_sixel_dcs_options params)) in
  let width := si_width image in
  let height := si_height image in
  1 ≤ width ∧ 1 ≤ height ∧ Z.of_nat (length (si_data image)) = 4 * width * height ∧
  (4 * width * height ≤ 2 ^ 32 → ∀ x row, 0 ≤ x < width → 0 ≤ row < height →
     take 4 (drop (Z.to_nat (4 * (row * width + x))) (si_data image)) =
       color_bytes (default (background_color c) (sc_pixels c !! (x, row / sc_pixel_height_scale c)))).
Proof.
  unfold parse_sixel_image, into_image. set (c := sixel_loop 0 content _).
  assert (canvas_ok c) as Hc by (apply loop_keeps, new_canvas_ok). clearbody c.
  destruct (sixel_size c) as [[[width logical] height]|] eqn:Hsize; [|done]. intros [= <-].
  destruct (sixel_size_spec c width logical height Hc Hsize) as (Hw & Hh & Hheight & _).
  cbv zeta. cbn [si_width si_height si_data]. rewrite background_bytes.
  set (n := Z.to_nat (width * height)). set (colors := replicate n (background_color c)).
  assert (length colors = Z.to_nat (width * height)) as Hl by apply length_replicate.
  destruct (draw_bytes width logical height (sc_pixel_height_scale c) (map_to_list (sc_pixels c)) colors
    (co_scale _ Hc) (canvas_inside c Hc) Hl) as [-> Hl'].
  split_and!; [done..|rewrite bytes_length, Hl', Hl; lia|]. intros Hsmall x row Hx Hr.
  assert (width * height ≤ 2 ^ 30) as Hsmall' by lia.
  replace (Z.to_nat (4 * (row * width + x))) with (4 * color_index width x row)%nat
    by (rewrite (small_index width logical height (sc_pixel_height_scale c) (co_scale _ Hc) Hheight Hsmall') by done; nia).
  apply read_pixel_bytes.
  destruct (draw_lookup width logical height (sc_pixel_height_scale c) (co_scale _ Hc) Hheight Hsmall'
    (map_to_list (sc_pixels c)) colors x row (canvas_inside c Hc) (NoDup_fst_map_to_list _) Hl Hx Hr) as [D1 D2].
  destruct (sc_pixels c !! (x, row / sc_pixel_height_scale c)) as [color|] eqn:Hp.
  - apply D1. by apply elem_of_map_to_list.
  - rewrite D2.
    + apply lookup_replicate. split; [done|]. unfold n. by apply color_index_lt.
    + intros ([k color] & Hk & Hin%elem_of_map_to_list)%list_elem_of_fmap. simpl in Hk. subst k. congruence.
Qed.

(** Two rows of three pixels, drawn twice as high. *)
Lemma sixel_image_shows_canvas_witness :
  let content := lit "#1;2;100;0;0!3@#2;2;0;100;0$?A" in
  let image := default (mkSixelImage 0 0 []) (parse_sixel_image (parse_sixel_dcs_options []) content) in
  si_width image = 3 ∧ si_height image = 4 ∧
  take 4 (drop (Z.to_nat (4 * (1 * 3 + 2))) (si_data image)) = [255; 0; 0; 255] ∧
  take 4 (drop (Z.to_nat (4 * (3 * 3 + 1))) (si_data image)) = [0; 255; 0; 255].
Proof.
  intros content image.
  assert (parse_sixel_image (parse_sixel_dcs_options []) content = Some image) as Hi by (vm_compute; reflexivity).
  assert (si_width image = 3) as Hw by (vm_compute; reflexivity).
  assert (si_height image = 4) as Hh by (vm_compute; reflexivity).
  destruct (sixel_image_shows_canvas [] content image Hi) as (_ & _ & _ & Hp).
  split; [exact Hw|]. split; [exact Hh|]. split.
  - rewrite Hw, Hh in Hp. rewrite (Hp ltac:(lia) 2 1 ltac:(lia) ltac:(lia)). vm_compute. reflexivity.
  - rewrite Hw, Hh in Hp. rewrite (Hp ltac:(lia) 1 3 ltac:(lia) ltac:(lia)). vm_compute. reflexivity.
Defined.

(** The size of a sixel image is not checked against anything but the
    width of an integer: raster attributes of twenty characters ask for an
    image of more than 10^15 bytes, which the terminal tries to allocate. For
    images of more than 2^32 bytes the 32-bit index of a pixel wraps around,
    so that distant pixels are written to the same place. *)
Theorem sixel_size_unchecked :
  let content := 34 :: lit "65535;1;65535;65535" in
  let c := sixel_loop 0 content (new_canvas (parse_sixel_dcs_options [])) in
  length content = 20%nat ∧ sixel_size c = Some (65535, 65535, 4294836225) ∧
  10 ^ 15 < 4 * 65535 * 4294836225 ∧
  pixel_index 65536 0 16384 = pixel_index 65536 0 0.
Proof. vm_compute. done. Qed.
