(* ===== verification/ImageInvariant.v ===== *)
(** The consistency of the image state under every call of the screen code and
    under the switches between the screens: placements have distinct
    identities, attached cells belong to placements that are shown, and the
    relations between placements have no cycle. *)
From coqutil Require Import Datatypes.RecordSetters.
From S2P Require Import Prelude Text Grid Csi Parse Utf8 Feed Screen Scroll.
From S2P Require Import Images Placements Placeholders Kitty Sixel ImageCalls ImageFacts.
Import DoubleBraceUpdate.

Local Open Scope Z_scope.

(** A consistent state reached from [g0]. *)
Definition ok_from (g0 g : ImageState) : Prop := state_ok g ∧ grows g0 g.

(** Steps that keep a state consistent; they may use up identities. *)
Definition keeps_ok (f : ImageState → ImageState) : Prop := ∀ g0 g, ok_from g0 g → ok_from g0 (f g).

Lemma shrinks_keeps f : shrinks f → keeps_ok f.
Proof.
  intros H g0 g [Hg Hf]. destruct (H g Hg) as [H1 H2]. split; [done|]. etrans; [exact Hf|by apply frame_grows].
Qed.

Lemma push_keeps image : keeps_ok (push_inline_image image).
Proof. intros g0 g [Hg Hf]. split; [by apply push_ok|]. etrans; [exact Hf|apply push_grows]. Qed.

Lemma keeps_comp f f' : keeps_ok f → keeps_ok f' → keeps_ok (λ g, f' (f g)).
Proof. unfold keeps_ok. eauto. Qed.

Lemma keeps_foldl {A} (f : ImageState → A → ImageState) l :
  (∀ x, keeps_ok (λ g, f g x)) → keeps_ok (λ g, foldl f g l).
Proof. intros Hf. induction l as [|x l IH]; [by intros g0 g|]. exact (keeps_comp _ _ (Hf x) IH). Qed.

(** Both screens and the relations are what they were. *)
Definition same_placements (s s' : ScreenImages) : Prop :=
  inline_images s' = inline_images s ∧ inline_image_parent_ids s' = inline_image_parent_ids s ∧
  inline_image_attachments s' = inline_image_attachments s.

Lemma same_placements_ok next s s' : same_placements s s' → images_ok next s → images_ok next s'.
Proof. intros (E1 & E2 & E3) [H1 H2 H3 H4 H5]. split; by rewrite ?E1, ?E2, ?E3. Qed.

Lemma caches_ok g0 g g' :
  ok_from g0 g → same_frame g g' → same_placements (images g) (images g') → ok_from g0 g'.
Proof.
  intros [Hg Hf] Hs Hp. split.
  - eapply step_ok; [done..|]. eapply same_placements_ok; [done|apply Hg].
  - etrans; [exact Hf|by apply frame_grows].
Qed.

(** Changes of fields the invariant does not look at. *)
Ltac caches :=
  unfold keeps_ok; intros;
  match goal with H : ok_from _ ?g |- _ => apply (caches_ok _ g); [exact H|by split_and!|by split_and!] end.


Lemma retain_keeps keep : keeps_ok (retain_inline_images keep).
Proof. apply shrinks_keeps, retain_shrinks. Qed.

Lemma retain_edited_keeps : keeps_ok retain_edited.
Proof. caches. Qed.

Lemma orphans_keeps b : keeps_ok (remove_orphan_kitty_relative_children b).
Proof. apply shrinks_keeps, orphans_shrinks. Qed.

Lemma delete_placements_keeps v b matches : keeps_ok (delete_kitty_placements v b matches).
Proof. apply shrinks_keeps, delete_placements_shrinks. Qed.

Lemma remove_unreferenced_keeps ids : keeps_ok (remove_unreferenced_kitty_images ids).
Proof. apply shrinks_keeps, remove_unreferenced_shrinks. Qed.

Lemma damage_at_keeps v r c w h : keeps_ok (record_inline_image_damage_at v r c w h).
Proof. apply shrinks_keeps, damage_at_shrinks. Qed.

Lemma response_keeps params status : keeps_ok (push_kitty_graphics_response params status).
Proof.
  intros g0 g Hg. unfold push_kitty_graphics_response.
  destruct (kitty_graphics_response_is_suppressed params status); [done|]. caches.
Qed.

(** A placement without a parent. *)
Lemma place_keeps v image options :
  po_parent_placement options = None → keeps_ok (place_kitty_image v image options).
Proof.
  intros Hn g0 g [Hg Hf]. destruct (place_ok v image options g Hg) as [H1 H2].
  { intros key parent _ Hp. congruence. }
  split; [done|by etrans].
Qed.


Section invariant.
  Context `{Ext : External} `{Host : ImageHost}.

(** ** Placeholders *)

Lemma remove_render_keeps r c i p : keeps_ok (remove_kitty_placeholder_render r c i p).
Proof. apply retain_keeps. Qed.

Lemma virtual_placeholder_keeps v pending : keeps_ok (λ g, (place_kitty_virtual_placeholder v pending g).2).
Proof.
  intros g0 g Hg. unfold place_kitty_virtual_placeholder. destruct (resolve_kitty_placeholder _ _) as [r|]; [|done].
  destruct (kitty_placeholder_origin_from_cell _ _ _ _) as [[row column]|]; [|simpl; caches].
  destruct (kitty_virtual_placement_for_placeholder _ _ _) as [p|]; [|simpl; caches].
  destruct (_ !! vp_image_id p) as [image|]; [|simpl; caches]. cbn [snd].
  match goal with |- ok_from g0 ?g' => match g' with context [place_kitty_image ?v ?i ?o ?x] =>
    assert (ok_from g0 (place_kitty_image v i o x)) as H end end.
  { apply place_keeps; [done|]. apply remove_render_keeps. repeat case_match; try done; by apply remove_render_keeps. }
  caches.
Qed.

Lemma take_pending_keeps : keeps_ok take_pending.
Proof. caches. Qed.

Lemma finish_placeholder_keeps v : keeps_ok (finish_pending_kitty_placeholder v).
Proof.
  intros g0 g Hg. unfold finish_pending_kitty_placeholder. case_match; [|done].
  by apply virtual_placeholder_keeps, take_pending_keeps.
Qed.

Lemma diacritic_keeps v ch : keeps_ok (λ g, (apply_kitty_placeholder_diacritic v ch g).2).
Proof.
  intros g0 g Hg. unfold apply_kitty_placeholder_diacritic.
  destruct (kitty_placeholder_diacritic_value ch); [|done].
  destruct (pending_kitty_placeholder (shared_images g)) as [p|]; [|done].
  match goal with |- context [place_kitty_virtual_placeholder v ?q ?x] =>
    pose proof (virtual_placeholder_keeps v q _ x (take_pending_keeps _ g Hg)) as H; cbn beta in H;
    destruct (place_kitty_virtual_placeholder v q x) as [q' g'] end.
  simpl in *. caches.
Qed.

Lemma clear_placeholder_cells_keeps r c w : keeps_ok (clear_kitty_placeholder_cells r c w).
Proof.
  intros g0 g Hg. unfold clear_kitty_placeholder_cells.
  match goal with |- context [foldl ?f g ?l] => assert (keeps_ok (λ g, foldl f g l)) as Hk end.
  { apply keeps_foldl. intros o h0 h Hh. destruct (_ !! _) as [p|]; [|done].
    match goal with |- ok_from _ (match kitty_placeholder_render_key _ _ _ ?x with _ => _ end) =>
      assert (ok_from h0 x) by caches end.
    repeat case_match; try done. by apply remove_render_keeps. }
  specialize (Hk _ g Hg). simpl in Hk. repeat (case_match; try done). caches.
Qed.

Lemma retire_stale_keeps : keeps_ok (λ g, (retire_stale_kitty_placeholder_caches g).2).
Proof. intros g0 g Hg. simpl. caches. Qed.

Lemma retire_in_keeps r1 r2 c1 c2 : keeps_ok (λ g, (retire_placeholders_in r1 r2 c1 c2 g).2).
Proof. intros g0 g Hg. simpl. caches. Qed.

(** The end of both: placeholders of the region, orphans and stale caches. *)
Ltac retire_tail H :=
  match goal with |- context [retire_placeholders_in ?a ?b ?c ?d ?g] =>
    let H2 := fresh in
    pose proof (retire_in_keeps a b c d _ g H) as H2; cbn beta in H2;
    destruct (retire_placeholders_in a b c d g) as [? ?h]; cbn [snd] in H2;
    apply (orphans_keeps false) in H2 end;
  match goal with |- context [retire_stale_kitty_placeholder_caches ?g] =>
    match goal with H2 : ok_from _ _ |- _ =>
      let H3 := fresh in
      pose proof (retire_stale_keeps _ g H2) as H3; cbn beta in H3;
      destruct (retire_stale_kitty_placeholder_caches g) as [? ?h]; exact H3 end end.

Lemma retire_graphics_keeps v top bottom l r :
  keeps_ok (λ g, (retire_graphics_in_bounded_scroll_region v top bottom l r g).2).
Proof.
  intros g0 g Hg. unfold retire_graphics_in_bounded_scroll_region. destruct (region_rows _ _ _) as [r1 r2].
  match goal with |- context [retain_inline_images ?k g] => pose proof (retain_keeps k _ g Hg) as H1;
    set (g1 := retain_inline_images k g) in * end.
  clearbody g1. retire_tail H1.
Qed.

Lemma retire_malformed_keeps v top bottom l r :
  keeps_ok (λ g, (retire_malformed_graphics_in_bounded_scroll_region v top bottom l r g).2).
Proof.
  intros g0 g Hg. unfold retire_malformed_graphics_in_bounded_scroll_region.
  destruct (region_rows _ _ _) as [r1 r2].
  match goal with |- context [retain_inline_images ?k g] => pose proof (retain_keeps k _ g Hg) as H1;
    set (g1 := retain_inline_images k g) in * end.
  clearbody g1. case_bool_decide; [done|]. retire_tail H1.
Qed.

(** ** Kitty commands *)

Lemma virtual_store_keeps params i b : keeps_ok (store_kitty_virtual_placement params i b).
Proof.
  intros g0 g Hg. unfold store_kitty_virtual_placement.
  match goal with |- ok_from g0 (if b then push_kitty_graphics_ok_response _ ?x else _) =>
    assert (ok_from g0 x) as H by caches end.
  destruct b; [|done]. by apply response_keeps.
Qed.

Lemma store_uploaded_keeps v upload image : keeps_ok (λ g, (store_uploaded_image v upload image g).2).
Proof.
  intros g0 g Hg. unfold store_uploaded_image.
  match goal with |- context [let '(_, _) := ?x in _] => set (start := x) end.
  assert (ok_from g0 start.2) as Hs.
  { unfold start. destruct (pg_image_id upload), (pg_image_number upload); try done. unfold next_kitty_id.
    simpl. caches. }
  destruct start as [i g1]. simpl in Hs.
  match goal with |- context [match i with None => (None, ?x) | _ => _ end] => set (g2 := x) end.
  assert (ok_from g0 g2) as H2.
  { unfold g2. destruct (pg_image_id upload); [|done]. by apply delete_placements_keeps. }
  clearbody g2. destruct i as [i|]; [|done]. cbn [snd]. apply response_keeps.
  destruct (pg_image_number upload); caches.
Qed.

Lemma finish_upload_keeps v upload : keeps_ok (finish_kitty_graphics_upload v upload).
Proof.
  intros g0 g Hg. unfold finish_kitty_graphics_upload. destruct (load_kitty_graphics_payload upload) as [e|data].
  { destruct (kitty_upload_should_respond upload); [|done]. by apply response_keeps. }
  destruct (upload_supported upload data); cbn [negb];
    [|destruct (kitty_upload_should_respond upload); [|done]; by apply response_keeps].
  destruct (is_query (pg_action upload)); [by apply response_keeps|].
  match goal with |- context [store_uploaded_image v upload ?im g] =>
    pose proof (store_uploaded_keeps v upload im _ g Hg) as H; cbn beta in H;
    destruct (store_uploaded_image v upload im g) as [i g'] end.
  cbn [snd] in H. destruct (pg_action upload); [|done..].
  destruct (pg_virtual_placement upload).
  - destruct i; [|done]. by apply virtual_store_keeps.
  - by apply place_keeps.
Qed.

(** The relation is refused when the parent descends from the child. *)
Lemma relative_keeps v params i : keeps_ok (apply_relative_kitty_graphics_placement v params i).
Proof.
  intros g0 g Hg. unfold apply_relative_kitty_graphics_placement.
  destruct (kp_virtual_placement params); [by apply response_keeps|].
  destruct (kp_parent_image_id params) as [pi|]; [|done].
  destruct (kp_parent_placement_id params) as [pp|]; [|by apply response_keeps].
  destruct (kitty_relative_parent_origin pi pp g) as [[pr pc]|]; [|by apply response_keeps].
  destruct (match kitty_placement_key (Some i) (kp_placement_id params) with
            | Some child => kitty_relative_placement_would_cycle _ child (pi, pp) | None => false end) eqn:Hc;
    [by apply response_keeps|].
  case_bool_decide; [by apply response_keeps|].
  destruct (kitty_images (shared_images g) !! i) as [image|]; [|by apply response_keeps].
  apply response_keeps. destruct Hg as [Hg Hf]. edestruct place_ok as [H1 H2]; [exact Hg| |].
  2: { split; [exact H1|by etrans]. }
  intros key parent Hk [= <-] Hr. simpl in Hk.
  unfold kitty_placement_key in Hc. simpl in Hc. rewrite Hk in Hc. apply bool_decide_eq_false in Hc.
  by apply Hc, ancestors_complete; [apply Hg|].
Qed.

Lemma placement_keeps v params : keeps_ok (apply_kitty_graphics_placement v params).
Proof.
  intros g0 g Hg. unfold apply_kitty_graphics_placement, no_such_number.
  destruct (kitty_image_id_from_params params g) as [i|]; [|case_match; [by apply response_keeps|done]].
  case_bool_decide; [by apply relative_keeps|]. destruct (kp_virtual_placement params).
  - unfold apply_kitty_virtual_placement.
    case_bool_decide; [by apply virtual_store_keeps|by apply response_keeps].
  - destruct (_ !! i); [|by apply response_keeps]. by apply response_keeps, place_keeps.
Qed.

Lemma query_keeps params data : keeps_ok (apply_kitty_graphics_query params data).
Proof.
  intros g0 g Hg. unfold apply_kitty_graphics_query.
  match goal with |- context [let '(_, _) := ?x in _] => set (start := x) end.
  assert (ok_from g0 start.2) as Hs.
  { unfold start, apply_kitty_graphics_stored_image_query, no_such_number, no_such_image,
      push_kitty_graphics_ok_response, push_kitty_graphics_error_response.
    repeat case_match; try done; by apply response_keeps. }
  destruct start as [[] g1]; [done|]. simpl in Hs.
  unfold push_kitty_graphics_upload_start_error, push_kitty_graphics_ok_response,
    push_kitty_graphics_error_response.
  repeat case_match; try done; by apply response_keeps.
Qed.

(** Forgetting edited placements touches the dormant screen too. *)
Lemma remove_virtual_keeps gone : keeps_ok (remove_virtual_placements gone).
Proof.
  intros g0 g [[H1 H2 H3] Hf]. apply retain_edited_keeps. split; [split; simpl; [..|done]|].
  - by eapply same_placements_ok; [|exact H1].
  - intros d Hd. apply fmap_Some in Hd as (d0 & Hd & ->). eapply same_placements_ok; [|by apply H2]. done.
  - etrans; [exact Hf|]. split; simpl; [done|]. by rewrite fmap_is_Some.
Qed.

Lemma physical_keeps v b matches : keeps_ok (delete_kitty_physical_placements v b matches).
Proof. intros g0 g. apply delete_placements_keeps. Qed.

Lemma delete_by_id_keeps v i p b : keeps_ok (delete_kitty_placements_by_image_id v i p b).
Proof.
  intros g0 g Hg. unfold delete_kitty_placements_by_image_id.
  match goal with |- context [delete_kitty_placements v false ?m ?x] =>
    assert (ok_from g0 (delete_kitty_placements v false m x)) as H end.
  { by apply delete_placements_keeps, remove_virtual_keeps. }
  destruct b; [by apply remove_unreferenced_keeps|done].
Qed.

Lemma delete_range_keeps v i j b : keeps_ok (delete_kitty_placements_by_image_id_range v i j b).
Proof.
  intros g0 g Hg. unfold delete_kitty_placements_by_image_id_range. destruct (j <? i); [done|].
  match goal with |- context [delete_kitty_placements v false ?m ?x] =>
    assert (ok_from g0 (delete_kitty_placements v false m x)) as H end.
  { by apply delete_placements_keeps, remove_virtual_keeps. }
  destruct b; [by apply remove_unreferenced_keeps|done].
Qed.

Lemma delete_keeps v params : keeps_ok (apply_kitty_graphics_delete v params).
Proof.
  intros g0 g Hg. unfold apply_kitty_graphics_delete.
  assert (ok_from g0 (g{{ shared_images -> pending_kitty_graphics := None }})) as H by caches.
  set (g1 := g{{ shared_images -> pending_kitty_graphics := None }}) in *. clearbody g1.
  destruct (visible_history_rows v) as [r1 r2].
  set (target := if between 65 90 _ then _ else _). clearbody target.
  destruct target as [|n|]; try exact H. do 7 (try destruct n as [n|n|]; try exact H);
    repeat case_match; try exact H;
    first [by apply physical_keeps | by apply delete_by_id_keeps | by apply delete_range_keeps].
Qed.

Lemma command_keeps v graphics : keeps_ok (apply_kitty_graphics v graphics).
Proof.
  intros g0 g Hg. unfold apply_kitty_graphics.
  assert (∀ p, ok_from g0 (set_pending_graphics p g)) as Hp by caches.
  assert (∀ p, keeps_ok (set_pending_graphics p)) as Hset by caches.
  destruct (negb _); [done|]. destruct (default _ _) as [control data].
  set (params := parse_kitty_graphics_params control). clearbody params.
  destruct (bool_decide _ && bool_decide _); [by apply response_keeps|].
  destruct (bool_decide _ && bool_decide _); [by apply query_keeps|].
  case_bool_decide; [by apply placement_keeps|]. case_bool_decide; [by apply delete_keeps|].
  specialize (Hp None). set (g1 := set_pending_graphics None g) in *. clearbody g1.
  unfold push_kitty_graphics_upload_start_error.
  repeat case_match; try done;
    first [by apply finish_upload_keeps | by apply response_keeps | by apply Hset].
Qed.

(** ** Files, sixel images and resets *)

Lemma file_keeps v file : keeps_ok (apply_osc1337_file v file).
Proof.
  intros g0 g Hg. unfold apply_osc1337_file. repeat (case_match; try done).
  by apply push_keeps, damage_at_keeps.
Qed.

Lemma sixel_keeps v content : keeps_ok (apply_sixel_dcs v content).
Proof.
  intros g0 g Hg. unfold apply_sixel_dcs. destruct (sixel_dcs_parts content) as [[params data]|]; [|done].
  unfold apply_sixel_content. destruct (parse_sixel_image _ data) as [image|]; [|done].
  destruct (if view_sixel_display_mode v then _ else _) as [row column].
  match goal with |- context [push_inline_image ?i ?x] => assert (ok_from g0 (push_inline_image i x)) as H end.
  { by apply push_keeps, damage_at_keeps. }
  caches.
Qed.

(** No placement is left, and relations may go. *)
Lemma cleared_ok g0 g g' :
  ok_from g0 g → same_frame g g' → same_placements no_screen_images (images g') → ok_from g0 g'.
Proof.
  intros [Hg Hf] Hs Hp. split.
  - eapply step_ok; [done..|]. eapply same_placements_ok; [done|apply no_images_ok].
  - etrans; [exact Hf|by apply frame_grows].
Qed.

Lemma clear_images_keeps : keeps_ok (on_images clear_inline_images).
Proof. intros g0 g Hg. by apply (cleared_ok _ g). Qed.

Lemma reflow_globals_keeps : keeps_ok retire_reflow_globals.
Proof.
  intros g0 g Hg. apply (cleared_ok _ g); [done| |done]. split_and!; [done..|]. apply map_empty_subseteq.
Qed.

Lemma reset_graphics_keeps : keeps_ok reset_graphics.
Proof.
  intros g0 g Hg. apply (cleared_ok _ g); [done| |done]. split_and!; [done..|]. apply map_empty_subseteq.
Qed.

Lemma clear_kitty_keeps : keeps_ok clear_kitty_graphics.
Proof.
  intros g0 g Hg. unfold clear_kitty_graphics.
  match goal with |- context [retain_inline_images ?k g] => pose proof (retain_keeps k _ g Hg) as H;
    set (g1 := retain_inline_images k g) in * end.
  clearbody g1. apply (caches_ok _ g1); [done| |done]. split_and!; [done..|]. apply map_empty_subseteq.
Qed.

Lemma on_images_keeps f : (∀ next s, images_ok next s → images_ok next (f s)) → keeps_ok (on_images f).
Proof. intros Hf. by apply shrinks_keeps, on_images_shrinks. Qed.

(** ** Every call *)

Lemma image_call_keeps c v : keeps_ok (λ g, (image_call c v g).2).
Proof.
  destruct c; cbn [image_call snd].
  - apply finish_placeholder_keeps.
  - apply diacritic_keeps.
  - caches.
  - caches.
  - apply clear_placeholder_cells_keeps.
  - apply clear_images_keeps.
  - caches.
  - apply orphans_keeps.
  - intros g0 g Hg. unfold delete_visible_inline_images. destruct (visible_history_rows v).
    by apply orphans_keeps, retain_keeps.
  - apply on_images_keeps. intros next s. apply rebase_ok.
  - apply retain_edited_keeps.
  - apply shrinks_keeps, scroll_images_shrinks.
  - apply on_images_keeps. intros next s. apply same_placements_ok.
    unfold scroll_kitty_placeholder_cells_down_region. case_bool_decide; [done|].
    by destruct (region_rows v top bottom).
  - apply shrinks_keeps, scroll_images_shrinks.
  - apply on_images_keeps. intros next s. apply same_placements_ok.
    unfold scroll_kitty_placeholder_cells_up_region. case_bool_decide; [done|].
    by destruct (region_rows v top bottom).
  - intros g0 g Hg. by apply orphans_keeps, retain_keeps.
  - apply on_images_keeps. intros next s. apply shift_ok.
  - apply retire_graphics_keeps.
  - apply retire_malformed_keeps.
  - apply shrinks_keeps, apply_transform_shrinks.
  - caches.
  - intros g0 g Hg. by apply (cleared_ok _ g).
  - apply reflow_globals_keeps.
  - apply clear_kitty_keeps.
  - apply reset_graphics_keeps.
  - apply command_keeps.
  - apply sixel_keeps.
  - apply file_keeps.
Qed.

(** ** The pending placeholder *)

Definition pending_of (g : ImageState) : option PendingKittyPlaceholder :=
  pending_kitty_placeholder (shared_images g).

Lemma move_pending or oc nr nc key g : pending_of (move_placement or oc nr nc key g) = pending_of g.
Proof. unfold move_placement. by destruct (list_find (has_key key) (inline_images (images g))) as [[]|]. Qed.

Lemma descendants_pending fuel or oc nr nc stack seen g :
  pending_of (descendants_loop fuel or oc nr nc stack seen g) = pending_of g.
Proof.
  revert stack seen g. induction fuel as [|fuel IH]; intros [|p stack] seen g; try done. simpl.
  case_bool_decide; [apply IH|]. rewrite IH. generalize (children_of p g). intros l. revert g.
  induction l as [|key l IHl]; intros g; [done|]. simpl. rewrite IHl. apply move_pending.
Qed.

Lemma move_descendants_pending key or oc nr nc g :
  pending_of (move_relative_kitty_descendants key or oc nr nc g) = pending_of g.
Proof. unfold move_relative_kitty_descendants. case_match; [done|]. by rewrite descendants_pending. Qed.

Lemma damage_at_pending v r c w h g : pending_of (record_inline_image_damage_at v r c w h g) = pending_of g.
Proof. unfold record_inline_image_damage_at. repeat case_match; done. Qed.

Lemma replace_pending v key g : pending_of (replace_placement v key g) = pending_of g.
Proof. unfold replace_placement, pending_of. simpl. by case_bool_decide. Qed.

Lemma place_pending v image options g : pending_of (place_kitty_image v image options g) = pending_of g.
Proof.
  unfold place_kitty_image. destruct (kitty_display_dimensions image options) as [w h].
  assert (∀ (g' : ImageState) cells, pending_of g' = pending_of g →
    pending_of (if po_move_cursor options then g'{{ cursor_cells := cells }} else g') = pending_of g) as Hc.
  { intros g' cells <-. by destruct (po_move_cursor options). }
  apply Hc. clear Hc. set (row := default _ _). set (column := default _ _).
  assert (∀ g1, pending_of (push_inline_image (placed_image image options row column)
    (record_inline_image_damage_at v row column w h g1)) = pending_of g1) as Hpush.
  { intros g1. etrans; [|apply (damage_at_pending v row column w h)].
    by generalize (record_inline_image_damage_at v row column w h g1). }
  destruct (kitty_placement_key _ _) as [key|]; [|apply Hpush].
  specialize (Hpush (replace_placement v key g)). rewrite replace_pending in Hpush. revert Hpush.
  generalize (push_inline_image (placed_image image options row column)
    (record_inline_image_damage_at v row column w h (replace_placement v key g))). intros g1 <-.
  match goal with |- context [match po_parent_placement options with Some _ => _ | None => g1 end] =>
    set (g2 := match po_parent_placement options with Some _ => _ | None => g1 end) end.
  assert (pending_of g2 = pending_of g1) as <- by (unfold g2; by case_match). clearbody g2.
  case_match; [|done]. case_match. apply move_descendants_pending.
Qed.

Lemma virtual_placeholder_pending v p g :
  pending_of (place_kitty_virtual_placeholder v p g).2 = pending_of g.
Proof.
  unfold place_kitty_virtual_placeholder. destruct (resolve_kitty_placeholder _ _) as [r|]; [|done].
  destruct (kitty_placeholder_origin_from_cell _ _ _ _) as [[row column]|]; [|done].
  destruct (kitty_virtual_placement_for_placeholder _ _ _) as [q|]; [|done].
  destruct (_ !! vp_image_id q) as [image|]; [|done]. cbn [snd].
  match goal with |- context [place_kitty_image ?v ?i ?o ?x] =>
    pose proof (place_pending v i o x) as H; revert H; generalize (place_kitty_image v i o x) end.
  intros g' Hg'. change (pending_of g' = pending_of g). rewrite Hg'. unfold remove_kitty_placeholder_render.
  repeat case_match; done.
Qed.

Lemma finish_leaves_none v g : pending_of (finish_pending_kitty_placeholder v g) = None.
Proof.
  unfold finish_pending_kitty_placeholder. destruct (pending_kitty_placeholder _) eqn:Hp; [|exact Hp].
  by rewrite virtual_placeholder_pending.
Qed.

Lemma finish_without_pending v g : pending_of g = None → finish_pending_kitty_placeholder v g = g.
Proof. unfold finish_pending_kitty_placeholder, pending_of. by intros ->. Qed.

(** Finishing a placeholder leaves none to finish. *)
#[export] Instance rterm_graphics_laws : GraphicsLaws.
Proof.
  intros v v' k s d r k' s' d' [= _ <- <- _] e. simpl.
  by rewrite finish_without_pending by exact (finish_leaves_none v (mkImageState k s d [] None)).
Qed.
End invariant.
