(* ===== verification/ImageProps.v ===== *)
(** Inline images as the terminal's clients see them: the consistency of the
    placements on both screens over any sequence of inputs, from the steps of
    [GraphicsTrace] and the calls of [ImageInvariant], and runs of concrete
    terminals with images. *)
From coqutil Require Import Datatypes.RecordSetters.
From S2P Require Import Prelude Text Grid GridFacts Csi Parse Reflow Utf8 Feed Screen Scroll Edit Control.
From S2P Require Import Images Placements Placeholders Kitty Sixel ImageCalls.
From S2P Require Import ScreenFacts TerminalInv TerminalProps GraphicsTrace ImageFacts ImageInvariant.
From S2P Require Import ImageDeletion KittyFacts Attachments.
Import DoubleBraceUpdate.

Local Open Scope Z_scope.

Section images.
  Context `{Ext : External} `{Host : ImageHost}.

Definition state_of (f : GraphicsFields) : ImageState := mkImageState f.1.1 f.1.2 f.2 [] None.

(** The graphics fields of a terminal. *)
Definition image_state (t : Terminal) : ImageState := state_of (graphics_fields t).

Lemma call_keeps c v k g d r k' g' d' :
  graphics_call c v k g d = (r, k', g', d') → state_ok (state_of (k, g, d)) →
  state_ok (state_of (k', g', d')) ∧ grows (state_of (k, g, d)) (state_of (k', g', d')).
Proof.
  intros Hc Hok. pose proof (image_call_keeps c v _ _ (conj Hok (reflexivity _))) as Hk. cbn beta in Hk.
  change (graphics_call c v k g d) with
    (let '(flag, g') := image_call c v (state_of (k, g, d)) in
     (mkReply flag (marked g') (cursor_cells g'), shared_images g', images g', dormant g')) in Hc.
  destruct (image_call c v (state_of (k, g, d))) as [flag g2]. injection Hc as _ <- <- <-.
  cbn [snd] in Hk. destruct Hk as [[H1 H2 H3] Hg]. split; [by split|exact Hg].
Qed.

Lemma step_keeps f f' : graphics_step f f' → state_ok (state_of f) → state_ok (state_of f').
Proof.
  intros Hs Hok. destruct Hs as [c v k g d r k' g' d' Hc|c v k g x r k' x' e Hc|k g|k g x|k g x].
  - destruct (call_keeps _ _ _ _ _ _ _ _ _ Hc Hok) as [[H1 H2 H3] [_ Hd]]. split; simpl; [exact H1| |exact H3].
    intros s. unfold dormant_after. destruct d as [x|]; [|done].
    destruct d' as [y|]; [intros [= <-]; by apply H2|].
    destruct (proj1 Hd ltac:(by eexists)) as [? [=]].
  - destruct Hok as [K1 K2 K3].
    assert (state_ok (state_of (k, x, None))) as Hx by (split; simpl; [by apply K2|done|done]).
    destruct (call_keeps _ _ _ _ _ _ _ _ _ Hc Hx) as [[H1 H2 H3] [Hn _]].
    split; simpl; [eapply images_ok_weaken; [exact Hn|exact K1]|by intros s [= <-]|exact H3].
  - destruct Hok as [K1 K2 K3]. split; simpl; [done| |done]. by intros s [= <-].
  - destruct Hok as [K1 K2 K3]. split; simpl; [by apply K2|done|done].
  - destruct Hok as [K1 K2 K3]. split; simpl; done.
Qed.

Lemma steps_keep f f' : rtc graphics_step f f' → state_ok (state_of f) → state_ok (state_of f').
Proof. induction 1; eauto using step_keeps. Qed.

Lemma new_state_ok : state_ok (state_of (new_shared_images, no_screen_images, None)).
Proof. split; simpl; [apply no_images_ok|done|apply acyclic_empty]. Qed.

(** From the state of a new terminal. *)
Lemma run_state_ok size style inputs f' :
  iterM run_input inputs (fresh_feeder size style new_shared_images) = Ok () f' →
  state_ok (image_state (screen f')).
Proof. intros Hrun%graphics_trace. exact (steps_keep _ _ Hrun new_state_ok). Qed.

(** C4. Whatever bytes a terminal is fed, in whatever pieces, with images,
    placements and deletions among them, and however it is resized, limited
    and cleared in between: on the screen that is shown and on the dormant
    one, there are as many placement identities as placements, no identity
    is used twice or not yet issued, every attached cell belongs to a
    placement of its screen, no part of an image is attached to two cells,
    and the parents of relative placements form no cycle. *)
Theorem images_stay_consistent size style inputs f' :
  iterM run_input inputs (fresh_feeder size style new_shared_images) = Ok () f' →
  state_ok (image_state (screen f')).
Proof.
  apply run_state_ok.
Qed.
End images.

(** ** Concrete terminals *)

(** The value of a character of the standard base64 alphabet. *)
Definition base64_value (c : Z) : option Z :=
  if between 65 90 c then Some (c - 65)
  else if between 97 122 c then Some (c - 71)
  else if is_digit c then Some (c + 4)
  else if c =? 43 then Some 62
  else if c =? 47 then Some 63
  else None.

(** Groups of four characters, the last one padded. *)
Fixpoint base64_groups (fuel : nat) (s : rstring) : option (list Z) :=
  match fuel, s with
  | _, [] => Some []
  | O, _ => None
  | S fuel, [a; b; 61; 61] =>
      x ← base64_value a; y ← base64_value b;
      if y `mod` 16 =? 0 then Some [x * 4 + y / 16] else None
  | S fuel, [a; b; c; 61] =>
      x ← base64_value a; y ← base64_value b; z ← base64_value c;
      if z `mod` 4 =? 0 then Some [x * 4 + y / 16; y `mod` 16 * 16 + z / 4] else None
  | S fuel, a :: b :: c :: d :: rest =>
      x ← base64_value a; y ← base64_value b; z ← base64_value c; w ← base64_value d;
      bytes ← base64_groups fuel rest;
      Some (x * 4 + y / 16 :: y `mod` 16 * 16 + z / 4 :: z `mod` 4 * 64 + w :: bytes)
  | _, _ => None
  end.

(** Unicode tables in which every character from U+1100 on is two columns
    wide, and base64. *)
Definition image_external : External := {|
  char_width := λ _ c, Some (if c <? 4352 then 1%nat else 2%nat);
  str_width := λ _ s, foldr (λ c n, Nat.add n (if c <? 4352 then 1%nat else 2%nat)) 0%nat s;
  grapheme_count := length;
  nfc_text := id;
  combining_class := λ _, 0;
  base64_decode := λ s, base64_groups (length s) s;
|}.

(** No compressed data, no files, and the order of the key-value list. *)
Definition plain_host : ImageHost := {|
  inflate := λ _, None;
  read_file := λ _ _ _, None;
  placement_order := id;
|}.

#[local] Existing Instance image_external.
#[local] Existing Instance plain_host.

#[export] Instance plain_host_laws : ImageHostLaws.
Proof. by intros l. Qed.

Definition kitty (s : string) : list Z := (27 :: lit "_G" ++ lit s) ++ [27; 92].

Definition image_terminal (columns rows : nat) : Feeder Terminal :=
  fresh_feeder (mkTerminalSize columns rows) SteadyBlock new_shared_images.

Definition final {A} (m : M Empty_set (Feeder Terminal) A) (f : Feeder Terminal) : Feeder Terminal :=
  match m f with Ok _ f' => f' | _ => f end.

Definition ends {A} (m : M Empty_set (Feeder Terminal) A) (f : Feeder Terminal) : bool :=
  match m f with Ok _ _ => true | _ => false end.

Lemma final_ok (m : M Empty_set (Feeder Terminal) ()) f : ends m f = true → m f = Ok () (final m f).
Proof. unfold ends, final. by destruct (m f) as [[]| |]. Qed.

(** A red pixel is stored and shown on two by two cells, a second placement is
    relative to it, the text scrolls, and the alternate screen comes and goes. *)
Definition image_inputs : list TerminalInput :=
  [Feed (kitty "a=t,i=7,f=24,s=1,v=1;/wAA" ++ kitty "a=p,i=7,p=1,c=2,r=2,C=1");
   Feed (kitty "a=p,i=7,p=2,P=7,Q=1,H=3,V=1,c=1,r=1" ++ [13; 10; 10; 10; 10]);
   Feed (27 :: lit "[?1049h" ++ kitty "a=T,f=24,s=1,v=1;/wAA" ++ 27 :: lit "[?1049l");
   Resize (mkTerminalSize 10 3)].

Definition image_run : Feeder Terminal := final (iterM run_input image_inputs) (image_terminal 10 4).

Lemma image_run_ends : iterM run_input image_inputs (image_terminal 10 4) = Ok () image_run.
Proof. apply final_ok. vm_compute. reflexivity. Qed.

Definition placements_of (f : Feeder Terminal) : list (option Z * option Z * Z * Z) :=
  (λ i, (im_kitty_image_id i, im_kitty_placement_id i, im_row i, im_column i))
    <$> inline_images (graphics (active (screen f))).

Lemma images_stay_consistent_witness :
  placements_of image_run = [(Some 7, Some 1, 0, 0); (Some 7, Some 2, 1, 3)] ∧
  state_ok (image_state (screen image_run)).
Proof.
  split; [vm_compute; reflexivity|].
  exact (images_stay_consistent _ _ image_inputs image_run image_run_ends).
Defined.

(** The placement 2 is relative to the placement 1. *)
Lemma delete_removes_exactly_dependants_witness :
  let g := image_state (screen image_run) in
  let v := graphics_view (screen image_run) in
  let one (image : ItermInlineImage) := bool_decide (im_kitty_placement_id image = Some 1) in
  parents_of g = {[(7, 2) := (7, 1)]} ∧
  relations_shown (delete_kitty_placements v true one g) ∧
  inline_images (images (delete_kitty_placements v true one g)) = [].
Proof.
  intros g v one. split; [vm_compute; reflexivity|].
  assert (state_ok g) as Hg by (exact (run_state_ok _ _ image_inputs image_run image_run_ends)).
  split; [apply (delete_removes_exactly_dependants v true one g Hg)|]. vm_compute. reflexivity.
Defined.

Definition sample_control : rstring := lit "a=T,i=7,f=24,s=2,v=1".

Lemma sample_control_starts : 59 ∉ sample_control ∧ starts_upload (parse_kitty_graphics_params sample_control).
Proof.
  split; [vm_compute; set_solver|]. set (params := parse_kitty_graphics_params sample_control).
  assert (kp_action params = Some 84) as Ha by (vm_compute; reflexivity).
  assert (kp_image_number params = None) as Hn by (vm_compute; reflexivity).
  split_and!; [congruence..|by right|]. eexists. vm_compute. reflexivity.
Qed.

(** A red pixel twice, in three chunks. *)
Lemma chunked_upload_is_one_upload_witness :
  let v := graphics_view (screen (image_terminal 10 4)) in
  let g := image_state (screen (image_terminal 10 4)) in
  let once := apply_kitty_graphics v (sample_control ++ lit ",m=0;" ++ lit "/w" ++ concat [lit "AA/w"] ++ lit "AA") g in
  apply_kitty_graphics v (lit "m=0;" ++ lit "AA")
    (foldl (λ g data, apply_kitty_graphics v (lit "m=1;" ++ data) g)
       (apply_kitty_graphics v (sample_control ++ lit ",m=1;" ++ lit "/w") g) [lit "AA/w"]) = once ∧
  sk_data <$> kitty_images (shared_images once) = {[7 := [255; 0; 0; 255; 0; 0]]}.
Proof.
  intros v g once. split; [|vm_compute; reflexivity].
  exact (chunked_upload_is_one_upload v sample_control (lit "/w") [lit "AA/w"] (lit "AA") g
    (proj1 sample_control_starts) (proj2 sample_control_starts) eq_refl).
Defined.

(** An image is stored under the number 5. *)
Lemma numbered_upload_is_new_witness :
  let v := graphics_view (screen image_run) in
  let g := image_state (screen image_run) in
  let image := mkStored FormatRgb (Some 1) (Some 1) None None [255; 0; 0] in
  let upload := mkUpload FormatRgb MediumDirect None UploadStore None (Some 5) None None (Some 1) (Some 1) None
                  None false None None None None None None None None None false (lit "/wAA") in
  kitty_images (shared_images g) !! 1 = None ∧ (store_uploaded_image v upload image g).1 = Some 1 ∧
  kitty_images (shared_images (store_uploaded_image v upload image g).2) =
    <[1 := image]> (kitty_images (shared_images g)).
Proof.
  intros v g image upload.
  pose proof (numbered_upload_is_new v upload image 5 g eq_refl eq_refl ltac:(vm_compute; done) ltac:(vm_compute; done)) as H.
  assert ((store_uploaded_image v upload image g).1 = Some 1) as H1 by (vm_compute; reflexivity).
  destruct (store_uploaded_image v upload image g) as [i g'] eqn:Hs. simpl in H1. rewrite H1 in H.
  destruct H as (n & [= <-] & _ & H2 & H3 & _). split; [exact H2|]. split; [exact H1|exact H3].
Defined.

(** Three rows of text; the columns 2 to 6 of the last three rows scroll up. *)
Definition text_inputs : list TerminalInput :=
  [Feed (lit "abcdefghij" ++ [13; 10] ++ lit "klmnopqrst" ++ [13; 10] ++ lit "uvwxyz")].

Definition text_run : Feeder Terminal := final (iterM run_input text_inputs) (image_terminal 10 4).

Lemma text_run_region : region_on 0 2 1 2 6 (screen text_run).
Proof.
  assert (screen_size (screen text_run) = mkTerminalSize 10 4) as Hs by (vm_compute; reflexivity).
  assert (history_len (screen text_run) = 0%nat) as Hh by (vm_compute; reflexivity).
  set (t := screen text_run) in *.
  assert (grid_ok (grid (active t))) as Hg; [|clearbody t; split; rewrite ?Hs, ?Hh; [done|simpl; unfold usize_max, u64_max in *; lia..]].
  unfold t. clear t Hs Hh. pose proof (run_inputs_keep (mkTerminalSize 10 4) text_inputs (image_terminal 10 4)) as Hk.
  rewrite (final_ok (iterM run_input text_inputs) (image_terminal 10 4)) in Hk by (vm_compute; reflexivity).
  apply Hk; [repeat constructor|]. apply new_inv. split; simpl; unfold u16_max; lia.
Qed.

Lemma attachments_follow_text_witness :
  let t := screen text_run in
  let t' := scroll_up_bounded_cells 0 2 1 2 6 t in
  apply_coordinate (TScrollUp 0 2 1 2 6) 1 3 = Some (0, 3) ∧
  TerminalGrid.get 0 3 (grid (active t')) = TerminalGrid.get 1 3 (grid (active t)) ∧
  Cell.text <$> TerminalGrid.get 1 3 (grid (active t)) = Some (lit "n").
Proof.
  intros t t'. split; [vm_compute; reflexivity|]. split; [|vm_compute; reflexivity].
  assert (history_len t = 0%nat) as Hh by (vm_compute; reflexivity).
  assert (screen_size t = mkTerminalSize 10 4) as Hs by (vm_compute; reflexivity).
  destruct (attachments_follow_text 0 2 1 2 6 true t text_run_region) as [H _].
  assert (1 < size_rows (screen_size t))%nat as H1 by (rewrite Hs; cbn [size_rows]; lia).
  assert (3 < size_columns (screen_size t))%nat as H2 by (rewrite Hs; cbn [size_columns]; lia).
  assert (apply_coordinate (scroll_transform 0 2 1 2 6 true t) (Z.of_nat (history_len t + 1)) (Z.of_nat 3) =
          Some (0, 3)) as H3 by (vm_compute; reflexivity).
  destruct (H 1%nat 3%nat 0 3 H1 H2 H3) as (r' & Hr & _ & _ & Hc).
  rewrite Hh in Hr. replace r' with 0%nat in Hc by lia. exact Hc.
Defined.

(** ** Defects *)

(** A stored image, a placement of it and a placement relative to that one. *)
Definition related_inputs : list TerminalInput :=
  [Feed (kitty "a=t,i=7,f=24,s=1,v=1;/wAA" ++ kitty "a=p,i=7,p=1,c=1,r=1,C=1"
         ++ kitty "a=p,i=7,p=2,P=7,Q=1,H=3,V=1,c=1,r=1")].

Definition alternate_visit (bytes : list Z) : TerminalInput :=
  Feed (27 :: lit "[?1049h" ++ bytes ++ 27 :: lit "[?1049l").

Definition delete_first : TerminalInput := Feed (kitty "a=d,d=i,i=7,p=1").

Definition placements_after (inputs : list TerminalInput) : list (option Z * option Z * Z * Z) :=
  placements_of (final (iterM run_input inputs) (image_terminal 10 4)).

(** Scrolling on the alternate screen forgets how the placements of the
    main screen are related, since the relations are shared and the code
    takes those without placements on the active screen for orphans. A visit
    to the alternate screen that scrolls nothing keeps them: deleting a
    placement then removes the placement relative to it; after a visit that
    scrolls, the same deletion leaves that placement behind. *)
Theorem alternate_scroll_drops_relations :
  placements_after (related_inputs ++ [alternate_visit []]) =
    placements_after (related_inputs ++ [alternate_visit [10; 10; 10; 10]]) ∧
  placements_after (related_inputs ++ [alternate_visit []; delete_first]) = [] ∧
  placements_after (related_inputs ++ [alternate_visit [10; 10; 10; 10]; delete_first]) =
    [(Some 7, Some 2, 1, 3)].
Proof. vm_compute. done. Qed.

Definition place_relative (child parent : Z) : list Z :=
  27 :: lit "_Ga=p,i=7,p=" ++ show_unsigned child ++ lit ",P=7,Q=" ++ show_unsigned parent ++ [27; 92].

(** Two chains of eight placements, the second then hung onto the first. *)
Definition chain_inputs : list TerminalInput :=
  [Feed (kitty "a=t,i=7,f=24,s=1,v=1;/wAA" ++ kitty "a=p,i=7,p=10,C=1" ++ kitty "a=p,i=7,p=20,C=1");
   Feed (concat ((λ n, place_relative (n + 1) n) <$> seqZ 10 7));
   Feed (concat ((λ n, place_relative (n + 1) n) <$> seqZ 20 7));
   Feed (place_relative 20 17)].

Lemma relative_chain_exceeds_limit :
  (MAX_KITTY_RELATIVE_CHAIN_DEPTH <
   kitty_relative_parent_depth
     (kitty_relative_parents (shared (screen (final (iterM run_input chain_inputs) (image_terminal 10 4))))) (7, 27)%Z)%nat.
Proof. vm_compute. repeat constructor. Qed.
