(* ===== verification/RuntimeApi.v ===== *)
(** The values a pane worker and its host exchange ([rssh-runtime/src/api.rs],
    [metrics.rs], the mode types of [modes.rs]): pane generations, revisions
    and effect positions, metadata changes, effects, and the cursor with which
    a host checks that no effect is missing.

    A [NonZeroU64] is a [Z] between 1 and [u64_max]; durations are [Z] in
    nanoseconds. *)
From coqutil Require Import Datatypes.RecordSetters.
From S2P Require Import Prelude Text Launch Csi Parse Grid Screen.
Import DoubleBraceUpdate.

Local Open Scope Z_scope.

(** ** Modes *)

Inductive MouseProtocolMode := MouseX10 | MouseUtf8 | MouseSgr | MouseUrxvt | MouseSgrPixels.
Inductive MouseReportingMode := MouseNone | MouseNormal | MouseButtonEvent | MouseAnyEvent.
Record MouseInputMode := mkMouseMode { reporting : MouseReportingMode; protocol : MouseProtocolMode }.

Inductive TerminalModeChange :=
| ApplicationCursorKeys (enabled : bool)
| ApplicationKeypad (enabled : bool)
| BracketedPaste (enabled : bool)
| Mouse (mode : MouseInputMode)
| Focus (enabled : bool)
| SynchronizedOutput (enabled : bool)
| KittyKeyboardFlags (flags : Z)
| ModifyOtherKeys (level : Z)
| Win32InputMode (enabled : bool).

(** ** Counters that end instead of wrapping *)

Inductive SequenceKind := SeqPaneGeneration | SeqRuntimeRevision | SeqEffectSequence.
Record SequenceExhausted := mkExhausted { exhausted_kind : SequenceKind }.

(** [fetch_update] on the process-wide counter; zero means exhausted. *)
Definition issue_pane_generation (counter : Z) : (SequenceExhausted + Z) * Z :=
  if counter =? 0 then (inl (mkExhausted SeqPaneGeneration), counter)
  else (inr counter, if counter + 1 <=? u64_max then counter + 1 else 0).

Record PaneToken := mkToken { token_pane : PaneId; token_generation : Z }.

#[export] Instance PaneToken_eq_dec : EqDecision PaneToken.
Proof. solve_decision. Defined.
#[export] Instance PaneToken_countable : Countable PaneToken.
Proof.
  by apply (inj_countable' (λ t, (token_pane t, token_generation t)) (λ p, mkToken p.1 p.2)); intros [].
Defined.

Definition issue (pane : PaneId) (counter : Z) : (SequenceExhausted + PaneToken) * Z :=
  match issue_pane_generation counter with
  | (inl e, counter) => (inl e, counter)
  | (inr generation, counter) => (inr (mkToken pane generation), counter)
  end.

(** [RuntimeRevision::next] and [EffectSequence::next]. *)
Definition next_in (kind : SequenceKind) (n : Z) : SequenceExhausted + Z :=
  if n + 1 <=? u64_max then inr (n + 1) else inl (mkExhausted kind).
Definition next_revision : Z → SequenceExhausted + Z := next_in SeqRuntimeRevision.
Definition next_sequence : Z → SequenceExhausted + Z := next_in SeqEffectSequence.

Definition ok {E A} (r : E + A) : option A := match r with inl _ => None | inr a => Some a end.

(** ** Metadata *)

Inductive MetadataChange (A : Type) := MetadataSet (value : A) | MetadataClear.
Arguments MetadataSet {A} value.
Arguments MetadataClear {A}.

Inductive RuntimeProgress :=
| ProgressNone
| ProgressPercentage (percent : Z)
| ProgressError (percent : Z)
| ProgressIndeterminate.

Record UserVarDelta := mkUserVar { var_name : rstring; var_value : MetadataChange rstring }.

Record PaneMetadataDelta := mkMetadata {
  md_title : option (MetadataChange rstring);
  md_working_directory : option (MetadataChange rstring);
  md_badge_format : option (MetadataChange rstring);
  md_progress : option (MetadataChange RuntimeProgress);
  md_user_vars : list UserVarDelta;
}.

#[export] Hint Extern 0 (@Setter PaneMetadataDelta _ ?getter) =>
  mk_setter (fun r : PaneMetadataDelta => mkMetadata (md_title r) (md_working_directory r)
    (md_badge_format r) (md_progress r) (md_user_vars r)) getter : typeclass_instances.

Definition no_metadata : PaneMetadataDelta := mkMetadata None None None None [].

#[export] Instance RuntimeProgress_eq_dec : EqDecision RuntimeProgress.
Proof. solve_decision. Defined.
#[export] Instance MetadataChange_eq_dec {A} `{EqDecision A} : EqDecision (MetadataChange A).
Proof. solve_decision. Defined.
#[export] Instance UserVarDelta_eq_dec : EqDecision UserVarDelta.
Proof. solve_decision. Defined.
#[export] Instance PaneMetadataDelta_eq_dec : EqDecision PaneMetadataDelta.
Proof. solve_decision. Defined.

(** ** Effects *)

Inductive RuntimeEffectKind :=
| TransportWrite (bytes : list Z)
| HostStream (bytes : list Z)
| VisibleOutput (bytes : list Z)
| ModeChange (change : TerminalModeChange)
| Bell (count : Z)
| ClipboardWrite (selection : option rstring) (contents : rstring)
| ClipboardRead (selection : rstring)
| Notification (title : option rstring) (body : rstring)
| Diagnostic (message : rstring).

Record RuntimeEffect := mkEffect { effect_sequence : Z; effect_kind : RuntimeEffectKind }.

Record RuntimeBatchMetrics := mkBatchMetrics {
  transport_bytes : Z;
  coalesced_reads : Z;
  parse_duration : Z;
  snapshot_duration : Z;
}.

Definition no_metrics : RuntimeBatchMetrics := mkBatchMetrics 0 0 0 0.

(** One publication, with a snapshot of type [S]. *)
Record RuntimeBatch (S : Type) := mkBatch {
  batch_pane : PaneToken;
  batch_revision : Z;
  batch_snapshot : option S;
  batch_damage : list DamageRegion;
  batch_metadata : PaneMetadataDelta;
  batch_effects : list RuntimeEffect;
  batch_metrics : RuntimeBatchMetrics;
}.
Arguments mkBatch {S}.
Arguments batch_pane {S}.
Arguments batch_revision {S}.
Arguments batch_snapshot {S}.
Arguments batch_damage {S}.
Arguments batch_metadata {S}.
Arguments batch_effects {S}.
Arguments batch_metrics {S}.

(** ** The cursor over the effect stream *)

Inductive EffectSequenceError :=
| SequenceGap (expected observed : Z)
| SequenceDuplicate (expected observed : Z)
| SequenceAfterEnd (observed : Z).

(** [Display]. *)
Definition sequence_error_text (e : EffectSequenceError) : rstring :=
  match e with
  | SequenceGap expected observed =>
      lit "effect sequence gap: expected " ++ show_unsigned expected ++ lit ", observed " ++ show_unsigned observed
  | SequenceDuplicate expected observed =>
      lit "duplicate or out-of-order effect: expected " ++ show_unsigned expected
      ++ lit ", observed " ++ show_unsigned observed
  | SequenceAfterEnd observed => lit "effect sequence exhausted before observed " ++ show_unsigned observed
  end.

(** [EffectSequenceCursor]: the next required position, none after the last. *)
Definition EffectSequenceCursor : Type := option Z.
Definition first_effect : EffectSequenceCursor := Some 1.

(** The loop of [validate_batch]; the cursor is only written when it ends
    without an error. *)
Fixpoint validate_effects (candidate : EffectSequenceCursor) (effects : list RuntimeEffect) :
    EffectSequenceError + EffectSequenceCursor :=
  match effects with
  | [] => inr candidate
  | effect :: rest =>
      let observed := effect_sequence effect in
      match candidate with
      | None => inl (SequenceAfterEnd observed)
      | Some expected =>
          if expected <? observed then inl (SequenceGap expected observed)
          else if observed <? expected then inl (SequenceDuplicate expected observed)
          else validate_effects (ok (next_sequence expected)) rest
      end
  end.

Definition validate_batch {S} (batch : RuntimeBatch S) (cursor : EffectSequenceCursor) :
    EffectSequenceError + EffectSequenceCursor :=
  validate_effects cursor (batch_effects batch).

(** ** Facts *)

(** Effects numbered one after the other from [n]. *)
Definition numbered_from (n : Z) (effects : list RuntimeEffect) : Prop :=
  effect_sequence <$> effects = seqZ n (Z.of_nat (length effects)).

Lemma numbered_nil n : numbered_from n [].
Proof. done. Qed.

Lemma numbered_cons n e effects :
  numbered_from n (e :: effects) ↔ effect_sequence e = n ∧ numbered_from (n + 1) effects.
Proof.
  unfold numbered_from. cbn [length]. rewrite fmap_cons, seqZ_cons by lia.
  replace (Z.pred (Z.of_nat (S (length effects)))) with (Z.of_nat (length effects)) by lia.
  replace (Z.succ n) with (n + 1) by lia.
  split; [by intros [= ? ?]|by intros [-> ->]].
Qed.

Lemma numbered_app n l1 l2 :
  numbered_from n (l1 ++ l2) ↔ numbered_from n l1 ∧ numbered_from (n + Z.of_nat (length l1)) l2.
Proof.
  revert n. induction l1 as [|e l1 IH]; intros n; cbn [app length].
  - rewrite Z.add_0_r. split; [split; [apply numbered_nil|done]|tauto].
  - rewrite !numbered_cons, IH. replace (n + 1 + Z.of_nat (length l1)) with (n + Z.of_nat (S (length l1))) by lia.
    tauto.
Qed.

(** A batch whose effects continue the numbering passes, and the cursor
    moves behind it. *)
Lemma validate_numbered n effects :
  n + Z.of_nat (length effects) ≤ u64_max → numbered_from n effects →
  validate_effects (Some n) effects = inr (Some (n + Z.of_nat (length effects))).
Proof.
  revert n. induction effects as [|e effects IH]; intros n Hn; cbn [length] in *.
  - intros _. simpl. by rewrite Z.add_0_r.
  - intros [He Hr]%numbered_cons. simpl. rewrite He, !Z.ltb_irrefl. unfold next_sequence, next_in.
    destruct (Z.leb_spec (n + 1) u64_max); [|lia]. simpl. rewrite IH by (done || lia). do 2 f_equal. lia.
Qed.
