(* ===== verification/Publication.v ===== *)
(** What a pane worker publishes for its host ([rssh-runtime/src/latest.rs],
    [batch.rs]): the slot of the latest frame with its wake token, the
    coalescing of frames the host did not take, the mailbox of effects, and
    the functions [publish] and [drain] around them.

    Every critical section of a mutex is one function; [publish_alone] and
    [drain] are the sections in the order of the source, as they run when no
    other thread comes between. [PublicationSystem] interleaves them. *)
From coqutil Require Import Datatypes.RecordSetters.
From S2P Require Import Prelude Text Launch Grid Screen Mailbox RuntimeApi.
Import DoubleBraceUpdate.

Local Open Scope Z_scope.

(** ** The slot of the latest value *)

Inductive PublishAction := Wake | Coalesced.
Inductive DrainCompletion := DrainIdle | DrainContinue.

#[export] Instance PublishAction_eq_dec : EqDecision PublishAction.
Proof. solve_decision. Defined.
#[export] Instance DrainCompletion_eq_dec : EqDecision DrainCompletion.
Proof. solve_decision. Defined.

Record LatestSlotMetrics := mkSlotMetrics {
  publications : Z;
  replaced_frames : Z;
  wakes : Z;
  continuations : Z;
}.

#[export] Hint Extern 0 (@Setter LatestSlotMetrics _ ?getter) =>
  mk_setter (fun r : LatestSlotMetrics => mkSlotMetrics (publications r) (replaced_frames r) (wakes r)
    (continuations r)) getter : typeclass_instances.

(** [coalesce_replaced self replaced]. *)
Class CoalesceLatest (T : Type) := coalesce_replaced : T → T → T.

Record LatestSlot (T : Type) := mkSlot {
  latest : option T;
  wake_pending : bool;
  continuation_scheduled : bool;
  slot_metrics : LatestSlotMetrics;
}.
Arguments mkSlot {T}.
Arguments latest {T}.
Arguments wake_pending {T}.
Arguments continuation_scheduled {T}.
Arguments slot_metrics {T}.

#[export] Hint Extern 0 (@Setter (LatestSlot ?T) _ ?getter) =>
  mk_setter (fun r : LatestSlot T => mkSlot (latest r) (wake_pending r) (continuation_scheduled r)
    (slot_metrics r)) getter : typeclass_instances.

Section slot.
  Context {T : Type} `{CoalesceLatest T}.
  Implicit Types (s : LatestSlot T).

Definition new_slot : LatestSlot T := mkSlot None false false (mkSlotMetrics 0 0 0 0).

Definition take_latest s : option T * LatestSlot T := (latest s, s{{ latest := None }}).

Definition has_value s : bool := bool_decide (is_Some (latest s)).

Definition signal_work s : PublishAction * LatestSlot T :=
  if wake_pending s then (Coalesced, s)
  else (Wake, s{{ wake_pending := true; continuation_scheduled := false;
                  slot_metrics -> wakes := sat_add_u64 (wakes (slot_metrics s)) 1 }}).

Definition complete_wake (lossless_work_remains : bool) s : DrainCompletion * LatestSlot T :=
  if has_value s || lossless_work_remains
  then
    let s := s{{ wake_pending := true }} in
    (DrainContinue,
     if continuation_scheduled s then s
     else s{{ continuation_scheduled := true;
              slot_metrics -> continuations := sat_add_u64 (continuations (slot_metrics s)) 1 }})
  else (DrainIdle, s{{ wake_pending := false; continuation_scheduled := false }}).

Definition publish_latest (value : T) s : PublishAction * LatestSlot T :=
  let s := s{{ slot_metrics -> publications := sat_add_u64 (publications (slot_metrics s)) 1 }} in
  let '(value, s) :=
    match latest s with
    | Some replaced =>
        (coalesce_replaced value replaced,
         s{{ slot_metrics -> replaced_frames := sat_add_u64 (replaced_frames (slot_metrics s)) 1 }})
    | None => (value, s)
    end in
  signal_work (s{{ latest := Some value }}).

End slot.

(** ** Frames *)

(** The compact state behind a frame. *)
Record TerminalStateSummary := mkSummary {
  summary_size : TerminalSize;
  summary_cursor : nat * nat;
  summary_scrollback_rows : Z;
  summary_sequence : Z;
  summary_visible_digest : Z;
}.

(** A frame; [S] is the terminal snapshot it shares with the worker. *)
Record PresentationFrame (S : Type) := mkFrame {
  frame_pane : PaneToken;
  frame_revision : Z;
  frame_snapshot : S;
  frame_state : TerminalStateSummary;
  frame_snapshot_changed : bool;
  frame_full_repaint : bool;
  frame_damage : list DamageRegion;
  frame_metadata : PaneMetadataDelta;
  frame_metrics : RuntimeBatchMetrics;
}.
Arguments mkFrame {S}.
Arguments frame_pane {S}.
Arguments frame_revision {S}.
Arguments frame_snapshot {S}.
Arguments frame_state {S}.
Arguments frame_snapshot_changed {S}.
Arguments frame_full_repaint {S}.
Arguments frame_damage {S}.
Arguments frame_metadata {S}.
Arguments frame_metrics {S}.

#[export] Hint Extern 0 (@Setter (PresentationFrame ?S) _ ?getter) =>
  mk_setter (fun r : PresentationFrame S => mkFrame (frame_pane r) (frame_revision r) (frame_snapshot r)
    (frame_state r) (frame_snapshot_changed r) (frame_full_repaint r) (frame_damage r)
    (frame_metadata r) (frame_metrics r)) getter : typeclass_instances.

(** What is set stays, what is not set is taken from the replaced change. *)
Definition keep_or {A} (current replaced : option A) : option A :=
  match current with None => replaced | Some _ => current end.

Definition merge_metadata (current replaced : PaneMetadataDelta) : PaneMetadataDelta :=
  let current_names := var_name <$> md_user_vars current in
  mkMetadata (keep_or (md_title current) (md_title replaced))
    (keep_or (md_working_directory current) (md_working_directory replaced))
    (keep_or (md_badge_format current) (md_badge_format replaced))
    (keep_or (md_progress current) (md_progress replaced))
    (filter (λ change, var_name change ∉ current_names) (md_user_vars replaced) ++ md_user_vars current).

#[export] Instance frame_coalesce {S} : CoalesceLatest (PresentationFrame S) := λ self replaced,
  self{{ frame_snapshot_changed := frame_snapshot_changed self || frame_snapshot_changed replaced;
         frame_full_repaint := true;
         frame_damage := [];
         frame_metadata := merge_metadata (frame_metadata self) (frame_metadata replaced) }}.

(** ** Effects *)

(** [Vec::capacity] and [String::capacity]; a vector never holds more than
    [isize::MAX] bytes. *)
Definition isize_max : Z := 9223372036854775807.

Class Allocation := {
  capacity : list Z → Z;
  text_capacity : rstring → Z;
  capacity_range : ∀ l, 0 ≤ capacity l ≤ isize_max;
  text_capacity_range : ∀ l, 0 ≤ text_capacity l ≤ isize_max;
}.

Record PublishedEffect := mkPublished {
  published_pane : PaneToken;
  published_revision : Z;
  published_effect : RuntimeEffect;
}.

Definition map_or {A} (d : Z) (f : A → Z) (x : option A) : Z := match x with Some a => f a | None => d end.

Section effects.
  Context `{Allocation}.

Definition effect_retained_bytes (kind : RuntimeEffectKind) : Z :=
  match kind with
  | TransportWrite bytes | HostStream bytes | VisibleOutput bytes => capacity bytes
  | ModeChange _ | Bell _ => 0
  | ClipboardWrite selection contents => map_or 0 text_capacity selection + text_capacity contents
  | ClipboardRead selection => text_capacity selection
  | Notification title body => map_or 0 text_capacity title + text_capacity body
  | Diagnostic message => text_capacity message
  end.

Lemma effect_retained_range kind : is_u64 (effect_retained_bytes kind).
Proof.
  unfold is_u64, u64_max. pose proof capacity_range as Hc. pose proof text_capacity_range as Ht.
  unfold isize_max in *.
  destruct kind as [l|l|l|ch|n|[s|] c|s|[s|] c|s]; cbn [effect_retained_bytes map_or];
    try specialize (Hc l); try (pose proof (Ht s)); try (pose proof (Ht c)); lia.
Qed.

#[export] Instance published_item : MailboxItem PublishedEffect := {
  retained_bytes x := effect_retained_bytes (effect_kind (published_effect x));
  retained_bytes_usize x := effect_retained_range _;
}.

End effects.

(** ** The publication of a pane *)

Record PublicationCounters := mkPubCounters {
  batches : Z;
  source_bytes : Z;
  source_items : Z;
  max_batch_bytes : Z;
  max_batch_items : Z;
  total_parse_duration : Z;
}.

Record PanePublication (S : Type) := mkPublication {
  pub_latest : LatestSlot (PresentationFrame S);
  pub_effects : State PublishedEffect;
  pub_counters : PublicationCounters;
}.
Arguments mkPublication {S}.
Arguments pub_latest {S}.
Arguments pub_effects {S}.
Arguments pub_counters {S}.

#[export] Hint Extern 0 (@Setter (PanePublication ?S) _ ?getter) =>
  mk_setter (fun r : PanePublication S => mkPublication (pub_latest r) (pub_effects r) (pub_counters r))
    getter : typeclass_instances.

(** What a host gets from one drain. *)
Record PaneDrain (S : Type) := mkDrain {
  drain_frame : option (PresentationFrame S);
  drain_effects : list PublishedEffect;
  drain_continuation : bool;
}.
Arguments mkDrain {S}.
Arguments drain_frame {S}.
Arguments drain_effects {S}.
Arguments drain_continuation {S}.

Section publication.
  Context `{Allocation} {S : Type} (limits : MailboxLimits).
  Implicit Types (p : PanePublication S) (frame : PresentationFrame S) (effect : PublishedEffect).

Definition new_publication : PanePublication S :=
  mkPublication new_slot bounded_mailbox (mkPubCounters 0 0 0 0 0 0).

(** The first block of [publish_frame]. *)
Definition count_frame (metrics : RuntimeBatchMetrics) p : PanePublication S :=
  let c := pub_counters p in
  p{{ pub_counters :=
        mkPubCounters (sat_add_u64 (batches c) 1)
          (sat_add_u64 (source_bytes c) (transport_bytes metrics))
          (sat_add_u64 (source_items c) (coalesced_reads metrics))
          (Z.max (max_batch_bytes c) (transport_bytes metrics))
          (Z.max (max_batch_items c) (coalesced_reads metrics))
          (Z.min (total_parse_duration c + parse_duration metrics) duration_max) }}.

(** The second: the slot. *)
Definition store_frame frame p : PublishAction * PanePublication S :=
  let '(action, s) := publish_latest frame (pub_latest p) in (action, p{{ pub_latest := s }}).

Definition signal p : PublishAction * PanePublication S :=
  let '(action, s) := signal_work (pub_latest p) in (action, p{{ pub_latest := s }}).

(** A wake that fails closes the mailbox of effects. *)
Definition wake_failed p : PanePublication S :=
  let '(_, m, _) := close (pub_effects p) in p{{ pub_effects := m }}.

(** [wake_if_needed] with a [wake] that returns [alive]; also whether the
    host was woken. *)
Definition wake_if_needed (alive : bool) (action : PublishAction) p : option bool * PanePublication S :=
  match action with
  | Coalesced => (Some false, p)
  | Wake => if alive then (Some true, p) else (None, wake_failed p)
  end.

Definition publish_frame (alive : bool) frame p : option bool * PanePublication S :=
  let '(action, p) := store_frame frame (count_frame (frame_metrics frame) p) in
  wake_if_needed alive action p.

(** Whether and how [publish] returns when no other thread runs: with its
    result and whether it woke the host, or waiting for room in the mailbox. *)
Inductive publish_outcome :=
| PublishReturned (ok : bool) (woken : bool)
| PublishBlocks.

Fixpoint publish_effects (alive woken : bool) (frame : option (PresentationFrame S))
    (effects : list PublishedEffect) p : publish_outcome * PanePublication S :=
  match effects with
  | [] =>
      match frame with
      | None => (PublishReturned true woken, p)
      | Some f =>
          match publish_frame alive f p with
          | (Some w, p) => (PublishReturned true (woken || w), p)
          | (None, p) => (PublishReturned false woken, p)
          end
      end
  | effect :: rest =>
      let '(r, m, _) := try_send limits effect (pub_effects p) in
      let p := p{{ pub_effects := m }} in
      match r with
      | inr _ =>
          match frame with
          | Some _ => publish_effects alive woken frame rest p
          | None =>
              let '(action, p) := signal p in
              match wake_if_needed alive action p with
              | (Some w, p) => publish_effects alive (woken || w) frame rest p
              | (None, p) => (PublishReturned false woken, p)
              end
          end
      | inl (TrySendFull _ _) =>
          match frame with
          | Some f =>
              match publish_frame alive f p with
              | (Some _, p) => (PublishBlocks, p)
              | (None, p) => (PublishReturned false woken, p)
              end
          | None => (PublishBlocks, p)
          end
      | inl _ => (PublishReturned false woken, p)
      end
  end.

Definition publish_alone (alive : bool) frame (effects : list PublishedEffect) p :
    publish_outcome * PanePublication S := publish_effects alive false (Some frame) effects p.

(** The [while] of [drain]. *)
Fixpoint receive_effects (max : nat) (received : list PublishedEffect) p :
    list PublishedEffect * PanePublication S :=
  match max with
  | O => (received, p)
  | Datatypes.S max =>
      let '(r, m, _) := try_recv (pub_effects p) in
      let p := p{{ pub_effects := m }} in
      match r with
      | inr effect => receive_effects max (received ++ [effect]) p
      | inl _ => (received, p)
      end
  end.

Definition effects_queued p : bool := 0 <? queue_len (pub_effects p).

Definition take_frame (work_remains : bool) p : option (PresentationFrame S) * PanePublication S :=
  if work_remains then (None, p)
  else let '(frame, s) := take_latest (pub_latest p) in (frame, p{{ pub_latest := s }}).

Definition finish_drain (work_remains : bool) p : bool * PanePublication S :=
  let '(completion, s) := complete_wake work_remains (pub_latest p) in
  (bool_decide (completion = DrainContinue), p{{ pub_latest := s }}).

Definition drain (max_effects : nat) p : PaneDrain S * PanePublication S :=
  let '(effects, p) := receive_effects max_effects [] p in
  let work_remains := effects_queued p in
  let '(frame, p) := take_frame work_remains p in
  let '(continuation, p) := finish_drain work_remains p in
  (mkDrain frame effects continuation, p).

Definition has_work p : bool := has_value (pub_latest p) || effects_queued p.

End publication.

