(* ===== verification/PublicationSystem.v ===== *)
(** A pane worker publishing while its host drains ([rssh-runtime/src/batch.rs],
    [PanePublication]): the two threads as programs cut at their critical
    sections, and every interleaving of them. A waiting [send] may wake up at
    any time, as a condition variable allows; when it must wake up is proved
    for the mailbox itself.

    Proved for all interleavings: effects reach the host in order, none lost
    or repeated; the frames the host takes are the published frames, those in
    between coalesced into the next; and a stored frame always has its wake
    on the way. *)
From stdpp Require Import relations.
From coqutil Require Import Datatypes.RecordSetters.
From S2P Require Import Prelude Text Launch Grid Screen Mailbox RuntimeApi Publication.
Import DoubleBraceUpdate.

Local Open Scope Z_scope.

Section system.
  Context `{Allocation} {S : Type} (limits : MailboxLimits).
  Local Abbreviation Frame := (PresentationFrame S).

(** ** The two threads *)

(** What [publish] does after it published the frame or woke the host. *)
Inductive Resume :=
| ThenSend (item : PublishedEffect) (rest : list PublishedEffect)
| ThenNext (rest : list PublishedEffect)
| ThenReturn.

(** Where the worker is in [publish]: outside, at the head of the loop over
    the effects with the frame if it is still to be published, before
    [publish_frame], before [signal_work], before the call of [wake], or in
    [send]. *)
Inductive Publisher :=
| PubIdle
| PubNext (frame : option Frame) (rest : list PublishedEffect)
| PubFrame (frame : Frame) (k : Resume)
| PubSignal (rest : list PublishedEffect)
| PubWaking (k : Resume)
| PubSending (item : PublishedEffect) (since : option Z) (rest : list PublishedEffect).

(** Where the host is in [drain]: outside, in the loop of [try_recv], before
    it asks for the queue length, before it takes the frame, before
    [complete_wake]. *)
Inductive Host :=
| HostIdle
| HostReceiving (max : nat) (received : list PublishedEffect)
| HostCounting (received : list PublishedEffect)
| HostTaking (received : list PublishedEffect) (work_remains : bool)
| HostCompleting (received : list PublishedEffect) (work_remains : bool) (frame : option Frame).

(** [wake_notices] counts the wake notices sent and not yet received,
    [continuation] says that the host has scheduled a further turn, and
    [wake_lost] that a notice could not be sent because the host is gone.
    The logs hold the frames stored, the effects accepted and the results
    returned by [drain]. *)
Record System := mkSystem {
  publication : PanePublication S;
  publisher : Publisher;
  host : Host;
  wake_notices : nat;
  continuation : bool;
  wake_lost : bool;
  stored : list Frame;
  accepted : list PublishedEffect;
  drains : list (PaneDrain S);
}.

Definition init_system : System :=
  mkSystem (new_publication (S:=S)) PubIdle HostIdle 0 false false [] [] [].

Definition resume (k : Resume) : Publisher :=
  match k with
  | ThenSend item rest => PubSending item None rest
  | ThenNext rest => PubNext None rest
  | ThenReturn => PubIdle
  end.

(** Before the call of [wake], or past it when no wake is needed. *)
Definition after_signal (action : PublishAction) (k : Resume) : Publisher :=
  match action with Wake => PubWaking k | Coalesced => resume k end.

(** After [try_send]. *)
Definition after_try_send (r : TrySendError PublishedEffect + ()) (frame : option Frame)
    (item : PublishedEffect) (rest : list PublishedEffect) : Publisher :=
  match r, frame with
  | inr _, Some _ => PubNext frame rest
  | inr _, None => PubSignal rest
  | inl (TrySendFull _ _), Some f => PubFrame f (ThenSend item rest)
  | inl (TrySendFull _ _), None => PubSending item None rest
  | inl _, _ => PubIdle
  end.

Definition after_send (item : PublishedEffect) (o : send_outcome PublishedEffect)
    (rest : list PublishedEffect) : Publisher :=
  match o with
  | SendReturned (inr _) => PubSignal rest
  | SendReturned (inl _) => PubIdle
  | SendWaits since => PubSending item (Some since) rest
  end.

Definition accepted_item {E} (r : E + ()) (item : PublishedEffect) : list PublishedEffect :=
  match r with inl _ => [] | inr _ => [item] end.

Definition sent_item (o : send_outcome PublishedEffect) (item : PublishedEffect) : list PublishedEffect :=
  match o with SendReturned r => accepted_item r item | SendWaits _ => [] end.

Definition send_pass (item : PublishedEffect) (since : option Z) (now : Z) (m : State PublishedEffect) :
    send_outcome PublishedEffect * State PublishedEffect * list notification :=
  match since with
  | None => send_enter limits item now m
  | Some _ => send_loop limits item since now m
  end.

(** After a pass through the loop of [drain]: further, or out of it. *)
Definition after_receive (r : TryRecvError + PublishedEffect) (max : nat) (received : list PublishedEffect) :
    Host :=
  match r with inr e => HostReceiving max (received ++ [e]) | inl _ => HostCounting received end.

#[local] Hint Extern 0 (@Setter System _ ?getter) =>
  mk_setter (fun r : System => mkSystem (publication r) (publisher r) (host r) (wake_notices r)
    (continuation r) (wake_lost r) (stored r) (accepted r) (drains r)) getter : typeclass_instances.

Definition set_pub (p : PanePublication S) (sys : System) : System := sys{{ publication := p }}.
Definition set_publisher (pc : Publisher) (sys : System) : System := sys{{ publisher := pc }}.
Definition set_host (h : Host) (sys : System) : System := sys{{ host := h }}.
Definition set_mailbox (m : State PublishedEffect) (sys : System) : System :=
  sys{{ publication -> pub_effects := m }}.
Definition log_accepted (l : list PublishedEffect) (sys : System) : System :=
  sys{{ accepted := accepted sys ++ l }}.

Inductive step : System → System → Prop :=
| step_publish sys frame effects :
    publisher sys = PubIdle →
    step sys (set_publisher (PubNext (Some frame) effects) sys)
| step_try_send sys frame item rest r m ns :
    publisher sys = PubNext frame (item :: rest) →
    try_send limits item (pub_effects (publication sys)) = (r, m, ns) →
    step sys (log_accepted (accepted_item r item)
                (set_publisher (after_try_send r frame item rest) (set_mailbox m sys)))
| step_effects_done sys frame :
    publisher sys = PubNext frame [] →
    step sys (set_publisher (match frame with Some f => PubFrame f ThenReturn | None => PubIdle end) sys)
| step_frame sys frame k action p :
    publisher sys = PubFrame frame k →
    store_frame frame (count_frame (frame_metrics frame) (publication sys)) = (action, p) →
    step sys (set_publisher (after_signal action k) (set_pub p (sys{{ stored := stored sys ++ [frame] }})))
| step_signal sys rest action p :
    publisher sys = PubSignal rest → signal (publication sys) = (action, p) →
    step sys (set_publisher (after_signal action (ThenNext rest)) (set_pub p sys))
| step_wake sys k :
    publisher sys = PubWaking k →
    step sys (set_publisher (resume k) (sys{{ wake_notices := Datatypes.S (wake_notices sys) }}))
| step_wake_fails sys k :
    publisher sys = PubWaking k →
    step sys (set_publisher PubIdle (set_pub (wake_failed (publication sys)) (sys{{ wake_lost := true }})))
| step_send sys item since rest now o m ns :
    publisher sys = PubSending item since rest →
    send_pass item since now (pub_effects (publication sys)) = (o, m, ns) →
    step sys (log_accepted (sent_item o item) (set_publisher (after_send item o rest) (set_mailbox m sys)))
| step_host_wake sys n max :
    host sys = HostIdle → wake_notices sys = Datatypes.S n →
    step sys (set_host (HostReceiving max []) (sys{{ wake_notices := n }}))
| step_host_continue sys max :
    host sys = HostIdle → continuation sys = true →
    step sys (set_host (HostReceiving max []) (sys{{ continuation := false }}))
| step_host_polls sys max :
    host sys = HostIdle → step sys (set_host (HostReceiving max []) sys)
| step_receive sys max received r m ns :
    host sys = HostReceiving (Datatypes.S max) received →
    try_recv (pub_effects (publication sys)) = (r, m, ns) →
    step sys (set_host (after_receive r max received) (set_mailbox m sys))
| step_receive_enough sys received :
    host sys = HostReceiving 0 received → step sys (set_host (HostCounting received) sys)
| step_count sys received :
    host sys = HostCounting received →
    step sys (set_host (HostTaking received (effects_queued (publication sys))) sys)
| step_take sys received work_remains frame p :
    host sys = HostTaking received work_remains →
    take_frame work_remains (publication sys) = (frame, p) →
    step sys (set_host (HostCompleting received work_remains frame) (set_pub p sys))
| step_complete sys received work_remains frame more p :
    host sys = HostCompleting received work_remains frame →
    finish_drain work_remains (publication sys) = (more, p) →
    step sys (set_host HostIdle (set_pub p (sys{{ continuation := more || continuation sys;
                                   drains := drains sys ++ [mkDrain frame received more] }}))).

Definition reachable (sys : System) : Prop := rtc step init_system sys.

(** ** Invariants *)

(** The frames a list of publications is shown as, when nothing was taken in
    between. *)
Fixpoint coalesced_from (f : Frame) (l : list Frame) : Frame :=
  match l with [] => f | g :: l => coalesced_from (coalesce_replaced g f) l end.
Definition coalesced (l : list Frame) : option Frame :=
  match l with [] => None | f :: l => Some (coalesced_from f l) end.

(** The frame the host has taken in its current turn. *)
Definition taken_now (h : Host) : option Frame :=
  match h with HostCompleting _ _ frame => frame | _ => None end.
Definition received_now (h : Host) : list PublishedEffect :=
  match h with
  | HostIdle => []
  | HostReceiving _ received | HostCounting received | HostTaking received _
  | HostCompleting received _ _ => received
  end.

Definition frames_taken (sys : System) : list Frame :=
  omap drain_frame (drains sys) ++ option_list (taken_now (host sys)).
Definition effects_received (sys : System) : list PublishedEffect :=
  concat (drain_effects <$> drains sys) ++ received_now (host sys).
Definition effects_waiting (sys : System) : list PublishedEffect :=
  value <$> queue (pub_effects (publication sys)).

(** The stored frames fall into groups: one per frame the host took, and the
    frames since. *)
Definition frames_grouped (sys : System) : Prop :=
  ∃ groups pending,
    stored sys = concat groups ++ pending ∧
    Some <$> frames_taken sys = coalesced <$> groups ∧
    latest (pub_latest (publication sys)) = coalesced pending.

(** The wake token: a wake that is due is on its way, or the host is in a
    turn, or has scheduled one. *)
Definition wake_accounted (sys : System) : Prop :=
  wake_pending (pub_latest (publication sys)) = true →
  (0 < wake_notices sys)%nat ∨ continuation sys = true ∨ host sys ≠ HostIdle ∨
  (∃ k, publisher sys = PubWaking k) ∨ wake_lost sys = true.

Record inv (sys : System) : Prop := {
  inv_frames : frames_grouped sys;
  inv_effects : accepted sys = effects_received sys ++ effects_waiting sys;
  inv_stored_wakes : is_Some (latest (pub_latest (publication sys))) →
    wake_pending (pub_latest (publication sys)) = true;
  inv_wake : wake_accounted sys;
}.

(** ** The parts *)

Lemma coalesced_from_snoc f l g :
  coalesced_from f (l ++ [g]) = coalesce_replaced g (coalesced_from f l).
Proof. revert f. induction l as [|h l IH]; intros f; [done|]. apply IH. Qed.

Lemma coalesced_snoc l f :
  coalesced (l ++ [f]) =
  Some (match coalesced l with Some g => coalesce_replaced f g | None => f end).
Proof. destruct l as [|g l]; [done|]. simpl. by rewrite coalesced_from_snoc. Qed.

Lemma signal_spec (p p' : PanePublication S) action :
  signal p = (action, p') →
  latest (pub_latest p') = latest (pub_latest p) ∧ pub_effects p' = pub_effects p ∧
  wake_pending (pub_latest p') = true ∧
  (action = Coalesced → wake_pending (pub_latest p) = true).
Proof.
  unfold signal, signal_work. destruct (wake_pending (pub_latest p)) eqn:Hw; intros [= <- <-]; done.
Qed.

Lemma store_frame_spec frame (p p' : PanePublication S) action :
  store_frame frame (count_frame (frame_metrics frame) p) = (action, p') →
  latest (pub_latest p') =
    Some (match latest (pub_latest p) with Some g => coalesce_replaced frame g | None => frame end) ∧
  pub_effects p' = pub_effects p ∧ wake_pending (pub_latest p') = true ∧
  (action = Coalesced → wake_pending (pub_latest p) = true).
Proof.
  unfold store_frame, publish_latest, signal_work. simpl.
  destruct (latest (pub_latest p)) as [g|]; simpl;
    destruct (wake_pending (pub_latest p)) eqn:Hw; intros [= <- <-]; done.
Qed.

Lemma take_frame_spec work (p p' : PanePublication S) frame :
  take_frame work p = (frame, p') →
  pub_effects p' = pub_effects p ∧ wake_pending (pub_latest p') = wake_pending (pub_latest p) ∧
  ((frame = None ∧ latest (pub_latest p') = latest (pub_latest p)) ∨
   (frame = latest (pub_latest p) ∧ latest (pub_latest p') = None)).
Proof. unfold take_frame, take_latest. destruct work; intros [= <- <-]; naive_solver. Qed.

Lemma finish_drain_spec work (p p' : PanePublication S) more :
  finish_drain work p = (more, p') →
  pub_effects p' = pub_effects p ∧ latest (pub_latest p') = latest (pub_latest p) ∧
  wake_pending (pub_latest p') = more ∧ (is_Some (latest (pub_latest p)) → more = true).
Proof.
  unfold finish_drain, complete_wake, has_value. case_bool_decide as Hv; cbn [orb].
  - destruct (continuation_scheduled _); intros [= <- <-]; done.
  - destruct work; [destruct (continuation_scheduled _)|]; intros [= <- <-]; done.
Qed.

Lemma try_send_queue item (s s' : State PublishedEffect) r ns :
  try_send limits item s = (r, s', ns) →
  value <$> queue s' = (value <$> queue s) ++ accepted_item r item.
Proof.
  unfold try_send. destruct (_ || _); [|case_bool_decide; [|destruct (admission_bytes _ _ _)]];
    intros [= <- <- <-]; cbn [queue set_counters enqueue accepted_item]; rewrite ?fmap_app, ?app_nil_r; done.
Qed.

Lemma finish_blocked_queue since now (s : State PublishedEffect) :
  queue (finish_blocked_send since now s) = queue s.
Proof. by destruct since. Qed.

Lemma send_pass_queue item since now (s s' : State PublishedEffect) o ns :
  send_pass item since now s = (o, s', ns) →
  value <$> queue s' = (value <$> queue s) ++ sent_item o item.
Proof.
  unfold send_pass, send_enter, send_loop.
  destruct since; (destruct (_ || _); [|try case_bool_decide; [..|destruct (admission_bytes _ _ _)]]);
    intros [= <- <- <-]; cbn [queue set_counters enqueue set_waiting_producers sent_item accepted_item];
    rewrite ?finish_blocked_queue, ?fmap_app, ?app_nil_r; done.
Qed.

Lemma try_recv_queue (s s' : State PublishedEffect) r ns :
  try_recv s = (r, s', ns) →
  value <$> queue s = (match r with inr e => [e] | inl _ => [] end) ++ (value <$> queue s').
Proof.
  unfold try_recv, dequeue. destruct (queue s) as [|e q] eqn:Hq; [|by intros [= <- <- <-]].
  destruct (accepting s); intros [= <- <- <-]; by rewrite Hq.
Qed.

(** ** Every step keeps the invariant *)

Local Ltac case_step Hs := destruct Hs as
  [sys frame effects Hp|sys frame item rest r m ns Hp Hm|sys frame Hp|sys frame k action p Hp Hf
  |sys rest action p Hp Hs|sys k Hp|sys k Hp|sys item since rest now o m ns Hp Hm|sys n max Hh Hn
  |sys max Hh Hc|sys max Hh|sys max received r m ns Hh Hm|sys received Hh|sys received Hh
  |sys received work frame p Hh Ht|sys received work frame more p Hh Hc].

Lemma frames_grouped_same sys sys' :
  stored sys' = stored sys → frames_taken sys' = frames_taken sys →
  latest (pub_latest (publication sys')) = latest (pub_latest (publication sys)) →
  frames_grouped sys → frames_grouped sys'.
Proof. intros H1 H2 H3 (gs & l & ?). exists gs, l. by rewrite H1, H2, H3. Qed.

Lemma frames_grouped_store sys sys' frame :
  stored sys' = stored sys ++ [frame] → frames_taken sys' = frames_taken sys →
  latest (pub_latest (publication sys')) =
    Some (match latest (pub_latest (publication sys)) with
          | Some g => coalesce_replaced frame g | None => frame end) →
  frames_grouped sys → frames_grouped sys'.
Proof.
  intros H1 H2 H3 (gs & l & Hs & Ht & Hl). exists gs, (l ++ [frame]).
  rewrite H1, H2, H3, Hs, Hl, coalesced_snoc, app_assoc. done.
Qed.

Lemma frames_grouped_take sys sys' frame :
  stored sys' = stored sys → frames_taken sys' = frames_taken sys ++ [frame] →
  latest (pub_latest (publication sys)) = Some frame →
  latest (pub_latest (publication sys')) = None →
  frames_grouped sys → frames_grouped sys'.
Proof.
  intros H1 H2 H3 H4 (gs & l & Hs & Ht & Hl). exists (gs ++ [l]), [].
  rewrite H1, H2, H4, Hs, concat_app, !fmap_app, Ht, H3 in *. simpl. rewrite <-Hl, !app_nil_r. done.
Qed.

Lemma step_frames sys sys' : step sys sys' → frames_grouped sys → frames_grouped sys'.
Proof.
  intros Hs. case_step Hs;
    try (apply frames_grouped_same; unfold frames_taken; simpl; rewrite ?Hh; done).
  - apply store_frame_spec in Hf as (Hl & _). by apply (frames_grouped_store _ _ frame).
  - apply signal_spec in Hs as (Hl & _). by apply frames_grouped_same.
  - apply frames_grouped_same; try done. unfold frames_taken. simpl. rewrite Hh. by destruct r.
  - apply take_frame_spec in Ht as (_ & _ & [[-> Hl]|[-> Hl]]).
    + apply frames_grouped_same; try done. unfold frames_taken. simpl. by rewrite Hh.
    + destruct (latest (pub_latest (publication sys))) as [f|] eqn:Hf.
      * apply (frames_grouped_take _ _ f); try done. unfold frames_taken. simpl. rewrite Hh. simpl.
        by rewrite app_nil_r.
      * apply frames_grouped_same; simpl; [done| |by rewrite Hl, Hf]. unfold frames_taken. simpl. by rewrite Hh.
  - apply finish_drain_spec in Hc as (_ & Hl & _). apply frames_grouped_same; try done.
    unfold frames_taken. simpl. rewrite Hh, omap_app. simpl. by rewrite app_nil_r.
Qed.

Lemma step_effects sys sys' :
  step sys sys' → accepted sys = effects_received sys ++ effects_waiting sys →
  accepted sys' = effects_received sys' ++ effects_waiting sys'.
Proof.
  intros Hs. unfold effects_received, effects_waiting. case_step Hs; simpl; try rewrite Hh; simpl;
    intros Ha; try done.
  - apply try_send_queue in Hm. by rewrite Ha, Hm, !app_assoc.
  - apply store_frame_spec in Hf as (_ & -> & _). done.
  - apply signal_spec in Hs as (_ & -> & _). done.
  - apply send_pass_queue in Hm. by rewrite Ha, Hm, !app_assoc.
  - apply try_recv_queue in Hm. rewrite Ha, Hm. destruct r; simpl; by rewrite <-?app_assoc.
  - apply take_frame_spec in Ht as (-> & _). done.
  - apply finish_drain_spec in Hc as (-> & _). rewrite fmap_app, concat_app. simpl. by rewrite !app_nil_r.
Qed.

Lemma step_wakes sys sys' :
  step sys sys' →
  (is_Some (latest (pub_latest (publication sys))) → wake_pending (pub_latest (publication sys)) = true) →
  is_Some (latest (pub_latest (publication sys'))) → wake_pending (pub_latest (publication sys')) = true.
Proof.
  intros Hs. case_step Hs; simpl; try done.
  - apply store_frame_spec in Hf as (_ & _ & -> & _). done.
  - apply signal_spec in Hs as (_ & _ & -> & _). done.
  - apply take_frame_spec in Ht as (_ & -> & [[_ ->]|[_ ->]]); [done|]. by intros _ [].
  - apply finish_drain_spec in Hc as (_ & -> & -> & Hm). by intros _.
Qed.

Lemma step_accounts sys sys' : step sys sys' → wake_accounted sys → wake_accounted sys'.
Proof.
  unfold wake_accounted. intros Hs. case_step Hs; simpl; intros Ha Hw;
    try (by do 2 right; left); try (by do 4 right).
  all: try (destruct (Ha Hw) as [?|[?|[?|[[k' Hk]|?]]]]; first [by eauto 7|congruence]).
  - apply store_frame_spec in Hf as (_ & _ & _ & Hc). destruct action; [by eauto 7|].
    destruct (Ha (Hc eq_refl)) as [?|[?|[?|[[k' Hk]|?]]]]; first [by eauto 7|congruence].
  - apply signal_spec in Hs as (_ & _ & _ & Hc). destruct action; [by eauto 7|].
    destruct (Ha (Hc eq_refl)) as [?|[?|[?|[[k' Hk]|?]]]]; first [by eauto 7|congruence].
  - left. lia.
  - do 2 right; left. by destruct r.
  - apply finish_drain_spec in Hc as (_ & _ & Hw' & _). right; left. by rewrite <-Hw', Hw.
Qed.

Lemma init_publication_inv : inv init_system.
Proof. split; [by exists [], []|done|by intros []|done]. Qed.

Lemma reachable_publication_inv sys : reachable sys → inv sys.
Proof.
  intros Hr. apply (rtc_ind_r (R:=step) inv init_system); [apply init_publication_inv| |exact Hr].
  intros s s' _ Hs [H1 H2 H3 H4]. split.
  - by eapply step_frames.
  - by eapply step_effects.
  - by eapply step_wakes.
  - by eapply step_accounts.
Qed.

(** ** Schedules *)

(** Which thread moves: the worker starts a publication or takes its next
    step at time [now], with [alive] telling whether a notice can be sent; the
    host starts a turn or takes its next step. *)
Inductive TurnReason := OnNotice | OnContinuation | OnPoll.
Inductive Action :=
| ActPublish (frame : Frame) (effects : list PublishedEffect)
| ActWorker (now : Z) (alive : bool)
| ActTurn (reason : TurnReason) (max : nat)
| ActHost.

Definition worker_next (now : Z) (alive : bool) (sys : System) : option System :=
  match publisher sys with
  | PubIdle => None
  | PubNext frame (item :: rest) =>
      let '(r, m, _) := try_send limits item (pub_effects (publication sys)) in
      Some (log_accepted (accepted_item r item) (set_publisher (after_try_send r frame item rest) (set_mailbox m sys)))
  | PubNext frame [] =>
      Some (set_publisher (match frame with Some f => PubFrame f ThenReturn | None => PubIdle end) sys)
  | PubFrame frame k =>
      let '(action, p) := store_frame frame (count_frame (frame_metrics frame) (publication sys)) in
      Some (set_publisher (after_signal action k) (set_pub p (sys{{ stored := stored sys ++ [frame] }})))
  | PubSignal rest =>
      let '(action, p) := signal (publication sys) in
      Some (set_publisher (after_signal action (ThenNext rest)) (set_pub p sys))
  | PubWaking k =>
      Some (if alive then set_publisher (resume k) (sys{{ wake_notices := Datatypes.S (wake_notices sys) }})
            else set_publisher PubIdle (set_pub (wake_failed (publication sys)) (sys{{ wake_lost := true }})))
  | PubSending item since rest =>
      let '(o, m, _) := send_pass item since now (pub_effects (publication sys)) in
      Some (log_accepted (sent_item o item) (set_publisher (after_send item o rest) (set_mailbox m sys)))
  end.

Definition host_next (sys : System) : option System :=
  match host sys with
  | HostIdle => None
  | HostReceiving (Datatypes.S max) received =>
      let '(r, m, _) := try_recv (pub_effects (publication sys)) in
      Some (set_host (after_receive r max received) (set_mailbox m sys))
  | HostReceiving 0 received => Some (set_host (HostCounting received) sys)
  | HostCounting received => Some (set_host (HostTaking received (effects_queued (publication sys))) sys)
  | HostTaking received work_remains =>
      let '(frame, p) := take_frame work_remains (publication sys) in
      Some (set_host (HostCompleting received work_remains frame) (set_pub p sys))
  | HostCompleting received work_remains frame =>
      let '(more, p) := finish_drain work_remains (publication sys) in
      Some (set_host HostIdle (set_pub p (sys{{ continuation := more || continuation sys;
                                drains := drains sys ++ [mkDrain frame received more] }})))
  end.

Definition host_turn (reason : TurnReason) (max : nat) (sys : System) : option System :=
  match host sys, reason with
  | HostIdle, OnNotice =>
      match wake_notices sys with
      | Datatypes.S n => Some (set_host (HostReceiving max []) (sys{{ wake_notices := n }}))
      | O => None
      end
  | HostIdle, OnContinuation =>
      if continuation sys then Some (set_host (HostReceiving max []) (sys{{ continuation := false }})) else None
  | HostIdle, OnPoll => Some (set_host (HostReceiving max []) sys)
  | _, _ => None
  end.

Definition exec (a : Action) (sys : System) : option System :=
  match a with
  | ActPublish frame effects =>
      match publisher sys with PubIdle => Some (set_publisher (PubNext (Some frame) effects) sys) | _ => None end
  | ActWorker now alive => worker_next now alive sys
  | ActTurn reason max => host_turn reason max sys
  | ActHost => host_next sys
  end.

Fixpoint exec_all (acts : list Action) (sys : System) : option System :=
  match acts with
  | [] => Some sys
  | a :: acts => sys' ← exec a sys; exec_all acts sys'
  end.

Lemma worker_next_step now alive sys sys' : worker_next now alive sys = Some sys' → step sys sys'.
Proof.
  unfold worker_next. destruct (publisher sys) as [|frame [|item rest]|frame k|rest|k|item since rest] eqn:Hp;
    [done|..].
  - intros [= <-]. by apply step_effects_done.
  - destruct (try_send _ _ _) as [[r m] ns] eqn:E. intros [= <-]. by eapply step_try_send.
  - destruct (store_frame _ _) as [action p] eqn:E. intros [= <-]. by eapply step_frame.
  - destruct (signal _) as [action p] eqn:E. intros [= <-]. by eapply step_signal.
  - destruct alive; intros [= <-]; [by apply step_wake|by eapply step_wake_fails].
  - destruct (send_pass _ _ _ _) as [[o m] ns] eqn:E. intros [= <-]. by eapply step_send.
Qed.

Lemma host_next_step sys sys' : host_next sys = Some sys' → step sys sys'.
Proof.
  unfold host_next. destruct (host sys) as [|[|max] received|received|received work|received work frame] eqn:Hh;
    [done|..].
  - intros [= <-]. by apply step_receive_enough.
  - destruct (try_recv _) as [[r m] ns] eqn:E. intros [= <-]. by eapply step_receive.
  - intros [= <-]. by apply step_count.
  - destruct (take_frame _ _) as [frame p] eqn:E. intros [= <-]. by eapply step_take.
  - destruct (finish_drain _ _) as [more p] eqn:E. intros [= <-]. by eapply step_complete.
Qed.

Lemma exec_step a sys sys' : exec a sys = Some sys' → step sys sys'.
Proof.
  destruct a as [frame effects|now alive|reason max|]; cbn [exec].
  - destruct (publisher sys) eqn:Hp; try done. intros [= <-]. by apply step_publish.
  - apply worker_next_step.
  - unfold host_turn. destruct (host sys) eqn:Hh; try done. destruct reason.
    + destruct (wake_notices sys) eqn:Hn; intros [= <-]. by apply step_host_wake.
    + destruct (continuation sys) eqn:Hc; intros [= <-]. by apply step_host_continue.
    + intros [= <-]. by apply step_host_polls.
  - apply host_next_step.
Qed.

(** A schedule that runs through is an interleaving. *)
Lemma exec_all_reachable acts sys sys' :
  reachable sys → exec_all acts sys = Some sys' → reachable sys'.
Proof.
  revert sys. induction acts as [|a acts IH]; intros sys Hr; [by intros [= <-]|]. cbn [exec_all].
  intros (s & Hs & Hacts)%bind_Some. eapply IH; [|done]. eapply rtc_r; [done|]. by apply (exec_step a).
Qed.

End system.
