(* ===== verification/Config.v ===== *)
(** Configuration ([rssh-config/src]): the effective configuration with its
    defaults ([model.rs]), layers of patches ([patch.rs]), validation and the
    store of the last good snapshot ([validate.rs]), differences between
    snapshots ([diff.rs]), the search for a source file ([source.rs]) and
    the reload lifecycle with its debouncer ([lifecycle.rs]).

    An [Arc] is the value it points to. The file system, paths of the
    platform and the parser of the configuration language are arguments. *)
From coqutil Require Import Datatypes.RecordSetters.
From S2P Require Import Prelude Text Launch Csi Parse Utf8 Screen.
Import DoubleBraceUpdate.

Local Open Scope Z_scope.

(** ** The effective configuration *)

Record FontConfig := mkFont { family : rstring; size_milli_points : Z }.
Record TerminalConfig := mkTerminalConfig { scrollback_lines : Z; term : rstring }.
Record InputConfig := mkInput { copy_on_select : bool }.
Record WindowConfig := mkWindowConfig { config_title : rstring; integrated_titlebar : bool }.
Record RenderConfig := mkRender { max_fps : Z }.
Record DomainConfig := mkDomain { default_domain : option rstring }.
Record LifecycleConfig := mkLifecycle { reload_on_change : bool }.

Record EffectiveConfig := mkConfig {
  cfg_font : FontConfig;
  cfg_terminal : TerminalConfig;
  cfg_input : InputConfig;
  cfg_window : WindowConfig;
  cfg_render : RenderConfig;
  cfg_domain : DomainConfig;
  cfg_lifecycle : LifecycleConfig;
}.

#[export] Instance FontConfig_eq_dec : EqDecision FontConfig.
Proof. solve_decision. Defined.
#[export] Instance TerminalConfig_eq_dec : EqDecision TerminalConfig.
Proof. solve_decision. Defined.
#[export] Instance InputConfig_eq_dec : EqDecision InputConfig.
Proof. solve_decision. Defined.
#[export] Instance WindowConfig_eq_dec : EqDecision WindowConfig.
Proof. solve_decision. Defined.
#[export] Instance RenderConfig_eq_dec : EqDecision RenderConfig.
Proof. solve_decision. Defined.
#[export] Instance DomainConfig_eq_dec : EqDecision DomainConfig.
Proof. solve_decision. Defined.
#[export] Instance LifecycleConfig_eq_dec : EqDecision LifecycleConfig.
Proof. solve_decision. Defined.
#[export] Instance EffectiveConfig_eq_dec : EqDecision EffectiveConfig.
Proof. solve_decision. Defined.

Definition default_config : EffectiveConfig :=
  mkConfig (mkFont (lit "monospace") 12000) (mkTerminalConfig 3500 (lit "xterm-256color")) (mkInput false)
    (mkWindowConfig (lit "R-SSH") true) (mkRender 60) (mkDomain None) (mkLifecycle true).

Definition reuse_if_equal {A} `{EqDecision A} (candidate previous : A) : A :=
  if decide (candidate = previous) then previous else candidate.

Definition reuse_equal_subtrees_from (previous config : EffectiveConfig) : EffectiveConfig :=
  mkConfig (reuse_if_equal (cfg_font config) (cfg_font previous))
    (reuse_if_equal (cfg_terminal config) (cfg_terminal previous))
    (reuse_if_equal (cfg_input config) (cfg_input previous))
    (reuse_if_equal (cfg_window config) (cfg_window previous))
    (reuse_if_equal (cfg_render config) (cfg_render previous))
    (reuse_if_equal (cfg_domain config) (cfg_domain previous))
    (reuse_if_equal (cfg_lifecycle config) (cfg_lifecycle previous)).

(** ** Patches *)

Inductive Patch (A : Type) := Inherit | Clear | SetTo (value : A).
Arguments Inherit {A}.
Arguments Clear {A}.
Arguments SetTo {A} value.

Definition apply_patch {A} (patch : Patch A) (value schema_default : A) : A :=
  match patch with Inherit => value | Clear => schema_default | SetTo replacement => replacement end.

(** The patches of all fields, grouped in the source like the configuration. *)
Record ConfigPatch := mkPatch {
  p_family : Patch rstring;
  p_size_milli_points : Patch Z;
  p_scrollback_lines : Patch Z;
  p_term : Patch rstring;
  p_copy_on_select : Patch bool;
  p_title : Patch rstring;
  p_integrated_titlebar : Patch bool;
  p_max_fps : Patch Z;
  p_default_domain : Patch (option rstring);
  p_reload_on_change : Patch bool;
}.

Definition no_patch : ConfigPatch :=
  mkPatch Inherit Inherit Inherit Inherit Inherit Inherit Inherit Inherit Inherit Inherit.

Definition apply_layer (layer : ConfigPatch) (config defaults : EffectiveConfig) : EffectiveConfig :=
  mkConfig
    (mkFont (apply_patch (p_family layer) (family (cfg_font config)) (family (cfg_font defaults)))
       (apply_patch (p_size_milli_points layer) (size_milli_points (cfg_font config))
          (size_milli_points (cfg_font defaults))))
    (mkTerminalConfig
       (apply_patch (p_scrollback_lines layer) (scrollback_lines (cfg_terminal config))
          (scrollback_lines (cfg_terminal defaults)))
       (apply_patch (p_term layer) (term (cfg_terminal config)) (term (cfg_terminal defaults))))
    (mkInput (apply_patch (p_copy_on_select layer) (copy_on_select (cfg_input config))
                (copy_on_select (cfg_input defaults))))
    (mkWindowConfig
       (apply_patch (p_title layer) (config_title (cfg_window config)) (config_title (cfg_window defaults)))
       (apply_patch (p_integrated_titlebar layer) (integrated_titlebar (cfg_window config))
          (integrated_titlebar (cfg_window defaults))))
    (mkRender (apply_patch (p_max_fps layer) (max_fps (cfg_render config)) (max_fps (cfg_render defaults))))
    (mkDomain (apply_patch (p_default_domain layer) (default_domain (cfg_domain config))
                 (default_domain (cfg_domain defaults))))
    (mkLifecycle (apply_patch (p_reload_on_change layer) (reload_on_change (cfg_lifecycle config))
                    (reload_on_change (cfg_lifecycle defaults)))).

Definition resolve_layers (layers : list ConfigPatch) : EffectiveConfig :=
  foldl (λ resolved layer, apply_layer layer resolved default_config) default_config layers.

(** ** Validation *)

Record ConfigDiagnostic := mkDiagnostic { diag_path : rstring; diag_code : rstring; diag_message : rstring }.

Definition MAX_FONT_SIZE_MILLI_POINTS : Z := 512000.
Definition MAX_SCROLLBACK_LINES : Z := 10000000.
Definition MAX_FPS : Z := 1000.

Definition diagnostic (path code message : string) : ConfigDiagnostic :=
  mkDiagnostic (lit path) (lit code) (lit message).
Arguments diagnostic (path code message)%_string.

Definition contains_nul (s : rstring) : bool := bool_decide (0 ∈ s).
Definition blank (s : rstring) : bool := bool_decide (trim s = []).

Definition validate_nonempty_without_nul (path : string) (value : rstring) : list ConfigDiagnostic :=
  if blank value then [mkDiagnostic (lit path) (lit "empty") (lit path ++ lit " must not be empty")]
  else if contains_nul value
  then [mkDiagnostic (lit path) (lit "contains_nul") (lit path ++ lit " must not contain NUL")]
  else [].
Arguments validate_nonempty_without_nul path%_string value.

(** The diagnostics [validate] collects; it succeeds when there is none. *)
Definition validate (config : EffectiveConfig) : list ConfigDiagnostic :=
  (if blank (family (cfg_font config))
   then [diagnostic "font.family" "empty" "font family must not be empty"] else []) ++
  (if between 1000 MAX_FONT_SIZE_MILLI_POINTS (size_milli_points (cfg_font config)) then []
   else [diagnostic "font.size_milli_points" "out_of_range"
           "font size must be between 1000 and 512000 milli-points"]) ++
  (if MAX_SCROLLBACK_LINES <? scrollback_lines (cfg_terminal config)
   then [diagnostic "terminal.scrollback_lines" "out_of_range" "scrollback lines must not exceed 10000000"]
   else []) ++
  validate_nonempty_without_nul "terminal.term" (term (cfg_terminal config)) ++
  (if contains_nul (config_title (cfg_window config))
   then [diagnostic "window.title" "contains_nul" "window title must not contain NUL"] else []) ++
  (if between 1 MAX_FPS (max_fps (cfg_render config)) then []
   else [diagnostic "render.max_fps" "out_of_range" "maximum frame rate must be between 1 and 1000"]) ++
  (match default_domain (cfg_domain config) with
   | Some domain => validate_nonempty_without_nul "domain.default_domain" domain
   | None => []
   end).

(** ** Differences *)

Record FontConfigDiff := mkFontDiff { d_family : bool; d_size_milli_points : bool }.
Record TerminalConfigDiff := mkTerminalDiff { d_scrollback_lines : bool; d_term : bool }.
Record WindowConfigDiff := mkWindowDiff { d_title : bool; d_integrated_titlebar : bool }.

Record ConfigDiff := mkConfigDiff {
  diff_font : option FontConfigDiff;
  diff_terminal : option TerminalConfigDiff;
  diff_input : option bool;
  diff_window : option WindowConfigDiff;
  diff_render : option bool;
  diff_domain : option bool;
  diff_lifecycle : option bool;
}.

Definition differs {A} `{EqDecision A} (before after : A) : bool := bool_decide (before ≠ after).

(** [present]: a difference with no flag set is none. *)
Definition present {A} (changed : bool) (diff : A) : option A := if changed then Some diff else None.

Definition diff_between (before after : EffectiveConfig) : ConfigDiff :=
  let field {A B} `{EqDecision B} (part : EffectiveConfig → A) (get : A → B) :=
    differs (get (part before)) (get (part after)) in
  let font := mkFontDiff (field cfg_font family) (field cfg_font size_milli_points) in
  let terminal := mkTerminalDiff (field cfg_terminal scrollback_lines) (field cfg_terminal term) in
  let input := field cfg_input copy_on_select in
  let window := mkWindowDiff (field cfg_window config_title) (field cfg_window integrated_titlebar) in
  let render := field cfg_render max_fps in
  let domain := field cfg_domain default_domain in
  let lifecycle := field cfg_lifecycle reload_on_change in
  mkConfigDiff (present (d_family font || d_size_milli_points font) font)
    (present (d_scrollback_lines terminal || d_term terminal) terminal)
    (present input input)
    (present (d_title window || d_integrated_titlebar window) window)
    (present render render) (present domain domain) (present lifecycle lifecycle).

Definition is_none {A} (x : option A) : bool := match x with None => true | Some _ => false end.

Definition diff_is_empty (d : ConfigDiff) : bool :=
  is_none (diff_font d) && is_none (diff_terminal d) && is_none (diff_input d) && is_none (diff_window d)
  && is_none (diff_render d) && is_none (diff_domain d) && is_none (diff_lifecycle d).

(** ** The store of the last good snapshot *)

Record ConfigUpdate := mkUpdate { update_snapshot : EffectiveConfig; update_diff : ConfigDiff }.
Record ValidatedConfigStore := mkStore { store_current : EffectiveConfig }.

Definition new_store (initial : EffectiveConfig) : list ConfigDiagnostic + ValidatedConfigStore :=
  match validate initial with [] => inr (mkStore initial) | diagnostics => inl diagnostics end.

Definition replace (candidate : EffectiveConfig) (store : ValidatedConfigStore) :
    (list ConfigDiagnostic + ConfigUpdate) * ValidatedConfigStore :=
  match validate candidate with
  | [] =>
      let diff := diff_between (store_current store) candidate in
      if diff_is_empty diff then (inr (mkUpdate (store_current store) diff), store)
      else
        let current := reuse_equal_subtrees_from (store_current store) candidate in
        (inr (mkUpdate current diff), mkStore current)
  | diagnostics => (inl diagnostics, store)
  end.

(** ** Sources *)

(** Paths of the platform. *)
Class Paths := {
  Path : Type;
  path_join : Path → rstring → Path;
  path_parent : Path → option Path;
  path_to_str : Path → option rstring;
}.

Inductive IoErrorKind := IoNotFound | IoOther.
Record IoError := mkIoError { io_kind : IoErrorKind; io_text : rstring }.

Inductive ConfigSourceErrorKind (E : Type) :=
| SourceIo (kind : IoErrorKind)
| SourceInvalidUtf8
| SourceNonUnicodePath
| SourceStrict (error : E).
Arguments SourceIo {E} kind.
Arguments SourceInvalidUtf8 {E}.
Arguments SourceNonUnicodePath {E}.
Arguments SourceStrict {E} error.

Section lifecycle.
  Context `{Paths} {T E : Type}.

Record ConfigDiscoveryInputs := mkInputs {
  is_windows : bool;
  is_unix : bool;
  current_exe : option Path;
  home_dir : option Path;
  xdg_config_home : option Path;
  xdg_config_dirs : list Path;
  environment_config_file : option Path;
}.

Record ConfigSource := mkSource { source_path : Path; source_required : bool }.
Inductive ResolvedConfigSource := ResolvedDisabled | ResolvedDefaults | ResolvedFile (source : ConfigSource).

Record ConfigSourceError := mkSourceError {
  error_path : Path;
  error_kind : ConfigSourceErrorKind E;
  error_detail : rstring;
}.

(** [DerivedConfigEnvironment]: the variables, in order. *)
Definition DerivedConfigEnvironment : Type := list (rstring * rstring).

Record ConfigLoadAttempt := mkAttempt {
  attempt_preferred : option Path;
  attempt_resolved : ResolvedConfigSource;
  attempt_result : ConfigSourceError + T;
  attempt_publication : DerivedConfigEnvironment;
}.

Definition optional (path : option Path) : list ConfigSource :=
  match path with Some path => [mkSource path false] | None => [] end.

Definition candidate_sources (inputs : ConfigDiscoveryInputs) (explicit : option Path) : list ConfigSource :=
  match explicit, environment_config_file inputs with
  | Some path, _ => [mkSource path true]
  | None, Some path => [mkSource path true]
  | None, None =>
      (if is_windows inputs
       then optional ((λ parent, path_join parent (lit "wezterm.lua")) <$> (current_exe inputs ≫= path_parent))
       else []) ++
      optional ((λ home, path_join home (lit ".wezterm.lua")) <$> home_dir inputs) ++
      optional ((λ dir, path_join (path_join dir (lit "wezterm")) (lit "wezterm.lua"))
                  <$> xdg_config_home inputs) ++
      (match xdg_config_home inputs with
       | None => optional ((λ home, path_join (path_join (path_join home (lit ".config")) (lit "wezterm"))
                                      (lit "wezterm.lua")) <$> home_dir inputs)
       | Some _ => []
       end) ++
      (if is_unix inputs
       then (λ dir, mkSource (path_join (path_join dir (lit "wezterm")) (lit "wezterm.lua")) false)
              <$> xdg_config_dirs inputs
       else [])
  end.

Definition for_file (path : Path) : ConfigSourceError + DerivedConfigEnvironment :=
  let non_unicode_path :=
    mkSourceError path SourceNonUnicodePath (lit "config source path is not valid Unicode") in
  match path_to_str path with
  | None => inl non_unicode_path
  | Some file =>
      match path_parent path with
      | None => inr [(lit "WEZTERM_CONFIG_FILE", file)]
      | Some parent =>
          match path_to_str parent with
          | None => inl non_unicode_path
          | Some dir => inr [(lit "WEZTERM_CONFIG_DIR", dir); (lit "WEZTERM_CONFIG_FILE", file)]
          end
      end
  end.

(** [fs::read], the parser, and the text of its errors. *)
Context (read : Path → IoError + list Z) (parser : rstring → E + T) (show_error : E → rstring).

(** [str::from_utf8] on a whole file, and the byte order mark. *)
Definition load_source (path : Path) : ConfigSourceError + T :=
  match read path with
  | inl error => inl (mkSourceError path (SourceIo (io_kind error)) (io_text error))
  | inr bytes =>
      match from_utf8 0 bytes with
      | (source, _, None) =>
          let source := match source with 0xfeff :: source => source | _ => source end in
          match parser source with
          | inl error => inl (mkSourceError path (SourceStrict error) (show_error error))
          | inr config => inr config
          end
      | _ => inl (mkSourceError path SourceInvalidUtf8 (lit "input is not valid UTF-8"))
      end
  end.

(** ** The reload lifecycle *)

Record ConfigSnapshot := mkSnapshot {
  snapshot_source : option Path;
  snapshot_config : T;
  snapshot_generation : Z;
  snapshot_publication : DerivedConfigEnvironment;
}.

Inductive ConfigLifecycleEvent (D : Type) :=
| ConfigApplied (snapshot : ConfigSnapshot) (diff : D)
| ConfigRejected (snapshot : ConfigSnapshot) (diagnostic : ConfigSourceError).
Arguments ConfigApplied {D} snapshot diff.
Arguments ConfigRejected {D} snapshot diagnostic.

Record ConfigLifecycle := mkConfigLifecycle {
  lc_inputs : ConfigDiscoveryInputs;
  lc_skip : bool;
  lc_explicit : option Path;
  lc_defaults : T;
  lc_snapshot : ConfigSnapshot;
  lc_latest_diagnostic : option ConfigSourceError;
  lc_latest_selection : ResolvedConfigSource;
}.

Definition new_with_initial (inputs : ConfigDiscoveryInputs) (skip : bool) (explicit : option Path)
    (initial defaults : T) : ConfigLifecycle :=
  mkConfigLifecycle inputs skip explicit defaults (mkSnapshot None initial 0 []) None ResolvedDefaults.

Definition new_lifecycle (inputs : ConfigDiscoveryInputs) (skip : bool) (explicit : option Path)
    (defaults : T) : ConfigLifecycle := new_with_initial inputs skip explicit defaults defaults.

(** An optional source that is missing. *)
Definition missing (source : ConfigSource) (result : ConfigSourceError + T) : bool :=
  negb (source_required source) &&
  match result with
  | inl error => match error_kind error with SourceIo IoNotFound => true | _ => false end
  | inr _ => false
  end.

Definition load_attempt (source : ConfigSource) (result : ConfigSourceError + T) : ConfigLoadAttempt :=
  let path := source_path source in
  let '(result, publication) :=
    match result with
    | inr config =>
        match for_file path with
        | inr publication => (inr config, publication)
        | inl error => (inl error, [])
        end
    | inl error => (inl error, [])
    end in
  mkAttempt (Some path) (ResolvedFile source) result publication.

(** The loop of [attempt_reload] over the candidates. *)
Fixpoint first_source (sources : list ConfigSource) : option ConfigLoadAttempt :=
  match sources with
  | [] => None
  | source :: rest =>
      let result := load_source (source_path source) in
      if missing source result then first_source rest else Some (load_attempt source result)
  end.

Definition attempt_reload (lc : ConfigLifecycle) : ConfigLoadAttempt :=
  if lc_skip lc then mkAttempt None ResolvedDisabled (inr (lc_defaults lc)) []
  else
    match first_source (candidate_sources (lc_inputs lc) (lc_explicit lc)) with
    | Some attempt => attempt
    | None => mkAttempt None ResolvedDefaults (inr (lc_defaults lc)) []
    end.

Definition selected_path (source : ResolvedConfigSource) : option Path :=
  match source with ResolvedFile source => Some (source_path source) | _ => None end.

(** The generation is a [u64] and must not overflow. *)
Definition install_attempt {D} (attempt : ConfigLoadAttempt) (diff : T → T → D) :
    M Empty_set ConfigLifecycle (ConfigLifecycleEvent D) := λ lc,
  match attempt_result attempt with
  | inr config =>
      let generation := snapshot_generation (lc_snapshot lc) + 1 in
      if u64_max <? generation then Panic
      else
        let snapshot :=
          mkSnapshot (selected_path (attempt_resolved attempt)) config generation
            (attempt_publication attempt) in
        Ok (ConfigApplied snapshot (diff (snapshot_config (lc_snapshot lc)) config))
          (mkConfigLifecycle (lc_inputs lc) (lc_skip lc) (lc_explicit lc) (lc_defaults lc) snapshot None
             (attempt_resolved attempt))
  | inl error =>
      Ok (ConfigRejected (lc_snapshot lc) error)
        (mkConfigLifecycle (lc_inputs lc) (lc_skip lc) (lc_explicit lc) (lc_defaults lc) (lc_snapshot lc)
           (Some error) (attempt_resolved attempt))
  end.

End lifecycle.

(** ** The debouncer *)

Inductive SourceChange := SourceChanged | SourceIgnored.

(** Times and durations in nanoseconds; [instant_max] is the last instant the
    platform can represent. *)
Record FixedWindowDebouncer := mkDebouncer { db_window : Z; db_deadline : option Z }.

Definition observe (instant_max : Z) (change : SourceChange) (now : Z) (d : FixedWindowDebouncer) :
    option Z * FixedWindowDebouncer :=
  match change with
  | SourceIgnored => (None, d)
  | SourceChanged =>
      let deadline :=
        default (if now + db_window d <=? instant_max then now + db_window d else now) (db_deadline d) in
      (Some deadline, mkDebouncer (db_window d) (Some deadline))
  end.

Definition remaining (now : Z) (d : FixedWindowDebouncer) : option Z :=
  (λ deadline, Z.max (deadline - now) 0) <$> db_deadline d.

Definition take_ready (now : Z) (d : FixedWindowDebouncer) : bool * FixedWindowDebouncer :=
  match db_deadline d with
  | Some deadline => if now <? deadline then (false, d) else (true, mkDebouncer (db_window d) None)
  | None => (false, d)
  end.

(** ** Layers *)

(** The value the last layer that does not inherit gives a field. *)
Definition says {A} (patch : Patch A) : Prop := match patch with Inherit => False | _ => True end.
#[export] Instance says_dec {A} (patch : Patch A) : Decision (says patch).
Proof. destruct patch; apply _. Defined.

Definition decided {A} (schema_default : A) (patches : list (Patch A)) : A :=
  match last (filter says patches) with
  | Some (SetTo value) => value
  | _ => schema_default
  end.

Definition effective (layers : list ConfigPatch) : EffectiveConfig :=
  let field {A} (get : ConfigPatch → Patch A) (schema_default : A) := decided schema_default (get <$> layers) in
  mkConfig (mkFont (field p_family (lit "monospace")) (field p_size_milli_points 12000))
    (mkTerminalConfig (field p_scrollback_lines 3500) (field p_term (lit "xterm-256color")))
    (mkInput (field p_copy_on_select false))
    (mkWindowConfig (field p_title (lit "R-SSH")) (field p_integrated_titlebar true))
    (mkRender (field p_max_fps 60)) (mkDomain (field p_default_domain None))
    (mkLifecycle (field p_reload_on_change true)).

Lemma decided_snoc {A} (d : A) patches patch :
  decided d (patches ++ [patch]) = apply_patch patch (decided d patches) d.
Proof.
  unfold decided. rewrite filter_app, filter_cons, filter_nil.
  destruct patch; [rewrite decide_False by (by intros []); by rewrite app_nil_r|..];
    rewrite decide_True by done; by rewrite last_snoc.
Qed.

(** Resolving layers of patches gives every field the value of the last layer
    that sets it, the default of the schema where that layer clears it, and
    the default where no layer mentions it. *)
Theorem layers_last_wins layers : resolve_layers layers = effective layers.
Proof.
  unfold resolve_layers. induction layers as [|layer layers IH] using rev_ind; [done|].
  rewrite foldl_app. cbn [foldl]. rewrite IH. unfold effective, apply_layer.
  rewrite !fmap_app. cbn [fmap list_fmap cfg_font cfg_terminal cfg_input cfg_window cfg_render cfg_domain cfg_lifecycle
    family size_milli_points scrollback_lines term copy_on_select config_title integrated_titlebar max_fps default_domain
    reload_on_change default_config].
  by rewrite !decided_snoc.
Qed.

(** ** Differences *)

Lemma reuse_if_equal_id {A} `{EqDecision A} (x y : A) : reuse_if_equal x y = x.
Proof. unfold reuse_if_equal. by case_decide. Qed.

Lemma reuse_equal_subtrees_id previous config : reuse_equal_subtrees_from previous config = config.
Proof. unfold reuse_equal_subtrees_from. rewrite !reuse_if_equal_id. by destruct config. Qed.

Lemma differs_false {A} `{EqDecision A} (x y : A) : differs x y = false → x = y.
Proof. unfold differs. intros ?%bool_decide_eq_false. by apply dec_stable. Qed.
Lemma differs_refl {A} `{EqDecision A} (x : A) : differs x x = false.
Proof. apply bool_decide_eq_false_2. intros Hx. by apply Hx. Qed.

Lemma present_none {A} changed (d : A) : is_none (present changed d) = negb changed.
Proof. by destruct changed. Qed.

Lemma diff_is_empty_iff before after : diff_is_empty (diff_between before after) = true ↔ before = after.
Proof.
  unfold diff_is_empty, diff_between. cbn -[differs]. rewrite !present_none. split.
  - rewrite !andb_true_iff, !negb_true_iff, !orb_false_iff. intros H.
    destruct_and!. repeat match goal with E : differs _ _ = false |- _ => apply differs_false in E end.
    destruct before as [[] [] [] [] [] [] []], after as [[] [] [] [] [] [] []]. cbn in *. by subst.
  - intros ->. by rewrite !differs_refl.
Qed.

(** A flag of a section; a section that is left out has none set. *)
Definition flag {A} (get : A → bool) (section : option A) : bool :=
  match section with Some diff => get diff | None => false end.

(** The difference names exactly the fields that changed, and leaves out
    exactly the sections that did not. *)
Record exact_diff (before after : EffectiveConfig) (d : ConfigDiff) : Prop := {
  exact_family : flag d_family (diff_font d) = true ↔ family (cfg_font before) ≠ family (cfg_font after);
  exact_size : flag d_size_milli_points (diff_font d) = true ↔ size_milli_points (cfg_font before) ≠ size_milli_points (cfg_font after);
  exact_scrollback : flag d_scrollback_lines (diff_terminal d) = true ↔ scrollback_lines (cfg_terminal before) ≠ scrollback_lines (cfg_terminal after);
  exact_term : flag d_term (diff_terminal d) = true ↔ term (cfg_terminal before) ≠ term (cfg_terminal after);
  exact_copy : flag id (diff_input d) = true ↔ copy_on_select (cfg_input before) ≠ copy_on_select (cfg_input after);
  exact_title : flag d_title (diff_window d) = true ↔ config_title (cfg_window before) ≠ config_title (cfg_window after);
  exact_titlebar : flag d_integrated_titlebar (diff_window d) = true ↔ integrated_titlebar (cfg_window before) ≠ integrated_titlebar (cfg_window after);
  exact_fps : flag id (diff_render d) = true ↔ max_fps (cfg_render before) ≠ max_fps (cfg_render after);
  exact_domain : flag id (diff_domain d) = true ↔ default_domain (cfg_domain before) ≠ default_domain (cfg_domain after);
  exact_reload : flag id (diff_lifecycle d) = true ↔ reload_on_change (cfg_lifecycle before) ≠ reload_on_change (cfg_lifecycle after);
  exact_font_section : diff_font d = None ↔ cfg_font before = cfg_font after;
  exact_terminal_section : diff_terminal d = None ↔ cfg_terminal before = cfg_terminal after;
  exact_input_section : diff_input d = None ↔ cfg_input before = cfg_input after;
  exact_window_section : diff_window d = None ↔ cfg_window before = cfg_window after;
  exact_render_section : diff_render d = None ↔ cfg_render before = cfg_render after;
  exact_domain_section : diff_domain d = None ↔ cfg_domain before = cfg_domain after;
  exact_lifecycle_section : diff_lifecycle d = None ↔ cfg_lifecycle before = cfg_lifecycle after;
}.

Lemma differs_true {A} `{EqDecision A} (x y : A) : differs x y = true ↔ x ≠ y.
Proof. apply bool_decide_eq_true. Qed.

(** One flag and two flags of a section. *)
Lemma present_one (changed : bool) :
  flag id (present changed changed) = changed ∧ (present changed changed = None ↔ changed = false).
Proof. by destruct changed. Qed.
Lemma present_two {A} (d : A) (get1 get2 : A → bool) :
  let section := present (get1 d || get2 d) d in
  flag get1 section = get1 d ∧ flag get2 section = get2 d ∧
  (section = None ↔ get1 d = false ∧ get2 d = false).
Proof. cbv zeta. destruct (get1 d) eqn:H1, (get2 d) eqn:H2; cbn; rewrite ?H1, ?H2; naive_solver. Qed.

Lemma differs_same {A} `{EqDecision A} (x y : A) : differs x y = false ↔ x = y.
Proof. split; [apply differs_false|intros ->; apply differs_refl]. Qed.

Lemma diff_between_exact before after : exact_diff before after (diff_between before after).
Proof.
  destruct before as [[] [] [] [] [] [] []], after as [[] [] [] [] [] [] []].
  unfold diff_between. cbn -[differs present flag]. split; cbn -[differs present flag].
  all: match goal with
       | |- context [present _ (mkFontDiff ?a ?b)] => set (d := mkFontDiff a b);
          change (present (a || b) d) with (present (d_family d || d_size_milli_points d) d);
          destruct (present_two d d_family d_size_milli_points) as (P1 & P2 & P3)
       | |- context [present _ (mkTerminalDiff ?a ?b)] => set (d := mkTerminalDiff a b);
          change (present (a || b) d) with (present (d_scrollback_lines d || d_term d) d);
          destruct (present_two d d_scrollback_lines d_term) as (P1 & P2 & P3)
       | |- context [present _ (mkWindowDiff ?a ?b)] => set (d := mkWindowDiff a b);
          change (present (a || b) d) with (present (d_title d || d_integrated_titlebar d) d);
          destruct (present_two d d_title d_integrated_titlebar) as (P1 & P2 & P3)
       | |- context [present ?c ?c] => destruct (present_one c) as (P1 & P3); pose proof P1 as P2
       end.
  all: first [rewrite P1 | rewrite P2 | rewrite P3]; cbn -[differs]; rewrite ?differs_true, ?differs_same; naive_solver.
Qed.

(** ** The store *)

Definition replace_all (store : ValidatedConfigStore) (candidates : list EffectiveConfig) : ValidatedConfigStore :=
  foldl (λ store candidate, (replace candidate store).2) store candidates.

Definition valid (config : EffectiveConfig) : Prop := validate config = [].
#[export] Instance valid_dec config : Decision (valid config).
Proof. unfold valid. destruct (validate config); [by left|by right]. Defined.

Lemma replace_current candidate store :
  store_current (replace candidate store).2 = if decide (valid candidate) then candidate else store_current store.
Proof.
  unfold replace, valid. destruct (decide (validate candidate = [])) as [Hv|Hv].
  - rewrite Hv. destruct (diff_is_empty _) eqn:Hd; cbn; [by apply diff_is_empty_iff in Hd|apply reuse_equal_subtrees_id].
  - by destruct (validate candidate).
Qed.

(** C24. A store holds a valid configuration at all times: the last valid candidate
    it was offered, or the one it was created with. An update reports the
    stored snapshot and the difference to the one before: its flags name
    exactly the fields that changed, and it is empty exactly when nothing
    changed. A rejected candidate changes nothing and is reported with what
    is wrong with it. *)
Theorem store_keeps_last_valid initial store candidates candidate :
  new_store initial = inr store →
  let before := replace_all store candidates in
  let current := default initial (last (filter valid candidates)) in
  store_current before = current ∧ valid current ∧
  match replace candidate before with
  | (inr update, after) =>
      valid candidate ∧ store_current after = candidate ∧ update_snapshot update = candidate ∧
      exact_diff current candidate (update_diff update) ∧
      (diff_is_empty (update_diff update) = true ↔ candidate = current)
  | (inl diagnostics, after) => ¬ valid candidate ∧ after = before ∧ diagnostics = validate candidate
  end.
Proof.
  intros Hnew before current. unfold new_store in Hnew. destruct (validate initial) eqn:Hi; [|done].
  injection Hnew as <-.
  assert (store_current before = current ∧ valid current) as [Hc Hv].
  { subst before current. induction candidates as [|c cs IH] using rev_ind; [done|].
    unfold replace_all in *. rewrite foldl_app, filter_app, filter_cons, filter_nil. cbn [foldl]. rewrite replace_current.
    destruct (decide (valid c)); [by rewrite last_snoc|by rewrite app_nil_r]. }
  split_and!; [done|done|]. unfold replace, valid. rewrite Hc. destruct (validate candidate) eqn:Hcand; [|done].
  destruct (diff_is_empty (diff_between current candidate)) eqn:Hd; cbn [update_snapshot update_diff store_current].
  - apply diff_is_empty_iff in Hd as <-. split_and!; try done; [apply diff_between_exact|]. by rewrite diff_is_empty_iff.
  - rewrite reuse_equal_subtrees_id. split_and!; try done; [apply diff_between_exact|]. by rewrite diff_is_empty_iff.
Qed.

Lemma store_keeps_last_valid_witness :
  new_store default_config = inr (mkStore default_config) ∧
  store_current (replace_all (mkStore default_config)
    [resolve_layers [mkPatch Inherit (SetTo 14000) Inherit Inherit Inherit Inherit Inherit Inherit Inherit Inherit];
     resolve_layers [mkPatch Inherit Inherit Inherit Inherit Inherit Inherit Inherit (SetTo 0) Inherit Inherit]]) =
    resolve_layers [mkPatch Inherit (SetTo 14000) Inherit Inherit Inherit Inherit Inherit Inherit Inherit Inherit].
Proof.
  split; [vm_compute; reflexivity|].
  rewrite (proj1 (store_keeps_last_valid default_config (mkStore default_config) _ default_config ltac:(vm_compute; reflexivity))).
  vm_compute. reflexivity.
Defined.
