(* ===== verification/Window.v ===== *)
(** The window controller ([rssh-native/src]): its state ([state.rs],
    [panes/mod.rs]), intents ([intent.rs], [commands/mod.rs]) and effects
    ([effect.rs]), and the reducer that turns one intent into a new state and
    effects for the ports ([controller.rs], [panes/mod.rs], [commands/mod.rs],
    [persistence/mod.rs]). *)
From coqutil Require Import Datatypes.RecordSetters.
From stdpp Require Import sorting.
From S2P Require Import Prelude Text Launch Csi Parse Grid Screen RuntimeApi Publication Config.
Import DoubleBraceUpdate.

Local Open Scope Z_scope.

(** ** State *)

Record PaneState := mkPane {
  ps_token : PaneToken;
  ps_revision : option Z;
  ps_snapshot : option TerminalStateSummary;
  ps_title : option rstring;
  ps_working_directory : option rstring;
  ps_badge_format : option rstring;
  ps_progress : RuntimeProgress;
  ps_user_vars : gmap rstring rstring;
  ps_restarting : bool;
  ps_closing : bool;
  ps_effect_sequence : EffectSequenceCursor;
}.

#[export] Hint Extern 0 (@Setter PaneState _ ?getter) =>
  mk_setter (fun r : PaneState => mkPane (ps_token r) (ps_revision r) (ps_snapshot r) (ps_title r)
    (ps_working_directory r) (ps_badge_format r) (ps_progress r) (ps_user_vars r) (ps_restarting r)
    (ps_closing r) (ps_effect_sequence r)) getter : typeclass_instances.

Definition new_pane (token : PaneToken) : PaneState :=
  mkPane token None None None None None ProgressNone ∅ false false first_effect.

Record ConfigState := mkConfigState {
  cs_revision : Z;
  cs_effective : EffectiveConfig;
  cs_theme : option rstring;
}.

Record WindowState := mkWindow {
  ws_closing : bool;
  ws_focused : bool;
  ws_size : TerminalSize;
  ws_redraw_pending : bool;
  ws_config : ConfigState;
  ws_timers : gmap Z Z;
  ws_panes : gmap PaneId PaneState;
  ws_pane_order : list PaneId;
  ws_active_pane : option PaneId;
}.

#[export] Hint Extern 0 (@Setter WindowState _ ?getter) =>
  mk_setter (fun r : WindowState => mkWindow (ws_closing r) (ws_focused r) (ws_size r)
    (ws_redraw_pending r) (ws_config r) (ws_timers r) (ws_panes r) (ws_pane_order r) (ws_active_pane r))
    getter : typeclass_instances.

Definition default_window : WindowState :=
  mkWindow false false (mkTerminalSize 80 24) false (mkConfigState 0 default_config None) ∅ ∅ [] None.

(** ** Intents *)

Inductive PaneSplitDirection := PaneLeft | PaneRight | PaneUp | PaneDown.

Inductive PaneCommand :=
| PaneSpawn
| PaneSplit (source : PaneId) (direction : PaneSplitDirection)
| PaneActivate (pane : PaneId)
| PaneClose (pane : PaneId)
| PaneRestart (pane : PaneId).

Inductive PaneLifecycleIntent :=
| PaneOpened (token : PaneToken)
| PaneActivated (token : PaneToken)
| PaneClosed (token : PaneToken).

Inductive CommandIntent :=
| CmdOpenUri (uri : rstring)
| CmdCopy (contents : rstring)
| CmdPaste (pane : PaneId) (bytes : list Z)
| CmdPane (command : PaneCommand)
| CmdSpawnWindow
| CmdSetTitle (title : rstring)
| CmdSave.

Inductive PlatformIntent := PlatformFocused (focused : bool) | PlatformResized (size : TerminalSize).

Inductive TimerIntent :=
| TimerArm (timer epoch : Z)
| TimerFired (timer epoch : Z)
| TimerCancel (timer : Z).

Record NativeConfigDiff := mkNativeDiff {
  nd_revision : Z;
  nd_effective : EffectiveConfig;
  nd_theme : option rstring;
}.

Inductive WindowIntent :=
| IntentPlatform (intent : PlatformIntent)
| IntentCommand (intent : CommandIntent)
| IntentRuntimeBatch (batch : RuntimeBatch TerminalStateSummary)
| IntentConfig (diff : NativeConfigDiff)
| IntentTimer (intent : TimerIntent)
| IntentPaneLifecycle (intent : PaneLifecycleIntent)
| IntentRedrawRequested
| IntentCloseRequested.

(** ** Effects *)

Record HostEffectContext := mkContext { ctx_pane : PaneToken; ctx_revision : Z; ctx_sequence : Z }.

Inductive WindowEffect :=
| RtSubmitInput (pane : PaneToken) (bytes : list Z)
| RtResizePane (pane : PaneToken) (size : TerminalSize)
| RtWriteTransport (context : HostEffectContext) (bytes : list Z)
| RtObserveHostStream (context : HostEffectContext) (bytes : list Z)
| RtWriteSessionLog (context : HostEffectContext) (bytes : list Z)
| RtApplyModeChange (context : HostEffectContext) (change : TerminalModeChange)
| RtRestart (pane : PaneToken)
| RtBeginClose (pane : PaneToken)
| WinSetFocused (focused : bool)
| WinSetTitle (title : rstring)
| WinRequestRedraw
| WinCloseAfterRuntimes
| WinCloseNow
| WinReportDiagnostic (message : rstring)
| WinRuntimeDiagnostic (context : HostEffectContext) (message : rstring)
| RenResizeSurface (size : TerminalSize)
| RenApplyConfig (revision : Z) (theme : option rstring)
| RenApplyPane (pane : PaneToken) (revision : Z) (snapshot : TerminalStateSummary) (damage : list DamageRegion)
| RenBell (context : HostEffectContext) (count : Z)
| RenRecoverDevice
| RenPresent
| ClipWrite (context : option HostEffectContext) (selection : option rstring) (contents : rstring)
| ClipRead (context : HostEffectContext) (selection : rstring)
| UriOpen (uri : rstring)
| NotifyShow (context : HostEffectContext) (title : option rstring) (body : rstring)
| PersistSave
| SpawnPaneEffect
| SpawnSplitPane (source : PaneToken) (direction : PaneSplitDirection)
| SpawnWindow.

(** A reducer step: the new state and the effects it appends. *)
Definition Reduction : Type := WindowState * list WindowEffect.

(** ** Controller *)

Definition request_redraw (w : WindowState) : Reduction :=
  if ws_redraw_pending w then (w, [])
  else (w{{ ws_redraw_pending := true }}, [WinRequestRedraw]).

(** [request_redraw] after other effects. *)
Definition then_redraw (r : Reduction) : Reduction :=
  let '(w, effects) := request_redraw r.1 in (w, r.2 ++ effects).

Definition reduce_platform (w : WindowState) (intent : PlatformIntent) : Reduction :=
  match intent with
  | PlatformFocused focused => (w{{ ws_focused := focused }}, [WinSetFocused focused])
  | PlatformResized size => then_redraw (w{{ ws_size := size }}, [RenResizeSurface size])
  end.

Definition route_runtime_effect (context : HostEffectContext) (effect : RuntimeEffectKind) : WindowEffect :=
  match effect with
  | TransportWrite bytes => RtWriteTransport context bytes
  | HostStream bytes => RtObserveHostStream context bytes
  | VisibleOutput bytes => RtWriteSessionLog context bytes
  | ModeChange change => RtApplyModeChange context change
  | Bell count => RenBell context count
  | ClipboardWrite selection contents => ClipWrite (Some context) selection contents
  | ClipboardRead selection => ClipRead context selection
  | Notification title body => NotifyShow context title body
  | Diagnostic message => WinRuntimeDiagnostic context message
  end.

Definition route_effect (pane : PaneToken) (revision : Z) (effect : RuntimeEffect) : WindowEffect :=
  route_runtime_effect (mkContext pane revision (effect_sequence effect)) (effect_kind effect).

Definition apply_value {A} (change : option (MetadataChange A)) (target : option A) : option A :=
  match change with
  | Some (MetadataSet value) => Some value
  | Some MetadataClear => None
  | None => target
  end.

Definition apply_user_var (vars : gmap rstring rstring) (change : UserVarDelta) : gmap rstring rstring :=
  match var_value change with
  | MetadataSet value => <[var_name change := value]> vars
  | MetadataClear => delete (var_name change) vars
  end.

Definition apply_metadata (metadata : PaneMetadataDelta) (pane : PaneState) : PaneState :=
  pane{{ ps_title := apply_value (md_title metadata) (ps_title pane);
         ps_working_directory := apply_value (md_working_directory metadata) (ps_working_directory pane);
         ps_badge_format := apply_value (md_badge_format metadata) (ps_badge_format pane);
         ps_progress := match md_progress metadata with
                        | Some (MetadataSet progress) => progress
                        | Some MetadataClear => ProgressNone
                        | None => ps_progress pane
                        end;
         ps_user_vars := foldl apply_user_var (ps_user_vars pane) (md_user_vars metadata) }}.

(** The pane after an accepted batch. *)
Definition accept_batch (batch : RuntimeBatch TerminalStateSummary) (sequence : EffectSequenceCursor)
    (pane : PaneState) : PaneState :=
  let pane := pane{{ ps_effect_sequence := sequence; ps_revision := Some (batch_revision batch);
                     ps_restarting := false }} in
  let pane := apply_metadata (batch_metadata batch) pane in
  match batch_snapshot batch with
  | Some snapshot => pane{{ ps_snapshot := Some snapshot }}
  | None => pane
  end.

Definition stale_batch (batch : RuntimeBatch TerminalStateSummary) (pane : PaneState) : bool :=
  bool_decide (ps_token pane ≠ batch_pane batch) ||
  match ps_revision pane with Some revision => batch_revision batch <=? revision | None => false end.

Definition reduce_runtime_batch (w : WindowState) (batch : RuntimeBatch TerminalStateSummary) : Reduction :=
  let pane_id := token_pane (batch_pane batch) in
  match ws_panes w !! pane_id with
  | None => (w, [])
  | Some pane =>
      if stale_batch batch pane then (w, [])
      else if is_none (batch_snapshot batch) && negb (bool_decide (length (batch_damage batch) = 0%nat))
      then (w, [WinReportDiagnostic (lit "runtime batch carried damage without a snapshot")])
      else
        match validate_batch batch (ps_effect_sequence pane) with
        | inl error => (w, [WinReportDiagnostic (sequence_error_text error)])
        | inr sequence =>
            let routed := route_effect (batch_pane batch) (batch_revision batch) <$> batch_effects batch in
            let w := w{{ ws_panes := <[pane_id := accept_batch batch sequence pane]> (ws_panes w) }} in
            match batch_snapshot batch with
            | Some snapshot =>
                then_redraw (w, routed ++ [RenApplyPane (batch_pane batch) (batch_revision batch) snapshot
                                             (batch_damage batch)])
            | None =>
                if bool_decide (batch_metadata batch = no_metadata) then (w, routed)
                else then_redraw (w, routed)
            end
        end
  end.

Definition reduce_config (w : WindowState) (diff : NativeConfigDiff) : Reduction :=
  if nd_revision diff <=? cs_revision (ws_config w) then (w, [])
  else
    let changes := diff_between (cs_effective (ws_config w)) (nd_effective diff) in
    let presentation_changed :=
      negb (is_none (diff_font changes)) || negb (is_none (diff_window changes))
      || negb (is_none (diff_render changes)) || bool_decide (cs_theme (ws_config w) ≠ nd_theme diff) in
    let w := w{{ ws_config := mkConfigState (nd_revision diff) (nd_effective diff) (nd_theme diff) }} in
    if presentation_changed then then_redraw (w, [RenApplyConfig (nd_revision diff) (nd_theme diff)])
    else (w, []).

Definition reduce_timer (w : WindowState) (intent : TimerIntent) : Reduction :=
  match intent with
  | TimerArm timer epoch => (w{{ ws_timers := <[timer := epoch]> (ws_timers w) }}, [])
  | TimerFired timer epoch =>
      if bool_decide (ws_timers w !! timer = Some epoch)
      then request_redraw (w{{ ws_timers := delete timer (ws_timers w) }})
      else (w, [])
  | TimerCancel timer => (w{{ ws_timers := delete timer (ws_timers w) }}, [])
  end.

(** [sort_unstable_by_key] on the pane numbers, which are distinct. *)
Definition token_le (s t : PaneToken) : Prop := PaneId_get (token_pane s) ≤ PaneId_get (token_pane t).
#[export] Instance token_le_dec s t : Decision (token_le s t).
Proof. unfold token_le. apply _. Defined.

Definition tokens_by_pane (panes : gmap PaneId PaneState) : list PaneToken :=
  merge_sort token_le ((λ p, ps_token p.2) <$> map_to_list panes).

Definition reduce_close (w : WindowState) : Reduction :=
  if ws_closing w then (w, [])
  else
    (w{{ ws_closing := true }},
     (RtBeginClose <$> tokens_by_pane (ws_panes w)) ++
     [if bool_decide (ws_panes w = ∅) then WinCloseNow else WinCloseAfterRuntimes]).

(** ** Panes *)

Definition current_token (w : WindowState) (pane : PaneId) : option PaneToken := ps_token <$> ws_panes w !! pane.

Definition reduce_lifecycle (w : WindowState) (intent : PaneLifecycleIntent) : Reduction :=
  match intent with
  | PaneOpened token =>
      let id := token_pane token in
      if match ws_panes w !! id with
         | Some pane => token_generation token <=? token_generation (ps_token pane)
         | None => false
         end
      then (w, [])
      else
        (w{{ ws_pane_order := if bool_decide (id ∈ ws_pane_order w) then ws_pane_order w
                              else ws_pane_order w ++ [id];
             ws_panes := <[id := new_pane token]> (ws_panes w);
             ws_active_pane := match ws_active_pane w with None => Some id | active => active end }}, [])
  | PaneActivated token =>
      if bool_decide (current_token w (token_pane token) ≠ Some token)
         || bool_decide (ws_active_pane w = Some (token_pane token))
      then (w, [])
      else request_redraw (w{{ ws_active_pane := Some (token_pane token) }})
  | PaneClosed token =>
      let id := token_pane token in
      if bool_decide (current_token w id = Some token)
      then
        let w := w{{ ws_panes := delete id (ws_panes w) }} in
        let '(w, effects) :=
          match position (λ pane, pane = id) (ws_pane_order w) with
          | Some index =>
              let w := w{{ ws_pane_order := delete index (ws_pane_order w) }} in
              if bool_decide (ws_active_pane w = Some id)
              then
                let w := w{{ ws_active_pane := match ws_pane_order w !! index with
                                               | Some pane => Some pane
                                               | None => last (ws_pane_order w)
                                               end }} in
                if ws_closing w then (w, []) else request_redraw w
              else (w, [])
          | None => (w, [])
          end in
        (w, effects ++ if ws_closing w && bool_decide (ws_panes w = ∅) then [WinCloseNow] else [])
      else (w, [])
  end.

Definition reduce_command (w : WindowState) (command : PaneCommand) : Reduction :=
  match command with
  | PaneSpawn => (w, [SpawnPaneEffect])
  | PaneSplit source direction =>
      match ws_panes w !! source with
      | Some pane => if ps_closing pane then (w, []) else (w, [SpawnSplitPane (ps_token pane) direction])
      | None => (w, [])
      end
  | PaneActivate id =>
      match current_token w id with
      | Some token => reduce_lifecycle w (PaneActivated token)
      | None => (w, [])
      end
  | PaneClose id =>
      match ws_panes w !! id with
      | Some pane =>
          if ps_closing pane then (w, [])
          else (w{{ ws_panes := <[id := pane{{ ps_closing := true }}]> (ws_panes w) }}, [RtBeginClose (ps_token pane)])
      | None => (w, [])
      end
  | PaneRestart id =>
      match ws_panes w !! id with
      | Some pane =>
          (w{{ ws_panes := <[id := pane{{ ps_restarting := true }}]> (ws_panes w) }}, [RtRestart (ps_token pane)])
      | None => (w, [])
      end
  end.

Definition reduce_commands (w : WindowState) (intent : CommandIntent) : Reduction :=
  match intent with
  | CmdOpenUri uri => (w, [UriOpen uri])
  | CmdCopy contents => (w, [ClipWrite None None contents])
  | CmdPaste pane bytes =>
      match ws_panes w !! pane with
      | Some pane => (w, [RtSubmitInput (ps_token pane) bytes])
      | None => (w, [])
      end
  | CmdPane command => reduce_command w command
  | CmdSpawnWindow => (w, [SpawnWindow])
  | CmdSetTitle title => (w, [WinSetTitle title])
  | CmdSave => (w, [PersistSave])
  end.

Definition reduce (w : WindowState) (intent : WindowIntent) : Reduction :=
  match intent with
  | IntentPlatform intent => reduce_platform w intent
  | IntentCommand intent => reduce_commands w intent
  | IntentRuntimeBatch batch => reduce_runtime_batch w batch
  | IntentConfig diff => reduce_config w diff
  | IntentTimer intent => reduce_timer w intent
  | IntentPaneLifecycle intent => reduce_lifecycle w intent
  | IntentRedrawRequested =>
      if ws_redraw_pending w then (w{{ ws_redraw_pending := false }}, [RenPresent]) else (w, [])
  | IntentCloseRequested => reduce_close w
  end.
