(* ===== verification/HostDrain.v ===== *)
(** From drains of a pane to intents of its window
    ([rssh-app/src/runtime_composition.rs], [RuntimePorts::drain_runtime]):
    effects wait by revision until a frame that is at least as new arrives;
    then every waiting revision becomes a batch for the reducer, the oldest
    first. A [BTreeMap] is an association list in the order of its keys. *)
From coqutil Require Import Datatypes.RecordSetters.
From S2P Require Import Prelude Text Launch Grid Screen RuntimeApi Publication Config Window.
Import DoubleBraceUpdate.

Local Open Scope Z_scope.

Section drain.
  Context {S : Type}.

Record DrainBatch := mkDrainBatch {
  db_frame : option (PresentationFrame S);
  db_effects : list RuntimeEffect;
}.

Definition empty_batch : DrainBatch := mkDrainBatch None [].

Record PendingFrame := mkPendingFrame {
  pf_terminal : S;
  pf_metadata : PaneMetadataDelta;
  pf_metrics : RuntimeBatchMetrics;
  pf_full_repaint : bool;
}.

(** [entry(revision).or_insert_with(empty)], then [f] on the entry. *)
Fixpoint update_entry (revision : Z) (f : DrainBatch → DrainBatch) (batches : list (Z * DrainBatch)) :
    list (Z * DrainBatch) :=
  match batches with
  | [] => [(revision, f empty_batch)]
  | (r, batch) :: rest =>
      if revision <? r then (revision, f empty_batch) :: batches
      else if revision =? r then (r, f batch) :: rest
      else (r, batch) :: update_entry revision f rest
  end.

Definition push_effect (effect : RuntimeEffect) (batch : DrainBatch) : DrainBatch :=
  mkDrainBatch (db_frame batch) (db_effects batch ++ [effect]).
Definition put_frame (frame : PresentationFrame S) (batch : DrainBatch) : DrainBatch :=
  mkDrainBatch (Some frame) (db_effects batch).

Definition hold_effects (effects : list PublishedEffect) (batches : list (Z * DrainBatch)) :
    list (Z * DrainBatch) :=
  foldl (λ batches e, update_entry (published_revision e) (push_effect (published_effect e)) batches)
    batches effects.

(** The keys up to the revision of the frame ([take_while]), and the rest. *)
Fixpoint split_ready (revision : Z) (batches : list (Z * DrainBatch)) :
    list (Z * DrainBatch) * list (Z * DrainBatch) :=
  match batches with
  | [] => ([], [])
  | (r, batch) :: rest =>
      if r <=? revision
      then let '(ready, later) := split_ready revision rest in ((r, batch) :: ready, later)
      else ([], batches)
  end.

Definition runtime_batch (pane : PaneToken) (entry : Z * DrainBatch) : RuntimeBatch TerminalStateSummary :=
  match db_frame entry.2 with
  | Some frame =>
      mkBatch pane entry.1 (Some (frame_state frame)) (frame_damage frame) (frame_metadata frame)
        (db_effects entry.2) (frame_metrics frame)
  | None => mkBatch pane entry.1 None [] no_metadata (db_effects entry.2) no_metrics
  end.

Definition pending_frame (entry : Z * DrainBatch) : option (Z * PendingFrame) :=
  (λ frame, (entry.1, mkPendingFrame (frame_snapshot frame) (frame_metadata frame) (frame_metrics frame)
                        (frame_full_repaint frame))) <$> db_frame entry.2.

(** The waiting effects and frames of one pane. *)
Record PanePorts := mkPorts {
  pending_runtime_batches : list (Z * DrainBatch);
  pending_frames : gmap Z PendingFrame;
}.

Definition no_pending : PanePorts := mkPorts [] ∅.

Definition drain_runtime (pane : PaneToken) (drain : PaneDrain S) (ports : PanePorts) :
    list WindowIntent * PanePorts :=
  let batches := hold_effects (drain_effects drain) (pending_runtime_batches ports) in
  let '(ready, later) :=
    match drain_frame drain with
    | Some frame =>
        split_ready (frame_revision frame) (update_entry (frame_revision frame) (put_frame frame) batches)
    | None => ([], batches)
    end in
  ((λ entry, IntentRuntimeBatch (runtime_batch pane entry)) <$> ready,
   mkPorts later (foldl (λ m p, <[p.1 := p.2]> m) (pending_frames ports) (omap pending_frame ready))).

(** The reducer over a list of intents. *)
Definition reduce_all (w : WindowState) (intents : list WindowIntent) : Reduction :=
  foldl (λ r intent, let '(w, effects) := reduce r.1 intent in (w, r.2 ++ effects)) (w, []) intents.

End drain.

Arguments DrainBatch S : clear implicits.
Arguments PendingFrame S : clear implicits.
Arguments PanePorts S : clear implicits.
