(* ===== verification/Pipeline.v ===== *)
(** From the pane worker to the window, turn after turn: publications and
    drains that do not overlap. Every effect a worker publishes is routed by
    the window's reducer once, in order, before the frame that belongs to a
    later revision, and frames that were coalesced leave the pane as if each
    had been shown. *)
From coqutil Require Import Datatypes.RecordSetters.
From S2P Require Import Prelude Text Launch Grid Screen Mailbox RuntimeApi Publication PublicationSystem.
From S2P Require Import Config Window HostDrain.
Import DoubleBraceUpdate.

Local Open Scope Z_scope.

(** ** Metadata *)

(** The last change of a variable in a list of changes. *)
Definition last_change (name : rstring) (l : list UserVarDelta) : option (MetadataChange rstring) :=
  var_value <$> last (filter (λ change, var_name change = name) l).

Lemma user_vars_lookup vars l name :
  foldl apply_user_var vars l !! name =
  match last_change name l with
  | Some (MetadataSet value) => Some value
  | Some MetadataClear => None
  | None => vars !! name
  end.
Proof.
  unfold last_change. induction l as [|change l IH] using rev_ind; [done|].
  rewrite foldl_app, filter_app. simpl. rewrite filter_cons, filter_nil. unfold apply_user_var.
  case_decide as Hn; [|rewrite app_nil_r, <-IH; destruct (var_value change); by simplify_map_eq].
  rewrite last_snoc. simpl. subst. destruct (var_value change); by simplify_map_eq.
Qed.

(** Merged user variables have the effect of both changes in order. *)
Lemma user_vars_merge vars (current replaced : list UserVarDelta) :
  foldl apply_user_var vars
    (filter (λ change, var_name change ∉ var_name <$> current) replaced ++ current) =
  foldl apply_user_var (foldl apply_user_var vars replaced) current.
Proof.
  apply map_eq. intros name. rewrite !user_vars_lookup. unfold last_change. rewrite filter_app.
  destruct (decide (name ∈ var_name <$> current)) as [Hin|Hout].
  - assert (is_Some (last (filter (λ change, var_name change = name) current))) as [c Hc].
    { apply last_is_Some. intros Hn. apply list_elem_of_fmap in Hin as (change & -> & Hin).
      eapply (not_elem_of_nil change). rewrite <-Hn. by apply list_elem_of_filter. }
    rewrite last_app, Hc. done.
  - assert (filter (λ change, var_name change = name) current = []) as ->.
    { apply elem_of_nil_inv. intros c [<- Hc]%list_elem_of_filter. by apply Hout, list_elem_of_fmap_2. }
    rewrite app_nil_r, list_filter_filter_l by (by intros c <-). done.
Qed.

Lemma merge_metadata_apply current replaced pane :
  apply_metadata (merge_metadata current replaced) pane =
  apply_metadata current (apply_metadata replaced pane).
Proof.
  unfold apply_metadata, merge_metadata. cbn. rewrite user_vars_merge.
  destruct (md_title current) as [[]|], (md_working_directory current) as [[]|],
    (md_badge_format current) as [[]|], (md_progress current) as [[]|]; done.
Qed.

(** ** Frames *)

Section frames.
  Context {S : Type}.
  Local Abbreviation Frame := (PresentationFrame S).

(** The pane after a frame was shown. *)
Definition show_frame (pane : PaneState) (frame : Frame) : PaneState :=
  (apply_metadata (frame_metadata frame) pane){{ ps_revision := Some (frame_revision frame);
     ps_restarting := false; ps_snapshot := Some (frame_state frame) }}.

Lemma show_coalesced pane (f g : Frame) :
  show_frame pane (coalesce_replaced g f) = show_frame (show_frame pane f) g.
Proof.
  unfold show_frame. cbn -[merge_metadata apply_metadata]. rewrite merge_metadata_apply.
  unfold apply_metadata. done.
Qed.

Lemma show_coalesced_from pane (f : Frame) l :
  show_frame pane (coalesced_from f l) = foldl show_frame (show_frame pane f) l.
Proof.
  revert f. induction l as [|g l IH]; intros f; [done|]. simpl. by rewrite IH, show_coalesced.
Qed.

Lemma coalesced_from_revision (f : Frame) l :
  frame_revision (coalesced_from f l) = frame_revision (default f (last l)).
Proof.
  revert f. induction l as [|g l IH]; intros f; [done|]. simpl. rewrite IH. destruct l as [|h l]; [done|].
  rewrite last_cons_cons. destruct (last (h :: l)) eqn:E; [done|]. by apply last_None in E.
Qed.

End frames.

(** ** Waiting effects *)

Section held.
  Context {S : Type}.
  Local Abbreviation Frame := (PresentationFrame S).
  Local Abbreviation Entry := (Z * DrainBatch S)%type.
  Implicit Types (l : list Entry) (e : PublishedEffect).

(** The effects of the entries with their revisions, in order. *)
Definition flat l : list (Z * RuntimeEffect) := concat ((λ entry, pair entry.1 <$> db_effects entry.2) <$> l).
Definition tagged e : Z * RuntimeEffect := (published_revision e, published_effect e).

Lemma flat_cons r batch l : flat ((r, batch) :: l) = (pair r <$> db_effects batch) ++ flat l.
Proof. done. Qed.

(** Entries without a frame, their revisions increasing and above [lo]. *)
Fixpoint ascending (lo : Z) l : Prop :=
  match l with
  | [] => True
  | (r, batch) :: l => lo < r ∧ db_frame batch = None ∧ ascending r l
  end.

(** Revisions that do not decrease and are above [lo]. *)
Fixpoint monotone (lo : Z) (effects : list PublishedEffect) : Prop :=
  match effects with
  | [] => True
  | e :: effects => lo ≤ published_revision e ∧ monotone (published_revision e) effects
  end.

Lemma monotone_weaken lo lo' effects : lo' ≤ lo → monotone lo effects → monotone lo' effects.
Proof. destruct effects as [|e effects]; [done|]. intros ? [? ?]. split; [lia|done]. Qed.

Lemma monotone_app lo (l1 l2 : list PublishedEffect) hi :
  lo ≤ hi → monotone lo l1 → (∀ e, e ∈ l1 → published_revision e ≤ hi) → monotone hi l2 → monotone lo (l1 ++ l2).
Proof.
  revert lo. induction l1 as [|e l1 IH]; intros lo Hlo Hm Hb H2; [by eapply monotone_weaken|].
  destruct Hm as [He Hm]. split; [done|]. apply IH; [apply Hb; left|done|intros e' ?; apply Hb; by right|done].
Qed.

Lemma monotone_split lo (l1 l2 : list PublishedEffect) :
  monotone lo (l1 ++ l2) →
  ∃ hi, monotone lo l1 ∧ (lo ≤ hi ∧ ∀ e, e ∈ l1 → published_revision e ≤ hi) ∧ monotone hi l2.
Proof.
  revert lo. induction l1 as [|e l1 IH]; intros lo Hm.
  - exists lo. split_and!; [done|lia|by intros e ?%elem_of_nil|done].
  - destruct Hm as [He Hm]. destruct (IH _ Hm) as (hi & H1 & [H2 H3] & H4).
    exists hi. split; [by split|]. split; [|done]. split; [lia|]. intros x [->|Hx]%elem_of_cons; [done|by apply H3].
Qed.

Lemma monotone_above lo effects e : monotone lo effects → e ∈ effects → lo ≤ published_revision e.
Proof.
  revert lo. induction effects as [|x effects IH]; intros lo Hm Hin; [by apply elem_of_nil in Hin|].
  destruct Hm as [Hx Hm]. apply elem_of_cons in Hin as [->|Hin]; [done|]. specialize (IH _ Hm Hin). lia.
Qed.

(** The largest revision among the entries. *)
Definition top (lo : Z) l : Z := default lo (last l.*1).

Lemma top_cons lo r batch l : top lo ((r, batch) :: l) = top r l.
Proof.
  unfold top. rewrite fmap_cons. cbn [fst]. destruct (l.*1) as [|x xs] eqn:E; [done|].
  rewrite last_cons_cons. destruct (last (x :: xs)) eqn:El; [done|]. by apply last_None in El.
Qed.

Lemma ascending_top lo l : ascending lo l → lo ≤ top lo l.
Proof.
  revert lo. induction l as [|[r batch] l IH]; intros lo Ha; [done|]. rewrite top_cons.
  destruct Ha as (Hr & _ & Ha). specialize (IH _ Ha). lia.
Qed.

(** Updating at a revision that is not below the largest one changes or adds
    the last entry. *)
Lemma update_entry_last lo l r f :
  ascending lo l → lo < r → top lo l ≤ r →
  ∃ l1 effects, ascending lo l1 ∧ flat l1 ++ (pair r <$> effects) = flat l ∧ top lo l1 < r ∧
    update_entry r f l = l1 ++ [(r, f (mkDrainBatch None effects))].
Proof.
  revert lo. induction l as [|[r' batch] l IH]; intros lo Ha Hlo Ht; [by exists [], []|].
  rewrite top_cons in Ht. destruct Ha as (Hr & Hb & Ha). pose proof (ascending_top _ _ Ha) as Hr'. simpl.
  destruct (Z.ltb_spec r r'); [lia|]. destruct (Z.eqb_spec r r') as [->|Hne].
  - destruct l as [|[r2 b2] l].
    + exists [], (db_effects batch). destruct batch as [fr es]. simpl in Hb. subst fr.
      unfold flat. simpl. rewrite app_nil_r. done.
    + destruct Ha as (? & _ & Ha). rewrite top_cons in Ht. pose proof (ascending_top _ _ Ha). lia.
  - destruct (IH r' Ha) as (l1 & es & H1 & H2 & H3 & H4); [lia|done|].
    exists ((r', batch) :: l1), es. rewrite H4. split_and!; [done| |by rewrite top_cons|done].
    by rewrite !flat_cons, <-H2, app_assoc.
Qed.

Lemma ascending_snoc lo l r effects :
  ascending lo l → top lo l < r → lo < r → ascending lo (l ++ [(r, mkDrainBatch None effects)]).
Proof.
  revert lo. induction l as [|[r' batch] l IH]; intros lo Ha Ht Hlo; [done|].
  rewrite top_cons in Ht. destruct Ha as (? & ? & Ha). split_and!; [done..|]. apply IH; [done..|].
  pose proof (ascending_top _ _ Ha). lia.
Qed.

Lemma top_snoc lo l r batch : top lo (l ++ [(r, batch)]) = r.
Proof. unfold top. rewrite fmap_app. simpl. by rewrite last_snoc. Qed.

Lemma flat_app l1 l2 : flat (l1 ++ l2) = flat l1 ++ flat l2.
Proof. unfold flat. by rewrite fmap_app, concat_app. Qed.

(** Holding further effects: the entries stay in order and hold exactly the
    effects. *)
Lemma hold_effects_spec lo l effects :
  ascending lo l → monotone (top lo l) effects → (∀ e, e ∈ effects → lo < published_revision e) →
  ascending lo (hold_effects effects l) ∧ flat (hold_effects effects l) = flat l ++ (tagged <$> effects) ∧
  ∀ hi, top lo l ≤ hi → (∀ e, e ∈ effects → published_revision e ≤ hi) → top lo (hold_effects effects l) ≤ hi.
Proof.
  revert l. induction effects as [|e effects IH]; intros l Ha Hm Hlo; [by rewrite app_nil_r|].
  destruct Hm as [He Hm].
  change (hold_effects (e :: effects) l)
    with (hold_effects effects (update_entry (published_revision e) (push_effect (published_effect e)) l)).
  destruct (update_entry_last lo l (published_revision e) (push_effect (published_effect e)))
    as (l1 & es & H1 & H2 & H3 & H4); [done|apply Hlo; left|done|]. rewrite H4. unfold push_effect. cbn [db_frame db_effects].
  destruct (IH (l1 ++ [(published_revision e, mkDrainBatch None (es ++ [published_effect e]))])) as (A & B & C).
  - apply ascending_snoc; [done..|]. apply Hlo; left.
  - by rewrite top_snoc.
  - intros x Hx. apply Hlo. by right.
  - split_and!; [done| |].
    + rewrite B, flat_app, flat_cons, <-H2. cbn [db_effects]. rewrite fmap_app. simpl. by rewrite app_nil_r, <-!app_assoc.
    + intros hi Hhi Hb. apply C; [rewrite top_snoc; apply Hb; left|]. intros x Hx. apply Hb. by right.
Qed.

(** Everything up to the frame is ready. *)
Lemma split_ready_all lo l1 r batch :
  ascending lo l1 → top lo l1 < r → split_ready r (l1 ++ [(r, batch)]) = (l1 ++ [(r, batch)], []).
Proof.
  revert lo. induction l1 as [|[r' b'] l1 IH]; intros lo Ha Ht; simpl.
  - by rewrite Z.leb_refl.
  - rewrite top_cons in Ht. destruct Ha as (? & _ & Ha). pose proof (ascending_top _ _ Ha).
    destruct (Z.leb_spec r' r); [|lia]. by rewrite (IH r').
Qed.

(** ** Batches in the reducer *)

Context (token : PaneToken).

Definition route_tagged (p : Z * RuntimeEffect) : WindowEffect := route_effect token p.1 p.2.
Definition intents_of l : list WindowIntent := (λ entry, IntentRuntimeBatch (runtime_batch token entry)) <$> l.

Lemma reduce_all_app w (l1 l2 : list WindowIntent) :
  reduce_all w (l1 ++ l2) =
  let '(w', effects) := reduce_all w l1 in
  let '(w'', effects') := reduce_all w' l2 in (w'', effects ++ effects').
Proof.
  unfold reduce_all. rewrite foldl_app. destruct (foldl _ (w, []) l1) as [w' effects] eqn:E.
  clear E l1 w. revert w' effects. induction l2 as [|i l2 IH]; intros w effects; simpl; [by rewrite app_nil_r|].
  destruct (reduce w i) as [w1 e1] eqn:Ei. rewrite IH. rewrite (IH w1 e1).
  destruct (foldl _ (w1, []) l2) as [w2 e2]. by rewrite app_assoc.
Qed.

(** The pane after batches without frames. *)
Definition after_effects (pane : PaneState) (revision : option Z) (n : Z) : PaneState :=
  pane{{ ps_revision := revision; ps_effect_sequence := Some n; ps_restarting := false }}.

Definition with_pane (pane : PaneState) (w : WindowState) : WindowState :=
  w{{ ws_panes := <[token_pane token := pane]> (ws_panes w) }}.

Lemma reduce_effects_only w pane r (batch : DrainBatch S) n :
  ws_panes w !! token_pane token = Some pane → ps_token pane = token →
  default 0 (ps_revision pane) < r → db_frame batch = None →
  ps_effect_sequence pane = Some n → n + Z.of_nat (length (db_effects batch)) ≤ u64_max →
  numbered_from n (db_effects batch) →
  reduce w (IntentRuntimeBatch (runtime_batch token (r, batch))) =
  (with_pane (after_effects pane (Some r) (n + Z.of_nat (length (db_effects batch)))) w,
   route_tagged <$> (pair r <$> db_effects batch)).
Proof.
  intros Hp Ht Hr Hf Hn Hb Hnum. destruct batch as [fr es]. simpl in Hf, Hb, Hnum. subst fr.
  unfold reduce, reduce_runtime_batch, runtime_batch. cbn. rewrite Hp. unfold stale_batch. cbn.
  rewrite Ht, bool_decide_eq_false_2 by (by intros []). cbn.
  assert (match ps_revision pane with Some revision => r <=? revision | None => false end = false) as ->.
  { destruct (ps_revision pane) as [r'|]; [|done]. simpl in Hr. lia. }
  unfold validate_batch. cbn. rewrite Hn, validate_numbered by done. cbn.
  rewrite bool_decide_eq_true_2 by done. unfold with_pane, accept_batch, after_effects. cbn.
  f_equal. by rewrite <-list_fmap_compose.
Qed.

(** The effects of a log that carry out effects of the pane. *)
Definition is_routed (effect : WindowEffect) : bool :=
  match effect with
  | RtWriteTransport _ _ | RtObserveHostStream _ _ | RtWriteSessionLog _ _ | RtApplyModeChange _ _
  | WinRuntimeDiagnostic _ _ | RenBell _ _ | ClipWrite (Some _) _ _ | ClipRead _ _ | NotifyShow _ _ _ => true
  | _ => false
  end.
Definition routed (log : list WindowEffect) : list WindowEffect := filter (λ effect, is_routed effect) log.

(** No problem was reported. *)
Definition is_report (effect : WindowEffect) : bool :=
  match effect with WinReportDiagnostic _ => true | _ => false end.
Definition no_reports (log : list WindowEffect) : Prop := Forall (λ effect, is_report effect = false) log.

Lemma route_is_routed p : is_routed (route_tagged p) = true ∧ is_report (route_tagged p) = false.
Proof. destruct p as [r [n []]]; done. Qed.

Lemma routed_app (l1 l2 : list WindowEffect) : routed (l1 ++ l2) = routed l1 ++ routed l2.
Proof. apply filter_app. Qed.

Lemma routed_all (l : list (Z * RuntimeEffect)) :
  routed (route_tagged <$> l) = route_tagged <$> l ∧ no_reports (route_tagged <$> l).
Proof.
  induction l as [|p l [IH1 IH2]]; [by split; [|constructor]|]. destruct (route_is_routed p) as [H1 H2].
  unfold routed in *. rewrite fmap_cons, filter_cons. split; [|by constructor].
  rewrite decide_True by (by rewrite H1). by rewrite IH1.
Qed.

(** What a log adds for released effects [l]. *)
Definition logs (l : list (Z * RuntimeEffect)) (log : list WindowEffect) : Prop :=
  routed log = route_tagged <$> l ∧ no_reports log.

Lemma logs_app (l1 l2 : list (Z * RuntimeEffect)) log1 log2 : logs l1 log1 → logs l2 log2 → logs (l1 ++ l2) (log1 ++ log2).
Proof.
  intros [H1 R1] [H2 R2]. split; [by rewrite routed_app, fmap_app, H1, H2|]. by apply Forall_app.
Qed.

Lemma logs_routes (l : list (Z * RuntimeEffect)) : logs l (route_tagged <$> l).
Proof. apply routed_all. Qed.

Lemma then_redraw_panes w log :
  ws_panes (then_redraw (w, log)).1 = ws_panes w ∧
  ∃ extra, (then_redraw (w, log)).2 = log ++ extra ∧ logs [] extra.
Proof.
  unfold then_redraw, request_redraw. cbn [fst snd]. destruct (ws_redraw_pending w); cbn; split; try done.
  - exists []. split; [done|]. by split; [|constructor].
  - exists [WinRequestRedraw]. split; [done|]. split; [done|]. by constructor.
Qed.

(** The batch with the frame. *)
Lemma reduce_with_frame w pane r (frame : Frame) effects n :
  ws_panes w !! token_pane token = Some pane → ps_token pane = token →
  default 0 (ps_revision pane) < r → frame_revision frame = r →
  ps_effect_sequence pane = Some n → n + Z.of_nat (length effects) ≤ u64_max → numbered_from n effects →
  ∃ w' log, reduce w (IntentRuntimeBatch (runtime_batch token (r, mkDrainBatch (Some frame) effects))) = (w', log) ∧
    ws_panes w' = <[token_pane token :=
      (show_frame pane frame){{ ps_effect_sequence := Some (n + Z.of_nat (length effects)) }}]> (ws_panes w) ∧
    logs (pair r <$> effects) log.
Proof.
  intros Hp Ht Hr Hf Hn Hb Hnum.
  unfold reduce, reduce_runtime_batch, runtime_batch. cbn. rewrite Hp. unfold stale_batch. cbn.
  rewrite Ht, bool_decide_eq_false_2 by (by intros []). cbn.
  assert (match ps_revision pane with Some revision => r <=? revision | None => false end = false) as ->.
  { destruct (ps_revision pane) as [r'|]; [|done]. simpl in Hr. lia. }
  unfold validate_batch. cbn. rewrite Hn, validate_numbered by done.
  match goal with |- context [then_redraw (?a, ?b)] =>
    destruct (then_redraw_panes a b) as [H1 (extra & H2 & H3)]; destruct (then_redraw (a, b)) as [w' log] end.
  cbn [fst snd] in H1, H2. exists w', log. split; [done|]. split.
  - rewrite H1. cbn. unfold accept_batch, show_frame, apply_metadata. cbn. by rewrite Hf.
  - rewrite H2. rewrite <-(app_nil_r (pair r <$> effects)). apply logs_app; [|done].
    rewrite <-(app_nil_r (pair r <$> effects)). apply logs_app; [|by split; [|constructor]].
    assert (route_effect token r <$> effects = route_tagged <$> (pair r <$> effects)) as ->
      by (by rewrite <-list_fmap_compose). apply logs_routes.
Qed.

Lemma with_pane_lookup pane w : ws_panes (with_pane pane w) !! token_pane token = Some pane.
Proof. apply lookup_insert_eq. Qed.

Lemma show_after_effects pane (frame : Frame) r n m :
  (show_frame (after_effects pane r n) frame){{ ps_effect_sequence := Some m }} =
  (show_frame pane frame){{ ps_effect_sequence := Some m }}.
Proof. done. Qed.

(** All ready batches: those without a frame, then the one with it. *)
Lemma reduce_released lo w pane l r (frame : Frame) effects n :
  ws_panes w !! token_pane token = Some pane → ps_token pane = token →
  default 0 (ps_revision pane) ≤ lo → lo < r → ascending lo l → top lo l < r → frame_revision frame = r →
  ps_effect_sequence pane = Some n →
  let all := flat l ++ (pair r <$> effects) in
  n + Z.of_nat (length all) ≤ u64_max → numbered_from n (all.*2) →
  ∃ w' log, reduce_all w (intents_of (l ++ [(r, mkDrainBatch (Some frame) effects)])) = (w', log) ∧
    ws_panes w' = <[token_pane token :=
      (show_frame pane frame){{ ps_effect_sequence := Some (n + Z.of_nat (length all)) }}]> (ws_panes w) ∧
    logs all log.
Proof.
  revert lo w pane n. induction l as [|[r1 b1] l IH]; intros lo w pane n Hp Ht Hlo Hlr Ha Htop Hf Hn all Hlen Hnum.
  - unfold all in *. cbn [flat fmap list_fmap concat app] in *.
    rewrite length_fmap in Hlen. rewrite <-list_fmap_compose, list_fmap_id in Hnum.
    destruct (reduce_with_frame w pane r frame effects n) as (w' & log & H1 & H2 & H3); [done..|lia|done|done|done|done|].
    exists w', log. rewrite length_fmap. split; [|done].
    change (reduce_all w (intents_of [(r, mkDrainBatch (Some frame) effects)]))
      with (let '(w1, e1) := reduce w (IntentRuntimeBatch (runtime_batch token (r, mkDrainBatch (Some frame) effects)))
            in (w1, [] ++ e1)).
    by rewrite H1.
  - destruct Ha as (Hr1 & Hb1 & Ha). rewrite top_cons in Htop. pose proof (ascending_top _ _ Ha).
    unfold all in *. rewrite flat_cons in *. rewrite <-app_assoc in *.
    rewrite fmap_app, numbered_app in Hnum. rewrite <-list_fmap_compose, list_fmap_id in Hnum.
    rewrite length_app, length_fmap in Hlen. destruct Hnum as [Hn1 Hn2].
    destruct (IH r1 (with_pane (after_effects pane (Some r1) (n + Z.of_nat (length (db_effects b1)))) w)
                (after_effects pane (Some r1) (n + Z.of_nat (length (db_effects b1))))
                (n + Z.of_nat (length (db_effects b1)))) as (w' & log & H1 & H2 & H3).
    + apply with_pane_lookup.
    + done.
    + done.
    + lia.
    + done.
    + done.
    + done.
    + done.
    + lia.
    + done.
    + exists w', ((route_tagged <$> (pair r1 <$> db_effects b1)) ++ log).
      change (intents_of (((r1, b1) :: l) ++ [(r, mkDrainBatch (Some frame) effects)]))
        with ([IntentRuntimeBatch (runtime_batch token (r1, b1))] ++ intents_of (l ++ [(r, mkDrainBatch (Some frame) effects)])).
      rewrite reduce_all_app. unfold reduce_all at 1. cbn [foldl fst snd].
      rewrite (reduce_effects_only w pane r1 b1 n); [|done|done|lia|done|done|lia|done].
      rewrite H1. split_and!; [done| |].
      * rewrite H2, show_after_effects, (length_app (pair r1 <$> db_effects b1)), length_fmap, Nat2Z.inj_add, Z.add_assoc.
        apply insert_insert_eq.
      * apply logs_app; [|done]. apply logs_routes.
Qed.

End held.

Section run.
  Context `{Allocation} {S : Type} (limits : MailboxLimits) (token : PaneToken).
  Local Abbreviation Frame := (PresentationFrame S).

Inductive PipeEvent :=
| EvPublish (frame : Frame) (effects : list RuntimeEffect)
| EvDrain (max : nat).

Record Pipe := mkPipe {
  pipe_publication : PanePublication S;
  pipe_ports : PanePorts S;
  pipe_window : WindowState;
  pipe_log : list WindowEffect;
}.

Definition init_pipe (w : WindowState) : Pipe := mkPipe (new_publication (S:=S)) no_pending w [].

(** A publication whose host is alive and which finds room for its effects;
    a turn of the host. *)
Definition pipe_step (p : Pipe) (event : PipeEvent) : option Pipe :=
  match event with
  | EvPublish frame effects =>
      match publish_alone limits true frame (mkPublished token (frame_revision frame) <$> effects)
              (pipe_publication p) with
      | (PublishReturned true _, publication) =>
          Some (mkPipe publication (pipe_ports p) (pipe_window p) (pipe_log p))
      | _ => None
      end
  | EvDrain max =>
      let '(d, publication) := drain max (pipe_publication p) in
      let '(intents, ports) := drain_runtime token d (pipe_ports p) in
      let '(w, log) := reduce_all (pipe_window p) intents in
      Some (mkPipe publication ports w (pipe_log p ++ log))
  end.

Definition run_pipe (p : Pipe) (events : list PipeEvent) : option Pipe :=
  foldl (λ p event, p ← p; pipe_step p event) (Some p) events.

(** What was published. *)
Definition frames_of (events : list PipeEvent) : list Frame :=
  omap (λ event, match event with EvPublish frame _ => Some frame | EvDrain _ => None end) events.
Definition effects_of (events : list PipeEvent) : list (Z * RuntimeEffect) :=
  concat ((λ event, match event with
                    | EvPublish frame effects => pair (frame_revision frame) <$> effects
                    | EvDrain _ => []
                    end) <$> events).

(** Revisions increase from above [lo]. *)
Fixpoint revisions_increase (lo : Z) (frames : list Frame) : Prop :=
  match frames with
  | [] => True
  | frame :: frames => lo < frame_revision frame ∧ revisions_increase (frame_revision frame) frames
  end.

(** The stream a worker produces: increasing revisions, and effects numbered
    from 1 that stay within their counter. *)
Definition well_numbered (events : list PipeEvent) : Prop :=
  revisions_increase 0 (frames_of events) ∧ numbered_from 1 (effects_of events).*2 ∧
  1 + Z.of_nat (length (effects_of events)) ≤ u64_max.

(** ** The parts *)

Definition waiting (p : PanePublication S) : list PublishedEffect := value <$> queue (pub_effects p).

Lemma publish_effects_spec woken frame effects (p p' : PanePublication S) woken' :
  publish_effects limits true woken (Some frame) effects p = (PublishReturned true woken', p') →
  waiting p' = waiting p ++ effects ∧
  latest (pub_latest p') =
    Some (match latest (pub_latest p) with Some g => coalesce_replaced frame g | None => frame end).
Proof.
  revert p. induction effects as [|e effects IH]; intros p; cbn [publish_effects].
  - unfold publish_frame. destruct (store_frame frame _) as [action q] eqn:Hs. apply store_frame_spec in Hs as (Hl & He & _).
    rewrite app_nil_r. unfold waiting.
    destruct action; cbn [wake_if_needed]; intros [= _ <-]; by rewrite He, Hl.
  - destruct (try_send limits e (pub_effects p)) as [[r m] ns] eqn:Ht. pose proof (try_send_queue _ _ _ _ _ _ Ht) as Hq.
    destruct r as [[]|[]]; try done.
    + destruct (publish_frame true frame _) as [[] ?]; done.
    + intros (H1 & H2)%IH. split; [|done]. rewrite H1. unfold waiting. cbn. rewrite Hq. cbn. by rewrite <-app_assoc.
Qed.

Lemma receive_effects_spec max received (p : PanePublication S) :
  ∃ l p', receive_effects max received p = (received ++ l, p') ∧ waiting p = l ++ waiting p' ∧
    waiting p' = drop max (waiting p) ∧ pub_latest p' = pub_latest p.
Proof.
  revert received p. induction max as [|max IH]; intros received p; cbn [receive_effects].
  - exists [], p. by rewrite app_nil_r.
  - destruct (try_recv (pub_effects p)) as [[r m] ns] eqn:Ht. pose proof (try_recv_queue _ _ _ _ Ht) as Hq.
    destruct r as [err|e].
    + exists [], (p{{ pub_effects := m }}). rewrite app_nil_r. split_and!; [done|done| |done].
      unfold try_recv, dequeue in Ht. unfold waiting. cbn.
      destruct (queue (pub_effects p)) eqn:Hn; [|done].
      destruct (accepting (pub_effects p)); simplify_eq; by rewrite Hn.
    + destruct (IH (received ++ [e]) (p{{ pub_effects := m }})) as (l & p' & H1 & H2 & H3 & H4).
      exists (e :: l), p'. unfold waiting in *. cbn in *. rewrite Hq. cbn.
      split_and!; [by rewrite H1, <-app_assoc|by rewrite H2|done|done].
Qed.

Lemma effects_queued_waiting (p : PanePublication S) : effects_queued p = bool_decide (waiting p ≠ []).
Proof.
  unfold effects_queued, waiting, queue_len. destruct (queue (pub_effects p)); [done|].
  rewrite bool_decide_eq_true_2 by done. apply Z.ltb_lt. cbn [length]. lia.
Qed.

(** A turn takes effects in order; the frame is taken when none is left. *)
Lemma drain_spec max (p : PanePublication S) :
  ∃ l d p', drain max p = (d, p') ∧ drain_effects d = l ∧ waiting p = l ++ waiting p' ∧
    waiting p' = drop max (waiting p) ∧
    (waiting p' ≠ [] ∧ drain_frame d = None ∧ latest (pub_latest p') = latest (pub_latest p) ∨
     waiting p' = [] ∧ drain_frame d = latest (pub_latest p) ∧ latest (pub_latest p') = None).
Proof.
  unfold drain. destruct (receive_effects_spec max [] p) as (l & q & -> & H2 & H3 & H4).
  rewrite effects_queued_waiting. cbn [app].
  destruct (take_frame (bool_decide (waiting q ≠ [])) q) as [frame q'] eqn:Ht.
  destruct (finish_drain _ q') as [more p'] eqn:Hf.
  apply finish_drain_spec in Hf as (He & Hl & _).
  assert (waiting p' = waiting q) as Hw.
  { apply take_frame_spec in Ht as (Ht & _). unfold waiting. by rewrite He, Ht. }
  exists l, (mkDrain frame l more), p'. rewrite Hw. split_and!; [done..|]. rewrite Hl, <-H4.
  unfold take_frame, take_latest in Ht. case_bool_decide as Hq; injection Ht as <- <-; cbn.
  - by left.
  - by right.
Qed.

(** ** The invariant *)

Definition with_cursor (n : Z) (pane : PaneState) : PaneState := pane{{ ps_effect_sequence := Some n }}.

(** The pane after the shown frames, with its cursor behind the routed
    effects. *)
Definition pane_after (shown : list Frame) (delivered : list (Z * RuntimeEffect)) : PaneState :=
  with_cursor (1 + Z.of_nat (length delivered)) (foldl show_frame (new_pane token) shown).

Definition last_revision (frames : list Frame) : Z := default 0 (frame_revision <$> last frames).

(** [delivered] was routed, [held] waits for a frame at the host and [queued]
    in the mailbox; [shown] was applied to the pane and [slot] is coalesced in
    the slot. *)
Record pipe_state (p : Pipe) (frames : list Frame) (effects : list (Z * RuntimeEffect))
    (shown slot : list Frame) (delivered : list (Z * RuntimeEffect)) : Prop := {
  ps_frames : frames = shown ++ slot;
  ps_effects : effects =
    delivered ++ flat (pending_runtime_batches (pipe_ports p)) ++ (tagged <$> waiting (pipe_publication p));
  ps_slot : latest (pub_latest (pipe_publication p)) = coalesced slot;
  ps_pane : ws_panes (pipe_window p) !! token_pane token = Some (pane_after shown delivered);
  ps_log : logs token delivered (pipe_log p);
  ps_held : ascending (last_revision shown) (pending_runtime_batches (pipe_ports p));
  ps_held_top : top (last_revision shown) (pending_runtime_batches (pipe_ports p)) ≤ last_revision frames;
  ps_queued : monotone (top (last_revision shown) (pending_runtime_batches (pipe_ports p)))
    (waiting (pipe_publication p));
  ps_queued_range : ∀ e, e ∈ waiting (pipe_publication p) →
    last_revision shown < published_revision e ≤ last_revision frames;
  ps_empty : slot = [] → pending_runtime_batches (pipe_ports p) = [] ∧ waiting (pipe_publication p) = [];
}.

Definition pipe_inv (p : Pipe) (frames : list Frame) (effects : list (Z * RuntimeEffect)) : Prop :=
  ∃ shown slot delivered, pipe_state p frames effects shown slot delivered.

Lemma last_revision_snoc frames frame : last_revision (frames ++ [frame]) = frame_revision frame.
Proof. unfold last_revision. by rewrite last_snoc. Qed.

Lemma revisions_increase_app lo frames frame :
  revisions_increase lo (frames ++ [frame]) →
  revisions_increase lo frames ∧ default lo (frame_revision <$> last frames) < frame_revision frame.
Proof.
  revert lo. induction frames as [|f frames IH]; intros lo; cbn [app revisions_increase]; [by intros []|].
  intros [H1 [H2 H3]%IH]. split; [done|]. rewrite last_cons. by destruct (last frames).
Qed.

Lemma revisions_increase_mono lo frames f :
  revisions_increase lo frames → f ∈ frames → lo < frame_revision f.
Proof.
  revert lo. induction frames as [|g frames IH]; intros lo Hr Hin; [by apply elem_of_nil in Hin|].
  destruct Hr as [H1 H2]. apply elem_of_cons in Hin as [->|Hin]; [done|]. specialize (IH _ H2 Hin). lia.
Qed.

(** Pending frames are newer than the shown ones. *)
Lemma slot_newer lo shown slot f :
  revisions_increase lo (shown ++ slot) → f ∈ slot → default lo (frame_revision <$> last shown) < frame_revision f.
Proof.
  revert lo. induction shown as [|g shown IH]; intros lo Hr Hin; [by eapply revisions_increase_mono|].
  destruct Hr as [_ Hr]. rewrite last_cons. specialize (IH _ Hr Hin). by destruct (last shown).
Qed.

Lemma shown_revision (frames : list Frame) pane :
  default 0 (ps_revision pane) = 0 →
  default 0 (ps_revision (foldl show_frame pane frames)) = last_revision frames.
Proof.
  intros Hp. destruct frames as [|f l _] using rev_ind; [done|]. rewrite foldl_app, last_revision_snoc. done.
Qed.

Lemma foldl_show_token (frames : list Frame) pane : ps_token (foldl show_frame pane frames) = ps_token pane.
Proof. revert pane. induction frames as [|f l IH]; intros pane; [done|]. simpl. by rewrite IH. Qed.

Lemma coalesced_revision (slot : list Frame) frame :
  coalesced slot = Some frame → frame_revision frame = last_revision slot.
Proof.
  destruct slot as [|f l]; [done|]. intros [= <-]. rewrite coalesced_from_revision. unfold last_revision.
  rewrite last_cons. by destruct (last l).
Qed.

Lemma last_revision_app (l1 l2 : list Frame) : l2 ≠ [] → last_revision (l1 ++ l2) = last_revision l2.
Proof. intros Hn. unfold last_revision. rewrite last_app. destruct (last l2) eqn:E; [done|]. by apply last_None in E. Qed.

Lemma init_pipe_state w :
  ws_panes w !! token_pane token = Some (new_pane token) →
  pipe_state (init_pipe w) [] [] [] [] [].
Proof.
  intros Hw. split; cbn; try done; [by split; [|constructor]|]. intros e He. by apply elem_of_nil in He.
Qed.

Lemma publish_state p p' frames effects frame es :
  revisions_increase 0 (frames ++ [frame]) →
  pipe_inv p frames effects → pipe_step p (EvPublish frame es) = Some p' →
  pipe_inv p' (frames ++ [frame]) (effects ++ (pair (frame_revision frame) <$> es)).
Proof.
  intros Hr (shown & slot & delivered & [H1 H2 H3 H4 H5 H6 H7 H8 H9 H10]) Hs.
  apply revisions_increase_app in Hr as [Hr Hlast]. change (last_revision frames < frame_revision frame) in Hlast.
  cbn [pipe_step] in Hs. destruct (publish_alone _ _ _ _ _) as [[[] woken|] pub] eqn:Hp; try done.
  apply publish_effects_spec in Hp as [Hw Hl]. injection Hs as <-.
  exists shown, (slot ++ [frame]), delivered.
  assert (∀ e, e ∈ mkPublished token (frame_revision frame) <$> es → published_revision e = frame_revision frame) as Hnew.
  { by intros e (x & -> & _)%list_elem_of_fmap. }
  pose proof (ascending_top _ _ H6) as Hat.
  split; cbn; rewrite ?last_revision_snoc; try done.
  - by rewrite H1, app_assoc.
  - rewrite Hw, H2, fmap_app, !app_assoc. f_equal. by rewrite <-list_fmap_compose.
  - by rewrite Hl, H3, coalesced_snoc.
  - lia.
  - rewrite Hw. apply (monotone_app _ _ _ (last_revision frames)); [done|done|intros e He; by apply H9|].
    clear -Hnew Hlast. induction es as [|x es IH]; [done|]. split; [cbn; lia|]. cbn.
    clear. induction es as [|y es IH]; [done|]. split; [cbn; lia|done].
  - intros e. rewrite Hw, elem_of_app. intros [He|He]; [specialize (H9 e He); lia|]. rewrite (Hnew e He). lia.
  - by destruct slot.
Qed.

(** A turn that only moves effects to the host. *)
Lemma hold_state p frames effects shown slot delivered pub received :
  pipe_state p frames effects shown slot delivered →
  waiting (pipe_publication p) = received ++ waiting pub → waiting pub ≠ [] →
  latest (pub_latest pub) = latest (pub_latest (pipe_publication p)) →
  pipe_state (mkPipe pub (mkPorts (hold_effects received (pending_runtime_batches (pipe_ports p)))
                            (pending_frames (pipe_ports p))) (pipe_window p) (pipe_log p))
    frames effects shown slot delivered.
Proof.
  intros [H1 H2 H3 H4 H5 H6 H7 H8 H9 H10] Hw Hn Hl. rewrite Hw in *. apply monotone_split in H8 as (hi & H8 & Hhi & H8').
  destruct (hold_effects_spec (last_revision shown) (pending_runtime_batches (pipe_ports p)) received) as (A & B & C);
    [done..|intros e He; apply H9, elem_of_app; by left|].
  split; cbn [pipe_publication pipe_ports pending_runtime_batches pipe_window pipe_log]; try done.
  - rewrite B, H2, fmap_app, !app_assoc. done.
  - by rewrite Hl.
  - apply C; [done|]. intros e He. apply H9, elem_of_app. by left.
  - eapply monotone_weaken; [|done]. destruct Hhi. by apply C.
  - intros e He. apply H9, elem_of_app. by right.
  - intros [? [_ ?]%app_eq_nil]%H10. done.
Qed.

Lemma show_pane_after shown slot delivered rest frame :
  coalesced slot = Some frame →
  (show_frame (pane_after shown delivered) frame)
    {{ ps_effect_sequence := Some (1 + Z.of_nat (length delivered) + Z.of_nat (length rest)) }} =
  pane_after (shown ++ slot) (delivered ++ rest).
Proof.
  destruct slot as [|f slot]; [done|]. intros [= <-]. unfold pane_after.
  rewrite show_coalesced_from, foldl_app, length_app, Nat2Z.inj_add, Z.add_assoc.
  cbn [foldl]. generalize (foldl show_frame (new_pane token) shown) as pane. intros pane.
  change (show_frame (with_cursor (1 + Z.of_nat (length delivered)) pane) f)
    with (with_cursor (1 + Z.of_nat (length delivered)) (show_frame pane f)).
  generalize (show_frame pane f) as q. induction slot as [|g slot IH]; intros q; [done|]. apply (IH (show_frame q g)).
Qed.

(** A turn that takes the frame: everything that waits is released. *)
Lemma release_state p frames effects shown slot delivered pub frame received :
  revisions_increase 0 frames → numbered_from 1 effects.*2 → 1 + Z.of_nat (length effects) ≤ u64_max →
  pipe_state p frames effects shown slot delivered →
  waiting (pipe_publication p) = received → waiting pub = [] →
  coalesced slot = Some frame → latest (pub_latest pub) = None →
  ∃ w log,
    let batches := hold_effects received (pending_runtime_batches (pipe_ports p)) in
    split_ready (frame_revision frame) (update_entry (frame_revision frame) (put_frame frame) batches) =
      (update_entry (frame_revision frame) (put_frame frame) batches, []) ∧
    reduce_all (pipe_window p) (intents_of token (update_entry (frame_revision frame) (put_frame frame) batches)) = (w, log) ∧
    ∀ pending, pipe_state (mkPipe pub (mkPorts [] pending) w (pipe_log p ++ log)) frames effects frames [] effects.
Proof.
  intros Hr Hnum Hlen [H1 H2 H3 H4 H5 H6 H7 H8 H9 H10] Hw Hn Hc Hl. rewrite Hw in *.
  assert (slot ≠ []) as Hslot by (by intros ->).
  assert (frame_revision frame = last_revision frames) as Hrev
    by (by rewrite H1, last_revision_app by done; apply coalesced_revision).
  assert (last_revision shown < frame_revision frame) as Hnew.
  { destruct slot as [|f slot _] using rev_ind; [done|]. rewrite (coalesced_revision _ _ Hc), last_revision_snoc.
    rewrite H1 in Hr. eapply (slot_newer 0); [done|]. apply elem_of_app. right. by left. }
  destruct (hold_effects_spec (last_revision shown) (pending_runtime_batches (pipe_ports p)) received) as (A & B & C);
    [done..|intros e He; by apply H9|].
  set (batches := hold_effects _ _) in *.
  destruct (update_entry_last (last_revision shown) batches (frame_revision frame) (put_frame frame))
    as (l1 & es & L1 & L2 & L3 & L4); [done|lia|rewrite Hrev; apply C; [done|intros e He; by apply H9]|].
  assert (effects = delivered ++ flat batches) as HE by (by rewrite B).
  rewrite HE, fmap_app, numbered_app, length_fmap in Hnum. rewrite HE, length_app in Hlen.
  destruct (reduce_released token (last_revision shown) (pipe_window p) (pane_after shown delivered) l1
              (frame_revision frame) frame es (1 + Z.of_nat (length delivered))) as (w & log & R1 & R2 & R3);
    try done; rewrite ?L2 in *.
  - apply foldl_show_token.
  - cbn. by rewrite shown_revision.
  - lia.
  - apply Hnum.
  - exists w, log. cbv zeta. rewrite L4. cbn [put_frame db_effects]. split_and!; [by eapply split_ready_all|done|]. intros pending.
    rewrite (show_pane_after shown slot delivered (flat batches) frame Hc), <-H1, <-HE in R2.
    split; cbn [pipe_publication pipe_ports pending_runtime_batches pipe_window pipe_log]; try done.
    + by rewrite app_nil_r.
    + by rewrite Hn, !app_nil_r.
    + rewrite R2. apply lookup_insert_eq.
    + rewrite HE. by apply logs_app.
    + by rewrite Hn.
    + intros e. by rewrite Hn, elem_of_nil.
Qed.

(** An idle publication: nothing is waiting. *)
Definition idle (p : Pipe) : Prop := has_work (pipe_publication p) = false.

Lemma idle_iff p : idle p ↔ latest (pub_latest (pipe_publication p)) = None ∧ waiting (pipe_publication p) = [].
Proof.
  unfold idle, has_work, has_value. rewrite effects_queued_waiting.
  destruct (latest (pub_latest (pipe_publication p))), (waiting (pipe_publication p)); cbn; split; first [done|by intros []].
Qed.

Lemma hold_nothing p pub frames effects shown delivered :
  pipe_state p frames effects shown [] delivered → waiting pub = [] → latest (pub_latest pub) = None →
  pipe_state (mkPipe pub (mkPorts [] (pending_frames (pipe_ports p))) (pipe_window p) (pipe_log p))
    frames effects shown [] delivered.
Proof.
  intros [H1 H2 H3 H4 H5 H6 H7 H8 H9 H10] Hw Hl. destruct (H10 eq_refl) as [E1 E2].
  rewrite E1, E2 in *. split; cbn [pipe_publication pipe_ports pending_runtime_batches pipe_window pipe_log];
    rewrite ?Hw; done.
Qed.

Lemma drain_state max p frames effects :
  revisions_increase 0 frames → numbered_from 1 effects.*2 → 1 + Z.of_nat (length effects) ≤ u64_max →
  pipe_inv p frames effects →
  ∃ p', pipe_step p (EvDrain max) = Some p' ∧ pipe_inv p' frames effects ∧
    waiting (pipe_publication p') = drop max (waiting (pipe_publication p)) ∧
    (waiting (pipe_publication p') = [] → idle p').
Proof.
  intros Hr Hnum Hlen (shown & slot & delivered & Hp).
  destruct (drain_spec max (pipe_publication p)) as (l & d & pub & Hd & Hl & Hw & Hdrop & Hcase).
  cbn [pipe_step]. rewrite Hd. unfold drain_runtime. rewrite Hl.
  destruct Hcase as [(Hn & Hf & Hs)|(Hn & Hf & Hs)]; rewrite Hf; [|rewrite (ps_slot _ _ _ _ _ _ Hp)].
  - eexists. split; [done|]. split_and!; [|done|done].
    exists shown, slot, delivered. cbn. rewrite app_nil_r. by apply hold_state.
  - rewrite Hn, app_nil_r in Hw. destruct (coalesced slot) as [frame|] eqn:Hc.
    + destruct (release_state p frames effects shown slot delivered pub frame l) as (w & log & R1 & R2 & R3); try done.
      cbv zeta in R1, R2. rewrite R1. unfold intents_of in R2. rewrite R2. eexists. split; [done|].
      split_and!; [|done|by intros _; apply idle_iff]. by exists frames, [], effects.
    + destruct slot as [|f slot]; [|done].
      destruct (ps_empty _ _ _ _ _ _ Hp eq_refl) as [E1 E2]. rewrite E2 in Hw. rewrite <-Hw, E1. cbn.
      eexists. split; [done|]. split_and!; [|done|by intros _; apply idle_iff].
      exists shown, [], delivered. rewrite app_nil_r. by apply hold_nothing.
Qed.

(** ** Runs *)

Lemma run_pipe_snoc p events event :
  run_pipe p (events ++ [event]) = (q ← run_pipe p events; pipe_step q event).
Proof. unfold run_pipe. by rewrite foldl_app. Qed.

Lemma run_pipe_cons p event events :
  run_pipe p (event :: events) = (q ← pipe_step p event; run_pipe q events).
Proof.
  unfold run_pipe. simpl. destruct (pipe_step p event) as [q|]; [done|]. simpl.
  induction events as [|e events IH]; [done|exact IH].
Qed.

Lemma frames_of_snoc events event :
  frames_of (events ++ [event]) =
  frames_of events ++ match event with EvPublish frame _ => [frame] | EvDrain _ => [] end.
Proof. unfold frames_of. rewrite omap_app. by destruct event. Qed.

Lemma effects_of_snoc events event :
  effects_of (events ++ [event]) =
  effects_of events ++
  match event with EvPublish frame effects => pair (frame_revision frame) <$> effects | EvDrain _ => [] end.
Proof. unfold effects_of. rewrite fmap_app, concat_app. simpl. by rewrite app_nil_r. Qed.

Lemma well_numbered_prefix events event : well_numbered (events ++ [event]) → well_numbered events.
Proof.
  unfold well_numbered. rewrite frames_of_snoc, effects_of_snoc, fmap_app, numbered_app, length_app.
  intros (H1 & [H2 _] & H3). split_and!; [|done|lia].
  destruct event; [by apply revisions_increase_app in H1 as []|by rewrite app_nil_r in H1].
Qed.

Lemma run_state w events p :
  ws_panes w !! token_pane token = Some (new_pane token) → well_numbered events →
  run_pipe (init_pipe w) events = Some p → pipe_inv p (frames_of events) (effects_of events).
Proof.
  intros Hw. revert p. induction events as [|event events IH] using rev_ind; intros p Hn Hr.
  - injection Hr as <-. exists [], [], []. by apply init_pipe_state.
  - pose proof (well_numbered_prefix _ _ Hn) as Hn'. rewrite run_pipe_snoc in Hr.
    apply bind_Some in Hr as (q & Hq & Hs). specialize (IH q Hn' Hq).
    rewrite frames_of_snoc, effects_of_snoc. destruct event as [frame es|max].
    + eapply publish_state; [|done..]. destruct Hn as [Hn _]. by rewrite frames_of_snoc in Hn.
    + rewrite !app_nil_r. destruct Hn' as (H1 & H2 & H3).
      destruct (drain_state max q _ _ H1 H2 H3 IH) as (q' & Hq' & Hi & _). by simplify_eq.
Qed.

(** More drains than waiting effects end with nothing left. *)
Lemma drains_finish k max p frames effects :
  revisions_increase 0 frames → numbered_from 1 effects.*2 → 1 + Z.of_nat (length effects) ≤ u64_max →
  pipe_inv p frames effects → (length (waiting (pipe_publication p)) < k)%nat →
  ∃ p', run_pipe p (replicate k (EvDrain (Datatypes.S max))) = Some p' ∧ pipe_inv p' frames effects ∧ idle p'.
Proof.
  intros Hr Hnum Hlen. revert p. induction k as [|k IH]; intros p Hi Hk; [lia|].
  destruct (drain_state (Datatypes.S max) p frames effects) as (q & Hq & Hqi & Hqw & Hidle); [done..|].
  cbn [replicate]. rewrite run_pipe_cons, Hq. cbn [mbind option_bind].
  destruct (decide (k = 0%nat)) as [->|Hk0].
  - exists q. split_and!; [done..|]. apply Hidle. rewrite Hqw. apply length_zero_iff_nil. rewrite length_drop. lia.
  - apply IH; [done|]. rewrite Hqw, length_drop. lia.
Qed.

Lemma inv_idle p frames effects :
  pipe_inv p frames effects → idle p →
  logs token effects (pipe_log p) ∧
  ws_panes (pipe_window p) !! token_pane token = Some (pane_after frames effects).
Proof.
  intros (shown & slot & delivered & [H1 H2 H3 H4 H5 _ _ _ _ H10]) [Hl Hw]%idle_iff.
  rewrite H3 in Hl. destruct slot; [|done]. destruct (H10 eq_refl) as [E1 E2].
  rewrite E1, E2 in H2. cbn in H2. rewrite app_nil_r in H1, H2. by subst.
Qed.

Lemma waiting_bound p frames effects :
  pipe_inv p frames effects → (length (waiting (pipe_publication p)) ≤ length effects)%nat.
Proof.
  intros (shown & slot & delivered & [_ H2 _ _ _ _ _ _ _ _]).
  rewrite H2, !length_app, length_fmap. lia.
Qed.

(** ** Publications that come too late *)

Lemma hold_same_revision r f es0 (es : list RuntimeEffect) :
  hold_effects (S:=S) (mkPublished token r <$> es) [(r, mkDrainBatch f es0)] = [(r, mkDrainBatch f (es0 ++ es))].
Proof.
  revert es0. induction es as [|e es IH]; intros es0; [by rewrite app_nil_r|].
  cbn [fmap list_fmap hold_effects foldl published_revision published_effect update_entry].
  rewrite Z.ltb_irrefl, Z.eqb_refl. change (foldl _ ?b ?l) with (hold_effects l b).
  unfold push_effect. cbn [db_frame db_effects]. rewrite IH, <-app_assoc. done.
Qed.

(** One publication becomes one entry. *)
Lemma hold_and_frame frame (es : list RuntimeEffect) :
  let r := frame_revision frame in
  update_entry r (put_frame frame) (hold_effects (mkPublished token r <$> es) []) = [(r, mkDrainBatch (S:=S) (Some frame) es)].
Proof.
  cbv zeta. destruct es as [|e es]; [done|].
  cbn [fmap list_fmap hold_effects foldl published_revision published_effect update_entry].
  change (foldl _ ?b ?l) with (hold_effects l b). unfold push_effect, empty_batch. cbn [db_frame db_effects].
  rewrite hold_same_revision. cbn [update_entry]. by rewrite Z.ltb_irrefl, Z.eqb_refl.
Qed.

(** A publication at a revision that the window has already seen, alone in the
    pipeline: the window drops it without a trace. *)
Lemma stale_publication p pane shown frame es max p' :
  idle p → pending_runtime_batches (pipe_ports p) = [] →
  ws_panes (pipe_window p) !! token_pane token = Some pane → ps_revision pane = Some shown →
  frame_revision frame ≤ shown → (length es ≤ max)%nat →
  run_pipe p [EvPublish frame es; EvDrain max] = Some p' →
  idle p' ∧ pipe_window p' = pipe_window p ∧ pipe_log p' = pipe_log p.
Proof.
  intros [Hl Hw]%idle_iff Hports Hpane Hshown Hr Hmax. rewrite run_pipe_cons.
  destruct (pipe_step p (EvPublish frame es)) as [q|] eqn:Hs; [|done]. cbn [mbind option_bind].
  cbn [pipe_step] in Hs. destruct (publish_alone _ _ _ _ _) as [[[] woken|] pub] eqn:Hp; try done.
  apply publish_effects_spec in Hp as [Hwq Hlq]. injection Hs as <-. rewrite Hw in Hwq. rewrite Hl in Hlq. cbn [app] in Hwq.
  rewrite run_pipe_cons. cbn [pipe_step pipe_publication pipe_ports pipe_window pipe_log].
  destruct (drain_spec max pub) as (l & d & pub' & Hd & Hdl & Hw' & Hdrop & Hcase). rewrite Hd.
  assert (waiting pub' = []) as Hnil by (rewrite Hdrop, Hwq; apply drop_ge; by rewrite length_fmap).
  destruct Hcase as [[? _]|(_ & Hf & Hlat)]; [by rewrite Hnil in *|].
  rewrite Hnil, app_nil_r, Hwq in Hw'. unfold drain_runtime. rewrite Hdl, <-Hw', Hf, Hlq, Hports.
  rewrite hold_and_frame. cbn [split_ready]. rewrite Z.leb_refl. cbn [split_ready fmap list_fmap].
  assert (reduce_all (pipe_window p) [IntentRuntimeBatch (runtime_batch token (frame_revision frame, mkDrainBatch (Some frame) es))] =
    (pipe_window p, [])) as ->.
  { unfold reduce_all. cbn [foldl fst snd reduce]. unfold reduce_runtime_batch. cbn [runtime_batch batch_pane fst snd db_frame].
    rewrite Hpane. unfold stale_batch. cbn [batch_pane batch_revision]. rewrite Hshown.
    apply Z.leb_le in Hr. by rewrite Hr, orb_true_r. }
  intros [= <-]. cbn [pipe_window pipe_log]. rewrite app_nil_r. split; [|done]. by apply idle_iff.
Qed.

(** When nothing is left, nothing waits at the host. *)
Lemma idle_ports p frames effects : pipe_inv p frames effects → idle p → pending_runtime_batches (pipe_ports p) = [].
Proof.
  intros (shown & slot & delivered & Hp) [Hl _]%idle_iff. rewrite (ps_slot _ _ _ _ _ _ Hp) in Hl.
  destruct slot; [|done]. by apply (ps_empty _ _ _ _ _ _ Hp).
Qed.

End run.
