(* ===== verification/Delta.v ===== *)
(** The buffers one feed of a terminal runtime fills
    ([rssh-runtime/src/delta.rs]): effects and metadata are ranges into arenas
    of bytes and of UTF-8 text, which are cleared and filled again by every
    feed. A range that does not lie inside its arena, or does not hold valid
    UTF-8, makes the source panic: resolving gives [None] there.

    What a feed pushes is what its delta shows: the arenas refine a log of the
    pushed values. The capacities of the vectors and the counter of feeds that
    had to grow one are not modelled. *)
From coqutil Require Import Datatypes.RecordSetters.
From S2P Require Import Prelude Text Launch Grid Screen Utf8 Utf8Facts RuntimeApi.
Import DoubleBraceUpdate.

Local Open Scope Z_scope.

Record ByteRange := mkRange { range_start : nat; range_len : nat }.

Definition resolve (r : ByteRange) (bytes : list Z) : option (list Z) :=
  if bool_decide (range_start r + range_len r ≤ length bytes)%nat
  then Some (take (range_len r) (drop (range_start r) bytes)) else None.

Definition resolve_str (r : ByteRange) (bytes : list Z) : option rstring :=
  match from_utf8 0 <$> resolve r bytes with
  | Some (text, _, None) => Some text
  | _ => None
  end.

Inductive EffectDescriptor :=
| DescConsoleWrite (range : ByteRange)
| DescTransportWrite (range : ByteRange)
| DescModeChange (change : TerminalModeChange)
| DescBell (count : Z)
| DescClipboardWrite (selection : option ByteRange) (contents : ByteRange)
| DescClipboardRead (selection : ByteRange)
| DescNotification (title : option ByteRange) (body : ByteRange)
| DescDiagnostic (message : ByteRange).

Inductive MetadataDescriptor := DescSet (range : ByteRange) | DescClear.
Record UserVarDescriptor := mkVarDesc { vd_name : ByteRange; vd_value : MetadataDescriptor }.

Record RuntimeBuffers := mkBuffers {
  rb_bytes : list Z;
  rb_visible : list Z;
  rb_text : list Z;
  rb_responses : list ByteRange;
  rb_effects : list EffectDescriptor;
  rb_damage : list DamageRegion;
  rb_title : option MetadataDescriptor;
  rb_working_directory : option MetadataDescriptor;
  rb_badge_format : option MetadataDescriptor;
  rb_progress : option RuntimeProgress;
  rb_user_vars : list UserVarDescriptor;
  rb_response_payload_copies : Z;
  rb_owned_response_materializations : Z;
  rb_response_commits : Z;
}.

#[export] Hint Extern 0 (@Setter RuntimeBuffers _ ?getter) =>
  mk_setter (fun r : RuntimeBuffers => mkBuffers (rb_bytes r) (rb_visible r) (rb_text r) (rb_responses r)
    (rb_effects r) (rb_damage r) (rb_title r) (rb_working_directory r) (rb_badge_format r) (rb_progress r)
    (rb_user_vars r) (rb_response_payload_copies r) (rb_owned_response_materializations r)
    (rb_response_commits r)) getter : typeclass_instances.

(** ** Filling *)

(** All fields are cleared, so the buffers of the feed before do not matter. *)
Definition begin_feed (b : RuntimeBuffers) : RuntimeBuffers :=
  b{{ rb_bytes := []; rb_visible := []; rb_text := []; rb_responses := []; rb_effects := [];
      rb_damage := []; rb_title := None; rb_working_directory := None; rb_badge_format := None;
      rb_progress := None; rb_user_vars := []; rb_response_payload_copies := 0;
      rb_owned_response_materializations := 0; rb_response_commits := 0 }}.

Definition push_bytes (bytes : list Z) (b : RuntimeBuffers) : ByteRange * RuntimeBuffers :=
  (mkRange (length (rb_bytes b)) (length bytes), b{{ rb_bytes := rb_bytes b ++ bytes }}).

(** A [&str] is its characters; the arena holds its bytes. *)
Definition push_text (text : rstring) (b : RuntimeBuffers) : ByteRange * RuntimeBuffers :=
  (mkRange (length (rb_text b)) (length (encode text)), b{{ rb_text := rb_text b ++ encode text }}).

Definition push_descriptor (d : EffectDescriptor) (b : RuntimeBuffers) : RuntimeBuffers :=
  b{{ rb_effects := rb_effects b ++ [d] }}.

Definition commit_transport_write (range : ByteRange) (b : RuntimeBuffers) : RuntimeBuffers :=
  push_descriptor (DescTransportWrite range)
    (b{{ rb_responses := rb_responses b ++ [range];
         rb_response_commits := sat_add_u64 (rb_response_commits b) 1 }}).

Definition push_transport_write (response : list Z) (b : RuntimeBuffers) : RuntimeBuffers :=
  let b := b{{ rb_response_payload_copies := sat_add_u64 (rb_response_payload_copies b) 1;
               rb_owned_response_materializations := sat_add_u64 (rb_owned_response_materializations b) 1 }} in
  let '(range, b) := push_bytes response b in
  commit_transport_write range b.

Definition push_console_write (bytes : list Z) (b : RuntimeBuffers) : RuntimeBuffers :=
  match bytes with
  | [] => b
  | _ => let '(range, b) := push_bytes bytes b in push_descriptor (DescConsoleWrite range) b
  end.

Definition push_mode_change (change : TerminalModeChange) : RuntimeBuffers → RuntimeBuffers :=
  push_descriptor (DescModeChange change).

(** [write] gets the arena itself; its subtraction of lengths panics when it
    made the arena shorter. *)
Definition try_push_transport_write_with {E} (write : list Z → (E + ()) * list Z) (b : RuntimeBuffers) :
    option ((E + ()) * RuntimeBuffers) :=
  let start := length (rb_bytes b) in
  match write (rb_bytes b) with
  | (inr _, bytes) =>
      if (start <=? length bytes)%nat
      then Some (inr (), commit_transport_write (mkRange start (length bytes - start)) (b{{ rb_bytes := bytes }}))
      else None
  | (inl error, bytes) => Some (inl error, b{{ rb_bytes := take start bytes }})
  end.

Definition push_bell (count : Z) (b : RuntimeBuffers) : RuntimeBuffers :=
  if count =? 0 then b else push_descriptor (DescBell count) b.

Definition push_optional (text : option rstring) (b : RuntimeBuffers) : option ByteRange * RuntimeBuffers :=
  match text with
  | Some text => let '(range, b) := push_text text b in (Some range, b)
  | None => (None, b)
  end.

Definition push_clipboard_write (selection : option rstring) (contents : rstring) (b : RuntimeBuffers) : RuntimeBuffers :=
  let '(selection, b) := push_optional selection b in
  let '(contents, b) := push_text contents b in
  push_descriptor (DescClipboardWrite selection contents) b.

Definition push_clipboard_read (selection : rstring) (b : RuntimeBuffers) : RuntimeBuffers :=
  let '(selection, b) := push_text selection b in push_descriptor (DescClipboardRead selection) b.

Definition push_notification (title : option rstring) (body : rstring) (b : RuntimeBuffers) : RuntimeBuffers :=
  let '(title, b) := push_optional title b in
  let '(body, b) := push_text body b in
  push_descriptor (DescNotification title body) b.

Definition push_diagnostic (message : rstring) (b : RuntimeBuffers) : RuntimeBuffers :=
  let '(message, b) := push_text message b in push_descriptor (DescDiagnostic message) b.

Definition push_metadata (value : option rstring) (b : RuntimeBuffers) : MetadataDescriptor * RuntimeBuffers :=
  match value with
  | Some text => let '(range, b) := push_text text b in (DescSet range, b)
  | None => (DescClear, b)
  end.

Definition set_title (title : option rstring) (b : RuntimeBuffers) : RuntimeBuffers :=
  let '(d, b) := push_metadata title b in b{{ rb_title := Some d }}.
Definition set_working_directory (value : option rstring) (b : RuntimeBuffers) : RuntimeBuffers :=
  let '(d, b) := push_metadata value b in b{{ rb_working_directory := Some d }}.
Definition set_badge_format (value : option rstring) (b : RuntimeBuffers) : RuntimeBuffers :=
  let '(d, b) := push_metadata value b in b{{ rb_badge_format := Some d }}.
Definition set_progress (progress : RuntimeProgress) (b : RuntimeBuffers) : RuntimeBuffers :=
  b{{ rb_progress := Some progress }}.

Definition push_user_var (name : rstring) (value : option rstring) (b : RuntimeBuffers) : RuntimeBuffers :=
  let '(name, b) := push_text name b in
  let '(value, b) := push_metadata value b in
  b{{ rb_user_vars := rb_user_vars b ++ [mkVarDesc name value] }}.

(** ** Reading *)

Inductive RuntimeEffectRef :=
| RefConsoleWrite (bytes : list Z)
| RefTransportWrite (bytes : list Z)
| RefModeChange (change : TerminalModeChange)
| RefBell (count : Z)
| RefClipboardWrite (selection : option rstring) (contents : rstring)
| RefClipboardRead (selection : rstring)
| RefNotification (title : option rstring) (body : rstring)
| RefDiagnostic (message : rstring).

Definition resolve_optional (r : option ByteRange) (text : list Z) : option (option rstring) :=
  match r with Some r => Some <$> resolve_str r text | None => Some None end.

Definition resolve_effect (b : RuntimeBuffers) (d : EffectDescriptor) : option RuntimeEffectRef :=
  match d with
  | DescConsoleWrite r => RefConsoleWrite <$> resolve r (rb_bytes b)
  | DescTransportWrite r => RefTransportWrite <$> resolve r (rb_bytes b)
  | DescModeChange change => Some (RefModeChange change)
  | DescBell count => Some (RefBell count)
  | DescClipboardWrite selection contents =>
      selection ← resolve_optional selection (rb_text b);
      RefClipboardWrite selection <$> resolve_str contents (rb_text b)
  | DescClipboardRead selection => RefClipboardRead <$> resolve_str selection (rb_text b)
  | DescNotification title body =>
      title ← resolve_optional title (rb_text b); RefNotification title <$> resolve_str body (rb_text b)
  | DescDiagnostic message => RefDiagnostic <$> resolve_str message (rb_text b)
  end.

Definition effects (b : RuntimeBuffers) : option (list RuntimeEffectRef) := mapM (resolve_effect b) (rb_effects b).
Definition responses (b : RuntimeBuffers) : option (list (list Z)) := mapM (λ r, resolve r (rb_bytes b)) (rb_responses b).

Definition resolve_descriptor (text : list Z) (d : MetadataDescriptor) : option (MetadataChange rstring) :=
  match d with DescSet r => MetadataSet <$> resolve_str r text | DescClear => Some MetadataClear end.

Definition resolve_change (b : RuntimeBuffers) (d : option MetadataDescriptor) :
    option (option (MetadataChange rstring)) :=
  match d with Some d => Some <$> resolve_descriptor (rb_text b) d | None => Some None end.

Definition resolve_user_var (text : list Z) (d : UserVarDescriptor) : option UserVarDelta :=
  name ← resolve_str (vd_name d) text; mkUserVar name <$> resolve_descriptor text (vd_value d).

Definition user_vars (b : RuntimeBuffers) : option (list UserVarDelta) :=
  mapM (resolve_user_var (rb_text b)) (rb_user_vars b).

(** [owned_metadata] of [pane.rs]. *)
Definition owned_metadata (b : RuntimeBuffers) : option PaneMetadataDelta :=
  title ← resolve_change b (rb_title b);
  working_directory ← resolve_change b (rb_working_directory b);
  badge_format ← resolve_change b (rb_badge_format b);
  mkMetadata title working_directory badge_format (MetadataSet <$> rb_progress b) <$> user_vars b.

(** What one feed hands to its caller. *)
Record RuntimeDelta := mkDelta {
  delta_buffers : RuntimeBuffers;
  bell_count : Z;
  snapshot_changed : bool;
  screen_identity_changed : bool;
}.

(** ** The abstract log *)

Record FeedLog := mkLog {
  fl_effects : list RuntimeEffectRef;
  fl_responses : list (list Z);
  fl_metadata : PaneMetadataDelta;
}.

#[export] Hint Extern 0 (@Setter FeedLog _ ?getter) =>
  mk_setter (fun r : FeedLog => mkLog (fl_effects r) (fl_responses r) (fl_metadata r)) getter : typeclass_instances.

Definition empty_log : FeedLog := mkLog [] [] no_metadata.

(** The pushes of a feed. [OpTransportWith] is a writer that appends to the
    arena and may fail afterwards. *)
Inductive BufferOp :=
| OpTransport (response : list Z)
| OpTransportWith (appended : list Z) (succeeds : bool)
| OpConsole (bytes : list Z)
| OpMode (change : TerminalModeChange)
| OpBell (count : Z)
| OpClipboardWrite (selection : option rstring) (contents : rstring)
| OpClipboardRead (selection : rstring)
| OpNotification (title : option rstring) (body : rstring)
| OpDiagnostic (message : rstring)
| OpTitle (title : option rstring)
| OpWorkingDirectory (value : option rstring)
| OpBadge (value : option rstring)
| OpProgress (progress : RuntimeProgress)
| OpUserVar (name : rstring) (value : option rstring).

Definition appending (appended : list Z) (succeeds : bool) (bytes : list Z) : (() + ()) * list Z :=
  (if succeeds then inr () else inl (), bytes ++ appended).

Definition apply_op (b : RuntimeBuffers) (op : BufferOp) : option RuntimeBuffers :=
  match op with
  | OpTransport response => Some (push_transport_write response b)
  | OpTransportWith appended succeeds => snd <$> try_push_transport_write_with (appending appended succeeds) b
  | OpConsole bytes => Some (push_console_write bytes b)
  | OpMode change => Some (push_mode_change change b)
  | OpBell count => Some (push_bell count b)
  | OpClipboardWrite selection contents => Some (push_clipboard_write selection contents b)
  | OpClipboardRead selection => Some (push_clipboard_read selection b)
  | OpNotification title body => Some (push_notification title body b)
  | OpDiagnostic message => Some (push_diagnostic message b)
  | OpTitle title => Some (set_title title b)
  | OpWorkingDirectory value => Some (set_working_directory value b)
  | OpBadge value => Some (set_badge_format value b)
  | OpProgress progress => Some (set_progress progress b)
  | OpUserVar name value => Some (push_user_var name value b)
  end.

Definition change_of (value : option rstring) : MetadataChange rstring :=
  match value with Some text => MetadataSet text | None => MetadataClear end.

Definition log_effect (effect : RuntimeEffectRef) (l : FeedLog) : FeedLog := l{{ fl_effects := fl_effects l ++ [effect] }}.
Definition log_transport (response : list Z) (l : FeedLog) : FeedLog :=
  log_effect (RefTransportWrite response) (l{{ fl_responses := fl_responses l ++ [response] }}).

Definition spec_op (l : FeedLog) (op : BufferOp) : FeedLog :=
  match op with
  | OpTransport response => log_transport response l
  | OpTransportWith appended succeeds => if succeeds then log_transport appended l else l
  | OpConsole bytes => match bytes with [] => l | _ => log_effect (RefConsoleWrite bytes) l end
  | OpMode change => log_effect (RefModeChange change) l
  | OpBell count => if count =? 0 then l else log_effect (RefBell count) l
  | OpClipboardWrite selection contents => log_effect (RefClipboardWrite selection contents) l
  | OpClipboardRead selection => log_effect (RefClipboardRead selection) l
  | OpNotification title body => log_effect (RefNotification title body) l
  | OpDiagnostic message => log_effect (RefDiagnostic message) l
  | OpTitle title => l{{ fl_metadata -> md_title := Some (change_of title) }}
  | OpWorkingDirectory value => l{{ fl_metadata -> md_working_directory := Some (change_of value) }}
  | OpBadge value => l{{ fl_metadata -> md_badge_format := Some (change_of value) }}
  | OpProgress progress => l{{ fl_metadata -> md_progress := Some (MetadataSet progress) }}
  | OpUserVar name value =>
      l{{ fl_metadata -> md_user_vars := md_user_vars (fl_metadata l) ++ [mkUserVar name (change_of value)] }}
  end.

(** Strings hold Unicode scalar values. *)
Definition is_text (s : rstring) : Prop := Forall scalar s.
Definition optional_text (s : option rstring) : Prop := match s with Some s => is_text s | None => True end.
Definition valid_op (op : BufferOp) : Prop :=
  match op with
  | OpClipboardWrite selection contents => optional_text selection ∧ is_text contents
  | OpNotification title body => optional_text title ∧ is_text body
  | OpClipboardRead text | OpDiagnostic text => is_text text
  | OpTitle value | OpWorkingDirectory value | OpBadge value => optional_text value
  | OpUserVar name value => is_text name ∧ optional_text value
  | _ => True
  end.

(** ** Ranges *)

Lemma resolve_app r bytes more x : resolve r bytes = Some x → resolve r (bytes ++ more) = Some x.
Proof.
  unfold resolve. case_bool_decide as Hr; [|done]. intros [= <-].
  rewrite bool_decide_eq_true_2 by (rewrite length_app; lia).
  rewrite drop_app_le by lia. rewrite take_app_le; [done|]. rewrite length_drop. lia.
Qed.

Lemma resolve_pushed bytes more : resolve (mkRange (length bytes) (length more)) (bytes ++ more) = Some more.
Proof.
  unfold resolve. cbn. rewrite bool_decide_eq_true_2 by (rewrite length_app; lia).
  by rewrite drop_app_length, take_ge.
Qed.

Lemma from_utf8_skip l rest :
  from_utf8 (length l) (l ++ rest) =
  let '(cs, n, e) := from_utf8 0 rest in (cs, (length l + n)%nat, e).
Proof.
  induction l as [|b l IH]; [cbn [length app]; by destruct (from_utf8 0 rest) as [[]]|].
  cbn [length app from_utf8]. rewrite IH. by destruct (from_utf8 0 rest) as [[]].
Qed.

Lemma from_utf8_encode cs : is_text cs → ∃ n, from_utf8 0 (encode cs) = (cs, n, None).
Proof.
  induction 1 as [|c cs Hc _ [n IH]]; [by exists 0%nat|]. rewrite encode_cons.
  pose proof (utf8_next_encode c (encode cs) Hc) as Hu.
  destruct (encode_char_shape c Hc) as (lead & conts & Henc & _). rewrite Henc in *.
  cbn [app from_utf8 length] in *. rewrite Hu. cbn [Nat.sub]. rewrite Nat.sub_0_r, from_utf8_skip, IH. by eexists.
Qed.

Lemma resolve_str_app r text more x : resolve_str r text = Some x → resolve_str r (text ++ more) = Some x.
Proof.
  unfold resolve_str. destruct (resolve r text) as [bytes|] eqn:Hr; [|done]. by rewrite (resolve_app _ _ _ _ Hr).
Qed.

Lemma resolve_str_pushed text s :
  is_text s → resolve_str (mkRange (length text) (length (encode s))) (text ++ encode s) = Some s.
Proof.
  intros Hs. unfold resolve_str. rewrite resolve_pushed. cbn.
  by destruct (from_utf8_encode s Hs) as [n ->].
Qed.

(** ** Growing arenas *)

Definition grows (b b' : RuntimeBuffers) : Prop :=
  rb_bytes b `prefix_of` rb_bytes b' ∧ rb_text b `prefix_of` rb_text b'.

Lemma resolve_grows r (l l' : list Z) x : l `prefix_of` l' → resolve r l = Some x → resolve r l' = Some x.
Proof. intros [k ->]. apply resolve_app. Qed.
Lemma resolve_str_grows r (l l' : list Z) x : l `prefix_of` l' → resolve_str r l = Some x → resolve_str r l' = Some x.
Proof. intros [k ->]. apply resolve_str_app. Qed.
#[local] Hint Resolve resolve_grows resolve_str_grows : core.

Lemma resolve_optional_grows r (l l' : list Z) x :
  l `prefix_of` l' → resolve_optional r l = Some x → resolve_optional r l' = Some x.
Proof.
  intros Hl. destruct r as [r|]; [|done]. cbn. intros (y & Hy & ->)%fmap_Some. by rewrite (resolve_str_grows _ _ _ _ Hl Hy).
Qed.

Lemma resolve_effect_grows b b' d x : grows b b' → resolve_effect b d = Some x → resolve_effect b' d = Some x.
Proof.
  intros [Hb Ht]. destruct d as [r|r|ch|n|sel c|sel|ti bo|m]; cbn [resolve_effect]; try done;
    rewrite ?bind_Some, ?fmap_Some; try naive_solver eauto.
  - intros (y & Hy & (z & Hz & ->)%fmap_Some). exists y. split; [by eapply resolve_optional_grows|].
    by rewrite (resolve_str_grows _ _ _ _ Ht Hz).
  - intros (y & Hy & (z & Hz & ->)%fmap_Some). exists y. split; [by eapply resolve_optional_grows|].
    by rewrite (resolve_str_grows _ _ _ _ Ht Hz).
Qed.

Lemma resolve_descriptor_grows (l l' : list Z) d x :
  l `prefix_of` l' → resolve_descriptor l d = Some x → resolve_descriptor l' d = Some x.
Proof. intros Hl. destruct d as [r|]; [|done]. cbn. rewrite !fmap_Some. naive_solver eauto. Qed.

Lemma resolve_change_grows b b' d x : grows b b' → resolve_change b d = Some x → resolve_change b' d = Some x.
Proof.
  intros [_ Ht]. destruct d as [d|]; [|done]. cbn. intros (y & Hy & ->)%fmap_Some.
  by rewrite (resolve_descriptor_grows _ _ _ _ Ht Hy).
Qed.

Lemma resolve_user_var_grows (l l' : list Z) d x :
  l `prefix_of` l' → resolve_user_var l d = Some x → resolve_user_var l' d = Some x.
Proof.
  intros Hl. unfold resolve_user_var. rewrite !bind_Some. intros (y & Hy & (z & Hz & ->)%fmap_Some).
  exists y. split; [by eapply resolve_str_grows|]. by rewrite (resolve_descriptor_grows _ _ _ _ Hl Hz).
Qed.

Lemma mapM_grows {A B} (f g : A → option B) (l : list A) k :
  (∀ a b, f a = Some b → g a = Some b) → mapM f l = Some k → mapM g l = Some k.
Proof. intros Hfg. rewrite !mapM_Some. intros Hl. eapply Forall2_impl; [exact Hl|]. intros a b. apply Hfg. Qed.

(** ** The refinement *)

Record refines (b : RuntimeBuffers) (l : FeedLog) : Prop := {
  ref_effects : effects b = Some (fl_effects l);
  ref_responses : responses b = Some (fl_responses l);
  ref_title : resolve_change b (rb_title b) = Some (md_title (fl_metadata l));
  ref_working_directory : resolve_change b (rb_working_directory b) = Some (md_working_directory (fl_metadata l));
  ref_badge : resolve_change b (rb_badge_format b) = Some (md_badge_format (fl_metadata l));
  ref_progress : MetadataSet <$> rb_progress b = md_progress (fl_metadata l);
  ref_user_vars : user_vars b = Some (md_user_vars (fl_metadata l));
}.

(** Only the arenas differ. *)
Definition only_grows (b b' : RuntimeBuffers) : Prop :=
  grows b b' ∧ rb_effects b' = rb_effects b ∧ rb_responses b' = rb_responses b ∧ rb_title b' = rb_title b ∧
  rb_working_directory b' = rb_working_directory b ∧ rb_badge_format b' = rb_badge_format b ∧
  rb_progress b' = rb_progress b ∧ rb_user_vars b' = rb_user_vars b.

Lemma refines_grows b b' l : only_grows b b' → refines b l → refines b' l.
Proof.
  intros (Hg & E1 & E2 & E3 & E4 & E5 & E6 & E7) []. split; rewrite ?E3, ?E4, ?E5, ?E6;
    try (by eapply resolve_change_grows); try done.
  - unfold effects in *. rewrite E1. eapply mapM_grows; [|done]. intros. by eapply resolve_effect_grows.
  - unfold responses in *. rewrite E2. eapply mapM_grows; [|done]. intros. destruct Hg. by eapply resolve_grows.
  - unfold user_vars in *. rewrite E7. eapply mapM_grows; [|done]. intros. destruct Hg. by eapply resolve_user_var_grows.
Qed.

Lemma mapM_snoc {A B} (f : A → option B) (l : list A) a k b :
  mapM f l = Some k → f a = Some b → mapM f (l ++ [a]) = Some (k ++ [b]).
Proof. rewrite !mapM_Some. intros H1 H2. apply Forall2_app; [done|]. by constructor. Qed.

Lemma refines_push b l d e : refines b l → resolve_effect b d = Some e → refines (push_descriptor d b) (log_effect e l).
Proof. intros [] Hd. split; try done. unfold effects. cbn. by apply mapM_snoc. Qed.

Lemma refines_owned_metadata b l : refines b l → owned_metadata b = Some (fl_metadata l).
Proof.
  intros []. unfold owned_metadata. rewrite ref_title0, ref_working_directory0, ref_badge0, ref_user_vars0. cbn.
  rewrite ref_progress0. by destruct (fl_metadata l).
Qed.

Lemma push_bytes_grows bytes b : only_grows b (push_bytes bytes b).2.
Proof. split_and!; try done. split; cbn; [by eexists|done]. Qed.
Lemma push_text_grows text b : only_grows b (push_text text b).2.
Proof. split_and!; try done. split; cbn; [done|by eexists]. Qed.

Lemma refines_push_text b l text :
  refines b l → is_text text →
  refines (push_text text b).2 l ∧ resolve_str (push_text text b).1 (rb_text (push_text text b).2) = Some text.
Proof.
  intros Hr Ht. split; [eapply refines_grows; [apply push_text_grows|done]|]. cbn. by apply resolve_str_pushed.
Qed.

Lemma refines_push_optional b l text :
  refines b l → optional_text text →
  refines (push_optional text b).2 l ∧
  resolve_optional (push_optional text b).1 (rb_text (push_optional text b).2) = Some text.
Proof.
  destruct text as [text|]; [|done]. intros Hr Ht. destruct (refines_push_text b l text Hr Ht) as [H1 H2].
  cbn [push_optional]. destruct (push_text text b) as [r b']. cbn in *. by rewrite H2.
Qed.

Lemma refines_push_metadata b l value :
  refines b l → optional_text value →
  refines (push_metadata value b).2 l ∧
  resolve_descriptor (rb_text (push_metadata value b).2) (push_metadata value b).1 = Some (change_of value).
Proof.
  destruct value as [text|]; [|done]. intros Hr Ht. destruct (refines_push_text b l text Hr Ht) as [H1 H2].
  cbn [push_metadata]. destruct (push_text text b) as [r b']. cbn in *. by rewrite H2.
Qed.

Lemma refines_commit b l range response :
  refines b l → resolve range (rb_bytes b) = Some response →
  refines (commit_transport_write range b) (log_transport response l).
Proof.
  intros [] Hd. unfold commit_transport_write, log_transport. apply refines_push; [|by cbn; rewrite Hd].
  split; try done. unfold responses. cbn. by apply mapM_snoc.
Qed.

(** The second text of an effect keeps the first one readable. *)
Lemma optional_then_text b l title body :
  refines b l → optional_text title → is_text body →
  let '(t, b1) := push_optional title b in
  let '(r, b2) := push_text body b1 in
  refines b2 l ∧ resolve_optional t (rb_text b2) = Some title ∧ resolve_str r (rb_text b2) = Some body.
Proof.
  intros Hr Ht Hb. destruct (refines_push_optional b l title Hr Ht) as [H1 H2].
  destruct (push_optional title b) as [t b1]. cbn [fst snd] in *.
  destruct (refines_push_text b1 l body H1 Hb) as [H3 H4]. pose proof (push_text_grows body b1) as Hg.
  destruct (push_text body b1) as [r b2]. cbn [fst snd] in *.
  split_and!; [done| |done]. destruct Hg as [[_ Hg] _]. by eapply resolve_optional_grows.
Qed.

Lemma user_var_pushed b l name value :
  refines b l → is_text name → optional_text value →
  let '(r, b1) := push_text name b in
  let '(d, b2) := push_metadata value b1 in
  refines b2 l ∧ resolve_user_var (rb_text b2) (mkVarDesc r d) = Some (mkUserVar name (change_of value)).
Proof.
  intros Hr Hn Hv. destruct (refines_push_text b l name Hr Hn) as [H1 H2].
  destruct (push_text name b) as [r b1]. cbn [fst snd] in *.
  destruct (refines_push_metadata b1 l value H1 Hv) as [H3 H4].
  assert (rb_text b1 `prefix_of` rb_text (push_metadata value b1).2) as Hg.
  { destruct value; [by eexists|done]. }
  destruct (push_metadata value b1) as [d b2]. cbn [fst snd] in *. split; [done|].
  unfold resolve_user_var. cbn. by rewrite (resolve_str_grows _ _ _ _ Hg H2), H4.
Qed.

Lemma begin_feed_refines b : refines (begin_feed b) empty_log.
Proof. by split. Qed.

Lemma push_transport_refines b l response :
  refines b l → refines (push_transport_write response b) (log_transport response l).
Proof.
  intros Hr. unfold push_transport_write, push_bytes. cbv beta iota zeta.
  apply refines_commit; [|apply resolve_pushed].
  eapply refines_grows; [|exact Hr]. split_and!; try done. split; cbn; [by eexists|done].
Qed.

Lemma push_transport_with_refines b l appended succeeds :
  refines b l →
  ∃ b', snd <$> try_push_transport_write_with (appending appended succeeds) b = Some b' ∧
    refines b' (if succeeds then log_transport appended l else l).
Proof.
  intros Hr. unfold try_push_transport_write_with, appending. destruct succeeds.
  - rewrite length_app. destruct (Nat.leb_spec (length (rb_bytes b)) (length (rb_bytes b) + length appended)); [|lia].
    eexists. split; [done|]. replace (_ + _ - _)%nat with (length appended) by lia.
    apply refines_commit; [|apply resolve_pushed].
    eapply refines_grows; [|exact Hr]. split_and!; try done. split; cbn; [by eexists|done].
  - eexists. split; [done|]. cbn. rewrite take_app_length. by destruct b.
Qed.

Lemma push_console_refines b l bytes :
  refines b l →
  refines (push_console_write bytes b) (match bytes with [] => l | _ => log_effect (RefConsoleWrite bytes) l end).
Proof.
  intros Hr. destruct bytes as [|x bytes]; [done|]. unfold push_console_write, push_bytes.
  apply refines_push; [by eapply refines_grows; [apply (push_bytes_grows (x :: bytes))|]|].
  cbn [resolve_effect rb_bytes]. by rewrite resolve_pushed.
Qed.

(** Effects with one text, and with an optional one before it. *)
Lemma push_text_refines b l text (mk : ByteRange → EffectDescriptor) (e : RuntimeEffectRef) :
  refines b l → is_text text →
  (∀ b' r, resolve_str r (rb_text b') = Some text → resolve_effect b' (mk r) = Some e) →
  refines (let '(r, b) := push_text text b in push_descriptor (mk r) b) (log_effect e l).
Proof.
  intros Hr Ht Hm. destruct (refines_push_text b l text Hr Ht) as [H1 H2].
  destruct (push_text text b) as [r b1]. apply refines_push; [done|]. by apply Hm.
Qed.

Lemma push_texts_refines b l title body (mk : option ByteRange → ByteRange → EffectDescriptor) (e : RuntimeEffectRef) :
  refines b l → optional_text title → is_text body →
  (∀ b' t r, resolve_optional t (rb_text b') = Some title → resolve_str r (rb_text b') = Some body →
     resolve_effect b' (mk t r) = Some e) →
  refines (let '(t, b) := push_optional title b in let '(r, b) := push_text body b in push_descriptor (mk t r) b)
    (log_effect e l).
Proof.
  intros Hr Ht Hb Hm. pose proof (optional_then_text b l title body Hr Ht Hb) as Ho.
  destruct (push_optional title b) as [t b1], (push_text body b1) as [r b2].
  destruct Ho as (H1 & H2 & H3). apply refines_push; [done|]. by apply Hm.
Qed.

Lemma set_metadata_refines b l value :
  refines b l → optional_text value →
  refines (set_title value b) (l{{ fl_metadata -> md_title := Some (change_of value) }}) ∧
  refines (set_working_directory value b) (l{{ fl_metadata -> md_working_directory := Some (change_of value) }}) ∧
  refines (set_badge_format value b) (l{{ fl_metadata -> md_badge_format := Some (change_of value) }}).
Proof.
  intros Hr Hv. destruct (refines_push_metadata b l value Hr Hv) as [[] H2].
  unfold set_title, set_working_directory, set_badge_format. destruct (push_metadata value b) as [d b1].
  split_and!; split; try done; cbn in *; by rewrite H2.
Qed.

Lemma push_user_var_refines b l name value :
  refines b l → is_text name → optional_text value →
  refines (push_user_var name value b)
    (l{{ fl_metadata -> md_user_vars := md_user_vars (fl_metadata l) ++ [mkUserVar name (change_of value)] }}).
Proof.
  intros Hr Hn Hv. pose proof (user_var_pushed b l name value Hr Hn Hv) as Hu.
  unfold push_user_var. destruct (push_text name b) as [r b1], (push_metadata value b1) as [d b2].
  destruct Hu as [[] H2]. split; try done. unfold user_vars in *. cbn. by apply mapM_snoc.
Qed.

Lemma apply_op_refines b l op :
  valid_op op → refines b l → ∃ b', apply_op b op = Some b' ∧ refines b' (spec_op l op).
Proof.
  intros Hv Hr. destruct op; cbn [apply_op spec_op valid_op] in *;
    try (eexists; split; [done|]); try (by apply set_metadata_refines).
  - by apply push_transport_refines.
  - by apply push_transport_with_refines.
  - by apply push_console_refines.
  - by apply refines_push.
  - unfold push_bell. destruct (count =? 0); [done|]. by apply refines_push.
  - destruct Hv. apply push_texts_refines; [done..|]. intros b' t r H1 H2. cbn. by rewrite H1, H2.
  - apply push_text_refines; [done..|]. intros b' r H1. cbn. by rewrite H1.
  - destruct Hv. apply push_texts_refines; [done..|]. intros b' t r H1 H2. cbn. by rewrite H1, H2.
  - apply push_text_refines; [done..|]. intros b' r H1. cbn. by rewrite H1.
  - destruct Hr. by split.
  - destruct Hv. by apply push_user_var_refines.
Qed.

(** One feed: the buffers are cleared, then filled. *)
Definition fill (b : RuntimeBuffers) (ops : list BufferOp) : option RuntimeBuffers :=
  foldl (λ b op, b ← b; apply_op b op) (Some (begin_feed b)) ops.

(** C15. Whatever the buffers held before, a feed that pushes any sequence of
    effects, responses and metadata never panics and its delta shows exactly
    what was pushed, in order: failed writers leave nothing behind, and of a
    repeated title, directory, badge or progress the last one counts. *)
Theorem arenas_refine_log b ops :
  Forall valid_op ops →
  ∃ b', fill b ops = Some b' ∧
    let l := foldl spec_op empty_log ops in
    effects b' = Some (fl_effects l) ∧ responses b' = Some (fl_responses l) ∧
    owned_metadata b' = Some (fl_metadata l).
Proof.
  intros Hops. assert (∃ b', fill b ops = Some b' ∧ refines b' (foldl spec_op empty_log ops)) as (b' & Hf & Hr).
  { induction ops as [|op ops IH] using rev_ind; [eexists; split; [done|apply begin_feed_refines]|].
    apply Forall_app in Hops as [Hops [Hop _]%Forall_cons].
    destruct (IH Hops) as (b1 & H1 & H2). unfold fill. rewrite !foldl_app.
    change (foldl _ (Some (begin_feed b)) ops) with (fill b ops). rewrite H1.
    destruct (apply_op_refines b1 _ op Hop H2) as (b2 & H3 & H4). by exists b2. }
  exists b'. split; [done|]. cbv zeta. split_and!; [apply Hr|apply Hr|by apply refines_owned_metadata].
Qed.

Lemma arenas_refine_log_witness :
  ∃ b', fill (begin_feed (mkBuffers [] [] [] [] [] [] None None None None [] 0 0 0))
      [OpTitle (Some (lit "a")); OpTransportWith [1; 2] false; OpTransport [3]; OpClipboardWrite (Some (lit "c")) [233; 8364];
       OpTitle None; OpUserVar (lit "k") (Some [128512])] = Some b' ∧
    effects b' = Some [RefTransportWrite [3]; RefClipboardWrite (Some (lit "c")) [233; 8364]] ∧
    responses b' = Some [[3]] ∧
    owned_metadata b' = Some (mkMetadata (Some MetadataClear) None None None [mkUserVar (lit "k") (MetadataSet [128512])]).
Proof.
  apply arenas_refine_log. repeat constructor; unfold scalar; cbn; lia.
Defined.
