(* ===== verification/PaneWorker.v ===== *)
(** The worker thread of a pane ([rssh-runtime/src/pane.rs], the parse batches
    of [batch.rs]): how output is collected into batches, how the effects of
    a delta are numbered and turned into a publication, and the loop of
    [run_worker] over its messages with the publication at its end.

    The terminal runtime, the transport and the publication are seen through
    what they return in a turn: a delta, whether writes succeed, whether the
    publication succeeds. Times are [Z] in nanoseconds; [clock i] is the
    [i]-th reading of the clock, [recv i] the [i]-th result of [try_recv].

    Collecting output loses nothing and ends, and the stream a worker
    publishes is numbered the way the window's reducer requires. *)
From coqutil Require Import Datatypes.RecordSetters.
From S2P Require Import Prelude Text Launch Grid Screen Mailbox RuntimeApi Publication PublicationSystem.
From S2P Require Import Delta Config Window HostDrain Pipeline.
Import DoubleBraceUpdate.

Local Open Scope Z_scope.

(** ** Parse batches *)

Record BatchPolicy := mkPolicy { policy_bytes : Z; policy_items : Z; policy_latency : Z }.
Inductive BatchPolicyError := ZeroBytesPolicy | ZeroItemsPolicy | ZeroLatencyPolicy.

Definition policy_try_new (max_bytes max_items max_latency : Z) : BatchPolicyError + BatchPolicy :=
  if max_bytes =? 0 then inl ZeroBytesPolicy
  else if max_items =? 0 then inl ZeroItemsPolicy
  else if max_latency =? 0 then inl ZeroLatencyPolicy
  else inr (mkPolicy max_bytes max_items max_latency).

Definition default_policy : BatchPolicy := mkPolicy (128 * 1024) 16 3000000.

Inductive BatchAdmission := BatchAccepted | BatchAcceptedAndFull | BatchRejected.

Record BatchWindow := mkBatchWindow {
  win_policy : BatchPolicy;
  win_started_at : option Z;
  win_bytes : Z;
  win_items : Z;
}.

Definition new_window (policy : BatchPolicy) : BatchWindow := mkBatchWindow policy None 0 0.

Definition fullness (w : BatchWindow) : BatchAdmission :=
  if (policy_bytes (win_policy w) <=? win_bytes w) || (policy_items (win_policy w) <=? win_items w)
  then BatchAcceptedAndFull else BatchAccepted.

Definition try_push (now item_bytes : Z) (w : BatchWindow) : BatchAdmission * BatchWindow :=
  match win_started_at w with
  | Some started_at =>
      if policy_latency (win_policy w) <=? Z.max (now - started_at) 0 then (BatchRejected, w)
      else
        let next_bytes := win_bytes w + item_bytes in
        if u64_max <? next_bytes then (BatchRejected, w)
        else if (policy_bytes (win_policy w) <? next_bytes) || (policy_items (win_policy w) <=? win_items w)
        then (BatchRejected, w)
        else
          let w := mkBatchWindow (win_policy w) (win_started_at w) next_bytes (win_items w + 1) in
          (fullness w, w)
  | None =>
      let w := mkBatchWindow (win_policy w) (Some now) item_bytes 1 in
      (fullness w, w)
  end.

Definition reset_window (w : BatchWindow) : BatchWindow := new_window (win_policy w).

(** ** Messages *)

Inductive PaneMessage :=
| MsgInput (bytes : list Z)
| MsgResize (size : TerminalSize)
| MsgOutput (bytes : list Z)
| MsgReaderEof
| MsgReaderError
| MsgClose.

Definition len (bytes : list Z) : Z := Z.of_nat (length bytes).

(** The result of [collect_output_batch]: the window, the bytes of the batch,
    the message kept for the next turn, and how many results of [try_recv]
    were used. *)
Record Collected := mkCollected {
  col_window : BatchWindow;
  col_bytes : list Z;
  col_pending : option PaneMessage;
  col_used : nat;
}.

Section collect.
  Context (clock : nat → Z) (recv : nat → TryRecvError + PaneMessage).

(** The loop, before its [i]-th call of [try_recv]. *)
Fixpoint collect_loop (fuel i : nat) (admission : BatchAdmission) (w : BatchWindow) (batch : list Z) :
    option Collected :=
  match fuel with
  | O => None
  | Datatypes.S fuel =>
      match admission with
      | BatchAcceptedAndFull => Some (mkCollected w batch None i)
      | _ =>
          match recv i with
          | inr (MsgOutput bytes) =>
              match try_push (clock (Datatypes.S i)) (len bytes) w with
              | (BatchRejected, w) => Some (mkCollected w batch (Some (MsgOutput bytes)) (Datatypes.S i))
              | (admission, w) => collect_loop fuel (Datatypes.S i) admission w (batch ++ bytes)
              end
          | inr message => Some (mkCollected w batch (Some message) (Datatypes.S i))
          | inl _ => Some (mkCollected w batch None (Datatypes.S i))
          end
      end
  end.

Definition collect_output_batch (fuel : nat) (policy : BatchPolicy) (first : list Z) : option Collected :=
  let '(admission, w) := try_push (clock 0) (len first) (new_window policy) in
  collect_loop fuel 0 admission w first.

End collect.

Definition u32_max : Z := 4294967295.

(** The metrics it returns. *)
Definition collected_metrics (c : Collected) : RuntimeBatchMetrics :=
  mkBatchMetrics (win_bytes (col_window c))
    (if win_items (col_window c) <=? u32_max then win_items (col_window c) else u32_max) 0 0.

(** ** Effects of a delta *)

(** The resolved parts of a delta ([Delta]). *)
Record DeltaView := mkView {
  view_effects : list RuntimeEffectRef;
  view_visible : list Z;
  view_damage : list DamageRegion;
  view_metadata : PaneMetadataDelta;
  view_snapshot_changed : bool;
}.

Definition view (d : RuntimeDelta) : option DeltaView :=
  let b := delta_buffers d in
  effects ← Delta.effects b;
  metadata ← owned_metadata b;
  Some (mkView effects (rb_visible b) (rb_damage b) metadata (snapshot_changed d)).

Definition host_effect (effect : RuntimeEffectRef) : option RuntimeEffectKind :=
  match effect with
  | RefTransportWrite _ => None
  | RefModeChange change => Some (ModeChange change)
  | RefConsoleWrite bytes => Some (HostStream bytes)
  | RefBell count => if count =? 0 then None else Some (Bell count)
  | RefClipboardWrite selection contents => Some (ClipboardWrite selection contents)
  | RefClipboardRead selection => Some (ClipboardRead selection)
  | RefNotification title body => Some (Notification title body)
  | RefDiagnostic message => Some (Diagnostic message)
  end.

Definition host_effect_kinds (capture_visible_output : bool) (v : DeltaView) : list RuntimeEffectKind :=
  (if capture_visible_output && bool_decide (view_visible v ≠ []) then [VisibleOutput (view_visible v)] else []) ++
  omap host_effect (view_effects v).

(** The last [map] of [owned_host_effects] and its [collect]: numbering stops
    with an error when the counter is exhausted. *)
Fixpoint number_effects (pane : PaneToken) (revision : Z) (next : option Z) (kinds : list RuntimeEffectKind) :
    option (list PublishedEffect) * option Z :=
  match kinds with
  | [] => (Some [], next)
  | kind :: kinds =>
      match next with
      | None => (None, None)
      | Some sequence =>
          let '(rest, next) := number_effects pane revision (ok (next_sequence sequence)) kinds in
          ((λ rest, mkPublished pane revision (mkEffect sequence kind) :: rest) <$> rest, next)
      end
  end.

Definition owned_host_effects (pane : PaneToken) (revision : Z) (v : DeltaView) (next : option Z)
    (capture_visible_output : bool) : option (list PublishedEffect) * option Z :=
  number_effects pane revision next (host_effect_kinds capture_visible_output v).

(** The responses are written to the transport until a write, or the notice
    that it completed, fails. *)
Fixpoint write_transport_effects (write_ok : list Z → bool) (effects : list RuntimeEffectRef) : bool :=
  match effects with
  | [] => true
  | RefTransportWrite bytes :: effects => write_ok bytes && write_transport_effects write_ok effects
  | _ :: effects => write_transport_effects write_ok effects
  end.

(** ** The worker *)

Section worker.
  Context {S : Type} (token : PaneToken) (capture_visible_output : bool).
  Local Abbreviation Frame := (PresentationFrame S).

Record Worker := mkWorker { worker_revision : Z; next_effect_sequence : option Z }.

Definition initial_sequences : Worker := mkWorker 1 (Some 1).

(** What a publication gets. *)
Record Publish := mkPublish { publish_frame_of : Frame; publish_effects_of : list PublishedEffect }.

(** [DeltaPublisher::publish]: what is published, whether it returns without
    an error, and the worker's counter of effects. [publish_ok] is the result
    of [PanePublication::publish]. *)
Definition publish_delta (w : Worker) (v : DeltaView) (snapshot : S) (state : TerminalStateSummary)
    (metrics : RuntimeBatchMetrics) (always_publish : bool) (write_ok : list Z → bool) (publish_ok : bool) :
    option Publish * bool * Worker :=
  let transport_result := write_transport_effects write_ok (view_effects v) in
  let '(effects, next) :=
    owned_host_effects token (worker_revision w) v (next_effect_sequence w) capture_visible_output in
  let w := mkWorker (worker_revision w) next in
  match effects with
  | None => (None, false, w)
  | Some effects =>
      let should_publish :=
        always_publish || view_snapshot_changed v || bool_decide (view_damage v ≠ []) ||
        bool_decide (view_metadata v ≠ no_metadata) || bool_decide (effects ≠ []) in
      if should_publish
      then
        (Some (mkPublish (mkFrame token (worker_revision w) snapshot state (view_snapshot_changed v) false
                            (view_damage v) (view_metadata v) metrics) effects),
         transport_result && publish_ok, w)
      else (None, transport_result, w)
  end.

(** A turn of the loop, with what the other components return in it. *)
Inductive Turn :=
| TurnInput (written : bool)
| TurnOutput (v : DeltaView) (snapshot : S) (state : TerminalStateSummary) (metrics : RuntimeBatchMetrics)
    (write_ok : list Z → bool) (publish_ok : bool)
| TurnResize (resized : bool) (v : DeltaView) (snapshot : S) (state : TerminalStateSummary)
    (metrics : RuntimeBatchMetrics) (write_ok : list Z → bool) (publish_ok : bool)
| TurnStop.

(** A publication that is followed by the next revision. *)
Definition publish_and_advance (r : option Publish * bool * Worker) : option Publish * bool * Worker :=
  let '(published, result, w) := r in
  if result
  then
    match ok (next_revision (worker_revision w)) with
    | Some revision => (published, true, mkWorker revision (next_effect_sequence w))
    | None => (published, false, w)
    end
  else (published, false, w).

(** The body of the loop: what is published, and whether the loop goes on. *)
Definition worker_turn (w : Worker) (turn : Turn) : option Publish * bool * Worker :=
  match turn with
  | TurnInput written => (None, written, w)
  | TurnOutput v snapshot state metrics write_ok publish_ok =>
      publish_and_advance (publish_delta w v snapshot state metrics true write_ok publish_ok)
  | TurnResize resized v snapshot state metrics write_ok publish_ok =>
      if resized then publish_and_advance (publish_delta w v snapshot state metrics true write_ok publish_ok)
      else (None, false, w)
  | TurnStop => (None, false, w)
  end.

Definition is_stop (turn : Turn) : bool := match turn with TurnStop => true | _ => false end.

(** The loop: the publications, and whether it ended without an error, which
    includes that it was stopped. *)
Fixpoint worker_loop (w : Worker) (turns : list Turn) : list Publish * bool * Worker :=
  match turns with
  | [] => ([], true, w)
  | turn :: turns =>
      if is_stop turn then ([], true, w)
      else
        let '(published, go_on, w) := worker_turn w turn in
        if go_on
        then let '(rest, clean, w) := worker_loop w turns in (option_list published ++ rest, clean, w)
        else (option_list published, false, w)
  end.

(** [run_worker]: the loop, then what [finish_into] left. *)
Definition run_worker (turns : list Turn) (v : DeltaView) (snapshot : S) (state : TerminalStateSummary)
    (metrics : RuntimeBatchMetrics) (write_ok : list Z → bool) (publish_ok : bool) : list Publish * bool :=
  let '(published, clean, w) := worker_loop initial_sequences turns in
  let '(final, _, _) := publish_delta w v snapshot state metrics false write_ok publish_ok in
  (published ++ option_list final, clean).

End worker.

(** ** Collecting output *)

Section collecting.
  Context (clock : nat → Z) (recv : nat → TryRecvError + PaneMessage).

(** The window of a batch of [chunks] after its first item. *)
Record window_of (policy : BatchPolicy) (first : list Z) (chunks : list (list Z)) (w : BatchWindow) : Prop := {
  wo_policy : win_policy w = policy;
  wo_started : is_Some (win_started_at w);
  wo_bytes : win_bytes w = len (first ++ concat chunks);
  wo_items : win_items w = 1 + Z.of_nat (length chunks);
  wo_limit : chunks ≠ [] → win_bytes w ≤ policy_bytes policy ∧ win_items w ≤ policy_items policy;
}.

Definition chunks_received (chunks : list (list Z)) : Prop :=
  ∀ i chunk, chunks !! i = Some chunk → recv i = inr (MsgOutput chunk).

(** How collecting ended: full, without a further message, or with a message
    that belongs to the next turn. *)
Definition collect_end (n : nat) (c : Collected) : Prop :=
  match col_pending c with
  | Some message => recv n = inr message ∧ col_used c = Datatypes.S n
  | None =>
      (fullness (col_window c) = BatchAcceptedAndFull ∧ col_used c = n) ∨
      ((∃ e, recv n = inl e) ∧ col_used c = Datatypes.S n)
  end.

Lemma window_push policy first chunks w now chunk adm w' :
  window_of policy first chunks w → try_push now (len chunk) w = (adm, w') →
  (adm = BatchRejected ∧ w' = w) ∨
  (adm = fullness w' ∧ window_of policy first (chunks ++ [chunk]) w').
Proof.
  intros [Hp [st Hs] Hb Hi Hl]. unfold try_push. rewrite Hs.
  destruct (_ <=? _); [intros [= <- <-]; by left|]. destruct (_ <? _); [intros [= <- <-]; by left|].
  destruct (_ || _) eqn:Ho; [intros [= <- <-]; by left|]. intros [= <- <-]. right. split; [done|].
  apply orb_false_iff in Ho as [H1%Z.ltb_ge H2%Z.leb_gt].
  split; cbn [win_policy win_started_at win_bytes win_items]; [done|done| | |].
  - rewrite Hb, concat_app. unfold len. cbn [concat]. rewrite app_nil_r, !app_assoc, !length_app. lia.
  - rewrite length_app. cbn [length]. lia.
  - intros _. rewrite Hp in *. lia.
Qed.

Lemma fullness_cases w : fullness w = BatchAcceptedAndFull ∨ fullness w = BatchAccepted.
Proof. unfold fullness. destruct (_ || _); auto. Qed.

Lemma collect_loop_spec policy first fuel chunks w :
  window_of policy first chunks w → chunks_received chunks →
  (Z.to_nat (policy_items policy) + 1 ≤ fuel + length chunks)%nat → (0 < fuel)%nat →
  ∃ c chunks', collect_loop clock recv fuel (length chunks) (fullness w) w (first ++ concat chunks) = Some c ∧
    col_bytes c = first ++ concat chunks' ∧ window_of policy first chunks' (col_window c) ∧
    chunks_received chunks' ∧ collect_end (length chunks') c.
Proof.
  revert chunks w. induction fuel as [|fuel IH]; intros chunks w Hw Hr Hf Hp; [lia|]. cbn [collect_loop].
  destruct (fullness_cases w) as [Hfull|Hfull]; rewrite Hfull.
  { exists (mkCollected w (first ++ concat chunks) None (length chunks)), chunks. split_and!; try done; by left. }
  destruct (recv (length chunks)) as [e|m] eqn:Hm.
  { eexists _, chunks. split_and!; try done; right; split; [by eexists|done]. }
  destruct m as [| |bytes| | |]; try (eexists _, chunks; split_and!; try done; by split).
  destruct (try_push _ _ w) as [adm w'] eqn:Hpush.
  destruct (window_push _ _ _ _ _ _ _ _ Hw Hpush) as [[-> ->]|[-> Hw']].
  { eexists _, chunks. split_and!; try done; by split. }
  assert (chunks_received (chunks ++ [bytes])) as Hr'.
  { intros i chunk [Hi|[? Hi]]%lookup_app_Some; [by apply Hr|]. apply list_lookup_singleton_Some in Hi as [Hi <-].
    by replace i with (length chunks) by lia. }
  assert ((Z.to_nat (policy_items policy) + 1 ≤ fuel + length (chunks ++ [bytes]))%nat) as Hf'
    by (rewrite length_app; cbn; lia).
  destruct fuel as [|fuel].
  { exfalso. pose proof (wo_items _ _ _ _ Hw). rewrite length_app in Hf'. cbn in Hf'.
    unfold fullness in Hfull. rewrite (wo_policy _ _ _ _ Hw) in Hfull.
    destruct (_ || _) eqn:Ho; [done|]. apply orb_false_iff in Ho as [_ Ho%Z.leb_gt]. lia. }
  destruct (IH (chunks ++ [bytes]) w' Hw' Hr' Hf' ltac:(lia)) as (c & chunks' & Hc & Hrest).
  exists c, chunks'. split; [|done]. rewrite <-Hc, length_app, Nat.add_1_r, concat_app. cbn [concat].
  rewrite app_nil_r, app_assoc. by destruct (fullness_cases w') as [-> | ->].
Qed.

End collecting.

(** C26. Collecting a batch of output ends within as many rounds as the policy
    admits items, whatever other threads put into the mailbox meanwhile. The
    batch is the first chunk followed by the chunks received, whole and in
    order; the message that ended it is kept for the next turn; and beyond
    its first chunk the batch respects the limits of the policy. *)
Theorem output_batch_lossless clock recv policy first fuel :
  (Z.to_nat (policy_items policy) + 1 ≤ fuel)%nat →
  ∃ c chunks, collect_output_batch clock recv fuel policy first = Some c ∧
    col_bytes c = first ++ concat chunks ∧ chunks_received recv chunks ∧ collect_end recv (length chunks) c ∧
    win_bytes (col_window c) = len (col_bytes c) ∧
    (chunks ≠ [] → len (col_bytes c) ≤ policy_bytes policy ∧ 1 + Z.of_nat (length chunks) ≤ policy_items policy).
Proof.
  intros Hf. unfold collect_output_batch, try_push, new_window. cbn [win_started_at win_policy].
  destruct (collect_loop_spec clock recv policy first fuel [] (mkBatchWindow policy (Some (clock 0%nat)) (len first) 1))
    as (c & chunks & Hc & Hb & Hw & Hr & He).
  - split; cbn; try done. by rewrite app_nil_r.
  - by intros i chunk.
  - cbn. lia.
  - lia.
  - exists c, chunks. cbn [concat length] in Hc. rewrite app_nil_r in Hc. destruct Hw as [_ _ H3 H4 H5].
    split_and!; try done; [by rewrite H3, Hb|]. intros Hn. rewrite Hb, <-H3, <-H4. by apply H5.
Qed.

Lemma output_batch_lossless_witness :
  let recv i := match i with 0%nat => inr (MsgOutput [3; 4]) | 1%nat => inr (MsgOutput [5]) | _ => inr MsgClose end in
  ∃ c chunks, collect_output_batch (λ i, Z.of_nat i) recv 17 default_policy [1; 2] = Some c ∧
    col_bytes c = [1; 2] ++ concat chunks ∧ chunks_received recv chunks ∧ collect_end recv (length chunks) c ∧
    win_bytes (col_window c) = len (col_bytes c) ∧
    (chunks ≠ [] → len (col_bytes c) ≤ policy_bytes default_policy ∧
       1 + Z.of_nat (length chunks) ≤ policy_items default_policy).
Proof. intros recv. apply output_batch_lossless. vm_compute. lia. Defined.

(** ** The published stream *)

Section stream.
  Context {S : Type} (token : PaneToken) (capture_visible_output : bool).
  Local Abbreviation Pub := (Publish (S:=S)).
  Local Abbreviation loop := (worker_loop (S:=S) token capture_visible_output).

(** The counter of effects before effect [n]; none behind the last number. *)
Definition cursor_at (n : Z) : option Z := if n <=? u64_max then Some n else None.

Lemma number_effects_spec r n kinds es next :
  1 ≤ n → number_effects token r (cursor_at n) kinds = (Some es, next) →
  ∃ effs, es = mkPublished token r <$> effs ∧ effect_kind <$> effs = kinds ∧ numbered_from n effs ∧
    next = cursor_at (n + Z.of_nat (length effs)).
Proof.
  revert n es next. induction kinds as [|kind kinds IH]; intros n es next Hn; cbn [number_effects].
  - intros [= <- <-]. exists []. cbn. rewrite Z.add_0_r. by split_and!.
  - unfold cursor_at at 1. destruct (Z.leb_spec n u64_max); [|done].
    assert (ok (next_sequence n) = cursor_at (n + 1)) as ->
      by (unfold next_sequence, next_in, cursor_at; by destruct (_ <=? _)).
    destruct (number_effects token r (cursor_at (n + 1)) kinds) as [[rest|] next'] eqn:Hk; [|done].
    intros [= <- <-]. destruct (IH (n + 1) _ _ ltac:(lia) Hk) as (effs & -> & <- & Hnum & ->).
    exists (mkEffect n kind :: effs). split_and!; try done; [by apply numbered_cons|].
    f_equal. cbn [length]. lia.
Qed.

(** Publications at consecutive revisions from [r], with effects numbered
    from [n] that carry the revision of their frame. *)
Fixpoint stream (r n : Z) (pubs : list Pub) : Prop :=
  match pubs with
  | [] => True
  | p :: pubs =>
      frame_revision (publish_frame_of p) = r ∧
      ∃ effs, publish_effects_of p = mkPublished token r <$> effs ∧ numbered_from n effs ∧
        stream (r + 1) (n + Z.of_nat (length effs)) pubs
  end.

Definition effect_total (pubs : list Pub) : Z := Z.of_nat (length (concat (publish_effects_of <$> pubs))).

Lemma stream_app r n pubs1 pubs2 :
  stream r n (pubs1 ++ pubs2) ↔
  stream r n pubs1 ∧ stream (r + Z.of_nat (length pubs1)) (n + effect_total pubs1) pubs2.
Proof.
  revert r n. induction pubs1 as [|p pubs1 IH]; intros r n; cbn [app stream].
  - unfold effect_total. cbn. rewrite !Z.add_0_r. tauto.
  - assert (∀ effs, publish_effects_of p = mkPublished token r <$> effs →
      effect_total (p :: pubs1) = Z.of_nat (length effs) + effect_total pubs1) as Ht.
    { intros effs He. unfold effect_total. cbn. rewrite length_app, He, length_fmap. lia. }
    replace (r + Z.of_nat (length (p :: pubs1))) with (r + 1 + Z.of_nat (length pubs1)) by (cbn [length]; lia).
    split.
    + intros (H1 & effs & H2 & H3 & [H4 H5]%IH). rewrite (Ht effs H2), Z.add_assoc. naive_solver.
    + intros ((H1 & effs & H2 & H3 & H4) & H5). rewrite (Ht effs H2), Z.add_assoc in H5. split; [done|].
      exists effs. split_and!; [done..|]. apply IH. done.
Qed.

Lemma publish_delta_spec r n v snapshot state metrics always write_ok publish_ok p result w :
  1 ≤ n →
  publish_delta token capture_visible_output (mkWorker r (cursor_at n)) v snapshot state metrics always write_ok
    publish_ok = (p, result, w) →
  worker_revision w = r ∧ stream r n (option_list p) ∧
  (always = true → result = true → is_Some p) ∧
  (is_Some p → next_effect_sequence w = cursor_at (n + effect_total (option_list p))).
Proof.
  intros Hn. unfold publish_delta, owned_host_effects. cbn [worker_revision next_effect_sequence].
  destruct (number_effects _ _ _ _) as [[es|] next] eqn:Hk; [|intros [= <- <- <-]; split_and!; try done; by intros []].
  apply number_effects_spec in Hk as (effs & -> & _ & Hnum & ->); [|done].
  destruct (_ || _) eqn:Hs; intros [= <- <- <-].
  - split; [done|]. split; [split; [done|by exists effs]|]. split; [by eexists|]. intros _. unfold effect_total. cbn.
    by rewrite app_nil_r, length_fmap.
  - split; [done|]. split; [done|]. split; [by intros ->|by intros []].
Qed.

Lemma worker_turn_spec r n turn p w :
  1 ≤ n → 1 ≤ r → worker_turn token capture_visible_output (mkWorker r (cursor_at n)) turn = (p, true, w) →
  stream r n (option_list p) ∧
  w = mkWorker (r + Z.of_nat (length (option_list p))) (cursor_at (n + effect_total (option_list p))).
Proof.
  intros Hn Hr.
  assert (∀ (q : option Pub * bool * Worker),
    (let '(p', result, w') := q in
     worker_revision w' = r ∧ stream r n (option_list p') ∧ (result = true → is_Some p') ∧
     (is_Some p' → next_effect_sequence w' = cursor_at (n + effect_total (option_list p')))) →
    publish_and_advance q = (p, true, w) →
    stream r n (option_list p) ∧
    w = mkWorker (r + Z.of_nat (length (option_list p))) (cursor_at (n + effect_total (option_list p)))) as Hadv.
  { intros [[p' result] [r' next]] (H1 & H2 & H3 & H4). cbn in H1. subst r'. unfold publish_and_advance.
    destruct result; [|done]. destruct (H3 eq_refl) as [x ->]. cbn in H4.
    unfold next_revision, next_in. destruct (_ <=? _); [|done]. intros [= <- <-]. cbn. rewrite H4 by done. done. }
  destruct turn as [written|v sn st m wr pu|resized v sn st m wr pu|]; cbn [worker_turn]; [| | |done].
  - intros [= <- -> <-]. split; [done|]. unfold effect_total. cbn. by rewrite !Z.add_0_r.
  - apply Hadv. destruct (publish_delta _ _ _ _ _ _ _ _ _ _) as [[p' result] w'] eqn:Hp.
    apply publish_delta_spec in Hp; [|done]. naive_solver.
  - destruct resized; [|done]. apply Hadv. destruct (publish_delta _ _ _ _ _ _ _ _ _ _) as [[p' result] w'] eqn:Hp.
    apply publish_delta_spec in Hp; [|done]. naive_solver.
Qed.

Lemma effect_total_app pubs1 pubs2 : effect_total (pubs1 ++ pubs2) = effect_total pubs1 + effect_total pubs2.
Proof. unfold effect_total. rewrite fmap_app, concat_app, length_app. lia. Qed.

Lemma worker_loop_spec r n turns pubs w :
  1 ≤ n → 1 ≤ r → loop (mkWorker r (cursor_at n)) turns = (pubs, true, w) →
  stream r n pubs ∧ w = mkWorker (r + Z.of_nat (length pubs)) (cursor_at (n + effect_total pubs)).
Proof.
  assert (∀ r n, mkWorker r (cursor_at n) = mkWorker (r + 0) (cursor_at (n + 0))) as H0 by (intros; by rewrite !Z.add_0_r).
  revert r n pubs. induction turns as [|turn turns IH]; intros r n pubs Hn Hr; cbn [worker_loop].
  { intros [= <- <-]. split; [done|apply H0]. }
  destruct (is_stop turn); [intros [= <- <-]; split; [done|apply H0]|].
  destruct (worker_turn token capture_visible_output (mkWorker r (cursor_at n)) turn) as [[p go] w1] eqn:Ht.
  destruct go; [|done]. apply worker_turn_spec in Ht as [Hs ->]; [|done..].
  destruct (loop _ turns) as [[rest clean] w2] eqn:Hl. intros [= <- -> ->].
  assert (0 ≤ effect_total (option_list p)) by (unfold effect_total; lia).
  apply IH in Hl as [Hs2 ->]; [|lia..]. split; [by apply stream_app|].
  rewrite effect_total_app, length_app, Nat2Z.inj_add, !Z.add_assoc. done.
Qed.

(** A run that ends without an error publishes one stream from 1. *)
Lemma run_worker_stream turns v snapshot state metrics write_ok publish_ok pubs :
  run_worker token capture_visible_output turns v snapshot state metrics write_ok publish_ok = (pubs, true) →
  stream 1 1 pubs.
Proof.
  unfold run_worker. change initial_sequences with (mkWorker 1 (cursor_at 1)).
  destruct (loop _ turns) as [[published clean] w] eqn:Hl.
  destruct (publish_delta _ _ _ _ _ _ _ _ _ _) as [[final result] w'] eqn:Hp. intros [= <- ->].
  apply worker_loop_spec in Hl as [Hs ->]; [|lia..]. apply publish_delta_spec in Hp as (_ & Hf & _).
  - by apply stream_app.
  - unfold effect_total. lia.
Qed.

(** Turns that go on, then more turns. *)
Lemma worker_loop_app w before turns pubs w' :
  Forall (λ turn, is_stop turn = false) before → loop w before = (pubs, true, w') →
  loop w (before ++ turns) = let '(rest, clean, w'') := loop w' turns in (pubs ++ rest, clean, w'').
Proof.
  intros Hb. revert w pubs. induction Hb as [|turn before Ht Hb IH]; intros w pubs; cbn [app worker_loop].
  - intros [= <- <-]. by destruct (loop w turns) as [[rest clean] w''].
  - rewrite Ht. destruct (worker_turn token capture_visible_output w turn) as [[p go] w1].
    destruct go; [|done]. destruct (loop w1 before) as [[rest clean] w2] eqn:Hl. intros [= <- -> ->].
    rewrite (IH _ _ Hl). destruct (loop w' turns) as [[rest' clean'] w'']. by rewrite app_assoc.
Qed.

(** A delta with a response that cannot be written is published; the worker
    ends at the same revision, and publishes what is left there. *)
Lemma failed_write_run before pubs w v snapshot state metrics write_ok publish_ok after vf snapshotf statef metricsf
    write_okf publish_okf :
  Forall (λ turn, is_stop turn = false) before → loop initial_sequences before = (pubs, true, w) →
  write_transport_effects write_ok (view_effects v) = false →
  is_Some (owned_host_effects token (worker_revision w) v (next_effect_sequence w) capture_visible_output).1 →
  ∃ failed final,
    run_worker token capture_visible_output (before ++ TurnOutput v snapshot state metrics write_ok publish_ok :: after)
      vf snapshotf statef metricsf write_okf publish_okf = (pubs ++ failed :: option_list final, false) ∧
    stream 1 1 (pubs ++ [failed]) ∧ frame_revision (publish_frame_of failed) = worker_revision w ∧
    ∀ last, final = Some last → frame_revision (publish_frame_of last) = worker_revision w ∧
      ∃ effs, publish_effects_of last = mkPublished token (worker_revision w) <$> effs.
Proof.
  intros Hb Hl Hw [es Hes]. unfold run_worker. rewrite (worker_loop_app _ _ _ _ _ Hb Hl).
  change initial_sequences with (mkWorker 1 (cursor_at 1)) in Hl. apply worker_loop_spec in Hl as [Hs ->]; [|lia..].
  set (r := 1 + Z.of_nat (length pubs)) in *. set (n := 1 + effect_total pubs) in *.
  assert (1 ≤ n) as Hn by (unfold n, effect_total; lia). cbn [worker_revision next_effect_sequence] in *.
  cbn [worker_loop is_stop worker_turn].
  destruct (publish_delta token capture_visible_output (mkWorker r (cursor_at n)) v snapshot state metrics true write_ok publish_ok)
    as [[p result] w1] eqn:Hp.
  assert (∃ failed, p = Some failed ∧ result = false) as (failed & -> & ->).
  { unfold publish_delta in Hp. cbn [worker_revision next_effect_sequence] in Hp.
    destruct (owned_host_effects _ _ _ _ _) as [effects next]. cbn in Hes. subst effects.
    cbn [orb] in Hp. injection Hp as <- <- _. rewrite Hw. by eexists. }
  pose proof Hp as (H1 & H2 & _ & H4)%publish_delta_spec; [|done]. destruct w1 as [r1 next]. cbn in H1, H4. subst r1.
  cbn [publish_and_advance].
  destruct (publish_delta token capture_visible_output (mkWorker r next) vf _ _ _ _ _ _) as [[final res] w2] eqn:Hf.
  exists failed, final. cbn [option_list]. rewrite <-app_assoc. split; [done|].
  split; [by apply stream_app|]. split; [apply H2|]. intros last ->.
  rewrite H4 in Hf by (by eexists). apply publish_delta_spec in Hf as (_ & Hf & _); [|unfold effect_total; lia].
  destruct Hf as (Hr & effs & He & _). split; [done|by exists effs].
Qed.

(** ** From the worker to the pipeline *)

(** The publications among the events of a run. *)
Definition publications_of (events : list (PipeEvent (S:=S))) : list (PresentationFrame S * list PublishedEffect) :=
  omap (λ event, match event with
                 | EvPublish frame effects => Some (frame, mkPublished token (frame_revision frame) <$> effects)
                 | EvDrain _ => None
                 end) events.

Definition published_by (pubs : list Pub) (events : list (PipeEvent (S:=S))) : Prop :=
  publications_of events = (λ p, (publish_frame_of p, publish_effects_of p)) <$> pubs.

Lemma published_inj r1 r2 (es1 es2 : list RuntimeEffect) :
  mkPublished token r1 <$> es1 = mkPublished token r2 <$> es2 → es1 = es2.
Proof.
  revert es2. induction es1 as [|e es1 IH]; intros [|e2 es2]; try done. cbn. intros [= _ <- H]. f_equal. by apply IH.
Qed.

Lemma stream_events r n pubs events :
  stream r n pubs → published_by pubs events →
  revisions_increase (r - 1) (frames_of events) ∧ numbered_from n (effects_of events).*2 ∧
  Z.of_nat (length (effects_of events)) = effect_total pubs.
Proof.
  revert r n pubs. induction events as [|[frame effects|max] events IH]; intros r n pubs Hs Hp.
  - destruct pubs; [|done]. by split_and!.
  - destruct pubs as [|p pubs]; [done|]. injection Hp as Hf He Hp.
    destruct Hs as (Hr & effs & He' & Hnum & Hs). rewrite He' in He. rewrite <-Hf in Hr.
    rewrite Hr in He. apply published_inj in He as ->.
    destruct (IH _ _ _ Hs Hp) as (H1 & H2 & H3). unfold effects_of, effect_total in *.
    rewrite !fmap_cons. cbn [concat frames_of omap list_omap].
    split_and!.
    + cbn [revisions_increase]. rewrite Hr. split; [lia|]. by replace r with (r + 1 - 1) at 1 by lia.
    + rewrite fmap_app, numbered_app, <-list_fmap_compose, list_fmap_id. done.
    + rewrite !length_app, He', !length_fmap in *. lia.
  - apply (IH r n pubs Hs Hp).
Qed.

Lemma published_frames pubs events : published_by pubs events → frames_of events = publish_frame_of <$> pubs.
Proof.
  unfold published_by. revert pubs. induction events as [|[frame effects|max] events IH]; intros pubs Hp.
  - by destruct pubs.
  - destruct pubs as [|p pubs]; [done|]. injection Hp as Hf _ Hp. cbn. rewrite Hf. f_equal. by apply IH.
  - by apply IH.
Qed.

Lemma stream_well_numbered pubs events :
  stream 1 1 pubs → published_by pubs events → 1 + effect_total pubs ≤ u64_max → well_numbered events.
Proof. intros Hs Hp Hb. destruct (stream_events 1 1 pubs events Hs Hp) as (H1 & H2 & H3). split_and!; [done|done|lia]. Qed.

End stream.
