(* ===== verification/Hub.v ===== *)
(** The runtime hub ([rssh-runtime/src/hub.rs]) with the handles and notices
    of its panes ([pane.rs]): opening and restarting panes, orderly close with
    a deadline, notices, and draining the ready panes in turn.

    Threads, their joins and the interrupt of a session are outside the model;
    whether a worker can be spawned is an argument. A [HashMap] is a [gmap];
    the order in which the source iterates over one is an argument. Times are
    [Z] in nanoseconds. *)
From coqutil Require Import Datatypes.RecordSetters.
From S2P Require Import Prelude Text Launch Grid Screen Mailbox RuntimeApi Publication Delta PaneWorker.
Import DoubleBraceUpdate.

Local Open Scope Z_scope.

(** ** Handles *)

Inductive SubmitResult := SubmitAccepted | SubmitBackpressured (retry_after : Z) | SubmitClosed.
Definition BACKPRESSURE_RETRY : Z := 1000000.

Section handle.
  Context `{Allocation}.

Definition message_retained_bytes (message : PaneMessage) : Z :=
  match message with MsgInput bytes | MsgOutput bytes => capacity bytes | _ => 0 end.

Lemma message_retained_range message : is_u64 (message_retained_bytes message).
Proof.
  unfold is_u64, u64_max. destruct message as [l|s|l| | |]; cbn [message_retained_bytes]; try lia;
    pose proof (capacity_range l) as Hc; unfold isize_max in Hc; lia.
Qed.

#[export] Instance message_item : MailboxItem PaneMessage := {
  retained_bytes := message_retained_bytes;
  retained_bytes_usize := message_retained_range;
}.

(** The endpoint of one pane generation; the inbox is shared with its worker
    and reader. *)
Record PaneHandle := mkHandle {
  handle_token : PaneToken;
  handle_limits : MailboxLimits;
  handle_inbox : State PaneMessage;
  handle_accepting : bool;
}.

Definition submit (message : PaneMessage) (h : PaneHandle) : SubmitResult * PaneHandle :=
  if handle_accepting h
  then
    let '(r, inbox, _) := try_send (handle_limits h) message (handle_inbox h) in
    let h := mkHandle (handle_token h) (handle_limits h) inbox (handle_accepting h) in
    match r with
    | inr _ => (SubmitAccepted, h)
    | inl (TrySendClosed _) => (SubmitClosed, h)
    | inl _ => (SubmitBackpressured BACKPRESSURE_RETRY, h)
    end
  else (SubmitClosed, h).

Definition submit_input (bytes : list Z) : PaneHandle → SubmitResult * PaneHandle := submit (MsgInput bytes).
Definition submit_resize (size : TerminalSize) : PaneHandle → SubmitResult * PaneHandle := submit (MsgResize size).

Definition stop_accepting (h : PaneHandle) : PaneHandle :=
  mkHandle (handle_token h) (handle_limits h) (handle_inbox h) false.

Definition request_close (h : PaneHandle) : PaneHandle :=
  let h := stop_accepting h in
  let '(_, inbox, _) := try_send (handle_limits h) MsgClose (handle_inbox h) in
  mkHandle (handle_token h) (handle_limits h) inbox (handle_accepting h).

End handle.

(** ** Notices *)

Record SessionExitSignal := mkSignal {
  signal_name : rstring;
  signal_core_dumped : bool;
  signal_error_message : rstring;
  signal_lang_tag : rstring;
}.
Record SessionExit := mkExit { exit_status : option Z; exit_signal : option SessionExitSignal }.

Inductive PaneNotice :=
| NoticeReady (pane : PaneToken)
| NoticeWake (pane : PaneToken)
| NoticeInputWriteCompleted (pane : PaneToken) (byte_count elapsed : Z)
| NoticeFirstPtyByte (pane : PaneToken) (observed_at : Z)
| NoticeClosed (pane : PaneToken) (exit : option SessionExit).

Definition notice_pane (notice : PaneNotice) : PaneToken :=
  match notice with
  | NoticeReady pane | NoticeWake pane | NoticeInputWriteCompleted pane _ _ | NoticeFirstPtyByte pane _
  | NoticeClosed pane _ => pane
  end.

Definition is_closed (notice : PaneNotice) : bool := match notice with NoticeClosed _ _ => true | _ => false end.

(** ** The hub *)

Record PanePublicationMetrics := mkPubMetrics {
  pm_counters : PublicationCounters;
  pm_latest : LatestSlotMetrics;
  pm_queued_items : Z;
  pm_queued_bytes : Z;
  pm_effects : Counters;
}.

Definition publication_metrics_of {S} (p : PanePublication S) : PanePublicationMetrics :=
  mkPubMetrics (pub_counters p) (slot_metrics (pub_latest p)) (queue_len (pub_effects p))
    (queued_bytes (pub_effects p)) (counters (pub_effects p)).

Record PaneSlot (S : Type) := mkPaneSlot {
  slot_token : PaneToken;
  slot_handle : PaneHandle;
  slot_publication : PanePublication S;
  slot_close_deadline : option Z;
}.
Arguments mkPaneSlot {S}.
Arguments slot_token {S}.
Arguments slot_handle {S}.
Arguments slot_publication {S}.
Arguments slot_close_deadline {S}.

Record RuntimeHub (S : Type) := mkHub {
  hub_panes : gmap PaneId (PaneSlot S);
  pane_order : list PaneId;
  fair_drain_cursor : nat;
  notice_queue : list PaneNotice;
  notices_open : bool;
  completed_metrics : gmap PaneToken PanePublicationMetrics;
  pending_closed : gmap PaneToken PaneNotice;
  generation_counter : Z;
}.
Arguments mkHub {S}.
Arguments hub_panes {S}.
Arguments pane_order {S}.
Arguments fair_drain_cursor {S}.
Arguments notice_queue {S}.
Arguments notices_open {S}.
Arguments completed_metrics {S}.
Arguments pending_closed {S}.
Arguments generation_counter {S}.

#[export] Hint Extern 0 (@Setter (RuntimeHub ?S) _ ?getter) =>
  mk_setter (fun r : RuntimeHub S => mkHub (hub_panes r) (pane_order r) (fair_drain_cursor r) (notice_queue r)
    (notices_open r) (completed_metrics r) (pending_closed r) (generation_counter r)) getter : typeclass_instances.

#[export] Hint Extern 0 (@Setter (PaneSlot ?S) _ ?getter) =>
  mk_setter (fun r : PaneSlot S => mkPaneSlot (slot_token r) (slot_handle r) (slot_publication r)
    (slot_close_deadline r)) getter : typeclass_instances.

Inductive OpenPaneError := AlreadyOpen (pane : PaneId) | GenerationExhausted (e : SequenceExhausted) | SpawnFailed.

Section hub.
  Context `{Allocation} {S : Type}.
  Local Abbreviation Hub := (RuntimeHub S).
  Implicit Types (hub : Hub).

(** The process-wide generation counter is part of the hub. *)
Definition new_hub (counter : Z) : Hub := mkHub ∅ [] 0 [] true ∅ ∅ counter.

Definition position_of (pane : PaneId) (order : list PaneId) : option nat := position (λ candidate, candidate = pane) order.

Definition remove_pane_order (pane : PaneId) hub : Hub :=
  match position_of pane (pane_order hub) with
  | None => hub
  | Some position =>
      let order := delete position (pane_order hub) in
      let cursor :=
        match order with
        | [] => 0%nat
        | _ =>
            (if (position <? fair_drain_cursor hub)%nat then fair_drain_cursor hub - 1 else fair_drain_cursor hub)
              mod length order
        end%nat in
      hub{{ pane_order := order; fair_drain_cursor := cursor }}
  end.

(** [Vec::insert]. *)
Definition insert_at {A} (i : nat) (x : A) (l : list A) : list A := take i l ++ x :: drop i l.

Definition reposition_pane (pane : PaneId) (position : nat) hub : Hub :=
  let hub := remove_pane_order pane hub in
  let position := (position `min` length (pane_order hub))%nat in
  let order := insert_at position pane (pane_order hub) in
  hub{{ pane_order := order; fair_drain_cursor := (fair_drain_cursor hub `min` (length order - 1))%nat }}.

(** [open_with_runtime]; [spawned] tells whether the threads were created. *)
Definition open_pane (pane : PaneId) (inbox_limits : MailboxLimits) (spawned : bool) hub :
    (OpenPaneError + PaneHandle) * Hub :=
  match hub_panes hub !! pane with
  | Some _ => (inl (AlreadyOpen pane), hub)
  | None =>
      match issue pane (generation_counter hub) with
      | (inl e, counter) => (inl (GenerationExhausted e), hub{{ generation_counter := counter }})
      | (inr token, counter) =>
          let hub := hub{{ generation_counter := counter }} in
          if spawned
          then
            let handle := mkHandle token inbox_limits bounded_mailbox true in
            (inr handle,
             hub{{ hub_panes := <[pane := mkPaneSlot token handle new_publication None]> (hub_panes hub);
                   pane_order := if bool_decide (pane ∈ pane_order hub) then pane_order hub
                                 else pane_order hub ++ [pane] }})
          else (inl SpawnFailed, hub)
      end
  end.

(** [instant_max] is the last instant the platform can represent. *)
Definition begin_close (instant_max now : Z) (token : PaneToken) (grace : Z) hub : bool * Hub :=
  match hub_panes hub !! token_pane token with
  | None => (false, hub)
  | Some slot =>
      if bool_decide (slot_token slot = token)
      then
        let deadline := if now + grace <=? instant_max then now + grace else now in
        let slot := mkPaneSlot (slot_token slot) (request_close (slot_handle slot)) (slot_publication slot)
                      (Some deadline) in
        (true, hub{{ hub_panes := <[token_pane token := slot]> (hub_panes hub) }})
      else (false, hub)
  end.

(** Taking a slot out: its metrics are kept and its place in the order goes. *)
Definition remove_slot (pane : PaneId) hub : Hub :=
  match hub_panes hub !! pane with
  | None => hub
  | Some slot =>
      remove_pane_order pane
        (hub{{ hub_panes := delete pane (hub_panes hub);
               completed_metrics := <[slot_token slot := publication_metrics_of (slot_publication slot)]>
                                      (completed_metrics hub) }})
  end.

Definition expired (now : Z) (slot : PaneSlot S) : bool :=
  match slot_close_deadline slot with Some deadline => deadline <=? now | None => false end.

(** The panes whose deadline has passed, in the order of the iteration. *)
Context (pane_iteration : gmap PaneId (PaneSlot S) → list PaneId).

Definition pane_expired (now : Z) hub (pane : PaneId) : bool :=
  match hub_panes hub !! pane with Some slot => expired now slot | None => false end.

Definition expired_panes (now : Z) hub : list PaneId :=
  filter (λ pane, pane_expired now hub pane = true) (pane_iteration (hub_panes hub)).

Definition reap_expired (now : Z) hub : nat * Hub :=
  let gone := expired_panes now hub in
  (length gone, foldl (λ hub pane, remove_slot pane hub) hub gone).

Definition restart_pane (instant_max now : Z) (pane : PaneId) (inbox_limits : MailboxLimits) (spawned : bool) hub :
    (OpenPaneError + PaneHandle) * Hub :=
  let order_position := position_of pane (pane_order hub) in
  let hub :=
    match hub_panes hub !! pane with
    | Some slot => (reap_expired now (begin_close instant_max now (slot_token slot) 0 hub).2).2
    | None => hub
    end in
  match open_pane pane inbox_limits spawned hub with
  | (inr handle, hub) =>
      (inr handle, match order_position with Some position => reposition_pane pane position hub | None => hub end)
  | (inl e, hub) => (inl e, hub)
  end.

(** ** Notices *)

Definition is_current (token : PaneToken) hub : bool :=
  match hub_panes hub !! token_pane token with Some slot => bool_decide (slot_token slot = token) | None => false end.

Definition notice_has_work (notice : PaneNotice) hub : bool :=
  match hub_panes hub !! token_pane (notice_pane notice) with
  | Some slot => bool_decide (slot_token slot = notice_pane notice) && has_work (slot_publication slot)
  | None => false
  end.

Definition finish_closed_slot (notice : PaneNotice) hub : Hub :=
  if is_closed notice then remove_slot (token_pane (notice_pane notice)) hub else hub.

(** The order in which the waiting close notices are looked at. *)
Context (closed_iteration : gmap PaneToken PaneNotice → list PaneToken).

Definition drained (token : PaneToken) hub : bool :=
  match hub_panes hub !! token_pane token with
  | Some slot => negb (bool_decide (slot_token slot = token)) || negb (has_work (slot_publication slot))
  | None => true
  end.

Definition take_drained_close hub : option (PaneNotice * Hub) :=
  token ← head (filter (λ token, drained token hub = true) (closed_iteration (pending_closed hub)));
  notice ← pending_closed hub !! token;
  Some (notice, finish_closed_slot notice (hub{{ pending_closed := delete token (pending_closed hub) }})).

(** The loop of [try_recv_notice] over the queued notices. *)
Fixpoint receive_notice (queue : list PaneNotice) hub : (TryRecvError + PaneNotice) * Hub :=
  match queue with
  | [] => (inl (if notices_open hub then TryRecvEmpty else TryRecvClosed), hub{{ notice_queue := [] }})
  | notice :: queue =>
      if is_current (notice_pane notice) hub
      then
        let hub := hub{{ notice_queue := queue }} in
        if is_closed notice && notice_has_work notice hub
        then (inr (NoticeWake (notice_pane notice)),
              hub{{ pending_closed := <[notice_pane notice := notice]> (pending_closed hub) }})
        else (inr notice, finish_closed_slot notice hub)
      else receive_notice queue hub
  end.

Definition try_recv_notice hub : (TryRecvError + PaneNotice) * Hub :=
  match take_drained_close hub with
  | Some (notice, hub) => (inr notice, hub)
  | None => receive_notice (notice_queue hub) hub
  end.

(** The loop of [recv_notice]: [queue] holds the queued notices and then those
    that arrive while the call waits. [None] is a call that still waits. *)
Fixpoint wait_notice (queue : list PaneNotice) hub : option (RecvError + PaneNotice) * Hub :=
  match queue with
  | [] => (if notices_open hub then None else Some (inl RecvClosed), hub{{ notice_queue := [] }})
  | notice :: queue =>
      if is_current (notice_pane notice) hub
      then
        let hub := hub{{ notice_queue := queue }} in
        if is_closed notice && notice_has_work notice hub
        then (Some (inr (NoticeWake (notice_pane notice))),
              hub{{ pending_closed := <[notice_pane notice := notice]> (pending_closed hub) }})
        else (Some (inr notice), finish_closed_slot notice hub)
      else wait_notice queue hub
  end.

Definition recv_notice (arriving : list PaneNotice) hub : option (RecvError + PaneNotice) * Hub :=
  match take_drained_close hub with
  | Some (notice, hub) => (Some (inr notice), hub)
  | None => wait_notice (notice_queue hub ++ if notices_open hub then arriving else []) hub
  end.

(** ** Draining *)

Definition with_publication (pane : PaneId) (p : PanePublication S) hub : Hub :=
  match hub_panes hub !! pane with
  | Some slot => hub{{ hub_panes := <[pane := slot{{ slot_publication := p }}]> (hub_panes hub) }}
  | None => hub
  end.

Definition drain_pane (token : PaneToken) (max_effects : nat) hub : option (PaneDrain S) * Hub :=
  match hub_panes hub !! token_pane token with
  | Some slot =>
      if bool_decide (slot_token slot = token)
      then let '(d, p) := drain max_effects (slot_publication slot) in (Some d, with_publication (token_pane token) p hub)
      else (None, hub)
  | None => (None, hub)
  end.

(** The [for] of [drain_ready_fair]: [offsets] is what is left of [0..n]. *)
Fixpoint drain_round (max_panes max_effects start n : nat) (offsets : list nat)
    (drained : list (PaneToken * PaneDrain S)) hub : list (PaneToken * PaneDrain S) * Hub :=
  match offsets with
  | [] => (drained, hub)
  | offset :: offsets =>
      if (length drained =? max_panes)%nat then (drained, hub)
      else
        let index := ((start + offset) mod n)%nat in
        match pane_order hub !! index with
        | None => (drained, hub)
        | Some pane =>
            match hub_panes hub !! pane with
            | Some slot =>
                if has_work (slot_publication slot)
                then
                  let '(d, p) := drain max_effects (slot_publication slot) in
                  drain_round max_panes max_effects start n offsets (drained ++ [(slot_token slot, d)])
                    ((with_publication pane p hub){{ fair_drain_cursor := (Datatypes.S index mod n)%nat }})
                else drain_round max_panes max_effects start n offsets drained hub
            | None => drain_round max_panes max_effects start n offsets drained hub
            end
        end
  end.

Definition drain_ready_fair (max_panes max_effects : nat) hub : list (PaneToken * PaneDrain S) * Hub :=
  let n := length (pane_order hub) in
  if (max_panes =? 0)%nat || (n =? 0)%nat then ([], hub)
  else drain_round max_panes max_effects (fair_drain_cursor hub mod n) n (seq 0 n) [] hub.

Definition publication_metrics (token : PaneToken) hub : option PanePublicationMetrics :=
  match hub_panes hub !! token_pane token with
  | Some slot =>
      if bool_decide (slot_token slot = token) then Some (publication_metrics_of (slot_publication slot))
      else completed_metrics hub !! token
  | None => completed_metrics hub !! token
  end.

(** [shutdown], also run when the hub is dropped: no slot is left. *)
Definition shutdown hub : Hub := hub{{ notices_open := false; hub_panes := ∅ }}.

End hub.

(** ** Fairness *)

Section fair.
  Context `{Allocation} {S : Type}.
  Local Abbreviation Hub := (RuntimeHub S).
  Implicit Types (hub : Hub).

Lemma with_publication_order pane (p : PanePublication S) hub :
  pane_order (with_publication pane p hub) = pane_order hub ∧
  fair_drain_cursor (with_publication pane p hub) = fair_drain_cursor hub.
Proof. unfold with_publication. by destruct (hub_panes hub !! pane). Qed.

Lemma with_publication_other pane (p : PanePublication S) hub other :
  pane ≠ other → hub_panes (with_publication pane p hub) !! other = hub_panes hub !! other.
Proof. intros Hn. unfold with_publication. destruct (hub_panes hub !! pane); [|done]. cbn. by rewrite lookup_insert_ne. Qed.

Lemma drain_round_extends mp me start n offsets drained hub :
  drained `prefix_of` (drain_round mp me start n offsets drained hub).1.
Proof.
  revert drained hub. induction offsets as [|o offsets IH]; intros drained hub; cbn [drain_round]; [done|].
  destruct (_ =? _)%nat; [done|]. destruct (pane_order hub !! _) as [pane|]; [|done].
  destruct (hub_panes hub !! pane) as [slot|]; [|apply IH]. destruct (has_work _); [|apply IH].
  destruct (drain me (slot_publication slot)) as [d p]. etransitivity; [|apply IH]. by eexists.
Qed.

Lemma drain_round_order mp me start n offsets drained hub :
  pane_order (drain_round mp me start n offsets drained hub).2 = pane_order hub.
Proof.
  revert drained hub. induction offsets as [|o offsets IH]; intros drained hub; cbn [drain_round]; [done|].
  destruct (_ =? _)%nat; [done|]. destruct (pane_order hub !! _) as [pane|]; [|done].
  destruct (hub_panes hub !! pane) as [slot|]; [|apply IH]. destruct (has_work _); [|apply IH].
  destruct (drain me (slot_publication slot)) as [d p]. rewrite IH. apply with_publication_order.
Qed.

Lemma mod_cases a b n : (a < n)%nat → (b < n)%nat → (((a + b) mod n = a + b ∧ a + b < n) ∨ ((a + b) mod n = a + b - n ∧ n ≤ a + b))%nat.
Proof.
  intros Ha Hb. destruct (decide (a + b < n)%nat); [left; rewrite Nat.mod_small; lia|right].
  split; [|lia]. replace (a + b)%nat with ((a + b - n) + 1 * n)%nat at 1 by lia.
  rewrite Nat.Div0.mod_add, Nat.mod_small; lia.
Qed.

(** A pane with work that is [d] places behind the cursor is drained in this
    round, or the cursor comes closer to it without passing it. *)
Lemma drain_round_progress mp me start d target slot o drained hub :
  let n := length (pane_order hub) in
  NoDup (pane_order hub) → (start < n)%nat → (o ≤ d < n)%nat → (0 < mp)%nat →
  pane_order hub !! ((start + d) mod n)%nat = Some target → hub_panes hub !! target = Some slot →
  has_work (slot_publication slot) = true →
  drained = [] ∨ (∃ j, (j < o)%nat ∧ fair_drain_cursor hub = ((start + j + 1) mod n)%nat) →
  let r := drain_round mp me start n (seq o (n - o)) drained hub in
  slot_token slot ∈ r.1.*1 ∨ ∃ j, (j < d)%nat ∧ fair_drain_cursor r.2 = ((start + j + 1) mod n)%nat.
Proof.
  intros n Hnd Hs Ho Hmp Ht Hslot Hw Hc r. subst r.
  remember (n - o)%nat as k eqn:Hk. revert o drained hub n Hnd Hs Ho Ht Hslot Hc Hk.
  induction k as [|k IH]; intros o drained hub n Hnd Hs Ho Ht Hslot Hc Hk; [lia|]. cbn [seq drain_round].
  destruct (Nat.eqb_spec (length drained) mp) as [Hfull|Hfull].
  { right. destruct Hc as [->|(j & Hj & Hcur)]; [cbn in Hfull; lia|]. exists j. split; [lia|done]. }
  destruct (decide (o = d)) as [->|Hod].
  { rewrite Ht, Hslot, Hw. destruct (drain me (slot_publication slot)) as [dr p]. left.
    match goal with |- context [drain_round ?a ?b ?c ?e ?f ?g ?h] =>
      destruct (drain_round_extends a b c e f g h) as [rest Hrest]; rewrite Hrest end.
    rewrite !fmap_app, !elem_of_app. left. right. cbn. by left. }
  pose proof (mod_cases start o n Hs ltac:(lia)) as Hmo. pose proof (mod_cases start d n Hs ltac:(lia)) as Hmd.
  assert (((start + o) mod n < n)%nat) as Hidx by lia.
  destruct (lookup_lt_is_Some_2 (pane_order hub) ((start + o) mod n)%nat Hidx) as [pane Hpane]. rewrite Hpane.
  assert (pane ≠ target) as Hne.
  { intros ->. pose proof (NoDup_lookup _ _ _ _ Hnd Hpane Ht). lia. }
  assert (∀ hub', pane_order hub' = pane_order hub → hub_panes hub' !! target = Some slot →
    ∀ drained', (drained' = [] ∨ ∃ j, (j < Datatypes.S o)%nat ∧ fair_drain_cursor hub' = ((start + j + 1) mod n)%nat) →
    let r := drain_round mp me start n (seq (Datatypes.S o) k) drained' hub' in
    slot_token slot ∈ r.1.*1 ∨ ∃ j, (j < d)%nat ∧ fair_drain_cursor r.2 = ((start + j + 1) mod n)%nat) as Hgo.
  { intros hub' Ho' Hp' drained' Hc'. pose proof (IH (Datatypes.S o) drained' hub') as IH'. cbv zeta in IH'.
    rewrite Ho' in IH'. apply IH'; [done|done|lia|done|done|done|fold n; lia]. }
  assert (drained = [] ∨ ∃ j, (j < Datatypes.S o)%nat ∧ fair_drain_cursor hub = ((start + j + 1) mod n)%nat) as Hc'.
  { destruct Hc as [?|(j & ? & ?)]; [by left|right]. exists j. split; [lia|done]. }
  destruct (hub_panes hub !! pane) as [slot'|] eqn:Hs'; [|by apply Hgo].
  destruct (has_work (slot_publication slot')); [|by apply Hgo].
  destruct (drain me (slot_publication slot')) as [dr p]. apply Hgo.
  - apply with_publication_order.
  - cbn. by rewrite with_publication_other.
  - right. exists o. split; [lia|]. cbn [fair_drain_cursor].
    destruct Hmo as [[-> ?]|[-> ?]]; [by rewrite Nat.add_1_r|].
    replace (start + o + 1)%nat with (Datatypes.S (start + o - n) + 1 * n)%nat by lia. by rewrite Nat.Div0.mod_add.
Qed.

(** Rounds of the host, with publications of the workers in between. *)
Record Round := mkRound {
  round_updates : list (PaneId * PanePublication S);
  round_max_panes : nat;
  round_max_effects : nat;
}.

Definition update_all (updates : list (PaneId * PanePublication S)) hub : Hub :=
  foldl (λ hub u, with_publication u.1 u.2 hub) hub updates.

Definition ready (pane : PaneId) hub : Prop :=
  ∃ slot, hub_panes hub !! pane = Some slot ∧ has_work (slot_publication slot) = true.

(** In every round the pane is ready and is not drained. *)
Fixpoint starved (pane : PaneId) hub (rounds : list Round) : Prop :=
  match rounds with
  | [] => True
  | round :: rounds =>
      let hub := update_all (round_updates round) hub in
      let '(drained, hub') := drain_ready_fair (round_max_panes round) (round_max_effects round) hub in
      ready pane hub ∧ (0 < round_max_panes round)%nat ∧
      (∀ slot, hub_panes hub !! pane = Some slot → slot_token slot ∉ drained.*1) ∧ starved pane hub' rounds
  end.

Lemma update_all_order updates hub :
  pane_order (update_all updates hub) = pane_order hub ∧
  fair_drain_cursor (update_all updates hub) = fair_drain_cursor hub.
Proof.
  revert hub. induction updates as [|[pane p] updates IH]; intros hub; [done|].
  cbn [update_all foldl]. destruct (IH (with_publication pane p hub)) as [H1 H2].
  destruct (with_publication_order pane p hub) as [H3 H4]. unfold update_all in *. cbn in *. by rewrite H1, H2, H3, H4.
Qed.

Lemma starved_bound pane hub rounds d :
  let n := length (pane_order hub) in
  NoDup (pane_order hub) → (fair_drain_cursor hub < n)%nat → (d < n)%nat →
  pane_order hub !! ((fair_drain_cursor hub + d) mod n)%nat = Some pane →
  starved pane hub rounds → (length rounds ≤ d)%nat.
Proof.
  revert hub d. induction rounds as [|round rounds IH]; intros hub d n Hnd Hcur Hd Ht Hst; [cbn; lia|].
  cbn [starved] in Hst. set (hub1 := update_all (round_updates round) hub) in *.
  destruct (update_all_order (round_updates round) hub) as [Ho Hc]. fold hub1 in Ho, Hc.
  destruct (drain_ready_fair _ _ hub1) as [drained hub2] eqn:Hr.
  destruct Hst as ((slot & Hslot & Hw) & Hmp & Hnot & Hst). unfold drain_ready_fair in Hr. rewrite Ho, Hc in Hr.
  fold n in Hr. destruct (Nat.eqb_spec (round_max_panes round) 0); [lia|]. destruct (Nat.eqb_spec n 0); [lia|].
  cbn [orb] in Hr. rewrite Nat.mod_small in Hr by lia.
  pose proof (drain_round_progress (round_max_panes round) (round_max_effects round) (fair_drain_cursor hub) d pane slot 0
                [] hub1) as Hp. cbv zeta in Hp. rewrite Ho in Hp. fold n in Hp. rewrite Nat.sub_0_r in Hp.
  specialize (Hp Hnd Hcur ltac:(lia) Hmp Ht Hslot Hw (or_introl eq_refl)).
  pose proof (drain_round_order (round_max_panes round) (round_max_effects round) (fair_drain_cursor hub) n (seq 0 n) [] hub1)
    as Ho2. rewrite Hr in Hp, Ho2. cbn [fst snd] in *. rewrite Ho in Ho2.
  destruct Hp as [Hin|(j & Hj & Hcur2)]; [by destruct (Hnot slot Hslot)|].
  assert ((fair_drain_cursor hub2 < n)%nat) by (rewrite Hcur2; apply Nat.mod_upper_bound; lia).
  enough (length rounds ≤ d - j - 1)%nat by (cbn [length]; lia).
  apply (IH hub2); rewrite ?Ho2; try done; [fold n; lia|]. fold n. rewrite Hcur2, <-Ht. f_equal.
  rewrite Nat.Div0.add_mod_idemp_l. f_equal. lia.
Qed.

(** C9. No ready pane is starved: whatever the workers publish in between and
    however few panes and effects a round may take, a pane that is ready in
    every round is drained after fewer rounds than there are panes. *)
Theorem no_pane_starves pane hub rounds :
  NoDup (pane_order hub) → (fair_drain_cursor hub < length (pane_order hub))%nat → pane ∈ pane_order hub →
  starved pane hub rounds → (length rounds < length (pane_order hub))%nat.
Proof.
  intros Hnd Hcur (t & Ht)%list_elem_of_lookup Hst. pose proof (lookup_lt_Some _ _ _ Ht) as Hlt.
  set (n := length (pane_order hub)) in *. set (c := fair_drain_cursor hub) in *.
  set (d := if decide (c ≤ t)%nat then (t - c)%nat else (t + n - c)%nat).
  assert ((d < n)%nat) as Hd by (unfold d; case_decide; lia).
  assert (((c + d) mod n = t)%nat) as Hm.
  { destruct (mod_cases c d n Hcur Hd) as [[-> ?]|[-> ?]]; unfold d in *; case_decide; lia. }
  pose proof (starved_bound pane hub rounds d) as Hb. cbv zeta in Hb. fold n c in Hb. rewrite Hm in Hb.
  specialize (Hb Hnd Hcur Hd Ht Hst). lia.
Qed.

End fair.

(** ** Consistency *)

Section consistent.
  Context `{Allocation} {S : Type}.
  Local Abbreviation Hub := (RuntimeHub S).
  Implicit Types (hub : Hub).
  Context (pane_iteration : gmap PaneId (PaneSlot S) → list PaneId)
    (closed_iteration : gmap PaneToken PaneNotice → list PaneToken).

(** A generation the counter has issued; zero is an exhausted counter. *)
Definition issued (generation counter : Z) : Prop := 1 ≤ generation ∧ (counter = 0 ∨ generation < counter).

Record hub_inv hub : Prop := {
  hi_nodup : NoDup (pane_order hub);
  hi_listed : ∀ pane, is_Some (hub_panes hub !! pane) → pane ∈ pane_order hub;
  hi_order : notices_open hub = true → ∀ pane, pane ∈ pane_order hub → is_Some (hub_panes hub !! pane);
  hi_cursor : (fair_drain_cursor hub < 1 `max` length (pane_order hub))%nat;
  hi_slots : ∀ pane slot, hub_panes hub !! pane = Some slot →
    token_pane (slot_token slot) = pane ∧ issued (token_generation (slot_token slot)) (generation_counter hub);
  hi_pending : ∀ token notice, pending_closed hub !! token = Some notice →
    (∃ exit, notice = NoticeClosed token exit) ∧ issued (token_generation token) (generation_counter hub);
  hi_counter : 0 ≤ generation_counter hub ≤ u64_max;
}.

(** Two hubs that differ only in their drain order, cursor, queue and metrics. *)
Definition same_slots hub hub' : Prop :=
  hub_panes hub = hub_panes hub' ∧ generation_counter hub = generation_counter hub' ∧
  pending_closed hub = pending_closed hub' ∧ notices_open hub = notices_open hub'.

Lemma remove_pane_order_spec pane hub :
  NoDup (pane_order hub) → (fair_drain_cursor hub < 1 `max` length (pane_order hub))%nat →
  let hub' := remove_pane_order pane hub in
  NoDup (pane_order hub') ∧ (∀ x, x ∈ pane_order hub' ↔ x ∈ pane_order hub ∧ x ≠ pane) ∧
  (fair_drain_cursor hub' < 1 `max` length (pane_order hub'))%nat ∧ same_slots hub' hub.
Proof.
  intros Hnd Hc. unfold same_slots, remove_pane_order, position_of.
  destruct (position _ _) as [i|] eqn:Hp; cbv zeta.
  - apply position_lookup in Hp as (x & Hx & ->).
    assert (pane_order hub ≡ₚ pane :: delete i (pane_order hub)) as Hperm by (by apply delete_Permutation).
    assert (NoDup (pane :: delete i (pane_order hub))) as [Hni Hnd']%NoDup_cons by (by rewrite <-Hperm).
    cbn [pane_order fair_drain_cursor hub_panes generation_counter pending_closed notices_open]. split_and!; try done.
    + intros y. change (y ∈ delete i (pane_order hub) ↔ y ∈ pane_order hub ∧ y ≠ pane).
      rewrite Hperm at 2. rewrite elem_of_cons. split; [|naive_solver]. intros Hy. split; [by right|]. by intros ->.
    + match goal with |- (fair_drain_cursor (_ {{ _ := _; _ := ?c }}) < _)%nat =>
        change (c < 1 `max` length (delete i (pane_order hub)))%nat end.
      destruct (delete i (pane_order hub)) as [|z l] eqn:E; [cbn; lia|]. rewrite <-E.
      eapply Nat.lt_le_trans; [apply Nat.mod_upper_bound; by rewrite E|lia].
  - split_and!; try done. intros x. split; [|naive_solver]. intros Hx. split; [done|]. intros ->.
    apply position_None in Hp. rewrite Forall_forall in Hp. by apply (Hp pane).
Qed.

Lemma remove_slot_inv pane hub : hub_inv hub → hub_inv (remove_slot pane hub).
Proof.
  intros [H1 H2 H2' H3 H4 H5 H6]. unfold remove_slot. destruct (hub_panes hub !! pane) as [slot|] eqn:Hs; [|done].
  destruct (remove_pane_order_spec pane
    (hub{{ hub_panes := delete pane (hub_panes hub);
           completed_metrics := <[slot_token slot := publication_metrics_of (slot_publication slot)]>
                                  (completed_metrics hub) }})) as (R1 & R2 & R3 & R4 & R5 & R6 & R7); [done|done|].
  split; rewrite ?R4, ?R5, ?R6, ?R7; try done; cbn.
  - intros x [y [Hx Hy]%lookup_delete_Some]. apply R2. split; [apply H2; by eexists|done].
  - intros Hopen x [Hx Hne]%R2. rewrite lookup_delete_ne by done. by apply H2'.
  - intros x sl [Hx Hsl]%lookup_delete_Some. by apply H4.
Qed.

Lemma slot_update_inv pane slot slot' hub :
  hub_panes hub !! pane = Some slot → slot_token slot' = slot_token slot →
  hub_inv hub → hub_inv (hub{{ hub_panes := <[pane := slot']> (hub_panes hub) }}).
Proof.
  intros Hs Ht [H1 H2 H2' H3 H4 H5 H6].
  assert (∀ x, is_Some (<[pane := slot']> (hub_panes hub) !! x) ↔ is_Some (hub_panes hub !! x)) as Hsome.
  { intros x. destruct (decide (pane = x)) as [<-|]; [by rewrite lookup_insert_eq, Hs|by rewrite lookup_insert_ne]. }
  split; try done; cbn.
  - intros x Hx%Hsome. by apply H2.
  - intros Hopen x Hx. by apply Hsome, H2'.
  - intros x sl. rewrite lookup_insert_Some. intros [[<- <-]|[_ Hx]]; [rewrite Ht; by apply (H4 _ slot)|by apply H4].
Qed.

Lemma with_publication_inv pane p hub : hub_inv hub → hub_inv (with_publication pane p hub).
Proof.
  intros Hi. unfold with_publication. destruct (hub_panes hub !! pane) as [slot|] eqn:Hs; [|done].
  by eapply slot_update_inv.
Qed.

Lemma issued_next generation counter :
  0 ≤ counter ≤ u64_max → counter ≠ 0 → issued generation counter ∨ generation = counter →
  issued generation (if counter + 1 <=? u64_max then counter + 1 else 0).
Proof. intros Hr Hn Hi. unfold issued in *. destruct (_ <=? _); lia. Qed.

Lemma issue_inv hub :
  generation_counter hub ≠ 0 → hub_inv hub →
  hub_inv (hub{{ generation_counter := if generation_counter hub + 1 <=? u64_max then generation_counter hub + 1 else 0 }}).
Proof.
  intros Hz [H1 H2 H2' H3 H4 H5 H6]. split; try done; cbn.
  - intros x sl Hx. destruct (H4 x sl Hx). split; [done|]. apply issued_next; auto.
  - intros t n Ht. destruct (H5 t n Ht). split; [done|]. apply issued_next; auto.
  - destruct (Z.leb_spec (generation_counter hub + 1) u64_max); lia.
Qed.

(** A pane that is opened gets a generation that no live pane has. *)
Lemma open_pane_inv pane limits spawned hub result hub' :
  hub_inv hub → open_pane pane limits spawned hub = (result, hub') →
  hub_inv hub' ∧
  match result with
  | inr handle => token_pane (handle_token handle) = pane ∧
      token_generation (handle_token handle) = generation_counter hub ∧ generation_counter hub ≠ 0
  | inl _ => hub_panes hub' = hub_panes hub
  end.
Proof.
  intros Hi. unfold open_pane, issue, issue_pane_generation.
  destruct (hub_panes hub !! pane) as [slot|] eqn:Hs; [by intros [= <- <-]|].
  destruct (Z.eqb_spec (generation_counter hub) 0) as [Hz|Hz]; [intros [= <- <-]; by split; [destruct hub|]|].
  pose proof (issue_inv hub Hz Hi) as Hi'. destruct Hi' as [H1 H2 H2' H3 H4 H5 H6]. pose proof (hi_counter _ Hi) as Hr.
  destruct spawned; intros [= <- <-]; [|by split; [split|]].
  split; [|done]. cbn in *.
  assert (∀ x, x ∈ (if bool_decide (pane ∈ pane_order hub) then pane_order hub else pane_order hub ++ [pane]) ↔
    x ∈ pane_order hub ∨ x = pane) as Hin.
  { intros x. case_bool_decide; [naive_solver|]. by rewrite elem_of_app, list_elem_of_singleton. }
  split; cbn; try done.
  - case_bool_decide as Hp; [done|]. apply NoDup_app. split_and!; [done|by intros x ? ->%list_elem_of_singleton|apply NoDup_singleton].
  - intros x. rewrite Hin. destruct (decide (pane = x)) as [->|Hne]; [by right|].
    rewrite lookup_insert_ne by done. intros Hx. left. by apply H2.
  - intros Hopen x. rewrite Hin. destruct (decide (pane = x)) as [->|Hne]; [by rewrite lookup_insert_eq|].
    rewrite lookup_insert_ne by done. intros [Hx|Hx]; [by apply H2'|done].
  - case_bool_decide; rewrite ?length_app; cbn [length]; lia.
  - intros x sl. rewrite lookup_insert_Some. intros [[<- <-]|[_ Hx]]; [|by apply H4].
    split; [done|]. cbn. apply issued_next; [done|done|by right].
Qed.

Lemma begin_close_inv instant_max now token grace hub : hub_inv hub → hub_inv (begin_close instant_max now token grace hub).2.
Proof.
  intros Hi. unfold begin_close. destruct (hub_panes hub !! token_pane token) as [slot|] eqn:Hs; [|done].
  case_bool_decide as Ht; [|done]. by eapply slot_update_inv.
Qed.

Lemma reap_expired_inv now hub : hub_inv hub → hub_inv (reap_expired pane_iteration now hub).2.
Proof.
  unfold reap_expired. generalize (expired_panes pane_iteration now hub) as gone. cbn [snd].
  intros gone. revert hub. induction gone as [|pane gone IH]; intros hub Hi; [done|]. cbn [foldl]. by apply IH, remove_slot_inv.
Qed.

Lemma insert_at_perm {A} i (x : A) l : insert_at i x l ≡ₚ x :: l.
Proof. unfold insert_at. rewrite <-Permutation_middle, take_drop. done. Qed.

Lemma reposition_inv pane i hub : hub_inv hub → pane ∈ pane_order hub → hub_inv (reposition_pane pane i hub).
Proof.
  intros [H1 H2 H2' H3 H4 H5 H6] Hin. unfold reposition_pane.
  destruct (remove_pane_order_spec pane hub H1 H3) as (R1 & R2 & R3 & R4 & R5 & R6 & R7).
  set (hub1 := remove_pane_order pane hub) in *.
  set (order := insert_at (i `min` length (pane_order hub1)) pane (pane_order hub1)).
  assert (order ≡ₚ pane :: pane_order hub1) as Hperm by apply insert_at_perm.
  assert (∀ x, x ∈ order ↔ x ∈ pane_order hub) as Hsame.
  { intros x. rewrite Hperm, elem_of_cons, R2. destruct (decide (x = pane)) as [->|]; naive_solver. }
  split; cbn; rewrite ?R4, ?R5, ?R6, ?R7; try done.
  - fold order. rewrite Hperm. apply NoDup_cons. split; [|done]. rewrite R2. naive_solver.
  - intros x Hx. by apply Hsame, H2.
  - intros Hopen x Hx%Hsame. by apply H2'.
  - fold order. rewrite Hperm. cbn [length]. lia.
Qed.

Lemma restart_pane_inv instant_max now pane limits spawned hub result hub' :
  hub_inv hub → restart_pane pane_iteration instant_max now pane limits spawned hub = (result, hub') → hub_inv hub'.
Proof.
  intros Hi. unfold restart_pane.
  match goal with |- context [open_pane pane limits spawned ?h] => assert (hub_inv h) as Hi'; [|set (hub1 := h) in *] end.
  { destruct (hub_panes hub !! pane); [|done]. by apply reap_expired_inv, begin_close_inv. }
  destruct (open_pane pane limits spawned hub1) as [r hub2] eqn:Ho.
  destruct (open_pane_inv pane limits spawned hub1 r hub2 Hi' Ho) as [Hi2 Hr]. destruct r as [e|handle].
  - by intros [= _ <-].
  - intros [= _ <-]. destruct (position_of _ _) as [i|]; [|done]. apply reposition_inv; [done|].
    apply (hi_listed _ Hi2). unfold open_pane in Ho. destruct (hub_panes hub1 !! pane); [done|].
    destruct (issue _ _) as [[e|tok] counter]; [done|]. destruct spawned; [|done]. injection Ho as <- <-. cbn.
    rewrite lookup_insert_eq. by eexists.
Qed.

Lemma same_panes_inv hub hub' :
  same_slots hub' hub → pane_order hub' = pane_order hub → fair_drain_cursor hub' = fair_drain_cursor hub →
  hub_inv hub → hub_inv hub'.
Proof.
  intros (E1 & E2 & E3 & E4) E5 E6 [H1 H2 H2' H3 H4 H5 H6]. split; rewrite ?E1, ?E2, ?E3, ?E4, ?E5, ?E6; done.
Qed.

Lemma finish_closed_inv notice hub : hub_inv hub → hub_inv (finish_closed_slot notice hub).
Proof. intros Hi. unfold finish_closed_slot. destruct (is_closed notice); [by apply remove_slot_inv|done]. Qed.

Lemma unqueue_inv queue hub : hub_inv hub → hub_inv (hub{{ notice_queue := queue }}).
Proof. by apply same_panes_inv. Qed.

Lemma pending_insert_inv notice hub :
  is_current (notice_pane notice) hub = true → is_closed notice = true → hub_inv hub →
  hub_inv (hub{{ pending_closed := <[notice_pane notice := notice]> (pending_closed hub) }}).
Proof.
  intros Hc Hn [H1 H2 H2' H3 H4 H5 H6]. split; try done; cbn.
  intros t n. rewrite lookup_insert_Some. intros [[<- <-]|[_ Ht]]; [|by apply H5].
  split; [destruct notice; try done; by eexists|]. unfold is_current in Hc.
  destruct (hub_panes hub !! _) as [slot|] eqn:Hs; [|done]. apply bool_decide_eq_true in Hc. rewrite <-Hc. by eapply H4.
Qed.

(** What receiving a current notice does to the hub. *)
Lemma current_notice_inv notice queue hub :
  is_current (notice_pane notice) hub = true → hub_inv hub →
  let hub := hub{{ notice_queue := queue }} in
  hub_inv (if is_closed notice && notice_has_work notice hub
           then hub{{ pending_closed := <[notice_pane notice := notice]> (pending_closed hub) }}
           else finish_closed_slot notice hub).
Proof.
  intros Hc Hi. cbv zeta. destruct (is_closed notice) eqn:Hn; cbn [andb].
  - destruct (notice_has_work _ _); [apply pending_insert_inv; [done|done|]|apply finish_closed_inv]; by apply unqueue_inv.
  - by apply finish_closed_inv, unqueue_inv.
Qed.

Lemma receive_notice_inv queue hub : hub_inv hub → hub_inv (receive_notice queue hub).2.
Proof.
  intros Hi. induction queue as [|notice queue IH]; cbn [receive_notice]; [by apply unqueue_inv|].
  destruct (is_current _ _) eqn:Hc; [|exact IH].
  pose proof (current_notice_inv notice queue hub Hc Hi) as H'. cbv zeta in *. by destruct (_ && _).
Qed.

Lemma wait_notice_inv queue hub : hub_inv hub → hub_inv (wait_notice queue hub).2.
Proof.
  intros Hi. induction queue as [|notice queue IH]; cbn [wait_notice]; [by apply unqueue_inv|].
  destruct (is_current _ _) eqn:Hc; [|exact IH].
  pose proof (current_notice_inv notice queue hub Hc Hi) as H'. cbv zeta in *. by destruct (_ && _).
Qed.

Lemma take_drained_close_inv hub notice hub' :
  take_drained_close closed_iteration hub = Some (notice, hub') → hub_inv hub → hub_inv hub'.
Proof.
  intros (token & _ & (n & _ & [= <- <-])%bind_Some)%bind_Some [H1 H2 H2' H3 H4 H5 H6].
  apply finish_closed_inv. split; try done; cbn. intros t m [_ Hm]%lookup_delete_Some. by apply H5.
Qed.

Lemma try_recv_notice_inv hub : hub_inv hub → hub_inv (try_recv_notice closed_iteration hub).2.
Proof.
  intros Hi. unfold try_recv_notice. destruct (take_drained_close closed_iteration hub) as [[notice hub']|] eqn:Ht;
    [by eapply take_drained_close_inv|by apply receive_notice_inv].
Qed.

Lemma recv_notice_inv arriving hub : hub_inv hub → hub_inv (recv_notice closed_iteration arriving hub).2.
Proof.
  intros Hi. unfold recv_notice. destruct (take_drained_close closed_iteration hub) as [[notice hub']|] eqn:Ht;
    [by eapply take_drained_close_inv|by apply wait_notice_inv].
Qed.

Lemma shutdown_inv hub : hub_inv hub → hub_inv (shutdown hub).
Proof.
  intros [H1 H2 H2' H3 H4 H5 H6]. split; try done; cbn.
  intros x. rewrite lookup_empty. by intros [].
Qed.

Lemma cursor_inv hub c :
  (c < 1 `max` length (pane_order hub))%nat → hub_inv hub → hub_inv (hub{{ fair_drain_cursor := c }}).
Proof. intros Hc [H1 H2 H2' H3 H4 H5 H6]. by split. Qed.

Lemma drain_round_inv mp me start offsets drained hub :
  hub_inv hub → hub_inv (drain_round mp me start (length (pane_order hub)) offsets drained hub).2.
Proof.
  remember (length (pane_order hub)) as n eqn:Hn. intros Hi.
  revert drained hub Hn Hi. induction offsets as [|o offsets IH]; intros drained hub Hn Hi; cbn [drain_round]; [done|].
  destruct (_ =? _)%nat; [done|]. destruct (pane_order hub !! _) as [pane|] eqn:Hp; [|done].
  destruct (hub_panes hub !! pane) as [slot|]; [|by apply IH]. destruct (has_work _); [|by apply IH].
  destruct (drain me (slot_publication slot)) as [d p].
  assert (pane_order (with_publication pane p hub) = pane_order hub) as Ho by apply with_publication_order.
  apply IH; [by cbn; rewrite Ho|]. apply cursor_inv; [|by apply with_publication_inv].
  rewrite Ho, <-Hn. apply lookup_lt_Some in Hp.
  eapply Nat.lt_le_trans; [apply Nat.mod_upper_bound; lia|lia].
Qed.

Lemma drain_ready_fair_inv mp me hub : hub_inv hub → hub_inv (drain_ready_fair mp me hub).2.
Proof. intros Hi. unfold drain_ready_fair. destruct (_ || _); [done|]. by apply drain_round_inv. Qed.

Lemma drain_pane_inv token me hub : hub_inv hub → hub_inv (drain_pane token me hub).2.
Proof.
  intros Hi. unfold drain_pane. destruct (hub_panes hub !! token_pane token) as [slot|]; [|done].
  case_bool_decide; [|done]. destruct (drain me (slot_publication slot)) as [d p]. by apply with_publication_inv.
Qed.

(** The calls of the host that change its hub, and what workers do meanwhile:
    publish, and send notices, which a hub that was shut down refuses. A call
    of [recv_notice] that still waits has taken the stale notices. *)
Inductive HubCall :=
| CallOpen (pane : PaneId) (limits : MailboxLimits) (spawned : bool)
| CallRestart (instant_max now : Z) (pane : PaneId) (limits : MailboxLimits) (spawned : bool)
| CallBeginClose (instant_max now : Z) (token : PaneToken) (grace : Z)
| CallReapExpired (now : Z)
| CallTryRecvNotice
| CallRecvNotice (arriving : list PaneNotice)
| CallDrainPane (token : PaneToken) (max_effects : nat)
| CallDrainReadyFair (max_panes max_effects : nat)
| CallShutdown
| WorkerPublishes (pane : PaneId) (p : PanePublication S)
| WorkerNotices (notice : PaneNotice).

Definition hub_call hub (call : HubCall) : Hub :=
  match call with
  | CallOpen pane limits spawned => (open_pane pane limits spawned hub).2
  | CallRestart instant_max now pane limits spawned =>
      (restart_pane pane_iteration instant_max now pane limits spawned hub).2
  | CallBeginClose instant_max now token grace => (begin_close instant_max now token grace hub).2
  | CallReapExpired now => (reap_expired pane_iteration now hub).2
  | CallTryRecvNotice => (try_recv_notice closed_iteration hub).2
  | CallRecvNotice arriving => (recv_notice closed_iteration arriving hub).2
  | CallDrainPane token max_effects => (drain_pane token max_effects hub).2
  | CallDrainReadyFair max_panes max_effects => (drain_ready_fair max_panes max_effects hub).2
  | CallShutdown => shutdown hub
  | WorkerPublishes pane p => with_publication pane p hub
  | WorkerNotices notice =>
      if notices_open hub then hub{{ notice_queue := notice_queue hub ++ [notice] }} else hub
  end.

Lemma new_hub_inv counter : 0 ≤ counter ≤ u64_max → hub_inv (new_hub counter).
Proof.
  intros Hc. split; cbn; try done; [apply NoDup_nil_2| | |lia].
  - intros pane. rewrite lookup_empty. by intros [].
  - by intros _ pane ?%elem_of_nil.
Qed.

Lemma hub_call_inv hub call : hub_inv hub → hub_inv (hub_call hub call).
Proof.
  intros Hi. destruct call; cbn [hub_call].
  - destruct (open_pane pane limits spawned hub) as [r hub'] eqn:Ho. by eapply open_pane_inv.
  - destruct (restart_pane _ _ _ _ _ _ _) as [r hub'] eqn:Ho. by eapply restart_pane_inv.
  - by apply begin_close_inv.
  - by apply reap_expired_inv.
  - by apply try_recv_notice_inv.
  - by apply recv_notice_inv.
  - by apply drain_pane_inv.
  - by apply drain_ready_fair_inv.
  - by apply shutdown_inv.
  - by apply with_publication_inv.
  - destruct (notices_open hub); [by apply unqueue_inv|done].
Qed.

(** C14. Whatever is called on a new hub, in any order and whatever its workers
    publish and report meanwhile: the drain order lists every open pane once,
    and no other as long as the hub was not shut down (shutting down empties
    the hub but not the order); the cursor of the fair drain points into it;
    every slot belongs to its pane and its generation was issued before the
    next one to be issued; and what waits for a pane to be drained is the
    close notice of an issued generation. *)
Theorem hub_stays_consistent counter (calls : list HubCall) :
  0 ≤ counter ≤ u64_max → hub_inv (foldl hub_call (new_hub counter) calls).
Proof.
  intros Hc. induction calls as [|call calls IH] using rev_ind; [by apply new_hub_inv|].
  rewrite foldl_app. by apply hub_call_inv.
Qed.

(** ** A close notice that outlives its pane *)

(** The calls of [try_recv_notice] of an idle host. *)
Definition poll_notices (k : nat) hub : Hub := Nat.iter k (λ hub, (try_recv_notice closed_iteration hub).2) hub.

Lemma poll_notices_S k hub : poll_notices (Datatypes.S k) hub = poll_notices k (try_recv_notice closed_iteration hub).2.
Proof. unfold poll_notices. by rewrite Nat.iter_succ_r. Qed.

(** The map iteration visits the keys. *)
Hypothesis closed_iteration_keys : ∀ (closed : gmap PaneToken PaneNotice) token,
  token ∈ closed_iteration closed ↔ is_Some (closed !! token).

Lemma remove_slot_pending pane hub :
  pending_closed (remove_slot pane hub) = pending_closed hub ∧
  hub_panes (remove_slot pane hub) = delete pane (hub_panes hub).
Proof.
  unfold remove_slot. destruct (hub_panes hub !! pane) as [slot|] eqn:Hs; [|by rewrite delete_id].
  unfold remove_pane_order. by destruct (position_of _ _).
Qed.

(** A poll while a stale close notice waits takes one of the waiting close
    notices and the slot of its pane. *)
Lemma poll_stale hub token slot :
  hub_inv hub → is_Some (pending_closed hub !! token) →
  hub_panes hub !! token_pane token = Some slot → slot_token slot ≠ token →
  ∃ taken, is_Some (pending_closed hub !! taken) ∧
    let hub' := (try_recv_notice closed_iteration hub).2 in
    pending_closed hub' = delete taken (pending_closed hub) ∧ hub_panes hub' = delete (token_pane taken) (hub_panes hub).
Proof using closed_iteration_keys.
  intros Hi Hp Hs Hne. unfold try_recv_notice, take_drained_close.
  destruct (head (filter _ _)) as [taken|] eqn:Hh.
  - assert (taken ∈ filter (λ token, drained token hub = true) (closed_iteration (pending_closed hub))) as Hin.
    { destruct (filter _ _); [done|]. injection Hh as ->. by left. }
    apply list_elem_of_filter in Hin as [_ [notice Hn]%closed_iteration_keys]. exists taken. split; [by rewrite Hn|].
    destruct (hi_pending _ Hi taken notice Hn) as [[exit ->] _]. cbv zeta. cbn [mbind option_bind]. rewrite Hn.
    cbn [mbind option_bind snd]. unfold finish_closed_slot. cbn [is_closed notice_pane].
    destruct (remove_slot_pending (token_pane taken) (hub{{ pending_closed := delete taken (pending_closed hub) }}))
      as [-> ->]. by split.
  - exfalso. apply head_None in Hh. apply (not_elem_of_nil token). rewrite <-Hh. apply list_elem_of_filter.
    split; [|by apply closed_iteration_keys]. unfold drained. rewrite Hs. by rewrite bool_decide_eq_false_2.
Qed.

Lemma stale_close_takes_slot n hub token slot :
  size (pending_closed hub) = n → hub_inv hub → is_Some (pending_closed hub !! token) →
  hub_panes hub !! token_pane token = Some slot → slot_token slot ≠ token →
  ∃ k, (k ≤ n)%nat ∧ hub_panes (poll_notices k hub) !! token_pane token = None.
Proof using closed_iteration_keys.
  revert hub. induction n as [|n IH]; intros hub Hn Hi Hp Hs Hne.
  { apply map_size_empty_inv in Hn. rewrite Hn, lookup_empty in Hp. by destruct Hp. }
  destruct (poll_stale hub token slot Hi Hp Hs Hne) as (taken & Ht & Hp' & Hs').
  destruct (decide (token_pane taken = token_pane token)) as [Heq|Hpane].
  - exists 1%nat. split; [lia|]. rewrite poll_notices_S. cbn. by rewrite Hs', Heq, lookup_delete_eq.
  - destruct (IH (try_recv_notice closed_iteration hub).2) as (k & Hk & Hgone); [|by apply try_recv_notice_inv| | |done|].
    + rewrite Hp', map_size_delete_Some by done. lia.
    + rewrite Hp', lookup_delete_ne; [done|]. by intros ->.
    + by rewrite Hs', lookup_delete_ne.
    + exists (Datatypes.S k). split; [lia|]. by rewrite poll_notices_S.
Qed.

(** What [open_pane] leaves alone. *)
Lemma open_pane_pending pane limits spawned hub handle hub' :
  open_pane pane limits spawned hub = (inr handle, hub') →
  pending_closed hub' = pending_closed hub ∧
  ∃ slot, hub_panes hub' !! pane = Some slot ∧ slot_token slot = handle_token handle.
Proof.
  unfold open_pane. destruct (hub_panes hub !! pane); [done|]. destruct (issue _ _) as [[e|tok] counter]; [done|].
  destruct spawned; [|done]. intros [= <- <-]. cbn. split; [done|]. rewrite lookup_insert_eq. by eexists.
Qed.

Lemma reap_expired_pending now hub : pending_closed (reap_expired pane_iteration now hub).2 = pending_closed hub.
Proof.
  unfold reap_expired. cbn [snd]. generalize (expired_panes pane_iteration now hub) as gone. intros gone. revert hub.
  induction gone as [|pane gone IH]; intros hub; [done|]. cbn [foldl]. rewrite IH. apply remove_slot_pending.
Qed.

Lemma begin_close_pending instant_max now token grace hub :
  pending_closed (begin_close instant_max now token grace hub).2 = pending_closed hub.
Proof. unfold begin_close. destruct (hub_panes hub !! _); [|done]. by case_bool_decide. Qed.

(** A restart keeps the waiting close notices; the new generation is none of
    theirs. *)
Lemma restart_keeps_pending instant_max now pane limits spawned hub handle hub' :
  hub_inv hub → restart_pane pane_iteration instant_max now pane limits spawned hub = (inr handle, hub') →
  pending_closed hub' = pending_closed hub ∧
  (∃ slot, hub_panes hub' !! pane = Some slot ∧ slot_token slot = handle_token handle) ∧
  token_pane (handle_token handle) = pane ∧ pending_closed hub !! handle_token handle = None.
Proof.
  intros Hi. unfold restart_pane.
  match goal with |- context [open_pane pane limits spawned ?h] =>
    assert (hub_inv h ∧ pending_closed h = pending_closed hub) as [Hi' Hp]; [|set (hub1 := h) in *] end.
  { destruct (hub_panes hub !! pane) as [slot|]; [|done].
    split; [by apply reap_expired_inv, begin_close_inv|]. by rewrite reap_expired_pending, begin_close_pending. }
  destruct (open_pane pane limits spawned hub1) as [[e|h] hub2] eqn:Ho; [done|]. intros [= -> Hhub].
  destruct (open_pane_pending _ _ _ _ _ _ Ho) as (P1 & P2).
  destruct (open_pane_inv pane limits spawned hub1 _ hub2 Hi' Ho) as (Hi2 & Ht & Hg & Hz).
  assert (same_slots hub' hub2) as (S1 & _ & S3 & _).
  { subst hub'. destruct (position_of _ _); [|done]. unfold reposition_pane.
    by apply remove_pane_order_spec; [apply hi_nodup|apply hi_cursor]. }
  rewrite S1, S3, P1, Hp. split_and!; [done|done|done|].
  rewrite <-Hp. destruct (pending_closed hub1 !! handle_token handle) as [notice|] eqn:Hn; [|done].
  destruct (hi_pending _ Hi' _ _ Hn) as [_ [_ Hissued]]. lia.
Qed.

(** C34. A close notice that waits for its pane to be drained outlives a restart
    of the pane and then closes the wrong generation: on every consistent hub,
    when a pane with a waiting close notice is restarted, the new generation
    is current; but as the host goes on asking for notices, its slot has been
    removed by the time the waiting close notices are handed out. *)
Theorem stale_close_removes_restarted_pane instant_max now limits spawned token hub handle hub' :
  hub_inv hub → is_Some (pending_closed hub !! token) →
  restart_pane pane_iteration instant_max now (token_pane token) limits spawned hub = (inr handle, hub') →
  is_current (handle_token handle) hub' = true ∧
  ∃ k, (k ≤ size (pending_closed hub))%nat ∧ is_current (handle_token handle) (poll_notices k hub') = false.
Proof using closed_iteration_keys.
  intros Hi Hp Hr. pose proof (restart_pane_inv _ _ _ _ _ _ _ _ Hi Hr) as Hi'.
  destruct (restart_keeps_pending _ _ _ _ _ _ _ _ Hi Hr) as (P1 & (slot & P2 & P3) & P4 & P5).
  assert (slot_token slot ≠ token) as Hne by (rewrite P3; intros Heq; rewrite Heq in P5; rewrite P5 in Hp; by destruct Hp).
  unfold is_current. rewrite P4. split; [rewrite P2; by apply bool_decide_eq_true|].
  destruct (stale_close_takes_slot (size (pending_closed hub)) hub' token slot) as (k & Hk & Hgone); try done; [by rewrite P1..|].
  exists k. split; [done|]. by rewrite Hgone.
Qed.

End consistent.

Module HubExample.

#[export] Instance exact_allocation : Allocation.
Proof.
  refine {| capacity l := Z.min (Z.of_nat (length l)) isize_max;
            text_capacity l := Z.min (Z.of_nat (length l)) isize_max |}; intros l; unfold isize_max; lia.
Defined.

Definition pane : PaneId := PaneId_new 1.
Definition limits : MailboxLimits := mkLimits 8 4096.
Definition old_token : PaneToken := mkToken pane 1.
Definition new_token : PaneToken := mkToken pane 2.
Definition frame : PresentationFrame () :=
  mkFrame old_token 1 () (mkSummary (mkTerminalSize 80 24) (0, 0)%nat 0 1 0) true false [] no_metadata no_metrics.
Definition with_frame : PanePublication () := (publish_alone limits true frame [] new_publication).2.

Definition all_panes (panes : gmap PaneId (PaneSlot ())) : list PaneId := (map_to_list panes).*1.
Definition all_closed (closed : gmap PaneToken PaneNotice) : list PaneToken := (map_to_list closed).*1.

(** The pane exits with a frame left; the host asks for notices, then restarts
    the pane. *)
Definition calls : list (HubCall (S:=())) :=
  [CallOpen pane limits true; WorkerPublishes pane with_frame; WorkerNotices (NoticeClosed old_token None);
   CallTryRecvNotice; CallRestart 1000 0 pane limits true].

Definition after_calls : RuntimeHub () := foldl (hub_call all_panes all_closed) (new_hub 1) calls.

Lemma hub_stays_consistent_witness :
  hub_inv after_calls ∧ hub_panes after_calls !! pane ≠ None.
Proof.
  split; [|vm_compute; discriminate].
  exact (hub_stays_consistent all_panes all_closed 1 calls ltac:(unfold u64_max; lia)).
Defined.

Lemma all_closed_keys closed token : token ∈ all_closed closed ↔ is_Some (closed !! token).
Proof.
  unfold all_closed. rewrite list_elem_of_fmap. split.
  - intros ([t n] & -> & Hn%elem_of_map_to_list). by eexists.
  - intros [n Hn]. exists (token, n). split; [done|]. by apply elem_of_map_to_list.
Qed.

(** The hub before the restart, and the pane that is started. *)
Definition before_restart : RuntimeHub () := foldl (hub_call all_panes all_closed) (new_hub 1) (take 4 calls).
Definition restarted : PaneHandle := mkHandle new_token limits bounded_mailbox true.

Lemma before_restart_inv : hub_inv before_restart.
Proof.
  unfold before_restart. generalize (take 4 calls). intros l. induction l as [|call l IH] using rev_ind.
  - apply new_hub_inv. unfold u64_max. lia.
  - rewrite foldl_app. by apply hub_call_inv.
Qed.

Lemma stale_close_removes_restarted_pane_witness :
  hub_panes after_calls !! pane ≠ None ∧
  ∃ k, (k ≤ 1)%nat ∧ is_current new_token (poll_notices all_closed k after_calls) = false.
Proof.
  split; [vm_compute; discriminate|].
  exact (proj2 (stale_close_removes_restarted_pane all_panes all_closed all_closed_keys 1000 0 limits true old_token
    before_restart restarted after_calls before_restart_inv
    ltac:(vm_compute; eexists; reflexivity) ltac:(vm_compute; reflexivity))).
Defined.

(** Two panes are ready; in the first round the other one is drained. *)
Definition other : PaneId := PaneId_new 2.
Definition two_panes : RuntimeHub () :=
  foldl (hub_call all_panes all_closed) (new_hub 1)
    [CallOpen other limits true; CallOpen pane limits true; WorkerPublishes other with_frame;
     WorkerPublishes pane with_frame].

Lemma no_pane_starves_witness :
  starved pane two_panes [mkRound [] 1 8] ∧ (length [mkRound (S:=()) [] 1 8] < length (pane_order two_panes))%nat.
Proof.
  assert (starved pane two_panes [mkRound [] 1 8]) as Hs.
  { cbn [starved round_updates round_max_panes round_max_effects].
    destruct (drain_ready_fair 1 8 (update_all [] two_panes)) as [drained hub'] eqn:Hd.
    vm_compute in Hd. injection Hd as <- <-.
    split; [eexists; split; vm_compute; reflexivity|]. split; [lia|]. split; [|done].
    intros slot Hslot. vm_compute in Hslot. injection Hslot as <-. vm_compute.
    intros Hin. apply list_elem_of_singleton in Hin. discriminate. }
  split; [exact Hs|]. apply (no_pane_starves pane two_panes).
  - vm_compute. apply NoDup_cons; split; [|apply NoDup_singleton]. intros Hin%list_elem_of_singleton. discriminate.
  - vm_compute. lia.
  - vm_compute. right. left.
  - exact Hs.
Defined.

End HubExample.
