(* ===== verification/PipelineProps.v ===== *)
(** The theorems about publication: what every interleaving of a worker and
    its host keeps, what runs whose turns do not overlap deliver, and the
    overlap that loses effects. *)
From stdpp Require Import relations.
From coqutil Require Import Datatypes.RecordSetters.
From S2P Require Import Prelude Text Launch Grid Screen Mailbox RuntimeApi Publication PublicationSystem.
From S2P Require Import Delta PaneWorker Config Window HostDrain Pipeline.
Import DoubleBraceUpdate.

Local Open Scope Z_scope.

(** ** Every interleaving *)

(** C8. At any point of any interleaving of a publishing worker with its draining
    host, the effects the mailbox accepted are exactly those the host has
    received followed by those still queued, in order; and the frames stored
    fall into consecutive groups, one per frame the host took, each taken
    frame being its group coalesced from the oldest on. *)
Theorem publication_keeps_everything `{Allocation} {S : Type} limits (sys : System (S:=S)) :
  reachable limits sys →
  accepted sys = effects_received sys ++ effects_waiting sys ∧ frames_grouped sys.
Proof. intros Hr%reachable_publication_inv. split; apply Hr. Qed.

(** C17. A frame in the slot is never forgotten: a wake notice is on its way, the
    host has scheduled a turn or is in one, the worker is about to send the
    notice, or the host is gone. *)
Theorem stored_frame_is_noticed `{Allocation} {S : Type} limits (sys : System (S:=S)) :
  reachable limits sys → is_Some (latest (pub_latest (publication sys))) →
  (0 < wake_notices sys)%nat ∨ continuation sys = true ∨ host sys ≠ HostIdle ∨
  (∃ k, publisher sys = PubWaking k) ∨ wake_lost sys = true.
Proof. intros Hr%reachable_publication_inv Hs. apply (inv_wake _ Hr), (inv_stored_wakes _ Hr), Hs. Qed.

(** ** Turns that do not overlap *)

(** What a well-numbered stream publishes reaches the window. *)
Lemma pipeline_delivers `{Allocation} {S : Type} limits token w (events : list (PipeEvent (S:=S))) p :
  ws_panes w !! token_pane token = Some (new_pane token) → well_numbered events →
  run_pipe limits token (init_pipe w) events = Some p →
  (∃ delivered rest, effects_of events = delivered ++ rest ∧ logs token delivered (pipe_log p)) ∧
  ∀ max k, (length (effects_of events) < k)%nat →
    ∃ p', run_pipe limits token p (replicate k (EvDrain (Datatypes.S max))) = Some p' ∧ idle p' ∧
      logs token (effects_of events) (pipe_log p') ∧
      ws_panes (pipe_window p') !! token_pane token =
        Some (pane_after token (frames_of events) (effects_of events)).
Proof.
  intros Hw Hn Hr. pose proof (run_state _ _ _ _ _ Hw Hn Hr) as Hi. destruct Hn as (H1 & H2 & H3). split.
  - destruct Hi as (shown & slot & delivered & Hp). exists delivered.
    eexists. split; [apply (ps_effects _ _ _ _ _ _ _ Hp)|apply (ps_log _ _ _ _ _ _ _ Hp)].
  - intros max k Hk. pose proof (waiting_bound _ _ _ _ Hi).
    destruct (drains_finish limits token k max p _ _ H1 H2 H3 Hi) as (p' & Hp' & Hi' & Hidle); [lia|].
    exists p'. destruct (inv_idle _ _ _ _ Hi' Hidle). done.
Qed.

(** C3. From the worker to the window. When a worker runs to its end without an
    error and its publications take turns with drains of the host, then at any
    point the effects carried out so far are a prefix of those published, in
    order and without a reported problem; and after one turn more than there
    are effects, of any positive size, nothing is left, every effect was
    carried out once, and the pane is as if every frame had been shown one by
    one. *)
Theorem worker_output_reaches_window `{Allocation} {S : Type} limits token capture w turns v (snapshot : S) state
    metrics write_ok publish_ok pubs events p :
  ws_panes w !! token_pane token = Some (new_pane token) →
  run_worker token capture turns v snapshot state metrics write_ok publish_ok = (pubs, true) →
  published_by token pubs events → 1 + effect_total pubs ≤ u64_max →
  run_pipe limits token (init_pipe w) events = Some p →
  (∃ delivered rest, effects_of events = delivered ++ rest ∧ logs token delivered (pipe_log p)) ∧
  ∀ max k, (length (effects_of events) < k)%nat →
    ∃ p', run_pipe limits token p (replicate k (EvDrain (Datatypes.S max))) = Some p' ∧ idle p' ∧
      logs token (effects_of events) (pipe_log p') ∧
      ws_panes (pipe_window p') !! token_pane token =
        Some (pane_after token (frames_of events) (effects_of events)).
Proof.
  intros Hw Hrun Hpub Hb. apply pipeline_delivers; [done|].
  eapply stream_well_numbered; [by eapply run_worker_stream|done|done].
Qed.

(** ** An effect that is missing *)

(** A pane whose cursor waits for an effect that will not come never accepts
    a batch with effects again: whatever later batches arrive, the window
    keeps its state and none of their effects is carried out. *)
Theorem gap_never_heals token w pane n (batches : list (RuntimeBatch TerminalStateSummary)) :
  ws_panes w !! token_pane token = Some pane → ps_effect_sequence pane = Some n →
  Forall (λ b, batch_pane b = token ∧
               ∃ e rest, batch_effects b = e :: rest ∧ n < effect_sequence e) batches →
  ∃ log, reduce_all w (IntentRuntimeBatch <$> batches) = (w, log) ∧ routed log = [].
Proof.
  intros Hp Hn Hf. induction Hf as [|b batches (Hb & e & rest & He & Hlt) _ (log & IH & Hlog)]; [by exists []|].
  rewrite fmap_cons. change (IntentRuntimeBatch b :: (IntentRuntimeBatch <$> batches))
    with ([IntentRuntimeBatch b] ++ (IntentRuntimeBatch <$> batches)). rewrite reduce_all_app.
  assert (∃ l, reduce_all w [IntentRuntimeBatch b] = (w, l) ∧ routed l = []) as (l & -> & Hl).
  { unfold reduce_all. cbn [foldl fst snd reduce]. unfold reduce_runtime_batch. rewrite Hb, Hp.
    destruct (stale_batch b pane); [by exists []|]. destruct (_ && _); [by eexists|].
    unfold validate_batch. rewrite He, Hn. cbn [validate_effects]. apply Z.ltb_lt in Hlt. rewrite Hlt. by eexists. }
  rewrite IH. exists (l ++ log). by rewrite routed_app, Hl, Hlog.
Qed.

(** ** A concrete pane *)

Module PaneExample.

#[export] Instance exact_allocation : Allocation.
Proof.
  refine {| capacity l := Z.min (Z.of_nat (length l)) isize_max;
            text_capacity l := Z.min (Z.of_nat (length l)) isize_max |}; intros l; unfold isize_max; lia.
Defined.

Definition limits : MailboxLimits := mkLimits 8 4096.
Definition token : PaneToken := mkToken (PaneId_new 1) 1.
Definition size : TerminalSize := mkTerminalSize 80 24.
Definition frame (revision : Z) (title : rstring) : PresentationFrame () :=
  mkFrame token revision () (mkSummary size (0, 0)%nat 0 revision 0) true false []
    (no_metadata{{ md_title := Some (MetadataSet title) }}) no_metrics.
Definition effect (n : Z) : RuntimeEffect := mkEffect n (Bell 1).
Definition published (revision n : Z) : PublishedEffect := mkPublished token revision (effect n).

(** The window with the pane opened. *)
Definition window : WindowState := (reduce default_window (IntentPaneLifecycle (PaneOpened token))).1.

(** A worker that feeds three deltas and is closed; the last delta carries two
    effects and its response reaches the transport. *)
Definition summary (revision : Z) : TerminalStateSummary := mkSummary size (0, 0)%nat 0 revision 0.
Definition view_of (title : rstring) (effects : list RuntimeEffectRef) : DeltaView :=
  mkView effects [] [] (no_metadata{{ md_title := Some (MetadataSet title) }}) true.
Definition output (revision : Z) (title : rstring) (effects : list RuntimeEffectRef) (writes : bool) : Turn :=
  TurnOutput (view_of title effects) () (summary revision) no_metrics (λ _, writes) true.
Definition nothing_left : DeltaView := mkView [] [] [] no_metadata false.

Definition turns : list (Turn (S:=())) :=
  [output 1 (lit "a") [RefBell 1] true; TurnInput true; output 2 (lit "b") [] true;
   output 3 (lit "c") [RefBell 1; RefTransportWrite [27]; RefBell 1] true; TurnStop].

(** A turn of the host in between, and one that is not enough. *)
Definition events : list (PipeEvent (S:=())) :=
  [EvPublish (frame 1 (lit "a")) [effect 1]; EvDrain 8; EvPublish (frame 2 (lit "b")) [];
   EvPublish (frame 3 (lit "c")) [effect 2; effect 3]; EvDrain 1].

End PaneExample.

(** Replaying the results of [drain] at the host. *)
Definition replay (w : WindowState) (drains : list (PaneDrain ())) : WindowState * list WindowEffect :=
  let '(w, _, log) :=
    foldl (λ '(w, ports, log) d,
        let '(intents, ports) := drain_runtime PaneExample.token d ports in
        let '(w, effects) := reduce_all w intents in (w, ports, log ++ effects))
      (w, no_pending, []) drains in (w, log).

(** ** A write that fails *)

(** C35. When the response to a batch cannot be written to the transport, the batch
    is published nevertheless and the worker ends, but what it publishes at
    its end, if anything, reuses the revision. A host that began with a new pane
    and had drained everything up to the batch by then takes it for old: whatever the frame and the effects are,
    the window stays as it is, no effect is carried out and nothing is
    reported. *)
Theorem failed_write_reuses_revision `{Allocation} {S : Type} limits token capture before pubs w v (snapshot : S) state
    metrics write_ok publish_ok after vf snapshotf statef metricsf write_okf publish_okf :
  worker_loop token capture initial_sequences before = (pubs, true, w) → Forall (λ turn, is_stop turn = false) before →
  write_transport_effects write_ok (view_effects v) = false →
  is_Some (owned_host_effects token (worker_revision w) v (next_effect_sequence w) capture).1 →
  ∃ failed final,
    run_worker token capture (before ++ TurnOutput v snapshot state metrics write_ok publish_ok :: after)
      vf snapshotf statef metricsf write_okf publish_okf = (pubs ++ failed :: option_list final, false) ∧
    ∀ last, final = Some last →
      frame_revision (publish_frame_of last) = frame_revision (publish_frame_of failed) ∧
      ∀ window events p max p',
        ws_panes window !! token_pane token = Some (new_pane token) →
        published_by token (pubs ++ [failed]) events → 1 + effect_total (pubs ++ [failed]) ≤ u64_max →
        run_pipe limits token (init_pipe window) events = Some p → idle p →
        run_pipe limits token p
          [EvPublish (publish_frame_of last) (published_effect <$> publish_effects_of last); EvDrain max] = Some p' →
        (length (publish_effects_of last) ≤ max)%nat →
        idle p' ∧ pipe_window p' = pipe_window p ∧ pipe_log p' = pipe_log p.
Proof.
  intros Hl Hb Hw Hes.
  destruct (failed_write_run token capture before pubs w v snapshot state metrics write_ok publish_ok after vf snapshotf
    statef metricsf write_okf publish_okf Hb Hl Hw Hes) as (failed & final & Hrun & Hs & Hr & Hfinal).
  exists failed, final. split; [done|]. intros last Hlast. destruct (Hfinal last Hlast) as [Hr' _].
  split; [by rewrite Hr, Hr'|]. intros window events p max p' Hwin Hpub Htotal Hp Hidle Hp' Hmax.
  pose proof (stream_well_numbered _ _ _ Hs Hpub Htotal) as Hn.
  pose proof (run_state _ _ _ _ _ Hwin Hn Hp) as Hi. destruct (inv_idle _ _ _ _ Hi Hidle) as [_ Hpane].
  assert (∃ frames, frames_of events = frames ++ [publish_frame_of failed]) as [frames Hframes].
  { exists (publish_frame_of <$> pubs). rewrite (published_frames _ _ _ Hpub), fmap_app. done. }
  rewrite Hframes in Hpane. unfold pane_after in Hpane. rewrite foldl_app in Hpane. cbn [foldl] in Hpane.
  refine (stale_publication limits token p _ (frame_revision (publish_frame_of failed)) (publish_frame_of last) _ max p'
    Hidle _ Hpane eq_refl _ _ Hp'); [by eapply idle_ports|by rewrite Hr, Hr'|by rewrite length_fmap].
Qed.

Module FailedWrite.
Import PaneExample.

(** The worker whose response cannot be written, and what is flushed at its
    end. *)
Definition failing_turn : Turn (S:=()) := output 1 (lit "a") [RefBell 1; RefTransportWrite [27]] false.
Definition flushed : DeltaView := mkView [RefModeChange (SynchronizedOutput false)] [] [] no_metadata false.

(** What is published, with drains in between. *)
Definition published_before : list (PipeEvent (S:=())) :=
  [EvPublish (frame 1 (lit "a")) [mkEffect 1 (Bell 1)]; EvDrain 8].

Lemma failed_write_reuses_revision_witness :
  ∃ failed last p p',
    run_worker token false [failing_turn] flushed () (summary 1) no_metrics (λ _, false) true = ([failed; last], false) ∧
    publish_effects_of last ≠ [] ∧
    run_pipe limits token (init_pipe window) published_before = Some p ∧
    run_pipe limits token p [EvPublish (publish_frame_of last) (published_effect <$> publish_effects_of last); EvDrain 8] = Some p' ∧
    pipe_window p' = pipe_window p ∧ pipe_log p' = pipe_log p.
Proof.
  destruct (failed_write_reuses_revision limits token false [] [] initial_sequences (view_of (lit "a") [RefBell 1; RefTransportWrite [27]])
    () (summary 1) no_metrics (λ _, false) true [] flushed () (summary 1) no_metrics (λ _, false) true
    eq_refl (Forall_nil_2 _) eq_refl ltac:(eexists; reflexivity)) as (failed & final & Hrun & H).
  vm_compute in Hrun. destruct final as [last|]; [|done]. injection Hrun as Hfailed Hlast.
  destruct (H last eq_refl) as [_ Hp]. subst failed last.
  eexists _, _, _, _. split; [vm_compute; reflexivity|]. split; [done|]. split; [vm_compute; reflexivity|].
  split; [vm_compute; reflexivity|].
  apply (Hp window published_before _ 8%nat); first [vm_compute; reflexivity | vm_compute; discriminate | cbn; lia].
Defined.

End FailedWrite.

(** ** The overlap *)

Module Overlap.
Import PaneExample.

(** The worker publishes revision 1; the host has counted the queued effects,
    none, when the worker publishes revision 2. *)
Definition worker : Action := ActWorker (S:=()) 0 true.
Definition first_part : list (Action (S:=())) :=
  [ActPublish (frame 1 (lit "a")) []; worker; worker; worker;
   ActTurn OnNotice 8; ActHost; ActHost;
   ActPublish (frame 2 (lit "b")) [published 2 1]; worker; worker; worker;
   ActHost; ActHost].
(** Then revision 3, and a turn in which nothing happens in between. *)
Definition second_part : list (Action (S:=())) :=
  [ActPublish (frame 3 (lit "c")) [published 3 2]; worker; worker; worker; worker;
   ActTurn OnNotice 8; ActHost; ActHost; ActHost; ActHost; ActHost; ActHost].

Definition after (acts : list (Action (S:=()))) (sys : System) : System :=
  default init_system (exec_all limits acts sys).

Lemma after_reachable acts sys :
  reachable limits sys → is_Some (exec_all limits acts sys) → reachable limits (after acts sys).
Proof. intros Hr [sys' Hs]. unfold after. rewrite Hs. by eapply exec_all_reachable. Qed.

(** C33. A publication that overlaps a turn of the host can lose effects. While
    the host is between counting the queued effects and taking the frame, the
    worker publishes revision 2 with an effect: the host takes the frame
    without its effect and goes idle with the effect queued, and neither a wake
    notice nor a continuation is outstanding. After the next publication the
    host receives everything, yet the window carries out none of the two
    effects: the first belongs to a revision already shown, and the second is
    rejected because the first is missing. *)
Theorem overlapping_drain_loses_effects : ∃ sys sys' : System (S:=()),
  reachable limits sys ∧ publisher sys = PubIdle ∧ host sys = HostIdle ∧
  wake_notices sys = 0%nat ∧ continuation sys = false ∧ wake_lost sys = false ∧
  effects_waiting sys = [published 2 1] ∧
  reachable limits sys' ∧ publisher sys' = PubIdle ∧ host sys' = HostIdle ∧ wake_lost sys' = false ∧
  accepted sys' = [published 2 1; published 3 2] ∧ effects_received sys' = accepted sys' ∧
  (replay window (drains sys')).2 =
    [RenApplyPane token 2 (mkSummary size (0, 0)%nat 0 2 0) []; WinRequestRedraw;
     WinReportDiagnostic (lit "effect sequence gap: expected 1, observed 2")].
Proof.
  exists (after first_part init_system), (after second_part (after first_part init_system)).
  assert (reachable limits (after first_part init_system)) as R1
    by (apply after_reachable; [apply rtc_refl|vm_compute; by eexists]).
  split; [exact R1|]. do 6 (split; [vm_compute; reflexivity|]).
  split; [apply after_reachable; [exact R1|vm_compute; by eexists]|].
  split_and!; vm_compute; reflexivity.
Qed.

End Overlap.

(** ** The theorems at a concrete input *)

Module PublicationWitnesses.
Import PaneExample Overlap.

Lemma publication_keeps_everything_witness :
  reachable limits (after first_part init_system) ∧
  accepted (after first_part init_system) = [published 2 1] ∧
  accepted (after first_part init_system) =
    effects_received (after first_part init_system) ++ effects_waiting (after first_part init_system) ∧
  frames_grouped (after first_part init_system).
Proof.
  assert (reachable limits (after first_part init_system)) as Hr
    by (apply after_reachable; [apply rtc_refl|vm_compute; by eexists]).
  split; [exact Hr|]. split; [vm_compute; reflexivity|].
  exact (publication_keeps_everything limits (after first_part init_system) Hr).
Defined.

(** After the worker stored its first frame and before it sent the notice. *)
Lemma stored_frame_is_noticed_witness :
  reachable limits (after (take 3 first_part) init_system) ∧
  is_Some (latest (pub_latest (publication (after (take 3 first_part) init_system)))) ∧
  ((0 < wake_notices (after (take 3 first_part) init_system))%nat ∨
   continuation (after (take 3 first_part) init_system) = true ∨
   host (after (take 3 first_part) init_system) ≠ HostIdle ∨
   (∃ k, publisher (after (take 3 first_part) init_system) = PubWaking k) ∨
   wake_lost (after (take 3 first_part) init_system) = true).
Proof.
  assert (reachable limits (after (take 3 first_part) init_system)) as Hr
    by (apply after_reachable; [apply rtc_refl|vm_compute; by eexists]).
  assert (is_Some (latest (pub_latest (publication (after (take 3 first_part) init_system))))) as Hs
    by (vm_compute; by eexists).
  split; [exact Hr|]. split; [exact Hs|].
  exact (stored_frame_is_noticed limits (after (take 3 first_part) init_system) Hr Hs).
Defined.

Definition pipe_after : Pipe (S:=()) :=
  default (init_pipe window) (run_pipe limits token (init_pipe window) events).

Lemma worker_output_reaches_window_witness :
  run_pipe limits token (init_pipe window) events = Some pipe_after ∧
  effects_of events = [(1, effect 1); (3, effect 2); (3, effect 3)] ∧
  ∃ p', run_pipe limits token pipe_after (replicate 4 (EvDrain 1)) = Some p' ∧ idle p' ∧
    logs token (effects_of events) (pipe_log p') ∧
    ws_panes (pipe_window p') !! token_pane token = Some (pane_after token (frames_of events) (effects_of events)).
Proof.
  assert (run_pipe limits token (init_pipe window) events = Some pipe_after) as Hr by (vm_compute; reflexivity).
  assert (ws_panes window !! token_pane token = Some (new_pane token)) as Hw by (vm_compute; reflexivity).
  split; [exact Hr|]. split; [reflexivity|].
  destruct (worker_output_reaches_window limits token false window turns nothing_left () (summary 3) no_metrics
              (λ _, true) true
              (run_worker token false turns nothing_left () (summary 3) no_metrics (λ _, true) true).1
              events pipe_after Hw ltac:(reflexivity) ltac:(reflexivity) ltac:(vm_compute; discriminate) Hr) as [_ Hd].
  apply (Hd 0%nat 4%nat). vm_compute. lia.
Defined.

(** The window of the overlap, and a batch with the next effect. *)
Definition next_batch : RuntimeBatch TerminalStateSummary :=
  mkBatch token 4 None [] no_metadata [effect 3] no_metrics.

Lemma gap_never_heals_witness :
  ∃ log, reduce_all window (IntentRuntimeBatch <$> [next_batch; next_batch]) = (window, log) ∧ routed log = [].
Proof.
  apply (gap_never_heals token window (new_pane token) 1).
  - vm_compute. reflexivity.
  - reflexivity.
  - repeat constructor; (exists (effect 3), []; split; [reflexivity|cbn; lia]).
Defined.

End PublicationWitnesses.
