(* ===== verification/Modes.v ===== *)
(** The mode tracker of a terminal runtime ([rssh-runtime/src/modes.rs]): it
    watches the bytes of a session beside the terminal, keeps the modes the
    host needs (keys, paste, mouse, focus, synchronized output) and tells the
    host about each change; a second tracker installs these changes and is the
    host's mirror.

    An emitter [impl FnMut(TerminalModeChange)] is the list of the changes
    passed to it. Bytes are [Z] between 0 and 255, bit sets are [Z], and [!m]
    under [&] is [Z.ldiff]. [Vec::drain(..n)] panics when [n] is past the end:
    [None], as is a loop that would not end. *)
From coqutil Require Import Datatypes.RecordSetters.
From S2P Require Import Prelude Text Launch Csi Parse Grid Screen Utf8 RuntimeApi.
Import DoubleBraceUpdate.

Local Open Scope Z_scope.

#[export] Instance MouseReportingMode_eq_dec : EqDecision MouseReportingMode.
Proof. solve_decision. Defined.
#[export] Instance MouseProtocolMode_eq_dec : EqDecision MouseProtocolMode.
Proof. solve_decision. Defined.
#[export] Instance MouseInputMode_eq_dec : EqDecision MouseInputMode.
Proof. solve_decision. Defined.

(** ** Mouse modes *)

Definition reporting_bits (m : MouseReportingMode) : Z :=
  match m with MouseNone => 0 | MouseNormal => 1 | MouseButtonEvent => 2 | MouseAnyEvent => 3 end.

Definition reporting_from_bits (bits : Z) : MouseReportingMode :=
  if bits =? 1 then MouseNormal else if bits =? 2 then MouseButtonEvent
  else if bits =? 3 then MouseAnyEvent else MouseNone.

Definition protocol_bits (m : MouseProtocolMode) : Z :=
  match m with
  | MouseX10 => 0 | MouseUtf8 => 1 | MouseSgr => 2 | MouseUrxvt => 3 | MouseSgrPixels => 4
  end.

Definition protocol_from_bits (bits : Z) : MouseProtocolMode :=
  if bits =? 1 then MouseUtf8 else if bits =? 2 then MouseSgr else if bits =? 3 then MouseUrxvt
  else if bits =? 4 then MouseSgrPixels else MouseX10.

Definition is_enabled (m : MouseReportingMode) : bool :=
  match m with MouseNone => false | _ => true end.

Definition input_mode_bits (m : MouseInputMode) : Z :=
  Z.lor (reporting_bits (reporting m)) (Z.shiftl (protocol_bits (protocol m)) 2).

Definition input_mode_from_bits (bits : Z) : MouseInputMode :=
  mkMouseMode (reporting_from_bits (Z.land bits 3)) (protocol_from_bits (Z.land (Z.shiftr bits 2) 7)).

Definition default_input_mode : MouseInputMode := mkMouseMode MouseNone MouseX10.

Definition NORMAL : Z := 1.
Definition BUTTON_EVENT : Z := 2.
Definition ANY_EVENT : Z := 4.
Definition UTF8_PROTOCOL : Z := 8.
Definition SGR_PROTOCOL : Z := 16.
Definition URXVT_PROTOCOL : Z := 32.
Definition SGR_PIXELS_PROTOCOL : Z := 64.
Definition PROTOCOL_MASK : Z :=
  Z.lor (Z.lor (Z.lor UTF8_PROTOCOL SGR_PROTOCOL) URXVT_PROTOCOL) SGR_PIXELS_PROTOCOL.

Definition mouse_mask (mode : Z) : option Z :=
  if mode =? 1000 then Some NORMAL else if mode =? 1002 then Some BUTTON_EVENT
  else if mode =? 1003 then Some ANY_EVENT else if mode =? 1005 then Some UTF8_PROTOCOL
  else if mode =? 1006 then Some SGR_PROTOCOL else if mode =? 1015 then Some URXVT_PROTOCOL
  else if mode =? 1016 then Some SGR_PIXELS_PROTOCOL else None.

Definition is_protocol_mode (mode : Z) : bool :=
  (mode =? 1005) || (mode =? 1006) || (mode =? 1015) || (mode =? 1016).

(** [MouseModes::set]: [None] when the mode is not a mouse mode. *)
Definition mouse_set (mode : Z) (enabled : bool) (bits : Z) : option Z :=
  match mouse_mask mode with
  | None => None
  | Some mask => Some
      (if is_protocol_mode mode then
         let bits := Z.ldiff bits PROTOCOL_MASK in
         if enabled then Z.lor bits mask else bits
       else if enabled then Z.lor bits mask else Z.ldiff bits mask)
  end.

Definition has (bits mask : Z) : bool := negb (Z.land bits mask =? 0).

Definition mouse_input_of (bits : Z) : MouseInputMode :=
  mkMouseMode
    (if has bits ANY_EVENT then MouseAnyEvent else if has bits BUTTON_EVENT then MouseButtonEvent
     else if has bits NORMAL then MouseNormal else MouseNone)
    (if has bits SGR_PIXELS_PROTOCOL then MouseSgrPixels else if has bits SGR_PROTOCOL then MouseSgr
     else if has bits URXVT_PROTOCOL then MouseUrxvt else if has bits UTF8_PROTOCOL then MouseUtf8
     else MouseX10).

Definition reporting_mode (m : MouseReportingMode) : option Z :=
  match m with
  | MouseNone => None | MouseNormal => Some 1000 | MouseButtonEvent => Some 1002
  | MouseAnyEvent => Some 1003
  end.

Definition protocol_mode (m : MouseProtocolMode) : option Z :=
  match m with
  | MouseX10 => None | MouseUtf8 => Some 1005 | MouseSgr => Some 1006 | MouseUrxvt => Some 1015
  | MouseSgrPixels => Some 1016
  end.

(** [if let Some(mode) = mode { self.set(mode, true); }] *)
Definition set_some (mode : option Z) (bits : Z) : Z :=
  match mode with None => bits | Some mode => default bits (mouse_set mode true bits) end.

Definition mouse_install (m : MouseInputMode) : Z :=
  set_some (protocol_mode (protocol m)) (set_some (reporting_mode (reporting m)) 0).

(** ** Kitty keyboard flags *)

Inductive KittyKeyboardOperation := KeyboardPush | KeyboardPop | KeyboardApply.
Inductive KittyKeyboardApplyMode := ApplyReplace | ApplySet | ApplyReset.
Record KittyKeyboardMode := mkKeyboardMode {
  operation : KittyKeyboardOperation; value : Z; apply_mode_of : KittyKeyboardApplyMode }.
Record KeyModifierOptions := mkModifierOptions { resource : option Z; option_value : option Z }.
Record PrivateModeSequence := mkPrivateModes { sequence_modes : list Z; sequence_enabled : bool }.

Record KittyKeyboardModes := mkKeyboard { keyboard_flags : Z; keyboard_stack : list Z }.

Definition MAX_STACK : nat := 32.

Definition no_keyboard_modes : KittyKeyboardModes := mkKeyboard 0 [].

(** The top of the stack is the end of the vector. *)
Definition keyboard_push (flags : Z) (k : KittyKeyboardModes) : KittyKeyboardModes :=
  let stack := if bool_decide (length (keyboard_stack k) = MAX_STACK) then drop 1 (keyboard_stack k)
               else keyboard_stack k in
  mkKeyboard flags (stack ++ [keyboard_flags k]).

Fixpoint keyboard_pop_loop (count : nat) (k : KittyKeyboardModes) : KittyKeyboardModes :=
  match count with
  | O => k
  | S count =>
      match last (keyboard_stack k) with
      | None => mkKeyboard 0 (keyboard_stack k)
      | Some flags => keyboard_pop_loop count (mkKeyboard flags (take (length (keyboard_stack k) - 1) (keyboard_stack k)))
      end
  end.

Definition keyboard_pop (count : Z) (k : KittyKeyboardModes) : KittyKeyboardModes :=
  keyboard_pop_loop (Z.to_nat (if count =? 0 then 1 else count)) k.

Definition keyboard_apply (flags : Z) (mode : KittyKeyboardApplyMode) (k : KittyKeyboardModes)
    : KittyKeyboardModes :=
  mkKeyboard
    match mode with
    | ApplyReplace => flags
    | ApplySet => Z.lor (keyboard_flags k) flags
    | ApplyReset => Z.ldiff (keyboard_flags k) flags
    end (keyboard_stack k).

(** ** Tracked modes *)

Definition APPLICATION_CURSOR_KEYS : Z := 1.
Definition APPLICATION_KEYPAD : Z := Z.shiftl 1 1.
Definition BRACKETED_PASTE : Z := Z.shiftl 1 2.
Definition FOCUS : Z := Z.shiftl 1 3.
Definition SYNCHRONIZED_OUTPUT : Z := Z.shiftl 1 4.
Definition ORIGIN_MODE : Z := Z.shiftl 1 5.
Definition AUTO_WRAP : Z := Z.shiftl 1 6.
Definition CURSOR_VISIBLE : Z := Z.shiftl 1 7.
Definition CURSOR_BLINKING : Z := Z.shiftl 1 8.
Definition ALTERNATE_SCREEN_47 : Z := Z.shiftl 1 9.
Definition ALTERNATE_SCREEN_1047 : Z := Z.shiftl 1 10.
Definition ALTERNATE_SCREEN_1049 : Z := Z.shiftl 1 11.
Definition PRIVATE_CURSOR_SAVE : Z := Z.shiftl 1 12.
Definition INSERT_MODE : Z := Z.shiftl 1 13.
Definition META_KEY : Z := Z.shiftl 1 14.
Definition LEFT_RIGHT_MARGIN_MODE : Z := Z.shiftl 1 15.
Definition SIXEL_DISPLAY_MODE : Z := Z.shiftl 1 16.
Definition SIXEL_SCROLLS_RIGHT : Z := Z.shiftl 1 17.
Definition REVERSE_WRAP : Z := Z.shiftl 1 18.
Definition SCREEN_REVERSE : Z := Z.shiftl 1 19.
Definition WIN32_INPUT_MODE : Z := Z.shiftl 1 20.
Definition AUTOMATIC_NEWLINE : Z := Z.shiftl 1 21.
Definition BIDIRECTIONAL_SUPPORT : Z := Z.shiftl 1 22.
Definition PRIVATE_COLOR_REGISTERS : Z := Z.shiftl 1 23.
Definition DEC_ANSI_MODE : Z := Z.shiftl 1 24.

Definition private_mode_bit (mode : Z) : option Z :=
  if mode =? 2 then Some DEC_ANSI_MODE else if mode =? 5 then Some SCREEN_REVERSE
  else if mode =? 6 then Some ORIGIN_MODE else if mode =? 7 then Some AUTO_WRAP
  else if mode =? 12 then Some CURSOR_BLINKING else if mode =? 25 then Some CURSOR_VISIBLE
  else if mode =? 45 then Some REVERSE_WRAP else if mode =? 47 then Some ALTERNATE_SCREEN_47
  else if mode =? 69 then Some LEFT_RIGHT_MARGIN_MODE else if mode =? 80 then Some SIXEL_DISPLAY_MODE
  else if mode =? 1034 then Some META_KEY else if mode =? 1047 then Some ALTERNATE_SCREEN_1047
  else if mode =? 1048 then Some PRIVATE_CURSOR_SAVE else if mode =? 1049 then Some ALTERNATE_SCREEN_1049
  else if mode =? 1070 then Some PRIVATE_COLOR_REGISTERS
  else if mode =? 8452 then Some SIXEL_SCROLLS_RIGHT else None.

(** [TrackedTerminalModes::set] returns whether the bits changed; here the
    caller compares. *)
Definition set_bits (mask : Z) (enabled : bool) (bits : Z) : Z :=
  if enabled then Z.lor bits mask else Z.ldiff bits mask.

Definition default_tracked : Z := Z.lor AUTO_WRAP CURSOR_VISIBLE.

(** ** The tracker *)

Record TerminalModeTracker := mkTracker {
  pending : list Z;
  mouse_modes : Z;
  kitty_keyboard_modes : KittyKeyboardModes;
  modify_other_keys : Z;
  allow_win32_input_mode : bool;
  tracked_modes : Z;
}.

#[export] Hint Extern 0 (@Setter TerminalModeTracker _ ?getter) =>
  mk_setter (fun t : TerminalModeTracker => mkTracker (pending t) (mouse_modes t) (kitty_keyboard_modes t)
    (modify_other_keys t) (allow_win32_input_mode t) (tracked_modes t)) getter : typeclass_instances.

Definition new_tracker : TerminalModeTracker := mkTracker [] 0 no_keyboard_modes 0 true default_tracked.

Definition tracked (mask : Z) (t : TerminalModeTracker) : bool := has (tracked_modes t) mask.

Definition application_cursor_keys := tracked APPLICATION_CURSOR_KEYS.
Definition application_keypad := tracked APPLICATION_KEYPAD.
Definition focus_reporting := tracked FOCUS.
Definition bracketed_paste := tracked BRACKETED_PASTE.
Definition synchronized_output := tracked SYNCHRONIZED_OUTPUT.
Definition win32_input_mode := tracked WIN32_INPUT_MODE.
Definition mouse_input_mode (t : TerminalModeTracker) : MouseInputMode := mouse_input_of (mouse_modes t).
Definition kitty_keyboard_flags (t : TerminalModeTracker) : Z := keyboard_flags (kitty_keyboard_modes t).

Definition Emitted : Type := TerminalModeTracker * list TerminalModeChange.

(** [self.tracked_modes.set(mask, enabled);] without looking at the result. *)
Definition set_tracked (mask : Z) (enabled : bool) (t : TerminalModeTracker) : TerminalModeTracker :=
  t{{ tracked_modes := set_bits mask enabled (tracked_modes t) }}.

(** [if self.tracked_modes.set(mask, enabled) { emit(change); }] *)
Definition set_and_emit (mask : Z) (enabled : bool) (change : TerminalModeChange)
    (t : TerminalModeTracker) : Emitted :=
  let t' := set_tracked mask enabled t in
  (t', if tracked_modes t' =? tracked_modes t then [] else [change]).

(** One step that emits after another. *)
Definition then_emit (e : Emitted) (f : TerminalModeTracker → Emitted) : Emitted :=
  let '(t, changes) := e in let '(t', changes') := f t in (t', changes ++ changes').

Definition install_change (change : TerminalModeChange) (t : TerminalModeTracker) : TerminalModeTracker :=
  match change with
  | ApplicationCursorKeys enabled => set_tracked APPLICATION_CURSOR_KEYS enabled t
  | ApplicationKeypad enabled => set_tracked APPLICATION_KEYPAD enabled t
  | BracketedPaste enabled => set_tracked BRACKETED_PASTE enabled t
  | Mouse mode => t{{ mouse_modes := mouse_install mode }}
  | Focus enabled => set_tracked FOCUS enabled t
  | SynchronizedOutput enabled => set_tracked SYNCHRONIZED_OUTPUT enabled t
  | KittyKeyboardFlags flags => t{{ kitty_keyboard_modes := mkKeyboard flags [] }}
  | ModifyOtherKeys value => t{{ modify_other_keys := value }}
  | Win32InputMode enabled => set_tracked WIN32_INPUT_MODE enabled t
  end.

Definition apply_mode (mode : Z) (enabled : bool) (t : TerminalModeTracker) : Emitted :=
  match private_mode_bit mode with
  | Some mask => (set_tracked mask enabled t, [])
  | None =>
      if mode =? 1 then set_and_emit APPLICATION_CURSOR_KEYS enabled (ApplicationCursorKeys enabled) t
      else if mode =? 1004 then set_and_emit FOCUS enabled (Focus enabled) t
      else if mode =? 2004 then set_and_emit BRACKETED_PASTE enabled (BracketedPaste enabled) t
      else if mode =? 2026 then set_and_emit SYNCHRONIZED_OUTPUT enabled (SynchronizedOutput enabled) t
      else if mode =? 9001 then
        if allow_win32_input_mode t then set_and_emit WIN32_INPUT_MODE enabled (Win32InputMode enabled) t
        else (t, [])
      else (t, [])
  end.

Definition apply_ansi_mode (enabled : bool) (t : TerminalModeTracker) (mode : Z) : TerminalModeTracker :=
  if mode =? 4 then set_tracked INSERT_MODE enabled t
  else if mode =? 8 then set_tracked BIDIRECTIONAL_SUPPORT enabled t
  else if mode =? 20 then set_tracked AUTOMATIC_NEWLINE enabled t
  else t.

Definition emit_mouse_change (before : MouseInputMode) (t : TerminalModeTracker)
    : list TerminalModeChange :=
  let after := mouse_input_mode t in
  if bool_decide (before ≠ after) && (is_enabled (reporting before) || is_enabled (reporting after))
  then [Mouse after] else [].

(** The loop over the modes of a sequence; [saw] is [saw_mouse_mode]. *)
Fixpoint apply_private_modes (modes : list Z) (enabled saw : bool) (t : TerminalModeTracker)
    : Emitted * bool :=
  match modes with
  | [] => ((t, []), saw)
  | mode :: modes =>
      match mouse_set mode enabled (mouse_modes t) with
      | Some bits => apply_private_modes modes enabled true (t{{ mouse_modes := bits }})
      | None =>
          let '(t, changes) := apply_mode mode enabled t in
          let '((t, changes'), saw) := apply_private_modes modes enabled saw t in
          ((t, changes ++ changes'), saw)
      end
  end.

Definition apply_private_mode_sequence (sequence : PrivateModeSequence) (t : TerminalModeTracker)
    : Emitted :=
  let before := mouse_input_mode t in
  let '((t, changes), saw) :=
    apply_private_modes (sequence_modes sequence) (sequence_enabled sequence) false t in
  (t, changes ++ if saw then emit_mouse_change before t else []).

Definition apply_kitty_keyboard_sequence (sequence : KittyKeyboardMode) (t : TerminalModeTracker)
    : Emitted :=
  let k := kitty_keyboard_modes t in
  let k' :=
    match operation sequence with
    | KeyboardPush => keyboard_push (value sequence) k
    | KeyboardPop => keyboard_pop (value sequence) k
    | KeyboardApply => keyboard_apply (value sequence) (apply_mode_of sequence) k
    end in
  (t{{ kitty_keyboard_modes := k' }},
   if keyboard_flags k =? keyboard_flags k' then [] else [KittyKeyboardFlags (keyboard_flags k')]).

Definition modifier_level (value : option Z) : Z :=
  match value with Some v => if v <=? 2 then v else 0 | None => 0 end.

Definition apply_key_modifier_options_sequence (sequence : KeyModifierOptions) (t : TerminalModeTracker)
    : Emitted :=
  if bool_decide (resource sequence = None ∨ resource sequence = Some 4) then
    let next := modifier_level (option_value sequence) in
    if modify_other_keys t =? next then (t, [])
    else (t{{ modify_other_keys := next }}, [ModifyOtherKeys next])
  else (t, []).

Definition clear_kitty_keyboard_flags (t : TerminalModeTracker) : TerminalModeTracker :=
  t{{ kitty_keyboard_modes := no_keyboard_modes }}.

Definition finish (t : TerminalModeTracker) : Emitted :=
  set_and_emit SYNCHRONIZED_OUTPUT false (SynchronizedOutput false) (t{{ pending := [] }}).

Definition set_allow_win32_input_mode (allowed : bool) (t : TerminalModeTracker) : TerminalModeTracker :=
  let t := t{{ allow_win32_input_mode := allowed }} in
  if allowed then t else set_tracked WIN32_INPUT_MODE false t.

Definition set_application_keypad (enabled : bool) : TerminalModeTracker → Emitted :=
  set_and_emit APPLICATION_KEYPAD enabled (ApplicationKeypad enabled).

Definition reset_modify_other_keys (t : TerminalModeTracker) : Emitted :=
  if modify_other_keys t =? 0 then (t, [])
  else (t{{ modify_other_keys := 0 }}, [ModifyOtherKeys 0]).

Definition soft_reset (t : TerminalModeTracker) : Emitted :=
  let '(t, changes) :=
    then_emit
      (then_emit (set_and_emit APPLICATION_CURSOR_KEYS false (ApplicationCursorKeys false) t)
         reset_modify_other_keys)
      (set_and_emit APPLICATION_KEYPAD false (ApplicationKeypad false)) in
  (set_tracked SCREEN_REVERSE false (set_tracked REVERSE_WRAP false
    (set_tracked BIDIRECTIONAL_SUPPORT false (set_tracked LEFT_RIGHT_MARGIN_MODE false
    (set_tracked INSERT_MODE false (set_tracked CURSOR_VISIBLE true (set_tracked AUTO_WRAP true
    (set_tracked ORIGIN_MODE false t))))))), changes).

Definition emit_if (condition : bool) (change : TerminalModeChange) : list TerminalModeChange :=
  if condition then [change] else [].

Definition reset (t : TerminalModeTracker) : Emitted :=
  (t{{ mouse_modes := 0; kitty_keyboard_modes := no_keyboard_modes; modify_other_keys := 0;
       tracked_modes := default_tracked }},
   emit_if (application_cursor_keys t) (ApplicationCursorKeys false)
   ++ emit_if (application_keypad t) (ApplicationKeypad false)
   ++ emit_if (bracketed_paste t) (BracketedPaste false)
   ++ emit_if (bool_decide (mouse_input_mode t ≠ default_input_mode)) (Mouse default_input_mode)
   ++ emit_if (focus_reporting t) (Focus false)
   ++ emit_if (synchronized_output t) (SynchronizedOutput false)
   ++ emit_if (negb (kitty_keyboard_flags t =? 0)) (KittyKeyboardFlags 0)
   ++ emit_if (negb (modify_other_keys t =? 0)) (ModifyOtherKeys 0)
   ++ emit_if (win32_input_mode t) (Win32InputMode false)).

(** ** Mode reports *)

Definition mode_report_value (enabled : bool) : Z := if enabled then 1 else 2.

Definition mouse_report_value (mode bits : Z) : option Z :=
  (λ mask, mode_report_value (has bits mask)) <$> mouse_mask mode.

Definition private_mode_report_value (mode : Z) (t : TerminalModeTracker) : Z :=
  let report mask := mode_report_value (tracked mask t) in
  if mode =? 1 then mode_report_value (application_cursor_keys t)
  else if mode =? 2 then report DEC_ANSI_MODE
  else if mode =? 3 then mode_report_value false
  else if mode =? 5 then report SCREEN_REVERSE
  else if mode =? 6 then report ORIGIN_MODE
  else if mode =? 7 then report AUTO_WRAP
  else if mode =? 12 then report CURSOR_BLINKING
  else if mode =? 25 then report CURSOR_VISIBLE
  else if mode =? 45 then report REVERSE_WRAP
  else if mode =? 69 then report LEFT_RIGHT_MARGIN_MODE
  else if mode =? 80 then report SIXEL_DISPLAY_MODE
  else if mode =? 8452 then report SIXEL_SCROLLS_RIGHT
  else if bool_decide (mode ∈ [1000; 1002; 1003; 1005; 1006; 1015; 1016])
  then default 0 (mouse_report_value mode (mouse_modes t))
  else if mode =? 1004 then mode_report_value (focus_reporting t)
  else if mode =? 1034 then report META_KEY
  else if mode =? 1070 then report PRIVATE_COLOR_REGISTERS
  else if mode =? 9001 then mode_report_value (win32_input_mode t)
  else if mode =? 2004 then mode_report_value (bracketed_paste t)
  else if mode =? 2026 then mode_report_value (synchronized_output t)
  else if mode =? 2027 then 3
  else 0.

Definition ansi_mode_report_value (mode : Z) (t : TerminalModeTracker) : Z :=
  let report mask := mode_report_value (tracked mask t) in
  if mode =? 4 then report INSERT_MODE
  else if mode =? 8 then report BIDIRECTIONAL_SUPPORT
  else if mode =? 20 then report AUTOMATIC_NEWLINE
  else 0.

(** ** Searching the bytes *)

(** [is_utf8_continuation] and [utf8_sequence_len] are the same functions as
    in [rssh-terminal/src/parser.rs]. *)
Definition is_utf8_continuation_in_potential_sequence (bytes : list Z) (index : nat) : bool :=
  if bool_decide (index = 0%nat)
     || match bytes !! index with Some byte => negb (is_utf8_continuation byte) | None => true end
  then false
  else
    let start := back_to_lead bytes index in
    if bool_decide (start = index) then false
    else match bytes !! start ≫= utf8_sequence_len with
         | None => false
         | Some expected_len =>
             bool_decide (index < start + expected_len)%nat
             && forallb is_utf8_continuation (take (index - start) (drop (start + 1) bytes))
         end.

Definition is_raw_c1_control_byte (byte : Z) : bool := between 128 159 byte.

Definition raw_c1_prefix_is_utf8_continuation (bytes : list Z) (index : nat) (prefix : list Z) : bool :=
  match prefix with byte :: _ => is_raw_c1_control_byte byte | [] => false end
  && is_utf8_continuation_in_potential_sequence bytes index.

(** [haystack.windows(needle.len())]: a window for every start it fits at. *)
Definition find_subslice (haystack needle : list Z) : option nat :=
  if bool_decide (needle = []) then Some 0%nat
  else List.find
    (λ index, bool_decide (take (length needle) (drop index haystack) = needle)
              && negb (raw_c1_prefix_is_utf8_continuation haystack index needle))
    (seq 0 (S (length haystack) - length needle)).

(** [Iterator::min_by_key]: the first of the smallest. *)
Fixpoint min_by_key {A} (key : A → nat) (l : list A) : option A :=
  match l with
  | [] => None
  | x :: l =>
      match min_by_key key l with
      | None => Some x
      | Some y => if bool_decide (key y < key x)%nat then Some y else Some x
      end
  end.

Definition flatten {A} (l : list (option A)) : list A := omap id l.

Inductive ModeSequence :=
| CsiPrivateMode (prefix_len : nat)
| CsiMode (prefix_len : nat)
| KeypadSequence (enabled : bool)
| ResetSequence
| SoftReset (prefix_len : nat).

Record ModeSequenceStart := mkStart { start_index : nat; start_sequence : ModeSequence }.

Definition APPLICATION_KEYPAD_PREFIX : list Z := [27; 61].
Definition CSI_MODE_PREFIX : list Z := [27; 91].
Definition CSI_PRIVATE_MODE_PREFIX : list Z := [27; 91; 63].
Definition C1_CSI_MODE_PREFIX : list Z := [155].
Definition C1_CSI_PRIVATE_MODE_PREFIX : list Z := [155; 63].
Definition UTF8_C1_CSI_MODE_PREFIX : list Z := [194; 155].
Definition UTF8_C1_CSI_PRIVATE_MODE_PREFIX : list Z := [194; 155; 63].
Definition NUMERIC_KEYPAD_PREFIX : list Z := [27; 62].
Definition RESET_PREFIX : list Z := [27; 99].
Definition SOFT_RESET_PREFIX : list Z := [27; 91; 33; 112].
Definition C1_SOFT_RESET_PREFIX : list Z := [155; 33; 112].
Definition UTF8_C1_SOFT_RESET_PREFIX : list Z := [194; 155; 33; 112].

Definition find_mode_start_with_prefixes (bytes : list Z) (prefixes : list (list Z * ModeSequence))
    : option ModeSequenceStart :=
  min_by_key start_index
    (omap (λ p : list Z * ModeSequence,
             (λ index, mkStart index p.2) <$> find_subslice bytes p.1) prefixes).

Definition find_csi_private_mode_start (bytes : list Z) : option ModeSequenceStart :=
  find_mode_start_with_prefixes bytes
    [(CSI_PRIVATE_MODE_PREFIX, CsiPrivateMode 3); (C1_CSI_PRIVATE_MODE_PREFIX, CsiPrivateMode 2);
     (UTF8_C1_CSI_PRIVATE_MODE_PREFIX, CsiPrivateMode 3)].

Definition find_soft_reset_start (bytes : list Z) : option ModeSequenceStart :=
  find_mode_start_with_prefixes bytes
    [(SOFT_RESET_PREFIX, SoftReset 4); (C1_SOFT_RESET_PREFIX, SoftReset 3);
     (UTF8_C1_SOFT_RESET_PREFIX, SoftReset 4)].

Definition find_csi_mode_start (bytes : list Z) : option ModeSequenceStart :=
  find_mode_start_with_prefixes bytes
    [(CSI_MODE_PREFIX, CsiMode 2); (C1_CSI_MODE_PREFIX, CsiMode 1); (UTF8_C1_CSI_MODE_PREFIX, CsiMode 2)].

Definition find_simple_escape_start (bytes : list Z) : option ModeSequenceStart :=
  find_mode_start_with_prefixes bytes
    [(APPLICATION_KEYPAD_PREFIX, KeypadSequence true); (NUMERIC_KEYPAD_PREFIX, KeypadSequence false);
     (RESET_PREFIX, ResetSequence)].

Definition find_next_mode_start (bytes : list Z) : option ModeSequenceStart :=
  min_by_key start_index
    (flatten [find_csi_private_mode_start bytes; find_soft_reset_start bytes;
              find_csi_mode_start bytes; find_simple_escape_start bytes]).

Inductive ModeParse :=
| ParseComplete (modes : list Z) (enabled : bool) (consumed : nat)
| ParseIncomplete
| ParseInvalid.

Definition is_digit (byte : Z) : bool := between 48 57 byte.

Definition add_mode_digit (mode byte : Z) : Z :=
  Z.min (Z.min (mode * 10) u16_max + (byte - 48)) u16_max.

(** The loop from [cursor]: [mode] is the number read so far, [None] before
    its first digit. *)
Fixpoint parse_modes (bytes : list Z) (modes : list Z) (mode : option Z) (cursor : nat) : ModeParse :=
  match bytes with
  | [] => ParseIncomplete
  | byte :: bytes =>
      if is_digit byte then
        parse_modes bytes modes (Some (add_mode_digit (default 0 mode) byte)) (S cursor)
      else
        match mode with
        | None => ParseInvalid
        | Some mode =>
            if byte =? 59 then parse_modes bytes (modes ++ [mode]) None (S cursor)
            else if (byte =? 104) || (byte =? 108)
            then ParseComplete (modes ++ [mode]) (byte =? 104) (S cursor)
            else ParseInvalid
        end
  end.

Definition parse_mode_sequence (bytes : list Z) (prefix_len : nat) : ModeParse :=
  parse_modes (drop prefix_len bytes) [] None prefix_len.

(** ** Control strings *)

Inductive ControlStringKind := ControlOsc | ControlSt.
Record ControlStringStart := mkControlStart {
  control_index : nat; control_prefix_len : nat; control_kind : ControlStringKind }.
Record ControlStringSpan := mkSpan { span_start : nat; span_end : option nat }.
Record ControlStringTerminator := mkTerminator { terminator_index : nat; terminator_length : nat }.

Definition find_first_prefix (bytes : list Z) (prefixes : list (list Z)) : option (nat * nat) :=
  min_by_key fst (omap (λ p, (λ index, (index, length p)) <$> find_subslice bytes p) prefixes).

Definition find_next_osc_start (bytes : list Z) : option (nat * nat) :=
  find_first_prefix bytes [[27; 93]; [194; 157]; [157]].

Definition find_next_st_control_string_start (bytes : list Z) : option (nat * nat) :=
  find_first_prefix bytes
    [[27; 80]; [27; 88]; [27; 94]; [27; 95]; [194; 144]; [194; 152]; [194; 158]; [194; 159];
     [144]; [152]; [158]; [159]].

Definition find_next_control_string_start (bytes : list Z) : option ControlStringStart :=
  min_by_key control_index
    (flatten [(λ p : nat * nat, mkControlStart p.1 p.2 ControlOsc) <$> find_next_osc_start bytes;
              (λ p : nat * nat, mkControlStart p.1 p.2 ControlSt) <$> find_next_st_control_string_start bytes]).

(** The loop at [index], where [rest] is [bytes[index..]]. *)
Fixpoint terminator_from (bytes : list Z) (kind : ControlStringKind) (index : nat) (rest : list Z)
    : option ControlStringTerminator :=
  match rest with
  | [] => None
  | byte :: rest =>
      let next := match rest with b :: _ => Some b | [] => None end in
      let continue := terminator_from bytes kind (S index) rest in
      if (byte =? 24) || (byte =? 26) then Some (mkTerminator index 1)
      else if (byte =? 7) && match kind with ControlOsc => true | ControlSt => false end
      then Some (mkTerminator index 1)
      else if (byte =? 156) && negb (is_utf8_continuation_in_potential_sequence bytes index)
      then Some (mkTerminator index 1)
      else if (byte =? 194) && bool_decide (next = Some 156) then Some (mkTerminator index 2)
      else if byte =? 27 then
        match next with
        | Some b => if b =? 92 then Some (mkTerminator index 2) else continue
        | None => None
        end
      else continue
  end.

Definition find_control_string_terminator (bytes : list Z) (kind : ControlStringKind)
    : option ControlStringTerminator :=
  terminator_from bytes kind 0 bytes.

(** The end of the control string that [start] opens in [bytes[offset..]]. *)
Definition control_string_end (bytes : list Z) (offset : nat) (start : ControlStringStart) : option nat :=
  let content_start := (offset + control_index start + control_prefix_len start)%nat in
  (λ t, (content_start + terminator_index t + terminator_length t)%nat)
    <$> find_control_string_terminator (drop content_start bytes) (control_kind start).

(** Every round of the loop moves [offset] forward, so [length bytes] rounds
    are enough. *)
Fixpoint containing_loop (fuel : nat) (bytes : list Z) (index offset : nat) : option ControlStringSpan :=
  match fuel with
  | O => None
  | S fuel =>
      if bool_decide (length bytes ≤ offset)%nat then None
      else
        match find_next_control_string_start (drop offset bytes) with
        | None => None
        | Some start =>
            let absolute_start := (offset + control_index start)%nat in
            if bool_decide (index < absolute_start)%nat then None
            else
              match control_string_end bytes offset start with
              | None => Some (mkSpan absolute_start None)
              | Some end_ =>
                  if bool_decide (index < end_)%nat then Some (mkSpan absolute_start (Some end_))
                  else containing_loop fuel bytes index end_
              end
        end
  end.

Definition control_string_containing (bytes : list Z) (index : nat) : option ControlStringSpan :=
  containing_loop (length bytes) bytes index 0.

Definition control_string_kinds_match (left right : ControlStringKind) : bool :=
  match left, right with ControlOsc, ControlOsc | ControlSt, ControlSt => true | _, _ => false end.

Fixpoint incomplete_loop (fuel : nat) (bytes : list Z) (expected_kind : ControlStringKind) (offset : nat)
    : nat :=
  match fuel with
  | O => 0
  | S fuel =>
      if bool_decide (length bytes ≤ offset)%nat then 0%nat
      else
        match find_next_control_string_start (drop offset bytes) with
        | None => 0%nat
        | Some start =>
            match control_string_end bytes offset start with
            | None => if control_string_kinds_match expected_kind (control_kind start)
                      then (length bytes - (offset + control_index start))%nat else 0%nat
            | Some end_ => incomplete_loop fuel bytes expected_kind end_
            end
        end
  end.

Definition incomplete_control_string_suffix_len (bytes : list Z) (expected_kind : ControlStringKind) : nat :=
  incomplete_loop (length bytes) bytes expected_kind 0.

Definition suffix_len_matching_prefix (haystack needle : list Z) : nat :=
  let max := (length haystack `min` (length needle - 1))%nat in
  default 0%nat
    (List.find
       (λ len, let suffix_start := (length haystack - len)%nat in
               bool_decide (drop suffix_start haystack = take len needle)
               && negb (raw_c1_prefix_is_utf8_continuation haystack suffix_start (take len needle)))
       (rev (seq 1 max))).

Definition maximum (l : list nat) : nat := foldr Nat.max 0%nat l.

Definition incomplete_osc_control_sequence_suffix_len (bytes : list Z) : nat :=
  incomplete_control_string_suffix_len bytes ControlOsc `max` suffix_len_matching_prefix bytes [27; 93].

Definition incomplete_st_control_sequence_suffix_len (bytes : list Z) : nat :=
  incomplete_control_string_suffix_len bytes ControlSt
  `max` maximum (suffix_len_matching_prefix bytes <$> [[27; 80]; [27; 88]; [27; 94]; [27; 95]]).

(** ** The byte stream *)

Definition mode_prefixes : list (list Z) :=
  [CSI_MODE_PREFIX; CSI_PRIVATE_MODE_PREFIX; C1_CSI_MODE_PREFIX; C1_CSI_PRIVATE_MODE_PREFIX;
   UTF8_C1_CSI_MODE_PREFIX; UTF8_C1_CSI_PRIVATE_MODE_PREFIX; APPLICATION_KEYPAD_PREFIX;
   NUMERIC_KEYPAD_PREFIX; RESET_PREFIX; SOFT_RESET_PREFIX; C1_SOFT_RESET_PREFIX;
   UTF8_C1_SOFT_RESET_PREFIX].

Definition retained_len (bytes : list Z) : nat :=
  maximum (suffix_len_matching_prefix bytes <$> mode_prefixes)
  `max` incomplete_osc_control_sequence_suffix_len bytes
  `max` incomplete_st_control_sequence_suffix_len bytes.

Definition drain (n : nat) (t : TerminalModeTracker) : option TerminalModeTracker :=
  if bool_decide (n ≤ length (pending t))%nat then Some (t{{ pending := drop n (pending t) }}) else None.

Definition retain_possible_prefix (t : TerminalModeTracker) : option TerminalModeTracker :=
  drain (length (pending t) - retained_len (pending t)) t.

(** What one round of the loop does: stop, or go on. *)
Inductive Round := Stop (e : Emitted) | Continue (e : Emitted).

Definition drained (n : nat) (e : Emitted) : option Round :=
  (λ t, Continue (t, e.2)) <$> drain n e.1.

Definition apply_sequence (sequence : ModeSequence) (t : TerminalModeTracker) : option Round :=
  match sequence with
  | KeypadSequence enabled => drained 2 (set_application_keypad enabled t)
  | ResetSequence => drained 2 (reset t)
  | SoftReset prefix_len => drained prefix_len (soft_reset t)
  | CsiMode prefix_len =>
      match parse_mode_sequence (pending t) prefix_len with
      | ParseComplete modes enabled consumed =>
          drained consumed (foldl (apply_ansi_mode enabled) t modes, [])
      | ParseIncomplete => Some (Stop (t, []))
      | ParseInvalid => drained 1 (t, [])
      end
  | CsiPrivateMode prefix_len =>
      match parse_mode_sequence (pending t) prefix_len with
      | ParseComplete modes enabled consumed =>
          drained consumed (apply_private_mode_sequence (mkPrivateModes modes enabled) t)
      | ParseIncomplete => Some (Stop (t, []))
      | ParseInvalid => drained 1 (t, [])
      end
  end.

Definition process_round (t : TerminalModeTracker) : option Round :=
  match find_next_mode_start (pending t) with
  | None => (λ t, Stop (t, [])) <$> retain_possible_prefix t
  | Some start =>
      match control_string_containing (pending t) (start_index start) with
      | Some (mkSpan _ (Some end_)) => drained end_ (t, [])
      | Some (mkSpan start None) => (λ t, Stop (t, [])) <$> drain start t
      | None => drain (start_index start) t ≫= apply_sequence (start_sequence start)
      end
  end.

(** Every round that goes on takes bytes off [pending]. *)
Fixpoint process_loop (fuel : nat) (t : TerminalModeTracker) : option Emitted :=
  match fuel with
  | O => None
  | S fuel =>
      match process_round t with
      | None => None
      | Some (Stop e) => Some e
      | Some (Continue (t, changes)) =>
          (λ e : Emitted, (e.1, changes ++ e.2)) <$> process_loop fuel t
      end
  end.

Definition is_mode_candidate_start (byte : Z) : bool :=
  bool_decide (byte ∈ [27; 144; 152; 155; 157; 158; 159; 194]).

Definition process (bytes : list Z) (t : TerminalModeTracker) : option Emitted :=
  if bool_decide (pending t = []) && negb (existsb is_mode_candidate_start bytes) then Some (t, [])
  else
    let t := t{{ pending := pending t ++ bytes }} in
    process_loop (S (length (pending t))) t.

Definition process_without_emitting (bytes : list Z) (t : TerminalModeTracker) : option TerminalModeTracker :=
  fst <$> process bytes t.

(** Whether a complete control sequence is worth showing to the tracker. *)
Definition framed_control_may_change_modes (bytes : list Z) : bool :=
  if bool_decide (bytes ∈ [[27; 61]; [27; 62]; [27; 99]]) then true
  else
    let body :=
      match strip_prefix [27; 91] bytes with
      | Some body => Some body
      | None => match strip_prefix [155] bytes with
                | Some body => Some body
                | None => strip_prefix [194; 155] bytes
                end
      end in
    match body with
    | None => false
    | Some body => bool_decide (body = [33; 112])
                   || bool_decide (last body = Some 104) || bool_decide (last body = Some 108)
    end.
