(* ===== verification/ModesFacts.v ===== *)
(** What the mode tracker promises ([Modes]): reading the bytes always ends
    without a panic; the host's mirror, which installs the emitted
    changes and gets the same settings, shows the host the same modes; a private mode sequence cut
    into any chunks has the effect of the parsed sequence; the stack of Kitty
    keyboard flags is bounded and last-in first-out. A soft reset cut before
    its last byte is lost. *)
From coqutil Require Import Datatypes.RecordSetters.
From S2P Require Import Prelude Text Launch Csi Parse Grid Screen Utf8 RuntimeApi Modes.
Import DoubleBraceUpdate.

Local Open Scope Z_scope.

(** ** The mirror of the host *)

(** What the host reads from its mirror. The protocol of the mouse matters
    only while the mouse is reported. *)
Record HostView := mkHostView {
  view_cursor_keys : bool;
  view_keypad : bool;
  view_paste : bool;
  view_mouse : option MouseInputMode;
  view_focus : bool;
  view_synchronized : bool;
  view_keyboard : Z;
  view_modifiers : Z;
  view_win32 : bool;
}.

Definition reported_mouse (bits : Z) : option MouseInputMode :=
  let mode := mouse_input_of bits in if is_enabled (reporting mode) then Some mode else None.

Definition host_view (t : TerminalModeTracker) : HostView :=
  mkHostView (application_cursor_keys t) (application_keypad t) (bracketed_paste t)
    (reported_mouse (mouse_modes t)) (focus_reporting t) (synchronized_output t)
    (kitty_keyboard_flags t) (modify_other_keys t) (win32_input_mode t).

Definition install_changes (changes : list TerminalModeChange) (t : TerminalModeTracker)
    : TerminalModeTracker :=
  foldl (flip install_change) t changes.

(** What reaches a tracker: bytes and parsed sequences of the session, its
    end, and the two settings, which the host gives to worker and mirror. *)
Inductive TrackerOp :=
| FeedBytes (bytes : list Z)
| FeedPrivate (sequence : PrivateModeSequence)
| FeedKeyboard (sequence : KittyKeyboardMode)
| FeedModifiers (sequence : KeyModifierOptions)
| FinishSession
| ClearKeyboard
| AllowWin32 (allowed : bool).

Definition worker_step (op : TrackerOp) (t : TerminalModeTracker) : option Emitted :=
  match op with
  | FeedBytes bytes => process bytes t
  | FeedPrivate sequence => Some (apply_private_mode_sequence sequence t)
  | FeedKeyboard sequence => Some (apply_kitty_keyboard_sequence sequence t)
  | FeedModifiers sequence => Some (apply_key_modifier_options_sequence sequence t)
  | FinishSession => Some (finish t)
  | ClearKeyboard => Some (clear_kitty_keyboard_flags t, [])
  | AllowWin32 allowed => Some (set_allow_win32_input_mode allowed t, [])
  end.

Definition mirror_setting (op : TrackerOp) (m : TerminalModeTracker) : TerminalModeTracker :=
  match op with
  | ClearKeyboard => clear_kitty_keyboard_flags m
  | AllowWin32 allowed => set_allow_win32_input_mode allowed m
  | _ => m
  end.

(** Worker and mirror side by side. *)
Fixpoint run_mirrored (ops : list TrackerOp) (t m : TerminalModeTracker)
    : option (TerminalModeTracker * TerminalModeTracker) :=
  match ops with
  | [] => Some (t, m)
  | op :: ops =>
      '(t, changes) ← worker_step op t;
      run_mirrored ops t (install_changes changes (mirror_setting op m))
  end.

Lemma has_bit bits k : 0 ≤ k → has bits (Z.shiftl 1 k) = Z.testbit bits k.
Proof.
  intros Hk. unfold has. rewrite Z.shiftl_1_l.
  destruct (Z.testbit bits k) eqn:Hb.
  - apply negb_true_iff, Z.eqb_neq. intros H0.
    assert (Z.testbit (Z.land bits (2 ^ k)) k = false) as H1 by (rewrite H0; apply Z.bits_0).
    by rewrite Z.land_spec, Hb, Z.pow2_bits_true in H1.
  - apply negb_false_iff, Z.eqb_eq, Z.bits_inj'. intros j _.
    rewrite Z.land_spec, Z.bits_0, Z.pow2_bits_eqb by done.
    destruct (Z.eqb_spec k j) as [->|]; [by rewrite Hb|by rewrite andb_false_r].
Qed.

(** Setting one mode leaves the others. *)
Lemma tracked_set j k enabled t :
  0 ≤ j → 0 ≤ k →
  tracked (Z.shiftl 1 j) (set_tracked (Z.shiftl 1 k) enabled t)
  = if k =? j then enabled else tracked (Z.shiftl 1 j) t.
Proof.
  intros Hj Hk. unfold tracked, set_tracked. cbn. rewrite !has_bit by done. unfold set_bits.
  rewrite Z.shiftl_1_l.
  destruct enabled; rewrite ?Z.lor_spec, ?Z.ldiff_spec, Z.pow2_bits_eqb by done;
    destruct (k =? j); by rewrite ?orb_true_r, ?orb_false_r, ?andb_true_r, ?andb_false_r.
Qed.

Definition host_bits : list Z := [0; 1; 2; 3; 4; 20].

Ltac view_bits :=
  unfold host_view, application_cursor_keys, application_keypad, bracketed_paste, focus_reporting,
    synchronized_output, win32_input_mode; change APPLICATION_CURSOR_KEYS with (Z.shiftl 1 0);
  unfold APPLICATION_KEYPAD, BRACKETED_PASTE, FOCUS, SYNCHRONIZED_OUTPUT, WIN32_INPUT_MODE.

Lemma view_set k enabled t m :
  0 ≤ k → host_view m = host_view t →
  host_view (set_tracked (Z.shiftl 1 k) enabled m) = host_view (set_tracked (Z.shiftl 1 k) enabled t).
Proof.
  intros Hk. view_bits. rewrite !tracked_set by lia. cbn. intros [=]. f_equal; try done; by case_match.
Qed.

Lemma view_set_other k enabled t :
  0 ≤ k → k ∉ host_bits → host_view (set_tracked (Z.shiftl 1 k) enabled t) = host_view t.
Proof.
  intros Hk Hn. view_bits. rewrite !tracked_set by lia.
  assert (∀ j, j ∈ host_bits → (k =? j) = false) as Hne
    by (intros j Hj; apply Z.eqb_neq; intros ->; done).
  by rewrite !Hne by set_solver.
Qed.

(** The view without the mouse. *)
Definition rest_view (t : TerminalModeTracker) : HostView := host_view (t{{ mouse_modes := 0 }}).

Lemma views_split t m :
  host_view m = host_view t
  ↔ rest_view m = rest_view t ∧ reported_mouse (mouse_modes m) = reported_mouse (mouse_modes t).
Proof.
  unfold rest_view, host_view. cbn. split.
  - intros [=]. split; [f_equal|]; done.
  - intros [[=] ?]. f_equal; done.
Qed.

Lemma rest_set k enabled t m :
  0 ≤ k → rest_view m = rest_view t →
  rest_view (set_tracked (Z.shiftl 1 k) enabled m) = rest_view (set_tracked (Z.shiftl 1 k) enabled t).
Proof.
  destruct t as [p ? kk mo al tr], m as [p' ? kk' mo' al' tr'].
  exact (view_set k enabled (mkTracker p 0 kk mo al tr) (mkTracker p' 0 kk' mo' al' tr')).
Qed.

Lemma rest_set_other k enabled t :
  0 ≤ k → k ∉ host_bits → rest_view (set_tracked (Z.shiftl 1 k) enabled t) = rest_view t.
Proof. destruct t as [p ? kk mo al tr]. exact (view_set_other k enabled (mkTracker p 0 kk mo al tr)). Qed.

Definition is_mouse_change (change : TerminalModeChange) : bool :=
  match change with Mouse _ => true | _ => false end.

(** Installing the changes [e] emits does to a mirror of [t] what [e] does to
    [t], apart from the mouse, which [e] leaves alone. *)
Record rest_mirrored (t : TerminalModeTracker) (e : Emitted) : Prop := {
  rm_rest m : rest_view m = rest_view t → rest_view (install_changes e.2 m) = rest_view e.1;
  rm_bits : mouse_modes e.1 = mouse_modes t;
  rm_quiet : Forall (λ c, is_mouse_change c = false) e.2;
}.

(** The same with the mouse. *)
Definition mirrored (t : TerminalModeTracker) (e : Emitted) : Prop :=
  ∀ m, host_view m = host_view t → host_view (install_changes e.2 m) = host_view e.1.

Lemma install_changes_app cs cs' m :
  install_changes (cs ++ cs') m = install_changes cs' (install_changes cs m).
Proof. apply foldl_app. Qed.

Lemma install_keeps_mouse cs m :
  Forall (λ c, is_mouse_change c = false) cs → mouse_modes (install_changes cs m) = mouse_modes m.
Proof.
  intros Hcs. revert m. induction Hcs as [|c cs Hc _ IH]; intros m; [done|].
  change (mouse_modes (install_changes cs (install_change c m)) = mouse_modes m).
  rewrite IH. by destruct c.
Qed.

Lemma rest_mirrored_mirrored t e : rest_mirrored t e → mirrored t e.
Proof.
  intros [Hr Hb Hq] m [Hm Hmouse]%views_split. apply views_split. split; [by apply Hr|].
  by rewrite install_keeps_mouse, Hb.
Qed.

Lemma rest_mirrored_quiet t t' :
  rest_view t' = rest_view t → mouse_modes t' = mouse_modes t → rest_mirrored t (t', []).
Proof. intros Hv Hb. split; [|done|constructor]. intros m Hm. change (rest_view m = rest_view t'). congruence. Qed.

Lemma rest_mirrored_then t e f :
  rest_mirrored t e → rest_mirrored e.1 (f e.1) → rest_mirrored t (then_emit e f).
Proof.
  destruct e as [t1 cs]. unfold then_emit. cbn [fst]. intros [Hr Hb Hq].
  destruct (f t1) as [t2 cs'] eqn:Hf. intros [Hr' Hb' Hq']. cbn [fst snd] in *. split; cbn [fst snd].
  - intros m Hm. rewrite install_changes_app. by apply Hr', Hr.
  - by rewrite Hb'.
  - by apply Forall_app.
Qed.

(** A mode the host reads, with the change that reports it. *)
Lemma rest_mirrored_set k enabled change t :
  0 ≤ k → (∀ m, install_change change m = set_tracked (Z.shiftl 1 k) enabled m) →
  rest_mirrored t (set_and_emit (Z.shiftl 1 k) enabled change t).
Proof.
  intros Hk Hc. assert (is_mouse_change change = false) as Hquiet.
  { destruct change as [| | |mode| | | | |]; try done.
    specialize (Hc (new_tracker {{ mouse_modes := 128 }})). apply (f_equal mouse_modes) in Hc.
    destruct mode as [[] []]; discriminate Hc. }
  unfold set_and_emit. destruct (Z.eqb_spec (tracked_modes (set_tracked (Z.shiftl 1 k) enabled t)) (tracked_modes t)) as [He|He].
  - apply rest_mirrored_quiet; [|done]. unfold rest_view, host_view, application_cursor_keys,
      application_keypad, bracketed_paste, focus_reporting, synchronized_output, win32_input_mode, tracked.
    cbn in *. by rewrite He.
  - split; cbn [fst snd]; [|done|by repeat constructor].
    intros m Hm. cbn. unfold flip. rewrite Hc. by apply rest_set.
Qed.

Ltac host_mode k := refine (rest_mirrored_set k _ _ _ _ _); [lia|done].
Ltac other_mode k := refine (rest_set_other k _ _ _ _); [lia|by apply (bool_decide_unpack _)].

Lemma private_bit_other mode mask :
  private_mode_bit mode = Some mask → ∃ k, mask = Z.shiftl 1 k ∧ 0 ≤ k ∧ k ∉ host_bits.
Proof.
  intros H. set (ks := [24; 19; 5; 6; 8; 7; 18; 9; 15; 16; 14; 10; 12; 11; 23; 17]).
  assert (Forall (λ k, 0 ≤ k ∧ k ∉ host_bits) ks) as Hks by (apply (bool_decide_unpack _); by vm_compute).
  assert (mask ∈ Z.shiftl 1 <$> ks) as Hin.
  { unfold private_mode_bit in H. repeat case_match; simplify_eq; rewrite list_elem_of_In; cbn; tauto. }
  apply list_elem_of_fmap in Hin as [k [-> Hk]]. exists k. split; [done|].
  by rewrite Forall_forall in Hks; apply Hks.
Qed.

Lemma apply_mode_mirrored mode enabled t : rest_mirrored t (apply_mode mode enabled t).
Proof.
  unfold apply_mode. destruct (private_mode_bit mode) as [mask|] eqn:Hm.
  - apply private_bit_other in Hm as (k & -> & Hk & Hn).
    apply rest_mirrored_quiet; [by apply rest_set_other|done].
  - repeat case_match; try by apply rest_mirrored_quiet.
    + host_mode 0. + host_mode 3. + host_mode 2. + host_mode 4. + host_mode 20.
Qed.

Lemma apply_ansi_modes_quiet enabled modes t :
  rest_view (foldl (apply_ansi_mode enabled) t modes) = rest_view t
  ∧ mouse_modes (foldl (apply_ansi_mode enabled) t modes) = mouse_modes t.
Proof.
  revert t. induction modes as [|mode modes IH]; intros t; [done|]. cbn [foldl].
  destruct (IH (apply_ansi_mode enabled t mode)) as [-> ->].
  unfold apply_ansi_mode. repeat case_match; try done; (split; [|done]).
  - other_mode 13. - other_mode 22. - other_mode 21.
Qed.

(** The loop over the modes of a private sequence leaves the mouse to
    [emit_mouse_change]. *)
Lemma private_modes_mirrored modes enabled saw t :
  let '((t', cs), saw') := apply_private_modes modes enabled saw t in
  (∀ m, rest_view m = rest_view t → rest_view (install_changes cs m) = rest_view t')
  ∧ Forall (λ c, is_mouse_change c = false) cs
  ∧ (saw' = false → saw = false ∧ mouse_modes t' = mouse_modes t).
Proof.
  revert saw t. induction modes as [|mode modes IH]; intros saw t; [by repeat split|].
  cbn [apply_private_modes]. destruct (mouse_set mode enabled (mouse_modes t)) as [bits|].
  - specialize (IH true (t{{ mouse_modes := bits }})).
    destruct (apply_private_modes modes enabled true _) as [[t' cs] saw'].
    destruct IH as (Hr & Hq & Hs). split; [|split; [done|intros Hs'; by destruct (Hs Hs')]].
    intros m Hm. by apply Hr.
  - destruct (apply_mode_mirrored mode enabled t) as [Hr0 Hb0 Hq0].
    destruct (apply_mode mode enabled t) as [t1 cs1]. cbn [fst snd] in *.
    specialize (IH saw t1). destruct (apply_private_modes modes enabled saw t1) as [[t' cs] saw'].
    destruct IH as (Hr & Hq & Hs). split; [|split; [by apply Forall_app|]].
    + intros m Hm. rewrite install_changes_app. by apply Hr, Hr0.
    + intros Hs'. rewrite <- Hb0. by apply Hs.
Qed.

Lemma mouse_install_input mode : mouse_input_of (mouse_install mode) = mode.
Proof. by destruct mode as [[] []]. Qed.

Lemma input_mode_bits_roundtrip mode : input_mode_from_bits (input_mode_bits mode) = mode.
Proof. by destruct mode as [[] []]. Qed.

Lemma install_mouse_reported mode bits :
  mode = mouse_input_of bits → reported_mouse (mouse_install mode) = reported_mouse bits.
Proof. intros ->. unfold reported_mouse. by rewrite mouse_install_input. Qed.

Lemma emit_mouse_mirrored before t m :
  reported_mouse (mouse_modes m) = reported_mouse before →
  reported_mouse (mouse_modes (install_changes (emit_mouse_change (mouse_input_of before) t) m))
  = reported_mouse (mouse_modes t).
Proof.
  intros Hm. unfold emit_mouse_change.
  case_match eqn:Hc; [by apply install_mouse_reported|].
  transitivity (reported_mouse (mouse_modes m)); [done|]. rewrite Hm. unfold reported_mouse, mouse_input_mode in *.
  apply andb_false_iff in Hc as [Hc|[Hb Ha]%orb_false_iff].
  - apply bool_decide_eq_false, dec_stable in Hc. by rewrite Hc.
  - by rewrite Hb, Ha.
Qed.

Lemma emit_mouse_rest before t m :
  rest_view (install_changes (emit_mouse_change before t) m) = rest_view m.
Proof. unfold emit_mouse_change. by case_match. Qed.

Lemma private_sequence_mirrored sequence t : mirrored t (apply_private_mode_sequence sequence t).
Proof.
  unfold apply_private_mode_sequence.
  pose proof (private_modes_mirrored (sequence_modes sequence) (sequence_enabled sequence) false t) as H.
  destruct (apply_private_modes _ _ false t) as [[t' cs] saw]. destruct H as (Hr & Hq & Hs).
  intros m [Hm Hmouse]%views_split. cbn [fst snd]. rewrite install_changes_app. apply views_split.
  destruct saw.
  - split; [rewrite emit_mouse_rest; by apply Hr|].
    apply emit_mouse_mirrored. by rewrite install_keeps_mouse.
  - split; [by apply Hr|]. destruct Hs as [_ ->]; [done|].
    change (reported_mouse (mouse_modes (install_changes cs m)) = reported_mouse (mouse_modes t)).
    by rewrite install_keeps_mouse.
Qed.

Lemma soft_reset_mirrored t : rest_mirrored t (soft_reset t).
Proof.
  set (e := then_emit (then_emit (set_and_emit APPLICATION_CURSOR_KEYS false (ApplicationCursorKeys false) t)
              reset_modify_other_keys) (set_and_emit APPLICATION_KEYPAD false (ApplicationKeypad false))).
  assert (rest_mirrored t e) as He.
  { apply rest_mirrored_then; [apply rest_mirrored_then|]; [host_mode 0| |host_mode 1].
    unfold reset_modify_other_keys. case_match; [by apply rest_mirrored_quiet|].
    split; [|done|by repeat constructor]. unfold rest_view, host_view. cbn. intros m [=]. f_equal; done. }
  unfold soft_reset. fold e. destruct e as [t' cs]. destruct He as [Hr Hb Hq]. cbn [fst snd] in *.
  split; cbn [fst snd]; [|done|done]. intros m Hm. rewrite (Hr m Hm). symmetry.
  etransitivity; [other_mode 19|]. etransitivity; [other_mode 18|].
  etransitivity; [other_mode 22|]. etransitivity; [other_mode 15|].
  etransitivity; [other_mode 13|]. etransitivity; [other_mode 7|].
  etransitivity; [other_mode 6|]. other_mode 5.
Qed.

(** What installing a change does to the view. *)
Definition view_change (v : HostView) (change : TerminalModeChange) : HostView :=
  let '(mkHostView a k p mo f s kb md w) := v in
  match change with
  | ApplicationCursorKeys b => mkHostView b k p mo f s kb md w
  | ApplicationKeypad b => mkHostView a b p mo f s kb md w
  | BracketedPaste b => mkHostView a k b mo f s kb md w
  | Mouse mode => mkHostView a k p (if is_enabled (reporting mode) then Some mode else None) f s kb md w
  | Focus b => mkHostView a k p mo b s kb md w
  | SynchronizedOutput b => mkHostView a k p mo f b kb md w
  | KittyKeyboardFlags flags => mkHostView a k p mo f s flags md w
  | ModifyOtherKeys level => mkHostView a k p mo f s kb level w
  | Win32InputMode b => mkHostView a k p mo f s kb md b
  end.

Lemma install_change_view change m :
  host_view (install_change change m) = view_change (host_view m) change.
Proof.
  destruct change as [b|b|b|mode|b|b|flags|level|b]; cbn [install_change]; try done.
  4: { unfold host_view. cbn. unfold reported_mouse. by rewrite mouse_install_input. }
  all: view_bits; change APPLICATION_CURSOR_KEYS with (Z.shiftl 1 0); rewrite !tracked_set by lia; done.
Qed.

Lemma install_changes_view changes m :
  host_view (install_changes changes m) = foldl view_change (host_view m) changes.
Proof.
  revert m. induction changes as [|c cs IH]; intros m; [done|].
  cbn [foldl]. rewrite <- install_change_view. apply IH.
Qed.

(** A change left out because it would change nothing may as well be
    emitted. *)
Lemma emit_if_view b change v :
  (b = false → view_change v change = v) → foldl view_change v (emit_if b change) = view_change v change.
Proof. destruct b; cbn; [done|]. by intros ->. Qed.

Lemma reset_mirrored t : mirrored t (reset t).
Proof.
  intros m Hm. rewrite install_changes_view, Hm. unfold reset, host_view at 1. cbn [fst snd].
  rewrite !foldl_app. change (mouse_input_mode t) with (mouse_input_of (mouse_modes t)). unfold reported_mouse.
  rewrite (emit_if_view (application_cursor_keys t)) by (intros ->; done).
  rewrite (emit_if_view (application_keypad t)) by (intros ->; done).
  rewrite (emit_if_view (bracketed_paste t)) by (intros ->; done).
  rewrite (emit_if_view (bool_decide _)) by (by intros ->%bool_decide_eq_false%dec_stable).
  rewrite (emit_if_view (focus_reporting t)) by (intros ->; done).
  rewrite (emit_if_view (synchronized_output t)) by (intros ->; done).
  rewrite (emit_if_view (negb (kitty_keyboard_flags t =? 0))) by (by intros ->%negb_false_iff%Z.eqb_eq).
  rewrite (emit_if_view (negb (modify_other_keys t =? 0))) by (by intros ->%negb_false_iff%Z.eqb_eq).
  rewrite (emit_if_view (win32_input_mode t)) by (intros ->; done).
  done.
Qed.

Lemma keyboard_mirrored sequence t : rest_mirrored t (apply_kitty_keyboard_sequence sequence t).
Proof.
  unfold apply_kitty_keyboard_sequence. set (k' := match operation sequence with KeyboardPush => _ | _ => _ end).
  destruct (Z.eqb_spec (keyboard_flags (kitty_keyboard_modes t)) (keyboard_flags k')) as [He|He].
  - apply rest_mirrored_quiet; [|done]. unfold rest_view, host_view, kitty_keyboard_flags. cbn. by rewrite He.
  - split; [|done|by repeat constructor]. unfold rest_view, host_view. cbn. intros m [=]. f_equal; done.
Qed.

Lemma modifiers_mirrored sequence t : rest_mirrored t (apply_key_modifier_options_sequence sequence t).
Proof.
  unfold apply_key_modifier_options_sequence. repeat case_match; try by apply rest_mirrored_quiet.
  split; [|done|by repeat constructor]. unfold rest_view, host_view. cbn. intros m [=]. f_equal; done.
Qed.

Lemma finish_mirrored t : rest_mirrored t (finish t).
Proof.
  unfold finish. set (t0 := t{{ pending := [] }}).
  assert (rest_mirrored t0 (set_and_emit SYNCHRONIZED_OUTPUT false (SynchronizedOutput false) t0)) as [Hr Hb Hq]
    by (host_mode 4).
  by split.
Qed.

(** ** Reading bytes *)

(** Taking bytes off [pending] is not seen by the host. *)
Lemma drain_Some n t t' :
  drain n t = Some t' →
  (n ≤ length (pending t))%nat ∧ t' = t{{ pending := drop n (pending t) }}.
Proof. unfold drain. case_bool_decide; intros [= <-]. done. Qed.

Lemma drained_Some n e r :
  drained n e = Some r →
  (n ≤ length (pending e.1))%nat ∧ r = Continue (e.1{{ pending := drop n (pending e.1) }}, e.2).
Proof.
  unfold drained. destruct (drain n e.1) as [t'|] eqn:Hd; [|done]. intros [= <-].
  apply drain_Some in Hd as [? ->]. done.
Qed.

Definition round_emitted (r : Round) : Emitted := match r with Stop e | Continue e => e end.

Lemma sequence_mirrored sequence t r : apply_sequence sequence t = Some r → mirrored t (round_emitted r).
Proof.
  intros H. assert (∀ n e, mirrored t e → drained n e = Some r → mirrored t (round_emitted r)) as Hdr.
  { intros n e He [_ ->]%drained_Some. exact He. }
  assert (mirrored t (t, [])) as Hid by (by intros m Hm).
  destruct sequence as [n|n|enabled| |n]; cbn in H.
  - destruct (parse_mode_sequence (pending t) n); [|by injection H as <-|by eapply Hdr].
    eapply Hdr; [apply private_sequence_mirrored|exact H].
  - destruct (parse_mode_sequence (pending t) n); [|by injection H as <-|by eapply Hdr].
    eapply Hdr; [|exact H]. apply rest_mirrored_mirrored, rest_mirrored_quiet; apply apply_ansi_modes_quiet.
  - eapply Hdr; [|exact H]. apply rest_mirrored_mirrored. host_mode 1.
  - eapply Hdr; [apply reset_mirrored|exact H].
  - eapply Hdr; [apply rest_mirrored_mirrored, soft_reset_mirrored|exact H].
Qed.

Lemma round_mirrored t r : process_round t = Some r → mirrored t (round_emitted r).
Proof.
  unfold process_round, retain_possible_prefix. intros H.
  destruct (find_next_mode_start (pending t)) as [start|].
  - destruct (control_string_containing _ _) as [[cs [end_|]]|].
    + apply drained_Some in H as [_ ->]. by intros m Hm.
    + destruct (drain cs t) as [t'|] eqn:Hd; [|done]. apply drain_Some in Hd as [_ ->].
      injection H as <-. by intros m Hm.
    + destruct (drain (start_index start) t) as [t'|] eqn:Hd; [|done].
      apply drain_Some in Hd as [_ ->]. apply sequence_mirrored in H. exact H.
  - destruct (drain _ t) as [t'|] eqn:Hd; [|done]. apply drain_Some in Hd as [_ ->].
    injection H as <-. by intros m Hm.
Qed.

Lemma loop_mirrored fuel t e : process_loop fuel t = Some e → mirrored t e.
Proof.
  revert t e. induction fuel as [|fuel IH]; intros t e; [done|]. cbn [process_loop].
  destruct (process_round t) as [[e'|[t' cs]]|] eqn:Hr; [| |done];
    apply round_mirrored in Hr; cbn [round_emitted] in Hr.
  - by intros [= <-].
  - destruct (process_loop fuel t') as [[t'' cs']|] eqn:Hl; [|done]. intros [= <-].
    intros m Hm. cbn [fst snd]. rewrite install_changes_app. by apply (IH _ _ Hl), Hr.
Qed.

Lemma process_mirrored bytes t e : process bytes t = Some e → mirrored t e.
Proof.
  unfold process. destruct (bool_decide _ && _); [intros [= <-]; by intros m Hm|].
  intros H%loop_mirrored. exact H.
Qed.

(** ** The reading ends *)

Lemma min_by_key_elem {A} (key : A → nat) l x : min_by_key key l = Some x → x ∈ l.
Proof.
  revert x. induction l as [|y l IH]; intros x; [done|]. cbn.
  destruct (min_by_key key l) as [z|]; [case_bool_decide|]; intros [= <-]; try by left.
  right. by apply IH.
Qed.

Lemma find_subslice_bound haystack needle i :
  find_subslice haystack needle = Some i → (i + length needle ≤ length haystack)%nat.
Proof.
  unfold find_subslice. case_bool_decide as Hn; [intros [= <-]; subst; cbn; lia|].
  intros [Hin _]%List.find_some. apply in_seq in Hin. lia.
Qed.

Definition sequence_len (sequence : ModeSequence) : nat :=
  match sequence with
  | CsiPrivateMode n | CsiMode n | SoftReset n => n
  | KeypadSequence _ | ResetSequence => 2
  end.

(** A mode start lies inside the bytes, with all of its prefix. *)
Definition start_inside (bytes : list Z) (start : ModeSequenceStart) : Prop :=
  (start_index start + sequence_len (start_sequence start) ≤ length bytes)%nat
  ∧ (0 < sequence_len (start_sequence start))%nat.

Lemma prefixes_inside bytes prefixes start :
  Forall (λ p : list Z * ModeSequence, length p.1 = sequence_len p.2 ∧ (0 < sequence_len p.2)%nat) prefixes →
  find_mode_start_with_prefixes bytes prefixes = Some start → start_inside bytes start.
Proof.
  intros Hp H%min_by_key_elem. apply list_elem_of_omap in H as [[needle sequence] [Hin H]].
  cbn in H. destruct (find_subslice bytes needle) as [i|] eqn:Hf; [|done]. injection H as <-.
  apply find_subslice_bound in Hf. rewrite Forall_forall in Hp. destruct (Hp _ Hin) as [Hl Hpos].
  cbn in *. split; cbn; lia.
Qed.

Lemma next_start_inside bytes start : find_next_mode_start bytes = Some start → start_inside bytes start.
Proof.
  intros H%min_by_key_elem. unfold flatten in H. apply list_elem_of_omap in H as [o [Ho H]]. cbn in H. subst o.
  rewrite !elem_of_cons in Ho. destruct Ho as [Ho|[Ho|[Ho|[Ho|Ho]]]]; [..|by apply not_elem_of_nil in Ho];
    symmetry in Ho; (eapply prefixes_inside; [|exact Ho]); repeat constructor; cbn; lia.
Qed.

Lemma terminator_bound bytes kind index rest t :
  terminator_from bytes kind index rest = Some t →
  (index ≤ terminator_index t ∧ 0 < terminator_length t
   ∧ terminator_index t + terminator_length t ≤ index + length rest)%nat.
Proof.
  revert index. induction rest as [|b rest IH]; intros index; [done|].
  assert (terminator_from bytes kind (S index) rest = Some t →
          (index ≤ terminator_index t ∧ 0 < terminator_length t
           ∧ terminator_index t + terminator_length t ≤ index + S (length rest))%nat) as Hgo
    by (intros H%IH; lia).
  cbn [terminator_from length].
  destruct (_ || _); [intros [= <-]; cbn; lia|]. destruct (_ && _); [intros [= <-]; cbn; lia|].
  destruct (_ && _); [intros [= <-]; cbn; lia|].
  destruct rest as [|b' rest]; cbn [length] in *.
  - rewrite andb_false_r. by destruct (b =? 27).
  - destruct (_ && _); [intros [= <-]; cbn; lia|]. destruct (b =? 27); [|exact Hgo].
    destruct (b' =? 92); [intros [= <-]; cbn; lia|exact Hgo].
Qed.

Lemma control_start_inside bytes start :
  find_next_control_string_start bytes = Some start →
  (control_index start + control_prefix_len start ≤ length bytes ∧ 0 < control_prefix_len start)%nat.
Proof.
  assert (∀ prefixes p, Forall (λ q : list Z, 0 < length q)%nat prefixes →
            find_first_prefix bytes prefixes = Some p → (p.1 + p.2 ≤ length bytes ∧ 0 < p.2)%nat) as Hfirst.
  { intros prefixes p Hp H%min_by_key_elem. apply list_elem_of_omap in H as [needle [Hin H]].
    destruct (find_subslice bytes needle) as [i|] eqn:Hf; [|done]. injection H as <-.
    apply find_subslice_bound in Hf. rewrite Forall_forall in Hp. split; [done|by apply Hp]. }
  intros H%min_by_key_elem. unfold flatten in H. apply list_elem_of_omap in H as [o [Ho H]]. cbn in H. subst o.
  rewrite !elem_of_cons in Ho. destruct Ho as [Ho|[Ho|Ho]]; [..|by apply not_elem_of_nil in Ho];
    symmetry in Ho; apply fmap_Some in Ho as [p [Hp ->]]; cbn; (eapply Hfirst; [|exact Hp]);
    repeat constructor; cbn; lia.
Qed.

Lemma control_end_inside bytes offset start end_ :
  (offset ≤ length bytes)%nat → find_next_control_string_start (drop offset bytes) = Some start →
  control_string_end bytes offset start = Some end_ →
  (offset + control_index start < end_ ≤ length bytes)%nat.
Proof.
  intros Ho [Hi Hp]%control_start_inside. rewrite length_drop in Hi. unfold control_string_end.
  intros [t [Ht ->]]%fmap_Some. apply terminator_bound in Ht. rewrite length_drop in Ht. lia.
Qed.

(** A span found by the loop lies inside the bytes. *)
Lemma containing_inside fuel bytes index offset span :
  containing_loop fuel bytes index offset = Some span →
  (span_start span ≤ length bytes)%nat
  ∧ ∀ end_, span_end span = Some end_ → (0 < end_ ≤ length bytes)%nat.
Proof.
  revert offset. induction fuel as [|fuel IH]; intros offset; [done|]. cbn [containing_loop].
  case_bool_decide as Ho; [done|].
  destruct (find_next_control_string_start _) as [start|] eqn:Hs; [|done]. case_bool_decide; [done|].
  pose proof (control_start_inside _ _ Hs) as Hi. rewrite length_drop in Hi.
  destruct (control_string_end bytes offset start) as [end_|] eqn:He.
  - apply control_end_inside in He; [|lia|done]. case_bool_decide; [|apply IH].
    intros [= <-]. cbn. split; [lia|]. intros ? [= <-]. lia.
  - intros [= <-]. cbn. split; [lia|done].
Qed.

(** Each round moves [offset] past a terminator, so more rounds than
    [length bytes] change nothing. *)
Lemma containing_enough bytes index fuel fuel' offset :
  (offset ≤ length bytes → length bytes ≤ offset + fuel → length bytes ≤ offset + fuel' →
  containing_loop fuel bytes index offset = containing_loop fuel' bytes index offset)%nat.
Proof.
  revert fuel' offset. induction fuel as [|fuel IH]; intros [|fuel'] offset Hle Hf Hf'; try done;
    cbn [containing_loop]; try (by rewrite bool_decide_true by lia).
  case_bool_decide; [done|]. destruct (find_next_control_string_start _) as [start|] eqn:Hs; [|done].
  case_bool_decide; [done|]. destruct (control_string_end bytes offset start) as [end_|] eqn:He; [|done].
  apply control_end_inside in He; [|lia|done]. case_bool_decide; [done|]. apply IH; lia.
Qed.

Lemma incomplete_enough bytes kind fuel fuel' offset :
  (offset ≤ length bytes → length bytes ≤ offset + fuel → length bytes ≤ offset + fuel' →
  incomplete_loop fuel bytes kind offset = incomplete_loop fuel' bytes kind offset)%nat.
Proof.
  revert fuel' offset. induction fuel as [|fuel IH]; intros [|fuel'] offset Hle Hf Hf'; try done;
    cbn [incomplete_loop]; try (by rewrite bool_decide_true by lia).
  case_bool_decide; [done|]. destruct (find_next_control_string_start _) as [start|] eqn:Hs; [|done].
  destruct (control_string_end bytes offset start) as [end_|] eqn:He; [|done].
  apply control_end_inside in He; [|lia|done]. apply IH; lia.
Qed.

Lemma parse_consumed bytes modes mode cursor modes' enabled consumed :
  parse_modes bytes modes mode cursor = ParseComplete modes' enabled consumed →
  (cursor < consumed ≤ cursor + length bytes)%nat.
Proof.
  revert modes mode cursor. induction bytes as [|b bytes IH]; intros modes mode cursor; [done|]. cbn.
  destruct (is_digit b); [intros H%IH; lia|]. destruct mode as [mode|]; [|done].
  destruct (b =? 59); [intros H%IH; lia|]. destruct (_ || _); [intros [= <- <- <-]; lia|done].
Qed.

(** ** What a sequence does, apart from [pending] *)

Definition with_pending (p : list Z) (t : TerminalModeTracker) : TerminalModeTracker := t{{ pending := p }}.

Lemma apply_mode_pending mode enabled p t :
  apply_mode mode enabled (with_pending p t)
  = (with_pending p (apply_mode mode enabled t).1, (apply_mode mode enabled t).2).
Proof.
  unfold apply_mode. destruct (private_mode_bit mode); [done|]. repeat case_match; try done; cbn in *; congruence.
Qed.

Lemma private_modes_pending modes enabled saw p t :
  apply_private_modes modes enabled saw (with_pending p t)
  = let '((t', cs), saw') := apply_private_modes modes enabled saw t in ((with_pending p t', cs), saw').
Proof.
  revert saw t. induction modes as [|mode modes IH]; intros saw t; [done|]. cbn [apply_private_modes].
  change (mouse_modes (with_pending p t)) with (mouse_modes t).
  destruct (mouse_set mode enabled (mouse_modes t)) as [bits|].
  - rewrite <- IH. by destruct t.
  - rewrite apply_mode_pending. destruct (apply_mode mode enabled t) as [t1 cs1]. cbn [fst snd].
    rewrite IH. by destruct (apply_private_modes modes enabled saw t1) as [[t' cs] saw'].
Qed.

Lemma private_sequence_pending sequence p t :
  apply_private_mode_sequence sequence (with_pending p t)
  = (with_pending p (apply_private_mode_sequence sequence t).1, (apply_private_mode_sequence sequence t).2).
Proof.
  unfold apply_private_mode_sequence. rewrite private_modes_pending.
  by destruct (apply_private_modes _ _ false t) as [[t' cs] saw'].
Qed.

Lemma with_pending_same t : with_pending (pending t) t = t.
Proof. by destruct t. Qed.

Lemma private_sequence_keeps_pending sequence t :
  pending (apply_private_mode_sequence sequence t).1 = pending t.
Proof. rewrite <- (with_pending_same t) at 1. by rewrite private_sequence_pending. Qed.

Lemma ansi_keeps_pending enabled modes t :
  pending (foldl (apply_ansi_mode enabled) t modes) = pending t.
Proof.
  revert t. induction modes as [|mode modes IH]; intros t; [done|]. cbn [foldl]. rewrite IH.
  unfold apply_ansi_mode. by repeat case_match.
Qed.

Lemma soft_reset_keeps_pending t : pending (soft_reset t).1 = pending t.
Proof. unfold soft_reset, reset_modify_other_keys. cbn. by destruct (_ =? 0). Qed.

(** ** The reading ends *)

(** A round that goes on has fewer bytes left. *)
Definition round_shrinks (bytes : list Z) (r : option Round) : Prop :=
  match r with
  | None => False
  | Some (Stop _) => True
  | Some (Continue (t, _)) => (length (pending t) < length bytes)%nat
  end.

Lemma drained_shrinks bytes n e :
  (0 < n ≤ length bytes)%nat → pending e.1 = bytes → round_shrinks bytes (drained n e).
Proof.
  intros Hn <-. unfold drained, drain. rewrite bool_decide_true by lia. cbn. rewrite length_drop. lia.
Qed.

Lemma sequence_shrinks sequence t :
  (0 < sequence_len sequence ≤ length (pending t))%nat →
  round_shrinks (pending t) (apply_sequence sequence t).
Proof.
  intros Hl. destruct sequence as [n|n|enabled| |n]; cbn [apply_sequence sequence_len] in *.
  1, 2: destruct (parse_mode_sequence (pending t) n) as [modes enabled consumed| |] eqn:Hp;
    [|done|apply drained_shrinks; [lia|done]];
    apply parse_consumed in Hp; rewrite length_drop in Hp; apply drained_shrinks; [lia|].
  - apply private_sequence_keeps_pending.
  - apply ansi_keeps_pending.
  - by apply drained_shrinks.
  - by apply drained_shrinks.
  - apply drained_shrinks; [lia|apply soft_reset_keeps_pending].
Qed.

Lemma round_total t : round_shrinks (pending t) (process_round t).
Proof.
  unfold process_round, retain_possible_prefix.
  destruct (find_next_mode_start (pending t)) as [start|] eqn:Hs.
  - apply next_start_inside in Hs as [Hs Hpos].
    destruct (control_string_containing _ _) as [[cs [end_|]]|] eqn:Hc.
    + apply containing_inside in Hc as [_ He]. apply drained_shrinks; [by apply He|done].
    + apply containing_inside in Hc as [Hc _]. cbn in Hc. unfold drain. by rewrite bool_decide_true.
    + unfold drain. rewrite bool_decide_true by lia. cbn [mbind option_bind].
      set (t' := t{{ pending := drop (start_index start) (pending t) }}).
      assert (length (pending t') = length (pending t) - start_index start)%nat as Hl by apply length_drop.
      pose proof (sequence_shrinks (start_sequence start) t' ltac:(lia)) as H.
      destruct (apply_sequence _ t') as [[e|[t'' cs]]|]; cbn in *; [done|lia|done].
  - unfold drain. rewrite bool_decide_true by lia. done.
Qed.

Lemma loop_total fuel t : (length (pending t) < fuel)%nat → is_Some (process_loop fuel t).
Proof.
  revert t. induction fuel as [|fuel IH]; intros t Hf; [lia|]. cbn [process_loop].
  pose proof (round_total t) as H. destruct (process_round t) as [[e|[t' cs]]|]; [done| |done].
  destruct (IH t') as [e ->]; [cbn in H; lia|done].
Qed.

Lemma process_total bytes t : is_Some (process bytes t).
Proof. unfold process. destruct (bool_decide _ && _); [done|]. apply loop_total. lia. Qed.

Lemma worker_step_mirrored op t m :
  host_view m = host_view t →
  ∃ t' cs, worker_step op t = Some (t', cs)
    ∧ host_view (install_changes cs (mirror_setting op m)) = host_view t'.
Proof.
  intros Hm.
  assert (∀ e, mirrored t e → ∃ t' cs, Some e = Some (t', cs) ∧ host_view (install_changes cs m) = host_view t')
    as Hsome by (intros [t' cs] He; exists t', cs; split; [done|by apply He]).
  destruct op as [bytes|sequence|sequence|sequence| | |allowed]; cbn [worker_step mirror_setting].
  - destruct (process_total bytes t) as [[t' cs] Hp]. exists t', cs. split; [done|].
    by apply (process_mirrored _ _ _ Hp).
  - apply Hsome, private_sequence_mirrored.
  - apply Hsome, rest_mirrored_mirrored, keyboard_mirrored.
  - apply Hsome, rest_mirrored_mirrored, modifiers_mirrored.
  - apply Hsome, rest_mirrored_mirrored, finish_mirrored.
  - eexists _, _. split; [done|]. unfold host_view in *. cbn in *. injection Hm as ?. f_equal; done.
  - eexists _, _. split; [done|]. cbn [install_changes foldl]. unfold set_allow_win32_input_mode.
    destruct allowed; [exact Hm|]. 
    apply (view_set 20 false (t{{ allow_win32_input_mode := false }}) (m{{ allow_win32_input_mode := false }}));
      [lia|]. destruct t, m. exact Hm.
Qed.

(** ** A private sequence in chunks *)

Fixpoint mode_list (modes : list Z) : list Z :=
  match modes with
  | [] => []
  | [mode] => show_unsigned mode
  | mode :: modes => show_unsigned mode ++ 59 :: mode_list modes
  end.

Definition private_prefixes : list (list Z) :=
  [CSI_PRIVATE_MODE_PREFIX; C1_CSI_PRIVATE_MODE_PREFIX; UTF8_C1_CSI_PRIVATE_MODE_PREFIX].

(** The bytes of a private mode sequence: [CSI ? modes h] or [l]. *)
Definition private_sequence (prefix modes : list Z) (enabled : bool) : list Z :=
  prefix ++ mode_list modes ++ [if enabled then 104 else 108].

Fixpoint process_chunks (chunks : list (list Z)) (t : TerminalModeTracker) : option Emitted :=
  match chunks with
  | [] => Some (t, [])
  | chunk :: chunks =>
      '(t, changes) ← process chunk t; '(t, changes') ← process_chunks chunks t;
      Some (t, changes ++ changes')
  end.

Lemma show_digits_value fuel n acc :
  0 ≤ n ≤ u16_max → n < 10 ^ Z.of_nat fuel →
  foldl add_mode_digit 0 (show_digits fuel n acc) = foldl add_mode_digit n acc.
Proof.
  revert n acc. induction fuel as [|fuel IH]; intros n acc Hn Hf; [cbn in *; f_equal; lia|].
  cbn [show_digits]. rewrite Nat2Z.inj_succ, Z.pow_succ_r in Hf by lia. unfold u16_max in *.
  assert (∀ q r, 0 ≤ q → 0 ≤ r < 10 → q * 10 + r ≤ 65535 → add_mode_digit q (48 + r) = q * 10 + r) as Hadd
    by (unfold add_mode_digit, u16_max; intros; lia).
  destruct (Z.ltb_spec n 10).
  - rewrite Z.mod_small by lia. cbn [foldl]. rewrite Hadd by lia. done.
  - pose proof (Z.mod_pos_bound n 10 ltac:(lia)). pose proof (Z.div_mod n 10 ltac:(lia)).
    rewrite IH by lia. cbn [foldl]. rewrite Hadd by lia. f_equal. lia.
Qed.

Lemma show_digits_all fuel n acc :
  0 ≤ n → Forall (λ b, is_digit b = true) acc → Forall (λ b, is_digit b = true) (show_digits fuel n acc).
Proof.
  revert n acc. induction fuel as [|fuel IH]; intros n acc Hn Hacc; [done|]. cbn [show_digits].
  pose proof (Z.mod_pos_bound n 10 ltac:(lia)).
  assert (Forall (λ b, is_digit b = true) (48 + n `mod` 10 :: acc)).
  { constructor; [|done]. unfold is_digit, between. lia. }
  destruct (n <? 10); [done|]. apply IH; [apply Z.div_pos; lia|done].
Qed.

Lemma show_digits_nonempty fuel n acc : show_digits (S fuel) n acc ≠ [].
Proof.
  assert (∀ fuel n acc, acc ≠ [] → show_digits fuel n acc ≠ []) as H.
  { clear. induction fuel as [|fuel IH]; intros n acc Ha; [done|]. cbn. case_match; [done|]. by apply IH. }
  cbn [show_digits]. case_match; [done|]. by apply H.
Qed.

Lemma parse_digits ds rest modes mode cursor :
  Forall (λ b, is_digit b = true) ds →
  parse_modes (ds ++ rest) modes (Some mode) cursor
  = parse_modes rest modes (Some (foldl add_mode_digit mode ds)) (cursor + length ds).
Proof.
  intros Hd. revert mode cursor. induction Hd as [|d ds Hd _ IH]; intros mode cursor; cbn.
  - by rewrite Nat.add_0_r.
  - rewrite Hd, IH. cbn. f_equal. lia.
Qed.

(** A printed number is read back. *)
Lemma parse_shown mode rest modes cursor :
  is_u16 mode →
  parse_modes (show_unsigned mode ++ rest) modes None cursor
  = parse_modes rest modes (Some mode) (cursor + length (show_unsigned mode)).
Proof.
  intros [H0 H1]. unfold show_unsigned in *.
  pose proof (show_digits_value 20 mode [] ltac:(done) ltac:(unfold u16_max in *; lia)) as Hv.
  pose proof (show_digits_all 20 mode [] H0 ltac:(done)) as Ha.
  pose proof (show_digits_nonempty 19 mode []) as Hn. cbn [foldl] in Hv.
  destruct (show_digits 20 mode []) as [|d ds]; [done|].
  apply Forall_cons in Ha as [Hd Hds]. cbn [app parse_modes]. rewrite Hd, parse_digits by done.
  cbn [foldl] in Hv. cbn [default from_option]. rewrite Hv. f_equal. cbn. lia.
Qed.

Lemma parse_mode_list modes (enabled : bool) before cursor :
  modes ≠ [] → Forall is_u16 modes →
  parse_modes (mode_list modes ++ [if enabled then 104 else 108]) before None cursor
  = ParseComplete (before ++ modes) enabled (cursor + S (length (mode_list modes))).
Proof.
  intros Hne Hm. revert before cursor Hne. induction Hm as [|mode modes Hmode Hm IH]; intros before cursor Hne; [done|].
  destruct modes as [|mode' modes].
  - cbn [mode_list]. rewrite parse_shown by done. by destruct enabled; cbn; f_equal; lia.
  - change (mode_list (mode :: mode' :: modes)) with (show_unsigned mode ++ 59 :: mode_list (mode' :: modes)).
    rewrite <- app_assoc, parse_shown by done.
    change ((59 :: mode_list (mode' :: modes)) ++ [if enabled then 104 else 108])
      with (59 :: (mode_list (mode' :: modes) ++ [if enabled then 104 else 108])).
    cbn [parse_modes]. replace (is_digit 59) with false by done. replace (59 =? 59) with true by done.
    rewrite IH by done. rewrite <- app_assoc. f_equal.
    rewrite length_app. cbn [length]. lia.
Qed.

(** A part of a sequence that parses to its end is incomplete. *)
Lemma parse_part a b before mode cursor modes enabled :
  b ≠ [] →
  parse_modes (a ++ b) before mode cursor = ParseComplete modes enabled (cursor + length (a ++ b)) →
  parse_modes a before mode cursor = ParseIncomplete.
Proof.
  intros Hb. revert before mode cursor. induction a as [|x a IH]; intros before mode cursor; [done|].
  cbn [app parse_modes length]. rewrite <- Nat.add_succ_comm. destruct (is_digit x); [apply IH|].
  destruct mode as [mode|]; [|done]. destruct (x =? 59); [apply IH|].
  destruct (_ || _); [|done]. intros [= _ _ H]. rewrite length_app in H. destruct b; [done|cbn in H; lia].
Qed.

Lemma min_by_key_first {A} (key : A → nat) l1 x l2 :
  key x = 0%nat → Forall (λ y, key y ≠ 0%nat) l1 → min_by_key key (l1 ++ x :: l2) = Some x.
Proof.
  intros Hx. induction 1 as [|y l1 Hy _ IH]; cbn.
  - destruct (min_by_key key l2) as [z|]; [|done]. by rewrite bool_decide_false by lia.
  - rewrite IH. by rewrite bool_decide_true by lia.
Qed.

Lemma find_subslice_head p rest : p ≠ [] → find_subslice (p ++ rest) p = Some 0%nat.
Proof.
  intros Hp. unfold find_subslice. rewrite bool_decide_false by done.
  replace (S (length (p ++ rest)) - length p)%nat with (S (length rest)) by (rewrite length_app; lia).
  cbn [seq List.find]. rewrite drop_0, take_app_length, bool_decide_true by done.
  unfold raw_c1_prefix_is_utf8_continuation. cbn. by rewrite andb_false_r.
Qed.

Lemma find_subslice_0 bytes needle :
  find_subslice bytes needle = Some 0%nat → take (length needle) bytes = needle.
Proof.
  unfold find_subslice. case_bool_decide as Hn; [by subst|].
  intros [_ [H%bool_decide_eq_true _]%andb_prop]%List.find_some. by rewrite drop_0 in H.
Qed.

(** The prefixes that come first in the list are not at the start. *)
Lemma start_with_prefix bytes l1 p sequence l2 :
  find_subslice bytes p = Some 0%nat →
  Forall (λ q : list Z * ModeSequence, take (length q.1) bytes ≠ q.1) l1 →
  find_mode_start_with_prefixes bytes (l1 ++ (p, sequence) :: l2) = Some (mkStart 0 sequence).
Proof.
  intros Hp Hl. unfold find_mode_start_with_prefixes. rewrite omap_app. cbn. rewrite Hp. cbn.
  apply min_by_key_first; [done|]. apply Forall_forall. intros start Hs.
  apply list_elem_of_omap in Hs as [[needle s] [Hin H]]. cbn in H.
  destruct (find_subslice bytes needle) as [i|] eqn:Hf; [|done]. injection H as <-. cbn. intros ->.
  rewrite Forall_forall in Hl. exact (Hl _ Hin (find_subslice_0 _ _ Hf)).
Qed.

Lemma private_start prefix rest :
  prefix ∈ private_prefixes →
  find_next_mode_start (prefix ++ rest) = Some (mkStart 0 (CsiPrivateMode (length prefix))).
Proof.
  intros Hp. assert (find_csi_private_mode_start (prefix ++ rest) = Some (mkStart 0 (CsiPrivateMode (length prefix)))) as H.
  { unfold private_prefixes in Hp. rewrite !elem_of_cons, elem_of_nil in Hp.
    destruct Hp as [->|[->|[->|[]]]]; unfold find_csi_private_mode_start.
    - apply (start_with_prefix _ []); [by apply find_subslice_head|done].
    - apply (start_with_prefix _ [_]); [by apply find_subslice_head|by repeat constructor].
    - apply (start_with_prefix _ [_; _]); [by apply find_subslice_head|by repeat constructor]. }
  unfold find_next_mode_start, flatten. cbn [omap list_omap id]. rewrite H.
  by apply (min_by_key_first start_index []).
Qed.

Lemma first_prefix_0 bytes prefixes n :
  find_first_prefix bytes prefixes = Some (0%nat, n) → ∃ q, q ∈ prefixes ∧ take (length q) bytes = q.
Proof.
  intros H%min_by_key_elem. apply list_elem_of_omap in H as [q [Hin H]].
  destruct (find_subslice bytes q) as [i|] eqn:Hf; [|done]. injection H as -> _.
  exists q. split; [done|]. by apply find_subslice_0.
Qed.

Definition control_prefixes : list (list Z) :=
  [[27; 93]; [194; 157]; [157]; [27; 80]; [27; 88]; [27; 94]; [27; 95]; [194; 144]; [194; 152]; [194; 158];
   [194; 159]; [144]; [152]; [158]; [159]].

(** Bytes that do not start a control string are in none. *)
Lemma outside_control_string bytes :
  Forall (λ q : list Z, take (length q) bytes ≠ q) control_prefixes → control_string_containing bytes 0 = None.
Proof.
  intros Hq. unfold control_string_containing. destruct (length bytes) as [|n]; [done|]. cbn [containing_loop].
  case_bool_decide; [done|]. rewrite drop_0.
  destruct (find_next_control_string_start bytes) as [[i l k]|] eqn:Hs; [|done]. cbn [control_index Nat.add].
  destruct i as [|i]; [exfalso|done].
  apply min_by_key_elem in Hs. unfold flatten in Hs. apply list_elem_of_omap in Hs as [o [Ho H']]. cbn in H'. subst o.
  rewrite Forall_forall in Hq. rewrite !elem_of_cons, elem_of_nil in Ho.
  destruct Ho as [Ho|[Ho|[]]]; symmetry in Ho; apply fmap_Some in Ho as [[i n'] [Hf [= <- <- _]]];
    apply first_prefix_0 in Hf as [q [Hin Ht]]; refine (Hq q _ Ht);
    apply (list_elem_of_In _ _) in Hin; apply list_elem_of_In; cbn in *; tauto.
Qed.

Lemma private_outside prefix rest :
  prefix ∈ private_prefixes → control_string_containing (prefix ++ rest) 0 = None.
Proof.
  intros Hp. apply outside_control_string. unfold private_prefixes in Hp. rewrite !elem_of_cons, elem_of_nil in Hp.
  destruct Hp as [->|[->|[->|[]]]]; by repeat constructor.
Qed.

Lemma empty_round t : pending t = [] → process_round t = Some (Stop (t, [])).
Proof. destruct t as [p mo kb md al tr]. cbn. intros ->. reflexivity. Qed.

Section Chunks.
Context (prefix modes : list Z) (enabled : bool).
Hypothesis Hprefix : prefix ∈ private_prefixes.
Hypothesis Hne : modes ≠ [].
Hypothesis Hu16 : Forall is_u16 modes.

Local Abbreviation whole := (private_sequence prefix modes enabled).
Local Abbreviation sequence := (mkPrivateModes modes enabled).

Lemma private_round rest t :
  process_round (with_pending (prefix ++ rest) t)
  = apply_sequence (CsiPrivateMode (length prefix)) (with_pending (prefix ++ rest) t).
Proof using Hprefix.
  unfold process_round. change (pending (with_pending ?p t)) with p.
  rewrite private_start, private_outside by done. unfold drain. cbn. by destruct t.
Qed.

Lemma whole_parses :
  parse_mode_sequence whole (length prefix) = ParseComplete modes enabled (length whole).
Proof using Hne Hu16.
  unfold parse_mode_sequence, private_sequence. rewrite drop_app_length, parse_mode_list by done.
  f_equal. rewrite !length_app. cbn. lia.
Qed.

Lemma part_incomplete a b :
  prefix ++ a ++ b = whole → b ≠ [] → parse_mode_sequence (prefix ++ a) (length prefix) = ParseIncomplete.
Proof using Hne Hu16.
  intros Hab Hb. unfold parse_mode_sequence. rewrite drop_app_length.
  apply (parse_part a b _ _ _ modes enabled Hb).
  assert (length whole = length prefix + length (a ++ b))%nat as Hl by (rewrite <- Hab; apply length_app).
  rewrite <- Hl, <- whole_parses. unfold parse_mode_sequence. by rewrite <- Hab, drop_app_length.
Qed.

(** A proper part of the sequence waits for the rest. *)
Lemma part_waits a b t :
  a ++ b = whole → b ≠ [] → a ≠ [] → process_round (with_pending a t) = Some (Stop (with_pending a t, [])).
Proof using Hprefix Hne Hu16.
  intros Hab Hb Ha. destruct (decide (length prefix ≤ length a)%nat) as [Hl|Hl].
  - assert (a = prefix ++ drop (length prefix) a) as Hs.
    { apply (f_equal (take (length prefix))) in Hab. unfold private_sequence in Hab.
      rewrite take_app_length, take_app_le in Hab by done.
      rewrite <- (take_drop (length prefix) a) at 1. by rewrite Hab. }
    rewrite Hs in Hab |- *. rewrite private_round. cbn [apply_sequence pending with_pending].
    change (pending (with_pending ?p t)) with p.
    rewrite (part_incomplete _ b); [done|by rewrite app_assoc|done].
  - assert (a = take (length a) prefix) as Hs.
    { apply (f_equal (take (length a))) in Hab. unfold private_sequence in Hab.
      rewrite take_app_length, take_app_le in Hab by lia. done. }
    unfold private_prefixes in Hprefix. rewrite !elem_of_cons, elem_of_nil in Hprefix.
    destruct Hprefix as [->|[->|[->|[]]]]; destruct a as [|a1 [|a2 [|a3 a]]]; cbn in Hs, Hl; simplify_eq/=;
      try lia; by destruct t; vm_compute.
Qed.

(** The whole sequence is carried out, and nothing is left. *)
Lemma whole_applies fuel t :
  process_loop (S (S fuel)) (with_pending whole t)
  = Some (with_pending [] (apply_private_mode_sequence sequence t).1, (apply_private_mode_sequence sequence t).2).
Proof using Hprefix Hne Hu16.
  cbn [process_loop]. unfold private_sequence at 1. rewrite private_round. fold whole. cbn [apply_sequence].
  change (pending (with_pending ?p t)) with p. fold (private_sequence prefix modes enabled).
  rewrite whole_parses. unfold drained. rewrite private_sequence_pending. cbn [fst snd].
  set (e := apply_private_mode_sequence sequence t). unfold drain.
  change (pending (with_pending whole e.1)) with whole. rewrite bool_decide_true by lia. cbn [fmap option_fmap option_map].
  rewrite drop_ge by lia. rewrite empty_round by done. destruct e as [[p mo kb md al tr] cs].
  cbn. by rewrite app_nil_r.
Qed.

Lemma candidate_first c b : c ++ b = whole → c ≠ [] → existsb is_mode_candidate_start c = true.
Proof using Hprefix.
  intros Hc Hn. unfold private_sequence in Hc. unfold private_prefixes in Hprefix.
  rewrite !elem_of_cons, elem_of_nil in Hprefix.
  destruct c as [|x c]; [done|]. destruct Hprefix as [->|[->|[->|[]]]]; by injection Hc as -> _.
Qed.

Lemma process_enters a c b t :
  a ++ c ++ b = whole → a ++ c ≠ [] →
  process c (with_pending a t) = process_loop (S (length (a ++ c))) (with_pending (a ++ c) t).
Proof using Hprefix.
  intros Hs Hn. unfold process. change (pending (with_pending a t)) with a.
  destruct a as [|x a]; [|by destruct t].
  cbn [app] in *. rewrite (candidate_first c b Hs Hn). cbn. by destruct t.
Qed.

Lemma chunk_waits a c b t :
  a ++ c ++ b = whole → b ≠ [] → process c (with_pending a t) = Some (with_pending (a ++ c) t, []).
Proof using Hprefix Hne Hu16.
  intros Hs Hb. destruct (decide (a ++ c = [])) as [[-> ->]%app_eq_nil|Hn]; [done|].
  rewrite (process_enters a c b t Hs Hn). cbn [process_loop].
  by rewrite (part_waits (a ++ c) b) by (done || by rewrite <- app_assoc).
Qed.

Lemma empty_chunks chunks t :
  concat chunks = [] → pending t = [] → process_chunks chunks t = Some (t, []).
Proof using Type.
  induction chunks as [|c chunks IH]; [done|]. cbn. intros [-> Hc]%app_eq_nil Hp.
  unfold process at 1. rewrite bool_decide_true by done. cbn. by rewrite IH.
Qed.

Lemma whole_nonempty : whole ≠ [].
Proof using Type. unfold private_sequence. by intros [_ [_ H]%app_eq_nil]%app_eq_nil. Qed.

Lemma chunks_apply a chunks t :
  a ++ concat chunks = whole → a ≠ whole →
  process_chunks chunks (with_pending a t)
  = Some (with_pending [] (apply_private_mode_sequence sequence t).1, (apply_private_mode_sequence sequence t).2).
Proof using Hprefix Hne Hu16.
  revert a. induction chunks as [|c chunks IH]; intros a Hs Ha; [by rewrite app_nil_r in Hs|].
  cbn [concat] in Hs. cbn [process_chunks].
  destruct (decide (concat chunks = [])) as [Hc|Hc].
  - rewrite Hc, app_nil_r in Hs.
    rewrite (process_enters a c []); [|by rewrite app_nil_r|rewrite Hs; apply whole_nonempty].
    rewrite Hs. destruct (length whole) as [|n] eqn:Hl;
      [by apply length_zero_iff_nil, whole_nonempty in Hl|].
    rewrite whole_applies. cbn [mbind option_bind]. rewrite empty_chunks by done. cbn. by rewrite app_nil_r.
  - rewrite (chunk_waits a c (concat chunks)) by done. cbn [mbind option_bind].
    rewrite (IH (a ++ c)); [done|by rewrite <- app_assoc|].
    intros Hac. rewrite app_assoc, Hac in Hs. apply Hc. apply (f_equal length) in Hs. rewrite length_app in Hs.
    apply length_zero_iff_nil. lia.
Qed.

End Chunks.

(** C25. A private mode sequence ([ESC \[ ?], the one-byte [CSI ?] or its
    UTF-8 form, then the modes and [h] or [l]) that reaches the tracker cut
    into any chunks, also inside the introducer or a number, changes the modes
    and emits the changes of the parsed sequence, and leaves nothing pending. *)
Theorem private_sequence_any_chunks prefix modes enabled chunks t :
  prefix ∈ private_prefixes → modes ≠ [] → Forall is_u16 modes → pending t = [] →
  concat chunks = private_sequence prefix modes enabled →
  process_chunks chunks t = Some (apply_private_mode_sequence (mkPrivateModes modes enabled) t)
  ∧ pending (apply_private_mode_sequence (mkPrivateModes modes enabled) t).1 = [].
Proof.
  intros Hp Hne Hu Ht Hc. rewrite private_sequence_keeps_pending. split; [|done].
  assert (with_pending [] t = t) as Hw by (rewrite <- Ht; apply with_pending_same).
  rewrite <- Hw at 1. rewrite (chunks_apply prefix modes enabled Hp Hne Hu [] chunks t Hc).
  - set (e := apply_private_mode_sequence _ t).
    assert (pending e.1 = []) as He by (unfold e; by rewrite private_sequence_keeps_pending).
    rewrite <- He, with_pending_same. by destruct e.
  - apply not_eq_sym, whole_nonempty.
Qed.

(** Application cursor keys, button-event mouse and SGR coordinates, cut
    inside the UTF-8 introducer and inside a number. *)
Lemma private_sequence_any_chunks_witness :
  process_chunks [[194]; [155; 63; 49; 59; 49]; [48; 48; 50; 59; 49; 48; 48; 54]; [104]] new_tracker
  = Some (apply_private_mode_sequence (mkPrivateModes [1; 1002; 1006] true) new_tracker)
  ∧ (apply_private_mode_sequence (mkPrivateModes [1; 1002; 1006] true) new_tracker).2
    = [ApplicationCursorKeys true; Mouse (mkMouseMode MouseButtonEvent MouseSgr)].
Proof.
  split; [|reflexivity].
  refine (proj1 (private_sequence_any_chunks UTF8_C1_CSI_PRIVATE_MODE_PREFIX [1; 1002; 1006] true
    [[194]; [155; 63; 49; 59; 49]; [48; 48; 50; 59; 49; 48; 48; 54]; [104]] new_tracker _ _ _ _ _));
    [by apply (bool_decide_unpack _)|done|by repeat constructor|done|reflexivity].
Defined.

Lemma run_mirrored_agrees ops t m :
  host_view m = host_view t →
  ∃ t' m', run_mirrored ops t m = Some (t', m') ∧ host_view m' = host_view t'.
Proof.
  revert t m. induction ops as [|op ops IH]; intros t m H; [by exists t, m|]. cbn [run_mirrored].
  destruct (worker_step_mirrored op t m H) as (t' & cs & -> & Hv). cbn [mbind option_bind]. by apply IH.
Qed.

(** C16. Whatever reaches a tracker (bytes, parsed sequences, the end of the
    session, settings), it is handled without a panic and in finitely many
    rounds. A mirror that installs the emitted changes and gets the same
    settings then agrees with the tracker on everything the host reads: cursor
    keys, keypad, paste, focus, synchronized output, keyboard flags, modifiers,
    win32 input, and the mouse mode while the mouse is reported. *)
Theorem mirror_shows_worker_modes ops :
  ∃ t m, run_mirrored ops new_tracker new_tracker = Some (t, m) ∧ host_view m = host_view t.
Proof. by apply run_mirrored_agrees. Qed.

(** A soft reset ([ESC \[ ! p]) is recognised in one piece, but cut before
    its last byte it is taken for an invalid mode sequence and lost: the
    application cursor keys it should switch off stay on. *)
Theorem soft_reset_lost_in_chunks :
  let run chunks := (λ e : Emitted, (application_cursor_keys e.1, pending e.1, e.2)) <$> process_chunks chunks new_tracker in
  run [[27; 91; 63; 49; 104]; [27; 91; 33; 112]]
  = Some (false, [], [ApplicationCursorKeys true; ApplicationCursorKeys false])
  ∧ run [[27; 91; 63; 49; 104]; [27; 91; 33]; [112]] = Some (true, [], [ApplicationCursorKeys true]).
Proof. split; vm_compute; reflexivity. Qed.

(** ** The stack of keyboard flags *)

(** Any sequence of operations keeps the stack within its bound. *)
Lemma keyboard_stack_bounded sequences t :
  (length (keyboard_stack (kitty_keyboard_modes t)) ≤ MAX_STACK)%nat →
  (length (keyboard_stack (kitty_keyboard_modes
     (foldl (λ t s, (apply_kitty_keyboard_sequence s t).1) t sequences))) ≤ MAX_STACK)%nat.
Proof.
  revert t. induction sequences as [|s sequences IH]; intros t Ht; [done|]. cbn [foldl]. apply IH.
  cbn. generalize dependent (kitty_keyboard_modes t). intros k Hk. destruct (operation s).
  - unfold keyboard_push. cbn. rewrite length_app. unfold MAX_STACK in *. case_bool_decide; rewrite ?length_drop; cbn; lia.
  - unfold keyboard_pop. generalize (Z.to_nat (if value s =? 0 then 1 else value s)). intros n.
    revert k Hk. induction n as [|n IHn]; intros k Hk; [done|]. cbn [keyboard_pop_loop].
    destruct (last (keyboard_stack k)); [|done]. apply IHn. cbn. rewrite length_take. lia.
  - done.
Qed.

Lemma pop_push flags k n :
  (length (keyboard_stack k) < MAX_STACK)%nat →
  keyboard_pop_loop (S n) (keyboard_push flags k) = keyboard_pop_loop n k.
Proof.
  intros Hk. cbn [keyboard_pop_loop]. unfold keyboard_push. rewrite bool_decide_false by lia. cbn [keyboard_stack].
  rewrite last_snoc, length_app. cbn [length]. rewrite Nat.add_sub, take_app_length. by destruct k.
Qed.

Lemma push_length flags k :
  (length (keyboard_stack k) < MAX_STACK)%nat →
  length (keyboard_stack (keyboard_push flags k)) = S (length (keyboard_stack k)).
Proof. intros Hk. unfold keyboard_push. rewrite bool_decide_false by lia. cbn. rewrite length_app. cbn. lia. Qed.

(** Popping as often as was pushed restores the flags and the stack, while
    the stack has room. *)
Lemma keyboard_pops_undo_pushes flags k :
  flags ≠ [] → (length (keyboard_stack k) + length flags ≤ MAX_STACK)%nat →
  keyboard_pop (Z.of_nat (length flags)) (foldl (flip keyboard_push) k flags) = k.
Proof.
  intros Hne Hl. assert (keyboard_pop_loop (length flags) (foldl (flip keyboard_push) k flags) = k
    ∧ length (keyboard_stack (foldl (flip keyboard_push) k flags)) = (length (keyboard_stack k) + length flags)%nat)
    as [Hp _].
  { clear Hne. induction flags as [|f flags IH] using rev_ind; cbn; [split; [done|lia]|].
    rewrite length_app in *. cbn [length] in *. destruct IH as [IH IHl]; [lia|].
    rewrite foldl_app. cbn [foldl]. unfold flip at 1 3. rewrite Nat.add_1_r.
    rewrite pop_push, push_length by lia. split; [done|lia]. }
  unfold keyboard_pop. replace (Z.of_nat (length flags) =? 0) with false; [by rewrite Nat2Z.id|].
  symmetry. apply Z.eqb_neq. destruct flags; [done|cbn; lia].
Qed.

(** ** Mode reports *)

(** The modes a report tells apart, with their bits; 3 and 2027 have fixed
    answers, and 9001 can be forbidden. *)
Definition tracked_reports : list (Z * Z) :=
  [(1, 0); (2, 24); (5, 19); (6, 5); (7, 6); (12, 8); (25, 7); (45, 18); (69, 15); (80, 16); (8452, 17);
   (1004, 3); (1034, 14); (1070, 23); (2004, 2); (2026, 4)].
Definition mouse_reports : list Z := [1000; 1002; 1003; 1005; 1006; 1015; 1016].

Lemma mouse_set_has mode enabled bits bits' mask :
  mouse_mask mode = Some mask → mouse_set mode enabled bits = Some bits' → has bits' mask = enabled.
Proof.
  intros Hm. unfold mouse_set. rewrite Hm. intros [= <-].
  assert (∃ k, mask = Z.shiftl 1 k ∧ 0 ≤ k ∧ (is_protocol_mode mode = true → Z.testbit PROTOCOL_MASK k = true))
    as (k & -> & Hk & Hproto).
  { unfold mouse_mask in Hm. repeat case_match; simplify_eq; try discriminate Hm;
      repeat match goal with H : (mode =? _) = true |- _ => apply Z.eqb_eq in H; subst mode end.
    all: first [by exists 0|by exists 1|by exists 2|by exists 3|by exists 4|by exists 5|by exists 6]. }
  rewrite has_bit, Z.shiftl_1_l by done.
  destruct (is_protocol_mode mode), enabled;
    rewrite ?Z.lor_spec, ?Z.ldiff_spec, ?Z.pow2_bits_true, ?Hproto by done;
    by rewrite ?orb_true_r, ?andb_false_r.
Qed.

Lemma tracked_report enabled t :
  Forall (λ mk : Z * Z, 0 ≤ mk.2 ∧
    private_mode_report_value mk.1 (apply_private_mode_sequence (mkPrivateModes [mk.1] enabled) t).1
    = mode_report_value (tracked (Z.shiftl 1 mk.2) (set_tracked (Z.shiftl 1 mk.2) enabled t))) tracked_reports.
Proof. repeat constructor; cbn [fst snd]; lia. Qed.

Lemma mouse_report enabled t :
  Forall (λ mode, ∃ mask bits, mouse_mask mode = Some mask ∧ mouse_set mode enabled (mouse_modes t) = Some bits ∧
    private_mode_report_value mode (apply_private_mode_sequence (mkPrivateModes [mode] enabled) t).1
    = mode_report_value (has bits mask)) mouse_reports.
Proof. repeat constructor; eexists _, _; repeat split. Qed.

(** A report answers what the last sequence for the mode set. *)
Lemma report_follows_setting mode enabled t :
  mode ∈ tracked_reports.*1 ++ mouse_reports →
  private_mode_report_value mode (apply_private_mode_sequence (mkPrivateModes [mode] enabled) t).1
  = mode_report_value enabled.
Proof.
  intros [([m k] & -> & Hin)%list_elem_of_fmap|Hin]%elem_of_app.
  - pose proof (tracked_report enabled t) as H. rewrite Forall_forall in H. destruct (H _ Hin) as [Hk ->].
    by rewrite tracked_set, Z.eqb_refl.
  - pose proof (mouse_report enabled t) as H. rewrite Forall_forall in H.
    destruct (H _ Hin) as (mask & bits & Hm & Hs & ->). by rewrite (mouse_set_has _ _ _ _ _ Hm Hs).
Qed.
