(* ===== verification/Queries.v ===== *)
(** The scanner in front of a terminal ([rssh-runtime/src/queries.rs],
    [query_dcs.rs]): it cuts the bytes of a session into text and complete
    control sequences, whatever the chunks they arrive in, and classifies the
    controls the runtime answers itself. Controls longer than a limit are
    discarded.

    [expect], slicing out of range and the underflow of an index are [None].
    The counters of storage work are not modelled; the capacity of the pending
    vector, on which compaction depends, is an argument. *)
From coqutil Require Import Datatypes.RecordSetters.
From S2P Require Import Prelude Text Launch Csi Parse Grid Screen Utf8 RuntimeApi Modes.
Import DoubleBraceUpdate.

Local Open Scope Z_scope.

(** ** What a control can be *)

Inductive ControlFamily := FamilyCsi | FamilyOsc | FamilyDcs | FamilyEnq | FamilyOther.

Inductive FixedQuery :=
| QueryCursorPosition | QueryPrimaryDeviceAttributes | QuerySecondaryDeviceAttributes
| QueryTertiaryDeviceAttributes | QueryTerminalParameters0 | QueryTerminalParameters1
| QueryXtVersion | QueryOperatingStatus | QueryWindowPixelSize | QueryCharacterCellSize
| QueryTextAreaSize.

Inductive WindowReportRequest :=
| ReportWindowPixelSize | ReportCharacterCellSize | ReportTextAreaSize | ReportWindowTitle | ReportIgnored.

Inductive StringTerminator := TerminatorBel | TerminatorSt | TerminatorC1St.

Inductive OscColorKind := ColorDefaultForeground | ColorDefaultBackground | ColorCursor | ColorPalette (index : Z).

Record OscColorRequest := mkOscColor { color_kinds : list OscColorKind; color_terminator : StringTerminator }.

Record DecrqcraRequest := mkDecrqcra {
  request_id : Z; request_top : Z; request_left : Z; request_bottom : Z; request_right : Z }.

Record XtSmGraphicsRequest := mkXtSmGraphics { graphics_item : Z; graphics_action : Z }.

Inductive ClipboardCommand :=
| ClipboardCommandWrite (selection : option rstring) (contents : rstring)
| ClipboardCommandQuery (selection : rstring).

Inductive ProgressCommand :=
| ProgressNone | ProgressPercentage (value : Z) | ProgressError (value : Z) | ProgressIndeterminate.

Inductive NotificationCommand :=
| Notify (title : option rstring) (body : rstring)
| NotifyProgress (progress : ProgressCommand)
| NotifyIgnored.

Inductive DcsTerminator := SevenBit | EightBit.

Inductive DecrqssKind :=
| RequestSgr | RequestCursorShape | RequestScrollRegion | RequestConformanceLevel
| RequestLeftRightMargins | RequestUnknown.

Record DecrqssRequest := mkDecrqss { decrqss_kind : DecrqssKind; decrqss_terminator : DcsTerminator }.
Record XtGetTcapName := mkTcapName { name_encoded : list Z; name_decoded : option (list Z) }.
Record XtGetTcapRequest := mkTcap { tcap_names : list XtGetTcapName; tcap_terminator : DcsTerminator }.

Inductive SemanticControl :=
| SemFixed (query : FixedQuery)
| SemWindowReport (request : WindowReportRequest)
| SemPrivateModeStatus (mode : Z)
| SemAnsiModeStatus (mode : Z)
| SemOscColor (request : OscColorRequest)
| SemItermReportCellSize
| SemDecrqcra (request : DecrqcraRequest)
| SemDecrqss (request : DecrqssRequest)
| SemXtGetTcap (request : XtGetTcapRequest)
| SemXtSmGraphics (request : XtSmGraphicsRequest)
| SemKittyKeyboardFlags
| SemKeyModifierOptionsQuery (resource : Z)
| SemSynchronizedOutputMode (sequence : PrivateModeSequence)
| SemKittyKeyboardMode (sequence : KittyKeyboardMode)
| SemKeyModifierOptionsSequence (sequence : KeyModifierOptions)
| SemOsc52 (command : ClipboardCommand)
| SemOsc8Hyperlink
| SemNotification (command : NotificationCommand)
| SemDeviceAttributesResponse
| SemIgnored
| SemEnq
| SemStandaloneSt
| SemCancelled
| SemUnknown.

(** ** Pieces of a control *)

(** [slice::split]: the parts between the separators, at least one. *)
Fixpoint split_on (separator : Z) (bytes : list Z) : list (list Z) :=
  match bytes with
  | [] => [[]]
  | byte :: bytes =>
      if byte =? separator then [] :: split_on separator bytes
      else match split_on separator bytes with
           | [] => [[byte]]
           | part :: parts => (byte :: part) :: parts
           end
  end.

(** [strip_prefix(..).or_else(..)] over several prefixes. *)
Fixpoint strip_any_prefix (prefixes : list (list Z)) (bytes : list Z) : option (list Z) :=
  match prefixes with
  | [] => None
  | p :: prefixes =>
      match strip_prefix p bytes with Some body => Some body | None => strip_any_prefix prefixes bytes end
  end.

Definition ends_with (suffix bytes : list Z) : bool :=
  match strip_suffix suffix bytes with Some _ => true | None => false end.

Definition starts_with (prefix bytes : list Z) : bool :=
  match strip_prefix prefix bytes with Some _ => true | None => false end.

Definition text_is (text : string) (bytes : list Z) : bool := bool_decide (bytes = lit text).

Definition csi_body : list Z → option (list Z) := strip_any_prefix [[27; 91]; [155]; [194; 155]].

Definition string_body_with_terminator (bytes esc : list Z) (raw : Z)
    : option (list Z * StringTerminator) :=
  body ← strip_any_prefix [esc; [raw]; [194; raw]] bytes;
  match strip_suffix [7] body with
  | Some body => Some (body, TerminatorBel)
  | None =>
      match strip_suffix [27; 92] body with
      | Some body => Some (body, TerminatorSt)
      | None =>
          match strip_suffix [194; 156] body with
          | Some body => Some (body, TerminatorC1St)
          | None => (λ body, (body, TerminatorC1St)) <$> strip_suffix [156] body
          end
      end
  end.

Definition i64_max : Z := 9223372036854775807.

Definition parse_number (limit : Z) (bytes : list Z) : option Z :=
  if bool_decide (bytes = []) then None else parse_unsigned_digits limit 0 bytes.

Definition parse_u16 : list Z → option Z := parse_number u16_max.
Definition parse_i64 : list Z → option Z := parse_number i64_max.
Definition parse_u64 : list Z → option Z := parse_number u64_max.

Definition parse_u16_saturating (bytes : list Z) : option Z :=
  if bool_decide (bytes = []) || negb (forallb Csi.is_digit bytes) then None
  else Some (foldl add_mode_digit 0 bytes).

Definition parse_window_report (body : list Z) : WindowReportRequest :=
  match strip_suffix (lit "t") body with
  | None => ReportIgnored
  | Some params =>
      match split_on 59 params with
      | [] => ReportIgnored
      | part :: parts =>
          match parse_i64 part with
          | None => ReportIgnored
          | Some first =>
              let second :=
                match parts with
                | [] | [] :: _ => Some None
                | part :: _ => Some <$> parse_i64 part
                end in
              match second with
              | None => ReportIgnored
              | Some second =>
                  if existsb (λ part, negb (bool_decide (part = [])) && bool_decide (parse_i64 part = None))
                       (drop 1 parts)
                  then ReportIgnored
                  else if (first =? 14) && bool_decide (second = None) then ReportWindowPixelSize
                  else if first =? 16 then ReportCharacterCellSize
                  else if first =? 18 then ReportTextAreaSize
                  else if (first =? 21) && bool_decide (second = None) then ReportWindowTitle
                  else ReportIgnored
              end
          end
      end
  end.

Definition decrqcra_axis (part : option (list Z)) (default_value : Z) : option Z :=
  value ← match part with None | Some [] => Some default_value | Some part => parse_i64 part end;
  if value <=? 0 then Some 0 else Some (Z.min (value - 1) u16_max).

Definition parse_decrqcra (body : list Z) : option DecrqcraRequest :=
  params ← strip_suffix (lit "*y") body;
  let parts := split_on 59 params in
  request_id ← (parts !! 0%nat) ≫= parse_i64;
  _ ← (parts !! 1%nat) ≫= parse_i64;
  top ← decrqcra_axis (parts !! 2%nat) 0;
  left ← decrqcra_axis (parts !! 3%nat) 0;
  bottom ← decrqcra_axis (parts !! 4%nat) u16_max;
  right ← decrqcra_axis (parts !! 5%nat) u16_max;
  if bool_decide (parts !! 6%nat = None) then Some (mkDecrqcra request_id top left bottom right) else None.

Definition parse_xtsmgraphics (body : list Z) : option XtSmGraphicsRequest :=
  content ← strip_prefix (lit "?") body ≫= strip_suffix (lit "S");
  let parameters := split_on 59 content in
  item ← (parameters !! 0%nat) ≫= parse_u64;
  action ← (parameters !! 1%nat) ≫= parse_u64;
  _ ← mapM parse_u64 (drop 2 parameters);
  Some (mkXtSmGraphics item action).

(** ** Operating system commands *)

Definition MAX_OSC_COLOR_QUERY_KINDS : nat := 256.
Definition MAX_OSC_COLOR_QUERY_BYTES : Z := 16 * 1024.
Definition MAX_CLIPBOARD_BYTES : Z := 1024 * 1024.
Definition MAX_CLIPBOARD_BASE64_BYTES : Z := (MAX_CLIPBOARD_BYTES + 2) / 3 * 4.

Definition len (bytes : list Z) : Z := Z.of_nat (length bytes).

Definition split_osc_selector (body : list Z) : option (list Z * list Z) := split_once 59 body.

Fixpoint skip_zeros (selector : list Z) : list Z :=
  match selector with
  | [] => lit "0"
  | byte :: rest => if byte =? 48 then skip_zeros rest else selector
  end.

(** Leading zeros do not count. *)
Definition osc_selector_is (selector : list Z) (expected : string) : bool :=
  if bool_decide (selector = []) || negb (forallb Csi.is_digit selector) then false
  else text_is expected (skip_zeros selector).

(** The loop over pairs of a palette index and a question mark. *)
Fixpoint palette_kinds (parts : list (list Z)) (count : nat) : option (list OscColorKind) :=
  match parts with
  | [] => Some []
  | index :: rest =>
      match rest with
      | [] => None
      | mark :: rest =>
          if negb (text_is "?" mark) || bool_decide (count = MAX_OSC_COLOR_QUERY_KINDS) then None
          else
            n ← parse_u16 index;
            if n <=? 255 then cons (ColorPalette n) <$> palette_kinds rest (S count) else None
      end
  end.

Definition parse_osc_color (body : list Z) (terminator : StringTerminator) : option OscColorRequest :=
  '(selector, content) ← split_osc_selector body;
  kinds ←
    (if osc_selector_is selector "10" && text_is "?" content then Some [ColorDefaultForeground]
     else if osc_selector_is selector "11" && text_is "?" content then Some [ColorDefaultBackground]
     else if osc_selector_is selector "12" && text_is "?" content then Some [ColorCursor]
     else if (MAX_OSC_COLOR_QUERY_BYTES <? len body) || negb (osc_selector_is selector "4") then None
     else palette_kinds (split_on 59 content) 0);
  Some (mkOscColor kinds terminator).

Definition is_reserved_osc_color_query (body : list Z) : bool :=
  match split_osc_selector body with
  | None => false
  | Some (selector, content) =>
      ((osc_selector_is selector "10" || osc_selector_is selector "11" || osc_selector_is selector "12")
       && bool_decide (63 ∈ content))
      || (osc_selector_is selector "4" && existsb (text_is "?") (split_on 59 content))
  end.

Definition is_reserved_clipboard_control (body : list Z) : bool :=
  match split_osc_selector body with
  | None => osc_selector_is body "52"
  | Some (selector, content) =>
      osc_selector_is selector "52"
      || (osc_selector_is selector "1337"
          && (starts_with (lit "Copy=") content || starts_with (lit "CopyToClipboard=") content))
  end.

(** [String::from_utf8(..).ok()] *)
Definition string_from_utf8 (bytes : list Z) : option rstring :=
  match from_utf8 0 bytes with (text, _, None) => Some text | _ => None end.

Definition parse_u8_decimal (bytes : list Z) : option Z :=
  n ← parse_u16 bytes; if n <=? 255 then Some n else None.

Definition parse_progress_value (bytes : list Z) : option Z :=
  n ← parse_u8_decimal bytes; if n <=? 100 then Some n else None.

Definition parse_progress (parts : list (list Z)) : option ProgressCommand :=
  n ← (parts !! 0%nat) ≫= parse_u8_decimal;
  let value := (parts !! 1%nat) ≫= parse_progress_value in
  if n =? 0 then Some ProgressNone
  else if n =? 1 then ProgressPercentage <$> value
  else if n =? 2 then Some (ProgressError (default 0 value))
  else if n =? 3 then Some ProgressIndeterminate
  else None.

Definition parse_notification (body : list Z) : NotificationCommand :=
  match split_osc_selector body with
  | None => NotifyIgnored
  | Some (selector, content) =>
      if osc_selector_is selector "9" then
        match strip_prefix (lit "4;") content with
        | Some progress =>
            match parse_progress (split_on 59 progress) with
            | Some command => NotifyProgress command
            | None => NotifyIgnored
            end
        | None => match string_from_utf8 content with
                  | Some body => Notify None body
                  | None => NotifyIgnored
                  end
        end
      else if negb (osc_selector_is selector "777") then NotifyIgnored
      else
        match strip_prefix (lit "notify;") content ≫= split_once 59 with
        | None => NotifyIgnored
        | Some (title, body) =>
            match string_from_utf8 title, string_from_utf8 body with
            | Some title, Some body => Notify (Some title) body
            | _, _ => NotifyIgnored
            end
        end
  end.

(** ** Modes and keys *)

Definition parse_private_mode_sequence (body : list Z) : option PrivateModeSequence :=
  byte ← last body;
  enabled ← (if byte =? 104 then Some true else if byte =? 108 then Some false else None);
  parameters ← strip_prefix (lit "?") (take (length body - 1) body);
  modes ← mapM parse_u16_saturating (split_on 59 parameters);
  if bool_decide (modes = []) then None else Some (mkPrivateModes modes enabled).

Definition keyboard_apply_mode (mode : Z) : option KittyKeyboardApplyMode :=
  if mode =? 1 then Some ApplyReplace else if mode =? 2 then Some ApplySet
  else if mode =? 3 then Some ApplyReset else None.

Definition parse_kitty_keyboard_mode (body : list Z) : option KittyKeyboardMode :=
  match body with
  | [] => None
  | byte :: body =>
      operation ← (if byte =? 62 then Some KeyboardPush else if byte =? 60 then Some KeyboardPop
                   else if byte =? 61 then Some KeyboardApply else None);
      parameters ← strip_suffix (lit "u") body;
      match operation with
      | KeyboardApply =>
          let parts := split_on 59 parameters in
          value ← (parts !! 0%nat) ≫= parse_u16_saturating;
          apply_mode ← match parts !! 1%nat with
                       | None => Some ApplyReplace
                       | Some mode => parse_u16_saturating mode ≫= keyboard_apply_mode
                       end;
          if bool_decide (parts !! 2%nat = None) then Some (mkKeyboardMode KeyboardApply value apply_mode)
          else None
      | _ =>
          value ← (if bool_decide (parameters = []) then Some 0 else parse_u16_saturating parameters);
          Some (mkKeyboardMode operation value ApplyReplace)
      end
  end.

Definition parse_key_modifier_options (body : list Z) : option KeyModifierOptions :=
  parameters ← strip_prefix (lit ">") body ≫= strip_suffix (lit "m");
  if bool_decide (parameters = []) then Some (mkModifierOptions None None)
  else
    let parts := split_on 59 parameters in
    resource ← (parts !! 0%nat) ≫= parse_u16_saturating;
    value ← match parts !! 1%nat with
            | None => Some None
            | Some value => Some <$> parse_u16_saturating value
            end;
    if bool_decide (parts !! 2%nat = None) then Some (mkModifierOptions (Some resource) value) else None.

(** ** Device control strings ([query_dcs.rs]) *)

Definition MAX_DECRQSS_CONTENT_BYTES : Z := 256.
Definition MAX_XTGETTCAP_NAMES : nat := 64.
Definition MAX_XTGETTCAP_ENCODED_BYTES : Z := 64 * 1024.
Definition MAX_XTGETTCAP_DECODED_BYTES : Z := 64 * 1024.

Fixpoint contains_pair (a b : Z) (bytes : list Z) : bool :=
  match bytes with
  | x :: rest =>
      match rest with
      | y :: _ => ((x =? a) && (y =? b)) || contains_pair a b rest
      | [] => false
      end
  | [] => false
  end.

Definition contains_st (bytes : list Z) : bool :=
  contains_pair 27 92 bytes || contains_pair 194 156 bytes || bool_decide (156 ∈ bytes).

Definition parse_exact_dcs_frame (bytes : list Z) : option (list Z * DcsTerminator) :=
  body ← strip_any_prefix [[27; 80]; [144]; [194; 144]] bytes;
  '(content, terminator) ←
    match strip_suffix [27; 92] body with
    | Some content => Some (content, SevenBit)
    | None =>
        match strip_suffix [194; 156] body with
        | Some content => Some (content, EightBit)
        | None => (λ content, (content, EightBit)) <$> strip_suffix [156] body
        end
    end;
  if contains_st content then None else Some (content, terminator).

Definition decrqss_kind_of (content : list Z) : DecrqssKind :=
  if text_is "m" content then RequestSgr
  else if text_is " q" content then RequestCursorShape
  else if text_is "r" content then RequestScrollRegion
  else if bool_decide (content = [34; 112]) then RequestConformanceLevel
  else if text_is "s" content then RequestLeftRightMargins
  else RequestUnknown.

Definition parse_decrqss_request (bytes : list Z) : option DecrqssRequest :=
  '(body, terminator) ← parse_exact_dcs_frame bytes;
  content ← strip_prefix (lit "$q") body;
  if MAX_DECRQSS_CONTENT_BYTES <? len content then None
  else Some (mkDecrqss (decrqss_kind_of content) terminator).

Definition parse_hex_digit (byte : Z) : option Z :=
  if between 48 57 byte then Some (byte - 48)
  else if between 97 102 byte then Some (byte - 97 + 10)
  else if between 65 70 byte then Some (byte - 65 + 10)
  else None.

Fixpoint decode_hex_pairs (bytes : list Z) : option (list Z) :=
  match bytes with
  | [] => Some []
  | a :: rest =>
      match rest with
      | [] => None
      | b :: rest =>
          high ← parse_hex_digit a; low ← parse_hex_digit b;
          cons (high * 16 + low) <$> decode_hex_pairs rest
      end
  end.

Definition decode_ascii_hex (bytes : list Z) : option (list Z) :=
  if bool_decide (bytes = []) then None else decode_hex_pairs bytes.

Fixpoint parse_tcap_names (parts : list (list Z)) (count : nat) (decoded_bytes : Z)
    : option (list XtGetTcapName) :=
  match parts with
  | [] => Some []
  | encoded :: parts =>
      if bool_decide (count = MAX_XTGETTCAP_NAMES) then None
      else
        let decoded := decode_ascii_hex encoded in
        let decoded_bytes := decoded_bytes + match decoded with Some d => len d | None => 0 end in
        if MAX_XTGETTCAP_DECODED_BYTES <? decoded_bytes then None
        else cons (mkTcapName encoded decoded) <$> parse_tcap_names parts (S count) decoded_bytes
  end.

Definition parse_xtgettcap_request (bytes : list Z) : option XtGetTcapRequest :=
  '(body, terminator) ← parse_exact_dcs_frame bytes;
  content ← strip_prefix (lit "+q") body;
  if MAX_XTGETTCAP_ENCODED_BYTES <? len content then None
  else names ← parse_tcap_names (split_on 59 content) 0 0; Some (mkTcap names terminator).

Definition is_reserved_query (bytes : list Z) : bool :=
  match parse_exact_dcs_frame bytes with
  | Some (body, _) => starts_with (lit "$q") body || starts_with (lit "+q") body
  | None => false
  end.

(** ** Classification *)

Section Classification.
Context `{External}.

Definition decode_clipboard_payload (payload : list Z) : option rstring :=
  if MAX_CLIPBOARD_BASE64_BYTES <? len payload then None
  else
    decoded ← base64_decode payload;
    if MAX_CLIPBOARD_BYTES <? len decoded then None else string_from_utf8 decoded.

Definition parse_clipboard (body : list Z) : option ClipboardCommand :=
  '(selector, content) ← split_osc_selector body;
  if osc_selector_is selector "52" then
    '(selection, payload) ← split_once 59 content;
    selection ← string_from_utf8 selection;
    if text_is "?" payload then Some (ClipboardCommandQuery selection)
    else ClipboardCommandWrite (Some selection) <$> decode_clipboard_payload payload
  else if osc_selector_is selector "1337" then
    payload ← strip_any_prefix [lit "Copy=;"; lit "CopyToClipboard=;"] content;
    ClipboardCommandWrite None <$> decode_clipboard_payload payload
  else None.

Definition fixed_query (body : list Z) : option FixedQuery :=
  if text_is "6n" body then Some QueryCursorPosition
  else if text_is "c" body || text_is "0c" body then Some QueryPrimaryDeviceAttributes
  else if text_is ">c" body || text_is ">0c" body then Some QuerySecondaryDeviceAttributes
  else if text_is "=c" body || text_is "=0c" body then Some QueryTertiaryDeviceAttributes
  else if text_is "x" body || text_is "0x" body then Some QueryTerminalParameters0
  else if text_is "1x" body then Some QueryTerminalParameters1
  else if text_is ">q" body || text_is ">0q" body then Some QueryXtVersion
  else if text_is "5n" body then Some QueryOperatingStatus
  else if text_is "14t" body then Some QueryWindowPixelSize
  else if text_is "16t" body then Some QueryCharacterCellSize
  else if text_is "18t" body then Some QueryTextAreaSize
  else None.

Definition synchronized_sequence (body : list Z) : option PrivateModeSequence :=
  sequence ← parse_private_mode_sequence body;
  if bool_decide (2026 ∈ sequence_modes sequence) then Some sequence else None.

Definition is_device_attributes_response (body : list Z) : bool :=
  match body with
  | [] => false
  | first :: _ =>
      ((first =? 63) || (first =? 62) || (first =? 61)) && ends_with (lit "c") body
      && forallb (λ byte, Csi.is_digit byte || (byte =? 59)) (take (length body - 2) (drop 1 body))
  end.

Definition classify_csi (body : list Z) : SemanticControl :=
  match fixed_query body with
  | Some query => SemFixed query
  | None =>
  if ends_with (lit "t") body then SemWindowReport (parse_window_report body)
  else match (strip_prefix (lit "?") body ≫= strip_suffix (lit "$p")) ≫= parse_u16 with
  | Some mode => SemPrivateModeStatus mode
  | None =>
  match strip_suffix (lit "$p") body ≫= parse_u16 with
  | Some mode => SemAnsiModeStatus mode
  | None =>
  match parse_decrqcra body with
  | Some request => SemDecrqcra request
  | None =>
  match parse_xtsmgraphics body with
  | Some request => SemXtSmGraphics request
  | None =>
  if text_is "?u" body then SemKittyKeyboardFlags
  else match (strip_prefix (lit "?") body ≫= strip_suffix (lit "m")) ≫= parse_u16 with
  | Some resource => SemKeyModifierOptionsQuery resource
  | None =>
  match synchronized_sequence body with
  | Some sequence => SemSynchronizedOutputMode sequence
  | None =>
  match parse_kitty_keyboard_mode body with
  | Some sequence => SemKittyKeyboardMode sequence
  | None =>
  match parse_key_modifier_options body with
  | Some sequence => SemKeyModifierOptionsSequence sequence
  | None =>
  if text_is "?6n" body then SemIgnored
  else if is_device_attributes_response body then SemDeviceAttributesResponse
  else SemUnknown
  end end end end end end end end end.

Definition selector_is (body : list Z) (expected : string) : bool :=
  match split_osc_selector body with Some (selector, _) => osc_selector_is selector expected | None => false end.

Definition classify_osc (body : list Z) (terminator : StringTerminator) : SemanticControl :=
  match parse_osc_color body terminator with
  | Some query => SemOscColor query
  | None =>
      if is_reserved_osc_color_query body then SemIgnored
      else if selector_is body "1337"
              && bool_decide (snd <$> split_osc_selector body = Some (lit "ReportCellSize"))
      then SemItermReportCellSize
      else if is_reserved_clipboard_control body then
        match parse_clipboard body with Some command => SemOsc52 command | None => SemIgnored end
      else if selector_is body "8" then SemOsc8Hyperlink
      else if selector_is body "9" || selector_is body "777" then SemNotification (parse_notification body)
      else SemUnknown
  end.

Definition classify_control (family : ControlFamily) (bytes : list Z) : SemanticControl :=
  match family with
  | FamilyCsi => match csi_body bytes with None => SemUnknown | Some body => classify_csi body end
  | FamilyOsc =>
      match string_body_with_terminator bytes [27; 93] 157 with
      | None => SemUnknown
      | Some (body, terminator) => classify_osc body terminator
      end
  | FamilyDcs =>
      match parse_decrqss_request bytes with
      | Some request => SemDecrqss request
      | None =>
          match parse_xtgettcap_request bytes with
          | Some request => SemXtGetTcap request
          | None => if is_reserved_query bytes then SemIgnored else SemUnknown
          end
      end
  | FamilyEnq => SemEnq
  | FamilyOther =>
      if bool_decide (bytes ∈ [[27; 92]; [156]; [194; 156]]) then SemStandaloneSt else SemUnknown
  end.

(** ** The scanner *)

Inductive ScannedSegment :=
| SegmentBytes (bytes : list Z)
| SegmentControl (family : ControlFamily) (bytes : list Z) (semantic : SemanticControl).

Inductive StringBody := BodyOsc | BodyDcs | BodyString.

(** [Osc], [Dcs] and [String] with their [Escape] and [Utf8C1] variants are
    three states per kind of string. *)
Inductive ScanState :=
| ScanGround
| ScanEscape
| ScanUtf8C1
| ScanUtf8Text (remaining : nat) (next_min next_max : Z)
| ScanCsi
| ScanCsiUtf8C1
| ScanBody (kind : StringBody)
| ScanBodyEscape (kind : StringBody)
| ScanBodyUtf8C1 (kind : StringBody).

Definition body_family (kind : StringBody) : ControlFamily :=
  match kind with BodyOsc => FamilyOsc | BodyDcs => FamilyDcs | BodyString => FamilyOther end.
Definition bel_terminates (kind : StringBody) : bool :=
  match kind with BodyOsc => true | _ => false end.

Record TerminalQueryScanner := mkScanner {
  scan_pending : list Z;
  scan_head : nat;
  scan_cursor : nat;
  candidate_start : option nat;
  scan_state : ScanState;
  discarding : bool;
}.

Definition new_scanner : TerminalQueryScanner := mkScanner [] 0 0 None ScanGround false.

Definition MAX_PENDING : Z := 1024 * 1024.

(** The variables of the loop: the scanner, [emitted_end] and what the sink
    has received. *)
Record Scan := mkScan { scanner : TerminalQueryScanner; emitted_end : nat; sink : list ScannedSegment }.

End Classification.

#[export] Hint Extern 0 (@Setter TerminalQueryScanner _ ?getter) =>
  mk_setter (fun s : TerminalQueryScanner => mkScanner (scan_pending s) (scan_head s) (scan_cursor s)
    (candidate_start s) (scan_state s) (discarding s)) getter : typeclass_instances.
#[export] Hint Extern 0 (@Setter Scan _ ?getter) =>
  mk_setter (fun s : Scan => mkScan (scanner s) (emitted_end s) (sink s)) getter : typeclass_instances.

Section Scanning.
Context `{External}.

(** [&pending[start..end]] panics unless [start <= end <= len]. *)
Definition slice (bytes : list Z) (start end_ : nat) : option (list Z) :=
  if bool_decide (start ≤ end_ ∧ end_ ≤ length bytes)%nat then Some (take (end_ - start) (drop start bytes))
  else None.

Definition cursor_of (s : Scan) : nat := scan_cursor (scanner s).

Definition set_state (state : ScanState) (s : Scan) : Scan :=
  s{{ scanner := (scanner s){{ scan_state := state }} }}.
Definition advance (s : Scan) : Scan :=
  s{{ scanner := (scanner s){{ scan_cursor := S (cursor_of s) }} }}.
Definition set_candidate (start : option nat) (s : Scan) : Scan :=
  s{{ scanner := (scanner s){{ candidate_start := start }} }}.
Definition set_emitted (end_ : nat) (s : Scan) : Scan := s{{ emitted_end := end_ }}.
Definition push_segment (segment : ScannedSegment) (s : Scan) : Scan :=
  s{{ sink := sink s ++ [segment] }}.

Definition push_bytes (start end_ : nat) (s : Scan) : option Scan :=
  if bool_decide (start < end_)%nat
  then (λ bytes, push_segment (SegmentBytes bytes) s) <$> slice (scan_pending (scanner s)) start end_
  else Some s.

Definition push_control (start end_ : nat) (family : ControlFamily) (s : Scan) : option Scan :=
  (λ bytes, push_segment (SegmentControl family bytes (classify_control family bytes)) s)
    <$> slice (scan_pending (scanner s)) start end_.

(** [*emitted_end = self.finish_control(sink, end, family)] *)
Definition finish_control (end_ : nat) (family : ControlFamily) (s : Scan) : option Scan :=
  start ← candidate_start (scanner s);
  s ← push_control start end_ family (set_candidate None s);
  Some (set_emitted end_ (set_state ScanGround s)).

(** [*emitted_end = self.finish_cancelled(sink, end)] *)
Definition finish_cancelled (end_ : nat) (s : Scan) : option Scan :=
  start ← candidate_start (scanner s);
  s ← (if bool_decide (start < end_)%nat
       then (λ bytes, push_segment (SegmentControl FamilyOther bytes SemCancelled) s)
              <$> slice (scan_pending (scanner s)) start end_
       else Some s);
  Some (set_emitted end_ (set_state ScanGround (set_candidate None s))).

Definition begin_candidate (state : ScanState) (s : Scan) : option Scan :=
  s ← push_bytes (emitted_end s) (cursor_of s) s;
  Some (advance (set_state state (set_candidate (Some (cursor_of s)) (set_emitted (cursor_of s) s)))).

Definition emit_single_control (family : ControlFamily) (s : Scan) : option Scan :=
  s ← push_bytes (emitted_end s) (cursor_of s) s;
  s ← push_control (cursor_of s) (S (cursor_of s)) family s;
  Some (advance (set_emitted (S (cursor_of s)) s)).

Definition step_ground (byte : Z) (s : Scan) : option Scan :=
  if byte =? 5 then emit_single_control FamilyEnq s
  else if byte =? 27 then begin_candidate ScanEscape s
  else if byte =? 155 then begin_candidate ScanCsi s
  else if byte =? 157 then begin_candidate (ScanBody BodyOsc) s
  else if byte =? 144 then begin_candidate (ScanBody BodyDcs) s
  else if (byte =? 152) || (byte =? 158) || (byte =? 159) then begin_candidate (ScanBody BodyString) s
  else if byte =? 156 then emit_single_control FamilyOther s
  else if byte =? 194 then begin_candidate ScanUtf8C1 s
  else if between 195 223 byte then begin_candidate (ScanUtf8Text 1 128 191) s
  else if byte =? 224 then begin_candidate (ScanUtf8Text 2 160 191) s
  else if between 225 236 byte || between 238 239 byte then begin_candidate (ScanUtf8Text 2 128 191) s
  else if byte =? 237 then begin_candidate (ScanUtf8Text 2 128 159) s
  else if byte =? 240 then begin_candidate (ScanUtf8Text 3 144 191) s
  else if between 241 243 byte then begin_candidate (ScanUtf8Text 3 128 191) s
  else if byte =? 244 then begin_candidate (ScanUtf8Text 3 128 143) s
  else Some (advance s).

Definition is_string_introducer (byte : Z) : bool := (byte =? 152) || (byte =? 158) || (byte =? 159).
Definition is_c1_introducer (byte : Z) : bool :=
  (byte =? 155) || (byte =? 157) || (byte =? 144) || is_string_introducer byte || (byte =? 156).

Definition state_for_c1_control (byte : Z) : ScanState :=
  if byte =? 155 then ScanCsi else if byte =? 157 then ScanBody BodyOsc
  else if byte =? 144 then ScanBody BodyDcs else if byte =? 156 then ScanGround
  else ScanBody BodyString.

Definition step_escape (byte : Z) (s : Scan) : option Scan :=
  let s := advance s in
  if (byte =? 24) || (byte =? 26) then finish_cancelled (cursor_of s) s
  else if byte =? 91 then Some (set_state ScanCsi s)
  else if byte =? 93 then Some (set_state (ScanBody BodyOsc) s)
  else if byte =? 80 then Some (set_state (ScanBody BodyDcs) s)
  else if (byte =? 88) || (byte =? 94) || (byte =? 95) then Some (set_state (ScanBody BodyString) s)
  else finish_control (cursor_of s) FamilyOther s.

Definition finish_invalid_utf8 (s : Scan) : option Scan :=
  start ← candidate_start (scanner s);
  s ← push_bytes start (cursor_of s) (set_candidate None s);
  Some (set_state ScanGround (set_emitted (cursor_of s) s)).

(** The steps that return [bool] in the source: [true] goes straight to the
    next round. *)
Definition again (s : option Scan) : option (Scan * bool) := (λ s, (s, true)) <$> s.
Definition done_ (s : option Scan) : option (Scan * bool) := (λ s, (s, false)) <$> s.

Definition step_utf8_c1 (byte : Z) (s : Scan) : option (Scan * bool) :=
  if negb (between 128 191 byte) then again (finish_invalid_utf8 s)
  else done_
    (let s := advance s in
     if byte =? 156 then finish_control (cursor_of s) FamilyOther s
     else if is_c1_introducer byte then Some (set_state (state_for_c1_control byte) s)
     else Some (set_candidate None (set_state ScanGround s))).

Definition step_utf8_text (remaining : nat) (next_min next_max byte : Z) (s : Scan) : option (Scan * bool) :=
  if negb (between next_min next_max byte) then again (finish_invalid_utf8 s)
  else done_
    (let s := advance s in
     Some (if bool_decide (remaining = 1%nat) then set_state ScanGround (set_candidate None s)
           else set_state (ScanUtf8Text (remaining - 1) 128 191) s)).

(** Cancels the candidate at the cursor and starts the next one there. *)
Definition restart_candidate (state : ScanState) (s : Scan) : option Scan :=
  s ← finish_cancelled (cursor_of s) s;
  Some (advance (set_state state (set_candidate (Some (cursor_of s)) s))).

Definition step_csi (byte : Z) (s : Scan) : option (Scan * bool) :=
  done_
    (if (byte =? 24) || (byte =? 26) then let s := advance s in finish_cancelled (cursor_of s) s
     else if byte =? 27 then restart_candidate ScanEscape s
     else if is_c1_introducer byte then
       s ← restart_candidate (state_for_c1_control byte) s;
       if byte =? 156 then finish_control (cursor_of s) FamilyOther s else Some s
     else if byte =? 194 then restart_candidate ScanCsiUtf8C1 s
     else
       let s := advance s in
       if between 64 126 byte then finish_control (cursor_of s) FamilyCsi s else Some s).

Definition step_csi_utf8_c1 (byte : Z) (s : Scan) : option (Scan * bool) :=
  if byte =? 155 then Some (set_state ScanCsi (advance s), false)
  else Some (set_state ScanUtf8C1 s, true).

Definition step_string_body (kind : StringBody) (byte : Z) (s : Scan) : option (Scan * bool) :=
  done_
    (let s := advance s in
     if (byte =? 24) || (byte =? 26) then finish_cancelled (cursor_of s) s
     else if (byte =? 7) && bel_terminates kind then finish_control (cursor_of s) (body_family kind) s
     else if byte =? 156 then finish_control (cursor_of s) (body_family kind) s
     else if byte =? 27 then Some (set_state (ScanBodyEscape kind) s)
     else if byte =? 194 then Some (set_state (ScanBodyUtf8C1 kind) s)
     else Some s).

Definition checked_sub_1 (n : nat) : option nat := match n with O => None | S n => Some n end.

Definition step_string_escape (kind : StringBody) (byte : Z) (s : Scan) : option (Scan * bool) :=
  done_
    (if byte =? 92 then let s := advance s in finish_control (cursor_of s) (body_family kind) s
     else if (byte =? 24) || (byte =? 26) then let s := advance s in finish_cancelled (cursor_of s) s
     else if byte =? 27 then restart_candidate ScanEscape s
     else
       escape ← checked_sub_1 (cursor_of s);
       s ← finish_cancelled escape s;
       Some (set_state ScanEscape (set_candidate (Some escape) s))).

Definition step_string_utf8_c1 (kind : StringBody) (byte : Z) (s : Scan) : option (Scan * bool) :=
  if negb (between 128 191 byte) then Some (set_state (ScanBody kind) s, true)
  else done_
    (let s := advance s in
     if byte =? 156 then finish_control (cursor_of s) (body_family kind) s
     else Some (set_state (ScanBody kind) s)).

Definition step (byte : Z) (s : Scan) : option (Scan * bool) :=
  match scan_state (scanner s) with
  | ScanGround => done_ (step_ground byte s)
  | ScanEscape => done_ (step_escape byte s)
  | ScanUtf8C1 => step_utf8_c1 byte s
  | ScanUtf8Text remaining next_min next_max => step_utf8_text remaining next_min next_max byte s
  | ScanCsi => step_csi byte s
  | ScanCsiUtf8C1 => step_csi_utf8_c1 byte s
  | ScanBody kind => step_string_body kind byte s
  | ScanBodyEscape kind => step_string_escape kind byte s
  | ScanBodyUtf8C1 kind => step_string_utf8_c1 kind byte s
  end.

(** ** Discarding an oversized control *)

Definition set_discarding (b : bool) (s : Scan) : Scan :=
  s{{ scanner := (scanner s){{ discarding := b }} }}.

Definition finish_discarding_byte (s : Scan) : Scan :=
  let s := advance s in set_discarding false (set_state ScanGround (set_emitted (cursor_of s) s)).

Definition step_discarding_csi (byte : Z) (s : Scan) : option Scan :=
  if (byte =? 24) || (byte =? 26) || between 64 126 byte then Some (finish_discarding_byte s)
  else if byte =? 27 then
    Some (advance (set_discarding false (set_state ScanEscape
      (set_candidate (Some (cursor_of s)) (set_emitted (cursor_of s) s)))))
  else if is_c1_introducer byte then
    let s := advance (set_discarding false (set_state (state_for_c1_control byte)
      (set_candidate (Some (cursor_of s)) (set_emitted (cursor_of s) s)))) in
    if byte =? 156 then finish_control (cursor_of s) FamilyOther s else Some s
  else if byte =? 194 then
    Some (advance (set_state ScanCsiUtf8C1 (set_candidate (Some (cursor_of s)) s)))
  else Some (advance s).

Definition step_discarding_csi_utf8_c1 (byte : Z) (s : Scan) : option Scan :=
  if is_c1_introducer byte then
    let s := advance (set_discarding false (set_state (state_for_c1_control byte) s)) in
    if byte =? 156 then finish_control (cursor_of s) FamilyOther s else Some s
  else
    let s := set_state ScanCsi (set_candidate None s) in
    Some (if between 128 191 byte then advance s else s).

Definition step_discarding_string_body (kind : StringBody) (byte : Z) (s : Scan) : Scan :=
  if (byte =? 24) || (byte =? 26) || (byte =? 156) then finish_discarding_byte s
  else if (byte =? 7) && bel_terminates kind then finish_discarding_byte s
  else if byte =? 27 then advance (set_state (ScanBodyEscape kind) s)
  else if byte =? 194 then advance (set_state (ScanBodyUtf8C1 kind) s)
  else advance s.

(** [self.cursor - 1] is checked: in a build without overflow checks it wraps
    around, and the next slice is out of range. *)
Definition step_discarding_string_escape (byte : Z) (s : Scan) : option Scan :=
  if byte =? 92 then Some (finish_discarding_byte s)
  else
    start ← (if byte =? 27 then Some (cursor_of s) else checked_sub_1 (cursor_of s));
    let s := set_discarding false (set_state ScanEscape (set_candidate (Some start) (set_emitted start s))) in
    Some (if byte =? 27 then advance s else s).

Definition step_discarding_string_utf8_c1 (kind : StringBody) (byte : Z) (s : Scan) : Scan :=
  if negb (between 128 191 byte) then set_state (ScanBody kind) s
  else
    let s := advance s in
    if byte =? 156 then set_discarding false (set_state ScanGround (set_emitted (cursor_of s) s))
    else set_state (ScanBody kind) s.

Definition step_discarding (byte : Z) (s : Scan) : option Scan :=
  match scan_state (scanner s) with
  | ScanCsi => step_discarding_csi byte s
  | ScanCsiUtf8C1 => step_discarding_csi_utf8_c1 byte s
  | ScanBody kind => Some (step_discarding_string_body kind byte s)
  | ScanBodyEscape _ => step_discarding_string_escape byte s
  | ScanBodyUtf8C1 kind => Some (step_discarding_string_utf8_c1 kind byte s)
  | _ => Some (finish_discarding_byte s)
  end.

(** ** Chunks *)

Definition compact_live_tail (t : TerminalQueryScanner) : TerminalQueryScanner :=
  let consumed := scan_head t in
  if bool_decide (consumed = 0%nat) then t
  else t{{ scan_pending := drop consumed (scan_pending t); scan_cursor := (scan_cursor t - consumed)%nat;
           candidate_start := (λ start, (start - consumed)%nat) <$> candidate_start t; scan_head := 0%nat }}.

(** [capacity] is the capacity of the pending vector. *)
Definition compact_before_append (capacity additional : nat) (t : TerminalQueryScanner)
    : TerminalQueryScanner :=
  let required := (length (scan_pending t) + additional)%nat in
  if bool_decide (scan_head t = 0%nat) then t
  else if bool_decide (required ≤ capacity)%nat && (Z.of_nat required <=? MAX_PENDING) then t
  else compact_live_tail t.

(** The check after a step: a candidate over the limit is discarded. *)
Definition limit_candidate (s : Scan) : Scan :=
  match candidate_start (scanner s) with
  | None => s
  | Some start =>
      if MAX_PENDING <=? Z.of_nat (cursor_of s - start) then
        let t := compact_live_tail ((scanner s){{ scan_head := cursor_of s }}) in
        mkScan (t{{ candidate_start := None; discarding := true }}) 0 (sink s)
      else s
  end.

Definition scan_round (byte : Z) (s : Scan) : option Scan :=
  if discarding (scanner s) then step_discarding byte s
  else '(s, again) ← step byte s; Some (if again : bool then s else limit_candidate s).

(** [while self.cursor < self.pending.len()]: at most two rounds leave the
    cursor where it is before one moves it. *)
Fixpoint scan_loop (fuel : nat) (s : Scan) : option Scan :=
  match scan_pending (scanner s) !! cursor_of s with
  | None => Some s
  | Some byte => match fuel with O => None | S fuel => scan_round byte s ≫= scan_loop fuel end
  end.

Definition settle (s : Scan) : TerminalQueryScanner :=
  let t := scanner s in
  let t := if bool_decide (scan_head t < emitted_end s)%nat then t{{ scan_head := emitted_end s }} else t in
  let t := if discarding t && bool_decide (scan_head t < scan_cursor t)%nat
           then t{{ scan_head := scan_cursor t }} else t in
  if bool_decide (scan_head t = length (scan_pending t))
  then t{{ scan_pending := []; scan_head := 0%nat; scan_cursor := 0%nat; candidate_start := None }} else t.

Definition is_ground (state : ScanState) : bool := match state with ScanGround => true | _ => false end.

(** The bytes left in the ground state are text. *)
Definition flush_ground (s : Scan) : option Scan :=
  if is_ground (scan_state (scanner s)) then
    let end_ := length (scan_pending (scanner s)) in set_emitted end_ <$> push_bytes (emitted_end s) end_ s
  else Some s.

Definition process_inner (capacity : nat) (bytes : list Z) (t : TerminalQueryScanner)
    : option (TerminalQueryScanner * list ScannedSegment) :=
  let t := compact_before_append capacity (length bytes) t in
  let t := t{{ scan_pending := scan_pending t ++ bytes }} in
  s ← scan_loop (3 * length (scan_pending t) + 3) (mkScan t (scan_head t) []);
  s ← flush_ground s;
  Some (settle s, sink s).

(** The size of the next piece of [rest]. *)
Definition chunk_len (rest : list Z) (t : TerminalQueryScanner) : nat :=
  let live_len := Z.of_nat (length (scan_pending t) - scan_head t) in
  let available := Z.max (MAX_PENDING - live_len) 1 in
  Z.to_nat (Z.min (Z.min (len rest) (8 * 1024)) available).

(** [process_with_sink]; [capacities] gives the capacity of the pending vector
    at each append. A piece has at least one byte. *)
Fixpoint process_loop (fuel : nat) (capacities : nat → nat) (bytes : list Z) (t : TerminalQueryScanner)
    : option (TerminalQueryScanner * list ScannedSegment) :=
  match bytes with
  | [] => Some (t, [])
  | _ :: _ =>
      match fuel with
      | O => None
      | S fuel =>
          let n := chunk_len bytes t in
          '(t, segments) ← process_inner (capacities 0%nat) (take n bytes) t;
          '(t, segments') ← process_loop fuel (λ i, capacities (S i)) (drop n bytes) t;
          Some (t, segments ++ segments')
      end
  end.

Definition process_with_sink (capacities : nat → nat) (bytes : list Z) (t : TerminalQueryScanner)
    : option (TerminalQueryScanner * list ScannedSegment) :=
  process_loop (length bytes) capacities bytes t.

Definition discard_incomplete (t : TerminalQueryScanner) : TerminalQueryScanner := new_scanner.

End Scanning.

(** ** What the runtime does with a control for its modes

    [emit_control_event] and [feed_event_into] of [terminal.rs], as far as
    they concern the mode tracker, for a runtime whose host stream is
    captured. *)

Section RuntimeModes.
Context (enable_kitty_keyboard : bool).

(** Controls with a response of their own, and those that are dropped, do not
    reach the tracker; a control that is shown does when it may change modes. *)
Definition track_control (bytes : list Z) (semantic : SemanticControl) (t : TerminalModeTracker)
    : option Emitted :=
  match semantic with
  | SemSynchronizedOutputMode sequence => Some (apply_private_mode_sequence sequence t)
  | SemKittyKeyboardMode sequence =>
      Some (if enable_kitty_keyboard then apply_kitty_keyboard_sequence sequence t else (t, []))
  | SemKeyModifierOptionsSequence sequence => Some (apply_key_modifier_options_sequence sequence t)
  | SemUnknown => if framed_control_may_change_modes bytes then process bytes t else Some (t, [])
  | SemOsc8Hyperlink | SemDeviceAttributesResponse =>
      if framed_control_may_change_modes bytes
      then (λ t, (t, [])) <$> process_without_emitting bytes t else Some (t, [])
  | _ => Some (t, [])
  end.

Definition track_segment (segment : ScannedSegment) (t : TerminalModeTracker) : option Emitted :=
  match segment with
  | SegmentBytes _ => Some (t, [])
  | SegmentControl _ bytes semantic => track_control bytes semantic t
  end.

Fixpoint track_segments (segments : list ScannedSegment) (t : TerminalModeTracker) : option Emitted :=
  match segments with
  | [] => Some (t, [])
  | segment :: segments =>
      '(t, changes) ← track_segment segment t;
      '(t, changes') ← track_segments segments t; Some (t, changes ++ changes')
  end.

(** One chunk of output: scanned, and its controls tracked. *)
Definition feed_modes `{External} (capacities : nat → nat) (bytes : list Z)
    (r : TerminalQueryScanner * TerminalModeTracker)
    : option (TerminalQueryScanner * TerminalModeTracker * list TerminalModeChange) :=
  '(scanner, segments) ← process_with_sink capacities bytes r.1;
  '(tracker, changes) ← track_segments segments r.2;
  Some (scanner, tracker, changes).
End RuntimeModes.

(** ** The filter of visible output ([visible_output.rs]) *)

Inductive VisibleOutputState :=
| VisibleGround
| VisibleUtf8C1Lead
| VisibleUtf8Text (remaining : nat)
| VisibleEscape
| VisibleCsi
| VisibleOsc
| VisibleOscEscape
| VisibleOscUtf8C1
| VisibleStString
| VisibleStStringEscape
| VisibleStStringUtf8C1.

Definition process_ground_byte (byte : Z) : VisibleOutputState * list Z :=
  if bool_decide (byte ∈ [7; 0; 24; 26]) then (VisibleGround, [])
  else if byte =? 27 then (VisibleEscape, [])
  else if byte =? 194 then (VisibleUtf8C1Lead, [])
  else if between 195 223 byte then (VisibleUtf8Text 1, [byte])
  else if between 224 239 byte then (VisibleUtf8Text 2, [byte])
  else if between 240 244 byte then (VisibleUtf8Text 3, [byte])
  else if bool_decide (byte ∈ [144; 152; 158; 159]) then (VisibleStString, [])
  else if byte =? 155 then (VisibleCsi, [])
  else if byte =? 157 then (VisibleOsc, [])
  else (VisibleGround, [byte]).

Definition process_c1_control (byte : Z) : VisibleOutputState :=
  if bool_decide (byte ∈ [144; 152; 158; 159]) then VisibleStString
  else if byte =? 155 then VisibleCsi else if byte =? 157 then VisibleOsc else VisibleGround.

Definition process_osc_byte (byte : Z) : VisibleOutputState :=
  if bool_decide (byte ∈ [7; 156; 24; 26]) then VisibleGround
  else if byte =? 27 then VisibleOscEscape else if byte =? 194 then VisibleOscUtf8C1 else VisibleOsc.

Definition process_st_string_byte (byte : Z) : VisibleOutputState :=
  if bool_decide (byte ∈ [156; 24; 26]) then VisibleGround
  else if byte =? 27 then VisibleStStringEscape
  else if byte =? 194 then VisibleStStringUtf8C1 else VisibleStString.

Definition process_escape_byte (byte : Z) : VisibleOutputState :=
  if byte =? 91 then VisibleCsi else if byte =? 93 then VisibleOsc
  else if bool_decide (byte ∈ [80; 88; 94; 95]) then VisibleStString else VisibleGround.

Definition process_byte (byte : Z) (state : VisibleOutputState) : VisibleOutputState * list Z :=
  match state with
  | VisibleGround => process_ground_byte byte
  | VisibleUtf8C1Lead =>
      if between 128 159 byte then (process_c1_control byte, [])
      else let '(state, out) := process_ground_byte byte in (state, 194 :: out)
  | VisibleUtf8Text remaining =>
      if is_utf8_continuation byte then
        (if bool_decide (1 < remaining)%nat then VisibleUtf8Text (remaining - 1) else VisibleGround, [byte])
      else process_ground_byte byte
  | VisibleEscape => (process_escape_byte byte, [])
  | VisibleCsi =>
      (if (byte =? 24) || (byte =? 26) || between 64 126 byte then VisibleGround else VisibleCsi, [])
  | VisibleOsc => (process_osc_byte byte, [])
  | VisibleOscEscape => (if byte =? 92 then VisibleGround else process_osc_byte byte, [])
  | VisibleOscUtf8C1 => (if byte =? 156 then VisibleGround else process_osc_byte byte, [])
  | VisibleStString => (process_st_string_byte byte, [])
  | VisibleStStringEscape => (if byte =? 92 then VisibleGround else process_st_string_byte byte, [])
  | VisibleStStringUtf8C1 => (if byte =? 156 then VisibleGround else process_st_string_byte byte, [])
  end.

Definition byte_requires_visible_state_machine (byte : Z) : bool :=
  bool_decide (byte ∈ [0; 7; 24; 26; 27; 144; 152; 155; 157; 158; 159]) || between 194 244 byte.

Fixpoint process_bytes (bytes : list Z) (state : VisibleOutputState) : VisibleOutputState * list Z :=
  match bytes with
  | [] => (state, [])
  | byte :: bytes =>
      let '(state, out) := process_byte byte state in
      let '(state, out') := process_bytes bytes state in (state, out ++ out')
  end.

Definition process_into (bytes : list Z) (state : VisibleOutputState) : VisibleOutputState * list Z :=
  if match state with VisibleGround => true | _ => false end
     && negb (existsb byte_requires_visible_state_machine bytes)
  then (state, bytes) else process_bytes bytes state.
