(* ===== verification/QueriesFacts.v ===== *)
(** What the scanner promises ([Queries]): for controls within the limit it
    refines an automaton that reads one byte at a time, so that its output
    does not depend on the chunks, the pieces they are cut into or the
    compaction of its buffer, loses no byte and never panics. Past the limit
    it can panic at the end of a chunk. *)
From coqutil Require Import Datatypes.RecordSetters.
From S2P Require Import Prelude Text Launch Csi Parse Grid Screen Utf8 RuntimeApi Modes ModesFacts Queries Control Concrete.
Import DoubleBraceUpdate.

Local Open Scope Z_scope.

(** ** The automaton *)

(** A byte of text, or a complete control. *)
Inductive ScanEvent :=
| TextByte (byte : Z)
| ControlEvent (family : ControlFamily) (bytes : list Z) (semantic : SemanticControl).

(** The state and the bytes of the control that is being read. *)
Record Automaton := mkAuto { auto_state : ScanState; auto_held : list Z }.

Definition ground : Automaton := mkAuto ScanGround [].

Section Automata.
Context `{External}.

Definition control (family : ControlFamily) (bytes : list Z) : list ScanEvent :=
  [ControlEvent family bytes (classify_control family bytes)].

Definition cancelled (bytes : list Z) : list ScanEvent :=
  if bool_decide (bytes = []) then [] else [ControlEvent FamilyOther bytes SemCancelled].

Definition texts (bytes : list Z) : list ScanEvent := TextByte <$> bytes.

(** The state a byte leads to from the ground, when it begins something. *)
Definition ground_candidate (byte : Z) : option ScanState :=
  if byte =? 27 then Some ScanEscape else if byte =? 155 then Some ScanCsi
  else if byte =? 157 then Some (ScanBody BodyOsc) else if byte =? 144 then Some (ScanBody BodyDcs)
  else if is_string_introducer byte then Some (ScanBody BodyString)
  else if byte =? 194 then Some ScanUtf8C1
  else if between 195 223 byte then Some (ScanUtf8Text 1 128 191)
  else if byte =? 224 then Some (ScanUtf8Text 2 160 191)
  else if between 225 236 byte || between 238 239 byte then Some (ScanUtf8Text 2 128 191)
  else if byte =? 237 then Some (ScanUtf8Text 2 128 159)
  else if byte =? 240 then Some (ScanUtf8Text 3 144 191)
  else if between 241 243 byte then Some (ScanUtf8Text 3 128 191)
  else if byte =? 244 then Some (ScanUtf8Text 3 128 143)
  else None.

(** One step: the next state, what is emitted, and whether the byte is used
    up. *)
Definition auto_step (byte : Z) (a : Automaton) : Automaton * list ScanEvent * bool :=
  let held := auto_held a in
  let more := held ++ [byte] in
  match auto_state a with
  | ScanGround =>
      if byte =? 5 then (ground, control FamilyEnq [byte], true)
      else if byte =? 156 then (ground, control FamilyOther [byte], true)
      else match ground_candidate byte with
           | Some state => (mkAuto state [byte], [], true)
           | None => (ground, texts [byte], true)
           end
  | ScanEscape =>
      if (byte =? 24) || (byte =? 26) then (ground, cancelled more, true)
      else if byte =? 91 then (mkAuto ScanCsi more, [], true)
      else if byte =? 93 then (mkAuto (ScanBody BodyOsc) more, [], true)
      else if byte =? 80 then (mkAuto (ScanBody BodyDcs) more, [], true)
      else if (byte =? 88) || (byte =? 94) || (byte =? 95) then (mkAuto (ScanBody BodyString) more, [], true)
      else (ground, control FamilyOther more, true)
  | ScanUtf8C1 =>
      if negb (between 128 191 byte) then (ground, texts held, false)
      else if byte =? 156 then (ground, control FamilyOther more, true)
      else if is_c1_introducer byte then (mkAuto (state_for_c1_control byte) more, [], true)
      else (ground, texts more, true)
  | ScanUtf8Text remaining next_min next_max =>
      if negb (between next_min next_max byte) then (ground, texts held, false)
      else if bool_decide (remaining = 1%nat) then (ground, texts more, true)
      else (mkAuto (ScanUtf8Text (remaining - 1) 128 191) more, [], true)
  | ScanCsi =>
      if (byte =? 24) || (byte =? 26) then (ground, cancelled more, true)
      else if byte =? 27 then (mkAuto ScanEscape [byte], cancelled held, true)
      else if byte =? 156 then (ground, cancelled held ++ control FamilyOther [byte], true)
      else if is_c1_introducer byte then (mkAuto (state_for_c1_control byte) [byte], cancelled held, true)
      else if byte =? 194 then (mkAuto ScanCsiUtf8C1 [byte], cancelled held, true)
      else if between 64 126 byte then (ground, control FamilyCsi more, true)
      else (mkAuto ScanCsi more, [], true)
  | ScanCsiUtf8C1 =>
      if byte =? 155 then (mkAuto ScanCsi more, [], true) else (mkAuto ScanUtf8C1 held, [], false)
  | ScanBody kind =>
      if (byte =? 24) || (byte =? 26) then (ground, cancelled more, true)
      else if ((byte =? 7) && bel_terminates kind) || (byte =? 156)
      then (ground, control (body_family kind) more, true)
      else if byte =? 27 then (mkAuto (ScanBodyEscape kind) more, [], true)
      else if byte =? 194 then (mkAuto (ScanBodyUtf8C1 kind) more, [], true)
      else (mkAuto (ScanBody kind) more, [], true)
  | ScanBodyEscape kind =>
      if byte =? 92 then (ground, control (body_family kind) more, true)
      else if (byte =? 24) || (byte =? 26) then (ground, cancelled more, true)
      else if byte =? 27 then (mkAuto ScanEscape [byte], cancelled held, true)
      else
        let escape := (length held - 1)%nat in
        (mkAuto ScanEscape (drop escape held), cancelled (take escape held), false)
  | ScanBodyUtf8C1 kind =>
      if negb (between 128 191 byte) then (mkAuto (ScanBody kind) held, [], false)
      else if byte =? 156 then (ground, control (body_family kind) more, true)
      else (mkAuto (ScanBody kind) more, [], true)
  end.

(** A byte is used up in at most three steps. *)
Definition auto_byte (byte : Z) (a : Automaton) : Automaton * list ScanEvent :=
  let '(a1, e1, used1) := auto_step byte a in
  if used1 : bool then (a1, e1)
  else
    let '(a2, e2, used2) := auto_step byte a1 in
    if used2 : bool then (a2, e1 ++ e2)
    else let '(a3, e3, _) := auto_step byte a2 in (a3, e1 ++ e2 ++ e3).

Fixpoint auto_run (bytes : list Z) (a : Automaton) : Automaton * list ScanEvent :=
  match bytes with
  | [] => (a, [])
  | byte :: bytes =>
      let '(a, events) := auto_byte byte a in
      let '(a, events') := auto_run bytes a in (a, events ++ events')
  end.

(** No control of the input reaches the limit. *)
Fixpoint fits (bytes : list Z) (a : Automaton) : Prop :=
  match bytes with
  | [] => True
  | byte :: bytes =>
      let a' := (auto_byte byte a).1 in len (auto_held a') < MAX_PENDING ∧ fits bytes a'
  end.

Lemma auto_run_app u v a :
  auto_run (u ++ v) a
  = let '(a, events) := auto_run u a in let '(a, events') := auto_run v a in (a, events ++ events').
Proof.
  revert a. induction u as [|b u IH]; intros a; cbn; [by destruct (auto_run v a)|].
  destruct (auto_byte b a) as [a1 e1]. rewrite IH. destruct (auto_run u a1) as [a2 e2].
  destruct (auto_run v a2) as [a3 e3]. by rewrite app_assoc.
Qed.

Lemma fits_app u v a : fits (u ++ v) a ↔ fits u a ∧ fits v (auto_run u a).1.
Proof.
  revert a. induction u as [|b u IH]; intros a; cbn; [tauto|].
  destruct (auto_byte b a) as [a1 e1]. cbn. rewrite IH. destruct (auto_run u a1). cbn. tauto.
Qed.

(** ** Every byte comes out once *)

Definition event_bytes (e : ScanEvent) : list Z :=
  match e with TextByte b => [b] | ControlEvent _ bytes _ => bytes end.

Definition scan_bytes (events : list ScanEvent) : list Z := events ≫= event_bytes.

Lemma scan_bytes_app es es' : scan_bytes (es ++ es') = scan_bytes es ++ scan_bytes es'.
Proof. apply bind_app. Qed.

Lemma scan_bytes_texts l : scan_bytes (texts l) = l.
Proof. induction l as [|b l IH]; [done|]. unfold scan_bytes, texts in *. cbn. by rewrite IH. Qed.

Lemma scan_bytes_control family l : scan_bytes (control family l) = l.
Proof. apply app_nil_r. Qed.

Lemma scan_bytes_cancelled l : scan_bytes (cancelled l) = l.
Proof. unfold cancelled. case_bool_decide as Hl; [by subst|]. apply app_nil_r. Qed.

(** In the ground state nothing is held. *)
Definition auto_ok (a : Automaton) : Prop := is_ground (auto_state a) = true → auto_held a = [].

Lemma state_for_c1_not_ground b : b ≠ 156 → is_ground (state_for_c1_control b) = false.
Proof. intros Hb. unfold state_for_c1_control. repeat case_match; try done. lia. Qed.

Lemma ground_candidate_not_ground b st : ground_candidate b = Some st → is_ground st = false.
Proof. unfold ground_candidate. repeat case_match; by intros [= <-]. Qed.

Lemma auto_step_spec b a :
  auto_ok a →
  let '(a', es, used) := auto_step b a in
  auto_ok a' ∧ auto_held a ++ (if used : bool then [b] else []) = scan_bytes es ++ auto_held a'.
Proof.
  intros Hok. unfold auto_step, auto_ok.
  destruct a as [st held]. destruct st; cbn [auto_state auto_held] in *.
  1: assert (held = []) as -> by (by apply Hok).
  all: repeat case_match; simplify_eq; cbn [auto_state auto_held is_ground ground].
  all: rewrite ?scan_bytes_app, ?scan_bytes_texts, ?scan_bytes_control, ?scan_bytes_cancelled, ?app_nil_r, ?app_nil_l.
  all: try (split; [done|]); try done.
  all: repeat match goal with
    | Hc : ground_candidate _ = Some _ |- _ => apply ground_candidate_not_ground in Hc
    end.
  all: try (rewrite state_for_c1_not_ground by lia).
  all: try (by split; [congruence|]); try by rewrite take_drop.
Qed.
End Automata.

Section Lossless.
Context `{External}.

(** Steps that do not use the byte come to an end. *)
Definition rank (a : Automaton) : nat :=
  match auto_state a with
  | ScanCsiUtf8C1 => 2
  | ScanUtf8C1 | ScanUtf8Text _ _ _ | ScanBodyEscape _ | ScanBodyUtf8C1 _ => 1
  | _ => 0
  end.

Lemma auto_step_unused b a :
  let '(a', es, used) := auto_step b a in
  used = false → (rank a' < rank a)%nat ∧ (length (auto_held a') ≤ length (auto_held a))%nat.
Proof.
  unfold auto_step. destruct a as [st held]. destruct st; cbn [auto_state auto_held].
  all: repeat case_match; simplify_eq; try done; intros _; cbn; rewrite ?length_drop; lia.
Qed.

Lemma rank_bound a : (rank a ≤ 2)%nat.
Proof. destruct a as [[] ?]; cbn; lia. Qed.

Lemma auto_byte_spec b a :
  auto_ok a →
  let '(a', es) := auto_byte b a in auto_ok a' ∧ auto_held a ++ [b] = scan_bytes es ++ auto_held a'.
Proof.
  intros Hok. unfold auto_byte. pose proof (auto_step_spec b a Hok) as H1. pose proof (auto_step_unused b a) as U1.
  destruct (auto_step b a) as [[a1 e1] [|]]; [done|]. rewrite app_nil_r in H1. destruct H1 as [Hok1 ->].
  specialize (U1 eq_refl). pose proof (rank_bound a). pose proof (auto_step_spec b a1 Hok1) as H2.
  pose proof (auto_step_unused b a1) as U2. destruct (auto_step b a1) as [[a2 e2] [|]].
  - destruct H2 as [Hok2 H2]. split; [done|]. by rewrite scan_bytes_app, <- !app_assoc, H2.
  - specialize (U2 eq_refl). rewrite app_nil_r in H2. destruct H2 as [Hok2 ->].
    pose proof (auto_step_spec b a2 Hok2) as H3. pose proof (auto_step_unused b a2) as U3.
    destruct (auto_step b a2) as [[a3 e3] [|]]; [|specialize (U3 eq_refl); lia].
    destruct H3 as [Hok3 H3]. split; [done|]. by rewrite !scan_bytes_app, <- !app_assoc, H3.
Qed.

(** What the automaton emitted and what it holds is what it read. *)
Lemma auto_lossless bytes a :
  auto_ok a →
  let '(a', es) := auto_run bytes a in auto_ok a' ∧ auto_held a ++ bytes = scan_bytes es ++ auto_held a'.
Proof.
  revert a. induction bytes as [|b bytes IH]; intros a Hok; cbn; [by rewrite app_nil_r|].
  pose proof (auto_byte_spec b a Hok) as Hb. destruct (auto_byte b a) as [a1 e1]. destruct Hb as [Hok1 H1].
  specialize (IH a1 Hok1). destruct (auto_run bytes a1) as [a2 e2]. destruct IH as [Hok2 H2]. split; [done|].
  by rewrite scan_bytes_app, <- app_assoc, <- H2, cons_middle, app_assoc, H1, <- app_assoc.
Qed.
End Lossless.

(** ** The scanner follows the automaton *)

Section Refinement.
Context `{External}.

Definition segment_events (segment : ScannedSegment) : list ScanEvent :=
  match segment with
  | SegmentBytes bytes => texts bytes
  | SegmentControl family bytes semantic => [ControlEvent family bytes semantic]
  end.

Definition events_of (segments : list ScannedSegment) : list ScanEvent := segments ≫= segment_events.

Lemma events_of_app ss ss' : events_of (ss ++ ss') = events_of ss ++ events_of ss'.
Proof. apply bind_app. Qed.

Lemma events_of_one s : events_of [s] = segment_events s.
Proof. apply app_nil_r. Qed.

(** [pending[start..end]] in range. *)
Definition part (p : list Z) (start end_ : nat) : list Z := take (end_ - start) (drop start p).

Lemma slice_part p i j : (i ≤ j ≤ length p)%nat → slice p i j = Some (part p i j).
Proof. intros Hb. unfold slice. by rewrite bool_decide_true by lia. Qed.

Lemma part_nil p i : part p i i = [].
Proof. unfold part. by rewrite Nat.sub_diag. Qed.

Lemma part_snoc p i j b : (i ≤ j)%nat → p !! j = Some b → part p i (S j) = part p i j ++ [b].
Proof.
  intros Hij Hb. unfold part. replace (S j - i)%nat with (S (j - i)) by lia.
  apply take_S_r. rewrite lookup_drop. by replace (i + (j - i))%nat with j by lia.
Qed.

Lemma part_one p j b : p !! j = Some b → part p j (S j) = [b].
Proof. intros Hb. by rewrite (part_snoc p j j b), part_nil. Qed.

Lemma length_part p i j : (j ≤ length p)%nat → length (part p i j) = (j - i)%nat.
Proof. intros Hj. unfold part. rewrite length_take, length_drop. lia. Qed.

(** The scanner with pending bytes [p], head [h] and cursor [c], in the middle
    of a chunk, against the automaton and all it has emitted. In the ground
    state the text since [emitted_end] is still to be pushed. *)
Inductive follows (p : list Z) (h c : nat) : Scan → Automaton → list ScanEvent → Prop :=
| follows_ground ee out :
    (h ≤ ee ≤ c)%nat → (c ≤ length p)%nat →
    follows p h c (mkScan (mkScanner p h c None ScanGround false) ee out) ground
      (events_of out ++ texts (part p ee c))
| follows_held ee out st :
    is_ground st = false → (h ≤ ee < c)%nat → (c ≤ length p)%nat →
    follows p h c (mkScan (mkScanner p h c (Some ee) st false) ee out) (mkAuto st (part p ee c)) (events_of out).

Definition held_scan (p : list Z) (h c ee : nat) (st : ScanState) (out : list ScannedSegment) : Scan :=
  mkScan (mkScanner p h c (Some ee) st false) ee out.

Lemma follows_eq p h c s a a' E E' : follows p h c s a E → a = a' → E = E' → follows p h c s a' E'.
Proof. by intros ? <- <-. Qed.

(** The pieces steps are made of, on a scanner that holds [pending[ee..c]]. *)
Lemma finish_control_follows p h c ee st out family :
  (h ≤ ee < c)%nat → (c ≤ length p)%nat →
  ∃ s, finish_control c family (held_scan p h c ee st out) = Some s
       ∧ follows p h c s ground (events_of out ++ control family (part p ee c)).
Proof.
  intros Hb Hc. unfold finish_control, push_control, held_scan. cbn. rewrite slice_part by lia. cbn.
  eexists. split; [done|]. eapply follows_eq; [apply follows_ground; lia|done|].
  rewrite events_of_app, events_of_one, part_nil. cbn. by rewrite app_nil_r.
Qed.

Lemma finish_cancelled_scan p h c ee st out end_ :
  (ee ≤ end_ ≤ c)%nat → (c ≤ length p)%nat →
  ∃ out', finish_cancelled end_ (held_scan p h c ee st out)
          = Some (mkScan (mkScanner p h c None ScanGround false) end_ out')
          ∧ events_of out' = events_of out ++ cancelled (part p ee end_).
Proof.
  intros Hb Hc. unfold finish_cancelled, held_scan. cbn. case_bool_decide as He.
  - rewrite slice_part by lia. cbn. eexists. split; [done|]. rewrite events_of_app, events_of_one.
    unfold cancelled. rewrite bool_decide_false; [done|]. intros Hn%(f_equal length).
    rewrite length_part in Hn by lia. cbn in Hn. lia.
  - cbn. eexists. split; [done|]. replace end_ with ee by lia. rewrite part_nil. by rewrite app_nil_r.
Qed.

Lemma finish_cancelled_follows p h c ee st out :
  (h ≤ ee < c)%nat → (c ≤ length p)%nat →
  ∃ s, finish_cancelled c (held_scan p h c ee st out) = Some s
       ∧ follows p h c s ground (events_of out ++ cancelled (part p ee c)).
Proof.
  intros Hb Hc. destruct (finish_cancelled_scan p h c ee st out c) as (out' & -> & He); [lia..|].
  eexists. split; [done|]. eapply follows_eq; [apply follows_ground; lia|done|].
  by rewrite He, part_nil, app_nil_r.
Qed.

Lemma restart_follows p h c ee st out st' b :
  (h ≤ ee < c)%nat → p !! c = Some b →
  ∃ out', restart_candidate st' (held_scan p h c ee st out) = Some (held_scan p h (S c) c st' out')
          ∧ events_of out' = events_of out ++ cancelled (part p ee c).
Proof.
  intros Hb Hp. pose proof (lookup_lt_Some _ _ _ Hp). unfold restart_candidate.
  change (cursor_of (held_scan p h c ee st out)) with c.
  destruct (finish_cancelled_scan p h c ee st out c) as (out' & -> & He); [lia..|]. cbn. by exists out'.
Qed.

Lemma invalid_follows p h c ee st out :
  (h ≤ ee < c)%nat → (c ≤ length p)%nat →
  ∃ s, finish_invalid_utf8 (held_scan p h c ee st out) = Some s
       ∧ follows p h c s ground (events_of out ++ texts (part p ee c)).
Proof.
  intros Hb Hc. unfold finish_invalid_utf8, push_bytes, held_scan. cbn. rewrite bool_decide_true by lia.
  rewrite slice_part by lia. cbn. eexists. split; [done|].
  eapply follows_eq; [apply follows_ground; lia|done|].
  rewrite events_of_app, events_of_one, part_nil. cbn. by rewrite app_nil_r.
Qed.

Lemma begin_follows p h c ee out st b :
  (h ≤ ee ≤ c)%nat → p !! c = Some b → is_ground st = false →
  ∃ s, begin_candidate st (mkScan (mkScanner p h c None ScanGround false) ee out) = Some s
       ∧ follows p h (S c) s (mkAuto st [b]) (events_of out ++ texts (part p ee c)).
Proof.
  intros Hb Hp Hst. pose proof (lookup_lt_Some _ _ _ Hp). unfold begin_candidate, push_bytes. cbn.
  rewrite <- (part_one p c b Hp). case_bool_decide.
  - rewrite slice_part by lia. cbn. eexists. split; [done|].
    eapply follows_eq; [apply follows_held; [done|lia..]|done|]. by rewrite events_of_app, events_of_one.
  - cbn. eexists. split; [done|]. replace ee with c by lia.
    eapply follows_eq; [apply follows_held; [done|lia..]|done|]. by rewrite part_nil, app_nil_r.
Qed.

Lemma single_follows p h c ee out family b :
  (h ≤ ee ≤ c)%nat → p !! c = Some b →
  ∃ s, emit_single_control family (mkScan (mkScanner p h c None ScanGround false) ee out) = Some s
       ∧ follows p h (S c) s ground ((events_of out ++ texts (part p ee c)) ++ control family [b]).
Proof.
  intros Hb Hp. pose proof (lookup_lt_Some _ _ _ Hp). unfold emit_single_control, push_bytes, push_control. cbn.
  rewrite <- (part_one p c b Hp).
  assert (∀ out', events_of out' = events_of out ++ texts (part p ee c) →
    follows p h (S c) (mkScan (mkScanner p h (S c) None ScanGround false) (S c)
      (out' ++ [SegmentControl family (part p c (S c)) (classify_control family (part p c (S c)))])) ground
      ((events_of out ++ texts (part p ee c)) ++ control family (part p c (S c)))) as Hf.
  { intros out' He. eapply follows_eq; [apply follows_ground; lia|done|].
    by rewrite events_of_app, events_of_one, He, part_nil, app_nil_r. }
  case_bool_decide.
  - rewrite slice_part by lia. cbn. rewrite slice_part by lia. cbn. eexists. split; [done|]. apply Hf.
    by rewrite events_of_app, events_of_one.
  - cbn. rewrite slice_part by lia. cbn. eexists. split; [done|]. apply Hf.
    replace ee with c by lia. by rewrite part_nil, app_nil_r.
Qed.

(** A step [r] of the scanner does what the step [q] of the automaton does. *)
Definition matches (p : list Z) (h c : nat) (E : list ScanEvent) (r : option (Scan * bool))
    (q : Automaton * list ScanEvent * bool) : Prop :=
  ∃ s ag, r = Some (s, ag) ∧ follows p h (if q.2 then S c else c) s q.1.1 (E ++ q.1.2)
          ∧ (ag = true → q.2 = false).

Lemma matches_done p h c E r a es (used : bool) :
  (∃ s, r = Some s ∧ follows p h (if used then S c else c) s a (E ++ es)) → matches p h c E (done_ r) (a, es, used).
Proof. intros (s & -> & Hf). exists s, false. by repeat split. Qed.

Lemma matches_again p h c E r a es :
  (∃ s, r = Some s ∧ follows p h c s a (E ++ es)) → matches p h c E (again r) (a, es, false).
Proof. intros (s & -> & Hf). exists s, true. by repeat split. Qed.

Section Step.
Context (p : list Z) (h c ee : nat) (out : list ScannedSegment) (b : Z).
Hypothesis Hee : (h ≤ ee < c)%nat.
Hypothesis Hb : p !! c = Some b.

Lemma cursor_bound : (c < length p)%nat.
Proof using Hb. by eapply lookup_lt_Some. Qed.

Lemma more_part : part p ee c ++ [b] = part p ee (S c).
Proof using Hee Hb. symmetry. apply part_snoc; [lia|done]. Qed.

Lemma hold_matches st st' :
  is_ground st' = false →
  matches p h c (events_of out) (done_ (Some (set_state st' (advance (held_scan p h c ee st out)))))
    (mkAuto st' (part p ee c ++ [b]), [], true).
Proof using Hee Hb.
  intros Hst. pose proof cursor_bound. apply matches_done. eexists. split; [done|]. rewrite app_nil_r, more_part.
  apply (follows_held p h (S c) ee out st'); [done|lia..].
Qed.

Lemma control_matches st family :
  matches p h c (events_of out)
    (done_ (finish_control (S c) family (advance (held_scan p h c ee st out))))
    (ground, control family (part p ee c ++ [b]), true).
Proof using Hee Hb.
  pose proof cursor_bound. apply matches_done. rewrite more_part.
  apply (finish_control_follows p h (S c) ee st out family); lia.
Qed.

Lemma cancel_matches st :
  matches p h c (events_of out) (done_ (finish_cancelled (S c) (advance (held_scan p h c ee st out))))
    (ground, cancelled (part p ee c ++ [b]), true).
Proof using Hee Hb.
  pose proof cursor_bound. apply matches_done. rewrite more_part.
  apply (finish_cancelled_follows p h (S c) ee st out); lia.
Qed.

Lemma restart_matches st st' :
  is_ground st' = false →
  matches p h c (events_of out) (done_ (restart_candidate st' (held_scan p h c ee st out)))
    (mkAuto st' [b], cancelled (part p ee c), true).
Proof using Hee Hb.
  intros Hst. pose proof cursor_bound. apply matches_done.
  destruct (restart_follows p h c ee st out st' b) as (out' & -> & He); [lia|done|]. eexists. split; [done|].
  rewrite <- He, <- (part_one p c b Hb). apply (follows_held p h (S c) c out' st'); [done|lia..].
Qed.

Lemma text_matches st :
  matches p h c (events_of out) (done_ (Some (set_candidate None (set_state ScanGround (advance (held_scan p h c ee st out))))))
    (ground, texts (part p ee c ++ [b]), true).
Proof using Hee Hb.
  pose proof cursor_bound. apply matches_done. eexists. split; [done|]. rewrite more_part.
  apply (follows_ground p h (S c) ee out); lia.
Qed.

Lemma invalid_matches st :
  matches p h c (events_of out) (again (finish_invalid_utf8 (held_scan p h c ee st out)))
    (ground, texts (part p ee c), false).
Proof using Hee Hb. pose proof cursor_bound. apply matches_again, invalid_follows; lia. Qed.

Lemma csi_matches :
  matches p h c (events_of out) (step_csi b (held_scan p h c ee ScanCsi out))
    (auto_step b (mkAuto ScanCsi (part p ee c))).
Proof using Hee Hb.
  pose proof cursor_bound. unfold step_csi, auto_step. cbn [auto_state auto_held].
  destruct (_ || _); [apply cancel_matches|]. destruct (b =? 27); [by apply restart_matches|].
  destruct (Z.eqb_spec b 156) as [H156|H156].
  - subst b. cbn [is_c1_introducer]. replace (is_c1_introducer 156) with true by done. apply matches_done.
    destruct (restart_follows p h c ee ScanCsi out (state_for_c1_control 156) 156) as (out' & -> & He); [lia|done|].
    cbn [mbind option_bind].
    destruct (finish_control_follows p h (S c) c (state_for_c1_control 156) out' FamilyOther) as (s & Hs & Hf); [lia..|].
    exists s. split; [exact Hs|]. rewrite (part_one p c 156 Hb), He, <- app_assoc in Hf. exact Hf.
  - destruct (is_c1_introducer b).
    + destruct (restart_matches ScanCsi (state_for_c1_control b)) as (s & ag & Hs & Hf).
      { by apply state_for_c1_not_ground. }
      exists s, ag. split; [|done]. unfold done_ in *.
      destruct (restart_candidate _ _) as [s'|]; [|done]. exact Hs.
    + destruct (b =? 194); [by apply restart_matches|].
      destruct (between 64 126 b); [apply control_matches|]. by apply hold_matches.
Qed.

Lemma escape_matches :
  matches p h c (events_of out) (done_ (step_escape b (held_scan p h c ee ScanEscape out)))
    (auto_step b (mkAuto ScanEscape (part p ee c))).
Proof using Hee Hb.
  unfold step_escape, auto_step. cbn [auto_state auto_held].
  destruct (_ || _); [apply cancel_matches|]. destruct (b =? 91); [by apply hold_matches|].
  destruct (b =? 93); [by apply hold_matches|]. destruct (b =? 80); [by apply hold_matches|].
  destruct (_ || _); [by apply hold_matches|]. apply control_matches.
Qed.

Lemma utf8_c1_matches :
  matches p h c (events_of out) (step_utf8_c1 b (held_scan p h c ee ScanUtf8C1 out))
    (auto_step b (mkAuto ScanUtf8C1 (part p ee c))).
Proof using Hee Hb.
  unfold step_utf8_c1, auto_step. cbn [auto_state auto_held].
  destruct (negb _); [apply invalid_matches|]. destruct (Z.eqb_spec b 156); [apply control_matches|].
  destruct (is_c1_introducer b); [by apply hold_matches, state_for_c1_not_ground|]. apply text_matches.
Qed.

Lemma utf8_text_matches n lo hi :
  matches p h c (events_of out) (step_utf8_text n lo hi b (held_scan p h c ee (ScanUtf8Text n lo hi) out))
    (auto_step b (mkAuto (ScanUtf8Text n lo hi) (part p ee c))).
Proof using Hee Hb.
  unfold step_utf8_text, auto_step. cbn [auto_state auto_held].
  destruct (negb _); [apply invalid_matches|]. case_bool_decide; [apply text_matches|]. by apply hold_matches.
Qed.

Lemma csi_utf8_c1_matches :
  matches p h c (events_of out) (step_csi_utf8_c1 b (held_scan p h c ee ScanCsiUtf8C1 out))
    (auto_step b (mkAuto ScanCsiUtf8C1 (part p ee c))).
Proof using Hee Hb.
  unfold step_csi_utf8_c1, auto_step. cbn [auto_state auto_held]. destruct (b =? 155); [by apply hold_matches|].
  pose proof cursor_bound. eexists _, true. split; [done|]. split; [|done]. rewrite app_nil_r.
  apply (follows_held p h c ee out ScanUtf8C1); [done|lia..].
Qed.

Lemma body_matches kind :
  matches p h c (events_of out) (step_string_body kind b (held_scan p h c ee (ScanBody kind) out))
    (auto_step b (mkAuto (ScanBody kind) (part p ee c))).
Proof using Hee Hb.
  unfold step_string_body, auto_step. cbn [auto_state auto_held].
  destruct (_ || _); [apply cancel_matches|]. destruct (_ && _); cbn [orb]; [apply control_matches|].
  destruct (b =? 156); [apply control_matches|]. destruct (b =? 27); [by apply hold_matches|].
  destruct (b =? 194); by apply hold_matches.
Qed.

Lemma body_escape_matches kind :
  matches p h c (events_of out) (step_string_escape kind b (held_scan p h c ee (ScanBodyEscape kind) out))
    (auto_step b (mkAuto (ScanBodyEscape kind) (part p ee c))).
Proof using Hee Hb.
  unfold step_string_escape, auto_step. cbn [auto_state auto_held].
  destruct (b =? 92); [apply control_matches|]. destruct (_ || _); [apply cancel_matches|].
  destruct (b =? 27); [by apply restart_matches|]. pose proof cursor_bound.
  change (cursor_of (held_scan p h c ee (ScanBodyEscape kind) out)) with c.
  rewrite length_part by lia. destruct c as [|c'] eqn:Hc; [lia|]. cbn [checked_sub_1 mbind option_bind].
  apply matches_done.
  destruct (finish_cancelled_scan p h (S c') ee (ScanBodyEscape kind) out c') as (out' & -> & He); [lia..|].
  cbn [mbind option_bind]. eexists. split; [done|].
  assert (take (S c' - ee - 1) (part p ee (S c')) = part p ee c') as ->.
  { unfold part. rewrite take_take. f_equal. lia. }
  assert (drop (S c' - ee - 1) (part p ee (S c')) = part p c' (S c')) as ->.
  { unfold part. rewrite skipn_firstn_comm, drop_drop. f_equal; [lia|]. f_equal. lia. }
  rewrite <- He. apply (follows_held p h (S c') c' out' ScanEscape); [done|lia..].
Qed.

Lemma body_utf8_c1_matches kind :
  matches p h c (events_of out) (step_string_utf8_c1 kind b (held_scan p h c ee (ScanBodyUtf8C1 kind) out))
    (auto_step b (mkAuto (ScanBodyUtf8C1 kind) (part p ee c))).
Proof using Hee Hb.
  unfold step_string_utf8_c1, auto_step. cbn [auto_state auto_held]. destruct (negb _).
  - pose proof cursor_bound. eexists _, true. split; [done|]. split; [|done]. rewrite app_nil_r.
    apply (follows_held p h c ee out (ScanBody kind)); [done|lia..].
  - destruct (b =? 156); [apply control_matches|]. by apply hold_matches.
Qed.
End Step.

Lemma ground_matches p h c ee out b :
  (h ≤ ee ≤ c)%nat → p !! c = Some b →
  matches p h c (events_of out ++ texts (part p ee c))
    (done_ (step_ground b (mkScan (mkScanner p h c None ScanGround false) ee out))) (auto_step b ground).
Proof.
  intros Hee Hb. pose proof (lookup_lt_Some _ _ _ Hb). unfold step_ground, auto_step. cbn [auto_state auto_held ground].
  assert (∀ st, is_ground st = false →
    matches p h c (events_of out ++ texts (part p ee c))
      (done_ (begin_candidate st (mkScan (mkScanner p h c None ScanGround false) ee out))) (mkAuto st [b], [], true)) as Hbegin.
  { intros st Hst. apply matches_done. rewrite app_nil_r. by apply begin_follows. }
  destruct (b =? 5); [by apply matches_done, single_follows|].
  destruct (Z.eqb_spec b 156) as [->|H156]; [by apply matches_done, single_follows|].
  unfold ground_candidate, is_string_introducer. 
  repeat (case_match; [try lia; by apply Hbegin|]).
  apply matches_done. eexists. split; [done|]. rewrite <- app_assoc. unfold texts at 1 2. rewrite <- fmap_app, <- part_snoc by done || lia.
  apply (follows_ground p h (S c) ee out); lia.
Qed.

(** One step of the scanner is one step of the automaton. *)
Lemma step_matches p h c s a E b :
  follows p h c s a E → p !! c = Some b → matches p h c E (step b s) (auto_step b a).
Proof.
  intros [ee out Hee Hc|ee out st Hst Hee Hc] Hb; [by apply ground_matches|].
  destruct st; [done|..]; unfold step; cbn [scanner scan_state].
  - by apply escape_matches.
  - by apply utf8_c1_matches.
  - by apply utf8_text_matches.
  - by apply csi_matches.
  - by apply csi_utf8_c1_matches.
  - by apply body_matches.
  - by apply body_escape_matches.
  - by apply body_utf8_c1_matches.
Qed.

Lemma follows_shape p h c s a E :
  follows p h c s a E →
  scan_pending (scanner s) = p ∧ cursor_of s = c ∧ discarding (scanner s) = false ∧ (c ≤ length p)%nat.
Proof. by intros [|]. Qed.

Lemma limit_follows p h c s a E :
  follows p h c s a E → len (auto_held a) < MAX_PENDING → limit_candidate s = s.
Proof.
  intros [ee out Hee Hc|ee out st Hst Hee Hc]; [done|]. unfold len, limit_candidate. cbn.
  rewrite length_part by lia. intros Hl. by destruct (Z.leb_spec MAX_PENDING (Z.of_nat (c - ee))); [lia|].
Qed.

Lemma round_follows p h c s a E b :
  follows p h c s a E → p !! c = Some b → len (auto_held (auto_step b a).1.1) < MAX_PENDING →
  ∃ s', (∀ fuel, scan_loop (S fuel) s = scan_loop fuel s')
        ∧ follows p h (if (auto_step b a).2 then S c else c) s' (auto_step b a).1.1 (E ++ (auto_step b a).1.2).
Proof.
  intros Hf Hb Hl. destruct (step_matches _ _ _ _ _ _ _ Hf Hb) as (s' & ag & Hs & Hf' & _).
  exists s'. split; [|done]. intros fuel. pose proof (follows_shape _ _ _ _ _ _ Hf) as (Hp & Hc & Hd & _).
  cbn [scan_loop]. rewrite Hp, Hc, Hb. unfold scan_round. rewrite Hd, Hs. cbn [mbind option_bind].
  destruct ag; [done|]. by rewrite (limit_follows _ _ _ _ _ _ Hf').
Qed.

(** A byte takes at most three rounds. *)
Lemma byte_follows p h c s a E b :
  follows p h c s a E → p !! c = Some b → len (auto_held a) < MAX_PENDING →
  len (auto_held (auto_byte b a).1) < MAX_PENDING →
  ∃ n s', (n ≤ 3)%nat ∧ (∀ fuel, scan_loop (n + fuel) s = scan_loop fuel s')
          ∧ follows p h (S c) s' (auto_byte b a).1 (E ++ (auto_byte b a).2).
Proof.
  unfold auto_byte, len. intros Hf Hb Ha Hl.
  pose proof (auto_step_unused b a) as U1. pose proof (round_follows p h c s a E b Hf Hb) as R1. unfold len in R1.
  destruct (auto_step b a) as [[a1 e1] [|]]; cbn [fst snd] in *.
  { destruct (R1 Hl) as (s1 & Hs1 & Hf1). exists 1%nat, s1. split; [lia|done]. }
  destruct (U1 eq_refl) as [Hr1 Hl1]. destruct R1 as (s1 & Hs1 & Hf1); [lia|].
  pose proof (auto_step_unused b a1) as U2. pose proof (round_follows p h c s1 a1 _ b Hf1 Hb) as R2. unfold len in R2.
  destruct (auto_step b a1) as [[a2 e2] [|]]; cbn [fst snd] in *.
  { destruct (R2 Hl) as (s2 & Hs2 & Hf2). exists 2%nat, s2. split; [lia|].
    split; [intros fuel; cbn [Nat.add]; by rewrite Hs1, Hs2|by rewrite app_assoc]. }
  destruct (U2 eq_refl) as [Hr2 Hl2]. destruct R2 as (s2 & Hs2 & Hf2); [lia|].
  pose proof (rank_bound a). pose proof (auto_step_unused b a2) as U3.
  pose proof (round_follows p h c s2 a2 _ b Hf2 Hb) as R3. unfold len in R3.
  destruct (auto_step b a2) as [[a3 e3] [|]]; cbn [fst snd] in *; [|specialize (U3 eq_refl); lia].
  destruct (R3 Hl) as (s3 & Hs3 & Hf3). exists 3%nat, s3. split; [lia|].
  split; [intros fuel; cbn [Nat.add]; by rewrite Hs1, Hs2, Hs3|by rewrite <- !app_assoc in Hf3].
Qed.

Lemma scan_end fuel p h s a E : follows p h (length p) s a E → scan_loop fuel s = Some s.
Proof.
  intros (Hp & Hc & _)%follows_shape. destruct fuel; cbn [scan_loop]; by rewrite Hp, Hc, lookup_ge_None_2 by lia.
Qed.

Lemma loop_follows p h c s a E rest fuel :
  follows p h c s a E → drop c p = rest → len (auto_held a) < MAX_PENDING → fits rest a →
  (3 * length rest ≤ fuel)%nat →
  ∃ s', scan_loop fuel s = Some s'
        ∧ follows p h (length p) s' (auto_run rest a).1 (E ++ (auto_run rest a).2).
Proof.
  revert c s a E fuel. induction rest as [|b rest IH]; intros c s a E fuel Hf Hd Ha Hfit Hfuel.
  - pose proof (follows_shape _ _ _ _ _ _ Hf) as (_ & _ & _ & Hc).
    assert (c = length p) as -> by (apply (f_equal length) in Hd; rewrite length_drop in Hd; cbn in Hd; lia).
    exists s. rewrite app_nil_r. split; [by eapply scan_end|done].
  - destruct Hfit as [Hl Hfit]. cbn [length] in Hfuel.
    assert (p !! c = Some b) as Hb by (rewrite <- (Nat.add_0_r c), <- lookup_drop; by rewrite Hd).
    destruct (byte_follows p h c s a E b Hf Hb Ha Hl) as (n & s1 & Hn & Hs1 & Hf1).
    replace fuel with (n + (fuel - n))%nat by lia. rewrite Hs1. cbn [auto_run].
    destruct (auto_byte b a) as [a1 e1]. cbn [fst snd] in *.
    destruct (IH (S c) s1 a1 (E ++ e1) (fuel - n)%nat Hf1) as (s2 & Hs2 & Hf2); [|done|done|lia|].
    { rewrite <- (Nat.add_1_r c), <- drop_drop, Hd. done. }
    exists s2. split; [done|]. destruct (auto_run rest a1) as [a2 e2]. cbn [fst snd] in *. by rewrite app_assoc.
Qed.

(** A scanner between two chunks: empty in the ground state, or with the held
    bytes at its head. *)
Inductive rests : TerminalQueryScanner → Automaton → Prop :=
| rests_ground : rests new_scanner ground
| rests_held p h st :
    is_ground st = false → (h < length p)%nat →
    rests (mkScanner p h (length p) (Some h) st false) (mkAuto st (drop h p)).

Lemma compact_rests capacity n t a : rests t a → rests (compact_before_append capacity n t) a.
Proof.
  intros Hr. unfold compact_before_append. case_bool_decide as Hh; [done|]. destruct (_ && _); [done|].
  destruct Hr as [|p h st Hst Hl]; [done|]. unfold compact_live_tail. cbn in *. rewrite bool_decide_false by done. cbn.
  assert (length (drop h p) = length p - h)%nat as Hd by apply length_drop.
  rewrite Nat.sub_diag, <- Hd. rewrite <- (drop_0 (drop h p)) at 3. apply rests_held; [done|lia].
Qed.

Lemma fits_bound bytes a :
  len (auto_held a) < MAX_PENDING → fits bytes a → len (auto_held (auto_run bytes a).1) < MAX_PENDING.
Proof.
  revert a. induction bytes as [|b bytes IH]; intros a Ha; [done|]. cbn. intros [Hb Hf].
  destruct (auto_byte b a) as [a1 e1]. cbn in *. specialize (IH a1 Hb Hf). by destruct (auto_run bytes a1).
Qed.

Lemma start_follows t a bytes :
  rests t a →
  follows (scan_pending t ++ bytes) (scan_head t) (length (scan_pending t))
    (mkScan (t{{ scan_pending := scan_pending t ++ bytes }}) (scan_head t) []) a [].
Proof.
  intros [|p h st Hst Hl]; cbn.
  - refine (follows_ground _ _ _ _ [] _ _); cbn; lia.
  - replace (drop h p) with (part (p ++ bytes) h (length p)).
    + refine (follows_held _ _ _ _ [] _ _ _ _); [done|lia|rewrite length_app; lia].
    + unfold part. rewrite drop_app_le by lia. rewrite take_app_le by (rewrite length_drop; lia).
      apply take_ge. rewrite length_drop. lia.
Qed.

Lemma end_follows p h s a E :
  follows p h (length p) s a E →
  ∃ s', flush_ground s = Some s' ∧ rests (settle s') a ∧ events_of (sink s') = E.
Proof.
  intros [ee out Hee Hc|ee out st Hst Hee Hc]; unfold flush_ground; cbn.
  - unfold push_bytes. case_bool_decide as He.
    + cbn. rewrite slice_part by lia. cbn. eexists. split; [done|]. cbn.
      rewrite events_of_app, events_of_one. split; [|done]. unfold settle. cbn.
      rewrite (bool_decide_true (h < length p)%nat) by lia. cbn. rewrite bool_decide_true by done. constructor.
    + cbn. eexists. split; [done|]. replace ee with (length p) by lia. rewrite part_nil, app_nil_r.
      split; [|done]. unfold settle. cbn. destruct (decide (h < length p)%nat).
      * rewrite (bool_decide_true (h < length p)%nat) by done. cbn. rewrite bool_decide_true by done. constructor.
      * rewrite (bool_decide_false (h < length p)%nat) by done. cbn. rewrite bool_decide_true by lia. constructor.
  - rewrite Hst. eexists. split; [done|]. split; [|done].
    assert (part p ee (length p) = drop ee p) as ->
      by (unfold part; apply take_ge; rewrite length_drop; lia).
    unfold settle. cbn. destruct (decide (h < ee)%nat).
    + rewrite (bool_decide_true (h < ee)%nat) by done. cbn. rewrite bool_decide_false by lia.
      apply rests_held; [done|lia].
    + rewrite (bool_decide_false (h < ee)%nat) by done. cbn. rewrite bool_decide_false by lia.
      replace h with ee by lia. apply rests_held; [done|lia].
Qed.

Lemma inner_follows capacity bytes t a :
  rests t a → len (auto_held a) < MAX_PENDING → fits bytes a →
  ∃ t' out, process_inner capacity bytes t = Some (t', out) ∧ rests t' (auto_run bytes a).1
            ∧ events_of out = (auto_run bytes a).2.
Proof.
  intros Hr Ha Hf. unfold process_inner. apply (compact_rests capacity (length bytes)) in Hr.
  set (t1 := compact_before_append capacity (length bytes) t) in *.
  destruct (loop_follows _ _ _ _ _ _ bytes (3 * length (scan_pending t1 ++ bytes) + 3) (start_follows t1 a bytes Hr))
    as (s & Hs & Hfs); [apply drop_app_length|done|done|rewrite length_app; lia|].
  change (scan_pending (t1{{ scan_pending := scan_pending t1 ++ bytes }})) with (scan_pending t1 ++ bytes).
  change (scan_head (t1{{ scan_pending := scan_pending t1 ++ bytes }})) with (scan_head t1).
  rewrite Hs. cbn [mbind option_bind]. destruct (end_follows _ _ _ _ _ Hfs) as (s' & Hs' & Hr' & He).
  rewrite Hs'. cbn [mbind option_bind]. eexists _, _. by repeat split.
Qed.

Lemma chunk_len_bound b rest t : (1 ≤ chunk_len (b :: rest) t ≤ length (b :: rest))%nat.
Proof. unfold chunk_len, len. cbn [length]. lia. Qed.

Lemma process_loop_follows fuel capacities bytes t a :
  rests t a → len (auto_held a) < MAX_PENDING → fits bytes a → (length bytes ≤ fuel)%nat →
  ∃ t' out, process_loop fuel capacities bytes t = Some (t', out) ∧ rests t' (auto_run bytes a).1
            ∧ events_of out = (auto_run bytes a).2.
Proof.
  revert capacities bytes t a. induction fuel as [|fuel IH]; intros capacities [|b bytes] t a Hr Ha Hf Hfuel;
    [by exists t, []|cbn in Hfuel; lia|by exists t, []|].
  cbn [process_loop]. pose proof (chunk_len_bound b bytes t) as Hn.
  set (n := chunk_len (b :: bytes) t) in *. set (l := b :: bytes) in *.
  rewrite <- (take_drop n l) in Hf. apply fits_app in Hf as [Hf1 Hf2].
  destruct (inner_follows (capacities 0%nat) (take n l) t a Hr Ha Hf1) as (t1 & out1 & -> & Hr1 & He1).
  cbn [mbind option_bind].
  destruct (IH (λ i, capacities (S i)) (drop n l) t1 _ Hr1 (fits_bound _ _ Ha Hf1) Hf2) as (t2 & out2 & -> & Hr2 & He2);
    [rewrite length_drop; lia|].
  cbn [mbind option_bind]. exists t2, (out1 ++ out2). split; [done|].
  rewrite <- (take_drop n l), auto_run_app, events_of_app, He1, He2.
  destruct (auto_run (take n l) a) as [a1 e1]. cbn [fst snd] in *. by destruct (auto_run (drop n l) a1).
Qed.

(** Several chunks, each with the capacities its appends find. *)
Fixpoint scan_chunks (chunks : list ((nat → nat) * list Z)) (t : TerminalQueryScanner)
    : option (TerminalQueryScanner * list ScannedSegment) :=
  match chunks with
  | [] => Some (t, [])
  | (capacities, bytes) :: chunks =>
      '(t, out) ← process_with_sink capacities bytes t;
      '(t, out') ← scan_chunks chunks t; Some (t, out ++ out')
  end.

Lemma chunks_follow chunks t a :
  rests t a → len (auto_held a) < MAX_PENDING → fits (concat chunks.*2) a →
  ∃ t' out, scan_chunks chunks t = Some (t', out) ∧ rests t' (auto_run (concat chunks.*2) a).1
            ∧ events_of out = (auto_run (concat chunks.*2) a).2.
Proof.
  revert t a. induction chunks as [|[cap bytes] chunks IH]; intros t a Hr Ha Hf; [by exists t, []|].
  cbn [fmap list_fmap concat snd] in *. apply fits_app in Hf as [Hf1 Hf2]. cbn [scan_chunks]. unfold process_with_sink.
  destruct (process_loop_follows (length bytes) cap bytes t a Hr Ha Hf1) as (t1 & out1 & -> & Hr1 & He1); [lia|].
  cbn [mbind option_bind]. destruct (IH t1 _ Hr1 (fits_bound _ _ Ha Hf1) Hf2) as (t2 & out2 & -> & Hr2 & He2).
  cbn [mbind option_bind]. exists t2, (out1 ++ out2). split; [done|].
  rewrite auto_run_app, events_of_app, He1, He2. destruct (auto_run bytes a) as [a1 e1]. cbn [fst snd] in *.
  by destruct (auto_run (concat chunks.*2) a1).
Qed.

Definition live_bytes (t : TerminalQueryScanner) : list Z := drop (scan_head t) (scan_pending t).

Lemma rests_live t a : rests t a → live_bytes t = auto_held a ∧ scan_state t = auto_state a.
Proof. by intros [|]. Qed.

(** C6. As long as no control reaches the limit, the scanner, fed with any
    chunks and whatever the capacities of its buffer, does not panic; its
    output and the bytes it keeps are those of the automaton that reads one
    byte at a time, so they do not depend on the chunks, and together they are
    exactly the bytes that were fed. *)
Theorem scanner_refines_automaton chunks :
  fits (concat chunks.*2) ground →
  ∃ t out, scan_chunks chunks new_scanner = Some (t, out)
    ∧ events_of out = (auto_run (concat chunks.*2) ground).2
    ∧ live_bytes t = auto_held (auto_run (concat chunks.*2) ground).1
    ∧ scan_bytes (events_of out) ++ live_bytes t = concat chunks.*2.
Proof.
  intros Hf. destruct (chunks_follow chunks new_scanner ground) as (t & out & Hs & Hr & He);
    [constructor|done|done|]. apply rests_live in Hr as [Hl _].
  exists t, out. repeat split; [done..|]. rewrite He, Hl.
  pose proof (auto_lossless (concat chunks.*2) ground ltac:(done)) as Ha.
  destruct (auto_run (concat chunks.*2) ground) as [a es]. destruct Ha as [_ Ha]. symmetry. exact Ha.
Qed.

(** ** Past the limit *)









(** The scanner between two chunks while it discards a string, and a round of
    its loop over the pending bytes [p]. *)
Definition discards (state : ScanState) : TerminalQueryScanner := mkScanner [] 0 0 None state true.
Definition discard_scan (p : list Z) (c : nat) (state : ScanState) : Scan :=
  mkScan (mkScanner p 0 c None state true) 0 [].

Lemma discard_step p c state b fuel :
  p !! c = Some b →
  scan_loop (S fuel) (discard_scan p c state) = step_discarding b (discard_scan p c state) ≫= scan_loop fuel.
Proof. intros Hb. cbn [scan_loop]. unfold cursor_of. cbn. by rewrite Hb. Qed.



Lemma discard_piece capacity bytes state :
  process_inner capacity bytes (discards state) =
    s ← scan_loop (3 * length bytes + 3) (discard_scan bytes 0 state); s ← flush_ground s; Some (settle s, sink s).
Proof. done. Qed.








(** An oversized control sequence cut inside a UTF-8 introducer: the control
    that follows has no start. *)
Theorem discarded_csi_panics_at_chunk_end c1 c2 rest :
  ∃ e, process_with_sink c1 [48; 194] (discards ScanCsi) = Some (e, []) ∧ process_with_sink c2 (156 :: rest) e = None.
Proof.
  exists (discards ScanCsiUtf8C1). split; [done|]. unfold process_with_sink. cbn [length process_loop].
  pose proof (chunk_len_bound 156 rest (discards ScanCsiUtf8C1)) as Hn.
  destruct (chunk_len _ _) as [|n]; [lia|]. cbn [take]. rewrite discard_piece, Nat.add_succ_r. by rewrite (discard_step _ _ _ 156).
Qed.

End Refinement.

(** ** The modes of the runtime *)

Section RuntimeModeFacts.
Context `{External}.

Lemma track_segment_total kitty segment t :
  ∃ t' cs, track_segment kitty segment t = Some (t', cs).
Proof.
  destruct segment as [bytes|family bytes semantic]; [by exists t, []|]. cbn [track_segment].
  assert (∀ e : Emitted, ∃ t' cs, Some e = Some (t', cs)) as Hsome by (intros [t' cs]; by exists t', cs).
  destruct semantic; cbn [track_control]; try apply Hsome; try (destruct (framed_control_may_change_modes bytes)); try apply Hsome.
  all: unfold process_without_emitting; destruct (process_total bytes t) as [e ->]; apply Hsome.
Qed.

Lemma track_segments_app kitty ss ss' t :
  track_segments kitty (ss ++ ss') t
  = '(t, cs) ← track_segments kitty ss t; '(t, cs') ← track_segments kitty ss' t; Some (t, cs ++ cs').
Proof.
  revert t. induction ss as [|s ss IH]; intros t; cbn [track_segments app].
  - cbn. by destruct (track_segments kitty ss' t) as [[t' cs']|].
  - destruct (track_segment kitty s t) as [[t1 c1]|]; [|done]. cbn [mbind option_bind]. rewrite IH.
    destruct (track_segments kitty ss t1) as [[t2 c2]|]; [|done]. cbn [mbind option_bind].
    destruct (track_segments kitty ss' t2) as [[t3 c3]|]; [|done]. cbn. by rewrite app_assoc.
Qed.

(** Text does not matter, so only the events do. *)
Definition event_segment (e : ScanEvent) : ScannedSegment :=
  match e with TextByte b => SegmentBytes [b] | ControlEvent f bytes sem => SegmentControl f bytes sem end.

Lemma track_texts kitty bytes ss t :
  track_segments kitty ((event_segment <$> texts bytes) ++ ss) t = track_segments kitty ss t.
Proof.
  induction bytes as [|b bytes IH]; [done|].
  change ((event_segment <$> texts (b :: bytes)) ++ ss)
    with (SegmentBytes [b] :: ((event_segment <$> texts bytes) ++ ss)).
  cbn [track_segments track_segment mbind option_bind]. rewrite IH.
  by destruct (track_segments kitty ss t) as [[t' cs']|].
Qed.

Lemma track_events kitty segments t :
  track_segments kitty segments t = track_segments kitty (event_segment <$> events_of segments) t.
Proof.
  revert t. induction segments as [|s segments IH]; intros t; [done|]. unfold events_of in *. cbn [mbind list_bind].
  rewrite fmap_app. destruct s as [bytes|family bytes semantic]; cbn [segment_events track_segments].
  - rewrite track_texts. cbn. rewrite IH. by destruct (track_segments kitty _ t) as [[t' cs']|].
  - cbn. destruct (track_control kitty bytes semantic t) as [[t1 c1]|]; [|done]. cbn. by rewrite IH.
Qed.

Lemma track_segments_total kitty segments t : is_Some (track_segments kitty segments t).
Proof.
  revert t. induction segments as [|s segments IH]; intros t; [done|]. cbn [track_segments].
  destruct (track_segment_total kitty s t) as (t1 & cs & ->). cbn [mbind option_bind].
  by destruct (IH t1) as [[t2 cs2] ->].
Qed.

(** Several chunks of output. *)
Fixpoint feed_modes_chunks (kitty : bool) (chunks : list ((nat → nat) * list Z))
    (r : TerminalQueryScanner * TerminalModeTracker)
    : option (TerminalQueryScanner * TerminalModeTracker * list TerminalModeChange) :=
  match chunks with
  | [] => Some (r, [])
  | (capacities, bytes) :: chunks =>
      '(r, changes) ← feed_modes kitty capacities bytes r;
      '(r, changes') ← feed_modes_chunks kitty chunks r; Some (r, changes ++ changes')
  end.

Lemma feed_modes_scans kitty chunks sc tr sc' out :
  scan_chunks chunks sc = Some (sc', out) →
  feed_modes_chunks kitty chunks (sc, tr) = '(tr', cs) ← track_segments kitty out tr; Some (sc', tr', cs).
Proof.
  revert sc tr out. induction chunks as [|[cap bytes] chunks IH]; intros sc tr out; cbn [scan_chunks feed_modes_chunks].
  { by intros [= <- <-]. }
  unfold feed_modes. cbn [fst snd]. destruct (process_with_sink cap bytes sc) as [[sc1 out1]|]; [|done].
  cbn [mbind option_bind]. destruct (scan_chunks chunks sc1) as [[sc2 out2]|] eqn:Hs; [|done].
  cbn [mbind option_bind]. intros [= -> <-]. rewrite track_segments_app.
  destruct (track_segments kitty out1 tr) as [[tr1 c1]|]; [|done]. cbn [mbind option_bind].
  rewrite (IH sc1 tr1 out2 Hs). destruct (track_segments kitty out2 tr1) as [[tr2 c2]|]; [|done]. done.
Qed.

(** C23. The modes of a runtime do not depend on the chunks its output arrives
    in: two ways to cut the same bytes (no control over the limit) are both
    handled without a panic and lead to the same modes and the same changes
    for the host. *)
Theorem runtime_modes_any_chunks kitty chunks chunks' tracker :
  concat chunks.*2 = concat chunks'.*2 → fits (concat chunks.*2) ground →
  ∃ sc sc' tracker' changes,
    feed_modes_chunks kitty chunks (new_scanner, tracker) = Some (sc, tracker', changes)
    ∧ feed_modes_chunks kitty chunks' (new_scanner, tracker) = Some (sc', tracker', changes).
Proof.
  intros Heq Hf.
  destruct (chunks_follow chunks new_scanner ground) as (sc & out & Hs & _ & He); [constructor|done|done|].
  rewrite Heq in Hf, He.
  destruct (chunks_follow chunks' new_scanner ground) as (sc' & out' & Hs' & _ & He'); [constructor|done|done|].
  destruct (track_segments_total kitty out tracker) as [[tracker' changes] Ht].
  exists sc, sc', tracker', changes. rewrite (feed_modes_scans _ _ _ _ _ _ Hs), (feed_modes_scans _ _ _ _ _ _ Hs').
  assert (track_segments kitty out' tracker = track_segments kitty out tracker) as ->
    by (rewrite (track_events kitty out'), (track_events kitty out); by rewrite He, He').
  by rewrite Ht.
Qed.
End RuntimeModeFacts.

(** ** The visible output *)

Lemma plain_byte_is_visible b :
  byte_requires_visible_state_machine b = false → process_ground_byte b = (VisibleGround, [b]).
Proof.
  unfold byte_requires_visible_state_machine, process_ground_byte, between.
  intros [Hn Hr]%orb_false_iff. apply bool_decide_eq_false in Hn. rewrite !not_elem_of_cons in Hn.
  rewrite !bool_decide_false by (rewrite !elem_of_cons, elem_of_nil; lia).
  repeat case_match; try done; lia.
Qed.

(** The bulk path for plain text is the state machine. *)
Lemma process_into_bytes bytes state : process_into bytes state = process_bytes bytes state.
Proof.
  unfold process_into. destruct (_ && _) eqn:Hb; [|done]. destruct state; try done. cbn in Hb.
  apply negb_true_iff in Hb. induction bytes as [|b bytes IH]; [done|]. cbn in *.
  apply orb_false_iff in Hb as [H1 H2]. rewrite plain_byte_is_visible by done. by rewrite <- IH.
Qed.

(** What is visible does not depend on the chunks. *)
Lemma process_into_app u v state :
  process_into (u ++ v) state
  = let '(state, out) := process_into u state in
    let '(state, out') := process_into v state in (state, out ++ out').
Proof.
  rewrite !process_into_bytes. revert state. induction u as [|b u IH]; intros state; cbn.
  - rewrite process_into_bytes. by destruct (process_bytes v state).
  - destruct (process_byte b state) as [s1 o1]. rewrite IH. destruct (process_bytes u s1) as [s2 o2].
    rewrite process_into_bytes. destruct (process_bytes v s2) as [s3 o3]. by rewrite app_assoc.
Qed.

(** ** The theorems at work *)

Module ScannerExample.
Definition capacity (n : nat) : nat → nat := λ _, n.

(** A cursor query, a character of three bytes and a pending escape. *)
Definition pieces : list ((nat → nat) * list Z) :=
  [(capacity 0, [97; 27]); (capacity 64, [91; 54]); (capacity 0, [110; 226]); (capacity 8, [155; 155; 27])].

Lemma scanner_refines_automaton_witness :
  ∃ t out, scan_chunks pieces new_scanner = Some (t, out)
    ∧ events_of out
      = [TextByte 97; ControlEvent FamilyCsi [27; 91; 54; 110] (SemFixed QueryCursorPosition);
         TextByte 226; TextByte 155; TextByte 155]
    ∧ live_bytes t = [27] ∧ scan_bytes (events_of out) ++ live_bytes t = concat pieces.*2.
Proof.
  destruct (scanner_refines_automaton pieces) as (t & out & Hs & He & Hl & Hb).
  { repeat split; vm_compute; reflexivity. }
  exists t, out. repeat split; [exact Hs| | |exact Hb].
  - rewrite He. vm_compute. reflexivity.
  - rewrite Hl. vm_compute. reflexivity.
Defined.


Definition whole : list ((nat → nat) * list Z) := [(capacity 0, [27; 91; 63; 49; 104; 27; 91; 33; 112])].
Definition cut : list ((nat → nat) * list Z) :=
  [(capacity 0, [27; 91; 63; 49]); (capacity 16, [104; 27; 91; 33]); (capacity 0, [112])].

Lemma runtime_modes_any_chunks_witness :
  ∃ sc sc' tracker changes,
    feed_modes_chunks true whole (new_scanner, new_tracker) = Some (sc, tracker, changes)
    ∧ feed_modes_chunks true cut (new_scanner, new_tracker) = Some (sc', tracker, changes).
Proof.
  apply (runtime_modes_any_chunks true whole cut new_tracker); [reflexivity|].
  repeat split; vm_compute; reflexivity.
Defined.
End ScannerExample.
